(* ===== verification/_CoqProject ===== *)
-Q . S2P
Prelude.v
Handoff.v
Gate.v
Float64.v
Geo.v
Geojson.v
GridEvent.v
EventCodec.v
Tx.v
Store.v
Sources.v
StoreSpec.v
StoreFunc.v
Places.v
Mesh.v
Query.v
Scheduler.v
SchedulerSpec.v
GoText.v
MeshFrame.v
BurnStore.v
PushIngest.v
PushSpec.v
MeshRelay.v
MeshRelaySpec.v
MeshRegistry.v
MeshRegistrySpec.v
Companion.v
RelayPoll.v
RelayPollSpec.v
Severity.v
Feeds.v
Network.v
NetworkSpec.v
Evacuation.v
EvacuationSpec.v
Wildfire.v
WildfireSpec.v
Power.v
PowerSpec.v
Cache.v
Hazards.v
HazardsSpec.v
Summary.v
SummarySpec.v
SummaryStore.v
ReadApi.v
ReadApiSpec.v
ReadApiEvent.v
ReadApiDemo.v
BurnStatus.v
BurnStatusSpec.v
Closures.v
ClosuresSpec.v
WeatherAlerts.v
WeatherAlertsSpec.v
WeatherService.v
WeatherServiceSpec.v
Earthquake.v
Cameras.v
CamerasSpec.v
MapFeatures.v
MapLayers.v
HttpSpec.v
MapLayersSpec.v
CamerasNear.v
MapDemo.v
