(* ===== verification/Prelude.v ===== *)
(** * The Grid (sierra-data): a verification development

    The Grid collects hazard and conditions data for the Sierra from many feeds
    into one SQLite database and serves it. This library models the Go code that
    decides what the database holds and who may write it, and proves what it
    promises.

    ** The program

    - Pollers ([internal/ingest]) fetch feeds and return events. The scheduler
      ([internal/ingest/scheduler.go]) runs one tick per poller: it upserts what
      changed, stamps what was seen, ends what disappeared and records the health
      of each source.
    - The store ([internal/store]) keeps events with their full revision history,
      their attachments to places, the source registry and the mesh measurements;
      queries page through it; ETags are built from its validators.
    - Geometry ([internal/lib/geo], [internal/lib/geojson]) attaches events to
      places.
    - The push ingest ([internal/pushingest]) is how outside systems write: burn
      lines, which a poller later turns into events, and reports of mesh clients,
      in batches or one raw packet at a time.
    - The relay's poller ([internal/relaytelemetry]) runs inside the mesh relay and
      is one of those reporters: it reads gateway nodes and shared repeaters.
    - The mesh client ([internal/clients/meshcore]) decodes the packets of the
      radio mesh, attributes each one to the observer and relay that heard it,
      and keeps the registry of nodes the network poller reads.
    - The hand-over ([internal/handoff]) lets a new process take the database from
      the old one during a deploy: the two must never both have it open, and
      requests in flight are drained first.

    ** The files

    - [Prelude]: tactics, hints and the lemmas on lists, sorting and strings that
      the other files share.
    - [Handoff]: [controller.go]. [Controller] is the state of one process, each
      method holding [c.mu] a function of it; [step] interleaves the activation,
      the quiescence, the main goroutine and the requests of a [World]. Theorems:
      two processes of a hand-over never both have the database open; a process
      that reports it as not held does not have it; each step is an arrow of the
      diagram in [doc.go], or the one it lacks; QUIESCED is terminal; exit code 0
      means released; a shutdown ends after a number of steps bounded by the
      control requests that begin an operation meanwhile; a replayed operation
      starts nothing.
    - [Gate]: [gate.go]. Admission counter, idle channel as a heap cell, [Drain]
      as a machine cut at its lock acquisitions. Theorems: a drain that reports
      nothing left leaves a gate no request runs behind; the counts agree.
    - [Float64]: binary64 as Go computes with it, over [SpecFloat]; the inexact
      functions of [math] are the class [MathKernel].
    - [Geo], [Geojson]: distances, parsing, boxes, point in polygon, intersection,
      proximity. Theorems: a parsed geometry lies in its box; open and closed
      rings are equivalent; intersection is symmetric; the polyline distance is
      the least of its segments' distances.
    - [GridEvent]: the messages of [grid.proto]. [EventCodec]: an injective
      encoding of events, which only witnesses use.
    - [Tx]: the monad of database code. A state has tables, process memory and a
      plan of faults: any statement may fail, as may begin and commit; [inTx] rolls
      the tables back. [wp] is what a successful run leaves, [twp] adds that a run
      without faults succeeds, [keeps] speaks of all runs.
    - [Store]: [events.go] and the tables of [schema.sql]. [StoreSpec]: the
      operations as a small set of effects ([effect], [moves]); theorems over any
      sequence of operations and any faults: the table invariant [DbOk], stamps
      identify bodies, the list version is a sound validator. [StoreFunc]: the
      contract of each write operation, that it succeeds without faults, and that
      place matching always uses the current places.
    - [Sources]: [sources.go], and the start-up retirement of [cmd/server/main.go].
      Theorems: seeding, health as a function of the poll history, and that a
      source with events is never removed.
    - [Places]: the lookups of [places.go].
    - [Mesh]: [mesh.go], [mesh_activity.go], [mesh_telemetry.go]. Theorems:
      compaction neither loses nor double-counts; activity never moves back; the
      archive is append-only and follows a key promotion; when rowids restart
      under the watermark, receptions are lost.
    - [Query]: [query.go]. A generic section on keyset pagination over tables that
      change between pages, with the event list, one event's history and the
      archive as its instances.
    - [Scheduler], [SchedulerSpec]: one tick, on the store and the mesh tables
      together ([zoom] runs an operation of one on the pair). [runs] bounds what a
      program may do by a set of allowed operations; a tick only performs what its
      poll allows. Theorems: a failed or partial fetch never ends an event; a tick
      keeps the store's invariant; the sweep's policy; the write gate; the
      enhancement budget.
    - [GoText]: the functions of [strings], [hex] and [utf8] the code below calls,
      and the node keys of [meshkeys.go]. Theorem: node keys round trip.
    - [MeshFrame]: [frame.go], [advert.go]: the firmware's packet and advert
      formats over bytes. Theorems: the layout of each, with the refusals.
    - [BurnStore]: [burnline.Store], the staging area of pushed burn readings.
      Theorem: no reading is ever replaced by an older one.
    - [PushIngest], [PushSpec]: [pushingest]: the token registry, the request
      pipeline of [handler.go], the burn and mesh streams, rate limits. Theorems:
      all a request may change, of the registry, the staged readings, the packet
      sink and the wakes; the rate limit; what a mesh report leaves; a registry
      that loads is well formed.
    - [MeshRelay], [MeshRelaySpec]: [relay.go]: the evidence graph and the
      resolution of hop prefixes. Theorems: rule 2 reaches its fixed point within
      the hops of the packet; edges rest on evidence; a credit is unambiguous;
      packets drain in order.
    - [MeshRegistry], [MeshRegistrySpec]: [client.go]: nodes, statuses, pruning,
      snapshots. Theorems: the registry invariant; a published identity was
      signed or configured; the contract of one packet; presence and its
      timeouts.
    - [Companion]: [companion.go] and the exchange of [relaytelemetry/poller.go]:
      reading a node over one lease, from a script of arrivals. Theorem: a reading
      is of the node behind the pinned key, and null where it did not answer.
    - [RelayPoll], [RelayPollSpec]: [internal/relaytelemetry]: the polls, the
      schedule of shared repeaters, the report, forwarded adverts. The relay and
      the Grid are a class over a world. Theorems: the airtime of a cycle is
      bounded; a due repeater is asked, again and again; a tick ends; what a
      cycle leaves, hibernation included; a restart resumes; the report is
      complete; an accepted advert is not sent again.
    - [Severity]: [hazards/severity.go], [severity_export.go]: how each feed's own
      grading maps onto the scale, and how an evacuation status is read.
    - [Feeds]: [ingest.go] and what more than one normalizer uses: an event's
      envelope and geometry, the scope, the replies of servers, stable sorts,
      clusters, groups by key.
    - [Network], [NetworkSpec]: [ingest/network.go]: one poll of the mesh feed, over the mesh registry
      and the push endpoint as the classes [MeshRegistry] and [MeshPushSource],
      which the models of both implement. Theorems: through the scheduler's tick,
      a broker or a forwarder that is out, or an input that is silent altogether,
      never ends a node; which nodes a poll presents; whose
      readings an event carries; a node that did not change keeps its content hash;
      activity clocks reach the store; relay presence lasts its window.
    - [Evacuation], [EvacuationSpec]: [ingest/evacuation.go] over
      [clients/caloes/client.go]. Theorems: no active zone is dropped or graded
      down and no outage reads as an empty layer; a zone keeps its id while those
      that share its name come and go; when ids are distinct, and when they are not.
    - [Wildfire], [WildfireSpec]: [ingest/wildfire.go] over the clients of CAL FIRE
      and FIRIS. Theorems: the perimeter cache never invents or hides; the
      perimeters do not depend on the order of the rows; an outage of one feed
      leaves the fires of the other their events; a perimeter is that of its fire;
      what is superseded was replaced; ids are distinct.
    - [Power], [PowerSpec]: [ingest/power.go] over [clients/pge/client.go]. Theorems:
      each listed outage and shutoff has its one event and a source is healthy
      only when its answer is the whole current set; the order of the polygon
      rows does not show; a blank polygon layer keeps the footprints; a shutoff is
      never summarised as less urgent than its worst row.
    - [BurnStatus], [BurnStatusSpec]: [ingest/burn_status.go] over
      [clients/calfireburn/client.go] and the staged readings. Theorems: a county is
      ALLOWED exactly when every line dialed for it was heard and says so, and a
      marginal day, which [grid.proto] calls prohibited, is UNKNOWN; two
      polls give the same content exactly when the answers are the same.
    - [Closures], [ClosuresSpec]: [ingest/lane_closure.go] over [clients/cwwp2].
      Theorems: every window planned or in place has its event, a file that drifted
      is never read as closures that ended, and when a poll fails or degrades (a
      row whose coordinates are NaN or out of range counts as placed).
    - [WeatherAlerts], [WeatherAlertsSpec]: [ingest/weather_alert.go], [clients/nws]
      and the alerts of [services/weather_nws.go] over the cache. Theorems: what a
      poll serves after any history of polls, reads and cleanups; when the fire
      weather is red-flag.
    - [WeatherService], [WeatherServiceSpec]: [services/weather.go]: what a refresh
      lists, and what it keeps too long.
    - [Earthquake]: [ingest/earthquake.go] over [clients/usgs/client.go].
    - [Cameras], [CamerasSpec]: [clients/cwwp2/cctv.go], [services/cameras.go].
      Theorem: after any history of refreshes, list, status and time are a function
      of what each district last answered.
    - [Cache]: [internal/cache]. Theorems: how long an entry is served and kept,
      whatever happens to other keys; what a read between two locks may return.
    - [Hazards], [HazardsSpec]: [internal/hazards]: the condition layers (chain
      controls, road segments, fire weather, message signs) and [buildLayer] over
      the cache. Theorems: after any history, the status of a layer says what its
      features are, and a failure is never served as an empty answer; sources are
      asked once in a lifetime; an unreadable chain control is not hidden.
    - [Summary], [SummarySpec], [SummaryStore]: [gridapi/summary.go] with the source
      health of [maplayers.go]. Theorems: when a place is quiet, as a condition on
      its events, its sources and its layers; when the number of evacuations is
      left out, what a number counts, and that a 0 marked OK comes from a healthy
      source, while a failing one may serve a 0 marked STALE; a domain is OK only
      when all behind it is; and, over the store and
      any faults, that what is served is the summary of the stored events.

    - [ReadApi]: [gridapi/grpc.go], [events.go], [mesh_activity.go], [places.go].
      [ReadApiSpec], [ReadApiEvent]: a conditional request that is answered "not
      modified" would have been answered with the body the client holds, whatever
      was written in between; for the event list under any faults too, but for a
      body whose read of the mesh clocks failed; [ReadApiDemo]: that on concrete
      requests, with such a body.
    - [MapFeatures], [MapLayers]: [gridapi/project.go], [maplayers.go], [cameras.go],
      [mesh.go], [etag.go]. [HttpSpec]: the validators of these routes name their
      data. [MapLayersSpec]: over the store and any faults, an event layer shows
      exactly the live events of its kind at the place. [CamerasNear]: the camera
      list and the relay topology; [MapDemo]: concrete layers.

    ** Conventions

    A Go error is a sum; a nil message is [None]; a [time.Time] is a number of
    nanoseconds since the start of year 1, so the zero time is 0; a column holds the integer the
    code binds. [uint32] revisions wrap ([u32]); theorems that need them not to
    say so ([small]: fewer than 2^32 - 1 revisions in all). Tables are finite maps
    by primary key, or lists where order or rowids matter, with the constraints of
    the schema (foreign key, unique, primary key, WITHOUT ROWID, rowid choice)
    written into the operations they can refuse. The clock, marshalling, SHA-256,
    JSON decoding, page token encoding, the upstream polls and the language model
    are parameters; what is assumed of them is named where it is used: that the
    content hash has no collisions, that marshalling succeeds, that tokens round
    trip. Each such theorem has a witness with concrete functions.

    Fuel: [CompactMeshObservations] takes the number of chunks it may process;
    [compaction_exact] shows that it ends when the rows past the watermark are
    fewer than that number of full chunks holds. [chunks] and [chunks_of] take the length of the list, and each round
    drops at least one element. The resolution of a packet's hops repeats its
    second rule at most once more than there are hops; [rule2_settles] shows that
    this reaches the fixed point the code's loop stops at. A tick over a repeater
    makes at most the attempts its cycle has left, a measure every step lowers;
    [tick_terminates] shows that its loop runs to the exit the code has. The search
    for a free suffix of an evacuation id tries one more than there are ids taken,
    and [free_suffix_spec] shows that it finds one. [drain] takes the number of
    pages it may ask for; [summary_of_store] and [event_layer_served] show that more
    than there are rows is enough.

    ** Not modelled

    Road incidents ([ingest/road_incident.go]) with the roads service and the KML
    client behind them, weather forecasts, conditions, scanners and the stored
    readings of mesh nodes in the read API, and configuration
    validation are not modelled; prompts for the language model, MCP and OpenAPI
    documents, and the binaries are text and wiring. Of a map layer's request, the
    store reads run one after the other with no write in between, while the
    not-stale theorems of the read API take any writes between two requests; each
    refresh of the camera directory is one step. Of the push ingest
    and the mesh client, what is left out is HTTP routing and the bytes of the
    answers, JSON decoding, MQTT sessions, the wording of the brokers' health, and
    requests in parallel (each handler runs as one step); of the relay's poller,
    its timers. Neither are opening, locking and
    migrating the database, timers, goroutine scheduling of the pollers, panics,
    logging and context cancellation (which shows only as a failing statement);
    the event tables' R-tree of boxes is written but no query reads it. *)

From Stdlib Require Export ZArith Lia.
From stdpp Require Export base gmap strings list fin_maps sorting option relations.

#[global] Open Scope Z_scope.
#[global] Set Default Proof Using "Type".

(** ** Tactics

    [destruct_match] splits on the scrutinee of some [match]; [crush] closes
    the routine goals that are left after unfolding a handler: constructors,
    congruence and arithmetic. *)

Ltac destruct_match :=
  match goal with
  | |- context [match ?x with _ => _ end] => destruct x eqn:?
  | H : context [match ?x with _ => _ end] |- _ => destruct x eqn:?
  end.

Ltac crush := simplify_eq/=; try done; try congruence; try lia; eauto.

Create HintDb grid.

(** ** Go's [time.Time] and [time.Duration]

    A time is the number of nanoseconds since 0001-01-01T00:00:00Z, so the Go
    zero value is 0 and [IsZero] is equality with 0. A duration is an int64
    number of nanoseconds; [Time.Sub] saturates at the int64 bounds, which is
    what a subtraction from the zero value does in practice. *)

Abbreviation Time := Z (only parsing).
Abbreviation Duration := Z (only parsing).

Definition second : Duration := 1000000000.
Definition minute : Duration := 60 * second.
Definition hour : Duration := 60 * minute.

(** Seconds between 0001-01-01 and the Unix epoch. *)
Definition epoch_seconds : Z := 62135596800.

Definition max_int64 : Z := 2 ^ 63 - 1.
Definition min_int64 : Z := - 2 ^ 63.

Definition time_zero : Time := 0.
Definition time_is_zero (t : Time) : bool := t =? 0.
Definition time_after (t u : Time) : bool := u <? t.
Definition time_before (t u : Time) : bool := t <? u.
Definition time_add (t : Time) (d : Duration) : Time := t + d.
Definition time_sub (t u : Time) : Duration :=
  Z.max min_int64 (Z.min max_int64 (t - u)).
Definition time_unix (t : Time) : Z := t / second - epoch_seconds.
Definition time_of_unix (s : Z) : Time := (s + epoch_seconds) * second.

Lemma time_after_spec t u : time_after t u = true <-> u < t.
Proof. unfold time_after. lia. Qed.

Lemma time_after_false t u : time_after t u = false <-> t <= u.
Proof. unfold time_after. lia. Qed.

Lemma time_unix_of_unix s : time_unix (time_of_unix s) = s.
Proof.
  unfold time_unix, time_of_unix. rewrite Z.div_mul by (unfold second; lia). lia.
Qed.

Lemma time_unix_mono t u : t <= u -> time_unix t <= time_unix u.
Proof.
  intros H. unfold time_unix.
  pose proof (Z.div_le_mono t u second ltac:(unfold second; lia) H). lia.
Qed.

Lemma time_sub_mono_r t u u' : u <= u' -> time_sub t u' <= time_sub t u.
Proof. unfold time_sub. lia. Qed.

Lemma time_sub_mono_l t t' u : t <= t' -> time_sub t u <= time_sub t' u.
Proof. unfold time_sub. lia. Qed.

(** Inside the int64 range the subtraction is exact. *)
Lemma time_sub_exact t u : min_int64 <= t - u <= max_int64 -> time_sub t u = t - u.
Proof. unfold time_sub. lia. Qed.

(** A comparison with an in-range duration does not see the saturation. *)
Lemma time_sub_le_iff t u d :
  min_int64 <= d < max_int64 -> time_sub t u <= d <-> t - u <= d.
Proof. unfold time_sub. lia. Qed.

(** An UPDATE of a row that exists. *)
Lemma alter_lookup_insert {A} (f : A -> A) (m : gmap string A) k a :
  m !! k = Some a -> alter f k m = <[k := f a]> m.
Proof.
  intros H. apply map_eq. intros j. destruct (decide (j = k)) as [-> |Hne].
  - by rewrite lookup_alter_eq, H, lookup_insert_eq.
  - by rewrite lookup_alter_ne, lookup_insert_ne by done.
Qed.

(** Filters and orders. *)
Lemma filter_all {A} (P : A -> Prop) `{!forall x, Decision (P x)} (l : list A) :
  (forall x, x ∈ l -> P x) -> filter P l = l.
Proof.
  induction l as [|x l IH]; intros HP; [done|]. rewrite filter_cons_True by (apply HP; by left).
  f_equal. apply IH. intros y Hy. apply HP. by right.
Qed.

Lemma filter_none {A} (P : A -> Prop) `{!forall x, Decision (P x)} (l : list A) :
  (forall x, x ∈ l -> ~ P x) -> filter P l = [].
Proof.
  induction l as [|x l IH]; intros HP; [done|]. rewrite filter_cons_False by (apply HP; by left).
  apply IH. intros y Hy. apply HP. by right.
Qed.

Lemma StronglySorted_filter {A} (R : A -> A -> Prop) (P : A -> Prop) `{!forall x, Decision (P x)} (l : list A) :
  StronglySorted R l -> StronglySorted R (filter P l).
Proof.
  induction 1 as [|x l Hs IH Hx]; [constructor|]. rewrite filter_cons. case_decide; [|done].
  constructor; [done|]. rewrite Forall_forall in Hx |- *. intros y [_ Hy]%list_elem_of_filter. auto.
Qed.

(** ** Strings in byte order

    Go compares strings, and SQLite its BINARY collation, byte by byte. *)

Definition str_leb (a b : string) : bool := String.leb a b.
Definition str_ltb (a b : string) : bool := String.ltb a b.
Definition str_le (a b : string) : Prop := str_leb a b = true.

#[export] Instance str_le_dec : RelDecision str_le.
Proof. intros a b. unfold str_le. apply _. Defined.

Lemma ascii_compare_lt_trans a b c :
  Ascii.compare a b = Lt -> Ascii.compare b c = Lt -> Ascii.compare a c = Lt.
Proof. unfold Ascii.compare. rewrite !N.compare_lt_iff. lia. Qed.

Lemma ascii_compare_eq a b : Ascii.compare a b = Eq <-> a = b.
Proof.
  unfold Ascii.compare. rewrite N.compare_eq_iff. split; [|by intros ->].
  intros H. by rewrite <-(Ascii.ascii_N_embedding a), H, Ascii.ascii_N_embedding.
Qed.

Lemma str_compare_eq a b : String.compare a b = Eq <-> a = b.
Proof.
  revert b. induction a as [|x a IH]; intros [|y b]; cbn; try done.
  destruct (Ascii.compare x y) eqn:E.
  - apply ascii_compare_eq in E as ->. rewrite IH. split; congruence.
  - split; [done|]. intros [= -> ->]. assert (E' : Ascii.compare y y = Eq) by by apply ascii_compare_eq.
    congruence.
  - split; [done|]. intros [= -> ->]. assert (E' : Ascii.compare y y = Eq) by by apply ascii_compare_eq.
    congruence.
Qed.

Lemma str_compare_lt_trans a b c :
  String.compare a b = Lt -> String.compare b c = Lt -> String.compare a c = Lt.
Proof.
  revert b c. induction a as [|x a IH]; intros [|y b] [|z c]; cbn; try done.
  destruct (Ascii.compare x y) eqn:E1, (Ascii.compare y z) eqn:E2; try done; intros H1 H2.
  - apply ascii_compare_eq in E1 as ->. rewrite E2. eauto.
  - apply ascii_compare_eq in E1 as ->. by rewrite E2.
  - apply ascii_compare_eq in E2 as ->. by rewrite E1.
  - by rewrite (ascii_compare_lt_trans _ _ _ E1 E2).
Qed.

Lemma str_le_cases a b : str_le a b <-> String.compare a b = Lt \/ a = b.
Proof.
  unfold str_le, str_leb, String.leb. rewrite <-str_compare_eq.
  destruct (String.compare a b); intuition congruence.
Qed.

Lemma str_ltb_spec a b : str_ltb a b = true <-> String.compare a b = Lt.
Proof. unfold str_ltb, String.ltb. destruct (String.compare a b); intuition congruence. Qed.

Lemma str_ltb_irrefl a : str_ltb a a = false.
Proof.
  destruct (str_ltb a a) eqn:E; [|done]. apply str_ltb_spec in E.
  assert (Heq : String.compare a a = Eq) by by apply str_compare_eq. congruence.
Qed.

Lemma str_ltb_trans a b c : str_ltb a b = true -> str_ltb b c = true -> str_ltb a c = true.
Proof. rewrite !str_ltb_spec. apply str_compare_lt_trans. Qed.

Lemma str_ltb_total a b : str_ltb a b = false -> str_ltb b a = false -> a = b.
Proof.
  unfold str_ltb, String.ltb. rewrite (String.compare_antisym b a).
  destruct (String.compare a b) eqn:E; cbn; try done. intros _ _. by apply str_compare_eq.
Qed.

#[export] Instance str_le_trans : Transitive str_le.
Proof.
  intros a b c. rewrite !str_le_cases. intros [H1| ->] [H2| ->]; eauto using str_compare_lt_trans.
Qed.

#[export] Instance str_le_total : Total str_le.
Proof. intros a b. unfold str_le, str_leb. destruct (String.leb_total a b); auto. Qed.

#[export] Instance str_le_antisym : AntiSymm eq str_le.
Proof. intros a b Ha Hb. by apply String.leb_antisym. Qed.

(** [sort.Strings]. *)
Definition sort_strings (l : list string) : list string := merge_sort str_le l.

Lemma sort_strings_perm l : sort_strings l ≡ₚ l.
Proof. apply merge_sort_Permutation. Qed.

Lemma sort_strings_sorted l : Sorted str_le (sort_strings l).
Proof. apply Sorted_merge_sort; apply _. Qed.

(** Two sorted lists with the same elements are equal. *)
Lemma sort_strings_unique l k : l ≡ₚ k -> Sorted str_le l -> sort_strings k = l.
Proof.
  intros Hp Hs. apply (Sorted_unique str_le).
  - apply sort_strings_sorted.
  - done.
  - by rewrite sort_strings_perm.
Qed.

#[export] Hint Resolve sort_strings_sorted : grid.
#[export] Hint Resolve time_unix_mono time_sub_mono_l time_sub_mono_r : grid.
