(* ===== verification/Handoff.v ===== *)
(** * Handoff: exclusive ownership of a database across a deploy

    [internal/handoff/controller.go]. A [Controller] is the lifecycle state of
    one process; every method that takes [c.mu] is one function on it. The
    asynchronous parts (the activation and quiescence goroutines, the main
    goroutine's [Run]/[shutdown], HTTP handlers) interleave as the steps of a
    [World]. *)

From S2P Require Import Prelude.

Module Handoff.

(** ** Data *)

Inductive State :=
  | StateStandby | StateActivating | StateActive | StateQuiescing | StateQuiesced.

#[export] Instance State_eq_dec : EqDecision State.
Proof. solve_decision. Defined.

Inductive OpStatus := opRunning | opSucceeded | opFailed.

#[export] Instance OpStatus_eq_dec : EqDecision OpStatus.
Proof. solve_decision. Defined.

Inductive OpKind := KActivate | KQuiesce.

#[export] Instance OpKind_eq_dec : EqDecision OpKind.
Proof. solve_decision. Defined.

Record Operation := mkOperation {
  op_ID : string;
  op_Kind : OpKind;
  op_Origin : string;
  op_Status : OpStatus;
  op_StartedAt : Time;
  op_FinishedAt : option Time;
  op_DurationMs : Z;
  op_Error : string;
}.

(** Operations and completion channels are heap objects: [c.op] is a pointer
    that the running goroutine also holds, and [c.opDone] is a channel the main
    goroutine may be waiting on. [ops] and [chans] are those two heaps
    ([chans !! k = Some true] when channel [k] is closed); [op] and [opDone]
    are the controller's pointers into them. [panicked] records a nil
    dereference or a close of a closed channel. *)
Record Controller := mkController {
  instanceID : string;
  tok : string;
  state : State;
  held : bool;
  ops : list Operation;
  op : option nat;
  chans : list bool;
  opDone : option nat;
  activatedBy : string;
  quiescedBy : string;
  cancelActive : bool;    (* the cancel function is set *)
  actCancelled : bool;    (* the current activation's context is cancelled *)
  panicked : bool;
}.

Definition set_state (s : State) (h : bool) (c : Controller) : Controller :=
  mkController (instanceID c) (tok c) s h (ops c) (op c) (chans c) (opDone c)
    (activatedBy c) (quiescedBy c) (cancelActive c) (actCancelled c) (panicked c).

Definition set_ops (os : list Operation) (o : option nat) (chs : list bool)
    (d : option nat) (c : Controller) : Controller :=
  mkController (instanceID c) (tok c) (state c) (held c) os o chs d
    (activatedBy c) (quiescedBy c) (cancelActive c) (actCancelled c) (panicked c).

Definition set_activatedBy (s : string) (c : Controller) : Controller :=
  mkController (instanceID c) (tok c) (state c) (held c) (ops c) (op c) (chans c)
    (opDone c) s (quiescedBy c) (cancelActive c) (actCancelled c) (panicked c).

Definition set_quiescedBy (s : string) (c : Controller) : Controller :=
  mkController (instanceID c) (tok c) (state c) (held c) (ops c) (op c) (chans c)
    (opDone c) (activatedBy c) s (cancelActive c) (actCancelled c) (panicked c).

Definition set_cancel (fn cancelled : bool) (c : Controller) : Controller :=
  mkController (instanceID c) (tok c) (state c) (held c) (ops c) (op c) (chans c)
    (opDone c) (activatedBy c) (quiescedBy c) fn cancelled (panicked c).

Definition panic (c : Controller) : Controller :=
  mkController (instanceID c) (tok c) (state c) (held c) (ops c) (op c) (chans c)
    (opDone c) (activatedBy c) (quiescedBy c) (cancelActive c) (actCancelled c) true.

(** [New]: a control listener needs a 32-byte token hash, standby needs a
    control listener. [hexDecode] is [hex.DecodeString] of the lowercased,
    trimmed [tokenSha256]; the process id comes from [randomID]. *)
Record Options := mkOptions {
  Addr : string;
  TokenSha256 : string;
  Standby : bool;
}.

Definition New (hexDecode : string -> option string) (rid : string)
    (opts : Options) : option Controller :=
  if Standby opts && bool_decide (Addr opts = "") then None
  else
    let mk tk := mkController rid tk
      (if Standby opts then StateStandby else StateActivating)
      false [] None [] None "" "" false false false in
    if bool_decide (Addr opts = "") then Some (mk "")
    else match hexDecode (TokenSha256 opts) with
         | Some b => if bool_decide (String.length b = 32%nat) then Some (mk b) else None
         | None => None
         end.

Definition cur_op (c : Controller) : option Operation :=
  match op c with
  | Some k => ops c !! k
  | None => None
  end.

(** ** The critical sections *)

(** [beginLocked]: the new operation's index is returned with the state. *)
Definition beginLocked (now : Time) (rid : string) (kind : OpKind)
    (origin id : string) (c : Controller) : nat * Controller :=
  let id := if bool_decide (id = "") then origin +:+ "-" +:+ rid else id in
  let k := length (ops c) in
  let d := length (chans c) in
  let c := set_ops (ops c ++ [mkOperation id kind origin opRunning now None 0 ""])
                   (Some k) (chans c ++ [false]) (Some d) c in
  let c := match kind with
           | KActivate => set_cancel true false (set_state StateActivating true c)
           | KQuiesce => set_state StateQuiescing (held c) c
           end in
  (k, c).

(** [close(c.opDone)]: closing a nil or closed channel panics. *)
Definition closeDone (c : Controller) : Controller :=
  match opDone c with
  | Some d =>
      match chans c !! d with
      | Some false => set_ops (ops c) (op c) (<[d := true]> (chans c)) (opDone c) c
      | _ => panic c
      end
  | None => panic c
  end.

(** [finishLocked]: mutates the operation the goroutine holds a pointer to. *)
Definition finishOp (now : Time) (err : option string) (o : Operation) : Operation :=
  mkOperation (op_ID o) (op_Kind o) (op_Origin o)
    (match err with Some _ => opFailed | None => opSucceeded end)
    (op_StartedAt o) (Some now) (time_sub now (op_StartedAt o) ÷ 1000000)
    (match err with Some e => e | None => op_Error o end).

Definition finishLocked (now : Time) (k : nat) (err : option string)
    (c : Controller) : Controller :=
  closeDone (set_ops (alter (finishOp now err) k (ops c)) (op c) (chans c) (opDone c) c).

(** What a [Service] method call can do: return nil, return an error that
    does or does not wrap [ErrStillHeld], or panic. *)
Inductive SvcRun :=
  | SvcOk
  | SvcErr (msg : string)
  | SvcStillHeld (msg : string)
  | SvcPanic (r : string).

(** [callService]: the error, and whether [errors.Is(err, ErrStillHeld)]. *)
Definition callService (what : string) (r : SvcRun) : option (string * bool) :=
  match r with
  | SvcOk => None
  | SvcErr m => Some (m, false)
  | SvcStillHeld m => Some (m, true)
  | SvcPanic p =>
      Some ("panic during " +:+ what +:+ ": " +:+ p
            +:+ ": handoff: the database could not be released", true)
  end.

Definition op_id_at (k : nat) (c : Controller) : string :=
  match ops c !! k with Some o => op_ID o | None => "" end.

(** [runActivate], from the service's return to the end. *)
Definition runActivate (now : Time) (k : nat) (r : SvcRun) (c : Controller) : Controller :=
  let err := callService "activation" r in
  let c := if cancelActive c then set_cancel false true c else c in
  match err with
  | Some (e, true) => finishLocked now k (Some e) (set_state StateQuiescing true c)
  | Some (e, false) => finishLocked now k (Some e) (set_state StateStandby false c)
  | None =>
      finishLocked now k None
        (set_activatedBy (op_id_at k c) (set_state StateActive true c))
  end.

(** [runQuiesce], from the service's return to the end. *)
Definition runQuiesce (now : Time) (k : nat) (r : SvcRun) (c : Controller) : Controller :=
  match callService "quiescence" r with
  | Some (e, _) => finishLocked now k (Some e) c
  | None =>
      finishLocked now k None
        (set_quiescedBy (op_id_at k c) (set_state StateQuiesced false c))
  end.

(** [fenceLocked]. *)
Definition fenceLocked (now : Time) (rid origin : string) (c : Controller) : Controller :=
  let id := origin +:+ "-" +:+ rid in
  let c := set_ops (ops c ++ [mkOperation id KQuiesce origin opSucceeded now (Some now) 0 ""])
             (Some (length (ops c))) (chans c ++ [true]) (Some (length (chans c))) c in
  set_quiescedBy id (set_state StateQuiesced false c).

(** ** The control API *)

Record Response := mkResponse {
  r_code : Z;
  r_State : option State;
  r_Operation : option Operation;
  r_Error : option (string * string);
}.

Definition StatusOK : Z := 200.
Definition StatusAccepted : Z := 202.
Definition StatusBadRequest : Z := 400.
Definition StatusUnauthorized : Z := 401.
Definition StatusConflict : Z := 409.

Definition replyLocked (code : Z) (c : Controller) : Response :=
  mkResponse code (Some (state c)) (cur_op c) None.

Definition conflictLocked (code msg : string) (c : Controller) : Response :=
  mkResponse StatusConflict (Some (state c)) (cur_op c) (Some (code, msg)).

(** A handler that panics writes nothing ([net/http] closes the connection). *)
Definition noReply : Response := mkResponse 0 None None None.

(** A goroutine started by a critical section: it calls the service and then
    finishes the operation at this index. *)
Inductive Task := TActivate (k : nat) | TQuiesce (k : nat).

Definition nonempty (s : string) : bool := negb (bool_decide (s = "")).

(** The state after a handler, what it writes, and the goroutine it starts. *)
Definition handleActivate (now : Time) (rid id : string) (c : Controller)
    : Controller * Response * option Task :=
  match state c with
  | StateStandby =>
      let failed_replay :=
        match cur_op c with
        | Some o => bool_decide (op_Kind o = KActivate) && bool_decide (op_ID o = id)
                    && nonempty id
        | None => false
        end in
      if failed_replay then
        (c, conflictLocked "operation_failed"
              "this operation already failed; retry with a new operationId" c, None)
      else
        let '(k, c') := beginLocked now rid KActivate "api" id c in
        (c', replyLocked StatusAccepted c', Some (TActivate k))
  | StateActivating =>
      if bool_decide (id = "") then (c, replyLocked StatusAccepted c, None)
      else match cur_op c with
           | None => (panic c, noReply, None)
           | Some o =>
               if bool_decide (id = op_ID o) then (c, replyLocked StatusAccepted c, None)
               else (c, conflictLocked "activation_in_progress"
                          ("activation " +:+ op_ID o +:+ " is in progress") c, None)
           end
  | StateActive =>
      if bool_decide (id = "") || bool_decide (id = activatedBy c) then
        (c, replyLocked StatusOK c, None)
      else (c, conflictLocked "already_active"
                 ("already active under operation " +:+ activatedBy c) c, None)
  | _ =>
      (c, conflictLocked "released"
            "this process has released its database and never reactivates" c, None)
  end.

Definition handleQuiesce (now : Time) (rid id : string) (c : Controller)
    : Controller * Response * option Task :=
  match state c with
  | StateStandby =>
      let c' := fenceLocked now rid "api" c in (c', replyLocked StatusOK c', None)
  | StateActivating =>
      match cur_op c with
      | None => (panic c, noReply, None)
      | Some o => (c, conflictLocked "activation_in_progress"
                        ("activation " +:+ op_ID o
                         +:+ " is in progress; wait for it to finish") c, None)
      end
  | StateActive =>
      let '(k, c') := beginLocked now rid KQuiesce "api" id c in
      (c', replyLocked StatusAccepted c', Some (TQuiesce k))
  | StateQuiescing =>
      match cur_op c with
      | None => (panic c, noReply, None)
      | Some o =>
          if decide (op_Status o = opRunning) then
            if bool_decide (id = "") || bool_decide (id = op_ID o) then
              (c, replyLocked StatusAccepted c, None)
            else (c, conflictLocked "quiescence_in_progress"
                       ("quiescence " +:+ op_ID o +:+ " is in progress") c, None)
          else if nonempty id && bool_decide (id = op_ID o) then
            (c, conflictLocked "operation_failed"
                  "this operation already failed; retry with a new operationId" c, None)
          else
            let '(k, c') := beginLocked now rid KQuiesce "api" id c in
            (c', replyLocked StatusAccepted c', Some (TQuiesce k))
      end
  | StateQuiesced => (c, replyLocked StatusOK c, None)
  end.

Record opRequest := mkOpRequest {
  OperationID : string;
  ExpectedInstanceID : string;
}.

Inductive Route := RActivate | RQuiesce.

Definition serve (rt : Route) :=
  match rt with RActivate => handleActivate | RQuiesce => handleQuiesce end.

(** [authed]. [sha256] is [sha256.Sum256] of the trimmed bearer token;
    [unmarshal] is [json.Unmarshal] of the body, which is consulted only when
    the trimmed body is not empty. [bearer] is [strings.CutPrefix]'s result on
    the Authorization header, [None] when the prefix is missing. *)
Section Authed.
Variable sha256 : string -> string.
Variable unmarshal : string -> option opRequest.

Definition authed (rt : Route) (now : Time) (rid : string) (bearer : option string)
    (body : string) (c : Controller) : Controller * Response * option Task :=
  let ok := match bearer with
            | Some t => bool_decide (sha256 t = tok c)
            | None => false
            end in
  if negb ok then
    (c, mkResponse StatusUnauthorized (Some (state c)) None
          (Some ("unauthenticated", "a valid deployment token is required")), None)
  else
    let req := if bool_decide (body = "") then Some (mkOpRequest "" "") else unmarshal body in
    match req with
    | None =>
        (c, mkResponse StatusBadRequest (Some (state c)) None
              (Some ("bad_request", "body must be JSON")), None)
    | Some req =>
        if bool_decide (128 < String.length (OperationID req))%nat then
          (c, mkResponse StatusBadRequest (Some (state c)) None
                (Some ("bad_request", "operationId is too long")), None)
        else if nonempty (ExpectedInstanceID req)
                && negb (bool_decide (ExpectedInstanceID req = instanceID c)) then
          (c, mkResponse StatusConflict (Some (state c)) None
                (Some ("instance_mismatch",
                       "expectedInstanceId " +:+ ExpectedInstanceID req
                       +:+ " is not this process (" +:+ instanceID c +:+ ")")), None)
        else serve rt now rid (OperationID req) c
    end.
End Authed.

(** GET /status and GET /readyz. *)
Definition Status_ready (c : Controller) : bool := bool_decide (state c = StateActive).
Definition Status_databaseHeld (c : Controller) : bool := held c.
Definition readyz (c : Controller) : Z := if Status_ready c then 200 else 503.

(** ** The main goroutine: [Run] and [shutdown]

    [SdLoop a]: about to test [attempt < 2]. [SdWait d a]: blocked on the
    channel [d], after [attempt--]. [SdQuiesce k a]: in [runQuiesce] of the
    operation [k]. [SdReturn code]: [shutdown] has returned. *)
Inductive SdPc :=
  | SdLoop (attempt : nat)
  | SdWait (d : nat) (attempt : nat)
  | SdQuiesce (k : nat) (attempt : nat)
  | SdReturn (code : Z).

(** One iteration of the loop in [shutdown], up to where it releases [c.mu]. *)
Definition shutdown (now : Time) (rid : string) (attempt : nat) (c : Controller)
    : Controller * option SdPc :=
  if (attempt <? 2)%nat then
    match state c with
    | StateStandby => (fenceLocked now rid "signal" c, Some (SdReturn 0))
    | StateQuiesced => (c, Some (SdReturn 0))
    | StateActivating =>
        let c := if cancelActive c then set_cancel true true c else c in
        (c, d ← opDone c; Some (SdWait d attempt))
    | StateQuiescing =>
        if bool_decide (op_Status <$> cur_op c = Some opRunning)
        then (c, d ← opDone c; Some (SdWait d attempt))
        else let '(k, c') := beginLocked now rid KQuiesce "signal" "" c in
             (c', Some (SdQuiesce k attempt))
    | StateActive =>
        let '(k, c') := beginLocked now rid KQuiesce "signal" "" c in
        (c', Some (SdQuiesce k attempt))
    end
  else (c, Some (SdReturn (if held c then 1 else 0))).

#[export] Instance SdPc_eq_dec : EqDecision SdPc.
Proof. solve_decision. Defined.

(** [Run]: before the boot activation, in the select loop (with the boot
    operation's channel until it has fired), in [shutdown], exited, and killed
    by [os.Exit] on a second signal. *)
Inductive RunPc :=
  | RunStart
  | RunSelect (bootDone : option nat)
  | RunShutdown (fatal : bool) (pc : SdPc)
  | RunExit (code : Z)
  | RunKilled.

#[export] Instance RunPc_eq_dec : EqDecision RunPc.
Proof. solve_decision. Defined.

(** [db] is what the controller reasons about but cannot see: whether the
    service has the database open. [failq] is the buffered [fail] channel. *)
Record World := mkWorld {
  ctl : Controller;
  run : RunPc;
  tasks : list Task;
  failq : bool;
  db : bool;
}.

Definition exited (w : World) : bool :=
  match run w with RunExit _ | RunKilled => true | _ => false end.

(** The service contract, as [Service]'s documentation states it. An
    activation that returns an error released what it opened unless the error
    wraps [ErrStillHeld]; a quiescence that returns nil closed the database.
    A panic promises nothing. *)
Definition svc_allows (t : Task) (r : SvcRun) (db db' : bool) : Prop :=
  match t, r with
  | TActivate _, SvcErr _ => db' = false
  | TActivate _, _ => True
  | TQuiesce _, SvcOk => db' = false
  | TQuiesce _, _ => implb db' db = true
  end.

Definition finish_task (now : Time) (t : Task) (r : SvcRun) (c : Controller) : Controller :=
  match t with
  | TActivate k => runActivate now k r c
  | TQuiesce k => runQuiesce now k r c
  end.

Inductive step (standby : bool) : World -> World -> Prop :=
  (* [Run] of a standby process goes straight to the select loop *)
  | step_standby c ts fq b :
      standby = true ->
      step standby (mkWorld c RunStart ts fq b) (mkWorld c (RunSelect None) ts fq b)
  (* the boot activation: [c.state = StateStandby; c.beginLocked("activate", ...)] *)
  | step_boot now rid c ts fq b k c' :
      standby = false ->
      beginLocked now rid KActivate "boot" "boot" (set_state StateStandby (held c) c) = (k, c') ->
      step standby (mkWorld c RunStart ts fq b)
                   (mkWorld c' (RunSelect (opDone c')) (ts ++ [TActivate k]) fq b)
  (* a control request that passed [authed] *)
  | step_http rt now rid id w c' resp t :
      exited w = false ->
      serve rt now rid id (ctl w) = (c', resp, t) ->
      step standby w (mkWorld c' (run w) (tasks w ++ option_list t) (failq w) (db w))
  (* an activation in progress opens the database *)
  | step_open k c rp ts fq :
      exited (mkWorld c rp ts fq false) = false ->
      TActivate k ∈ ts ->
      step standby (mkWorld c rp ts fq false) (mkWorld c rp ts fq true)
  (* a service call of an HTTP or boot goroutine returns *)
  | step_done now t r ts1 ts2 c rp fq b b' :
      exited (mkWorld c rp [] fq b) = false ->
      svc_allows t r b b' ->
      step standby (mkWorld c rp (ts1 ++ t :: ts2) fq b)
                   (mkWorld (finish_task now t r c) rp (ts1 ++ ts2) fq b')
  (* [Fail] *)
  | step_fail c rp ts fq b :
      step standby (mkWorld c rp ts fq b) (mkWorld c rp ts true b)
  (* SIGTERM, or [Run]'s context *)
  | step_signal bd c ts fq b :
      step standby (mkWorld c (RunSelect bd) ts fq b)
                   (mkWorld c (RunShutdown false (SdLoop 0)) ts fq b)
  | step_fatal bd c ts b :
      step standby (mkWorld c (RunSelect bd) ts true b)
                   (mkWorld c (RunShutdown true (SdLoop 0)) ts false b)
  | step_boot_done d c ts fq b :
      chans c !! d = Some true ->
      step standby (mkWorld c (RunSelect (Some d)) ts fq b)
        (mkWorld c (if decide (state c = StateActive) then RunSelect None else RunExit 1) ts fq b)
  (* [shutdown] *)
  | step_sd_iter now rid f a c c' pc ts fq b :
      shutdown now rid a c = (c', Some pc) ->
      step standby (mkWorld c (RunShutdown f (SdLoop a)) ts fq b)
                   (mkWorld c' (RunShutdown f pc) ts fq b)
  | step_sd_wait f d a c ts fq b :
      chans c !! d = Some true ->
      step standby (mkWorld c (RunShutdown f (SdWait d a)) ts fq b)
                   (mkWorld c (RunShutdown f (SdLoop a)) ts fq b)
  | step_sd_done now f k a r c ts fq b b' :
      svc_allows (TQuiesce k) r b b' ->
      step standby (mkWorld c (RunShutdown f (SdQuiesce k a)) ts fq b)
                   (mkWorld (runQuiesce now k r c) (RunShutdown f (SdLoop (S a))) ts fq b')
  | step_sd_return f code c ts fq b :
      step standby (mkWorld c (RunShutdown f (SdReturn code)) ts fq b)
                   (mkWorld c (RunExit (if f then 1 else code)) ts fq b)
  (* a second signal during the shutdown: [os.Exit(1)], which ends every
     goroutine and with it the process's hold on the file lock *)
  | step_second f pc c ts fq b :
      step standby (mkWorld c (RunShutdown f pc) ts fq b) (mkWorld c RunKilled [] fq false).

Definition init (c : Controller) : World := mkWorld c RunStart [] false false.

(** A process made by [New], with the database closed. *)
Definition reachable (standby : bool) (w : World) : Prop :=
  exists hexDecode rid opts c,
    Standby opts = standby /\ New hexDecode rid opts = Some c /\ rtc (step standby) (init c) w.

(** ** The invariant *)

(** The service calls in progress: the goroutines' and [shutdown]'s own. *)
Definition inflight (w : World) : list Task :=
  tasks w ++ match run w with
             | RunShutdown _ (SdQuiesce k _) => [TQuiesce k]
             | _ => []
             end.

Arguments inflight : simpl never.

(** The current operation has finished and its channel is closed. *)
Definition settled (c : Controller) : Prop :=
  exists k o d, op c = Some k /\ ops c !! k = Some o /\ op_Status o <> opRunning
    /\ opDone c = Some d /\ chans c !! d = Some true.

(** Operation [k] is the current one, running, and its channel is open. *)
Definition running (kind : OpKind) (k : nat) (c : Controller) : Prop :=
  exists o d, op c = Some k /\ ops c !! k = Some o /\ op_Kind o = kind
    /\ op_Status o = opRunning /\ opDone c = Some d /\ chans c !! d = Some false.

Definition WInv (w : World) : Prop :=
  let c := ctl w in
  match state c with
  | StateStandby =>
      held c = false /\ db w = false /\ inflight w = [] /\ (op c = None \/ settled c)
  | StateActivating =>
      held c = true /\ exists k, inflight w = [TActivate k] /\ running KActivate k c
  | StateActive => held c = true /\ inflight w = [] /\ settled c
  | StateQuiescing =>
      held c = true /\
      ((exists k, inflight w = [TQuiesce k] /\ running KQuiesce k c)
       \/ (inflight w = [] /\ settled c))
  | StateQuiesced =>
      held c = false /\ db w = false /\ inflight w = [] /\ settled c
  end.

(** Before the boot activation of a non-standby process. *)
Definition PreBoot (w : World) : Prop :=
  run w = RunStart /\ state (ctl w) = StateActivating /\ held (ctl w) = false
  /\ op (ctl w) = None /\ db w = false /\ tasks w = [].

(** How far [shutdown] is determines what it has already forced. *)
Definition SdInv (w : World) : Prop :=
  let c := ctl w in
  match run w with
  | RunShutdown _ (SdQuiesce _ _) => state c = StateQuiescing
  | RunShutdown _ (SdLoop (S _)) | RunShutdown _ (SdWait _ (S _)) =>
      state c = StateQuiescing \/ state c = StateQuiesced
  | RunShutdown _ (SdReturn 0) | RunExit 0 => state c = StateQuiesced
  | _ => True
  end.

Definition Killed (w : World) : Prop := run w = RunKilled /\ tasks w = [] /\ db w = false.

Definition Inv (standby : bool) (w : World) : Prop :=
  Killed w \/
  ((if standby then WInv w else PreBoot w \/ (run w <> RunStart /\ WInv w)) /\ SdInv w).

(** *** What each critical section does to the bookkeeping *)

Lemma begin_spec now rid kind origin id c k c' :
  beginLocked now rid kind origin id c = (k, c') ->
  running kind k c' /\ panicked c' = panicked c
  /\ state c' = (match kind with KActivate => StateActivating | KQuiesce => StateQuiescing end)
  /\ held c' = (match kind with KActivate => true | KQuiesce => held c end)
  /\ ops c' = ops c ++ [mkOperation (if bool_decide (id = "") then origin +:+ "-" +:+ rid else id)
                          kind origin opRunning now None 0 ""].
Proof.
  intros [= <- <-].
  assert (Hr : forall A (l : list A) x, (l ++ [x]) !! length l = Some x)
    by (intros; rewrite lookup_app_r, Nat.sub_diag; done).
  destruct kind; (split; [eexists _, _; cbn; rewrite !Hr; eauto 10 | done]).
Qed.

Lemma finish_spec kind k now err c0 c :
  running kind k c0 ->
  op c = op c0 -> ops c = ops c0 -> chans c = chans c0 -> opDone c = opDone c0 ->
  let c' := finishLocked now k err c in
  settled c' /\ state c' = state c /\ held c' = held c /\ panicked c' = panicked c.
Proof.
  intros (o & d & Hop & Ho & _ & _ & Hd & Hc) E1 E2 E3 E4.
  unfold finishLocked, closeDone. cbn. rewrite E4, Hd, E3, Hc. cbn.
  split; [|done].
  eexists k, (finishOp now err o), d. cbn. rewrite E1, E2, Hop.
  split; [done|]. split; [by rewrite list_lookup_alter_eq, Ho|].
  split; [by destruct err|]. split; [done|].
  apply list_lookup_insert_eq; eauto using lookup_lt_Some.
Qed.

Lemma runActivate_spec now k r c :
  running KActivate k c ->
  let c' := runActivate now k r c in
  settled c' /\ panicked c' = panicked c
  /\ match r with
     | SvcOk => state c' = StateActive /\ held c' = true
     | SvcErr _ => state c' = StateStandby /\ held c' = false
     | _ => state c' = StateQuiescing /\ held c' = true
     end.
Proof.
  intros H. unfold runActivate.
  destruct r; cbn -[finishLocked]; destruct (cancelActive c);
    (edestruct finish_spec as (? & -> & -> & ->); [exact H|done..|]); done.
Qed.

Lemma runQuiesce_spec now k r c :
  running KQuiesce k c ->
  let c' := runQuiesce now k r c in
  settled c' /\ panicked c' = panicked c
  /\ match r with
     | SvcOk => state c' = StateQuiesced /\ held c' = false
     | _ => state c' = state c /\ held c' = held c
     end.
Proof.
  intros H. unfold runQuiesce.
  destruct r; cbn -[finishLocked];
    (edestruct finish_spec as (? & -> & -> & ->); [exact H|done..|]); done.
Qed.

Lemma fence_spec now rid origin c :
  let c' := fenceLocked now rid origin c in
  settled c' /\ panicked c' = panicked c /\ state c' = StateQuiesced /\ held c' = false.
Proof.
  cbn. split; [|done]. eexists _, _, _. cbn.
  rewrite !lookup_app_r, !Nat.sub_diag by done. cbn. split_and!; done.
Qed.

Lemma running_cur kind k c :
  running kind k c -> exists o, cur_op c = Some o /\ op_Kind o = kind /\ op_Status o = opRunning.
Proof. intros (o & d & Hop & Ho & ? & ? & _). exists o. unfold cur_op. by rewrite Hop. Qed.

Lemma settled_cur c : settled c -> exists o, cur_op c = Some o /\ op_Status o <> opRunning.
Proof. intros (k & o & d & Hop & Ho & ? & _). exists o. unfold cur_op. by rewrite Hop. Qed.

(** *** The handlers: five ways a request can go *)

Inductive serve_case (now : Time) (rid id : string) (c : Controller) :
    Controller -> option Task -> Prop :=
  | serve_same : serve_case now rid id c c None
  | serve_begin_activate k c' :
      state c = StateStandby ->
      beginLocked now rid KActivate "api" id c = (k, c') ->
      serve_case now rid id c c' (Some (TActivate k))
  | serve_fence :
      state c = StateStandby ->
      serve_case now rid id c (fenceLocked now rid "api" c) None
  | serve_begin_quiesce k c' :
      state c = StateActive
        \/ (state c = StateQuiescing
            /\ exists o, cur_op c = Some o /\ op_Status o <> opRunning) ->
      beginLocked now rid KQuiesce "api" id c = (k, c') ->
      serve_case now rid id c c' (Some (TQuiesce k))
  | serve_panic :
      state c = StateActivating \/ state c = StateQuiescing -> cur_op c = None ->
      serve_case now rid id c (panic c) None.

Lemma serve_cases rt now rid id c c' resp t :
  serve rt now rid id c = (c', resp, t) -> serve_case now rid id c c' t.
Proof.
  destruct rt; cbn -[beginLocked fenceLocked]; unfold handleActivate, handleQuiesce;
    repeat destruct_match; intros; simplify_eq; try (by constructor; eauto);
    eapply serve_begin_quiesce; eauto 6.
Qed.

(** Reduces [inflight] of a concrete world and splits list equations. *)
Ltac inflight_simpl :=
  unfold inflight in *; cbn [tasks run ctl db failq] in *;
  repeat match goal with
  | H : _ ++ _ = [] |- _ => apply app_eq_nil in H as [? ?]
  | H : _ ++ [] = _ |- _ => rewrite app_nil_r in H
  | |- context [_ ++ []] => rewrite app_nil_r
  end; simplify_eq/=.

Lemma serve_winv now rid id c rp ts fq b c' t :
  WInv (mkWorld c rp ts fq b) -> serve_case now rid id c c' t ->
  WInv (mkWorld c' rp (ts ++ option_list t) fq b) /\ panicked c' = panicked c.
Proof.
  intros HI Hs. unfold WInv in HI; cbn in HI.
  destruct Hs as [| k c' Hst Hb | Hst | k c' Hst Hb | Hst Hop].
  - split; [|done]. unfold WInv; cbn. inflight_simpl. done.
  - rewrite Hst in HI. destruct HI as (_ & _ & Hfl & _).
    apply begin_spec in Hb as (Hr & -> & Hs & Hh & _). split; [|done].
    unfold WInv; cbn. rewrite Hs, Hh. inflight_simpl.
    split; [done|]. exists k. by rewrite H0.
  - rewrite Hst in HI. destruct HI as (_ & Hdb & Hfl & _).
    destruct (fence_spec now rid "api" c) as (? & -> & Hs & Hh). split; [|done].
    unfold WInv; cbn -[fenceLocked]. rewrite Hs, Hh. inflight_simpl. done.
  - apply begin_spec in Hb as (Hr & -> & Hs & Hh & _). split; [|done].
    unfold WInv; cbn. rewrite Hs, Hh.
    assert (held c = true /\ inflight (mkWorld c rp ts fq b) = []) as [-> Hfl].
    { destruct Hst as [Hst|[Hst (o & Ho & Hno)]]; rewrite Hst in HI;
        [by destruct HI as (? & ? & _)|].
      destruct HI as (? & [(k' & ? & Hr'%running_cur)|[? ?]]); [|done].
      destruct Hr' as (o' & Ho' & _ & ?). congruence. }
    split; [done|]. left. exists k. inflight_simpl. by rewrite H0.
  - exfalso. destruct Hst as [Hst|Hst]; rewrite Hst in HI.
    + destruct HI as (_ & k & _ & (o & ? & _)%running_cur). congruence.
    + destruct HI as (_ & [(k & _ & (o & ? & _)%running_cur)|[_ (o & ? & _)%settled_cur]]); congruence.
Qed.

(** *** Preservation *)

Lemma winv_done now t r ts1 ts2 c rp fq b b' :
  WInv (mkWorld c rp (ts1 ++ t :: ts2) fq b) -> svc_allows t r b b' ->
  WInv (mkWorld (finish_task now t r c) rp (ts1 ++ ts2) fq b')
  /\ panicked (finish_task now t r c) = panicked c
  /\ (state c = StateActivating \/ state c = StateQuiescing)
  /\ (state (finish_task now t r c) = StateActivating -> False)
  /\ (state c = StateQuiescing ->
      state (finish_task now t r c) = StateQuiescing
      \/ state (finish_task now t r c) = StateQuiesced).
Proof.
  intros HI Ha. unfold WInv in HI; cbn in HI.
  assert (Hne : forall l, (ts1 ++ t :: ts2) ++ l = [] -> False).
  { intros l Hl. by destruct ts1. }
  assert (H1 : forall l t', (ts1 ++ t :: ts2) ++ l = [t'] ->
      ts1 = [] /\ ts2 = [] /\ l = [] /\ t = t').
  { intros l t' Hl. destruct ts1 as [|? [|]]; cbn in Hl; [|discriminate..].
    injection Hl as -> Hl. by apply app_eq_nil in Hl as [-> ->]. }
  unfold inflight in HI; cbn in HI. destruct (state c) eqn:Hst.
  - by destruct HI as (_ & _ & ?%Hne & _).
  - destruct HI as (Hh & k & (-> & -> & Hl & ->)%H1 & Hr). cbn [finish_task].
    destruct (runActivate_spec now k r c Hr) as (Hset & -> & Hcase).
    split; [|destruct r; destruct Hcase as [-> _]; intuition congruence].
    unfold WInv, inflight; cbn [ctl tasks run db]. rewrite Hl.
    destruct r; cbn in Ha; destruct Hcase as [-> ->]; auto.
  - by destruct HI as (_ & ?%Hne & _).
  - destruct HI as (Hh & [(k & (-> & -> & Hl & ->)%H1 & Hr)|[?%Hne ?]]); [|done].
    cbn [finish_task].
    destruct (runQuiesce_spec now k r c Hr) as (Hset & -> & Hcase).
    split; [|destruct r; destruct Hcase as [-> _]; rewrite ?Hst; intuition congruence].
    unfold WInv, inflight; cbn [ctl tasks run db]. rewrite Hl.
    destruct r; cbn in Ha; destruct Hcase as [-> ->]; rewrite ?Hst, ?Hh; auto.
  - by destruct HI as (_ & _ & ?%Hne & _).
Qed.

Lemma winv_sd_done now f k a r c ts fq b b' :
  WInv (mkWorld c (RunShutdown f (SdQuiesce k a)) ts fq b) ->
  svc_allows (TQuiesce k) r b b' ->
  WInv (mkWorld (runQuiesce now k r c) (RunShutdown f (SdLoop (S a))) ts fq b')
  /\ panicked (runQuiesce now k r c) = panicked c
  /\ state c = StateQuiescing
  /\ (state (runQuiesce now k r c) = StateQuiescing
      \/ state (runQuiesce now k r c) = StateQuiesced).
Proof.
  intros HI Ha. unfold WInv, inflight in HI; cbn in HI.
  assert (H1 : forall t, ts ++ [TQuiesce k] = [t] -> ts = [] /\ t = TQuiesce k).
  { intros t Hl. destruct ts as [|? [|]]; by simplify_eq/=. }
  assert (Hne : ts ++ [TQuiesce k] = [] -> False) by (by destruct ts).
  destruct (state c) eqn:Hst.
  - by destruct HI as (_ & _ & ?%Hne & _).
  - by destruct HI as (_ & k' & (_ & ?)%H1 & _).
  - by destruct HI as (_ & ?%Hne & _).
  - destruct HI as (Hh & [(k' & (-> & [= ->])%H1 & Hr)|[?%Hne ?]]); [|done].
    destruct (runQuiesce_spec now k r c Hr) as (Hset & -> & Hcase).
    split; [|destruct r; destruct Hcase as [-> _]; rewrite ?Hst; intuition congruence].
    unfold WInv, inflight; cbn [ctl tasks run db].
    destruct r; cbn in Ha; destruct Hcase as [-> ->]; rewrite ?Hst, ?Hh; auto.
  - by destruct HI as (_ & _ & ?%Hne & _).
Qed.

Lemma sdinv_state c rp ts fq b c' ts' fq' b' :
  SdInv (mkWorld c rp ts fq b) ->
  (state c = StateQuiescing -> state c' = StateQuiescing \/ state c' = StateQuiesced) ->
  (state c = StateQuiesced -> state c' = StateQuiesced) ->
  (forall f k a, rp <> RunShutdown f (SdQuiesce k a)) ->
  SdInv (mkWorld c' rp ts' fq' b').
Proof.
  unfold SdInv; cbn. intros H H1 H2 Hn.
  destruct rp as [| |f pc|code|]; auto.
  - destruct pc as [[|a]|d [|a]|k a|[]]; auto; intuition; by destruct (Hn f k a).
  - destruct code; auto.
Qed.

Lemma serve_case_state now rid id c c' t :
  serve_case now rid id c c' t ->
  (state c = StateQuiescing -> state c' = StateQuiescing)
  /\ (state c = StateQuiesced -> state c' = StateQuiesced).
Proof.
  intros [| k c'' Hst Hb | Hst | k c'' Hst Hb | Hst Hop]; cbn; auto; try (split; congruence);
    apply begin_spec in Hb as (_ & _ & Hs & _); rewrite Hs; split; auto;
    destruct Hst as [|[]]; congruence.
Qed.

(** One iteration of [shutdown]. *)
Ltac winv_goal :=
  unfold Inv, WInv, SdInv, inflight; cbn [ctl run tasks db]; rewrite ?app_nil_r.

Lemma shutdown_winv now rid f a c c' pc ts fq b :
  WInv (mkWorld c (RunShutdown f (SdLoop a)) ts fq b) ->
  SdInv (mkWorld c (RunShutdown f (SdLoop a)) ts fq b) ->
  shutdown now rid a c = (c', Some pc) ->
  (WInv (mkWorld c' (RunShutdown f pc) ts fq b) /\ SdInv (mkWorld c' (RunShutdown f pc) ts fq b))
  /\ panicked c' = panicked c.
Proof.
  intros HI HS E. unfold WInv in HI; cbn in HI.
  assert (Hfl0 : inflight (mkWorld c (RunShutdown f (SdLoop a)) ts fq b) = ts)
    by apply app_nil_r.
  rewrite Hfl0 in HI. clear Hfl0. unfold SdInv in HS; cbn in HS.
  unfold shutdown in E. destruct (a <? 2)%nat eqn:Ha.
  2: { destruct a as [|a]; [discriminate|]. injection E as <- <-. winv_goal.
       destruct HS as [Hst|Hst]; rewrite Hst in *; destruct HI as (Hh & HI'); rewrite Hh;
         auto. }
  destruct (state c) eqn:Hst.
  - injection E as <- <-. destruct (fence_spec now rid "signal" c) as (? & -> & Hs & Hh).
    winv_goal. rewrite Hs, Hh. destruct HI as (_ & ? & ? & _). auto 10.
  - destruct HI as (Hh & k & Hfl & o & d & Hr).
    assert (Hd : opDone c = Some d) by tauto.
    assert (HS' : match a with S _ => False | O => True end)
      by (destruct a; [done|]; destruct HS; discriminate).
    destruct a; [|done].
    destruct (cancelActive c); cbn in E; rewrite Hd in E; injection E as <- <-;
      winv_goal; cbn; rewrite Hst, Hh; unfold running; eauto 15.
  - destruct (beginLocked now rid KQuiesce "signal" "" c) as [k c''] eqn:Hb.
    injection E as <- <-.
    apply begin_spec in Hb as (Hr & -> & Hs & Hh & _). destruct HI as (Hh' & -> & _).
    winv_goal. rewrite Hs, Hh. eauto 10.
  - destruct HI as (Hh & HI). case_bool_decide as Hrun.
    + destruct HI as [(k & Hfl & Hr)|[_ (o & Ho & Hn)%settled_cur]];
        [|rewrite Ho in Hrun; by simplify_eq/=].
      assert (Hr' := Hr). destruct Hr' as (o & d & Hr').
      assert (Hd : opDone c = Some d) by tauto. rewrite Hd in E. injection E as <- <-.
      winv_goal. rewrite Hst, Hh. split; [|done]. split; [eauto 10|]. destruct a; auto.
    + destruct HI as [(k & Hfl & (o & Ho & _ & Hr)%running_cur)|[Hfl _]];
        [rewrite Ho in Hrun; cbn in Hrun; congruence|].
      destruct (beginLocked now rid KQuiesce "signal" "" c) as [k c''] eqn:Hb.
      injection E as <- <-.
      apply begin_spec in Hb as (Hr & -> & Hs & Hh' & _).
      winv_goal. rewrite Hs, Hh', Hh. subst ts. eauto 10.
  - injection E as <- <-. winv_goal. rewrite Hst. destruct HI as (? & ? & ? & ?). auto 10.
Qed.

(** Steps that only move the main goroutine keep [WInv]. *)
Lemma winv_move c rp rp' ts fq fq' b :
  WInv (mkWorld c rp ts fq b) ->
  (forall f k a, rp <> RunShutdown f (SdQuiesce k a)) ->
  (forall f k a, rp' <> RunShutdown f (SdQuiesce k a)) ->
  WInv (mkWorld c rp' ts fq' b).
Proof.
  unfold WInv, inflight; cbn. intros HI Hn Hn'.
  destruct rp as [| |? []| |], rp' as [| |? []| |]; cbn in *; try done;
    first [by destruct (Hn _ _ _ eq_refl) | by destruct (Hn' _ _ _ eq_refl)].
Qed.

(** A process that can still step: either it has not booted, or [WInv] holds. *)
Definition live (standby : bool) (w : World) : Prop :=
  (standby = true \/ run w <> RunStart) /\ run w <> RunKilled.

Lemma inv_winv standby w : Inv standby w -> live standby w -> WInv w /\ SdInv w.
Proof.
  intros [[? _]|[HI HS]] [Hb Hk]; [done|]. destruct standby; [done|].
  destruct HI as [[? _]|[_ ?]]; [|done]. destruct Hb; done.
Qed.

Lemma inv_of standby w :
  WInv w /\ SdInv w -> standby = true \/ run w <> RunStart -> Inv standby w.
Proof. intros [? ?] Hb. right. split; [|done]. destruct standby; [done|]. right. by destruct Hb. Qed.

Lemma inv_cases standby w :
  Inv standby w -> exited w = false ->
  (live standby w /\ WInv w /\ SdInv w) \/ (standby = false /\ PreBoot w).
Proof.
  intros HI Hex. assert (run w <> RunKilled) by (intros E; by unfold exited in Hex; rewrite E in Hex).
  destruct (decide (standby = true \/ run w <> RunStart)) as [Hb|Hb].
  - left. split; [done|]. by eapply inv_winv.
  - right. destruct standby; [naive_solver|]. split; [done|].
    destruct HI as [[? ?]|[[?|[? ?]] ?]]; [done..|naive_solver].
Qed.

(** In the window before the boot activation a request changes nothing but
    the panic flag. *)
Lemma preboot_serve now rid id c c' t :
  state c = StateActivating -> op c = None -> serve_case now rid id c c' t ->
  t = None /\ state c' = state c /\ held c' = held c /\ op c' = op c.
Proof.
  intros Hst Hop [| | | k c'' Hq | ]; try congruence; auto.
  destruct Hq as [|[]]; congruence.
Qed.

Lemma step_http_inv standby rt now rid id w c' resp t :
  Inv standby w -> exited w = false -> serve rt now rid id (ctl w) = (c', resp, t) ->
  Inv standby (mkWorld c' (run w) (tasks w ++ option_list t) (failq w) (db w))
  /\ (live standby w -> panicked c' = panicked (ctl w)).
Proof.
  intros HI Hex Hs%serve_cases. destruct (inv_cases _ _ HI Hex) as [(Hl & HW & HS)|[-> Hpre]].
  - destruct w as [c rp ts fq b]; cbn in *.
    destruct (serve_winv _ _ _ _ _ _ _ _ _ _ HW Hs) as [HW' Hp].
    split; [|done]. apply inv_of; [split; [done|]|by destruct Hl].
    apply serve_case_state in Hs as [Hq Hd].
    destruct rp as [| |f [[|a]|d [|a]|k a|[]]|[]|]; cbn in *; intuition.
  - destruct w as [c rp ts fq b]. destruct Hpre as (Hrp & Hst & Hh & Hop & Hdb & Hts); cbn in *.
    subst. destruct (preboot_serve _ _ _ _ _ _ Hst Hop Hs) as (-> & Hst' & Hh' & Hop').
    split; [|by intros [[?|?] _]]. right. split; [|done]. left. unfold PreBoot; cbn.
    by rewrite Hst', Hh', Hop'.
Qed.

Lemma step_done_inv standby now t r ts1 ts2 c rp fq b b' :
  Inv standby (mkWorld c rp (ts1 ++ t :: ts2) fq b) ->
  exited (mkWorld c rp [] fq b) = false -> svc_allows t r b b' ->
  Inv standby (mkWorld (finish_task now t r c) rp (ts1 ++ ts2) fq b')
  /\ panicked (finish_task now t r c) = panicked c.
Proof.
  intros HI Hex Ha.
  destruct (inv_cases _ _ HI Hex) as [([Hb Hk] & HW & HS)|[-> (_ & _ & _ & _ & _ & Hts)]];
    [|by destruct ts1].
  destruct (winv_done now _ _ _ _ _ _ _ _ _ HW Ha) as (HW' & Hp & Hst & Hna & Hqq).
  split; [|done]. apply inv_of; [split; [done|]|done].
  destruct rp as [| |f [[|a]|d [|a]|k a|[]]|[]|]; cbn in *; try intuition congruence.
  exfalso. revert HW. unfold WInv, inflight; cbn. rewrite HS.
  intros (_ & [(k' & Hk' & _)|[Hk' _]]); apply (f_equal length) in Hk';
    rewrite !length_app in Hk'; cbn in Hk'; lia.
Qed.

Lemma step_open_inv standby k c rp ts fq :
  Inv standby (mkWorld c rp ts fq false) -> exited (mkWorld c rp ts fq false) = false ->
  TActivate k ∈ ts -> Inv standby (mkWorld c rp ts fq true).
Proof.
  intros HI Hex Hin.
  destruct (inv_cases _ _ HI Hex) as [([Hb Hk] & HW & HS)|[-> (_ & _ & _ & _ & _ & Hts)]].
  - apply inv_of; [split; [|exact HS]|done]. revert HW. unfold WInv, inflight; cbn.
    destruct (state c); [..|]; try tauto;
      intros (_ & _ & Hnil & _); destruct ts; cbn in *; set_solver.
  - cbn in Hts. set_solver.
Qed.

Lemma step_inv standby w w' :
  Inv standby w -> step standby w w' ->
  Inv standby w' /\ (live standby w -> panicked (ctl w') = panicked (ctl w)).
Proof.
  intros HI Hstep.
  destruct Hstep as [c ts fq b Hsb|now rid c ts fq b k c' Hsb Hb|rt now rid id w c' resp t Hex Hs
    |k c rp ts fq Hex Hin|now t r ts1 ts2 c rp fq b b' Hex Ha|c rp ts fq b|bd c ts fq b|bd c ts b
    |d c ts fq b Hc|now rid f a c c' pc ts fq b E|f d a c ts fq b Hc
    |now f k a r c ts fq b b' Ha|f code c ts fq b|f pc c ts fq b];
    cbn [ctl run] in *;
    try (destruct (inv_cases _ _ HI eq_refl) as [(Hl & HW & HS)|[? [Hpre ?]]];
         [|cbn in Hpre; try discriminate]).
  - split; [|done]. apply inv_of; [split; [by eapply winv_move|done]|by left].
  - congruence.
  - destruct Hl as [[?|?] _]; cbn in *; congruence.
  - subst standby. destruct H0 as (_ & Hh & Hop & Hdb & Hts); cbn in Hh, Hop, Hdb, Hts.
    apply begin_spec in Hb as (Hr & Hp & Hs & Hh' & _). split; [|cbn; intros [[|] _]; done].
    apply inv_of; [|by right]. subst. winv_goal. rewrite Hs, Hh'. eauto.
  - by eapply step_http_inv.
  - split; [|done]. by eapply step_open_inv.
  - destruct (step_done_inv _ now _ _ _ _ _ _ _ _ _ HI Hex Ha). done.
  - split; [|done]. destruct HI as [?|[HI HS]]; [by left|right]. split; [|exact HS].
    destruct standby; [exact HI|]. destruct HI as [Hpre|[? ?]]; [left|right]; done.
  - split; [|done]. apply inv_of; [split; [by eapply winv_move|done]|by right].
  - split; [|done]. apply inv_of; [split; [by eapply winv_move|done]|by right].
  - split; [|done]. apply inv_of; [split; case_decide; [by eapply winv_move..|done|done]|right; by case_decide].
  - destruct (shutdown_winv _ _ _ _ _ _ _ _ _ _ HW HS E) as [HI' Hp].
    split; [|done]. by apply inv_of; [|right].
  - split; [|done]. apply inv_of; [split; [by eapply winv_move|by destruct a]|by right].
  - destruct (winv_sd_done now _ _ _ _ _ _ _ _ _ HW Ha) as (HW' & Hp & _ & Hst).
    split; [|done]. by apply inv_of; [|right].
  - split; [|done]. apply inv_of; [split; [by eapply winv_move|]|by right].
    destruct f; [done|]. by destruct code.
  - split; [|done]. by left.
Qed.

Lemma init_inv hexDecode rid opts c :
  New hexDecode rid opts = Some c -> Inv (Standby opts) (init c).
Proof.
  unfold New. intros H. right.
  assert (state c = (if Standby opts then StateStandby else StateActivating) /\ held c = false
          /\ op c = None /\ panicked c = false) as (Hs & Hh & Hop & _)
    by (repeat destruct_match; simplify_eq/=; auto).
  split; [|done]. destruct (Standby opts).
  - unfold WInv, inflight; cbn. rewrite Hs. auto.
  - left. unfold PreBoot; cbn. auto 10.
Qed.

Lemma rtc_inv standby w w' : Inv standby w -> rtc (step standby) w w' -> Inv standby w'.
Proof. intros HI Hr. induction Hr; [done|]. apply IHHr. by eapply step_inv. Qed.

Lemma reachable_inv standby w : reachable standby w -> Inv standby w.
Proof.
  intros (hd & rid & opts & c & <- & HN & Hr). eapply rtc_inv; [|done]. by eapply init_inv.
Qed.

#[local] Hint Resolve reachable_inv : grid.

(** *** The documented lifecycle as an abstract machine *)

(** The arrows of the diagram in [doc.go]. *)
Inductive edge : State -> State -> Prop :=
  | e_activate : edge StateStandby StateActivating
  | e_active : edge StateActivating StateActive
  | e_failed : edge StateActivating StateStandby
  | e_quiesce : edge StateActive StateQuiescing
  | e_quiesced : edge StateQuiescing StateQuiesced
  | e_fence : edge StateStandby StateQuiesced.

(** The one arrow the diagram lacks: an activation that returns an error wrapping
    [ErrStillHeld], or panics, leaves ACTIVATING for QUIESCING. *)
Definition unreleased (r : SvcRun) : Prop := match r with SvcStillHeld _ | SvcPanic _ => True | _ => False end.
Definition still_held (w w' : World) : Prop := exists now k r,
  TActivate k ∈ tasks w /\ unreleased r /\ ctl w' = runActivate now k r (ctl w)
  /\ state (ctl w) = StateActivating /\ state (ctl w') = StateQuiescing.

Lemma finish_task_edge now t r c rp ts1 ts2 fq b b' :
  WInv (mkWorld c rp (ts1 ++ t :: ts2) fq b) -> svc_allows t r b b' ->
  state (finish_task now t r c) = state c \/ edge (state c) (state (finish_task now t r c))
  \/ still_held (mkWorld c rp (ts1 ++ t :: ts2) fq b) (mkWorld (finish_task now t r c) rp (ts1 ++ ts2) fq b').
Proof.
  intros HI Ha. unfold WInv, inflight in HI; cbn in HI.
  assert (H1 : forall l t', (ts1 ++ t :: ts2) ++ l = [t'] -> t = t').
  { intros l t' Hl. destruct ts1 as [|? [|]]; cbn in Hl; [|discriminate..].
    by injection Hl as ->. }
  assert (Hne : forall l, (ts1 ++ t :: ts2) ++ l = [] -> False) by (intros l Hl; by destruct ts1).
  destruct (state c) eqn:Hst.
  - by destruct HI as (_ & _ & ?%Hne & _).
  - destruct HI as (_ & k & ->%H1 & Hr). cbn.
    destruct (runActivate_spec now k r c Hr) as (_ & _ & Hcase).
    assert (Hin : TActivate k ∈ ts1 ++ TActivate k :: ts2) by (apply elem_of_app; right; left).
    destruct r as [|m|m|m]; destruct Hcase as [Hq _];
      [right; left; rewrite Hq; constructor|right; left; rewrite Hq; constructor| |];
      right; right; exists now, k; eexists; (split; [exact Hin|]; split; [|split; [reflexivity|split; [exact Hst|exact Hq]]]); done.
  - by destruct HI as (_ & ?%Hne & _).
  - destruct HI as (_ & [(k & ->%H1 & Hr)|[?%Hne _]]); [|done]. cbn.
    destruct (runQuiesce_spec now k r c Hr) as (_ & _ & Hcase).
    destruct r; destruct Hcase as [-> _]; auto. right; left; constructor.
  - by destruct HI as (_ & _ & ?%Hne & _).
Qed.

Lemma serve_edge now rid id c c' t :
  serve_case now rid id c c' t -> state c' = state c \/ edge (state c) (state c').
Proof.
  intros [| k c'' Hst Hb | Hst | k c'' Hst Hb | Hst Hop]; auto.
  - apply begin_spec in Hb as (_ & _ & -> & _). rewrite Hst. right; constructor.
  - cbn. rewrite Hst. right; constructor.
  - apply begin_spec in Hb as (_ & _ & -> & _).
    destruct Hst as [->|[-> _]]; [right; constructor|by left].
Qed.

(** The states a step visits are those of the lifecycle machine, but for
    [still_held]. [New] starts a legacy process in ACTIVATING, and [Run] enters its
    first operation without leaving it. *)
Lemma step_edge standby w w' :
  Inv standby w -> step standby w w' ->
  state (ctl w') = state (ctl w) \/ edge (state (ctl w)) (state (ctl w')) \/ still_held w w'.
Proof.
  intros HI Hstep.
  destruct Hstep as [c ts fq b Hsb|now rid c ts fq b k c' Hsb Hb|rt now rid id w c' resp t Hex Hs
    |k c rp ts fq Hex Hin|now t r ts1 ts2 c rp fq b b' Hex Ha|c rp ts fq b|bd c ts fq b|bd c ts b
    |d c ts fq b Hc|now rid f a c c' pc ts fq b E|f d a c ts fq b Hc
    |now f k a r c ts fq b b' Ha|f code c ts fq b|f pc c ts fq b]; cbn [ctl]; auto.
  - destruct (inv_cases _ _ HI eq_refl) as [([[?|?] _] & _)|[_ (_ & Hst & _)]];
      [congruence|done|].
    apply begin_spec in Hb as (_ & _ & -> & _). cbn in Hst. rewrite Hst. by left.
  - apply serve_cases in Hs. destruct (serve_edge _ _ _ _ _ _ Hs) as [?|?]; [by left|by right; left].
  - destruct (inv_cases _ _ HI Hex) as [(_ & HW & _)|[_ (_ & _ & _ & _ & _ & Hts)]].
    + by eapply finish_task_edge.
    + by destruct ts1.
  - unfold shutdown in E. destruct (a <? 2)%nat; [|by injection E as <- <-; left].
    destruct (state c) eqn:Hst; simplify_eq/=.
    + right; left; constructor.
    + destruct (cancelActive c), (opDone c); simplify_eq/=; rewrite Hst; by left.
    + right; left; constructor.
    + case_bool_decide; [destruct (opDone c)|]; simplify_eq/=; try rewrite Hst; by left.
    + rewrite Hst. by left.
  - destruct (inv_cases _ _ HI eq_refl) as [(_ & HW & _)|[_ [Hr _]]]; [|done].
    destruct (winv_sd_done now _ _ _ _ _ _ _ _ _ HW Ha) as (_ & _ & -> & [-> | ->]);
      [by left|right; left; constructor].
Qed.

Lemma step_quiesced standby w w' :
  Inv standby w -> step standby w w' -> state (ctl w) = StateQuiesced -> state (ctl w') = StateQuiesced.
Proof.
  intros HI Hs Hq. destruct (step_edge _ _ _ HI Hs) as [?|[He|(? & ? & ? & _ & _ & _ & He & _)]];
    [congruence|rewrite Hq in He; inversion He|congruence].
Qed.

(** ** Properties *)

(** A standby process, its first activation, and the release that follows:
    concrete worlds the properties are evaluated on. *)
Definition demo_hash : string := "0123456789abcdef0123456789abcdef".
Definition demo_opts : Options := mkOptions ":8081" "aa" true.
Definition demo_c0 : Controller :=
  mkController "inst" demo_hash StateStandby false [] None [] None "" "" false false false.
Definition demo_c1 : Controller := (handleActivate 100 "r1" "op-1" demo_c0).1.1.
Definition demo_c2 : Controller := runActivate 200 0 SvcOk demo_c1.
Definition demo_c3 : Controller := (handleQuiesce 300 "r2" "op-2" demo_c2).1.1.
Definition demo_c4 : Controller := runQuiesce 400 1 SvcOk demo_c3.
Definition demo_w1 : World := mkWorld demo_c1 (RunSelect None) [TActivate 0] false true.
Definition demo_w2 : World := mkWorld demo_c2 (RunSelect None) [] false true.
Definition demo_w3 : World := mkWorld demo_c3 (RunSelect None) [TQuiesce 1] false true.
Definition demo_w4 : World := mkWorld demo_c4 (RunSelect None) [] false false.
Definition demo_w5 : World := mkWorld demo_c4 (RunShutdown false (SdLoop 0)) [] false false.
Definition demo_w6 : World := mkWorld demo_c4 (RunExit 0) [] false false.

Lemma step_http_run standby rt now rid id w w' :
  exited w = false ->
  w' = mkWorld (serve rt now rid id (ctl w)).1.1 (run w)
         (tasks w ++ option_list (serve rt now rid id (ctl w)).2) (failq w) (db w) ->
  step standby w w'.
Proof.
  intros Hex ->. destruct (serve rt now rid id (ctl w)) as [[c' resp] t] eqn:E.
  by apply (step_http _ rt now rid id _ _ resp).
Qed.

Lemma demo_steps_4 : rtc (step true) (init demo_c0) demo_w1
  /\ rtc (step true) demo_w1 demo_w2 /\ rtc (step true) demo_w2 demo_w4.
Proof.
  split_and!.
  - apply (rtc_l _ _ (mkWorld demo_c0 (RunSelect None) [] false false));
      [by apply step_standby|].
    apply (rtc_l _ _ (mkWorld demo_c1 (RunSelect None) [TActivate 0] false false));
      [by apply (step_http_run true RActivate 100 "r1" "op-1")|].
    apply rtc_once, (step_open true 0); [done|]. apply list_elem_of_here.
  - apply rtc_once, (step_done true 200 (TActivate 0) SvcOk [] []); done.
  - apply (rtc_l _ _ demo_w3); [by apply (step_http_run true RQuiesce 300 "r2" "op-2")|].
    apply rtc_once, (step_done true 400 (TQuiesce 1) SvcOk [] []); done.
Qed.

Lemma demo_reach w : rtc (step true) (init demo_c0) w -> reachable true w.
Proof. intros H. exists (fun _ => Some demo_hash), "inst", demo_opts, demo_c0. done. Qed.

Lemma demo_reach_1 : reachable true demo_w1.
Proof. apply demo_reach, demo_steps_4. Qed.

Lemma demo_reach_4 : reachable true demo_w4.
Proof.
  apply demo_reach. destruct demo_steps_4 as (H1 & H2 & H3).
  etrans; [exact H1|]. etrans; [exact H2|exact H3].
Qed.

Lemma demo_reach_6 : reachable true demo_w6.
Proof.
  destruct demo_reach_4 as (h & r & o & c & Ho & HN & H4).
  exists h, r, o, c. split_and!; [done..|]. etrans; [exact H4|].
  eapply rtc_l; [apply step_signal|].
  eapply rtc_l; [by apply (step_sd_iter true 500 "r3")|].
  eapply rtc_l; [apply step_sd_return|]. apply rtc_refl.
Qed.

(** C6: whenever the controller reports the database as not held, it is not
    open; in particular a process in STANDBY or QUIESCED never has it open and
    runs no service call. This holds in every interleaving of control
    requests, boot, signals, shutdown and service outcomes. *)
Theorem not_held_not_open standby w :
  reachable standby w ->
  (held (ctl w) = false -> db w = false)
  /\ (state (ctl w) = StateStandby \/ state (ctl w) = StateQuiesced ->
      run w <> RunKilled -> held (ctl w) = false /\ db w = false /\ inflight w = []).
Proof.
  intros HI%reachable_inv. destruct HI as [(Hk & Hts & Hdb)|[HI _]]; [done|].
  assert (PreBoot w \/ WInv w) as [Hp|HW] by (destruct standby; intuition).
  - destruct Hp as (_ & Hst & _ & _ & Hdb & _). rewrite Hst. intuition congruence.
  - unfold WInv in HW. destruct (state (ctl w)); intuition congruence.
Qed.

Lemma not_held_not_open_witness :
  db demo_w4 = false.
Proof. exact (proj1 (not_held_not_open true demo_w4 demo_reach_4) eq_refl). Defined.

(** QUIESCED is terminal. Once a process has released its database, no
    later request, goroutine, signal or shutdown step moves it out of QUIESCED
    or opens the database again. *)
Theorem quiesced_terminal standby w w' :
  reachable standby w -> state (ctl w) = StateQuiesced -> rtc (step standby) w w' ->
  state (ctl w') = StateQuiesced /\ db w' = false.
Proof.
  intros HI%reachable_inv Hq Hr. induction Hr as [w|w1 w2 w3 H12 H23 IH].
  - split; [done|]. destruct HI as [(_ & _ & ?)|[HI _]]; [done|].
    assert (PreBoot w \/ WInv w) as [Hp|HW] by (destruct standby; intuition).
    + destruct Hp as (_ & Hp & _). congruence.
    + unfold WInv in HW. rewrite Hq in HW. tauto.
  - apply IH; [by eapply step_inv|].
    by eapply step_quiesced.
Qed.

Lemma quiesced_terminal_witness : state (ctl demo_w6) = StateQuiesced /\ db demo_w6 = false.
Proof.
  apply (quiesced_terminal true demo_w4 demo_w6 demo_reach_4); [reflexivity|].
  eapply rtc_l; [apply step_signal|].
  eapply rtc_l; [by apply (step_sd_iter true 500 "r3")|].
  eapply rtc_l; [apply step_sd_return|]. apply rtc_refl.
Defined.

(** A process exits with code 0 only after it released the database: it
    is QUIESCED, not held, and the database is closed. *)
Theorem exit_zero_released standby w :
  reachable standby w -> run w = RunExit 0 ->
  state (ctl w) = StateQuiesced /\ held (ctl w) = false /\ db w = false.
Proof.
  intros HI%reachable_inv Hr. destruct HI as [(Hk & _)|[HI HS]]; [congruence|].
  unfold SdInv in HS. rewrite Hr in HS. split; [done|].
  assert (WInv w) as HW.
  { destruct standby; [done|]. destruct HI as [(? & _)|[_ ?]]; [congruence|done]. }
  unfold WInv in HW. rewrite HS in HW. tauto.
Qed.

Lemma exit_zero_released_witness :
  state (ctl demo_w6) = StateQuiesced /\ held (ctl demo_w6) = false /\ db demo_w6 = false.
Proof. apply (exit_zero_released true demo_w6 demo_reach_6). reflexivity. Defined.

(** C25: Every step of a reachable process is a stutter or an arrow of the
    lifecycle diagram in doc.go, but for one kind of step the diagram leaves out: the
    return of an activation that could not release what it opened ([ErrStillHeld], or
    a panic), which goes from ACTIVATING to QUIESCING. At most one service call is
    ever in flight. And a step of a live process, which is a standby process or one
    whose boot activation [Run] has begun, dereferences no nil operation and closes
    no closed channel; before the boot activation a request can
    ([preboot_request_panics]). *)
Theorem lifecycle_refinement standby w w' :
  reachable standby w -> step standby w w' ->
  (state (ctl w') = state (ctl w) \/ edge (state (ctl w)) (state (ctl w')) \/ still_held w w')
  /\ (length (inflight w') <= 1)%nat
  /\ (live standby w -> panicked (ctl w') = panicked (ctl w)).
Proof.
  intros HI%reachable_inv Hs. split; [by eapply step_edge|].
  destruct (step_inv _ _ _ HI Hs) as [HI' Hp]. split; [|done].
  destruct HI' as [(Hk & Hts & _)|[HI' _]].
  { unfold inflight. rewrite Hk, Hts. cbn. lia. }
  assert (PreBoot w' \/ WInv w') as [Hpre|HW] by (destruct standby; intuition).
  - destruct Hpre as (Hr & _ & _ & _ & _ & Hts). unfold inflight. rewrite Hr, Hts. cbn. lia.
  - unfold WInv in HW. destruct (state (ctl w')).
    + destruct HW as (_ & _ & -> & _); cbn; lia.
    + destruct HW as (_ & k & -> & _); cbn; lia.
    + destruct HW as (_ & -> & _); cbn; lia.
    + destruct HW as (_ & [(k & -> & _)|[-> _]]); cbn; lia.
    + destruct HW as (_ & _ & -> & _); cbn; lia.
Qed.

Lemma lifecycle_refinement_witness :
  state (ctl demo_w2) = state (ctl demo_w1) \/ edge (state (ctl demo_w1)) (state (ctl demo_w2))
  \/ still_held demo_w1 demo_w2.
Proof.
  apply (lifecycle_refinement true demo_w1 demo_w2 demo_reach_1).
  apply (step_done true 200 (TActivate 0) SvcOk [] []); done.
Defined.

(** ** Shutdown terminates *)

(** Only the current operation's channel can be open. *)
Definition chs_ok (c : Controller) : Prop :=
  (forall d, chans c !! d = Some false -> opDone c = Some d)
  /\ (op c = None -> opDone c = None).

Definition ChInv (w : World) : Prop :=
  chs_ok (ctl w)
  /\ match run w with
     | RunShutdown _ (SdWait d _) => (d < length (chans (ctl w)))%nat
     | _ => True
     end.

Lemma begin_chs now rid kind origin id c k c' :
  beginLocked now rid kind origin id c = (k, c') -> settled c \/ op c = None -> chs_ok c ->
  chs_ok c' /\ (length (chans c) <= length (chans c'))%nat.
Proof.
  intros [= <- <-] Hs [H1 H2].
  assert (Hno : forall d, chans c !! d = Some false -> False).
  { intros d Hd. destruct Hs as [(k & o & d' & _ & _ & _ & Hd' & Hc)|Hop].
    - specialize (H1 d Hd). congruence.
    - specialize (H1 d Hd). rewrite H2 in H1; congruence. }
  destruct kind; cbn; rewrite length_app; cbn; (split; [split; [|done]|lia]);
    intros d [Hd|[Hle Hd]]%lookup_app_Some; try (by destruct (Hno d));
    apply list_lookup_singleton_Some in Hd as [? _]; cbn; f_equal; lia.
Qed.

Lemma finish_chs kind k now err c0 c :
  running kind k c0 ->
  op c = op c0 -> chans c = chans c0 -> opDone c = opDone c0 -> chs_ok c0 ->
  chs_ok (finishLocked now k err c)
  /\ length (chans (finishLocked now k err c)) = length (chans c0)
  /\ forall d, chans c0 !! d = Some true -> chans (finishLocked now k err c) !! d = Some true.
Proof.
  intros (o & d & Hop & _ & _ & _ & Hd & Hc) E1 E3 E4 [H1 H2].
  unfold finishLocked, closeDone. cbn. rewrite E4, Hd, E3, Hc. cbn.
  rewrite length_insert. split_and!; [|done..|].
  - split; cbn; [|congruence]. intros d'. rewrite list_lookup_insert. case_decide as Hdd.
    + intros [=].
    + intros Hd'. specialize (H1 d' Hd'). exfalso.
      apply Hdd. split; [congruence|]. by apply lookup_lt_Some in Hc.
  - intros d'. rewrite list_lookup_insert. by case_decide.
Qed.

Lemma task_chs now t r c :
  match t with TActivate k => running KActivate k c | TQuiesce k => running KQuiesce k c end ->
  chs_ok c ->
  chs_ok (finish_task now t r c)
  /\ length (chans (finish_task now t r c)) = length (chans c)
  /\ forall d, chans c !! d = Some true -> chans (finish_task now t r c) !! d = Some true.
Proof.
  destruct t as [k|k]; intros Hr Hok; cbn; unfold runActivate, runQuiesce;
    destruct r; cbn -[finishLocked]; try destruct (cancelActive c);
    (eapply finish_chs; [exact Hr|done..|exact Hok]).
Qed.

Lemma winv_task c rp ts1 t ts2 fq b :
  WInv (mkWorld c rp (ts1 ++ t :: ts2) fq b) ->
  match t with TActivate k => running KActivate k c | TQuiesce k => running KQuiesce k c end.
Proof.
  unfold WInv, inflight; cbn. intros HI.
  assert (H1 : forall l t', (ts1 ++ t :: ts2) ++ l = [t'] -> t = t').
  { intros l t' Hl. destruct ts1 as [|? [|]]; cbn in Hl; [|discriminate..].
    by injection Hl as ->. }
  assert (Hne : forall l, (ts1 ++ t :: ts2) ++ l = [] -> False) by (intros l Hl; by destruct ts1).
  destruct (state c); [by destruct HI as (_ & _ & ?%Hne & _)| |by destruct HI as (_ & ?%Hne & _)
    | |by destruct HI as (_ & _ & ?%Hne & _)].
  - destruct HI as (_ & k & ->%H1 & Hr). done.
  - destruct HI as (_ & [(k & ->%H1 & Hr)|[?%Hne _]]); done.
Qed.

Lemma winv_own c f k a ts fq b :
  WInv (mkWorld c (RunShutdown f (SdQuiesce k a)) ts fq b) -> running KQuiesce k c.
Proof.
  unfold WInv, inflight; cbn. intros HI.
  assert (H1 : forall t, ts ++ [TQuiesce k] = [t] -> t = TQuiesce k).
  { intros t Hl. destruct ts as [|? [|]]; cbn in Hl; by simplify_eq. }
  assert (Hne : ts ++ [TQuiesce k] = [] -> False) by (by destruct ts).
  destruct (state c); [by destruct HI as (_ & _ & ?%Hne & _)| |by destruct HI as (_ & ?%Hne & _)
    | |by destruct HI as (_ & _ & ?%Hne & _)].
  - destruct HI as (_ & k' & ?%H1 & Hr). done.
  - destruct HI as (_ & [(k' & [= ->]%H1 & Hr)|[?%Hne _]]); done.
Qed.

Lemma winv_idle w :
  WInv w -> state (ctl w) = StateStandby \/ state (ctl w) = StateActive
            \/ (state (ctl w) = StateQuiescing
                /\ exists o, cur_op (ctl w) = Some o /\ op_Status o <> opRunning) ->
  settled (ctl w) \/ op (ctl w) = None.
Proof.
  unfold WInv. intros HI [Hst|[Hst|[Hst (o & Ho & Hn)]]]; rewrite Hst in HI.
  - tauto.
  - tauto.
  - destruct HI as (_ & [(k & _ & (o' & Ho' & _ & ?)%running_cur)|[_ ?]]); [congruence|auto].
Qed.

Lemma fence_chs now rid origin c :
  settled c \/ op c = None -> chs_ok c ->
  chs_ok (fenceLocked now rid origin c)
  /\ (length (chans c) <= length (chans (fenceLocked now rid origin c)))%nat.
Proof.
  intros Hid [H1 H2]. cbn. rewrite length_app; cbn. split; [split; [|done]|lia].
  intros d [Hd|[_ Hd]]%lookup_app_Some;
    [|apply list_lookup_singleton_Some in Hd as [_ ?]; done].
  exfalso. specialize (H1 d Hd). destruct Hid as [(k & o & d' & _ & _ & _ & ? & ?)|?];
    [congruence|]. rewrite H2 in H1; congruence.
Qed.

Lemma serve_chs now rid id w c' t :
  WInv w -> serve_case now rid id (ctl w) c' t -> chs_ok (ctl w) ->
  chs_ok c' /\ (length (chans (ctl w)) <= length (chans c'))%nat.
Proof.
  intros HI Hs Hok. destruct Hs as [| k c' Hst Hb | Hst | k c' Hst Hb | Hst Hop].
  - done.
  - eapply begin_chs; [exact Hb| |done]. apply winv_idle; auto.
  - apply fence_chs; [|done]. apply winv_idle; auto.
  - eapply begin_chs; [exact Hb| |done]. apply winv_idle; tauto.
  - by destruct Hok.
Qed.

Lemma shutdown_chs now rid f a c c' pc ts fq b :
  WInv (mkWorld c (RunShutdown f (SdLoop a)) ts fq b) -> chs_ok c ->
  shutdown now rid a c = (c', Some pc) -> ChInv (mkWorld c' (RunShutdown f pc) ts fq b).
Proof.
  intros HI Hok E. unfold shutdown in E.
  destruct (a <? 2)%nat; [|injection E as <- <-; done].
  assert (Hidle := winv_idle _ HI). cbn in Hidle.
  destruct (state c) eqn:Hst.
  - injection E as <- <-. split; [|done]. apply fence_chs; auto.
  - unfold WInv in HI; cbn in HI. rewrite Hst in HI.
    destruct HI as (_ & k & _ & o & d & _ & _ & _ & _ & Hd & Hc).
    apply lookup_lt_Some in Hc.
    destruct (cancelActive c); cbn in E; rewrite Hd in E; by injection E as <- <-.
  - destruct (beginLocked now rid KQuiesce "signal" "" c) as [k c''] eqn:Hb.
    injection E as <- <-. split; [|done]. eapply begin_chs; [exact Hb|auto|done].
  - case_bool_decide as Hrun.
    + unfold WInv in HI; cbn in HI. rewrite Hst in HI.
      destruct HI as (_ & [(k & _ & o & d & _ & _ & _ & _ & Hd & Hc)|[_ (o & Ho & Hn)%settled_cur]]);
        [|rewrite Ho in Hrun; by simplify_eq/=].
      apply lookup_lt_Some in Hc. rewrite Hd in E. by injection E as <- <-.
    + destruct (beginLocked now rid KQuiesce "signal" "" c) as [k c''] eqn:Hb.
      injection E as <- <-. split; [|done]. eapply begin_chs; [exact Hb| |done].
      apply Hidle. right. right. split; [done|].
      unfold WInv in HI; cbn in HI. rewrite Hst in HI.
      destruct HI as (_ & [(k' & _ & (o & Ho & _ & Hr)%running_cur)|[_ ?%settled_cur]]); [|done].
      rewrite Ho in Hrun. cbn in Hrun. congruence.
  - by injection E as <- <-.
Qed.

(** Moving the main goroutine to a place that waits on no channel. *)
Lemma chinv_move c rp rp' ts ts' fq fq' b b' :
  ChInv (mkWorld c rp ts fq b) ->
  match rp' with RunShutdown _ (SdWait _ _) => False | _ => True end ->
  ChInv (mkWorld c rp' ts' fq' b').
Proof. intros [Hc _] Hm. split; [done|]. cbn. by destruct rp' as [| |? []| |]. Qed.

Lemma chinv_ctl c rp ts fq b c' ts' fq' b' :
  ChInv (mkWorld c rp ts fq b) -> chs_ok c' -> (length (chans c) <= length (chans c'))%nat ->
  ChInv (mkWorld c' rp ts' fq' b').
Proof.
  intros [_ H] Hok Hle. split; [done|]. cbn in *. destruct rp as [| |? []| |]; try done. lia.
Qed.

Lemma step_chinv standby w w' :
  Inv standby w -> step standby w w' -> ChInv w -> ChInv w'.
Proof.
  intros HI Hstep HC.
  destruct Hstep as [c ts fq b Hsb|now rid c ts fq b k c' Hsb Hb|rt now rid id w c' resp t Hex Hs
    |k c rp ts fq Hex Hin|now t r ts1 ts2 c rp fq b b' Hex Ha|c rp ts fq b|bd c ts fq b|bd c ts b
    |d c ts fq b Hc|now rid f a c c' pc ts fq b E|f d a c ts fq b Hc
    |now f k a r c ts fq b b' Ha|f code c ts fq b|f pc c ts fq b];
    try (by eapply chinv_move); try (by eapply chinv_ctl; [exact HC|apply HC|]).
  - assert (Hop : op c = None).
    { destruct (inv_cases _ _ HI eq_refl) as [([[?|?] _] & _)|[_ (_ & _ & _ & Hop & _)]];
        [congruence|done|done]. }
    split; [|done]. eapply begin_chs; [exact Hb|by right|apply HC].
  - apply serve_cases in Hs. destruct (inv_cases _ _ HI Hex) as [(_ & HW & _)|[-> Hpre]].
    + destruct w. destruct (serve_chs _ _ _ _ _ _ HW Hs (proj1 HC)).
      by eapply chinv_ctl.
    + destruct w as [c rp ts fq b]. destruct Hpre as (-> & Hst & _ & Hop & _); cbn in *.
      destruct HC as [[H1 H2] _].
      destruct Hs as [| | | k c'' Hq | ]; try congruence; split; done || (split; done) || idtac.
      destruct Hq as [|[]]; congruence.
  - destruct (inv_cases _ _ HI Hex) as [(_ & HW & _)|[_ (_ & _ & _ & _ & _ & Hts)]];
      [|by destruct ts1].
    destruct (task_chs now t r c (winv_task _ _ _ _ _ _ _ HW) (proj1 HC)) as (? & Hl & _).
    eapply chinv_ctl; [done..|lia].
  - case_decide; by eapply chinv_move.
  - destruct (inv_cases _ _ HI eq_refl) as [(_ & HW & _)|[_ [Hr _]]]; [|done].
    by eapply shutdown_chs, E; [|apply HC].
  - destruct (inv_cases _ _ HI eq_refl) as [(_ & HW & _)|[_ [Hr _]]]; [|done].
    destruct (task_chs now (TQuiesce k) r c (winv_own _ _ _ _ _ _ _ HW) (proj1 HC)) as (? & Hl & _).
    by split.
Qed.

Lemma reachable_chinv standby w : reachable standby w -> ChInv w.
Proof.
  intros (hd & rid & opts & c & <- & HN & Hr).
  assert (H0 : ChInv (init c)).
  { unfold New in HN. split; [|done]. split.
    - intros d Hd. assert (chans c = []) as E by (repeat destruct_match; by simplify_eq/=).
      cbn in Hd. by rewrite E in Hd.
    - intros _. by repeat destruct_match; simplify_eq/=. }
  pose proof (init_inv _ _ _ _ HN) as HI. revert HI H0.
  induction Hr as [|w1 w2 w3 H12 H23 IH]; [done|]. intros HI HC.
  apply IH; [by eapply step_inv|by eapply step_chinv].
Qed.

(** The steps of a shutdown nobody interferes with: the main goroutine's, and
    the returns of the service calls already in flight. *)
Inductive quiet : World -> World -> Prop :=
  | q_done now t r ts1 ts2 f pc c fq b b' :
      svc_allows t r b b' ->
      quiet (mkWorld c (RunShutdown f pc) (ts1 ++ t :: ts2) fq b)
            (mkWorld (finish_task now t r c) (RunShutdown f pc) (ts1 ++ ts2) fq b')
  | q_iter now rid f a c c' pc ts fq b :
      shutdown now rid a c = (c', Some pc) ->
      quiet (mkWorld c (RunShutdown f (SdLoop a)) ts fq b)
            (mkWorld c' (RunShutdown f pc) ts fq b)
  | q_wait f d a c ts fq b :
      chans c !! d = Some true ->
      quiet (mkWorld c (RunShutdown f (SdWait d a)) ts fq b)
            (mkWorld c (RunShutdown f (SdLoop a)) ts fq b)
  | q_own now f k a r c ts fq b b' :
      svc_allows (TQuiesce k) r b b' ->
      quiet (mkWorld c (RunShutdown f (SdQuiesce k a)) ts fq b)
            (mkWorld (runQuiesce now k r c) (RunShutdown f (SdLoop (S a))) ts fq b')
  | q_return f code c ts fq b :
      quiet (mkWorld c (RunShutdown f (SdReturn code)) ts fq b)
            (mkWorld c (RunExit (if f then 1 else code)) ts fq b).

Lemma quiet_step standby w w' : quiet w w' -> step standby w w'.
Proof. destruct 1; by econstructor. Qed.

(** The measure: what is left of [shutdown]'s loop, plus the service calls
    still to return. A wait weighs more once its channel is closed. *)
Definition loop_weight (a : nat) : nat := 3 * (2 - a) + 3.

Definition weight (w : World) : nat :=
  10 * length (tasks w) +
  match run w with
  | RunShutdown _ (SdLoop a) => loop_weight a
  | RunShutdown _ (SdWait d a) =>
      if decide (chans (ctl w) !! d = Some true) then loop_weight a + 1 else loop_weight a - 1
  | RunShutdown _ (SdQuiesce _ a) => loop_weight (S a) + 1
  | RunShutdown _ (SdReturn _) => 1
  | _ => 0
  end.

Lemma quiet_decreases w w' :
  WInv w -> ChInv w -> quiet w w' -> (weight w' < weight w)%nat.
Proof.
  intros HI HC Hq.
  destruct Hq as [now t r ts1 ts2 f pc c fq b b' Ha|now rid f a c c' pc ts fq b E
    |f d a c ts fq b Hc|now f k a r c ts fq b b' Ha|f code c ts fq b];
    unfold weight; cbn [run tasks ctl].
  - destruct (task_chs now t r c (winv_task _ _ _ _ _ _ _ HI) (proj1 HC)) as (_ & _ & Hmono).
    rewrite !length_app. cbn [length].
    destruct pc as [a|d a|k a|code]; try lia.
    repeat case_decide; unfold loop_weight; lia.
  - unfold shutdown in E. destruct (a <? 2)%nat eqn:Ha; [|injection E as <- <-; unfold loop_weight; lia].
    apply Nat.ltb_lt in Ha. unfold WInv in HI; cbn in HI.
    destruct (state c) eqn:Hst; [injection E as <- <-; unfold loop_weight; lia| | | |
      injection E as <- <-; unfold loop_weight; lia].
    + destruct HI as (_ & k & _ & o & d & _ & _ & _ & _ & Hd & Hc).
      destruct (cancelActive c); cbn in E; rewrite Hd in E; injection E as <- <-; cbn;
        case_decide; [congruence|unfold loop_weight; lia|congruence|unfold loop_weight; lia].
    + injection E as <- <-. unfold loop_weight; lia.
    + case_bool_decide as Hrun; [|injection E as <- <-; unfold loop_weight; lia].
      destruct HI as (_ & [(k & _ & o & d & _ & _ & _ & _ & Hd & Hc)|[_ (o & Ho & Hn)%settled_cur]]);
        [|rewrite Ho in Hrun; by simplify_eq/=].
      rewrite Hd in E. injection E as <- <-. case_decide; [congruence|unfold loop_weight; lia].
  - case_decide; [lia|done].
  - lia.
  - lia.
Qed.

Lemma quiet_progress w f pc :
  WInv w -> ChInv w -> run w = RunShutdown f pc -> exists w', quiet w w'.
Proof.
  destruct w as [c rp ts fq b]; cbn. intros HI [Hok HC] ->. cbn in HC, Hok.
  destruct pc as [a|d a|k a|code].
  - destruct (shutdown 0 "" a c) as [c' [pc'|]] eqn:E; [eexists; by econstructor|].
    exfalso. unfold shutdown in E. destruct (a <? 2)%nat; [|done].
    unfold WInv in HI; cbn in HI. destruct (state c); try done.
    + destruct HI as (_ & k & _ & o & d & _ & _ & _ & _ & Hd & _).
      destruct (cancelActive c); cbn in E; by rewrite Hd in E.
    + case_bool_decide as Hrun; [|done].
      destruct HI as (_ & [(k & _ & o & d & _ & _ & _ & _ & Hd & Hc)|[_ (o & Ho & Hn)%settled_cur]]);
        [by rewrite Hd in E|rewrite Ho in Hrun; by simplify_eq/=].
  - destruct (lookup_lt_is_Some_2 _ _ HC) as [[] Hd]; [eexists; by econstructor|].
    destruct Hok as [H1 H2]. specialize (H1 d Hd). unfold WInv, inflight in HI; cbn in HI.
    assert (Hset : settled c -> False).
    { intros (k' & o & d' & _ & _ & _ & ? & ?). congruence. }
    assert (Hgo : exists t, ts ++ [] = [t]).
    { destruct (state c) eqn:Hst; [|naive_solver| | |]; try tauto.
      - destruct HI as (_ & _ & _ & [Hop|?]); [|tauto]. exfalso.
        rewrite H2 in H1; congruence.
      - naive_solver. }
    destruct Hgo as [t Ht]. rewrite app_nil_r in Ht. subst ts.
    destruct t as [k|k].
    + eexists. by apply (q_done 0 (TActivate k) (SvcErr "") [] [] f (SdWait d a) c fq b false).
    + eexists. by apply (q_done 0 (TQuiesce k) SvcOk [] [] f (SdWait d a) c fq b false).
  - eexists. by apply (q_own 0 f k a SvcOk c ts fq b false).
  - eexists. apply q_return.
Qed.

Lemma quiet_shutdown w w' : quiet w w' ->
  (exists f pc, run w = RunShutdown f pc)
  /\ ((exists f pc, run w' = RunShutdown f pc) \/ exists code, run w' = RunExit code).
Proof. destruct 1; cbn; eauto 10. Qed.

(** *** What else may step meanwhile *)

(** A request keeps the channels there are. *)
Lemma serve_chans now rid id c c' t : serve_case now rid id c c' t -> exists l, chans c' = chans c ++ l.
Proof.
  intros [|k c'' _ Hb|_|k c'' _ Hb|_ _]; try (by exists []; cbn; rewrite app_nil_r); try (by exists [true]);
    injection Hb as _ <-; by exists [false].
Qed.

(** Past its start a process's own weight only falls, but for the service calls
    that control requests begin. *)
Lemma step_weight standby w w' :
  Inv standby w -> ChInv w -> (exists f pc, run w = RunShutdown f pc) \/ exited w = true -> step standby w w' ->
  (weight w' <= weight w + 10 * (length (tasks w') - length (tasks w)))%nat
  /\ ((exists f pc, run w' = RunShutdown f pc) \/ exited w' = true).
Proof.
  intros HI HC Hr Hs.
  assert (Hq : quiet w w' -> (weight w' <= weight w + 10 * (length (tasks w') - length (tasks w)))%nat
    /\ ((exists f pc, run w' = RunShutdown f pc) \/ exited w' = true)).
  { intros Hq. destruct (quiet_shutdown _ _ Hq) as [(f & pc & Hrun) Hnext]. split.
    - assert (weight w' < weight w)%nat; [|lia]. apply quiet_decreases; [|done..].
      eapply inv_winv; [apply HI|]. split; [right|]; rewrite Hrun; done.
    - destruct Hnext as [?|[code Hx]]; [by left|right]. unfold exited. by rewrite Hx. }
  destruct Hs as [c ts fq b Hsb|now rid c ts fq b k c' Hsb Hb|rt now rid id w c' resp t Hex Hs
    |k c rp ts fq Hex Hin|now t r ts1 ts2 c rp fq b b' Hex Ha|c rp ts fq b|bd c ts fq b|bd c ts b
    |d c ts fq b Hc|now rid f a c c' pc ts fq b E|f d a c ts fq b Hc
    |now f k a r c ts fq b b' Ha|f code c ts fq b|f pc c ts fq b]; cbn [ctl run tasks] in *;
    try (by destruct Hr as [(? & ? & [=])|[=]]); try (by apply Hq; econstructor).
  - split; [|exact Hr]. destruct w as [c rp ts fq b]. apply serve_cases, serve_chans in Hs as [l Hl]. unfold weight. cbn [run ctl tasks] in *.
    rewrite length_app, Nat.mul_add_distr_l, Nat.add_sub_swap, Nat.sub_diag by done. destruct rp as [| |f [a|d a|k a|code]| |]; try lia.
    destruct (lookup_lt_is_Some_2 (chans c) d) as [x Hx]; [by apply HC|].
    rewrite Hl, (lookup_app_l_Some _ _ _ _ Hx), Hx. lia.
  - split; [unfold weight; cbn [run ctl tasks]; lia|exact Hr].
  - destruct Hr as [(f & pc & ->)|Hr]; [by apply Hq; econstructor|].
    unfold exited in Hr, Hex. cbn in Hr, Hex. by destruct rp.
  - split; [unfold weight; cbn [run ctl tasks]; lia|exact Hr].
  - split; [unfold weight; cbn [run ctl tasks length]; lia|by right].
Qed.

(** A run of the process from inside a shutdown: [n] steps of the shutdown and of
    the service calls in flight, [m] control requests that begin another service
    call, and any other steps, in any order. *)
Inductive interleaved (standby : bool) : nat -> nat -> World -> World -> Prop :=
  | il_refl w : interleaved standby 0 0 w w
  | il_quiet n m w1 w2 w3 : quiet w1 w2 -> interleaved standby n m w2 w3 -> interleaved standby (S n) m w1 w3
  | il_request n m w1 w2 w3 :
      step standby w1 w2 -> length (tasks w2) = S (length (tasks w1)) ->
      interleaved standby n m w2 w3 -> interleaved standby n (S m) w1 w3
  | il_other n m w1 w2 w3 :
      step standby w1 w2 -> (length (tasks w2) <= length (tasks w1))%nat ->
      interleaved standby n m w2 w3 -> interleaved standby n m w1 w3.

Definition closing (standby : bool) (w : World) : Prop :=
  Inv standby w /\ ChInv w /\ ((exists f pc, run w = RunShutdown f pc) \/ exited w = true).

Lemma closing_step standby w w' : closing standby w -> step standby w w' -> closing standby w'.
Proof.
  intros (HI & HC & Hr) Hs. split_and!; [by eapply step_inv|by eapply step_chinv|by eapply step_weight].
Qed.

Lemma interleaved_weight standby n m w w' :
  interleaved standby n m w w' -> closing standby w -> (n + weight w' <= weight w + 10 * m)%nat /\ closing standby w'.
Proof.
  induction 1 as [w|n m w1 w2 w3 Hq _ IH|n m w1 w2 w3 Hs Hl _ IH|n m w1 w2 w3 Hs Hl _ IH]; intros Hc; [split; [lia|done]|..].
  - destruct (IH (closing_step _ _ _ Hc (quiet_step _ _ _ Hq))) as [Hle ?]. split; [|done]. destruct Hc as (HI & HC & _).
    assert (weight w2 < weight w1)%nat; [|lia]. destruct (quiet_shutdown _ _ Hq) as [(f & pc & Hr) _].
    apply quiet_decreases; [|done..]. eapply inv_winv; [exact HI|]. split; [right|]; rewrite Hr; done.
  - destruct (IH (closing_step _ _ _ Hc Hs)) as [Hle ?]. split; [|done]. destruct Hc as (HI & HC & Hr).
    destruct (step_weight _ _ _ HI HC Hr Hs) as [Hw _]. lia.
  - destruct (IH (closing_step _ _ _ Hc Hs)) as [Hle ?]. split; [|done]. destruct Hc as (HI & HC & Hr).
    destruct (step_weight _ _ _ HI HC Hr Hs) as [Hw _]. lia.
Qed.

(** At most one service call is in flight, so the weight is small. *)
Lemma weight_bound standby w f pc : Inv standby w -> run w = RunShutdown f pc -> (weight w <= 20)%nat.
Proof.
  intros HI Hr. assert (Hlive : live standby w) by (split; [right|]; rewrite Hr; done).
  destruct (inv_winv _ _ HI Hlive) as [HW _].
  assert (Ht : (length (tasks w) <= 1)%nat).
  { assert (Hi : (length (tasks w) <= length (inflight w))%nat) by (unfold inflight; rewrite length_app; lia).
    unfold WInv in HW. assert (length (inflight w) <= 1)%nat; [|lia].
    destruct (state (ctl w)).
    - destruct HW as (_ & _ & -> & _). cbn. lia.
    - destruct HW as (_ & k & -> & _). cbn. lia.
    - destruct HW as (_ & -> & _). cbn. lia.
    - destruct HW as (_ & [(k & -> & _)|[-> _]]); cbn; lia.
    - destruct HW as (_ & _ & -> & _). cbn. lia. }
  unfold weight. rewrite Hr. unfold loop_weight. destruct pc; [|case_decide| |]; lia.
Qed.

(** C38: A shutdown ends, whatever steps in between. From a process that is
    shutting down, in any run where [m] control requests begin a service call, the
    shutdown and the service calls in flight take at most 20 + 10 m steps (the loop's
    two tries do not bound it alone: a wait for a request's own operation does not
    count as one). And it gets stuck nowhere: until the process has exited or been
    killed, the shutdown or a service call in flight has a step to take. *)
Theorem shutdown_terminates standby w f pc n m w' :
  reachable standby w -> run w = RunShutdown f pc -> interleaved standby n m w w' ->
  (n <= 20 + 10 * m)%nat /\ (exited w' = true \/ exists w'', quiet w' w'').
Proof.
  intros Hw Hrun Hil. pose proof (reachable_inv _ _ Hw) as HI.
  assert (Hc : closing standby w) by (split_and!; [done|by eapply reachable_chinv|left; by exists f, pc]).
  destruct (interleaved_weight _ _ _ _ _ Hil Hc) as [Hle (HI' & HC' & Hr')]. pose proof (weight_bound _ _ _ _ HI Hrun).
  split; [lia|]. destruct Hr' as [(f' & pc' & Hr')|?]; [right|by left]. eapply quiet_progress; [|done..].
  eapply inv_winv; [exact HI'|]. split; [right|]; rewrite Hr'; done.
Qed.

Definition demo_w7 : World := mkWorld demo_c1 (RunShutdown false (SdLoop 0)) [TActivate 0] false true.

Lemma demo_reach_7 : reachable true demo_w7.
Proof.
  destruct demo_reach_1 as (h & r & o & c & Ho & HN & H1).
  exists h, r, o, c. split_and!; [done..|]. etrans; [exact H1|].
  apply rtc_once, step_signal.
Qed.

(** An activation that could not release what it opened returns during a shutdown,
    and a quiesce request comes in before the shutdown sees it: one more call to
    wait for. *)
Definition demo_w8 : World :=
  mkWorld (shutdown 500 "r3" 0 demo_c1).1 (RunShutdown false (SdWait 0 0)) [TActivate 0] false true.
Definition demo_w9 : World :=
  mkWorld (runActivate 600 0 (SvcStillHeld "locked") (ctl demo_w8)) (RunShutdown false (SdWait 0 0)) [] false true.
Definition demo_w10 : World :=
  mkWorld (handleQuiesce 700 "r4" "op-4" (ctl demo_w9)).1.1 (RunShutdown false (SdWait 0 0)) [TQuiesce 1] false true.

Lemma demo_interleaved : interleaved true 2 1 demo_w7 demo_w10.
Proof.
  apply (il_quiet _ _ _ _ demo_w8); [by apply (q_iter 500 "r3" false 0)|].
  apply (il_quiet _ _ _ _ demo_w9); [by apply (q_done 600 (TActivate 0) (SvcStillHeld "locked") [] [])|].
  apply (il_request _ _ _ _ demo_w10); [by apply (step_http_run true RQuiesce 700 "r4" "op-4")|done|constructor].
Qed.

Lemma shutdown_terminates_witness :
  (2 <= 20 + 10 * 1)%nat /\ exists w'', quiet demo_w10 w''.
Proof.
  destruct (shutdown_terminates true demo_w7 false (SdLoop 0) 2 1 demo_w10 demo_reach_7 eq_refl demo_interleaved) as [Hn [Hx|Hq]];
    [discriminate Hx|]. by split.
Defined.

(** ** Control requests *)

(** A control request is idempotent in its operation id. Repeating the
    id of the operation in progress, of the one that activated the process, or
    of the one that failed starts no goroutine and changes nothing; the answers
    are 202, 200 and 409 [operation_failed]. *)
Theorem replay_is_noop standby w now rid o :
  reachable standby w -> live standby w -> cur_op (ctl w) = Some o -> op_ID o <> "" ->
  let id := op_ID o in
  (op_Status o = opRunning -> op_Kind o = KActivate ->
     handleActivate now rid id (ctl w) = (ctl w, replyLocked StatusAccepted (ctl w), None))
  /\ (op_Status o = opRunning -> op_Kind o = KQuiesce ->
     handleQuiesce now rid id (ctl w) = (ctl w, replyLocked StatusAccepted (ctl w), None))
  /\ (state (ctl w) = StateActive -> activatedBy (ctl w) = id ->
     handleActivate now rid id (ctl w) = (ctl w, replyLocked StatusOK (ctl w), None))
  /\ (state (ctl w) = StateStandby -> op_Kind o = KActivate ->
     exists r, handleActivate now rid id (ctl w) = (ctl w, r, None)
               /\ r_code r = StatusConflict /\ fst <$> r_Error r = Some "operation_failed")
  /\ (state (ctl w) = StateQuiescing -> op_Status o <> opRunning ->
     exists r, handleQuiesce now rid id (ctl w) = (ctl w, r, None)
               /\ r_code r = StatusConflict /\ fst <$> r_Error r = Some "operation_failed").
Proof.
  intros HI%reachable_inv Hl Ho Hne id. destruct (inv_winv _ _ HI Hl) as [HW _].
  unfold WInv in HW. unfold handleActivate, handleQuiesce, nonempty. subst id.
  assert (Hrun : op_Status o = opRunning ->
    (op_Kind o = KActivate -> state (ctl w) = StateActivating)
    /\ (op_Kind o = KQuiesce -> state (ctl w) = StateQuiescing)).
  { intros Hr.
    assert (Hset : settled (ctl w) -> False).
    { intros (o' & Ho' & ?)%settled_cur. congruence. }
    destruct (state (ctl w)); try tauto.
    - destruct HW as (_ & _ & _ & [Hop|?]); [|tauto]. unfold cur_op in Ho. by rewrite Hop in Ho.
    - destruct HW as (_ & k & _ & (o' & Ho' & ? & ?)%running_cur). split; congruence.
    - destruct HW as (_ & [(k & _ & (o' & Ho' & ? & ?)%running_cur)|[_ ?]]); [split; congruence|tauto]. }
  split_and!.
  - intros Hr Hk. destruct (Hrun Hr) as [Hst _]. rewrite Hst, Ho by done.
    by rewrite bool_decide_eq_false_2, bool_decide_eq_true_2.
  - intros Hr Hk. destruct (Hrun Hr) as [_ Hst]. rewrite Hst, Ho by done.
    rewrite decide_True by done. by rewrite bool_decide_eq_false_2, bool_decide_eq_true_2.
  - intros Hst Ha. rewrite Hst, Ha. by rewrite bool_decide_eq_false_2, bool_decide_eq_true_2.
  - intros Hst Hk. rewrite Hst, Ho, Hk.
    rewrite !bool_decide_eq_true_2, bool_decide_eq_false_2 by done. cbn. by eexists.
  - intros Hst Hn. rewrite Hst, Ho. rewrite decide_False by done.
    rewrite bool_decide_eq_false_2, bool_decide_eq_true_2 by done. cbn. by eexists.
Qed.

Lemma replay_is_noop_witness :
  handleActivate 150 "r9" "op-1" demo_c1 = (demo_c1, replyLocked StatusAccepted demo_c1, None).
Proof.
  apply (replay_is_noop true demo_w1 150 "r9"
           (mkOperation "op-1" KActivate "api" opRunning 100 None 0 "") demo_reach_1);
    [split; [by left|done]|reflexivity|done|done|done].
Defined.

(** A command that is not authenticated, or is addressed to another
    process incarnation, or whose body is malformed, is refused before any
    lifecycle state is read: the controller is unchanged, nothing is started,
    and the answer is 401, 409 [instance_mismatch] or 400. *)
Theorem authed_refuses sha256 unmarshal rt now rid bearer body c :
  let '(c', resp, t) := authed sha256 unmarshal rt now rid bearer body c in
  ((forall tk, bearer = Some tk -> sha256 tk <> tok c) ->
     c' = c /\ t = None /\ r_code resp = StatusUnauthorized)
  /\ (forall tk req, bearer = Some tk -> sha256 tk = tok c -> body <> "" ->
      unmarshal body = Some req -> (String.length (OperationID req) <= 128)%nat ->
      ExpectedInstanceID req <> "" -> ExpectedInstanceID req <> instanceID c ->
      c' = c /\ t = None /\ r_code resp = StatusConflict
      /\ fst <$> r_Error resp = Some "instance_mismatch")
  /\ (forall tk, bearer = Some tk -> sha256 tk = tok c -> body <> "" -> unmarshal body = None ->
      c' = c /\ t = None /\ r_code resp = StatusBadRequest).
Proof.
  destruct (authed sha256 unmarshal rt now rid bearer body c) as [[c' resp] t] eqn:E.
  unfold authed in E. split_and!.
  - intros Hb. destruct bearer as [tk|]; cbn in E; [|by simplify_eq].
    rewrite bool_decide_eq_false_2 in E by auto. by simplify_eq/=.
  - intros tk req -> Htok Hbody Hreq Hlen Hne Hid. rewrite bool_decide_eq_true_2 in E by done.
    cbn [negb] in E. rewrite (bool_decide_eq_false_2 (body = "")), Hreq in E by done.
    rewrite bool_decide_eq_false_2 in E by lia. unfold nonempty in E.
    rewrite !bool_decide_eq_false_2 in E by done. by simplify_eq/=.
  - intros tk -> Htok Hbody Hreq. rewrite bool_decide_eq_true_2 in E by done.
    cbn [negb] in E. rewrite (bool_decide_eq_false_2 (body = "")), Hreq in E by done.
    by simplify_eq/=.
Qed.

(** A legacy (non-standby) process with a control plane serves requests
    before [Run] has begun the boot activation: in that window it is ACTIVATING
    with no operation, and a quiesce request, or an activate request with an
    id, dereferences the nil [c.op]. *)
Theorem preboot_request_panics now rid hexDecode opts c :
  New hexDecode rid opts = Some c -> Standby opts = false ->
  panicked (handleQuiesce now rid "q" c).1.1 = true
  /\ panicked (handleActivate now rid "a" c).1.1 = true
  /\ step false (init c) (mkWorld (panic c) RunStart [] false false).
Proof.
  intros HN Hs.
  assert (state c = StateActivating /\ op c = None) as [Hst Hop].
  { unfold New in HN. rewrite Hs in HN. cbn in HN. repeat destruct_match; by simplify_eq/=. }
  unfold handleQuiesce, handleActivate, cur_op. rewrite Hst, Hop. split_and!; [done..|].
  apply (step_http_run false RQuiesce now rid "q"); [done|].
  cbn -[handleQuiesce]. unfold serve, handleQuiesce, cur_op. cbn. by rewrite Hst, Hop.
Qed.

Lemma preboot_request_panics_witness :
  panicked (handleQuiesce 5 "r" "q" (mkController "r" demo_hash StateActivating false [] None []
              None "" "" false false false)).1.1 = true.
Proof.
  apply (preboot_request_panics 5 "r" (fun _ => Some demo_hash) (mkOptions ":8081" "aa" false));
    reflexivity.
Defined.

(** ** Two processes and a coordinator *)

(** The protocol's outer rule: the coordinator activates the replacement only
    after it has seen the old process QUIESCED. [seen] is the coordinator's
    knowledge; the replacement was started with [--standby]. *)
Record Deploy := mkDeploy { old : World; new : World; seen : bool }.

Inductive deploy_step (oldStandby : bool) : Deploy -> Deploy -> Prop :=
  | d_old w w' n s : step oldStandby w w' ->
      deploy_step oldStandby (mkDeploy w n s) (mkDeploy w' n s)
  | d_new o w w' s : step true w w' ->
      (state (ctl w) = StateStandby -> state (ctl w') = StateActivating -> s = true) ->
      deploy_step oldStandby (mkDeploy o w s) (mkDeploy o w' s)
  | d_observe o n s : state (ctl o) = StateQuiesced ->
      deploy_step oldStandby (mkDeploy o n s) (mkDeploy o n true).

(** C1: with that rule the two processes never have the database open at the
    same time, whatever either of them and their services do. *)
Theorem exclusive_ownership oldStandby o n hexDecode rid opts c d :
  reachable oldStandby o -> New hexDecode rid opts = Some c -> Standby opts = true ->
  n = init c ->
  rtc (deploy_step oldStandby) (mkDeploy o n false) d ->
  db (old d) && db (new d) = false.
Proof.
  intros Ho HN Hsb -> Hr.
  assert (Hinv : forall d1, rtc (deploy_step oldStandby) (mkDeploy o (init c) false) d1 ->
    Inv oldStandby (old d1) /\ Inv true (new d1)
    /\ (seen d1 = true -> state (ctl (old d1)) = StateQuiesced)
    /\ (seen d1 = false -> state (ctl (new d1)) = StateStandby
                           \/ state (ctl (new d1)) = StateQuiesced)).
  { refine (rtc_ind_r _ _ _ _); cbn beta.
    - cbn. split_and!; [by apply reachable_inv| |done|].
      + rewrite <-Hsb. by eapply init_inv.
      + intros _. left. unfold New in HN. rewrite Hsb in HN.
        repeat destruct_match; by simplify_eq/=.
    - intros d1 d2 _ Hr12 (Ho1 & Hn1 & Hs1 & Hs2).
      destruct Hr12 as [w w' n s Hst|o' w w' s Hst Hact|o' n s Hq]; cbn in *.
      + split_and!; [by eapply step_inv|done| |done].
        intros Hs. eapply step_quiesced; [exact Ho1|exact Hst|by apply Hs1].
      + split_and!; [done|by eapply step_inv|done|]. intros Hs.
        destruct (step_edge _ _ _ Hn1 Hst) as [E|[He|(? & ? & ? & _ & _ & _ & He & _)]];
          [rewrite E; auto| |destruct (Hs2 Hs); congruence].
        destruct (Hs2 Hs) as [E|E]; rewrite E in He; inversion He; auto.
        rewrite Hact in Hs; congruence.
      + split_and!; done. }
  destruct (Hinv d Hr) as (Ho1 & Hn1 & Hs1 & Hs2).
  assert (Hdb : forall sb w, Inv sb w ->
    state (ctl w) = StateStandby \/ state (ctl w) = StateQuiesced -> db w = false).
  { intros sb w [(_ & _ & ?)|[HI _]] Hst; [done|].
    assert (PreBoot w \/ WInv w) as [Hp|HW] by (destruct sb; intuition).
    - by destruct Hp as (_ & _ & _ & _ & ? & _).
    - unfold WInv in HW. destruct Hst as [Hst|Hst]; rewrite Hst in HW; tauto. }
  destruct (seen d).
  - rewrite (Hdb _ _ Ho1); auto.
  - rewrite (Hdb _ _ Hn1); auto. apply andb_false_r.
Qed.

Lemma exclusive_ownership_witness :
  db demo_w2 && db (init demo_c0) = false.
Proof.
  apply (exclusive_ownership true demo_w1 (init demo_c0) (fun _ => Some demo_hash) "inst"
           demo_opts demo_c0 (mkDeploy demo_w2 (init demo_c0) false) demo_reach_1);
    [reflexivity..|].
  apply rtc_once, d_old. apply (step_done true 200 (TActivate 0) SvcOk [] []); done.
Defined.

End Handoff.
