(* ===== verification/Gate.v ===== *)
(** * The request gate

    [internal/handoff/gate.go]: the counter that admits production requests
    until the gate is closed, and the drain that waits for the ones in flight.
    Channels are cells of a heap, a waiter keeps the cell it read, and the
    drain is a machine whose steps are the statements of [Drain] between two
    lock acquisitions, so requests interleave with it anywhere. *)

From S2P Require Import Prelude.

Module Gate.

(** [Gate]. [idle] is the cell of the current idle channel, [chans] the cells
    ([true]: closed), [cancelled] whether [cancelCtx] was cancelled and
    [panicked] whether a channel was closed twice. *)
Record Gate := mkGate {
  closed : bool;
  inFlight : Z;
  idle : nat;
  chans : list bool;
  cancelled : bool;
  panicked : bool;
}.

(** [NewGate]: the idle channel starts closed. *)
Definition NewGate : Gate := mkGate false 0 0 [true] false false.

(** [enter], under the lock. *)
Definition enter (g : Gate) : option Gate :=
  if closed g then None
  else
    let g := if inFlight g =? 0
             then mkGate (closed g) (inFlight g) (length (chans g)) (chans g ++ [false])
                    (cancelled g) (panicked g)
             else g in
    Some (mkGate (closed g) (inFlight g + 1) (idle g) (chans g) (cancelled g) (panicked g)).

(** The function [enter] returns: it retires the request. *)
Definition done_ (g : Gate) : Gate :=
  let n := inFlight g - 1 in
  if n =? 0 then
    mkGate (closed g) n (idle g) (<[idle g := true]> (chans g)) (cancelled g)
      (panicked g || bool_decide (chans g !! idle g = Some true))
  else mkGate (closed g) n (idle g) (chans g) (cancelled g) (panicked g).

(** [Close], [idleCh] and the [cancel] function. *)
Definition Close (g : Gate) : Gate :=
  mkGate true (inFlight g) (idle g) (chans g) (cancelled g) (panicked g).
Definition idleCh (g : Gate) : nat := idle g.
Definition cancel (g : Gate) : Gate :=
  mkGate (closed g) (inFlight g) (idle g) (chans g) true (panicked g).

(** What [Handler] answers before the wrapped handler runs: 503 with
    Retry-After from a closed gate, and [UnaryInterceptor]: Unavailable. *)
Inductive Admission :=
  | Served (g : Gate)
  | Refused (status : Z) (retryAfter : option string).

Definition Handler (g : Gate) : Admission :=
  match enter g with
  | None => Refused 503 (Some "1")
  | Some g' => Served g'
  end.

Definition codes_Unavailable : Z := 14.

Definition UnaryInterceptor (g : Gate) : Admission :=
  match enter g with
  | None => Refused codes_Unavailable None
  | Some g' => Served g'
  end.

(** ** [Drain] *)

Record DrainResult := mkDrainResult {
  r_InFlight : Z;
  r_Cancelled : Z;
  r_Remaining : Z;
}.

(** [waitClosed ch d]: [true] as soon as the channel is closed. It returns
    [false] only from its last select, after the timer (or at once without a
    budget), when the channel is not closed at that moment. *)
Definition waitClosed_may (g : Gate) (ch : nat) (answer : bool) : Prop :=
  match answer with
  | true => chans g !! ch = Some true
  | false => chans g !! ch <> Some true
  end.

(** The statements of [Drain]: [DClose] before [g.Close()], [DCount] before
    the first [InFlight], [DIdle]/[DWait] the first wait, [DCancelled] and
    [DCancel] the escalation, [DIdle2]/[DWait2] the second wait,
    [DRemaining] the last count. *)
Inductive DrainPc :=
  | DClose
  | DCount
  | DIdle (res : DrainResult)
  | DWait (res : DrainResult) (ch : nat)
  | DCancelled (res : DrainResult)
  | DCancel (res : DrainResult)
  | DIdle2 (res : DrainResult)
  | DWait2 (res : DrainResult) (ch : nat)
  | DRemaining (res : DrainResult)
  | DReturn (res : DrainResult).

Inductive Drain : Gate * DrainPc -> Gate * DrainPc -> Prop :=
  | dr_close g : Drain (g, DClose) (Close g, DCount)
  | dr_count g : Drain (g, DCount) (g, DIdle (mkDrainResult (inFlight g) 0 0))
  | dr_idle g res : Drain (g, DIdle res) (g, DWait res (idleCh g))
  | dr_idled g res ch : waitClosed_may g ch true ->
      Drain (g, DWait res ch) (g, DReturn res)
  | dr_grace g res ch : waitClosed_may g ch false ->
      Drain (g, DWait res ch) (g, DCancelled res)
  | dr_cancelled g res :
      Drain (g, DCancelled res) (g, DCancel (mkDrainResult (r_InFlight res) (inFlight g) 0))
  | dr_cancel g res : Drain (g, DCancel res) (cancel g, DIdle2 res)
  | dr_idle2 g res : Drain (g, DIdle2 res) (g, DWait2 res (idleCh g))
  | dr_wait2 g res ch answer : waitClosed_may g ch answer ->
      Drain (g, DWait2 res ch) (g, DRemaining res)
  | dr_remaining g res :
      Drain (g, DRemaining res)
        (g, DReturn (mkDrainResult (r_InFlight res) (r_Cancelled res) (inFlight g))).

(** ** The gate among its requests

    [reqs] are the admitted requests that have not called [done]; each calls
    it exactly once, as [Enter] asks. *)
Record Sys := mkSys {
  gate : Gate;
  reqs : gset nat;
  drain : DrainPc;
}.

(** A request's context ends when its parent's does or when the gate cancels
    ([context.AfterFunc] on [cancelCtx], which fires at once when that is
    already cancelled). *)
Definition ctx_cancelled (s : Sys) (parent : bool) : bool := parent || cancelled (gate s).

Inductive step : Sys -> Sys -> Prop :=
  | s_enter r g g' rs d : r ∉ rs -> Handler g = Served g' ->
      step (mkSys g rs d) (mkSys g' ({[r]} ∪ rs) d)
  | s_refused g rs d : Handler g = Refused 503 (Some "1") ->
      step (mkSys g rs d) (mkSys g rs d)
  | s_done r g rs d : r ∈ rs ->
      step (mkSys g rs d) (mkSys (done_ g) (rs ∖ {[r]}) d)
  | s_drain g rs d g' d' : Drain (g, d) (g', d') ->
      step (mkSys g rs d) (mkSys g' rs d').

Definition init : Sys := mkSys NewGate ∅ DClose.
Definition reachable (s : Sys) : Prop := rtc step init s.

(** ** The invariant *)

Definition GateOk (g : Gate) (rs : gset nat) : Prop :=
  inFlight g = Z.of_nat (size rs)
  /\ chans g !! idle g = Some (inFlight g =? 0)
  /\ panicked g = false.

(** What the drain knows at each statement. *)
Definition DrainOk (g : Gate) (d : DrainPc) : Prop :=
  match d with
  | DClose => True
  | DCount => closed g = true
  | DIdle res => closed g = true /\ inFlight g <= r_InFlight res
                 /\ r_Cancelled res = 0 /\ r_Remaining res = 0
  | DWait res ch => closed g = true /\ inFlight g <= r_InFlight res /\ ch = idle g
                 /\ r_Cancelled res = 0 /\ r_Remaining res = 0
  | DCancelled res => closed g = true /\ inFlight g <= r_InFlight res
  | DCancel res => closed g = true /\ inFlight g <= r_Cancelled res <= r_InFlight res
  | DIdle2 res => closed g = true /\ inFlight g <= r_Cancelled res <= r_InFlight res
                  /\ cancelled g = true
  | DWait2 res ch => closed g = true /\ inFlight g <= r_Cancelled res <= r_InFlight res
                  /\ cancelled g = true /\ ch = idle g
  | DRemaining res => closed g = true /\ inFlight g <= r_Cancelled res <= r_InFlight res
                  /\ cancelled g = true
  | DReturn res => closed g = true
                  /\ 0 <= inFlight g <= r_Remaining res
                  /\ r_Remaining res <= r_Cancelled res <= r_InFlight res
                  /\ (r_Cancelled res = 0 \/ cancelled g = true)
  end.

Definition Inv (s : Sys) : Prop := GateOk (gate s) (reqs s) /\ DrainOk (gate s) (drain s).

Lemma enter_ok g g' rs r :
  GateOk g rs -> r ∉ rs -> enter g = Some g' ->
  GateOk g' ({[r]} ∪ rs) /\ closed g = false /\ closed g' = false /\ cancelled g' = cancelled g.
Proof.
  intros (Hn & Hch & Hp) Hr. unfold enter. destruct (closed g) eqn:Hc; [done|].
  assert (Hsz : Z.of_nat (size ({[r]} ∪ rs)) = inFlight g + 1).
  { rewrite size_union by set_solver. rewrite size_singleton. lia. }
  destruct (inFlight g =? 0) eqn:E; intros [= <-]; cbn.
  - split; [|done]. split_and!; cbn; [lia| |done].
    rewrite lookup_app_r, Nat.sub_diag by lia. cbn. do 2 f_equal. lia.
  - split; [|done]. split_and!; cbn; [lia| |done]. rewrite Hch. do 2 f_equal. lia.
Qed.

Lemma done_ok g rs r :
  GateOk g rs -> r ∈ rs ->
  GateOk (done_ g) (rs ∖ {[r]}) /\ inFlight (done_ g) = inFlight g - 1
  /\ closed (done_ g) = closed g /\ cancelled (done_ g) = cancelled g /\ idle (done_ g) = idle g.
Proof.
  intros (Hn & Hch & Hp) Hr.
  assert (Hsz : Z.of_nat (size (rs ∖ {[r]})) = inFlight g - 1 /\ inFlight g > 0).
  { rewrite size_difference by set_solver. rewrite size_singleton.
    assert (size rs <> 0%nat); [|lia]. rewrite size_non_empty_iff. set_solver. }
  destruct Hsz as [Hsz Hpos].
  unfold done_. destruct (inFlight g - 1 =? 0) eqn:E; cbn; (split; [|done]).
  - apply Z.eqb_eq in E. split_and!; cbn; [lia| |].
    + rewrite list_lookup_insert_eq by eauto using lookup_lt_Some. f_equal. lia.
    + rewrite Hp, Hch. destruct (Z.eqb_spec (inFlight g) 0); [lia|]. done.
  - split_and!; cbn; [lia| |done]. rewrite Hch. f_equal. lia.
Qed.

Lemma drain_ok g rs d g' d' :
  GateOk g rs -> DrainOk g d -> Drain (g, d) (g', d') -> GateOk g' rs /\ DrainOk g' d'.
Proof.
  intros HG HD Hs. pose proof HG as (Hn & Hch & Hp). inversion Hs; subst; cbn in *; split; try done;
    unfold GateOk, idleCh in *; cbn; intuition (subst; cbn; try lia; auto).
  rewrite Hch in *. simplify_eq. lia.
Qed.

Lemma handler_served g g' : Handler g = Served g' -> enter g = Some g'.
Proof. unfold Handler. destruct (enter g); [by intros [= ->]|done]. Qed.

Lemma gate_step_inv s s' : Inv s -> step s s' -> Inv s'.
Proof.
  intros [HG HD] Hs. inversion Hs as [r g g' rs d Hr He%handler_served| |r g rs d Hr|]; subst; cbn in *.
  - destruct (enter_ok _ _ _ _ HG Hr He) as (? & Hc & _). split; [done|].
    destruct d; cbn in *; try done; intuition congruence.
  - done.
  - destruct (done_ok _ _ _ HG Hr) as ((? & ? & ?) & Hn & Hc & Hx & Hi). split; [done|].
    cbn. destruct d; cbn in *; rewrite ?Hn, ?Hc, ?Hx, ?Hi; intuition lia.
  - by eapply drain_ok.
Qed.

Lemma gate_reachable_inv s : reachable s -> Inv s.
Proof.
  apply (rtc_ind_r (fun s => Inv s)); [|by eauto using gate_step_inv].
  split; cbn; [|done]. repeat split.
Qed.

(** Nothing is admitted after the gate has closed. *)
Lemma closed_step s s' :
  closed (gate s) = true -> step s s' ->
  closed (gate s') = true /\ reqs s' ⊆ reqs s.
Proof.
  intros Hc Hs. inversion Hs as [r g g' rs d Hr He%handler_served| |r g rs d Hr|????? Hd]; subst; cbn in *.
  - unfold enter in He. by rewrite Hc in He.
  - done.
  - unfold done_. split; [by case_match|set_solver].
  - split; [|reflexivity]. by inversion Hd; subst.
Qed.

Lemma closed_steps s s' :
  closed (gate s) = true -> rtc step s s' -> closed (gate s') = true /\ reqs s' ⊆ reqs s.
Proof.
  intros Hc Hr. induction Hr as [|s1 s2 s3 H12 _ IH]; [done|].
  destruct (closed_step _ _ Hc H12) as [Hc2 ?]. destruct (IH Hc2). split; [done|set_solver].
Qed.

(** ** Properties *)

(** In every interleaving of requests with the drain the in-flight count
    is the number of admitted requests that have not finished, the idle
    channel is closed exactly when there are none, and no channel is closed
    twice. *)
Theorem gate_counts s :
  reachable s ->
  inFlight (gate s) = Z.of_nat (size (reqs s))
  /\ (chans (gate s) !! idleCh (gate s) = Some true <-> reqs s = ∅)
  /\ panicked (gate s) = false.
Proof.
  intros [(Hn & Hch & Hp) _]%gate_reachable_inv. split_and!; [done| |done].
  unfold idleCh. rewrite Hch, Hn, <-leibniz_equiv_iff, <-size_empty_iff.
  split; [intros [= ?%Z.eqb_eq]; lia|intros ->; done].
Qed.

(** When [Drain] returns, its counts are ordered (remaining, cancelled, in
    flight at the start), at most [Remaining] requests still run, and whatever
    happens later none is admitted: after a drain with [Remaining = 0] no
    request ever runs again. Requests that outlived the grace period had their
    contexts cancelled. *)
Theorem drain_result s s' res :
  reachable s -> drain s = DReturn res -> rtc step s s' ->
  0 <= r_Remaining res <= r_Cancelled res /\ r_Cancelled res <= r_InFlight res
  /\ Z.of_nat (size (reqs s')) <= r_Remaining res
  /\ (r_Remaining res = 0 -> reqs s' = ∅)
  /\ (0 < r_Cancelled res -> forall parent, ctx_cancelled s parent = true).
Proof.
  intros [(Hn & _) HD]%gate_reachable_inv Hd Hr. rewrite Hd in HD. cbn in HD.
  destruct HD as (Hc & Hrem & Hord & Hx).
  destruct (closed_steps _ _ Hc Hr) as [_ Hsub]. apply subseteq_size in Hsub.
  split_and!; [lia|lia|lia|lia| |].
  - intros H0. apply leibniz_equiv_iff, size_empty_iff. lia.
  - intros Hpos parent. unfold ctx_cancelled. destruct Hx as [Hx|Hx]; [lia|].
    rewrite Hx. apply orb_true_r.
Qed.

(** A drain that meets one request, which finishes only after its context was
    cancelled. *)
Definition demo_g1 : Gate := mkGate false 1 1 [true; false] false false.
Definition demo_g2 : Gate := cancel (Close demo_g1).
Definition demo : Sys :=
  mkSys (done_ demo_g2) ∅ (DReturn (mkDrainResult 1 1 0)).

Lemma demo_reachable : reachable demo.
Proof.
  unfold reachable, init.
  eapply rtc_l; [apply (s_enter 7 _ demo_g1); [set_solver|done]|]. rewrite union_empty_r_L.
  eapply rtc_l; [apply s_drain, dr_close|].
  eapply rtc_l; [apply s_drain, dr_count|].
  eapply rtc_l; [apply s_drain, dr_idle|].
  eapply rtc_l; [apply s_drain, dr_grace; done|].
  eapply rtc_l; [apply s_drain, dr_cancelled|].
  eapply rtc_l; [apply s_drain, dr_cancel|].
  eapply rtc_l; [apply s_drain, dr_idle2|].
  eapply rtc_l; [apply (s_done 7); set_solver|]. rewrite difference_diag_L.
  eapply rtc_l; [apply s_drain, (dr_wait2 _ _ _ true); done|].
  eapply rtc_l; [apply s_drain, dr_remaining|]. apply rtc_refl.
Qed.

Lemma gate_counts_witness :
  inFlight (gate demo) = Z.of_nat (size (reqs demo)) /\ panicked (gate demo) = false.
Proof. destruct (gate_counts demo demo_reachable) as (H1 & _ & H2). exact (conj H1 H2). Defined.

Lemma drain_result_witness : reqs demo = ∅.
Proof.
  exact (proj1 (proj2 (proj2 (proj2
    (drain_result demo demo (mkDrainResult 1 1 0) demo_reachable eq_refl (rtc_refl _ _))))) eq_refl).
Defined.

End Gate.
