(* ===== verification/Float64.v ===== *)
(** * IEEE binary64, Go's [float64]

    Executable arithmetic over [SpecFloat], round to nearest even, with the
    comparisons and the [math] functions that are exactly specified
    ([Min], [Max], [Abs], [Sqrt], [Hypot]). The transcendental functions of
    Go's [math] package are a class, [MathKernel]. A fused multiply-add, which
    Go permits on some targets, is not modelled. *)

From Stdlib Require Export Floats.SpecFloat.
From S2P Require Import Prelude.

Module F64.

Definition float64 := spec_float.
#[export] Instance float64_eq_dec : EqDecision float64.
Proof. solve_decision. Defined.

Definition prec : Z := 53.
Definition emax : Z := 1024.
Definition of_Z (n : Z) : float64 := binary_normalize prec emax n 0 false.
Definition add : float64 -> float64 -> float64 := SFadd prec emax.
Definition sub : float64 -> float64 -> float64 := SFsub prec emax.
Definition mul : float64 -> float64 -> float64 := SFmul prec emax.
Definition div : float64 -> float64 -> float64 := SFdiv prec emax.
Definition sqrt : float64 -> float64 := SFsqrt prec emax.
Definition ltb : float64 -> float64 -> bool := SFltb.
Definition leb : float64 -> float64 -> bool := SFleb.
Definition eqb : float64 -> float64 -> bool := SFeqb.
Definition zero : float64 := S754_zero false.
Definition one : float64 := of_Z 1.
Definition two : float64 := of_Z 2.
Definition inf : float64 := S754_infinity false.
Definition neg_inf : float64 := S754_infinity true.

Definition is_nan (x : float64) : bool := match x with S754_nan => true | _ => false end.
Definition signbit (x : float64) : bool :=
  match x with
  | S754_zero s | S754_infinity s | S754_finite s _ _ => s
  | S754_nan => false
  end.
Definition abs (x : float64) : float64 := SFabs x.

(** [math.Min] and [math.Max], and the built-ins [min] and [max]. *)
Definition min (x y : float64) : float64 :=
  if bool_decide (x = neg_inf) || bool_decide (y = neg_inf) then neg_inf
  else if is_nan x || is_nan y then S754_nan
  else match x, y with
       | S754_zero _, S754_zero _ => if signbit x then x else y
       | _, _ => if ltb x y then x else y
       end.
Definition max (x y : float64) : float64 :=
  if bool_decide (x = inf) || bool_decide (y = inf) then inf
  else if is_nan x || is_nan y then S754_nan
  else match x, y with
       | S754_zero _, S754_zero _ => if signbit x then y else x
       | _, _ => if ltb y x then x else y
       end.

(** [math.Hypot]. *)
Definition hypot (p q : float64) : float64 :=
  if bool_decide (abs p = inf) || bool_decide (abs q = inf) then inf
  else if is_nan p || is_nan q then S754_nan
  else
    let '(p, q) := (abs p, abs q) in
    let '(p, q) := if ltb p q then (q, p) else (p, q) in
    if eqb p zero then zero
    else let q := div q p in mul p (sqrt (add one (mul q q))).

(** The conversion [int64(x)] of a finite value in range: toward zero. *)
Definition trunc (x : float64) : Z :=
  match x with
  | S754_finite s m e =>
      let n := if 0 <=? e then Z.pos m * 2 ^ e else Z.pos m / 2 ^ (- e) in if s then - n else n
  | _ => 0
  end.

(** [time.Duration.Seconds]. *)
Definition Seconds (d : Duration) : float64 :=
  add (of_Z (Z.quot d second)) (div (of_Z (Z.rem d second)) (of_Z 1000000000)).

(** [math.Pi] as a float64. *)
Definition pi : float64 := S754_finite false 7074237752028440 (-51).

(** [proto.Equal] on a double: all NaNs are equal and the sign of a zero is
    ignored, so two doubles are equal exactly when their canonical forms are. *)
Definition canon (x : float64) : float64 :=
  match x with S754_zero _ => S754_zero false | _ => x end.

(** ** Order *)

Lemma SFcompare_lt_trans a b c :
  SFcompare a b = Some Lt -> SFcompare b c = Some Lt -> SFcompare a c = Some Lt.
Proof.
  assert (Hf : forall m1 e1 m2 e2 m3 e3,
    match (e1 ?= e2) with Lt => Lt | Gt => Gt | Eq => Pos.compare_cont Eq m1 m2 end = Lt ->
    match (e2 ?= e3) with Lt => Lt | Gt => Gt | Eq => Pos.compare_cont Eq m2 m3 end = Lt ->
    match (e1 ?= e3) with Lt => Lt | Gt => Gt | Eq => Pos.compare_cont Eq m1 m3 end = Lt).
  { intros m1 e1 m2 e2 m3 e3. change (Pos.compare_cont Eq) with Pos.compare.
    destruct (Z.compare_spec e1 e2), (Z.compare_spec e2 e3), (Z.compare_spec e1 e3);
      try done; try lia; subst; rewrite !Pos.compare_lt_iff; lia. }
  destruct a as [[]|[]| |[] m1 e1], b as [[]|[]| |[] m2 e2], c as [[]|[]| |[] m3 e3]; cbn; try done;
    intros [= H1] [= H2]; f_equal.
  - assert (Hs : forall m e m' e',
      match (e ?= e') with Lt => Gt | Gt => Lt | Eq => CompOpp (Pos.compare_cont Eq m m') end = Lt
      <-> match (e' ?= e) with Lt => Lt | Gt => Gt | Eq => Pos.compare_cont Eq m' m end = Lt).
    { intros m e m' e'. change (Pos.compare_cont Eq) with Pos.compare.
      rewrite (Z.compare_antisym e e'), (Pos.compare_antisym m m'). destruct (e ?= e'); done. }
    apply Hs. apply Hs in H1. apply Hs in H2. eauto.
  - eauto.
Qed.

Lemma ltb_spec a b : ltb a b = true <-> SFcompare a b = Some Lt.
Proof. unfold ltb, SFltb. destruct (SFcompare a b) as [[]|]; intuition congruence. Qed.

Lemma ltb_trans a b c : ltb a b = true -> ltb b c = true -> ltb a c = true.
Proof. rewrite !ltb_spec. apply SFcompare_lt_trans. Qed.

Lemma ltb_irrefl a : ltb a a = false.
Proof.
  destruct (ltb a a) eqn:E; [|done]. apply ltb_spec in E.
  destruct a as [[]|[]| |[] m e]; cbn in E; try done;
    rewrite Z.compare_refl in E; change (Pos.compare_cont Eq) with Pos.compare in E;
    rewrite Pos.compare_refl in E; done.
Qed.

(** A value not above [b] is not above anything above [b]. *)
Lemma ltb_asym a b : ltb a b = true -> ltb b a = false.
Proof. intros H. destruct (ltb b a) eqn:E; [|done]. by rewrite <-(ltb_irrefl a), (ltb_trans _ _ _ H E). Qed.

Lemma ltb_not_trans a b d : ltb a b = true -> ltb d b = false -> ltb d a = false.
Proof. intros Hab Hdb. destruct (ltb d a) eqn:E; [|done]. by rewrite (ltb_trans _ _ _ E Hab) in Hdb. Qed.

(** Equal values compare alike. *)
Lemma SFcompare_eq_l a b c : SFcompare a b = Some Eq -> SFcompare a c = SFcompare b c.
Proof.
  assert (Hf : forall m1 e1 m2 e2,
    match (e1 ?= e2) with Lt => Lt | Gt => Gt | Eq => Pos.compare_cont Eq m1 m2 end = Eq ->
    m1 = m2 /\ e1 = e2).
  { intros m1 e1 m2 e2. change (Pos.compare_cont Eq) with Pos.compare.
    destruct (Z.compare_spec e1 e2); try done. by intros ->%Pos.compare_eq. }
  destruct a as [[]|[]| |[] m1 e1], b as [[]|[]| |[] m2 e2]; cbn; try done; intros [= H].
  - destruct (Hf m1 e1 m2 e2) as [-> ->]; [|done].
    change (Pos.compare_cont Eq) with Pos.compare in *. destruct (e1 ?= e2); try done.
    by destruct (Pos.compare m1 m2).
  - by destruct (Hf _ _ _ _ H) as [-> ->].
Qed.

Lemma SFcompare_opp a b : SFcompare b a = CompOpp <$> SFcompare a b.
Proof.
  destruct a as [[]|[]| |[] m1 e1], b as [[]|[]| |[] m2 e2]; cbn; try done; f_equal;
    change (Pos.compare_cont Eq) with Pos.compare;
    rewrite (Z.compare_antisym e2 e1), (Pos.compare_antisym m2 m1);
    destruct (e2 ?= e1), (Pos.compare m2 m1); done.
Qed.

Lemma leb_spec a b : leb a b = true <-> SFcompare a b = Some Lt \/ SFcompare a b = Some Eq.
Proof. unfold leb, SFleb. destruct (SFcompare a b) as [[]|]; intuition congruence. Qed.

Lemma leb_trans a b c : leb a b = true -> leb b c = true -> leb a c = true.
Proof.
  rewrite !leb_spec. intros [H1|H1] H2.
  - destruct H2 as [H2|H2]; [left; by eapply SFcompare_lt_trans|left].
    pose proof (SFcompare_opp b c) as Ho. rewrite H2 in Ho.
    rewrite (SFcompare_opp c a), (SFcompare_eq_l c b a Ho), (SFcompare_opp a b), H1. done.
  - by rewrite (SFcompare_eq_l a b c H1).
Qed.

Lemma leb_refl a : is_nan a = false -> leb a a = true.
Proof.
  intros Ha. apply leb_spec. right.
  destruct a as [[]|[]| |[] m e]; try done; cbn; rewrite Z.compare_refl;
    change (Pos.compare_cont Eq) with Pos.compare; by rewrite Pos.compare_refl.
Qed.

Lemma not_ltb_leb a b : is_nan a = false -> is_nan b = false -> ltb a b = false -> leb b a = true.
Proof.
  intros Ha Hb. rewrite leb_spec, (SFcompare_opp a b). unfold ltb, SFltb.
  destruct (SFcompare a b) as [[]|] eqn:E; cbn; intros; auto; try done.
  destruct a as [[]|[]| |[]], b as [[]|[]| |[]]; done.
Qed.

Lemma ltb_leb a b : ltb a b = true -> leb a b = true.
Proof. rewrite ltb_spec, leb_spec. auto. Qed.

Lemma min_spec x y : is_nan x = false -> is_nan y = false ->
  is_nan (min x y) = false /\ leb (min x y) x = true /\ leb (min x y) y = true.
Proof.
  intros Hx Hy. unfold min. destruct (bool_decide (x = neg_inf)) eqn:E1; [|destruct (bool_decide (y = neg_inf)) eqn:E2].
  1, 2: cbn; split_and!; [done|..]; [destruct x as [[]|[]| |[]]|destruct y as [[]|[]| |[]]]; done.
  cbn. rewrite Hx, Hy. cbn.
  destruct x as [[]|[]| |[] ? ?] eqn:Ex, y as [[]|[]| |[] ? ?] eqn:Ey; try done; rewrite <-Ex, <-Ey in *;
    (destruct (ltb x y) eqn:E; (split_and!;
       [done|auto using leb_refl, not_ltb_leb, ltb_leb..])).
Qed.

Lemma max_spec x y : is_nan x = false -> is_nan y = false ->
  is_nan (max x y) = false /\ leb x (max x y) = true /\ leb y (max x y) = true.
Proof.
  intros Hx Hy. unfold max. destruct (bool_decide (x = inf)) eqn:E1; [|destruct (bool_decide (y = inf)) eqn:E2].
  1, 2: cbn; split_and!; [done|..]; [destruct x as [[]|[]| |[]]|destruct y as [[]|[]| |[]]]; done.
  cbn. rewrite Hx, Hy. cbn.
  destruct x as [[]|[]| |[] ? ?] eqn:Ex, y as [[]|[]| |[] ? ?] eqn:Ey; try done; rewrite <-Ex, <-Ey in *;
    (destruct (ltb y x) eqn:E; (split_and!;
       [done|auto using leb_refl, not_ltb_leb, ltb_leb..])).
Qed.

End F64.

Declare Scope f64_scope.
Delimit Scope f64_scope with f64.
Infix "+" := F64.add : f64_scope.
Infix "-" := F64.sub : f64_scope.
Infix "*" := F64.mul : f64_scope.
Infix "/" := F64.div : f64_scope.
Infix "<?" := F64.ltb : f64_scope.
Infix "<=?" := F64.leb : f64_scope.
Infix "=?" := F64.eqb : f64_scope.

(** Go's [math] functions that are only specified up to accuracy. *)
Class MathKernel := {
  Sin : F64.float64 -> F64.float64;
  Cos : F64.float64 -> F64.float64;
  Asin : F64.float64 -> F64.float64;
  Acos : F64.float64 -> F64.float64;
  Atan2 : F64.float64 -> F64.float64 -> F64.float64;
}.
