(* ===== verification/Geo.v ===== *)
(** * Great-circle distances

    [internal/lib/geo/geo.go]: the distance functions [PointNearLine] and the
    road services build on, over binary64 and a [MathKernel]. A Go result with
    an error is a sum; [val0] is the value a caller that drops the error uses.
    The sampled overlap functions are not here. *)

From S2P Require Import Prelude Float64.

Module Geo.
Import F64.

Record Point := mkPoint { Latitude : float64; Longitude : float64 }.
Record Polyline := mkPolyline { EncodedPolyline : string; Points : list Point }.

Definition val0 (r : string + float64) : float64 :=
  match r with inl _ => zero | inr d => d end.

Definition isValidCoordinate (p : Point) : bool :=
  (leb (of_Z (-90)) (Latitude p) && leb (Latitude p) (of_Z 90)
   && leb (of_Z (-180)) (Longitude p) && leb (Longitude p) (of_Z 180))%bool.

Definition same_point (p q : Point) : bool :=
  eqb (Latitude p) (Latitude q) && eqb (Longitude p) (Longitude q).

Section Geo.
Context {MK : MathKernel}.
Local Open Scope f64_scope.

Definition radians (x : float64) : float64 := x * pi / of_Z 180.
Definition earthRadius : float64 := of_Z 6371000.

(** [PointToPoint]: haversine. *)
Definition PointToPoint (p1 p2 : Point) : string + float64 :=
  if negb (isValidCoordinate p1) || negb (isValidCoordinate p2) then
    inl "invalid coordinates: latitude must be [-90, 90], longitude must be [-180, 180]"%string
  else if same_point p1 p2 then inr zero
  else
    let lat1 := radians (Latitude p1) in
    let lon1 := radians (Longitude p1) in
    let lat2 := radians (Latitude p2) in
    let lon2 := radians (Longitude p2) in
    let dlat := lat2 - lat1 in
    let dlon := lon2 - lon1 in
    let a := Sin (dlat / two) * Sin (dlat / two)
             + Cos lat1 * Cos lat2 * Sin (dlon / two) * Sin (dlon / two) in
    let c := two * Atan2 (sqrt a) (sqrt (one - a)) in
    inr (earthRadius * c).

(** [pointToSegmentDistance], split at the branches of its last part. *)
Definition crossTrack (point segmentStart segmentEnd : Point) : float64 * float64 :=
  let lat1 := radians (Latitude segmentStart) in
  let lon1 := radians (Longitude segmentStart) in
  let lat2 := radians (Latitude segmentEnd) in
  let lon2 := radians (Longitude segmentEnd) in
  let lat3 := radians (Latitude point) in
  let lon3 := radians (Longitude point) in
  let d13 := val0 (PointToPoint point segmentStart) / earthRadius in
  let y := Sin (lon2 - lon1) * Cos lat2 in
  let x := Cos lat1 * Sin lat2 - Sin lat1 * Cos lat2 * Cos (lon2 - lon1) in
  let bearing13 := Atan2 y x in
  let y := Sin (lon3 - lon1) * Cos lat3 in
  let x := Cos lat1 * Sin lat3 - Sin lat1 * Cos lat3 * Cos (lon3 - lon1) in
  let bearing12 := Atan2 y x in
  let dxt := Asin (Sin d13 * Sin (bearing12 - bearing13)) in
  let crossTrackDistance := abs dxt * earthRadius in
  let dat := Acos (Cos d13 / Cos dxt) in
  (crossTrackDistance, dat * earthRadius).

Definition pointToSegmentDistance (point segmentStart segmentEnd : Point) : float64 :=
  if same_point segmentStart segmentEnd then val0 (PointToPoint point segmentStart)
  else
    let distanceToStart := val0 (PointToPoint point segmentStart) in
    let distanceToEnd := val0 (PointToPoint point segmentEnd) in
    let segmentLength := val0 (PointToPoint segmentStart segmentEnd) in
    if ltb segmentLength one then min distanceToStart distanceToEnd
    else
      let '(crossTrackDistance, alongTrackDistance) :=
        crossTrack point segmentStart segmentEnd in
      if ltb segmentLength alongTrackDistance then distanceToEnd else crossTrackDistance.

(** The loop over consecutive vertices, as the list of segments. *)
Fixpoint segments (l : list Point) : list (Point * Point) :=
  match l with
  | a :: (b :: _) as t => (a, b) :: segments t
  | _ => []
  end.

Definition keep_less (best d : float64) : float64 := if ltb d best then d else best.

Definition PointToPolyline (point : Point) (polyline : Polyline) : string + float64 :=
  if negb (isValidCoordinate point) then inl "invalid point coordinates"%string
  else match Points polyline with
       | [] => inl "polyline has no points"%string
       | [p] => PointToPoint point p
       | pts => inr (foldl keep_less inf
                       (map (fun s => pointToSegmentDistance point s.1 s.2) (segments pts)))
       end.

Definition closestPointOnSegment (point segmentStart segmentEnd : Point) : Point :=
  if same_point segmentStart segmentEnd then segmentStart
  else if leb (val0 (PointToPoint point segmentStart)) (val0 (PointToPoint point segmentEnd))
       then segmentStart else segmentEnd.

Definition findCloserPoint (point segStart segEnd : Point) : Point :=
  if leb (val0 (PointToPoint point segStart)) (val0 (PointToPoint point segEnd))
  then segStart else segEnd.

Definition ClosestPointOnPolyline (point : Point) (polyline : Polyline) : string + Point :=
  if negb (isValidCoordinate point) then inl "invalid point coordinates"%string
  else match Points polyline with
       | [] => inl "polyline has no points"%string
       | [p] => inr p
       | pts =>
           inr (foldl (fun (acc : Point * float64) s =>
                         let c := closestPointOnSegment point s.1 s.2 in
                         let d := val0 (PointToPoint point c) in
                         if ltb d acc.2 then (c, d) else acc)
                  (mkPoint zero zero, inf) (segments pts)).1
       end.

Definition FilterPointsByDistance (points : list Point) (center : Point)
    (maxDistanceMeters : float64) : string + list Point :=
  if negb (isValidCoordinate center) then inl "invalid center point coordinates"%string
  else
    let within p :=
      isValidCoordinate p
      && match PointToPoint center p with inl _ => false | inr d => leb d maxDistanceMeters end in
    inr (filter (fun p => within p = true) points).

Definition interpolatePoint (start stop : Point) (t : float64) : Point :=
  mkPoint (Latitude start + t * (Latitude stop - Latitude start))
          (Longitude start + t * (Longitude stop - Longitude start)).

Definition DistanceFromCoords (lat1 lon1 lat2 lon2 : float64) : string + float64 :=
  PointToPoint (mkPoint lat1 lon1) (mkPoint lat2 lon2).

(** [DecodePolyline]; the decoder is a third-party package. *)
Definition DecodePolyline (decodeCoords : string -> option (list (float64 * float64)))
    (encoded : string) : string + list Point :=
  if bool_decide (encoded = "") then inl "encoded polyline string is empty"%string
  else match decodeCoords encoded with
       | None => inl "failed to decode polyline"%string
       | Some coords =>
           let points := map (fun c => mkPoint c.1 c.2) coords in
           if forallb isValidCoordinate points then inr points
           else inl "decoded polyline contains invalid coordinates"%string
       end.

(** ** The minimum of a running comparison *)

Lemma foldl_keep_less ds best :
  foldl keep_less best ds = best \/ ltb (foldl keep_less best ds) best = true.
Proof.
  revert best. induction ds as [|x ds IH]; intros best; cbn; [by left|].
  unfold keep_less at 2 4. destruct (ltb x best) eqn:E; [|apply IH].
  right. destruct (IH x) as [-> | H]; [done|]. by eapply ltb_trans.
Qed.

Lemma foldl_keep_less_in ds best : foldl keep_less best ds ∈ best :: ds.
Proof.
  revert best. induction ds as [|x ds IH]; intros best; cbn; [by left|].
  unfold keep_less at 2. pose proof (IH x). pose proof (IH best).
  destruct (ltb x best); set_solver.
Qed.

Lemma foldl_keep_less_bound ds best d :
  d ∈ best :: ds -> ltb d (foldl keep_less best ds) = false.
Proof.
  revert best d. induction ds as [|x ds IH]; intros best d Hd; cbn.
  { apply list_elem_of_singleton in Hd as ->. apply ltb_irrefl. }
  unfold keep_less at 2. destruct (ltb x best) eqn:E.
  - inversion Hd as [|? ? ? Hd']; subst; [|by apply IH].
    destruct (foldl_keep_less ds x) as [-> | H].
    + destruct (ltb best x) eqn:E2; [|done].
      pose proof (ltb_trans _ _ _ E E2) as H. by rewrite ltb_irrefl in H.
    + destruct (ltb best (foldl keep_less x ds)) eqn:E2; [|done].
      pose proof (ltb_trans _ _ _ (ltb_trans _ _ _ H E) E2) as H'. by rewrite ltb_irrefl in H'.
  - destruct (decide (d = x)) as [-> | Hne]; [|apply IH; set_solver].
    destruct (foldl_keep_less ds best) as [-> | H]; [done|].
    destruct (ltb x (foldl keep_less best ds)) eqn:E2; [|done].
    by rewrite (ltb_trans _ _ _ E2 H) in E.
Qed.

(** The distance to a line of at least two vertices is the least of its
    segments' distances: it is one of them (or +Inf, when none compares), and
    no segment is nearer. An invalid point or an empty line is an error, a
    single vertex the point distance. *)
Theorem PointToPolyline_least point a b pts enc :
  isValidCoordinate point = true ->
  exists d, PointToPolyline point (mkPolyline enc (a :: b :: pts)) = inr d
    /\ (d = inf \/ exists s, s ∈ segments (a :: b :: pts)
                            /\ d = pointToSegmentDistance point s.1 s.2)
    /\ (forall s, s ∈ segments (a :: b :: pts) ->
                 ltb (pointToSegmentDistance point s.1 s.2) d = false).
Proof.
  intros Hv. unfold PointToPolyline. rewrite Hv. cbn [negb Points].
  eexists. split; [done|]. set (l := segments (a :: b :: pts)). split.
  - pose proof (foldl_keep_less_in (map (fun s => pointToSegmentDistance point s.1 s.2) l) inf)
      as [H|H]%elem_of_cons; [by left|right].
    apply list_elem_of_fmap in H as (s & -> & Hs). eauto.
  - intros s Hs. apply foldl_keep_less_bound. right. apply list_elem_of_fmap. eauto.
Qed.

(** For a segment of at least a metre the distance to its start is never
    returned: the along-track test compares an arc cosine, which has no sign,
    so a point whose projection lies behind the start gets the distance to the
    great circle (or to the end) instead of the nearest endpoint's. *)
Theorem segment_start_never_nearest point s e :
  same_point s e = false ->
  ltb (val0 (PointToPoint s e)) one = false ->
  pointToSegmentDistance point s e = val0 (PointToPoint point e)
  \/ pointToSegmentDistance point s e = (crossTrack point s e).1.
Proof.
  intros Hne Hlen. unfold pointToSegmentDistance. rewrite Hne, Hlen.
  destruct (crossTrack point s e) as [x a]. cbn. destruct (ltb _ a); auto.
Qed.

End Geo.

(** ** A concrete kernel

    Truncated series, accurate for the small angles of the examples and with
    the signs and quadrants of the real functions. *)

Module Series.
Local Open Scope f64_scope.

Definition ratio (n d : Z) : float64 := of_Z n / of_Z d.
Definition half_pi : float64 := pi / two.

Definition sin_small (x : float64) : float64 :=
  let x2 := x * x in
  x * (one - x2 * (ratio 1 6 - x2 * (ratio 1 120 - x2 * ratio 1 5040))).
Definition sin (x : float64) : float64 :=
  if ltb half_pi x then sin_small (pi - x)
  else if ltb x (zero - half_pi) then sin_small (zero - pi - x)
  else sin_small x.
Definition asin (x : float64) : float64 :=
  let x2 := x * x in x * (one + x2 * (ratio 1 6 + x2 * ratio 3 40)).
Definition acos (x : float64) : float64 :=
  if ltb (abs x) (ratio 1 2) then half_pi - asin x
  else let y := one - x in sqrt (two * y) * (one + y * ratio 1 12).
Definition atan_small (z : float64) : float64 :=
  let z2 := z * z in z * (one - z2 * (ratio 1 3 - z2 * ratio 1 5)).
Definition atan2 (y x : float64) : float64 :=
  if leb (abs y) (abs x)
  then let t := atan_small (y / x) in
       if ltb x zero then (if ltb y zero then t - pi else t + pi) else t
  else let t := half_pi - atan_small (abs (x / y)) in
       let t := if ltb x zero then pi - t else t in
       if ltb y zero then zero - t else t.

Definition kernel : MathKernel :=
  {| Sin := sin; Cos := fun x => sin (x + half_pi); Asin := asin; Acos := acos; Atan2 := atan2 |}.
End Series.

Definition at_ (lat100 lng100 : Z) : Point :=
  mkPoint (of_Z lat100 / of_Z 100)%f64 (of_Z lng100 / of_Z 100)%f64.

(** A road running north from 38.00 to 38.10 and a point at 37.95, five and a
    half kilometres south of its start. *)
Definition road : list Point := [at_ 3800 (-12000); at_ 3810 (-12000)].
Definition south : Point := at_ 3795 (-12000).

Lemma PointToPolyline_least_witness :
  exists d, @PointToPolyline Series.kernel south (mkPolyline "" road) = inr d
            /\ ltb (@pointToSegmentDistance Series.kernel south (at_ 3800 (-12000)) (at_ 3810 (-12000))) d
               = false.
Proof.
  destruct (@PointToPolyline_least Series.kernel south (at_ 3800 (-12000)) (at_ 3810 (-12000)) [] "")
    as (d & Hd & _ & Hle); [vm_compute; reflexivity|].
  exists d. split; [exact Hd|]. exact (Hle _ ltac:(left)).
Defined.

(** The point is more than five kilometres from the start, and less than a
    metre from the road by this function. *)
Lemma segment_start_never_nearest_witness :
  let d := @pointToSegmentDistance Series.kernel south (at_ 3800 (-12000)) (at_ 3810 (-12000)) in
  (d = val0 (@PointToPoint Series.kernel south (at_ 3810 (-12000)))
   \/ d = (@crossTrack Series.kernel south (at_ 3800 (-12000)) (at_ 3810 (-12000))).1)
  /\ ltb (of_Z 5000) (val0 (@PointToPoint Series.kernel south (at_ 3800 (-12000)))) = true
  /\ ltb d one = true.
Proof.
  split; [|split; vm_compute; reflexivity].
  apply (@segment_start_never_nearest Series.kernel); vm_compute; reflexivity.
Defined.

End Geo.
