(* ===== verification/Geojson.v ===== *)
(** * GeoJSON geometry

    [internal/lib/geojson]: parsing, bounding boxes, point in polygon, polygon
    intersection and the proximity tests, over binary64. [encoding/json]'s
    decoding into the three Go types the package asks for is a class. The
    encoders are not here. *)

From S2P Require Import Prelude Float64 Geo.

(** [json.Unmarshal] into the envelope struct (type and raw coordinates, empty
    when absent), [[]float64], [[][]float64] and [[]json.RawMessage]. *)
Class JsonKernel := {
  unmarshal_env : string -> option (string * string);
  unmarshal_floats : string -> option (list F64.float64);
  unmarshal_floats2 : string -> option (list (list F64.float64));
  unmarshal_raws : string -> option (list string);
}.

Module Geojson.
Import F64.

(** [Position]: [lng, lat] order. *)
Record Position := mkPosition { Lng : float64; Lat : float64 }.

Record Geom := mkGeom {
  g_Type : string;
  g_Point : Position;
  g_Points : list Position;
  g_Rings : list (list Position);
  g_Polygons : list (list (list Position));
}.

Definition zero_position : Position := mkPosition zero zero.

(** ** [Parse] *)

Section Parse.
Context {JK : JsonKernel}.

Definition toPosition (c : list float64) : option Position :=
  match c with
  | lng :: lat :: _ => Some (mkPosition lng lat)
  | _ => None
  end.

Definition parsePositions (raw : string) : option (list Position) :=
  cs ← unmarshal_floats2 raw; mapM toPosition cs.

Definition parseRings (raw geomType : string) : option (list (list Position)) :=
  raws ← unmarshal_raws raw;
  if bool_decide (raws = []) then None
  else
    let least := if bool_decide (geomType = "MultiLineString") then 2%nat else 3%nat in
    mapM (fun rr => pts ← parsePositions rr;
                    if (length pts <? least)%nat then None else Some pts) raws.

Definition Parse (raw : string) : option Geom :=
  '(t, coords) ← unmarshal_env raw;
  if bool_decide (coords = "") || bool_decide (coords = "null") then None
  else if bool_decide (t = "Point") then
    c ← unmarshal_floats coords; p ← toPosition c;
    Some (mkGeom t p [] [] [])
  else if bool_decide (t = "MultiPoint") || bool_decide (t = "LineString") then
    pts ← parsePositions coords;
    let least := if bool_decide (t = "LineString") then 2%nat else 1%nat in
    if (length pts <? least)%nat then None else Some (mkGeom t zero_position pts [] [])
  else if bool_decide (t = "MultiLineString") || bool_decide (t = "Polygon") then
    rings ← parseRings coords t;
    Some (mkGeom t zero_position [] rings [])
  else if bool_decide (t = "MultiPolygon") then
    raws ← unmarshal_raws coords;
    if bool_decide (raws = []) then None
    else polys ← mapM (fun pr => parseRings pr "Polygon") raws;
         Some (mkGeom t zero_position [] [] polys)
  else None.

End Parse.

(** [eachPosition], as the list of positions it visits. *)
Definition positions (g : Geom) : list Position :=
  if bool_decide (g_Type g = "Point") then [g_Point g]
  else if bool_decide (g_Type g = "MultiPoint") || bool_decide (g_Type g = "LineString") then
    g_Points g
  else if bool_decide (g_Type g = "MultiLineString") || bool_decide (g_Type g = "Polygon") then
    mjoin (g_Rings g)
  else if bool_decide (g_Type g = "MultiPolygon") then mjoin (mjoin (g_Polygons g))
  else [].

(** [(minLat, minLng, maxLat, maxLng)]. *)
Record Box := mkBox { bMinLat : float64; bMinLng : float64; bMaxLat : float64; bMaxLng : float64 }.

Definition box_of (p : Position) : Box := mkBox (Lat p) (Lng p) (Lat p) (Lng p).
Definition box_add (b : Box) (p : Position) : Box :=
  mkBox (min (bMinLat b) (Lat p)) (min (bMinLng b) (Lng p))
        (max (bMaxLat b) (Lat p)) (max (bMaxLng b) (Lng p)).

Definition Bbox (g : Geom) : Box :=
  match positions g with
  | [] => mkBox zero zero zero zero
  | p :: ps => foldl box_add (box_of p) ps
  end.

(** [(lat, lng)] of the box's centre. *)
Definition Centroid (g : Geom) : float64 * float64 :=
  let b := Bbox g in
  (((bMinLat b + bMaxLat b) / two)%f64, ((bMinLng b + bMaxLng b) / two)%f64).

Definition BboxIntersects (a b : Box) : bool :=
  leb (bMinLat a) (bMaxLat b) && leb (bMinLat b) (bMaxLat a)
  && leb (bMinLng a) (bMaxLng b) && leb (bMinLng b) (bMaxLng a).

(** ** Point in polygon *)

(** The edges of a ring as the loops visit them: from the last position to the
    first, then along the ring; [(p_j, p_i)]. *)
Fixpoint path_edges (p : Position) (l : list Position) : list (Position * Position) :=
  match l with
  | [] => []
  | q :: l => (p, q) :: path_edges q l
  end.
Definition ring_edges (ring : list Position) : list (Position * Position) :=
  match last ring with
  | Some z => path_edges z ring
  | None => []
  end.

(** The body of the ray-cast loop: does the eastward ray cross this edge? *)
Definition crosses (lat lng : float64) (e : Position * Position) : bool :=
  let '(pj, pi) := e in
  let '(xi, yi) := (Lng pi, Lat pi) in
  let '(xj, yj) := (Lng pj, Lat pj) in
  xorb (ltb lat yi) (ltb lat yj)
  && ltb lng ((xj - xi) * (lat - yi) / (yj - yi) + xi)%f64.

Definition ring_crossings (lat lng : float64) (ring : list Position) : bool :=
  if (length ring <? 3)%nat then false
  else foldl (fun inside e => xorb inside (crosses lat lng e)) false (ring_edges ring).

Definition ringsContain (rings : list (list Position)) (lat lng : float64) : bool :=
  foldl (fun inside ring => xorb inside (ring_crossings lat lng ring)) false rings.

Definition isAreal (g : Geom) : bool :=
  bool_decide (g_Type g = "Polygon") || bool_decide (g_Type g = "MultiPolygon").

Definition PointInGeometry (lat lng : float64) (g : Geom) : bool :=
  if negb (isAreal g) then false
  else
    let b := Bbox g in
    if ltb lat (bMinLat b) || ltb (bMaxLat b) lat || ltb lng (bMinLng b) || ltb (bMaxLng b) lng
    then false
    else if bool_decide (g_Type g = "Polygon") then ringsContain (g_Rings g) lat lng
    else existsb (fun poly => ringsContain poly lat lng) (g_Polygons g).

(** ** Intersection *)

Definition polygonRings (g : Geom) : list (list Position) :=
  if bool_decide (g_Type g = "Polygon") then g_Rings g else mjoin (g_Polygons g).

Definition anyVertexInside (rings : list (list Position)) (other : Geom) : bool :=
  existsb (fun ring => existsb (fun p => PointInGeometry (Lat p) (Lng p) other) ring) rings.

Definition orient (a b c : Position) : float64 :=
  ((Lng b - Lng a) * (Lat c - Lat a) - (Lat b - Lat a) * (Lng c - Lng a))%f64.

Definition onSegment (a b c : Position) : bool :=
  leb (min (Lng a) (Lng b)) (Lng c) && leb (Lng c) (max (Lng a) (Lng b))
  && leb (min (Lat a) (Lat b)) (Lat c) && leb (Lat c) (max (Lat a) (Lat b)).

Definition segmentsIntersect (p1 p2 p3 p4 : Position) : bool :=
  let d1 := orient p3 p4 p1 in
  let d2 := orient p3 p4 p2 in
  let d3 := orient p1 p2 p3 in
  let d4 := orient p1 p2 p4 in
  if ((ltb zero d1 && ltb d2 zero) || (ltb d1 zero && ltb zero d2))
     && ((ltb zero d3 && ltb d4 zero) || (ltb d3 zero && ltb zero d4)) then true
  else if eqb d1 zero && onSegment p3 p4 p1 then true
  else if eqb d2 zero && onSegment p3 p4 p2 then true
  else if eqb d3 zero && onSegment p1 p2 p3 then true
  else if eqb d4 zero && onSegment p1 p2 p4 then true
  else false.

Definition ring_sides (ring : list Position) : list (Position * Position) :=
  if (length ring <? 2)%nat then [] else ring_edges ring.

Definition ringsCross (a b : list (list Position)) : bool :=
  existsb (fun ra => existsb (fun e =>
    existsb (fun rb => existsb (fun f => segmentsIntersect e.1 e.2 f.1 f.2) (ring_sides rb)) b)
    (ring_sides ra)) a.

Definition Intersects (a b : Geom) : bool :=
  if negb (isAreal a) || negb (isAreal b) then false
  else if negb (BboxIntersects (Bbox a) (Bbox b)) then false
  else
    let '(ra, rb) := (polygonRings a, polygonRings b) in
    if anyVertexInside ra b || anyVertexInside rb a then true
    else ringsCross ra rb.

(** ** Proximity *)

Section Near.
Context {MK : MathKernel}.
Local Open Scope f64_scope.

Definition metersPerDegreeLat : float64 := of_Z 111320.

Definition minCos (lats : list float64) : float64 :=
  foldl (fun m lat => let c := Cos (lat * pi / of_Z 180) in if ltb c m then c else m) one lats.

Definition anyPositionInside (g other : Geom) : bool :=
  existsb (fun p => PointInGeometry (Lat p) (Lng p) other) (positions g).

Record xy := mkXY { x_ : float64; y_ : float64 }.
Definition to_xy (kx : float64) (p : Position) : xy :=
  mkXY (Lng p * kx) (Lat p * metersPerDegreeLat).
Definition project (g : Geom) (kx : float64) : list xy := map (to_xy kx) (positions g).

(** Consecutive pairs, then the closing one. *)
Definition line_edges (closed : bool) (kx : float64) (line : list Position) : list (xy * xy) :=
  match line with
  | p :: (_ :: _) as l =>
      map (fun e => (to_xy kx e.1, to_xy kx e.2)) (path_edges p (tail l))
      ++ (if closed then
            match last l with Some z => [(to_xy kx z, to_xy kx p)] | None => [] end
          else [])
  | _ => []
  end.

Definition projectEdges (g : Geom) (kx : float64) : list (xy * xy) :=
  if bool_decide (g_Type g = "LineString") then line_edges false kx (g_Points g)
  else if bool_decide (g_Type g = "MultiLineString") then g_Rings g ≫= line_edges false kx
  else if bool_decide (g_Type g = "Polygon") then g_Rings g ≫= line_edges true kx
  else if bool_decide (g_Type g = "MultiPolygon") then mjoin (g_Polygons g) ≫= line_edges true kx
  else [].

Definition pointSegDistSq (p : xy) (e : xy * xy) : float64 :=
  let '(a, b) := e in
  let '(dx, dy) := (x_ b - x_ a, y_ b - y_ a) in
  if eqb dx zero && eqb dy zero then
    let '(ux, uy) := (x_ p - x_ a, y_ p - y_ a) in ux * ux + uy * uy
  else
    let t := ((x_ p - x_ a) * dx + (y_ p - y_ a) * dy) / (dx * dx + dy * dy) in
    let t := if ltb t zero then zero else if ltb one t then one else t in
    let '(cx, cy) := (x_ a + t * dx, y_ a + t * dy) in
    let '(ux, uy) := (x_ p - cx, y_ p - cy) in
    ux * ux + uy * uy.

Definition sidesWithin (verts : list xy) (edges : list (xy * xy)) (fallback : list xy)
    (limit : float64) : bool :=
  existsb (fun p =>
    existsb (fun e => leb (pointSegDistSq p e) limit) edges
    || (bool_decide (length edges = 0%nat)
        && existsb (fun q => let '(dx, dy) := (x_ p - x_ q, y_ p - y_ q) in
                             leb (dx * dx + dy * dy) limit) fallback)) verts.

Definition separationAtMost (a b : Geom) (kx meters : float64) : bool :=
  let '(av, ae) := (project a kx, projectEdges a kx) in
  let '(bv, be) := (project b kx, projectEdges b kx) in
  let limit := meters * meters in
  sidesWithin av be bv limit || sidesWithin bv ae av limit.

Definition WithinDistance (a b : Geom) (meters : float64) : bool :=
  if leb meters zero then false
  else
    let '(ba, bb) := (Bbox a, Bbox b) in
    let padLat := meters / metersPerDegreeLat in
    let padLng := padLat / max (minCos [bMinLat ba; bMaxLat ba; bMinLat bb; bMaxLat bb])
                             (one / of_Z 1000000) in
    if negb (BboxIntersects
               (mkBox (bMinLat ba - padLat) (bMinLng ba - padLng)
                      (bMaxLat ba + padLat) (bMaxLng ba + padLng)) bb) then false
    else if Intersects a b || anyPositionInside a b || anyPositionInside b a then true
    else
      let lat0 := (bMinLat ba + bMaxLat ba + bMinLat bb + bMaxLat bb) / of_Z 4 in
      let kx := metersPerDegreeLat * Cos (lat0 * pi / of_Z 180) in
      separationAtMost a b kx meters.

Definition MetersBetween (aLat aLng bLat bLng : float64) : float64 :=
  let kx := metersPerDegreeLat * Cos ((aLat + bLat) / two * pi / of_Z 180) in
  let dx := (aLng - bLng) * kx in
  let dy := (aLat - bLat) * metersPerDegreeLat in
  hypot dx dy.

Definition PointDistanceMeters (lat lng : float64) (g : Geom) : float64 :=
  if PointInGeometry lat lng g then zero
  else
    let b := Bbox g in
    let lat0 := (lat + (bMinLat b + bMaxLat b) / two) / two in
    let kx := metersPerDegreeLat * Cos (lat0 * pi / of_Z 180) in
    let p := mkXY (lng * kx) (lat * metersPerDegreeLat) in
    let edges := projectEdges g kx in
    let best := foldl (fun best e => min best (pointSegDistSq p e)) inf edges in
    let best :=
      if bool_decide (length edges = 0%nat) then
        foldl (fun best q => let '(dx, dy) := (x_ p - x_ q, y_ p - y_ q) in
                             min best (dx * dx + dy * dy)) best (project g kx)
      else best in
    sqrt best.

Definition PointNearLine (lat lng : float64) (g : Geom) (meters : float64) : bool :=
  if leb meters zero then false
  else
    let lines := if bool_decide (g_Type g = "LineString") then [g_Points g]
                 else if bool_decide (g_Type g = "MultiLineString") then g_Rings g
                 else [] in
    existsb (fun line =>
      if (length line <? 2)%nat then false
      else
        let pl := Geo.mkPolyline "" (map (fun p => Geo.mkPoint (Lat p) (Lng p)) line) in
        match Geo.PointToPolyline (Geo.mkPoint lat lng) pl with
        | inr d => leb d meters
        | inl _ => false
        end) lines.

Definition PointInOrNearGeometry (lat lng : float64) (g : Geom) (meters : float64) : bool :=
  PointInGeometry lat lng g || PointNearLine lat lng g meters.

End Near.

(** ** Parsed geometries are not empty and lie in their box *)

Lemma mapM_nonempty {A B} (f : A -> option B) l k : mapM f l = Some k -> l <> [] -> k <> [].
Proof. intros H%length_mapM Hl ->. by destruct l. Qed.

Lemma mjoin_nonempty {A} (ll : list (list A)) l : l ∈ ll -> l <> [] -> mjoin ll <> [].
Proof.
  intros Hl Hne Hj. destruct l as [|x l]; [done|].
  assert (x ∈ mjoin ll) as Hx by (apply list_elem_of_join; exists (x :: l); split; [by left|done]).
  rewrite Hj in Hx. by apply not_elem_of_nil in Hx.
Qed.

Lemma parseRings_nonempty `{JsonKernel} raw t rings :
  parseRings raw t = Some rings -> rings <> [] /\ Forall (fun r => r <> []) rings.
Proof.
  unfold parseRings. intros (raws & Hr & Hk)%bind_Some. case_bool_decide as Hn; [done|].
  split; [by eapply mapM_nonempty|].
  apply mapM_Some in Hk. eapply Forall2_Forall_r; [exact Hk|].
  apply Forall_forall. intros rr _ r (pts & _ & Hif)%bind_Some Hnil.
  subst r. destruct (bool_decide (t = "MultiLineString")); by destruct pts as [|? [|? [|]]].
Qed.

Lemma rings_positions rings : rings <> [] /\ Forall (fun r => r <> []) rings -> mjoin rings <> ([] : list Position).
Proof.
  intros [Hne Hall]. destruct rings as [|r rings]; [done|]. inversion Hall; subst.
  by apply (mjoin_nonempty _ r); [left|].
Qed.

Lemma Parse_nonempty `{JsonKernel} raw g : Parse raw = Some g -> positions g <> [].
Proof.
  unfold Parse. intros ([t coords] & _ & Hp)%bind_Some. case_match; [done|].
  case_bool_decide as E1; [|case_match eqn:E2; [|case_match eqn:E3; [|case_bool_decide as E4]]].
  - apply bind_Some in Hp as (c & _ & Hp). apply bind_Some in Hp as (p & _ & [= <-]).
    unfold positions. cbn. by rewrite E1.
  - apply bind_Some in Hp as (pts & _ & Hp). destruct pts as [|p pts].
    { by destruct (bool_decide (t = "LineString")). }
    case_match; [done|]. injection Hp as <-. unfold positions. cbn.
    by rewrite bool_decide_eq_false_2, E2 by done.
  - apply bind_Some in Hp as (rings & Hr & [= <-]). unfold positions. cbn.
    rewrite bool_decide_eq_false_2, E2, E3 by done. by eapply rings_positions, parseRings_nonempty.
  - apply bind_Some in Hp as (raws & _ & Hp). case_bool_decide as Hn; [done|].
    apply bind_Some in Hp as (polys & Hr & [= <-]). unfold positions. cbn.
    rewrite bool_decide_eq_false_2, E2, E3, bool_decide_eq_true_2 by done.
    destruct raws as [|raw0 raws]; [done|]. cbn in Hr.
    apply bind_Some in Hr as (rs & Hrs & Hr). apply bind_Some in Hr as (polys' & _ & [= <-]).
    apply parseRings_nonempty in Hrs as [Hne Hall].
    destruct rs as [|r rs]; [done|]. inversion Hall; subst. cbn.
    by destruct r.
  - done.
Qed.

Definition real (p : Position) : Prop := is_nan (Lat p) = false /\ is_nan (Lng p) = false.

Definition in_box (p : Position) (b : Box) : Prop :=
  leb (bMinLat b) (Lat p) = true /\ leb (Lat p) (bMaxLat b) = true
  /\ leb (bMinLng b) (Lng p) = true /\ leb (Lng p) (bMaxLng b) = true.

Definition real_box (b : Box) : Prop :=
  is_nan (bMinLat b) = false /\ is_nan (bMinLng b) = false
  /\ is_nan (bMaxLat b) = false /\ is_nan (bMaxLng b) = false.

Lemma box_add_spec b p :
  real_box b -> real p ->
  real_box (box_add b p) /\ in_box p (box_add b p)
  /\ forall q, in_box q b -> in_box q (box_add b p).
Proof.
  intros (H1 & H2 & H3 & H4) [Hp1 Hp2]. unfold real_box, in_box, box_add. cbn.
  destruct (min_spec _ _ H1 Hp1) as (? & ? & ?), (min_spec _ _ H2 Hp2) as (? & ? & ?),
    (max_spec _ _ H3 Hp1) as (? & ? & ?), (max_spec _ _ H4 Hp2) as (? & ? & ?).
  split_and!; try done. intros q (? & ? & ? & ?). split_and!; eauto using leb_trans.
Qed.

Lemma foldl_box ps b :
  real_box b -> Forall real ps ->
  (forall q, in_box q b -> in_box q (foldl box_add b ps))
  /\ Forall (fun p => in_box p (foldl box_add b ps)) ps.
Proof.
  intros Hb Hps. revert b Hb. induction Hps as [|p ps Hp Hps IH]; intros b Hb; cbn; [by split|].
  destruct (box_add_spec b p Hb Hp) as (Hb' & Hin & Hmono).
  destruct (IH _ Hb') as [Hm Hall]. split; [eauto|]. constructor; auto.
Qed.

Lemma Bbox_in g p : Forall real (positions g) -> p ∈ positions g -> in_box p (Bbox g).
Proof.
  unfold Bbox. intros Hall Hp. destruct (positions g) as [|q ps]; [by apply not_elem_of_nil in Hp|].
  inversion Hall as [|? ? [Hq1 Hq2] Hps]; subst.
  destruct (foldl_box ps (box_of q)) as [Hm Hin]; [by split_and!|done|].
  apply elem_of_cons in Hp as [-> | Hp].
  - apply Hm. unfold in_box, box_of. cbn. split_and!; by apply leb_refl.
  - rewrite Forall_forall in Hin. auto.
Qed.

(** A geometry that parses has a position, and when its coordinates are
    numbers its bounding box contains every position; so the box is well
    ordered (min <= max), which is what the R*Tree row of an event requires. *)
Theorem Parse_Bbox `{JsonKernel} raw g :
  Parse raw = Some g -> Forall real (positions g) ->
  positions g <> []
  /\ (forall p, p ∈ positions g -> in_box p (Bbox g))
  /\ leb (bMinLat (Bbox g)) (bMaxLat (Bbox g)) = true
  /\ leb (bMinLng (Bbox g)) (bMaxLng (Bbox g)) = true.
Proof.
  intros Hp%Parse_nonempty Hr. split; [done|]. split; [eauto using Bbox_in|].
  destruct (positions g) as [|p ps] eqn:E; [done|].
  destruct (Bbox_in g p) as (? & ? & ? & ?); [by rewrite E|rewrite E; left|].
  split; eauto using leb_trans.
Qed.

(** ** Ray casting *)

Lemma foldl_xorb {A} (f : A -> bool) l b :
  foldl (fun acc x => xorb acc (f x)) b l = xorb b (foldl (fun acc x => xorb acc (f x)) false l).
Proof.
  revert b. induction l as [|x l IH]; intros b; cbn; [by rewrite xorb_false_r|].
  rewrite IH, (IH (f x)). by rewrite xorb_assoc.
Qed.

Lemma List_last_default {A} (x d d' : A) l : List.last (x :: l) d = List.last (x :: l) d'.
Proof. revert x. induction l as [|y l IH]; intros x; [done|]. apply (IH y). Qed.

Lemma path_edges_snoc p l z :
  path_edges p (l ++ [z]) = path_edges p l ++ [(List.last l p, z)].
Proof.
  revert p. induction l as [|q l IH]; intros p; cbn; [done|].
  rewrite IH. destruct l as [|x l]; [done|]. by rewrite (List_last_default x q p).
Qed.

Lemma last_List {A} (l : list A) d z : last l = Some z -> List.last l d = z.
Proof.
  induction l as [|x l IH]; [done|]. destruct l; [by intros [= ->]|]. cbn in *. auto.
Qed.

(** Closing a ring changes nothing. A ring whose first position is
    repeated at the end, as RFC 7946 writes it, contains the same points as
    the ring without the repetition: the extra edge never crosses the ray. *)
Theorem ring_closing p ring lat lng :
  (2 <= length ring)%nat ->
  ring_crossings lat lng (p :: ring ++ [p]) = ring_crossings lat lng (p :: ring).
Proof.
  intros Hlen. unfold ring_crossings. cbn [length]. rewrite length_app. cbn [length].
  destruct (Nat.ltb_spec (S (length ring + 1)) 3); [lia|].
  destruct (Nat.ltb_spec (S (length ring)) 3); [lia|].
  unfold ring_edges. rewrite app_comm_cons, last_snoc.
  destruct (last (p :: ring)) as [z|] eqn:Ez; [|by apply last_None in Ez].
  rewrite <-app_comm_cons. cbn [path_edges].
  rewrite path_edges_snoc. cbn [foldl]. rewrite foldl_app. cbn [foldl].
  assert (Hz : List.last ring p = z).
  { destruct ring as [|q ring]; [cbn in Hlen; lia|]. by apply last_List. }
  rewrite Hz.
  assert (Hpp : crosses lat lng (p, p) = false) by (unfold crosses; by rewrite xorb_nilpotent).
  rewrite Hpp. cbn [xorb]. rewrite (foldl_xorb _ _ (crosses lat lng (z, p))).
  destruct (foldl _ false (path_edges p ring)), (crosses lat lng (z, p)); done.
Qed.

(** ** Intersection is symmetric *)

Lemma segmentsIntersect_sym a b c d : segmentsIntersect a b c d = segmentsIntersect c d a b.
Proof.
  unfold segmentsIntersect. cbn zeta.
  set (d1 := orient c d a). set (d2 := orient c d b). set (d3 := orient a b c). set (d4 := orient a b d).
  set (P := (ltb zero d1 && ltb d2 zero) || (ltb d1 zero && ltb zero d2)).
  set (Q := (ltb zero d3 && ltb d4 zero) || (ltb d3 zero && ltb zero d4)).
  rewrite (andb_comm P Q).
  by destruct (Q && P), (eqb d1 zero && onSegment c d a), (eqb d2 zero && onSegment c d b),
    (eqb d3 zero && onSegment a b c), (eqb d4 zero && onSegment a b d).
Qed.

Lemma ringsCross_true a b :
  ringsCross a b = true <->
  exists ra rb e f, ra ∈ a /\ rb ∈ b /\ e ∈ ring_sides ra /\ f ∈ ring_sides rb
    /\ segmentsIntersect e.1 e.2 f.1 f.2 = true.
Proof.
  unfold ringsCross. setoid_rewrite list_elem_of_In. split.
  - intros (ra & Ha & (e & He & (rb & Hb & (f & Hf & Hs)%existsb_exists)%existsb_exists)
      %existsb_exists)%existsb_exists. eauto 10.
  - intros (ra & rb & e & f & ? & ? & ? & ? & ?).
    apply existsb_exists. exists ra. split; [done|]. apply existsb_exists. exists e. split; [done|].
    apply existsb_exists. exists rb. split; [done|]. apply existsb_exists. eauto.
Qed.

Lemma ringsCross_sym a b : ringsCross a b = ringsCross b a.
Proof.
  apply eq_iff_eq_true. rewrite !ringsCross_true.
  split; intros (ra & rb & e & f & ? & ? & ? & ? & ?); exists rb, ra, f, e;
    rewrite segmentsIntersect_sym; auto.
Qed.

Lemma BboxIntersects_sym a b : BboxIntersects a b = BboxIntersects b a.
Proof.
  unfold BboxIntersects.
  destruct (leb (bMinLat a) _), (leb (bMinLat b) _), (leb (bMinLng a) _), (leb (bMinLng b) _); done.
Qed.

(** Polygon intersection does not depend on the order of its arguments,
    in floating point as well: a perimeter overlaps a county exactly when the
    county overlaps the perimeter. Two geometries that intersect are areal and
    their boxes meet. *)
Theorem Intersects_sym a b :
  Intersects a b = Intersects b a
  /\ (Intersects a b = true ->
      isAreal a = true /\ isAreal b = true /\ BboxIntersects (Bbox a) (Bbox b) = true).
Proof.
  unfold Intersects. rewrite (BboxIntersects_sym (Bbox b)).
  rewrite (orb_comm (negb (isAreal b))), (ringsCross_sym (polygonRings b)),
    (orb_comm (anyVertexInside (polygonRings b) a)).
  split; [done|]. destruct (isAreal a), (isAreal b), (BboxIntersects _ _); done.
Qed.

(** ** Examples *)

Definition pos_ (lat lng : Z) : Position := mkPosition (of_Z lng) (of_Z lat).
Definition square (n : Z) : list Position :=
  [pos_ (-n) (-n); pos_ (-n) n; pos_ n n; pos_ n (-n)].
Definition polygon (rings : list (list Position)) : Geom :=
  mkGeom "Polygon" zero_position [] rings [].

Example hole_excluded :
  let g := polygon [square 10; square 5] in
  PointInGeometry (of_Z 7) (of_Z 0) g = true /\ PointInGeometry (of_Z 1) (of_Z 1) g = false
  /\ PointInGeometry (of_Z 11) (of_Z 0) g = false.
Proof. by vm_compute. Qed.

(** A cross: neither shape has a vertex in the other. *)
Example cross_intersects :
  Intersects (polygon [[pos_ (-1) (-9); pos_ (-1) 9; pos_ 1 9; pos_ 1 (-9)]])
             (polygon [[pos_ (-9) (-1); pos_ (-9) 1; pos_ 9 1; pos_ 9 (-1)]]) = true.
Proof. by vm_compute. Qed.

Definition point_json : JsonKernel :=
  {| unmarshal_env := fun _ => Some ("Point", "[-120,38]");
     unmarshal_floats := fun _ => Some [of_Z (-120); of_Z 38];
     unmarshal_floats2 := fun _ => None;
     unmarshal_raws := fun _ => None |}.

Lemma Parse_Bbox_witness :
  leb (bMinLat (Bbox (mkGeom "Point" (pos_ 38 (-120)) [] [] [])))
      (bMaxLat (Bbox (mkGeom "Point" (pos_ 38 (-120)) [] [] []))) = true.
Proof.
  destruct (@Parse_Bbox point_json "raw" (mkGeom "Point" (pos_ 38 (-120)) [] [] [])) as (_ & _ & H & _);
    [vm_compute; reflexivity|repeat constructor|exact H].
Defined.

Lemma ring_closing_witness :
  ring_crossings (of_Z 1) (of_Z 1) (pos_ (-2) (-2) :: [pos_ (-2) 2; pos_ 2 2; pos_ 2 (-2)] ++ [pos_ (-2) (-2)])
  = true.
Proof.
  rewrite (ring_closing (pos_ (-2) (-2)) [pos_ (-2) 2; pos_ 2 2; pos_ 2 (-2)] (of_Z 1) (of_Z 1));
    [vm_compute; reflexivity|cbn; lia].
Defined.

End Geojson.
