(* ===== verification/GridEvent.v ===== *)
(** * The canonical data model

    The messages of [api/grid/v1/grid.proto] as the Go code uses them: enums,
    the event with its detail blocks, places and sources. A nil message or an
    unset wrapper is [None]; a timestamp is an instant. [proto.Clone] is the
    identity here, since every use of a clone is functional. *)

From S2P Require Import Prelude Float64.

Module Grid.
Import F64.

(** ** Enums *)

Inductive Layer :=
  | LAYER_UNSPECIFIED | WILDFIRE | EVACUATION | WEATHER_ALERT | FIRE_WEATHER
  | EARTHQUAKE | ROAD_INCIDENT | POWER | GAUGE | AIR_QUALITY | MESH
  | ANNOUNCEMENT | BURN_STATUS.

Definition Layer_number (l : Layer) : Z :=
  match l with
  | LAYER_UNSPECIFIED => 0 | WILDFIRE => 1 | EVACUATION => 2 | WEATHER_ALERT => 3
  | FIRE_WEATHER => 4 | EARTHQUAKE => 5 | ROAD_INCIDENT => 6 | POWER => 10
  | GAUGE => 11 | AIR_QUALITY => 12 | MESH => 13 | ANNOUNCEMENT => 14 | BURN_STATUS => 15
  end.

#[export] Instance Layer_eq_dec : EqDecision Layer.
Proof. solve_decision. Defined.

Definition Layer_of_number (n : Z) : option Layer :=
  list_find (fun l => Layer_number l = n)
    [LAYER_UNSPECIFIED; WILDFIRE; EVACUATION; WEATHER_ALERT; FIRE_WEATHER; EARTHQUAKE;
     ROAD_INCIDENT; POWER; GAUGE; AIR_QUALITY; MESH; ANNOUNCEMENT; BURN_STATUS] ≫= fun p => Some p.2.

#[export] Program Instance Layer_countable : Countable Layer :=
  inj_countable Layer_number Layer_of_number _.
Next Obligation. by intros []. Qed.

Inductive Severity := INFO | MINOR | MODERATE | SEVERE | EXTREME.

Definition Severity_number (s : Severity) : Z :=
  match s with INFO => 0 | MINOR => 1 | MODERATE => 2 | SEVERE => 3 | EXTREME => 4 end.

#[export] Instance Severity_eq_dec : EqDecision Severity.
Proof. solve_decision. Defined.

Inductive EventStatus := EVENT_STATUS_UNSPECIFIED | SCHEDULED | ACTIVE | RESOLVED | EXPIRED.

Definition EventStatus_number (s : EventStatus) : Z :=
  match s with
  | EVENT_STATUS_UNSPECIFIED => 0 | SCHEDULED => 1 | ACTIVE => 2 | RESOLVED => 3 | EXPIRED => 4
  end.

#[export] Instance EventStatus_eq_dec : EqDecision EventStatus.
Proof. solve_decision. Defined.

Inductive PlaceKind :=
  | PLACE_KIND_UNSPECIFIED | AREA | COUNTY | TOWN | EVAC_ZONE | CORRIDOR | SITE.

Definition PlaceKind_number (k : PlaceKind) : Z :=
  match k with
  | PLACE_KIND_UNSPECIFIED => 0 | AREA => 1 | COUNTY => 2 | TOWN => 3
  | EVAC_ZONE => 4 | CORRIDOR => 5 | SITE => 6
  end.

#[export] Instance PlaceKind_eq_dec : EqDecision PlaceKind.
Proof. solve_decision. Defined.

Inductive SourceKind := SOURCE_KIND_UNSPECIFIED | FEED | REPORTER.
Inductive SourceStatus := SOURCE_STATUS_UNSPECIFIED | OK | STALE | UNAVAILABLE.

#[export] Instance SourceKind_eq_dec : EqDecision SourceKind.
Proof. solve_decision. Defined.
#[export] Instance SourceStatus_eq_dec : EqDecision SourceStatus.
Proof. solve_decision. Defined.

Inductive MeshReachability := MESH_REACHABILITY_UNSPECIFIED | REACHABLE | UNREACHABLE.
Inductive BurnDay := BURN_DAY_UNKNOWN | BURN_DAY_YES | BURN_DAY_NO | BURN_DAY_MARGINAL.
Inductive CalfireBurnStatus :=
  | CALFIRE_BURN_STATUS_UNKNOWN | CALFIRE_BURNING_SUSPENDED
  | CALFIRE_PERMIT_REQUIRED | CALFIRE_NO_PERMIT_REQUIRED.
Inductive BurnPermission :=
  | BURN_PERMISSION_UNKNOWN | BURN_PERMISSION_ALLOWED | BURN_PERMISSION_PROHIBITED.

#[export] Instance MeshReachability_eq_dec : EqDecision MeshReachability.
Proof. solve_decision. Defined.
#[export] Instance BurnDay_eq_dec : EqDecision BurnDay.
Proof. solve_decision. Defined.
#[export] Instance CalfireBurnStatus_eq_dec : EqDecision CalfireBurnStatus.
Proof. solve_decision. Defined.
#[export] Instance BurnPermission_eq_dec : EqDecision BurnPermission.
Proof. solve_decision. Defined.

(** ** Envelope parts *)

Record BoundingBox := mkBoundingBox {
  min_lat : float64; min_lng : float64; max_lat : float64; max_lng : float64 }.
Record LatLng := mkLatLng { lat : float64; lng : float64 }.
Record Geometry := mkGeometry {
  g_geojson : string; g_bbox : option BoundingBox; g_centroid : option LatLng }.

Record Provenance := mkProvenance {
  source_id : string; source_name : string; attribution : string; source_url : string;
  fetched_at : option Time }.

Record Enhancement := mkEnhancement {
  e_model : string; enhanced_at : option Time; e_fields : list string;
  e_request : string; e_response : string }.

#[export] Instance BoundingBox_eq_dec : EqDecision BoundingBox.
Proof. solve_decision. Defined.
#[export] Instance LatLng_eq_dec : EqDecision LatLng.
Proof. solve_decision. Defined.
#[export] Instance Geometry_eq_dec : EqDecision Geometry.
Proof. solve_decision. Defined.
#[export] Instance Provenance_eq_dec : EqDecision Provenance.
Proof. solve_decision. Defined.
#[export] Instance Enhancement_eq_dec : EqDecision Enhancement.
Proof. solve_decision. Defined.

(** ** Detail blocks *)

Record WildfireDetail := mkWildfireDetail {
  acres : float64; containment : Z; wf_county : string; wf_cause : string;
  has_perimeter : bool }.
Record EvacuationDetail := mkEvacuationDetail {
  zone_id : string; level : string; event_type : string; ev_county : string }.
Record WeatherAlertDetail := mkWeatherAlertDetail {
  nws_severity : string; certainty : string; urgency : string; instruction : string;
  area_desc : string; wx_zones : list string }.
Record FireWeatherDetail := mkFireWeatherDetail {
  fw_state : string; fw_source_event : string; fw_zones : list string }.
Record EarthquakeDetail := mkEarthquakeDetail {
  magnitude : float64; depth_km : float64; felt : Z }.

Record LaneClosureDetail := mkLaneClosureDetail {
  window_id : string; district : Z; closure_id : string; lc_log_number : string;
  route : string; direction : string; facility : string; closure_type : string;
  work_type : string; lanes_closed : string; total_lanes : Z;
  estimated_delay_minutes : Z; closure_duration : string;
  planned_start : option Time; planned_end : option Time; end_indefinite : bool;
  set_up_at : option Time; begin_location : string; end_location : string;
  lc_begin : option LatLng; lc_end : option LatLng }.
Record RoadIncidentDetail := mkRoadIncidentDetail {
  log_number : string; impact : string; duration : string;
  metadata : gmap string string; closure : option LaneClosureDetail }.

Record MeshAdminTelemetry := mkMeshAdminTelemetry {
  reporter_id : string; reported_at : option Time; last_success_at : option Time;
  last_attempt_at : option Time;
  battery_volts : option float64; battery_percent : option float64;
  battery_percent_source : string; temperature_c : option float64;
  humidity : option float64; pressure : option float64; noise_floor_dbm : option Z;
  last_snr_db : option float64; last_rssi_dbm : option Z; tx_queue_len : option Z;
  uptime_seconds : Z; airtime_ms : Z; rx_airtime_ms : Z; packets_sent : Z;
  packets_received : Z; sent_flood : Z; sent_direct : Z; recv_flood : Z;
  recv_direct : Z; direct_dups : Z; flood_dups : Z; full_events : Z; recv_errors : Z }.
Record MeshTelemetry := mkMeshTelemetry {
  snr : option float64; rssi : option Z; hop_count : option Z; gateways : list string;
  last_advert_at : option Time; admin : option MeshAdminTelemetry;
  last_heard_at : option Time; last_relayed_at : option Time }.
Record MeshDetail := mkMeshDetail {
  public_key : string; node_type : string; m_name : string;
  telemetry : option MeshTelemetry; reachability : MeshReachability }.

Record PowerDetail := mkPowerDetail {
  outage_id : string; p_cause : string; customers_affected : Z; crew_status : string;
  estimated_restoration : option Time; p_event_id : string; event_name : string;
  time_period : string; stage : string; medical_baseline_affected : Z;
  de_energization_start : option Time; de_energization_end : option Time;
  all_clear : option Time }.

Record BurnObservation := mkBurnObservation {
  message : string; transcript : string; confidence : Z; bo_observed_at : option Time }.
Record BurnLineReading := mkBurnLineReading {
  bl_id : string; bl_name : string; phone : string; bl_burn_day : BurnDay;
  observation : option BurnObservation }.
Record BurnStatusDetail := mkBurnStatusDetail {
  burn_day : BurnDay; calfire_status : CalfireBurnStatus; permission : BurnPermission;
  calfire_effective : option Time; calfire_area : string;
  burn_lines : list BurnLineReading; calfire_observed_at : option Time }.

(** The [detail] oneof; an unset oneof is [None] in the event. *)
Inductive Detail :=
  | D_Wildfire (d : WildfireDetail)
  | D_Evacuation (d : EvacuationDetail)
  | D_WeatherAlert (d : WeatherAlertDetail)
  | D_FireWeather (d : FireWeatherDetail)
  | D_Earthquake (d : EarthquakeDetail)
  | D_RoadIncident (d : RoadIncidentDetail)
  | D_Mesh (d : MeshDetail)
  | D_Power (d : PowerDetail)
  | D_BurnStatus (d : BurnStatusDetail).

#[export] Instance MeshAdminTelemetry_eq_dec : EqDecision MeshAdminTelemetry.
Proof. solve_decision. Defined.
#[export] Instance MeshTelemetry_eq_dec : EqDecision MeshTelemetry.
Proof. solve_decision. Defined.
#[export] Instance BurnObservation_eq_dec : EqDecision BurnObservation.
Proof. solve_decision. Defined.
#[export] Instance BurnLineReading_eq_dec : EqDecision BurnLineReading.
Proof. solve_decision. Defined.

Record Event := mkEvent {
  Id : string;
  layer : Layer;
  category : string;
  severity : Severity;
  status : EventStatus;
  headline : string;
  summary : string;
  description : string;
  area_label : string;
  canonical_url : string;
  geometry : option Geometry;
  place_ids : list string;
  provenance : option Provenance;
  effective : option Time;
  expires : option Time;
  observed_at : option Time;
  ingested_at : option Time;
  revision : Z;
  enhancement : option Enhancement;
  detail : option Detail;
}.

Record Place := mkPlace {
  p_id : string; p_kind : PlaceKind; p_name : string; p_slug : string;
  p_geometry : option Geometry; parent_id : string }.

(** ** Nil-safe getters *)

Definition GetSourceId (ev : Event) : string :=
  match provenance ev with Some p => source_id p | None => "" end.
Definition GetFetchedAt (ev : Event) : option Time := provenance ev ≫= fetched_at.
Definition GetMesh (ev : Event) : option MeshDetail :=
  match detail ev with Some (D_Mesh m) => Some m | _ => None end.
Definition GetBurnStatus (ev : Event) : option BurnStatusDetail :=
  match detail ev with Some (D_BurnStatus b) => Some b | _ => None end.
Definition GetTelemetry (ev : Event) : option MeshTelemetry := GetMesh ev ≫= telemetry.
Definition GetBbox (ev : Event) : option BoundingBox := geometry ev ≫= g_bbox.

(** ** Field assignments *)

Definition set_status (x : EventStatus) (e : Event) : Event :=
  mkEvent (Id e) (layer e) (category e) (severity e) x (headline e) (summary e) (description e)
    (area_label e) (canonical_url e) (geometry e) (place_ids e) (provenance e) (effective e)
    (expires e) (observed_at e) (ingested_at e) (revision e) (enhancement e) (detail e).
Definition set_summary (x : string) (e : Event) : Event :=
  mkEvent (Id e) (layer e) (category e) (severity e) (status e) (headline e) x (description e)
    (area_label e) (canonical_url e) (geometry e) (place_ids e) (provenance e) (effective e)
    (expires e) (observed_at e) (ingested_at e) (revision e) (enhancement e) (detail e).
Definition set_geometry (x : option Geometry) (e : Event) : Event :=
  mkEvent (Id e) (layer e) (category e) (severity e) (status e) (headline e) (summary e)
    (description e) (area_label e) (canonical_url e) x (place_ids e) (provenance e) (effective e)
    (expires e) (observed_at e) (ingested_at e) (revision e) (enhancement e) (detail e).
Definition set_place_ids (x : list string) (e : Event) : Event :=
  mkEvent (Id e) (layer e) (category e) (severity e) (status e) (headline e) (summary e)
    (description e) (area_label e) (canonical_url e) (geometry e) x (provenance e) (effective e)
    (expires e) (observed_at e) (ingested_at e) (revision e) (enhancement e) (detail e).
Definition set_provenance (x : option Provenance) (e : Event) : Event :=
  mkEvent (Id e) (layer e) (category e) (severity e) (status e) (headline e) (summary e)
    (description e) (area_label e) (canonical_url e) (geometry e) (place_ids e) x (effective e)
    (expires e) (observed_at e) (ingested_at e) (revision e) (enhancement e) (detail e).
Definition set_observed_at (x : option Time) (e : Event) : Event :=
  mkEvent (Id e) (layer e) (category e) (severity e) (status e) (headline e) (summary e)
    (description e) (area_label e) (canonical_url e) (geometry e) (place_ids e) (provenance e)
    (effective e) (expires e) x (ingested_at e) (revision e) (enhancement e) (detail e).
Definition set_ingested_at (x : option Time) (e : Event) : Event :=
  mkEvent (Id e) (layer e) (category e) (severity e) (status e) (headline e) (summary e)
    (description e) (area_label e) (canonical_url e) (geometry e) (place_ids e) (provenance e)
    (effective e) (expires e) (observed_at e) x (revision e) (enhancement e) (detail e).
Definition set_revision (x : Z) (e : Event) : Event :=
  mkEvent (Id e) (layer e) (category e) (severity e) (status e) (headline e) (summary e)
    (description e) (area_label e) (canonical_url e) (geometry e) (place_ids e) (provenance e)
    (effective e) (expires e) (observed_at e) (ingested_at e) x (enhancement e) (detail e).
Definition set_enhancement (x : option Enhancement) (e : Event) : Event :=
  mkEvent (Id e) (layer e) (category e) (severity e) (status e) (headline e) (summary e)
    (description e) (area_label e) (canonical_url e) (geometry e) (place_ids e) (provenance e)
    (effective e) (expires e) (observed_at e) (ingested_at e) (revision e) x (detail e).
Definition set_detail (x : option Detail) (e : Event) : Event :=
  mkEvent (Id e) (layer e) (category e) (severity e) (status e) (headline e) (summary e)
    (description e) (area_label e) (canonical_url e) (geometry e) (place_ids e) (provenance e)
    (effective e) (expires e) (observed_at e) (ingested_at e) (revision e) (enhancement e) x.

Definition set_fetched_at (x : option Time) (p : Provenance) : Provenance :=
  mkProvenance (source_id p) (source_name p) (attribution p) (source_url p) x.
Definition set_telemetry (x : option MeshTelemetry) (m : MeshDetail) : MeshDetail :=
  mkMeshDetail (public_key m) (node_type m) (m_name m) x (reachability m).

(** ** [proto.Equal] on the messages the store compares *)

Definition canon_admin (a : MeshAdminTelemetry) : MeshAdminTelemetry :=
  mkMeshAdminTelemetry (reporter_id a) (reported_at a) (last_success_at a) (last_attempt_at a)
    (canon <$> battery_volts a) (canon <$> battery_percent a) (battery_percent_source a)
    (canon <$> temperature_c a) (canon <$> humidity a) (canon <$> pressure a)
    (noise_floor_dbm a) (canon <$> last_snr_db a) (last_rssi_dbm a) (tx_queue_len a)
    (uptime_seconds a) (airtime_ms a) (rx_airtime_ms a) (packets_sent a) (packets_received a)
    (sent_flood a) (sent_direct a) (recv_flood a) (recv_direct a) (direct_dups a)
    (flood_dups a) (full_events a) (recv_errors a).
Definition canon_telemetry (t : MeshTelemetry) : MeshTelemetry :=
  mkMeshTelemetry (canon <$> snr t) (rssi t) (hop_count t) (gateways t) (last_advert_at t)
    (canon_admin <$> admin t) (last_heard_at t) (last_relayed_at t).
Definition telemetry_equal (a b : option MeshTelemetry) : bool :=
  bool_decide (canon_telemetry <$> a = canon_telemetry <$> b).

End Grid.
