(* ===== verification/EventCodec.v ===== *)
(** * An injective encoding of events

    A concrete instance of what the store asks of [proto.Marshal] and SHA-256:
    a total, injective map from events to strings. It makes the hypotheses on
    the content hash satisfiable; nothing in the program depends on it. *)

From S2P Require Import Prelude Float64 GridEvent.

Module EventCodec.
Import F64 Grid.

(** A type with an injective code. *)
Class Code (A : Type) := { code : A -> positive; code_inj : Inj (=) (=) code }.
#[export] Existing Instance code_inj.

#[export] Program Instance Code_countable `{Countable A} : Code A | 10 := {| code := encode |}.

(** A record is the list of its fields' codes. *)
Definition pack (l : list positive) : positive := encode l.

Lemma pack_inj l k : pack l = pack k -> l = k.
Proof. apply (inj encode). Qed.

#[export] Instance Code_list {A} `{Code A} : Code (list A) | 5.
Proof.
  exact {| code := fun l => pack (fmap code l) |}.
Defined.

#[export] Instance Code_option {A} `{Code A} : Code (option A) | 5.
Proof.
  refine {| code := fun o => pack (match o with Some a => [code a] | None => [] end) |}.
  intros [a|] [b|] Hab%pack_inj; try done. injection Hab as Hab. f_equal. by apply (inj code).
Defined.

(** Decodes the fields of two equal packs. *)
Ltac code_tac :=
  let H := fresh in
  intros x y H; destruct x, y; cbn in H; apply pack_inj in H; injection H; clear H;
  repeat match goal with
  | |- code ?a = code ?b -> _ =>
      let H := fresh in intros H; apply (inj code) in H; subst
  end;
  reflexivity.

#[export] Instance float64_countable : Countable float64.
Proof.
  apply (inj_countable
    (fun x : float64 => match x with
       | S754_zero s => (0, s, 1%positive, 0) | S754_infinity s => (1, s, 1%positive, 0)
       | S754_nan => (2, false, 1%positive, 0) | S754_finite s m e => (3, s, m, e) end)
    (fun x => match x with
       | (0, s, _, _) => Some (S754_zero s) | (1, s, _, _) => Some (S754_infinity s)
       | (2, _, _, _) => Some S754_nan | (_, s, m, e) => Some (S754_finite s m e) end)).
  by intros [].
Defined.

#[export] Instance Code_Severity : Code Severity.
Proof.
  refine {| code := fun x => match x with
  | INFO => 1%positive
  | MINOR => 2%positive
  | MODERATE => 3%positive
  | SEVERE => 4%positive
  | EXTREME => 5%positive
  end |}. by intros [] [].
Defined.

#[export] Instance Code_EventStatus : Code EventStatus.
Proof.
  refine {| code := fun x => match x with
  | EVENT_STATUS_UNSPECIFIED => 1%positive
  | SCHEDULED => 2%positive
  | ACTIVE => 3%positive
  | RESOLVED => 4%positive
  | EXPIRED => 5%positive
  end |}. by intros [] [].
Defined.

#[export] Instance Code_MeshReachability : Code MeshReachability.
Proof.
  refine {| code := fun x => match x with
  | MESH_REACHABILITY_UNSPECIFIED => 1%positive
  | REACHABLE => 2%positive
  | UNREACHABLE => 3%positive
  end |}. by intros [] [].
Defined.

#[export] Instance Code_BurnDay : Code BurnDay.
Proof.
  refine {| code := fun x => match x with
  | BURN_DAY_UNKNOWN => 1%positive
  | BURN_DAY_YES => 2%positive
  | BURN_DAY_NO => 3%positive
  | BURN_DAY_MARGINAL => 4%positive
  end |}. by intros [] [].
Defined.

#[export] Instance Code_CalfireBurnStatus : Code CalfireBurnStatus.
Proof.
  refine {| code := fun x => match x with
  | CALFIRE_BURN_STATUS_UNKNOWN => 1%positive
  | CALFIRE_BURNING_SUSPENDED => 2%positive
  | CALFIRE_PERMIT_REQUIRED => 3%positive
  | CALFIRE_NO_PERMIT_REQUIRED => 4%positive
  end |}. by intros [] [].
Defined.

#[export] Instance Code_BurnPermission : Code BurnPermission.
Proof.
  refine {| code := fun x => match x with
  | BURN_PERMISSION_UNKNOWN => 1%positive
  | BURN_PERMISSION_ALLOWED => 2%positive
  | BURN_PERMISSION_PROHIBITED => 3%positive
  end |}. by intros [] [].
Defined.

#[export] Instance Code_BoundingBox : Code BoundingBox.
Proof.
  refine {| code := fun x => pack
    [code (min_lat x); code (min_lng x); code (max_lat x); code (max_lng x)] |}.
  code_tac.
Defined.

#[export] Instance Code_LatLng : Code LatLng.
Proof.
  refine {| code := fun x => pack
    [code (lat x); code (lng x)] |}.
  code_tac.
Defined.

#[export] Instance Code_Geometry : Code Geometry.
Proof.
  refine {| code := fun x => pack
    [code (g_geojson x); code (g_bbox x); code (g_centroid x)] |}.
  code_tac.
Defined.

#[export] Instance Code_Provenance : Code Provenance.
Proof.
  refine {| code := fun x => pack
    [code (source_id x); code (source_name x); code (attribution x); code (source_url x); code
     (fetched_at x)] |}.
  code_tac.
Defined.

#[export] Instance Code_Enhancement : Code Enhancement.
Proof.
  refine {| code := fun x => pack
    [code (e_model x); code (enhanced_at x); code (e_fields x); code (e_request x); code
     (e_response x)] |}.
  code_tac.
Defined.

#[export] Instance Code_WildfireDetail : Code WildfireDetail.
Proof.
  refine {| code := fun x => pack
    [code (acres x); code (containment x); code (wf_county x); code (wf_cause x); code
     (has_perimeter x)] |}.
  code_tac.
Defined.

#[export] Instance Code_EvacuationDetail : Code EvacuationDetail.
Proof.
  refine {| code := fun x => pack
    [code (zone_id x); code (level x); code (event_type x); code (ev_county x)] |}.
  code_tac.
Defined.

#[export] Instance Code_WeatherAlertDetail : Code WeatherAlertDetail.
Proof.
  refine {| code := fun x => pack
    [code (nws_severity x); code (certainty x); code (urgency x); code (instruction x); code
     (area_desc x); code (wx_zones x)] |}.
  code_tac.
Defined.

#[export] Instance Code_FireWeatherDetail : Code FireWeatherDetail.
Proof.
  refine {| code := fun x => pack
    [code (fw_state x); code (fw_source_event x); code (fw_zones x)] |}.
  code_tac.
Defined.

#[export] Instance Code_EarthquakeDetail : Code EarthquakeDetail.
Proof.
  refine {| code := fun x => pack
    [code (magnitude x); code (depth_km x); code (felt x)] |}.
  code_tac.
Defined.

#[export] Instance Code_LaneClosureDetail : Code LaneClosureDetail.
Proof.
  refine {| code := fun x => pack
    [code (window_id x); code (district x); code (closure_id x); code (lc_log_number x); code
     (route x); code (direction x); code (facility x); code (closure_type x); code (work_type x);
     code (lanes_closed x); code (total_lanes x); code (estimated_delay_minutes x); code
     (closure_duration x); code (planned_start x); code (planned_end x); code (end_indefinite x);
     code (set_up_at x); code (begin_location x); code (end_location x); code (lc_begin x); code
     (lc_end x)] |}.
  code_tac.
Defined.

#[export] Instance Code_RoadIncidentDetail : Code RoadIncidentDetail.
Proof.
  refine {| code := fun x => pack
    [code (log_number x); code (impact x); code (duration x); code (metadata x); code (closure x)] |}.
  code_tac.
Defined.

#[export] Instance Code_MeshAdminTelemetry : Code MeshAdminTelemetry.
Proof.
  refine {| code := fun x => pack
    [code (reporter_id x); code (reported_at x); code (last_success_at x); code (last_attempt_at
     x); code (battery_volts x); code (battery_percent x); code (battery_percent_source x); code
     (temperature_c x); code (humidity x); code (pressure x); code (noise_floor_dbm x); code
     (last_snr_db x); code (last_rssi_dbm x); code (tx_queue_len x); code (uptime_seconds x);
     code (airtime_ms x); code (rx_airtime_ms x); code (packets_sent x); code (packets_received
     x); code (sent_flood x); code (sent_direct x); code (recv_flood x); code (recv_direct x);
     code (direct_dups x); code (flood_dups x); code (full_events x); code (recv_errors x)] |}.
  code_tac.
Defined.

#[export] Instance Code_MeshTelemetry : Code MeshTelemetry.
Proof.
  refine {| code := fun x => pack
    [code (snr x); code (rssi x); code (hop_count x); code (gateways x); code (last_advert_at x);
     code (admin x); code (last_heard_at x); code (last_relayed_at x)] |}.
  code_tac.
Defined.

#[export] Instance Code_MeshDetail : Code MeshDetail.
Proof.
  refine {| code := fun x => pack
    [code (public_key x); code (node_type x); code (m_name x); code (telemetry x); code
     (reachability x)] |}.
  code_tac.
Defined.

#[export] Instance Code_PowerDetail : Code PowerDetail.
Proof.
  refine {| code := fun x => pack
    [code (outage_id x); code (p_cause x); code (customers_affected x); code (crew_status x);
     code (estimated_restoration x); code (p_event_id x); code (event_name x); code (time_period
     x); code (stage x); code (medical_baseline_affected x); code (de_energization_start x); code
     (de_energization_end x); code (all_clear x)] |}.
  code_tac.
Defined.

#[export] Instance Code_BurnObservation : Code BurnObservation.
Proof.
  refine {| code := fun x => pack
    [code (message x); code (transcript x); code (confidence x); code (bo_observed_at x)] |}.
  code_tac.
Defined.

#[export] Instance Code_BurnLineReading : Code BurnLineReading.
Proof.
  refine {| code := fun x => pack
    [code (bl_id x); code (bl_name x); code (phone x); code (bl_burn_day x); code (observation x)] |}.
  code_tac.
Defined.

#[export] Instance Code_BurnStatusDetail : Code BurnStatusDetail.
Proof.
  refine {| code := fun x => pack
    [code (burn_day x); code (calfire_status x); code (permission x); code (calfire_effective x);
     code (calfire_area x); code (burn_lines x); code (calfire_observed_at x)] |}.
  code_tac.
Defined.

#[export] Instance Code_Detail : Code Detail.
Proof.
  refine {| code := fun x => match x with
  | D_Wildfire d => pack [code d; 1%positive]
  | D_Evacuation d => pack [code d; 2%positive]
  | D_WeatherAlert d => pack [code d; 3%positive]
  | D_FireWeather d => pack [code d; 4%positive]
  | D_Earthquake d => pack [code d; 5%positive]
  | D_RoadIncident d => pack [code d; 6%positive]
  | D_Mesh d => pack [code d; 7%positive]
  | D_Power d => pack [code d; 8%positive]
  | D_BurnStatus d => pack [code d; 9%positive]
  end |}.
  intros [] [] H; cbn in H; apply pack_inj in H; try discriminate H; injection H as H;
    apply (inj code) in H; by subst.
Defined.

#[export] Instance Code_Event : Code Event.
Proof.
  refine {| code := fun x => pack
    [code (Id x); code (layer x); code (category x); code (severity x); code (status x); code
     (headline x); code (summary x); code (description x); code (area_label x); code
     (canonical_url x); code (geometry x); code (place_ids x); code (provenance x); code
     (effective x); code (expires x); code (observed_at x); code (ingested_at x); code (revision
     x); code (enhancement x); code (detail x)] |}.
  code_tac.
Defined.

(** The bits of a code, as a string. *)
Fixpoint bits (p : positive) : string :=
  match p with
  | xH => EmptyString
  | xO p => String (Ascii.ascii_of_nat 48) (bits p)
  | xI p => String (Ascii.ascii_of_nat 49) (bits p)
  end.

Lemma bits_inj p q : bits p = bits q -> p = q.
Proof.
  revert q. induction p as [p IH|p IH|]; intros [q|q|]; cbn; try done; intros [= H]; by rewrite (IH q).
Qed.

(** A total marshaller and a digest without collisions. *)
Definition marshal (ev : Event) : option string := Some (bits (code ev)).
Definition digest (s : string) : string := s.

Lemma marshal_digest_inj e1 e2 d1 d2 :
  digest (default d1 (marshal e1)) = digest (default d2 (marshal e2)) -> e1 = e2.
Proof. cbn. intros H%bits_inj. by apply (inj code). Qed.

End EventCodec.
