(* ===== verification/Tx.v ===== *)
(** * Transactions

    The error monad the store's operations run in. A program acts on the
    database, on the process's own state (which no rollback touches) and on a
    plan of faults: every statement sent to the database first consumes one
    entry of the plan and fails when it is [true]. An empty plan is a database
    that never fails. [inTx] models [Store.inTx] of [internal/store/store.go]
    and the rollback of [database/sql]. *)

From S2P Require Import Prelude.

Module Tx.

(** [D]: the tables; [C]: the process's state. *)
Record St (D C : Type) := mkSt { db : D; mem : C; plan : list bool }.
Arguments mkSt {D C} _ _ _.
Arguments db {D C} _.
Arguments mem {D C} _.
Arguments plan {D C} _.

Definition error := string.

Definition M (D C A : Type) : Type := St D C -> (error + A) * St D C.

Section Monad.
Context {D C : Type}.
Abbreviation M := (M D C).
Abbreviation St := (St D C).

Definition ret {A} (a : A) : M A := fun s => (inr a, s).
Definition fail {A} (e : error) : M A := fun s => (inl e, s).
Definition bind {A B} (m : M A) (f : A -> M B) : M B := fun s =>
  match m s with
  | (inl e, s') => (inl e, s')
  | (inr a, s') => f a s'
  end.

(** A round trip to the database, which may fail for reasons of its own. *)
Definition stmt : M unit := fun s =>
  match plan s with
  | [] => (inr tt, s)
  | fault :: rest =>
      (if fault : bool then inl "database error" else inr tt, mkSt (db s) (mem s) rest)
  end.

Definition query {A} (f : D -> A) : M A := bind stmt (fun _ s => (inr (f (db s)), s)).
Definition exec (f : D -> D) : M unit :=
  bind stmt (fun _ s => (inr tt, mkSt (f (db s)) (mem s) (plan s))).
(** A statement that a constraint may refuse. *)
Definition exec_checked (e : error) (f : D -> option D) : M unit :=
  bind stmt (fun _ s =>
    match f (db s) with
    | Some d => (inr tt, mkSt d (mem s) (plan s))
    | None => (inl e, s)
    end).
(** A value the driver already holds (a last insert id): no round trip. *)
Definition M_lookup {A} (f : D -> A) : M A := fun s => (inr (f (db s)), s).
Definition get_mem : M C := fun s => (inr (mem s), s).
Definition put_mem (f : C -> C) : M unit := fun s => (inr tt, mkSt (db s) (f (mem s)) (plan s)).

(** [for _, x := range l { ... }] with an error return. *)
Fixpoint foreach {A} (f : A -> M unit) (l : list A) : M unit :=
  match l with
  | [] => ret tt
  | a :: l => bind (f a) (fun _ => foreach f l)
  end.

(** [if err != nil { log }]: the caller sees the error and goes on. *)
Definition try {A} (m : M A) : M (error + A) := fun s => let (r, s') := m s in (inr r, s').

(** [Store.inTx]: begin, the function, rollback on its error, commit. *)
Definition inTx {A} (fn : M A) : M A := fun s0 =>
  match stmt s0 with
  | (inl e, s) => (inl e, s)
  | (inr _, s) =>
      match fn s with
      | (inl e, s') => (inl e, mkSt (db s) (mem s') (plan s'))
      | (inr a, s') =>
          match stmt s' with
          | (inl e, s'') => (inl e, mkSt (db s) (mem s'') (plan s''))
          | (inr _, s'') => (inr a, s'')
          end
      end
  end.

(** ** Reasoning *)

Definition noFaults (s : St) : Prop := plan s = [].

Lemma ret_run {A} (a : A) s : ret a s = (inr a, s).
Proof. done. Qed.

Lemma bind_inr {A B} (m : M A) (f : A -> M B) s b s' :
  bind m f s = (inr b, s') <-> exists a s1, m s = (inr a, s1) /\ f a s1 = (inr b, s').
Proof.
  unfold bind. destruct (m s) as [[e|a] s1]; split.
  - done.
  - by intros (? & ? & ? & ?).
  - eauto.
  - by intros (? & ? & [= <- <-] & ?).
Qed.

Lemma stmt_frame s r s' : stmt s = (r, s') -> db s' = db s /\ mem s' = mem s.
Proof. unfold stmt. destruct (plan s) as [|[] ?]; intros [= <- <-]; done. Qed.

Lemma stmt_noFaults s : noFaults s -> stmt s = (inr tt, s).
Proof. unfold stmt. by intros ->. Qed.

Lemma query_inr {A} (f : D -> A) s a s' :
  query f s = (inr a, s') -> a = f (db s) /\ db s' = db s /\ mem s' = mem s.
Proof.
  intros ([] & s1 & H & [= <- <-])%bind_inr. apply stmt_frame in H as [-> ->]. done.
Qed.

Lemma query_noFaults {A} (f : D -> A) s : noFaults s -> query f s = (inr (f (db s)), s).
Proof. intros H. unfold query, bind. by rewrite stmt_noFaults. Qed.

Lemma query_frame {A} (f : D -> A) s r s' :
  query f s = (r, s') -> db s' = db s /\ mem s' = mem s.
Proof.
  unfold query, bind. destruct (stmt s) as [[e|[]] s1] eqn:E; apply stmt_frame in E;
    intros [= _ <-]; done.
Qed.

Lemma exec_inr f s a s' :
  exec f s = (inr a, s') -> db s' = f (db s) /\ mem s' = mem s.
Proof.
  intros ([] & s1 & H & [= <- <-])%bind_inr. apply stmt_frame in H as [Hd Hm]. cbn. by rewrite Hd, Hm.
Qed.

Lemma exec_noFaults f s : noFaults s -> exec f s = (inr tt, mkSt (f (db s)) (mem s) []).
Proof. intros H. unfold exec, bind. rewrite stmt_noFaults by done. by rewrite H. Qed.

Lemma exec_checked_inr e f s a s' :
  exec_checked e f s = (inr a, s') -> f (db s) = Some (db s') /\ mem s' = mem s.
Proof.
  intros ([] & s1 & H & H')%bind_inr. apply stmt_frame in H as [Hd Hm].
  rewrite <-Hd, <-Hm. destruct (f (db s1)); by simplify_eq/=.
Qed.

Lemma exec_checked_noFaults e f s : noFaults s ->
  exec_checked e f s
  = match f (db s) with Some d => (inr tt, mkSt d (mem s) []) | None => (inl e, s) end.
Proof. intros H. unfold exec_checked, bind. rewrite stmt_noFaults by done. by rewrite H. Qed.

(** A transaction is atomic: on an error the tables are as they were, and a
    success is the success of its body. *)
Lemma inTx_err {A} (fn : M A) s e s' : inTx fn s = (inl e, s') -> db s' = db s.
Proof.
  unfold inTx. destruct (stmt s) as [[e1|[]] s1] eqn:E1; apply stmt_frame in E1 as [Hd _].
  - by intros [= _ <-].
  - destruct (fn s1) as [[e2|a] s2].
    + by intros [= _ <-].
    + destruct (stmt s2) as [[e3|[]] s3]; by intros [= _ <-].
Qed.

Lemma inTx_inr {A} (fn : M A) s a s' :
  inTx fn s = (inr a, s') ->
  exists s1 s2, db s1 = db s /\ mem s1 = mem s /\ fn s1 = (inr a, s2)
                /\ db s' = db s2 /\ mem s' = mem s2.
Proof.
  unfold inTx. destruct (stmt s) as [[e1|[]] s1] eqn:E1; [done|].
  apply stmt_frame in E1 as [? ?]. destruct (fn s1) as [[e2|a2] s2] eqn:E2; [done|].
  destruct (stmt s2) as [[e3|[]] s3] eqn:E3; [done|]. apply stmt_frame in E3 as [? ?].
  intros [= -> ->]. eauto 10.
Qed.

Lemma inTx_noFaults {A} (fn : M A) s a s' :
  noFaults s -> fn s = (inr a, s') -> noFaults s' -> inTx fn s = (inr a, s').
Proof. intros H1 H2 H3. unfold inTx. by rewrite stmt_noFaults, H2, stmt_noFaults. Qed.

(** A property of the tables and the memory that each round keeps. *)
Lemma foreach_inv {A} (P : St -> Prop) (f : A -> M unit) l s r s' :
  (forall a s r s', a ∈ l -> P s -> f a s = (r, s') -> P s') ->
  P s -> foreach f l s = (r, s') -> P s'.
Proof.
  revert s. induction l as [|a l IH]; intros s Hf HP; cbn; [by intros [= _ <-]|].
  unfold bind. destruct (f a s) as [[e|[]] s1] eqn:E.
  - intros [= _ <-]. eapply Hf; [by left|done..].
  - apply IH; [|eapply Hf; [by left|done..]].
    intros a1 s2 r1 s2' Ha1. apply Hf. by right.
Qed.

(** *** Weakest preconditions

    [wp m Q d c]: from the tables [d] and the memory [c], whatever faults are
    planned, a run of [m] that returns a value ends in [Q]. *)
Definition wp {A} (m : M A) (Q : A -> D -> C -> Prop) (d : D) (c : C) : Prop :=
  forall p a s', m (mkSt d c p) = (inr a, s') -> Q a (db s') (mem s').

Lemma wp_use {A} (m : M A) Q s a s' :
  wp m Q (db s) (mem s) -> m s = (inr a, s') -> Q a (db s') (mem s').
Proof. destruct s. intros H. apply H. Qed.

Lemma wp_mono {A} (m : M A) (Q R : A -> D -> C -> Prop) d c :
  (forall a d' c', Q a d' c' -> R a d' c') -> wp m Q d c -> wp m R d c.
Proof. intros HQR H p a s' Hs. eauto. Qed.

Lemma wp_ret {A} (a : A) Q d c : Q a d c -> wp (ret a) Q d c.
Proof. by intros H p b s' [= <- <-]. Qed.

Lemma wp_fail {A} e Q d c : wp (@fail A e) Q d c.
Proof. by intros p b s' [=]. Qed.

Lemma wp_bind {A B} (m : M A) (f : A -> M B) Q d c :
  wp m (fun a => wp (f a) Q) d c -> wp (bind m f) Q d c.
Proof.
  intros H p b s' (a & s1 & H1 & H2)%bind_inr. apply H in H1.
  destruct s1 as [d1 c1 p1]. by eapply H1.
Qed.

Lemma wp_query {A} (f : D -> A) Q d c : Q (f d) d c -> wp (query f) Q d c.
Proof. by intros H p a s' (-> & -> & ->)%query_inr. Qed.

Lemma wp_exec f Q d c : Q tt (f d) c -> wp (exec f) Q d c.
Proof. intros H p [] s' (-> & ->)%exec_inr. done. Qed.

Lemma wp_exec_checked e f Q d c :
  (forall d', f d = Some d' -> Q tt d' c) -> wp (exec_checked e f) Q d c.
Proof. intros H p [] s' (Hd & ->)%exec_checked_inr. eauto. Qed.

Lemma wp_get_mem Q d c : Q c d c -> wp get_mem Q d c.
Proof. by intros H p a s' [= <- <-]. Qed.

Lemma wp_put_mem f Q d c : Q tt d (f c) -> wp (put_mem f) Q d c.
Proof. by intros H p a s' [= <- <-]. Qed.

Lemma wp_lookup {A} (f : D -> A) Q d c : Q (f d) d c -> wp (M_lookup f) Q d c.
Proof. by intros H p a s' [= <- <-]. Qed.

Lemma wp_inTx {A} (fn : M A) Q d c : wp fn Q d c -> wp (inTx fn) Q d c.
Proof.
  intros H p a s' (s1 & s2 & Hd & Hc & Hfn & -> & ->)%inTx_inr. cbn in Hd, Hc.
  destruct s1 as [d1 c1 p1]. cbn in *. subst. eauto.
Qed.

(** What a run that may fail leaves: [Q] of its result or error. *)
Lemma wp_try {A} (m : M A) (Q : error + A -> D -> C -> Prop) d c :
  (forall s r s', db s = d -> mem s = c -> m s = (r, s') -> Q r (db s') (mem s')) -> wp (try m) Q d c.
Proof.
  intros H p a s'. unfold try. destruct (m (mkSt d c p)) as [r s1] eqn:E. intros [= <- <-].
  by eapply H; [| |exact E].
Qed.

(** A loop invariant over the processed prefix. *)
Lemma wp_foreach {A} (f : A -> M unit) (I : list A -> D -> C -> Prop) l d c :
  (forall done_ a d c, done_ ++ [a] `prefix_of` l -> I done_ d c ->
     wp (f a) (fun _ => I (done_ ++ [a])) d c) ->
  I [] d c -> wp (foreach f l) (fun _ => I l) d c.
Proof.
  intros Hf HI. assert (H : forall done_ rest, l = done_ ++ rest -> forall d c, I done_ d c ->
    wp (foreach f rest) (fun _ => I l) d c); [|by apply (H [])].
  intros done_ rest. revert done_. induction rest as [|a rest IH]; intros pre -> d1 c1 HI1; cbn.
  - apply wp_ret. by rewrite app_nil_r.
  - apply wp_bind. eapply wp_mono; [|apply (Hf pre a); [|done]].
    + intros [] d2 c2 H2. apply (IH (pre ++ [a])); [by rewrite <-app_assoc|done].
    + exists rest. by rewrite <-app_assoc.
Qed.

(** [twp m Q d c]: with no fault planned the run returns a value, in [Q]. *)
Definition twp {A} (m : M A) (Q : A -> D -> C -> Prop) (d : D) (c : C) : Prop :=
  exists a d' c', m (mkSt d c []) = (inr a, mkSt d' c' []) /\ Q a d' c'.

Lemma twp_mono {A} (m : M A) (Q R : A -> D -> C -> Prop) d c :
  (forall a d' c', Q a d' c' -> R a d' c') -> twp m Q d c -> twp m R d c.
Proof. intros HQR (a & d' & c' & ? & ?). exists a, d', c'. auto. Qed.

Lemma twp_wp {A} (m : M A) Q d c : twp m (fun _ _ _ => True) d c -> wp m Q d c -> twp m Q d c.
Proof. intros (a & d' & c' & Hm & _) H. exists a, d', c'. split; [done|]. exact (H _ _ _ Hm). Qed.

Lemma twp_ret {A} (a : A) Q d c : Q a d c -> twp (ret a) Q d c.
Proof. intros H. by exists a, d, c. Qed.

Lemma twp_bind {A B} (m : M A) (f : A -> M B) Q d c :
  twp m (fun a => twp (f a) Q) d c -> twp (bind m f) Q d c.
Proof.
  intros (a & d1 & c1 & Hm & b & d2 & c2 & Hf & HQ). exists b, d2, c2. split; [|done].
  unfold bind. by rewrite Hm.
Qed.

Lemma twp_query {A} (f : D -> A) Q d c : Q (f d) d c -> twp (query f) Q d c.
Proof. intros H. by exists (f d), d, c. Qed.

Lemma twp_exec f Q d c : Q tt (f d) c -> twp (exec f) Q d c.
Proof. intros H. by exists tt, (f d), c. Qed.

Lemma twp_exec_checked e f Q d c d' : f d = Some d' -> Q tt d' c -> twp (exec_checked e f) Q d c.
Proof. intros Hf HQ. exists tt, d', c. split; [|done]. unfold exec_checked, bind. cbn. by rewrite Hf. Qed.

Lemma twp_get_mem Q d c : Q c d c -> twp get_mem Q d c.
Proof. intros H. by exists c, d, c. Qed.

Lemma twp_put_mem f Q d c : Q tt d (f c) -> twp (put_mem f) Q d c.
Proof. intros H. by exists tt, d, (f c). Qed.

Lemma twp_lookup {A} (f : D -> A) Q d c : Q (f d) d c -> twp (M_lookup f) Q d c.
Proof. intros H. by exists (f d), d, c. Qed.

Lemma twp_inTx {A} (fn : M A) Q d c : twp fn Q d c -> twp (inTx fn) Q d c.
Proof.
  intros (a & d' & c' & Hf & HQ). exists a, d', c'. split; [|done].
  by apply inTx_noFaults.
Qed.

Lemma twp_foreach {A} (f : A -> M unit) (I : list A -> D -> C -> Prop) l d c :
  (forall pre a d c, pre ++ [a] `prefix_of` l -> I pre d c ->
     twp (f a) (fun _ => I (pre ++ [a])) d c) ->
  I [] d c -> twp (foreach f l) (fun _ => I l) d c.
Proof.
  intros Hf HI. assert (H : forall pre rest, l = pre ++ rest -> forall d c, I pre d c ->
    twp (foreach f rest) (fun _ => I l) d c); [|by apply (H [])].
  intros pre rest. revert pre. induction rest as [|a rest IH]; intros pre -> d1 c1 HI1; cbn.
  - apply twp_ret. by rewrite app_nil_r.
  - apply twp_bind. eapply twp_mono; [|apply (Hf pre a); [|done]].
    + intros [] d2 c2 H2. apply (IH (pre ++ [a])); [by rewrite <-app_assoc|done].
    + exists rest. by rewrite <-app_assoc.
Qed.

(** *** Frames

    [keeps m I]: a run of [m], failing or not, preserves [I]. *)
Definition keeps {A} (m : M A) (I : D -> C -> Prop) : Prop :=
  forall s r s', I (db s) (mem s) -> m s = (r, s') -> I (db s') (mem s').

Lemma keeps_bind {A B} (m : M A) (f : A -> M B) I :
  keeps m I -> (forall a, keeps (f a) I) -> keeps (bind m f) I.
Proof.
  intros Hm Hf s r s' HI. unfold bind. destruct (m s) as [[e|a] s1] eqn:E.
  - intros [= _ <-]. by eapply Hm.
  - intros Hs. eapply Hf; [|done]. by eapply Hm.
Qed.

Lemma keeps_ret {A} (a : A) I : keeps (ret a) I.
Proof. by intros s r s' HI [= _ <-]. Qed.

Lemma keeps_fail {A} e I : keeps (@fail A e) I.
Proof. by intros s r s' HI [= _ <-]. Qed.

Lemma keeps_query {A} (f : D -> A) I : keeps (query f) I.
Proof. intros s r s' HI [-> ->]%query_frame. done. Qed.

Lemma keeps_lookup {A} (f : D -> A) I : keeps (M_lookup f) I.
Proof. by intros s r s' HI [= _ <-]. Qed.

Lemma keeps_get_mem I : keeps get_mem I.
Proof. by intros s r s' HI [= _ <-]. Qed.

Lemma keeps_put_mem f (I : D -> C -> Prop) : (forall d c, I d c -> I d (f c)) -> keeps (put_mem f) I.
Proof. intros H s r s' HI [= _ <-]. cbn. auto. Qed.

Lemma keeps_exec f (I : D -> C -> Prop) : (forall d c, I d c -> I (f d) c) -> keeps (exec f) I.
Proof.
  intros H s r s' HI. unfold exec, bind. destruct (stmt s) as [[e|[]] s1] eqn:E;
    apply stmt_frame in E as [Hd Hm]; intros [= _ <-]; cbn; rewrite ?Hd, ?Hm; auto.
Qed.

Lemma keeps_exec_checked e f (I : D -> C -> Prop) :
  (forall d c d', I d c -> f d = Some d' -> I d' c) -> keeps (exec_checked e f) I.
Proof.
  intros H s r s' HI. unfold exec_checked, bind. destruct (stmt s) as [[e1|[]] s1] eqn:E;
    apply stmt_frame in E as [Hd Hm].
  - intros [= _ <-]. by rewrite Hd, Hm.
  - destruct (f (db s1)) as [d'|] eqn:Ef; intros [= _ <-]; cbn; rewrite ?Hd, ?Hm; [|done].
    rewrite Hd in Ef. eauto.
Qed.

Lemma keeps_try {A} (m : M A) I : keeps m I -> keeps (try m) I.
Proof. intros Hm s r s' HI. unfold try. destruct (m s) eqn:E. intros [= _ <-]. by eapply Hm. Qed.

Lemma keeps_foreach {A} (f : A -> M unit) l I : (forall a, keeps (f a) I) -> keeps (foreach f l) I.
Proof. intros H. induction l; cbn; [apply keeps_ret|]. by apply keeps_bind. Qed.

(** A transaction keeps what its body keeps, when rolling the tables back keeps
    it too. *)
Lemma keeps_inTx {A} (fn : M A) I :
  (forall d c d' c', I d c -> I d' c' -> I d c') -> keeps fn I -> keeps (inTx fn) I.
Proof.
  intros Hroll Hfn s0 r s' HI. unfold inTx.
  destruct (stmt s0) as [[e1|[]] s] eqn:E1; apply stmt_frame in E1 as [Hd Hm].
  { intros [= _ <-]. by rewrite Hd, Hm. }
  destruct (fn s) as [[e2|a] s2] eqn:E2; apply Hfn in E2; rewrite ?Hd, ?Hm; try done.
  - intros [= _ <-]. cbn. rewrite ?Hd. eauto.
  - destruct (stmt s2) as [[e3|[]] s3] eqn:E3; apply stmt_frame in E3 as [Hd3 Hm3];
      intros [= _ <-]; cbn; rewrite ?Hd3, ?Hm3, ?Hd; eauto.
Qed.

End Monad.

(** ** A program on one part of the state *)

(** A field of a state: how to read it and how to write it. *)
Record lens (S A : Type) := mkLens { lget : S -> A; lset : A -> S -> S }.
Arguments mkLens {S A} _ _.
Arguments lget {S A} _ _.
Arguments lset {S A} _ _ _.

Class LensOk {S A} (l : lens S A) : Prop := {
  lget_lset : forall a s, lget l (lset l a s) = a;
  lset_lget : forall s, lset l (lget l s) s = s;
  lset_lset : forall a b s, lset l a (lset l b s) = lset l a s }.

Definition zoom {D C D' C' A} (ld : lens D' D) (lc : lens C' C) (m : M D C A) : M D' C' A := fun s =>
  let (r, s1) := m (mkSt (lget ld (db s)) (lget lc (mem s)) (plan s)) in
  (r, mkSt (lset ld (db s1) (db s)) (lset lc (mem s1) (mem s)) (plan s1)).

Definition fst_lens {A B} : lens (A * B) A := mkLens fst (fun a s => (a, s.2)).
Definition snd_lens {A B} : lens (A * B) B := mkLens snd (fun b s => (s.1, b)).

#[export] Instance fst_lens_ok {A B} : LensOk (@fst_lens A B).
Proof. split; by try intros ? ? []; try intros []. Qed.
#[export] Instance snd_lens_ok {A B} : LensOk (@snd_lens A B).
Proof. split; by try intros ? ? []; try intros []. Qed.

End Tx.

#[export] Hint Resolve Tx.keeps_ret Tx.keeps_fail Tx.keeps_query Tx.keeps_lookup Tx.keeps_get_mem
  : grid.
#[export] Hint Resolve Tx.keeps_bind Tx.keeps_foreach Tx.keeps_try : grid.

(** One step of a weakest precondition, by the head of the program. *)
Ltac wp_step :=
  match goal with
  | |- Tx.wp (Tx.bind _ _) _ _ _ => apply Tx.wp_bind
  | |- Tx.wp (Tx.ret _) _ _ _ => apply Tx.wp_ret
  | |- Tx.wp (Tx.fail _) _ _ _ => apply Tx.wp_fail
  | |- Tx.wp (Tx.query _) _ _ _ => apply Tx.wp_query
  | |- Tx.wp (Tx.exec _) _ _ _ => apply Tx.wp_exec
  | |- Tx.wp (Tx.exec_checked _ _) _ _ _ => apply Tx.wp_exec_checked; intros ? ?
  | |- Tx.wp Tx.get_mem _ _ _ => apply Tx.wp_get_mem
  | |- Tx.wp (Tx.put_mem _) _ _ _ => apply Tx.wp_put_mem
  | |- Tx.wp (Tx.M_lookup _) _ _ _ => apply Tx.wp_lookup
  | |- Tx.wp (Tx.inTx _) _ _ _ => apply Tx.wp_inTx
  end.

Ltac twp_step :=
  match goal with
  | |- Tx.twp (Tx.bind _ _) _ _ _ => apply Tx.twp_bind
  | |- Tx.twp (Tx.ret _) _ _ _ => apply Tx.twp_ret
  | |- Tx.twp (Tx.query _) _ _ _ => apply Tx.twp_query
  | |- Tx.twp (Tx.exec _) _ _ _ => apply Tx.twp_exec
  | |- Tx.twp Tx.get_mem _ _ _ => apply Tx.twp_get_mem
  | |- Tx.twp (Tx.put_mem _) _ _ _ => apply Tx.twp_put_mem
  | |- Tx.twp (Tx.M_lookup _) _ _ _ => apply Tx.twp_lookup
  | |- Tx.twp (Tx.inTx _) _ _ _ => apply Tx.twp_inTx
  end.

Declare Scope tx_scope.
Delimit Scope tx_scope with tx.
Notation "x <-- m ;; f" := (Tx.bind m (fun x => f))
  (at level 60, m at next level, right associativity) : tx_scope.
Notation "m ;;; f" := (Tx.bind m (fun _ => f)) (at level 60, right associativity) : tx_scope.
