(* ===== verification/Store.v ===== *)
(** * The event store

    [internal/store/events.go], with [inTx] and the schema of
    [internal/store/{store.go,schema.sql}] it writes: content hash, upsert,
    the hash-equal refresh, lifecycle transitions, liveness stamps, place
    matching and the validators. The blob column holds the event itself:
    [proto.Marshal] can fail, and [proto.Unmarshal] undoes it. Every operation
    runs in the monad of [Tx], so any statement may fail. *)

From S2P Require Import Prelude Float64 Geo Geojson GridEvent Tx.

Module Store.
Import F64 Grid.
Open Scope tx_scope.

(** ** Tables *)

(** [events]. *)
Record EventRow := mkEventRow {
  c_layer : Layer; c_severity : Severity; c_status : EventStatus; c_source_id : string;
  c_effective : option Z; c_expires : option Z; c_observed_at : Z; c_ingested_at : Z;
  c_revision : Z; c_content_hash : string; c_proto : Event; c_last_seen_at : Z;
  c_refreshes : Z }.

(** [event_revisions]. *)
Record RevisionRow := mkRevisionRow {
  r_event_id : string; r_revision : Z; r_observed_at : Z; r_ingested_at : Z; r_proto : Event }.

(** [sources]. *)
Record SourceRow := mkSourceRow {
  s_name : string; s_attribution : string; s_homepage_url : string; s_kind : SourceKind;
  poll_interval_seconds : Z; stale_after_seconds : option Z; expire_after_seconds : option Z;
  last_success_at : option Z; last_attempt_at : option Z; last_error : string;
  s_status : SourceStatus; disappearance : string }.

Record DB := mkDB {
  events : gmap string EventRow;
  event_revisions : list RevisionRow;
  event_places : gset (string * string);
  event_geo_map : gmap string Z;
  event_geo : gmap Z BoundingBox;
  places : gmap string Place;
  sources : gmap string SourceRow;
}.

Definition set_events (f : gmap string EventRow -> gmap string EventRow) (d : DB) : DB :=
  mkDB (f (events d)) (event_revisions d) (event_places d) (event_geo_map d) (event_geo d)
    (places d) (sources d).
Definition set_event_revisions (l : list RevisionRow) (d : DB) : DB :=
  mkDB (events d) l (event_places d) (event_geo_map d) (event_geo d) (places d) (sources d).
Definition set_event_places (x : gset (string * string)) (d : DB) : DB :=
  mkDB (events d) (event_revisions d) x (event_geo_map d) (event_geo d) (places d) (sources d).
Definition set_geo (gm : gmap string Z) (g : gmap Z BoundingBox) (d : DB) : DB :=
  mkDB (events d) (event_revisions d) (event_places d) gm g (places d) (sources d).
Definition set_places (x : gmap string Place) (d : DB) : DB :=
  mkDB (events d) (event_revisions d) (event_places d) (event_geo_map d) (event_geo d) x (sources d).

Definition set_sources (x : gmap string SourceRow) (d : DB) : DB :=
  mkDB (events d) (event_revisions d) (event_places d) (event_geo_map d) (event_geo d) (places d) x.

(** The ids the foreign key [events.source_id REFERENCES sources(id)] accepts. *)
Definition registered (d : DB) : gset string := dom (sources d).

(** [parsedPlace]. *)
Record parsedPlace := mkParsedPlace {
  pp_id : string; pp_kind : PlaceKind; pp_geom : Geojson.Geom; pp_box : Geojson.Box;
  centLat : float64; centLng : float64; pp_polygonal : bool }.

(** The fields of [Store] that live outside the database. *)
Record Mem := mkMem {
  placesGeo : option (list parsedPlace);  (* [placesGeoValid] and the cache *)
  placesVersion : Z;
  refreshVersions : gmap Layer Z }.

Definition M := Tx.M DB Mem.

(** ** The content hash *)

Definition zero_detail (d : Detail) : Detail :=
  match d with
  | D_Mesh n => D_Mesh (set_telemetry None n)
  | D_BurnStatus b =>
      D_BurnStatus (mkBurnStatusDetail (burn_day b) (calfire_status b) (permission b)
        (calfire_effective b) (calfire_area b)
        (map (fun l => mkBurnLineReading (bl_id l) (bl_name l) (phone l) (bl_burn_day l) None)
             (burn_lines b)) None)
  | d => d
  end.

(** The clone [ContentHash] marshals: the event without its volatile fields. *)
Definition normalize (ev : Event) : Event :=
  mkEvent (Id ev) (layer ev) (category ev) (severity ev) (status ev) (headline ev) ""
    (description ev) (area_label ev) (canonical_url ev) (geometry ev) []
    (set_fetched_at None <$> provenance ev) (effective ev) (expires ev) None None 0 None
    (zero_detail <$> detail ev).

Definition u32 (n : Z) : Z := n mod 2 ^ 32.

Definition max_hash_batch : nat := 900.

(** [unixOrNil]. *)
Definition unixOrNil (ts : option Time) : option Z := time_unix <$> ts.

(** [unionSorted]: deduplicated, sorted, blanks dropped. *)
Definition unionSorted (a b : list string) : list string :=
  sort_strings (remove_dups (filter (fun id => id <> "") (a ++ b))).

(** The rows of a table in the order of its text primary key. *)
Definition id_le {A} (x y : string * A) : Prop := str_le x.1 y.1.
#[export] Instance id_le_dec {A} : RelDecision (@id_le A).
Proof. intros x y. unfold id_le. apply _. Defined.
Definition by_id {A} (m : gmap string A) : list (string * A) := merge_sort id_le (map_to_list m).

Definition corridorBufferMeters : float64 := of_Z 1500.
(** [1500 / 111000.0 * 1.3], an exact constant, rounded once. *)
Definition corridorBufferDeg : float64 := div (of_Z 13) (of_Z 740).

(** [wildfireBufferedKind]. *)
Definition wildfireBufferedKind (k : PlaceKind) : bool :=
  match k with AREA | TOWN => true | _ => false end.

(** [burnVolatile]. *)
Definition burnVolatile (b : BurnStatusDetail) : option Time * list (string * option BurnObservation) :=
  (calfire_observed_at b, map (fun l => (bl_id l, observation l)) (burn_lines b)).

(** [UpsertResult], [StoredEvent], [EventStamp]. *)
Record UpsertResult := mkUpsertResult { Changed : bool; Revision : Z }.
Record StoredEvent := mkStoredEvent { se_event : Event; LastSeenAt : Time }.
Record EventStamp := mkEventStamp { st_Revision : Z; st_Refreshes : Z }.

Section Store.
Context {MK : MathKernel} {JK : JsonKernel}.
(** [proto.Marshal] ([None]: a field it refuses) and the hex SHA-256. *)
Variable marshal : Event -> option string.
Variable digest : string -> string.
(** [WithWildfireProximity]. *)
Variable wildfireBuffer : float64.

Definition ContentHash (ev : Event) : string :=
  digest (default ("marshal-error:" +:+ Id ev) (marshal (normalize ev))).

(** ** Place matching *)

(** [ensureGeometryIndex]. *)
Definition ensureGeometryIndex (ev : Event) : Event :=
  match geometry ev with
  | None => ev
  | Some g =>
      if bool_decide (g_geojson g = "") then ev
      else if bool_decide (is_Some (g_bbox g)) && bool_decide (is_Some (g_centroid g)) then ev
      else match Geojson.Parse (g_geojson g) with
           | None => ev
           | Some parsed =>
               let b := Geojson.Bbox parsed in
               let c := Geojson.Centroid parsed in
               set_geometry (Some (mkGeometry (g_geojson g)
                 (Some (default (mkBoundingBox (Geojson.bMinLat b) (Geojson.bMinLng b)
                                   (Geojson.bMaxLat b) (Geojson.bMaxLng b)) (g_bbox g)))
                 (Some (default (mkLatLng c.1 c.2) (g_centroid g))))) ev
           end
  end.

(** The geometry and the centroid [matchPlaces] works with. *)
Record eventGeo := mkEventGeo {
  eg_geom : option Geojson.Geom; eg_centroid : LatLng; eg_box : Geojson.Box;
  eg_pointLike : bool; eg_polygonal : bool }.

Definition eventGeoOf (g : Geometry) : option eventGeo :=
  let evGeom := if bool_decide (g_geojson g = "") then None else Geojson.Parse (g_geojson g) in
  match evGeom, g_centroid g with
  | None, None => None
  | None, Some c =>
      Some (mkEventGeo None c (Geojson.mkBox (lat c) (lng c) (lat c) (lng c)) true false)
  | Some geom, centroid =>
      let c := Geojson.Centroid geom in
      Some (mkEventGeo (Some geom) (default (mkLatLng c.1 c.2) centroid) (Geojson.Bbox geom)
              (bool_decide (Geojson.g_Type geom = "Point")) (Geojson.isAreal geom))
  end.

(** [eventGeo.matches]. *)
Definition eg_matches (e : eventGeo) (pl : parsedPlace) : bool :=
  let '(clat, clng) := (lat (eg_centroid e), lng (eg_centroid e)) in
  let b := pp_box pl in
  if eg_pointLike e then
    if ltb clat (sub (Geojson.bMinLat b) corridorBufferDeg)
       || ltb (add (Geojson.bMaxLat b) corridorBufferDeg) clat
       || ltb clng (sub (Geojson.bMinLng b) corridorBufferDeg)
       || ltb (add (Geojson.bMaxLng b) corridorBufferDeg) clng then false
    else Geojson.PointInOrNearGeometry clat clng (pp_geom pl) corridorBufferMeters
  else if negb (Geojson.BboxIntersects (eg_box e) b) then false
  else if Geojson.PointInGeometry clat clng (pp_geom pl) then true
  else match eg_polygonal e, eg_geom e with
       | true, Some geom =>
           Geojson.PointInGeometry (centLat pl) (centLng pl) geom
           || (pp_polygonal pl && Geojson.Intersects geom (pp_geom pl))
       | _, _ => false
       end.

(** The wildfire proximity rule. *)
Definition near_fire (ev : Event) (e : eventGeo) (pl : parsedPlace) : bool :=
  bool_decide (layer ev = WILDFIRE) && ltb zero wildfireBuffer
  && wildfireBufferedKind (pp_kind pl)
  && Geojson.WithinDistance
       (default (Geojson.mkGeom "Point"
                   (Geojson.mkPosition (lng (eg_centroid e)) (lat (eg_centroid e))) [] [] [])
          (eg_geom e)) (pp_geom pl) wildfireBuffer.

Definition parsePlace (p : Place) : option parsedPlace :=
  g ← p_geometry p;
  if bool_decide (g_geojson g = "") then None
  else
    geom ← Geojson.Parse (g_geojson g);
    let c := Geojson.Centroid geom in
    Some (mkParsedPlace (p_id p) (p_kind p) geom (Geojson.Bbox geom) c.1 c.2
            (Geojson.isAreal geom)).

Definition parse_places (ps : gmap string Place) : list parsedPlace :=
  omap (fun x => parsePlace x.2) (map_to_list ps).

(** [loadPlaceGeoms]: the cache, or the places table. *)
Definition loadPlaceGeoms : M (list parsedPlace) :=
  m <-- Tx.get_mem ;;
  match placesGeo m with
  | Some l => Tx.ret l
  | None =>
      out <-- Tx.query (fun d => parse_places (places d)) ;;
      Tx.put_mem (fun m => mkMem (Some out) (placesVersion m) (refreshVersions m)) ;;;
      Tx.ret out
  end.

Definition match_in (ev : Event) (e : eventGeo) (pls : list parsedPlace) : list string :=
  pp_id <$> filter (fun pl => eg_matches e pl || near_fire ev e pl = true) pls.

Definition matchPlaces (ev : Event) : M (list string) :=
  match geometry ev ≫= eventGeoOf with
  | None => Tx.ret []
  | Some e => pls <-- loadPlaceGeoms ;; Tx.ret (match_in ev e pls)
  end.

(** ** Row writers *)

(** [insertRevision]: the primary key is (event_id, revision). *)
Definition insertRevision (r : RevisionRow) : M unit :=
  Tx.exec_checked "store: insert revision" (fun d =>
    if existsb (fun x => bool_decide (r_event_id x = r_event_id r)
                         && bool_decide (r_revision x = r_revision r)) (event_revisions d)
    then None
    else Some (set_event_revisions (event_revisions d ++ [r]) d)).

(** [replaceEventPlaces]: a delete, then one insert per place; (event_id,
    place_id) is the primary key. *)
Definition replaceEventPlaces (id : string) (placeIDs : list string) : M unit :=
  Tx.exec (fun d => set_event_places (filter (fun x => x.1 <> id) (event_places d)) d) ;;;
  Tx.foreach (fun pid =>
    Tx.exec_checked "store: insert event_places" (fun d =>
      if bool_decide ((id, pid) ∈ event_places d) then None
      else Some (set_event_places ({[(id, pid)]} ∪ event_places d) d))) placeIDs.

(** The next rowid of an INTEGER PRIMARY KEY table. *)
Definition next_rowid (m : gmap string Z) : Z :=
  1 + foldr Z.max 0 (map_to_list m).*2.

(** [upsertGeo]. An R*Tree refuses a row with min > max. *)
Definition upsertGeo (ev : Event) : M unit :=
  match GetBbox ev with
  | None =>
      Tx.exec (fun d => set_geo (event_geo_map d)
        (match event_geo_map d !! Id ev with
         | Some rowid => delete rowid (event_geo d)
         | None => event_geo d
         end) d) ;;;
      Tx.exec (fun d => set_geo (delete (Id ev) (event_geo_map d)) (event_geo d) d)
  | Some bbox =>
      found <-- Tx.query (fun d => event_geo_map d !! Id ev) ;;
      rowid <-- (match found with
                 | Some rowid => Tx.ret rowid
                 | None =>
                     Tx.exec (fun d => set_geo (<[Id ev := next_rowid (event_geo_map d)]>
                                                  (event_geo_map d)) (event_geo d) d) ;;;
                     Tx.M_lookup (fun d => default 0 (event_geo_map d !! Id ev))
                 end) ;;
      Tx.exec_checked "store: upsert event_geo" (fun d =>
        if leb (min_lat bbox) (max_lat bbox) && leb (min_lng bbox) (max_lng bbox)
        then Some (set_geo (event_geo_map d) (<[rowid := bbox]> (event_geo d)) d)
        else None)
  end.

(** ** The hash-equal path *)

Definition placesOf (d : DB) (id : string) : list string :=
  sort_strings (elements (filter (fun x => x.1 = id) (event_places d))).*2.

Definition enhChangedB (stored ev : Event) : bool :=
  match enhancement ev with
  | None => false
  | Some _ => negb (bool_decide (enhancement stored = enhancement ev))
              || negb (bool_decide (summary stored = summary ev))
  end.

Definition telChangedB (stored ev : Event) : bool :=
  bool_decide (is_Some (GetTelemetry ev)) && bool_decide (is_Some (GetMesh stored))
  && negb (telemetry_equal (GetTelemetry stored) (GetTelemetry ev)).

Definition burnChangedB (stored ev : Event) : bool :=
  match GetBurnStatus ev, GetBurnStatus stored with
  | Some i, Some h =>
      negb (bool_decide (burnVolatile i = burnVolatile h))
      || negb (bool_decide (observed_at ev = observed_at stored))
      || negb (bool_decide (GetFetchedAt ev = GetFetchedAt stored))
  | _, _ => false
  end.

(** The stored blob with the fresh hash-excluded fields. *)
Definition refreshBlob (stored ev : Event) (want : list string) : Event :=
  let s := set_place_ids want stored in
  let s := if enhChangedB stored ev
           then set_summary (summary ev) (set_enhancement (enhancement ev) s) else s in
  let s := if telChangedB stored ev
           then match GetMesh s with
                | Some m => set_detail (Some (D_Mesh (set_telemetry (GetTelemetry ev) m))) s
                | None => s
                end
           else s in
  if burnChangedB stored ev
  then
    let s := set_detail (D_BurnStatus <$> GetBurnStatus ev) s in
    let s := set_observed_at (observed_at ev) s in
    match provenance s, provenance ev with
    | Some p, Some p' => set_provenance (Some (set_fetched_at (fetched_at p') p)) s
    | _, _ => s
    end
  else s.

Definition refresh_row (blob : Event) (row : EventRow) : EventRow :=
  mkEventRow (c_layer row) (c_severity row) (c_status row) (c_source_id row) (c_effective row)
    (c_expires row)
    (match observed_at blob with Some t => time_unix t | None => c_observed_at row end)
    (c_ingested_at row) (c_revision row) (c_content_hash row) blob (c_last_seen_at row)
    (c_refreshes row + 1).

Definition update_event (id : string) (f : EventRow -> EventRow) : M unit :=
  Tx.exec (set_events (alter f id)).

(** [refreshEventPlaces]. *)
Definition refreshEventPlaces (ev : Event) : M bool :=
  matched <-- matchPlaces (ensureGeometryIndex ev) ;;
  let want := unionSorted (place_ids ev) matched in
  have <-- Tx.query (fun d => placesOf d (Id ev)) ;;
  blob <-- Tx.query (fun d => c_proto <$> events d !! Id ev) ;;
  match blob with
  | None => Tx.fail "store: load event for refresh"
  | Some stored =>
      let placesChanged := negb (bool_decide (want = have)) in
      if negb placesChanged && negb (enhChangedB stored ev) && negb (telChangedB stored ev)
         && negb (burnChangedB stored ev)
      then Tx.ret false
      else
        (if placesChanged then replaceEventPlaces (Id ev) want else Tx.ret tt) ;;;
        let stored' := refreshBlob stored ev want in
        match marshal stored' with
        | None => Tx.fail "store: marshal event for refresh"
        | Some _ => update_event (Id ev) (refresh_row stored') ;;; Tx.ret true
        end
  end.

(** ** [UpsertEvent] *)

(** The row a content write stores for the marshalled clone [c]. *)
Definition content_row (now : Time) (rev : Z) (hash : string) (c : Event) (refreshes : Z) : EventRow :=
  mkEventRow (layer c) (severity c) (status c) (GetSourceId c) (unixOrNil (effective c))
    (unixOrNil (expires c)) (default (time_unix now) (unixOrNil (observed_at c)))
    (time_unix now) rev hash c (time_unix now) refreshes.

(** INSERT ... ON CONFLICT DO UPDATE: [refreshes] keeps its value or starts at
    0; the source must be registered. *)
Definition put_event (now : Time) (rev : Z) (hash : string) (c : Event) : M unit :=
  Tx.exec_checked "store: upsert event" (fun d =>
    if bool_decide (GetSourceId c ∈ registered d) then
      Some (set_events (fun m =>
        <[Id c := content_row now rev hash c (default 0 (c_refreshes <$> m !! Id c))]> m) d)
    else None).

(** The content write of [UpsertEvent]. *)
Definition writeContent (now : Time) (ev : Event) (rev : Z) : M unit :=
  let c := ensureGeometryIndex (set_ingested_at (Some now) (set_revision rev ev)) in
  placeIDs <-- matchPlaces c ;;
  let c := set_place_ids (unionSorted (place_ids ev) placeIDs) c in
  match marshal c with
  | None => Tx.fail "store: marshal event"
  | Some _ =>
      put_event now rev (ContentHash ev) c ;;;
      insertRevision (mkRevisionRow (Id c) rev (default (time_unix now) (unixOrNil (observed_at c)))
                        (time_unix now) c) ;;;
      replaceEventPlaces (Id c) (place_ids c) ;;;
      upsertGeo c
  end.

Definition bumpRefreshVersion (l : Layer) : M unit :=
  Tx.put_mem (fun m => mkMem (placesGeo m) (placesVersion m)
                         (<[l := default 0 (refreshVersions m !! l) + 1]> (refreshVersions m))).

Definition upsertBody (now : Time) (ev : Event) : M (UpsertResult * bool) :=
  found <-- Tx.query (fun d => (fun r => (c_revision r, c_content_hash r)) <$> events d !! Id ev) ;;
  match found with
  | None => writeContent now ev 1 ;;; Tx.ret (mkUpsertResult true 1, false)
  | Some (oldRev, oldHash) =>
      if bool_decide (oldHash = ContentHash ev) then
        rewrote <-- refreshEventPlaces ev ;;
        Tx.ret (mkUpsertResult false oldRev, rewrote)
      else
        writeContent now ev (u32 (oldRev + 1)) ;;;
        Tx.ret (mkUpsertResult true (u32 (oldRev + 1)), false)
  end.

Definition UpsertEvent (now : Time) (ev : Event) : M UpsertResult :=
  if bool_decide (Id ev = "") then Tx.fail "store: upsert event with empty id"
  else
    r <-- Tx.inTx (upsertBody now ev) ;;
    (if r.2 then bumpRefreshVersion (layer ev) else Tx.ret tt) ;;;
    Tx.ret r.1.

(** ** Lifecycle *)

Definition transition_row (to : EventStatus) (observedAt now : Time) (ev : Event) (row : EventRow)
    : EventRow :=
  mkEventRow (c_layer row) (c_severity row) to (c_source_id row) (c_effective row) (c_expires row)
    (time_unix observedAt) (time_unix now) (revision ev) (ContentHash ev) ev
    (c_last_seen_at row) (c_refreshes row).

Definition transitionEvent (to : EventStatus) (observedAt now : Time) (id : string) : M unit :=
  blob <-- Tx.query (fun d => c_proto <$> events d !! id) ;;
  match blob with
  | None => Tx.ret tt
  | Some ev =>
      if bool_decide (status ev = to) then Tx.ret tt
      else
        let ev := set_revision (u32 (revision ev + 1))
                    (set_ingested_at (Some now) (set_observed_at (Some observedAt) (set_status to ev))) in
        match marshal ev with
        | None => Tx.fail "store: transition marshal"
        | Some _ =>
            update_event id (transition_row to observedAt now ev) ;;;
            insertRevision (mkRevisionRow id (revision ev) (time_unix observedAt) (time_unix now) ev)
        end
  end.

Definition TransitionEvents (now : Time) (ids : list string) (to : EventStatus) (observedAt : Time)
    : M unit :=
  match ids with
  | [] => Tx.ret tt
  | _ => Tx.inTx (Tx.foreach (transitionEvent to observedAt now) ids)
  end.

(** [TouchSeen]: one UPDATE; the number of rows it rewrote. *)
Definition touch_row (t : Time) (row : EventRow) : EventRow :=
  mkEventRow (c_layer row) (c_severity row) (c_status row) (c_source_id row) (c_effective row)
    (c_expires row) (c_observed_at row) (c_ingested_at row) (c_revision row) (c_content_hash row)
    (c_proto row) (time_unix t) (c_refreshes row).

Definition stale_seen (ids : list string) (staleBefore : Time) (id : string) (row : EventRow) : bool :=
  bool_decide (id ∈ ids) && (c_last_seen_at row <? time_unix staleBefore).

Definition TouchSeen (ids : list string) (t staleBefore : Time) : M Z :=
  match ids with
  | [] => Tx.ret 0
  | _ =>
      Tx.bind Tx.stmt (fun _ s =>
        let evs := events (Tx.db s) in
        let n := size (filter (fun x => stale_seen ids staleBefore x.1 x.2 = true) evs) in
        (inr (Z.of_nat n),
         Tx.mkSt (set_events (map_imap (fun id row =>
           Some (if stale_seen ids staleBefore id row then touch_row t row else row))) (Tx.db s))
           (Tx.mem s) (Tx.plan s)))
  end.

(** ** Reads *)

Fixpoint chunks (n : nat) (fuel : nat) (l : list string) : list (list string) :=
  match fuel, l with
  | _, [] => []
  | O, _ => []
  | S fuel, _ => take n l :: chunks n fuel (drop n l)
  end.

Definition hashes_of (d : DB) (ids : list string) : gmap string string :=
  c_content_hash <$> filter (fun x => x.1 ∈ ids) (events d).

(** [ContentHashes]: one query per batch of [maxHashBatch]. *)
Definition ContentHashes (ids : list string) : M (gmap string string) :=
  (fix go (bs : list (list string)) (out : gmap string string) : M (gmap string string) :=
     match bs with
     | [] => Tx.ret out
     | b :: bs => h <-- Tx.query (fun d => hashes_of d b) ;; go bs (h ∪ out)
     end) (chunks max_hash_batch (length ids) ids) ∅.

Definition NeedsUpdate (ev : Event) : M bool :=
  stored <-- Tx.query (fun d => c_content_hash <$> events d !! Id ev) ;;
  match stored with
  | None => Tx.ret true
  | Some h => Tx.ret (negb (bool_decide (h = ContentHash ev)))
  end.

Definition active_status (s : EventStatus) : bool :=
  match s with ACTIVE | SCHEDULED => true | _ => false end.

Definition active_rows (d : DB) (sourceID : string) : list StoredEvent :=
  (fun x => mkStoredEvent (c_proto x.2)
              (if 0 <? c_last_seen_at x.2 then time_of_unix (c_last_seen_at x.2) else time_zero))
  <$> filter (fun x => bool_decide (c_source_id x.2 = sourceID) && active_status (c_status x.2) = true)
        (by_id (events d)).

Definition ActiveEventsBySource (sourceID : string) : M (list StoredEvent) :=
  Tx.query (fun d => active_rows d sourceID).

Definition EventsBySourceAndStatus (sourceID : string) (statuses : list EventStatus)
    : M (list Event) :=
  match statuses with
  | [] => Tx.ret []
  | _ => Tx.query (fun d =>
           (fun x => c_proto x.2)
           <$> filter (fun x => c_source_id x.2 = sourceID /\ c_status x.2 ∈ statuses)
                 (by_id (events d)))
  end.

Definition ErrNotFound : Tx.error := "store: not found".

Definition GetEvent (id : string) : M Event :=
  blob <-- Tx.query (fun d => c_proto <$> events d !! id) ;;
  match blob with None => Tx.fail ErrNotFound | Some ev => Tx.ret ev end.

Definition stamp_of (row : EventRow) : EventStamp := mkEventStamp (c_revision row) (c_refreshes row).

Definition EventVersion (id : string) : M (option EventStamp) :=
  Tx.query (fun d => stamp_of <$> events d !! id).

(** [RefreshVersion]: all layers when none is given; a repeated layer counts
    once. *)
Definition refresh_sum (rv : gmap Layer Z) (layers : list Layer) : Z :=
  match layers with
  | [] => map_fold (fun _ n sum => sum + n) 0 rv
  | _ => foldr (fun l sum => sum + default 0 (rv !! l)) 0 (remove_dups layers)
  end.

Definition RefreshVersion (layers : list Layer) : M Z :=
  m <-- Tx.get_mem ;; Tx.ret (refresh_sum (refreshVersions m) layers).

Definition DataVersion : M Z := Tx.query (fun d => Z.of_nat (length (event_revisions d))).

(** [UpsertPlace], of [internal/store/places.go]. [slug] is UNIQUE. *)
Definition UpsertPlace (p : Place) : M unit :=
  if bool_decide (p_id p = "") || bool_decide (p_slug p = "") then
    Tx.fail "store: place requires id and slug"
  else
    Tx.inTx (
      Tx.exec_checked "store: upsert place" (fun d =>
        if existsb (fun x => bool_decide (p_slug x.2 = p_slug p) && negb (bool_decide (x.1 = p_id p)))
             (map_to_list (places d))
        then None
        else Some (set_places (<[p_id p := p]> (places d)) d)) ;;;
      Tx.put_mem (fun m => mkMem None ((placesVersion m + 1) mod 2 ^ 64) (refreshVersions m))).

End Store.
End Store.
