(* ===== verification/Sources.v ===== *)
(** * The source registry

    [internal/store/sources.go]: seeding, health, retirement; and
    [retireOrphanedSources] of [cmd/server/main.go]. The registry is the
    [sources] table of [Store]. *)

From S2P Require Import Prelude Float64 Geo Geojson GridEvent Tx Store.

Module Sources.
Import F64 Grid Store.
Open Scope tx_scope.

Definition DisappearanceResolve : string := "resolve".
Definition DisappearanceExpire : string := "expire".

(** [SourceSeed]. *)
Record SourceSeed := mkSourceSeed {
  sd_ID : string; sd_Name : string; sd_Attribution : string; sd_HomepageURL : string;
  sd_Kind : SourceKind; sd_PollInterval : Duration; sd_StaleAfter : Duration;
  sd_ExpireAfter : Duration; sd_Disappearance : string }.

(** The row a seed writes: the config columns, over the health columns of [old]
    or the defaults of a new row. *)
Definition seed_row (seed : SourceSeed) (old : option SourceRow) : SourceRow :=
  mkSourceRow (sd_Name seed) (sd_Attribution seed) (sd_HomepageURL seed)
    (match sd_Kind seed with SOURCE_KIND_UNSPECIFIED => FEED | k => k end)
    (trunc (Seconds (sd_PollInterval seed)))
    (if 0 <? sd_StaleAfter seed then Some (trunc (Seconds (sd_StaleAfter seed))) else None)
    (if 0 <? sd_ExpireAfter seed then Some (trunc (Seconds (sd_ExpireAfter seed))) else None)
    (old ≫= last_success_at) (old ≫= last_attempt_at) (default "" (last_error <$> old))
    (default SOURCE_STATUS_UNSPECIFIED (s_status <$> old))
    (if bool_decide (sd_Disappearance seed = "") then DisappearanceResolve
     else sd_Disappearance seed).

Definition seedOne (seed : SourceSeed) : M unit :=
  if bool_decide (sd_ID seed = "") then Tx.fail "store: source seed with empty id"
  else Tx.exec (fun d =>
    set_sources (<[sd_ID seed := seed_row seed (sources d !! sd_ID seed)]> (sources d)) d).

Definition SeedSources (seeds : list SourceSeed) : M unit := Tx.inTx (Tx.foreach seedOne seeds).

(** An event of the source: the row the foreign key would leave dangling. *)
Definition referenced (d : DB) (id : string) : bool :=
  existsb (fun x => bool_decide (c_source_id x.2 = id)) (map_to_list (events d)).

Definition DeleteSource (id : string) : M unit :=
  Tx.inTx (Tx.exec_checked "FOREIGN KEY constraint failed" (fun d =>
    if referenced d id && bool_decide (id ∈ registered d) then None
    else Some (set_sources (delete id (sources d)) d))).

(** [RecordAttempt]. *)
Definition succeeded (now : Time) (r : SourceRow) : SourceRow :=
  mkSourceRow (s_name r) (s_attribution r) (s_homepage_url r) (s_kind r) (poll_interval_seconds r)
    (stale_after_seconds r) (expire_after_seconds r) (Some (time_unix now)) (Some (time_unix now))
    "" OK (disappearance r).

Definition staleWindow (r : SourceRow) : Z :=
  default (3 * poll_interval_seconds r) (stale_after_seconds r).

Definition failed_status (now : Time) (r : SourceRow) : SourceStatus :=
  match last_success_at r with
  | Some t => if time_unix now - t <=? staleWindow r then STALE else UNAVAILABLE
  | None => UNAVAILABLE
  end.

Definition failed (now : Time) (e : string) (r : SourceRow) : SourceRow :=
  mkSourceRow (s_name r) (s_attribution r) (s_homepage_url r) (s_kind r) (poll_interval_seconds r)
    (stale_after_seconds r) (expire_after_seconds r) (last_success_at r) (Some (time_unix now))
    e (failed_status now r) (disappearance r).

Definition attempted (now : Time) (attemptErr : option string) : SourceRow -> SourceRow :=
  match attemptErr with None => succeeded now | Some e => failed now e end.

Definition RecordAttempt (now : Time) (id : string) (attemptErr : option string) : M unit :=
  Tx.inTx (
    row <-- Tx.query (fun d => sources d !! id) ;;
    match row with
    | None => Tx.fail "store: record attempt for unseeded source"
    | Some r =>
        Tx.exec (fun d => set_sources (alter (fun r' =>
          match attemptErr with
          | None => succeeded now r'
          | Some e => mkSourceRow (s_name r') (s_attribution r') (s_homepage_url r') (s_kind r')
              (poll_interval_seconds r') (stale_after_seconds r') (expire_after_seconds r')
              (last_success_at r') (Some (time_unix now)) e (failed_status now r) (disappearance r')
          end) id (sources d)) d)
    end).

(** [ListSources]: ordered by id, with the effective staleness window. *)
Record Source := mkSource {
  so_id : string; so_name : string; so_attribution : string; so_homepage_url : string;
  so_kind : SourceKind; so_poll_interval_seconds : Z; so_stale_after_seconds : Z;
  so_expire_after_seconds : Z; so_last_success_at : option Time; so_last_attempt_at : option Time;
  so_last_error : string; so_status : SourceStatus }.

(** [tsFromNull]. *)
Definition tsFromNull (v : option Z) : option Time := time_of_unix <$> v.

Definition source_of (x : string * SourceRow) : Source :=
  let '(id, r) := x in
  mkSource id (s_name r) (s_attribution r) (s_homepage_url r) (s_kind r)
    (u32 (poll_interval_seconds r)) (u32 (staleWindow r)) (u32 (default 0 (expire_after_seconds r)))
    (tsFromNull (last_success_at r)) (tsFromNull (last_attempt_at r)) (last_error r) (s_status r).

Definition ListSources : M (list Source) := Tx.query (fun d => source_of <$> by_id (sources d)).

(** [retireOrphanedSources]; [now] is read before each transition. *)
Section Retire.
Variable marshal : Event -> option string.
Variable digest : string -> string.

Definition retireOne (now : Time) (src : string) : M unit :=
  evs <-- Tx.try (ActiveEventsBySource src) ;;
  match evs with
  | inl _ => Tx.ret tt
  | inr evs =>
      moved <-- Tx.try (TransitionEvents marshal digest now (Id ∘ se_event <$> evs) EXPIRED now) ;;
      match moved with
      | inl _ => Tx.ret tt
      | inr _ => Tx.try (DeleteSource src) ;;; Tx.ret tt
      end
  end.

Definition retireOrphanedSources (now : Time) (retiredSourceIDs : list string) : M unit :=
  Tx.foreach (retireOne now) retiredSourceIDs.
End Retire.

(** ** Health *)

(** What a caller sees of a source's health. *)
Definition health (r : SourceRow) : SourceStatus * string * option Z * option Z :=
  (s_status r, last_error r, last_success_at r, last_attempt_at r).

Lemma RecordAttempt_wp now id e (Q : unit -> DB -> Mem -> Prop) d c :
  (forall r, sources d !! id = Some r ->
     Q tt (set_sources (<[id := attempted now e r]> (sources d)) d) c) ->
  Tx.wp (RecordAttempt now id e) Q d c.
Proof.
  intros HQ. unfold RecordAttempt. wp_step. wp_step. wp_step.
  destruct (sources d !! id) as [r|] eqn:E; [|wp_step]. wp_step.
  erewrite alter_lookup_insert by done. specialize (HQ r eq_refl). by destruct e.
Qed.

Lemma RecordAttempt_twp now id e r d c :
  sources d !! id = Some r ->
  Tx.twp (RecordAttempt now id e)
    (fun _ d' c' => d' = set_sources (<[id := attempted now e r]> (sources d)) d /\ c' = c) d c.
Proof.
  intros E. unfold RecordAttempt. twp_step. twp_step. twp_step. rewrite E. twp_step.
  erewrite alter_lookup_insert by done. by destruct e.
Qed.

(** One poll's outcome: when it was recorded, and its error. *)
Definition Attempt : Type := Time * option string.

Fixpoint record_all (id : string) (l : list Attempt) : M unit :=
  match l with
  | [] => Tx.ret tt
  | (t, e) :: l => RecordAttempt t id e ;;; record_all id l
  end.

(** The last success among some attempts, oldest first. *)
Definition last_ok (prior : option Z) (l : list Attempt) : option Z :=
  foldl (fun acc a => match a.2 with None => Some (time_unix a.1) | Some _ => acc end) prior l.

(** The health the attempts add up to. *)
Definition health_after (window : Z) (prior : option Z) (l : list Attempt)
    : option (SourceStatus * string * option Z * option Z) :=
  match last l with
  | None => None
  | Some (t, None) => Some (OK, "", Some (time_unix t), Some (time_unix t))
  | Some (t, Some e) =>
      let ok := last_ok prior l in
      Some (match ok with
            | Some s => if time_unix t - s <=? window then STALE else UNAVAILABLE
            | None => UNAVAILABLE
            end, e, ok, Some (time_unix t))
  end.

(** The configuration columns, which only a seed writes. *)
Definition config (r : SourceRow) :=
  (s_name r, s_attribution r, s_homepage_url r, s_kind r, poll_interval_seconds r,
   stale_after_seconds r, expire_after_seconds r, disappearance r).

Definition attempts (r : SourceRow) (l : list Attempt) : SourceRow :=
  foldl (fun r a => attempted a.1 a.2 r) r l.

Lemma attempted_config now e r : config (attempted now e r) = config r.
Proof. by destruct e. Qed.

Lemma attempts_spec r l :
  config (attempts r l) = config r
  /\ last_success_at (attempts r l) = last_ok (last_success_at r) l
  /\ forall h, health_after (staleWindow r) (last_success_at r) l = Some h -> health (attempts r l) = h.
Proof.
  induction l as [|[t e] l (IHc & IHs & _)] using rev_ind; [done|].
  unfold attempts, last_ok, health_after in *. rewrite !foldl_app, last_snoc. cbn [foldl].
  split_and!.
  - by rewrite attempted_config.
  - destruct e; cbn; [exact IHs|done].
  - intros h. destruct e as [e|]; intros [= <-]; cbn; [|done].
    unfold health. cbn. unfold last_ok, failed_status. rewrite foldl_app. cbn. rewrite IHs.
    unfold staleWindow. injection IHc as _ _ _ _ Hp Hs _ _. by rewrite Hp, Hs.
Qed.

Lemma record_all_twp id r l d c :
  sources d !! id = Some r ->
  Tx.twp (record_all id l)
    (fun _ d' c' => d' = set_sources (<[id := attempts r l]> (sources d)) d /\ c' = c) d c.
Proof.
  revert r d. induction l as [|[t e] l IH]; intros r d E; cbn.
  - twp_step. rewrite insert_id by done. by destruct d.
  - twp_step. eapply Tx.twp_mono; [|by apply (RecordAttempt_twp t id e r)].
    intros [] d' c' [-> ->]. eapply Tx.twp_mono; [|apply (IH (attempted t e r)); apply lookup_insert_eq].
    intros [] d'' c'' [-> ->]. split; [|done]. cbn. by rewrite insert_insert_eq.
Qed.

(** A source's health is a function of its poll history: after any
    attempts (the database answering), the status is OK when the last poll
    succeeded, STALE when it failed but some success, in these attempts or
    before, is within the staleness window, and UNAVAILABLE otherwise; the last
    success and the configuration are never touched by a failure, and no other
    table is. *)
Theorem health_history id r l d c :
  sources d !! id = Some r ->
  exists d' r', record_all id l (Tx.mkSt d c []) = (inr tt, Tx.mkSt d' c [])
    /\ sources d' !! id = Some r' /\ config r' = config r
    /\ last_success_at r' = last_ok (last_success_at r) l
    /\ (forall h, health_after (staleWindow r) (last_success_at r) l = Some h -> health r' = h)
    /\ d' = set_sources (sources d') d
    /\ (forall k, k <> id -> sources d' !! k = sources d !! k).
Proof.
  intros E. destruct (record_all_twp id r l d c E) as ([] & d' & c' & Hrun & -> & ->).
  destruct (attempts_spec r l) as (H1 & H2 & H3).
  eexists _, (attempts r l). split; [exact Hrun|]. split_and!; cbn; try done.
  - by rewrite lookup_insert_eq.
  - intros k Hk. by rewrite lookup_insert_ne.
Qed.

(** ** Seeding *)

(** Seeding an id twice is seeding it with the last: only health carries over. *)
Lemma seed_row_twice s s' old : seed_row s' (Some (seed_row s old)) = seed_row s' old.
Proof. unfold seed_row. destruct old; done. Qed.

(** Seeding sets the configuration of every seeded source to its (last)
    seed and keeps the health it had; a new source starts with none. It touches
    no other source and no other table, and an empty id fails the whole seed. *)
Theorem seed_contract seeds s r s' :
  SeedSources seeds s = (r, s') ->
  match r with
  | inl _ => Tx.db s' = Tx.db s
  | inr _ =>
      (forall seed, seed ∈ seeds -> sd_ID seed <> "")
      /\ (forall id, sources (Tx.db s') !! id
           = match last (filter (fun seed => sd_ID seed = id) seeds) with
             | None => sources (Tx.db s) !! id
             | Some seed => Some (seed_row seed (sources (Tx.db s) !! id))
             end)
      /\ Tx.db s' = set_sources (sources (Tx.db s')) (Tx.db s)
  end.
Proof.
  intros Hrun. destruct r as [e|[]]; [by eapply Tx.inTx_err|]. revert Hrun. unfold SeedSources.
  set (P := fun (seeds : list SourceSeed) (d' : DB) =>
    (forall seed, seed ∈ seeds -> sd_ID seed <> "")
    /\ (forall id, sources d' !! id
         = match last (filter (fun seed => sd_ID seed = id) seeds) with
           | None => sources (Tx.db s) !! id
           | Some seed => Some (seed_row seed (sources (Tx.db s) !! id))
           end)
    /\ d' = set_sources (sources d') (Tx.db s)).
  apply (Tx.wp_use _ (fun _ d' _ => P seeds d')). wp_step.
  apply (Tx.wp_foreach _ (fun pre d' _ => P pre d')).
  2: { split_and!; [by intros ? ?%not_elem_of_nil|done|by destruct (Tx.db s)]. }
  intros pre seed d c _ (Hid & Hrow & Hd). unfold seedOne. case_bool_decide as He; [wp_step|]. wp_step.
  split_and!.
  - intros seed'. rewrite elem_of_app, list_elem_of_singleton. intros [?| ->]; auto.
  - intros id. cbn. rewrite filter_app. destruct (decide (sd_ID seed = id)) as [<-|Hne].
    + rewrite filter_cons_True, filter_nil, last_snoc, lookup_insert_eq by done. f_equal. rewrite Hrow.
      destruct (last _); [apply seed_row_twice|done].
    + rewrite filter_cons_False, filter_nil, app_nil_r, lookup_insert_ne by done. apply Hrow.
  - cbn. rewrite Hd. done.
Qed.

(** ** Retiring a source *)

(** The source is registered and some event names it. *)
Definition in_use (src : string) (d : DB) (_ : Mem) : Prop :=
  src ∈ registered d /\ exists id row, events d !! id = Some row /\ c_source_id row = src.

Lemma referenced_spec d src :
  referenced d src = true <-> exists id row, events d !! id = Some row /\ c_source_id row = src.
Proof.
  unfold referenced. rewrite existsb_exists. split.
  - intros ([id row] & Hin & Hb). apply list_elem_of_In, elem_of_map_to_list in Hin.
    apply bool_decide_eq_true in Hb. eauto.
  - intros (id & row & Hrow & Hs). exists (id, row).
    rewrite <-list_elem_of_In, elem_of_map_to_list, bool_decide_eq_true. done.
Qed.

Lemma keeps_in_use_inTx {A} (m : M A) src : Tx.keeps m (in_use src) -> Tx.keeps (Tx.inTx m) (in_use src).
Proof. apply Tx.keeps_inTx. by unfold in_use. Qed.

Lemma keeps_in_use_delete id src : Tx.keeps (DeleteSource id) (in_use src).
Proof.
  apply keeps_in_use_inTx, Tx.keeps_exec_checked. intros d c d' [Hr He].
  destruct (referenced d id) eqn:Eu; cbn; [case_bool_decide as Hreg; [done|]|]; intros [= <-];
    (split; [|done]); unfold registered in *; cbn; rewrite dom_delete_L, elem_of_difference, elem_of_singleton;
    (split; [done|]); intros ->; [done|]. apply referenced_spec in He. congruence.
Qed.

Lemma keeps_in_use_transition marshal digest now ids to obs src :
  Tx.keeps (TransitionEvents marshal digest now ids to obs) (in_use src).
Proof.
  unfold TransitionEvents. destruct ids; [apply Tx.keeps_ret|]. apply keeps_in_use_inTx, Tx.keeps_foreach.
  intros id. unfold transitionEvent, update_event, insertRevision. apply Tx.keeps_bind; [eauto with grid|].
  intros [ev|]; [|eauto with grid]. case_bool_decide; [eauto with grid|].
  destruct (marshal _); [|eauto with grid]. apply Tx.keeps_bind; [|intros _].
  - apply Tx.keeps_exec. intros d c [Hr (k & row & Hk & Hs)]. split; [done|]. cbn.
    destruct (decide (k = id)) as [-> |Hne].
    + eexists id, _. by rewrite lookup_alter_eq, Hk.
    + exists k, row. by rewrite lookup_alter_ne by done.
  - apply Tx.keeps_exec_checked. intros d c d' Hu. case_match; intros [= <-]. exact Hu.
Qed.

(** A retired source's registry row is not removed while any event, of any
    status, names it: the foreign key refuses the delete, and the transitions
    before it never change an event's source. Only a source no event was ever
    stored for leaves the registry. *)
Theorem retired_source_stays marshal digest now retired src s r s' :
  src ∈ registered (Tx.db s) ->
  (exists id row, events (Tx.db s) !! id = Some row /\ c_source_id row = src) ->
  retireOrphanedSources marshal digest now retired s = (r, s') ->
  src ∈ registered (Tx.db s').
Proof.
  intros Hr He Hrun.
  assert (H : Tx.keeps (retireOrphanedSources marshal digest now retired) (in_use src)).
  { apply Tx.keeps_foreach. intros id. unfold retireOne, ActiveEventsBySource.
    apply Tx.keeps_bind; [eauto with grid|]. intros [?|evs]; [eauto with grid|].
    apply Tx.keeps_bind; [apply Tx.keeps_try, keeps_in_use_transition|].
    intros [?|[]]; [eauto with grid|]. eauto using Tx.keeps_bind, Tx.keeps_try, keeps_in_use_delete with grid. }
  by destruct (H s r s' (conj Hr He) Hrun).
Qed.

Lemma DeleteSource_unused id d c :
  referenced d id = false ->
  Tx.twp (DeleteSource id) (fun _ d' _ => sources d' = delete id (sources d)) d c.
Proof.
  intros Hu. unfold DeleteSource. twp_step. eapply Tx.twp_exec_checked; [by rewrite Hu|]. done.
Qed.

(** ** Witnesses *)

Definition nws : SourceRow :=
  mkSourceRow "NWS" "" "" FEED 60 None None (Some 1000) None "" SOURCE_STATUS_UNSPECIFIED "expire".

Definition perimeter : Event :=
  mkEvent "nws:1" WILDFIRE "" MINOR EXPIRED "Fire" "" "" "" "" None []
    (Some (mkProvenance "nws" "NWS" "" "" None)) None None None None 1 None None.

Definition d0 : DB :=
  mkDB {[ "nws:1" := mkEventRow WILDFIRE MINOR EXPIRED "nws" None None 0 0 1 "h" perimeter 0 0 ]}
    [] ∅ ∅ ∅ ∅ {[ "nws" := nws ]}.
Definition m0 : Mem := mkMem None 0 ∅.

Lemma health_history_witness :
  exists d' r', record_all "nws" [(time_of_unix 1100, Some "timeout"); (time_of_unix 1300, Some "timeout")]
    (Tx.mkSt d0 m0 []) = (inr tt, Tx.mkSt d' m0 [])
  /\ sources d' !! "nws" = Some r' /\ health r' = (UNAVAILABLE, "timeout", Some 1000, Some 1300).
Proof.
  destruct (health_history "nws" nws
    [(time_of_unix 1100, Some "timeout"); (time_of_unix 1300, Some "timeout")] d0 m0 eq_refl)
    as (d' & r' & H1 & H2 & _ & _ & H3 & _).
  exists d', r'. split; [exact H1|]. split; [exact H2|]. apply H3. vm_compute. reflexivity.
Defined.

Definition nws_seed : SourceSeed :=
  mkSourceSeed "nws" "NWS alerts" "" "" SOURCE_KIND_UNSPECIFIED (5 * minute) 0 (24 * hour) "expire".
Definition seeded : Tx.St DB Mem := (SeedSources [nws_seed] (Tx.mkSt d0 m0 [])).2.

Example seeded_row : health <$> sources (Tx.db seeded) !! "nws" = Some (health nws)
  /\ (expire_after_seconds <$> sources (Tx.db seeded) !! "nws") = Some (Some 86400).
Proof. by vm_compute. Qed.

Lemma seed_contract_witness : Tx.db seeded = set_sources (sources (Tx.db seeded)) d0.
Proof.
  exact (proj2 (proj2 (seed_contract [nws_seed] (Tx.mkSt d0 m0 []) (inr tt) seeded
    ltac:(vm_compute; reflexivity)))).
Defined.

Lemma retired_source_stays_witness :
  "nws" ∈ registered (Tx.db (retireOrphanedSources (fun _ => Some "b") (fun _ => "h") 1 ["nws"]
                              (Tx.mkSt d0 m0 [])).2).
Proof.
  apply (retired_source_stays (fun _ => Some "b") (fun _ => "h") 1 ["nws"] "nws" (Tx.mkSt d0 m0 []) (inr tt)).
  - apply (bool_decide_unpack _). vm_compute. exact I.
  - eexists "nws:1", _. split; [reflexivity|reflexivity].
  - vm_compute. reflexivity.
Defined.

End Sources.
