(* ===== verification/StoreSpec.v ===== *)
(** * The event store: effects, invariant and validators

    What the operations of [Store] do to the tables, as a small set of effects,
    and the properties that follow: the table invariant, the complete revision
    history, the validators behind the ETags, the place cache. *)

From S2P Require Import Prelude Float64 Geo Geojson GridEvent EventCodec Tx Store Sources.

Module StoreSpec.
Import F64 Grid Store Sources.
Open Scope tx_scope.

(** ** The row writers *)

Definition places_of (id : string) (l : list string) : gset (string * string) :=
  list_to_set ((fun p => (id, p)) <$> l).

Definition replaced (id : string) (l : list string) (X : gset (string * string))
    : gset (string * string) := places_of id l ∪ filter (fun x => x.1 <> id) X.

Lemma replaceEventPlaces_wp id l (Q : unit -> DB -> Mem -> Prop) d c :
  (forall X, X = replaced id l (event_places d) -> Q tt (set_event_places X d) c) ->
  Tx.wp (replaceEventPlaces id l) Q d c.
Proof.
  intros HQ. unfold replaceEventPlaces. wp_step. wp_step.
  set (X0 := filter (fun x => x.1 <> id) (event_places d)).
  eapply Tx.wp_mono; [|apply (Tx.wp_foreach _ (fun ps d' c' =>
    c' = c /\ exists X, d' = set_event_places X d /\ X = places_of id ps ∪ X0))].
  - intros [] d' c' (-> & X & -> & ->). by apply HQ.
  - intros ps p d1 c1 _ (-> & X & -> & ->). wp_step. case_bool_decide; simplify_eq.
    split; [done|]. eexists. split; [done|]. cbn. unfold places_of.
    rewrite fmap_app, list_to_set_app_L. cbn. set_solver.
  - split; [done|]. exists X0. split; [done|]. unfold places_of. cbn. set_solver.
Qed.

Lemma upsertGeo_wp ev (Q : unit -> DB -> Mem -> Prop) d c :
  (forall gm g, Q tt (set_geo gm g d) c) -> Tx.wp (upsertGeo ev) Q d c.
Proof.
  intros HQ. unfold upsertGeo. destruct (GetBbox ev) as [b|].
  - wp_step. wp_step. wp_step. destruct (event_geo_map d !! Id ev) as [rowid|].
    + wp_step. wp_step. case_match; simplify_eq. apply HQ.
    + wp_step. wp_step. wp_step. wp_step. case_match; simplify_eq. apply (HQ (event_geo_map (set_geo _ _ d))).
  - wp_step. wp_step. wp_step. apply (HQ (delete (Id ev) (event_geo_map d))).
Qed.

Lemma insertRevision_wp r (Q : unit -> DB -> Mem -> Prop) d c :
  ((forall x, x ∈ event_revisions d -> r_event_id x = r_event_id r -> r_revision x <> r_revision r) ->
   Q tt (set_event_revisions (event_revisions d ++ [r]) d) c) ->
  Tx.wp (insertRevision r) Q d c.
Proof.
  intros HQ. unfold insertRevision. wp_step. case_match eqn:E; simplify_eq. apply HQ.
  intros x Hx Hi Hr. assert (Ht : existsb (fun x => bool_decide (r_event_id x = r_event_id r)
    && bool_decide (r_revision x = r_revision r)) (event_revisions d) = true); [|congruence].
  apply existsb_exists. exists x. rewrite <-list_elem_of_In. split; [done|].
  by rewrite !bool_decide_eq_true_2.
Qed.

(** *** Versions *)

Definition covers (layers : list Layer) (l : Layer) : Prop := layers = [] \/ l ∈ layers.

Lemma map_fold_bump (rv : gmap Layer Z) l :
  map_fold (fun _ n sum => sum + n) 0 (<[l := default 0 (rv !! l) + 1]> rv)
  = map_fold (fun _ n sum => sum + n) 0 rv + 1.
Proof.
  assert (Hins : forall n (m : gmap Layer Z), m !! l = None ->
    map_fold (fun _ n sum => sum + n) 0 (<[l := n]> m) = map_fold (fun _ n sum => sum + n) 0 m + n).
  { intros n m Hm. apply (map_fold_insert_L (fun (_ : Layer) (n sum : Z) => sum + n)); [intros; lia|done]. }
  destruct (rv !! l) as [n|] eqn:E; cbn.
  - rewrite <-insert_delete_eq, Hins by apply lookup_delete_eq.
    rewrite <-(insert_delete_id rv l n E) at 2. rewrite Hins by apply lookup_delete_eq. lia.
  - by rewrite Hins.
Qed.

Lemma refresh_sum_bump rv l layers :
  refresh_sum (<[l := default 0 (rv !! l) + 1]> rv) layers
  = refresh_sum rv layers + (if decide (covers layers l) then 1 else 0).
Proof.
  unfold refresh_sum, covers. destruct layers as [|l0 ls].
  { rewrite map_fold_bump. by rewrite decide_True by auto. }
  set (L := l0 :: ls). assert (Hin : (L = [] \/ l ∈ L) <-> l ∈ remove_dups L).
  { rewrite elem_of_remove_dups. unfold L. intuition congruence. }
  destruct (decide (L = [] \/ l ∈ L)) as [Hc|Hc]; rewrite Hin in Hc; clear Hin;
    pose proof (NoDup_remove_dups L) as Hnd; induction Hnd as [|x k Hx Hnd IH]; cbn.
  - by apply not_elem_of_nil in Hc.
  - destruct (decide (l = x)) as [-> |Hne].
    + rewrite lookup_insert_eq. cbn.
      assert (Hk : foldr (fun l sum => sum + default 0 (<[x := default 0 (rv !! x) + 1]> rv !! l)) 0 k
        = foldr (fun l sum => sum + default 0 (rv !! l)) 0 k); [|lia].
      clear -Hx. induction k as [|y k IH]; cbn; [done|]. rewrite not_elem_of_cons in Hx.
      rewrite IH, lookup_insert_ne by intuition congruence. done.
    + rewrite lookup_insert_ne by done. rewrite IH; [lia|]. inversion Hc; congruence.
  - done.
  - rewrite not_elem_of_cons in Hc. rewrite lookup_insert_ne by intuition congruence.
    rewrite IH by intuition. lia.
Qed.

Section Spec.
Context {MK : MathKernel} {JK : JsonKernel}.
Variable marshal : Event -> option string.
Variable digest : string -> string.
Variable wildfireBuffer : float64.

Abbreviation Hash := (ContentHash marshal digest).
Abbreviation matchP := (matchPlaces wildfireBuffer).

(** ** Fields a helper leaves alone *)

Lemma set_geometry_same ev : set_geometry (geometry ev) ev = ev.
Proof. by destruct ev. Qed.

Lemma ensureGeometryIndex_spec ev : exists g, ensureGeometryIndex ev = set_geometry g ev.
Proof.
  unfold ensureGeometryIndex. destruct (geometry ev) as [g|] eqn:E;
    [|exists (geometry ev); by rewrite set_geometry_same].
  repeat case_match; eauto; exists (geometry ev); by rewrite set_geometry_same.
Qed.

Lemma normalize_set_geometry g ev :
  normalize (set_geometry g ev) = set_geometry g (normalize ev).
Proof. done. Qed.

Lemma GetMesh_Some ev m : GetMesh ev = Some m -> detail ev = Some (D_Mesh m).
Proof. unfold GetMesh. destruct (detail ev) as [[]|]; by intros [= ->]. Qed.

Lemma GetBurnStatus_Some ev b : GetBurnStatus ev = Some b -> detail ev = Some (D_BurnStatus b).
Proof. unfold GetBurnStatus. destruct (detail ev) as [[]|]; by intros [= ->]. Qed.

(** The fields the columns of a row are derived from, which no refresh moves. *)
Definition keyed (a b : Event) : Prop :=
  Id a = Id b /\ layer a = layer b /\ severity a = severity b /\ status a = status b
  /\ GetSourceId a = GetSourceId b /\ effective a = effective b /\ expires a = expires b
  /\ revision a = revision b.

Lemma refreshBlob_keyed stored ev want :
  keyed (refreshBlob stored ev want) stored /\ place_ids (refreshBlob stored ev want) = want.
Proof.
  unfold refreshBlob. destruct (enhChangedB stored ev), (telChangedB stored ev), (burnChangedB stored ev);
    cbn; unfold GetMesh, GetSourceId, keyed; cbn;
    repeat (case_match; cbn in *; simplify_eq); 
    split_and!; cbn; try done; try congruence; unfold GetSourceId;
    by repeat match goal with H : provenance _ = _ |- _ => rewrite H; clear H end.
Qed.

(** Telemetry, enhancement and summary are outside the hash; so is what the
    burn refresh takes, once the incoming detail hashes like the stored one. *)
Lemma refreshBlob_normalize stored ev want :
  (forall i h, GetBurnStatus ev = Some i -> GetBurnStatus stored = Some h ->
     zero_detail (D_BurnStatus i) = zero_detail (D_BurnStatus h)) ->
  normalize (refreshBlob stored ev want) = normalize stored.
Proof.
  intros Hburn. unfold refreshBlob, burnChangedB.
  set (s1 := if enhChangedB stored ev then _ else _).
  assert (H1 : normalize s1 = normalize stored /\ GetBurnStatus s1 = GetBurnStatus stored
               /\ GetMesh s1 = GetMesh stored).
  { unfold s1. by destruct (enhChangedB stored ev). }
  clearbody s1. destruct H1 as (H1 & Hb1 & Hm1).
  set (s2 := if telChangedB stored ev then _ else _).
  assert (H2 : normalize s2 = normalize stored /\ GetBurnStatus s2 = GetBurnStatus stored).
  { unfold s2. destruct (telChangedB stored ev); [|done].
    destruct (GetMesh s1) as [m|] eqn:Ed; [|done]. apply GetMesh_Some in Ed.
    split.
    - rewrite <-H1. unfold normalize. cbn. by rewrite Ed.
    - rewrite <-Hb1. unfold GetBurnStatus. cbn. by rewrite Ed. }
  clearbody s2. destruct H2 as [H2 Hb2].
  destruct (GetBurnStatus ev) as [i|] eqn:Ei; [|done].
  destruct (GetBurnStatus stored) as [h|] eqn:Eh; [|done].
  destruct (negb _ || _ || _); [|done].
  pose proof (Hburn i h eq_refl eq_refl) as Hz.
  assert (Hd : zero_detail <$> Some (D_BurnStatus i) = zero_detail <$> detail s2).
  { rewrite (GetBurnStatus_Some _ _ Hb2). cbn. by f_equal. }
  rewrite <-H2. unfold normalize. cbn in Hd |- *.
  destruct (provenance s2) as [p|] eqn:Ep; [destruct (provenance ev) as [p'|]|]; cbn in *; rewrite ?Ep; cbn;
    by rewrite <-Hd.
Qed.

(** ** Effects

    What one event's write does to the tables. The R*Tree tables are left
    open: nothing reads them. *)

Definition same_rest (d d' : DB) : Prop := registered d' = registered d.

Inductive ekind := KContent | KRefresh (l : Layer) | KTransition | KTouch | KPlace | KSources.

(** The stored clone of a content write: the event as passed but for the
    store's own stamps, the backfilled geometry index and the attachments. *)
Definition stored_clone (now : Time) (ev : Event) (rev : Z) (ids : list string) (b : Event) : Prop :=
  exists g, b = set_place_ids (unionSorted (place_ids ev) ids)
                  (set_geometry g (set_ingested_at (Some now) (set_revision rev ev))).

(** A content write of [ev] at revision [rev]. *)
Definition written (now : Time) (ev : Event) (rev : Z) (d d' : DB) : Prop :=
  exists ids b, stored_clone now ev rev ids b /\ GetSourceId ev ∈ registered d
    /\ (forall r, r ∈ event_revisions d -> r_event_id r = Id ev -> r_revision r <> rev)
    /\ events d' = <[Id ev := content_row now rev (Hash ev) b
                               (default 0 (c_refreshes <$> events d !! Id ev))]> (events d)
    /\ event_revisions d' = event_revisions d
        ++ [mkRevisionRow (Id ev) rev (default (time_unix now) (unixOrNil (observed_at b)))
              (time_unix now) b]
    /\ event_places d' = replaced (Id ev) (place_ids b) (event_places d)
    /\ same_rest d d'.

(** A hash-equal refresh of [row] by [ev], and one with nothing to do. *)
Definition refreshed (ev : Event) (row : EventRow) (d d' : DB) : Prop :=
  exists ids,
    events d' = <[Id ev := refresh_row (refreshBlob (c_proto row) ev
                             (unionSorted (place_ids ev) ids)) row]> (events d)
    /\ event_revisions d' = event_revisions d
    /\ (event_places d' = replaced (Id ev) (unionSorted (place_ids ev) ids) (event_places d)
        \/ event_places d' = event_places d /\ unionSorted (place_ids ev) ids = placesOf d (Id ev))
    /\ same_rest d d'.

Definition nothing_new (ev : Event) (row : EventRow) (d : DB) : Prop :=
  (exists ids, unionSorted (place_ids ev) ids = placesOf d (Id ev))
  /\ enhChangedB (c_proto row) ev = false /\ telChangedB (c_proto row) ev = false
  /\ burnChangedB (c_proto row) ev = false.

Inductive effect : ekind -> DB -> DB -> Prop :=
  | eff_content now ev rev d d' :
      rev = match events d !! Id ev with Some row => u32 (c_revision row + 1) | None => 1 end ->
      (forall row, events d !! Id ev = Some row -> c_content_hash row <> Hash ev) ->
      Id ev <> "" -> written now ev rev d d' -> effect KContent d d'
  | eff_refresh ev row d d' :
      events d !! Id ev = Some row -> c_content_hash row = Hash ev ->
      refreshed ev row d d' -> effect (KRefresh (layer ev)) d d'
  | eff_transition now to observedAt id row ev d d' :
      events d !! id = Some row -> status (c_proto row) <> to ->
      ev = set_revision (u32 (revision (c_proto row) + 1)) (set_ingested_at (Some now)
             (set_observed_at (Some observedAt) (set_status to (c_proto row)))) ->
      (forall r, r ∈ event_revisions d -> r_event_id r = id -> r_revision r <> revision ev) ->
      events d' = <[id := transition_row marshal digest to observedAt now ev row]> (events d) ->
      event_revisions d' = event_revisions d
        ++ [mkRevisionRow id (revision ev) (time_unix observedAt) (time_unix now) ev] ->
      event_places d' = event_places d -> same_rest d d' -> effect KTransition d d'
  | eff_touch d d' :
      (forall id, events d' !! id = events d !! id
        \/ exists t row, events d !! id = Some row /\ events d' !! id = Some (touch_row t row)) ->
      event_revisions d' = event_revisions d -> event_places d' = event_places d ->
      same_rest d d' -> effect KTouch d d'
  | eff_place ps d : effect KPlace d (set_places ps d)
  | eff_sources x d :
      (forall id row, events d !! id = Some row -> c_source_id row ∈ registered d ->
         c_source_id row ∈ (dom x : gset string)) ->
      effect KSources d (set_sources x d).

(** The tables with the refresh counters of the process. *)
Definition bump (k : ekind) (rv : gmap Layer Z) : gmap Layer Z :=
  match k with KRefresh l => <[l := default 0 (rv !! l) + 1]> rv | _ => rv end.

Definition moves (x y : DB * gmap Layer Z) : Prop :=
  exists k, effect k x.1 y.1 /\ y.2 = bump k x.2.

Definition view (s : Tx.St DB Mem) : DB * gmap Layer Z := (Tx.db s, refreshVersions (Tx.mem s)).

(** *** Programs and their effects *)

Lemma matchPlaces_wp ev (Q : list string -> DB -> Mem -> Prop) d c :
  (forall ids c', refreshVersions c' = refreshVersions c -> Q ids d c') ->
  Tx.wp (matchP ev) Q d c.
Proof.
  intros HQ. unfold matchPlaces. destruct (geometry ev ≫= eventGeoOf); [|wp_step; by apply HQ].
  wp_step. unfold loadPlaceGeoms. wp_step. wp_step. destruct (placesGeo c).
  - wp_step. wp_step. by apply HQ.
  - repeat wp_step. by apply HQ.
Qed.

Lemma writeContent_wp now ev rev (Q : unit -> DB -> Mem -> Prop) d c :
  (forall d' c', written now ev rev d d' -> refreshVersions c' = refreshVersions c -> Q tt d' c') ->
  Tx.wp (writeContent marshal digest wildfireBuffer now ev rev) Q d c.
Proof.
  intros HQ. unfold writeContent. wp_step. apply matchPlaces_wp. intros ids c' Hc.
  destruct (ensureGeometryIndex_spec (set_ingested_at (Some now) (set_revision rev ev))) as [g Hg].
  rewrite Hg. set (b := set_place_ids _ _).
  assert (Hb : stored_clone now ev rev ids b) by (by exists g).
  destruct (marshal b); [|wp_step]. wp_step. unfold put_event. wp_step.
  case_bool_decide as Hsrc; simplify_eq. wp_step.
  apply insertRevision_wp. intros Hrev. wp_step.
  apply replaceEventPlaces_wp. intros X ->. apply upsertGeo_wp. intros gm gg.
  apply HQ; [|done]. by exists ids, b.
Qed.

Lemma refreshEventPlaces_wp ev row (Q : bool -> DB -> Mem -> Prop) d c :
  events d !! Id ev = Some row ->
  (forall c', refreshVersions c' = refreshVersions c ->
     (nothing_new ev row d -> Q false d c') /\ forall d', refreshed ev row d d' -> Q true d' c') ->
  Tx.wp (refreshEventPlaces marshal wildfireBuffer ev) Q d c.
Proof.
  intros Erow HQ. unfold refreshEventPlaces. wp_step. apply matchPlaces_wp. intros ids c' Hc.
  wp_step. wp_step. wp_step. wp_step. rewrite Erow. cbn. destruct (HQ c' Hc) as [HQf HQt].
  set (want := unionSorted (place_ids ev) ids).
  destruct (_ && _ && _ && _) eqn:Eany.
  { wp_step. apply HQf. apply andb_prop in Eany as [[[E1 E2]%andb_prop E3]%andb_prop E4].
    rewrite negb_involutive, bool_decide_eq_true in E1.
    split; [by exists ids|]. split_and!; by apply negb_true_iff. }
  wp_step. destruct (bool_decide (want = placesOf d (Id ev))) eqn:Ew; cbn [negb].
  - apply bool_decide_eq_true in Ew. wp_step. destruct (marshal _); [|wp_step].
    wp_step. unfold update_event. wp_step. wp_step. apply HQt. exists ids. cbn.
    split_and!; auto; [by apply alter_lookup_insert|done].
  - apply replaceEventPlaces_wp. intros X ->. destruct (marshal _); [|wp_step].
    wp_step. unfold update_event. wp_step. wp_step. apply HQt. exists ids. cbn.
    split_and!; auto; [by apply alter_lookup_insert|done].
Qed.

(** What [UpsertEvent] promises: the branch, its result and its effect. *)
Definition upsert_post (now : Time) (ev : Event) (d : DB) (x : UpsertResult * bool) (d' : DB) : Prop :=
  match events d !! Id ev with
  | None => x = (mkUpsertResult true 1, false) /\ written now ev 1 d d'
  | Some row =>
      if decide (c_content_hash row = Hash ev) then
        x.1 = mkUpsertResult false (c_revision row)
        /\ if x.2 then refreshed ev row d d' else d' = d /\ nothing_new ev row d
      else
        x = (mkUpsertResult true (u32 (c_revision row + 1)), false)
        /\ written now ev (u32 (c_revision row + 1)) d d'
  end.

Lemma upsertBody_wp now ev d c :
  Tx.wp (upsertBody marshal digest wildfireBuffer now ev)
    (fun x d' c' => refreshVersions c' = refreshVersions c /\ upsert_post now ev d x d') d c.
Proof.
  unfold upsertBody, upsert_post. wp_step. wp_step.
  destruct (events d !! Id ev) as [row|] eqn:Erow; cbn.
  - destruct (decide (c_content_hash row = Hash ev)) as [Hh|Hh].
    + rewrite bool_decide_eq_true_2 by done. wp_step. apply (refreshEventPlaces_wp _ row); [done|].
      intros c' Hc. split; [intros Hn|intros d' Hd]; wp_step; done.
    + rewrite bool_decide_eq_false_2 by done. wp_step. apply writeContent_wp. intros d' c' Hw Hc.
      by wp_step.
  - wp_step. apply writeContent_wp. intros d' c' Hw Hc. by wp_step.
Qed.

Lemma upsert_post_effect now ev d x d' :
  Id ev <> "" -> upsert_post now ev d x d' ->
  (x.2 = false /\ d' = d) \/ (x.2 = false /\ effect KContent d d')
  \/ (x.2 = true /\ effect (KRefresh (layer ev)) d d').
Proof.
  intros Hid. unfold upsert_post. destruct (events d !! Id ev) as [row|] eqn:Erow.
  - case_decide as Hh.
    + intros [_ H]. destruct x.2; [right; right; split; [done|]|left; tauto].
      by eapply eff_refresh.
    + intros [-> Hw]. right; left. split; [done|]. eapply eff_content; [|..|exact Hw]; rewrite ?Erow; try done.
      by intros ? [= <-].
  - intros [-> Hw]. right; left. split; [done|]. eapply eff_content; [|..|exact Hw]; rewrite ?Erow; done.
Qed.

(** *** The operations *)

Lemma keeps_rv_matchPlaces ev rv :
  Tx.keeps (matchP ev) (fun _ c => refreshVersions c = rv).
Proof.
  unfold matchPlaces, loadPlaceGeoms. destruct (_ ≫= _); [|eauto with grid].
  apply Tx.keeps_bind; [|eauto with grid]. apply Tx.keeps_bind; [eauto with grid|].
  intros m. destruct (placesGeo m); [eauto with grid|]. apply Tx.keeps_bind; [eauto with grid|].
  intros l. apply Tx.keeps_bind; [|eauto with grid]. by apply Tx.keeps_put_mem.
Qed.

Lemma keeps_rv_db {A} (m : Store.M A) rv :
  (forall s r s', m s = (r, s') -> Tx.mem s' = Tx.mem s) ->
  Tx.keeps m (fun _ c => refreshVersions c = rv).
Proof. intros H s r s' HI ->%H. done. Qed.

Lemma keeps_rv_exec f rv : Tx.keeps (Tx.exec f : Store.M unit) (fun _ c => refreshVersions c = rv).
Proof. by apply Tx.keeps_exec. Qed.

Lemma keeps_rv_exec_checked e f rv :
  Tx.keeps (Tx.exec_checked e f : Store.M unit) (fun _ c => refreshVersions c = rv).
Proof. by apply Tx.keeps_exec_checked. Qed.

Hint Resolve keeps_rv_matchPlaces keeps_rv_exec keeps_rv_exec_checked : grid.

Ltac keeps_tac :=
  repeat (first
    [ progress eauto with grid
    | apply Tx.keeps_bind; [|intros ?]
    | apply Tx.keeps_foreach; intros ?
    | case_match ]).

Lemma keeps_rv_upsertBody now ev rv :
  Tx.keeps (upsertBody marshal digest wildfireBuffer now ev) (fun _ c => refreshVersions c = rv).
Proof.
  unfold upsertBody, writeContent, refreshEventPlaces, put_event, insertRevision,
    replaceEventPlaces, upsertGeo, update_event. keeps_tac.
Qed.

(** Every run of [UpsertEvent]: a failure leaves the tables and counters as
    they were, a success has [upsert_post] and counts a refresh. *)
Lemma UpsertEvent_run now ev s r s' :
  UpsertEvent marshal digest wildfireBuffer now ev s = (r, s') ->
  match r with
  | inl _ => view s' = view s
  | inr res => Id ev <> "" /\ exists rw, upsert_post now ev (Tx.db s) (res, rw) (Tx.db s')
      /\ refreshVersions (Tx.mem s')
         = if rw then bump (KRefresh (layer ev)) (refreshVersions (Tx.mem s))
           else refreshVersions (Tx.mem s)
  end.
Proof.
  unfold UpsertEvent. case_bool_decide as Hid; [by intros [= <- <-]|].
  unfold Tx.bind at 1. destruct (Tx.inTx _ s) as [[e|[res rw]] s1] eqn:E.
  - intros [= <- <-]. unfold view. f_equal; [by eapply Tx.inTx_err|].
    eapply (Tx.keeps_inTx _ (fun _ c => refreshVersions c = refreshVersions (Tx.mem s)));
      [done|apply keeps_rv_upsertBody|done|exact E].
  - apply (Tx.wp_use _ _ _ _ _ (Tx.wp_inTx _ _ _ _ (upsertBody_wp now ev _ _))) in E as [Hrv Hpost].
    destruct rw; cbn; intros [= <- <-]; cbn; (split; [done|]); eexists; (split; [exact Hpost|]);
      by rewrite Hrv.
Qed.

Lemma transitionEvent_wp to observedAt now id (Q : unit -> DB -> Mem -> Prop) d c :
  Q tt d c -> (forall d', effect KTransition d d' -> Q tt d' c) ->
  Tx.wp (transitionEvent marshal digest to observedAt now id) Q d c.
Proof.
  intros HQ HQ'. unfold transitionEvent. wp_step. wp_step.
  destruct (events d !! id) as [row|] eqn:Erow; cbn; [|by wp_step].
  case_bool_decide; [by wp_step|]. destruct (marshal _); [|wp_step].
  wp_step. unfold update_event. wp_step. apply insertRevision_wp. intros Hrev. apply HQ'.
  eapply eff_transition; cbn; try done. by apply alter_lookup_insert.
Qed.

Lemma TransitionEvents_run now ids to observedAt s r s' :
  TransitionEvents marshal digest now ids to observedAt s = (r, s') ->
  rtc moves (view s) (view s').
Proof.
  unfold TransitionEvents. destruct ids as [|id ids]; [by intros [= _ <-]|].
  set (l := id :: ids). intros Hrun.
  assert (Hrv : refreshVersions (Tx.mem s') = refreshVersions (Tx.mem s)).
  { eapply (Tx.keeps_inTx _ (fun _ c => refreshVersions c = refreshVersions (Tx.mem s)));
      [done| |done|exact Hrun].
    unfold transitionEvent, update_event, insertRevision. keeps_tac. }
  destruct r as [e|[]].
  - apply Tx.inTx_err in Hrun. unfold view. by rewrite Hrun, Hrv.
  - assert (Hwp : Tx.wp (Tx.inTx (Tx.foreach (transitionEvent marshal digest to observedAt now) l))
      (fun _ d' c' => rtc (effect KTransition) (Tx.db s) d') (Tx.db s) (Tx.mem s)).
    { wp_step. apply (Tx.wp_foreach _ (fun _ d' _ => rtc (effect KTransition) (Tx.db s) d'));
        [|done].
      intros pre a d c _ Hd. apply transitionEvent_wp; [done|]. intros. by eapply rtc_r. }
    apply (Tx.wp_use _ _ _ _ _ Hwp) in Hrun. unfold view. rewrite Hrv.
    eapply (rtc_congruence (fun d => (d, refreshVersions (Tx.mem s)))); [|done].
    intros d d' Hd. exists KTransition. done.
Qed.

Lemma TouchSeen_run ids t sb s r s' :
  TouchSeen ids t sb s = (r, s') ->
  view s' = view s \/ (effect KTouch (Tx.db s) (Tx.db s')
                      /\ refreshVersions (Tx.mem s') = refreshVersions (Tx.mem s)).
Proof.
  unfold TouchSeen. destruct ids as [|i ids]; [intros [= _ <-]; by left|]. set (l := i :: ids).
  unfold Tx.bind. destruct (Tx.stmt s) as [[e|[]] s1] eqn:E; apply Tx.stmt_frame in E as [Hd Hm];
    intros [= _ <-]; unfold view; cbn; rewrite ?Hd, ?Hm; [by left|right].
  split; [|done]. apply eff_touch; try done. cbn. intros id. rewrite map_lookup_imap.
  destruct (events (Tx.db s) !! id) as [row|]; cbn; [|by left].
  destruct (stale_seen _ _ _ _); [right|left]; eauto.
Qed.

Lemma UpsertPlace_run p s r s' :
  UpsertPlace p s = (r, s') ->
  view s' = view s \/ (effect KPlace (Tx.db s) (Tx.db s')
                      /\ refreshVersions (Tx.mem s') = refreshVersions (Tx.mem s)).
Proof.
  unfold UpsertPlace. destruct (_ || _); [intros [= _ <-]; by left|]. intros Hrun.
  assert (Hrv : refreshVersions (Tx.mem s') = refreshVersions (Tx.mem s)).
  { eapply (Tx.keeps_inTx _ (fun _ c => refreshVersions c = refreshVersions (Tx.mem s)));
      [done| |done|exact Hrun].
    apply Tx.keeps_bind; [by apply Tx.keeps_exec_checked|]. intros _. by apply Tx.keeps_put_mem. }
  destruct r as [e|[]].
  - left. apply Tx.inTx_err in Hrun. unfold view. by rewrite Hrun, Hrv.
  - right. split; [|done]. revert Hrun. apply (Tx.wp_use _ (fun _ d' _ => effect KPlace (Tx.db s) d')).
    wp_step. wp_step. wp_step. case_match; simplify_eq. wp_step. apply eff_place.
Qed.

(** A transaction whose statements only rewrite the registry. *)
Definition moves_sources (m : Store.M unit) : Prop :=
  (forall rv, Tx.keeps m (fun _ c => refreshVersions c = rv))
  /\ forall d c, Tx.wp m (fun _ d' _ => effect KSources d d') d c.

Lemma moves_sources_run (m : Store.M unit) s r s' :
  moves_sources m -> Tx.inTx m s = (r, s') ->
  view s' = view s \/ (effect KSources (Tx.db s) (Tx.db s')
                      /\ refreshVersions (Tx.mem s') = refreshVersions (Tx.mem s)).
Proof.
  intros [Hk Hm] Hrun.
  assert (Hrv : refreshVersions (Tx.mem s') = refreshVersions (Tx.mem s)).
  { eapply (Tx.keeps_inTx _ (fun _ c => refreshVersions c = refreshVersions (Tx.mem s)));
      [done|apply Hk|done|exact Hrun]. }
  destruct r as [e|[]]; [left; apply Tx.inTx_err in Hrun; unfold view; by rewrite Hrun, Hrv|right].
  split; [|done]. exact (Tx.wp_use _ _ _ _ _ (Tx.wp_inTx _ _ _ _ (Hm _ _)) Hrun).
Qed.

Lemma effect_sources_grow x d :
  dom (sources d) ⊆ (dom x : gset string) -> effect KSources d (set_sources x d).
Proof. intros H. apply eff_sources. unfold registered. set_solver. Qed.

Lemma SeedSources_moves seeds : moves_sources (Tx.foreach seedOne seeds).
Proof.
  split.
  - intros rv. unfold seedOne. keeps_tac.
  - intros d c. eapply Tx.wp_mono; [|apply (Tx.wp_foreach _ (fun _ d' _ =>
      exists x, d' = set_sources x d /\ dom (sources d) ⊆ (dom x : gset string)))].
    + intros _ d' c' (x & -> & Hx). by apply effect_sources_grow.
    + intros pre a d' c' _ (x & -> & Hx). unfold seedOne. case_bool_decide; [wp_step|]. wp_step.
      eexists. split; [done|]. cbn. rewrite dom_insert_L. set_solver.
    + exists (sources d). by destruct d.
Qed.

Lemma DeleteSource_moves id :
  moves_sources (Tx.exec_checked "FOREIGN KEY constraint failed" (fun d =>
    if referenced d id && bool_decide (id ∈ registered d) then None
    else Some (set_sources (delete id (sources d)) d))).
Proof.
  split; [intros rv; keeps_tac|]. intros d c. wp_step. case_match eqn:E; simplify_eq.
  apply eff_sources. intros k row Hrow Hreg. rewrite dom_delete_L, elem_of_difference, elem_of_singleton.
  split; [done|]. intros <-. apply andb_false_iff in E as [E|E].
  - assert (Ht : referenced d (c_source_id row) = true) by (apply referenced_spec; eauto). congruence.
  - by apply bool_decide_eq_false in E.
Qed.

Lemma RecordAttempt_run now id e s r s' :
  RecordAttempt now id e s = (r, s') ->
  view s' = view s \/ (effect KSources (Tx.db s) (Tx.db s')
                      /\ refreshVersions (Tx.mem s') = refreshVersions (Tx.mem s)).
Proof.
  apply moves_sources_run. split; [intros rv; keeps_tac|]. intros d c. wp_step. wp_step.
  destruct (sources d !! id); [|wp_step]. wp_step. apply effect_sources_grow. by rewrite dom_alter_L.
Qed.

(** ** The table invariant *)

(** What the hash covers, but for the geometry index the store backfills. *)
Definition content_of (e : Event) : Event := set_geometry None (normalize e).

Definition revs (d : DB) (id : string) : list Z :=
  r_revision <$> filter (fun r => r_event_id r = id) (event_revisions d).

(** The columns of a row are derived from its blob. *)
Record RowOk (d : DB) (id : string) (row : EventRow) : Prop := {
  row_id : Id (c_proto row) = id /\ id <> "";
  row_layer : c_layer row = layer (c_proto row);
  row_severity : c_severity row = severity (c_proto row);
  row_status : c_status row = status (c_proto row);
  row_source : c_source_id row = GetSourceId (c_proto row) /\ c_source_id row ∈ registered d;
  row_effective : c_effective row = unixOrNil (effective (c_proto row));
  row_expires : c_expires row = unixOrNil (expires (c_proto row));
  row_observed : forall t, observed_at (c_proto row) = Some t -> c_observed_at row = time_unix t;
  row_revision : c_revision row = revision (c_proto row) /\ 1 <= c_revision row;
  row_places : Sorted str_le (place_ids (c_proto row)) /\ NoDup (place_ids (c_proto row));
  row_hash : exists e, c_content_hash row = Hash e /\ content_of e = content_of (c_proto row);
}.

Record DbOk (d : DB) : Prop := {
  ok_row : forall id row, events d !! id = Some row -> RowOk d id row;
  ok_history : forall id row, events d !! id = Some row -> revs d id = seqZ 1 (c_revision row);
  ok_orphans : forall r, r ∈ event_revisions d -> is_Some (events d !! r_event_id r);
  ok_snapshots : forall r, r ∈ event_revisions d ->
    Id (r_proto r) = r_event_id r /\ revision (r_proto r) = r_revision r;
  ok_places : forall id p, (id, p) ∈ event_places d
    <-> exists row, events d !! id = Some row /\ p ∈ place_ids (c_proto row);
}.

Lemma unionSorted_spec a b :
  Sorted str_le (unionSorted a b) /\ NoDup (unionSorted a b)
  /\ forall p, p ∈ unionSorted a b <-> p <> "" /\ (p ∈ a \/ p ∈ b).
Proof.
  unfold unionSorted. split_and!; [apply sort_strings_sorted|..].
  - rewrite sort_strings_perm. apply NoDup_remove_dups.
  - intros p. rewrite sort_strings_perm, elem_of_remove_dups, list_elem_of_filter, elem_of_app. done.
Qed.

Lemma elem_of_replaced id l X k p :
  (k, p) ∈ replaced id l X <-> (k = id /\ p ∈ l) \/ (k <> id /\ (k, p) ∈ X).
Proof.
  unfold replaced, places_of. rewrite elem_of_union, elem_of_list_to_set, elem_of_filter, list_elem_of_fmap.
  cbn. split.
  - intros [(q & [= -> ->] & ?)|?]; auto.
  - intros [[-> ?]|?]; eauto.
Qed.

Lemma elem_of_placesOf d id p : p ∈ placesOf d id <-> (id, p) ∈ event_places d.
Proof.
  unfold placesOf. rewrite sort_strings_perm, list_elem_of_fmap. split.
  - intros ([k q] & -> & Hx). rewrite elem_of_elements, elem_of_filter in Hx. cbn in *. by destruct Hx as [-> ?].
  - intros Hp. exists (id, p). rewrite elem_of_elements, elem_of_filter. done.
Qed.

Lemma revs_app d d' r id :
  event_revisions d' = event_revisions d ++ [r] ->
  revs d' id = revs d id ++ (if decide (r_event_id r = id) then [r_revision r] else []).
Proof.
  intros He. unfold revs. rewrite He, filter_app, fmap_app. f_equal.
  case_decide; [by rewrite filter_cons_True|by rewrite filter_cons_False].
Qed.

Lemma revs_same d d' id : event_revisions d' = event_revisions d -> revs d' id = revs d id.
Proof. unfold revs. by intros ->. Qed.

Lemma revs_orphan d id : DbOk d -> events d !! id = None -> revs d id = [].
Proof.
  intros Hok Hn. unfold revs. destruct (filter _ _) as [|r l] eqn:E; [done|].
  assert (Hr : r ∈ filter (fun r => r_event_id r = id) (event_revisions d)) by (rewrite E; left).
  apply list_elem_of_filter in Hr as [<- Hr]. apply (ok_orphans _ Hok) in Hr as [? Hr]. congruence.
Qed.

Lemma revision_bound d id row :
  DbOk d -> events d !! id = Some row -> c_revision row <= Z.of_nat (length (event_revisions d)).
Proof.
  intros Hok Hrow. pose proof (ok_history _ Hok _ _ Hrow) as Hh.
  apply (f_equal length) in Hh. unfold revs in Hh. rewrite length_fmap, length_seqZ in Hh.
  pose proof (length_filter (fun r => r_event_id r = id) (event_revisions d)). lia.
Qed.

Lemma seqZ_next n : 0 <= n -> seqZ 1 (n + 1) = seqZ 1 n ++ [n + 1].
Proof.
  intros Hn. replace (n + 1) with (Z.of_nat (S (Z.to_nat n))) at 1 by lia.
  rewrite seqZ_S. replace (Z.of_nat (Z.to_nat n)) with n by lia. do 2 f_equal. lia.
Qed.

(** *** Every effect preserves it *)

Hypothesis collision_free : forall e1 e2, Hash e1 = Hash e2 -> normalize e1 = normalize e2.

(** Fewer revisions than an uint32 counts. *)
Definition small (d : DB) : Prop := Z.of_nat (length (event_revisions d)) < 2 ^ 32 - 1.

Lemma stored_clone_fields now ev rev ids b :
  stored_clone now ev rev ids b ->
  Id b = Id ev /\ layer b = layer ev /\ severity b = severity ev /\ status b = status ev
  /\ GetSourceId b = GetSourceId ev /\ effective b = effective ev /\ expires b = expires ev
  /\ observed_at b = observed_at ev /\ revision b = rev
  /\ place_ids b = unionSorted (place_ids ev) ids /\ content_of b = content_of ev.
Proof. by intros (g & ->). Qed.

(** The rows of the events a write does not touch. *)
Lemma RowOk_frame d d' id row : registered d' = registered d -> RowOk d id row -> RowOk d' id row.
Proof. intros Hs [??? ? [? ?] ??????]. constructor; auto. by rewrite Hs. Qed.

Lemma content_next_rev d ev rev :
  DbOk d -> small d ->
  rev = match events d !! Id ev with Some row => u32 (c_revision row + 1) | None => 1 end ->
  1 <= rev /\ revs d (Id ev) ++ [rev] = seqZ 1 rev.
Proof.
  intros Hok Hsmall ->. destruct (events d !! Id ev) as [row|] eqn:E.
  - pose proof (revision_bound _ _ _ Hok E). pose proof (ok_row _ Hok _ _ E) as Hrow.
    destruct (row_revision _ _ _ Hrow) as [_ ?]. unfold small in Hsmall. unfold u32.
    rewrite Z.mod_small by lia. split; [lia|]. rewrite (ok_history _ Hok _ _ E), seqZ_next by lia. done.
  - by rewrite (revs_orphan _ _ Hok E).
Qed.

Lemma effect_content_ok d d' : DbOk d -> small d -> effect KContent d d' -> DbOk d'.
Proof.
  intros Hok Hsmall He. inversion He as [now ev rev ? ? Hrev Hh Hne Hw| | | | |]; subst.
  destruct Hw as (ids & b & Hb & Hsrc & Hfresh & Hev & Hre & Hpl & Hs).
  destruct (content_next_rev d ev _ Hok Hsmall eq_refl) as [H1 Hseq].
  set (rev := match _ with Some _ => _ | None => _ end) in *. clearbody rev.
  destruct (stored_clone_fields _ _ _ _ _ Hb) as
    (Bid & Bl & Bsev & Bst & Bsrc & Beff & Bexp & Bobs & Brev & Bpl & Bc).
  destruct (unionSorted_spec (place_ids ev) ids) as (Hsort & Hnd & _).
  constructor.
  - intros id row. rewrite Hev. destruct (decide (id = Id ev)) as [-> |Hid].
    + rewrite lookup_insert_eq. intros [= <-]. constructor; cbn; try done.
      * by rewrite Bsrc, Hs.
      * intros t Ht. by rewrite Ht.
      * by rewrite Bpl.
      * by exists ev.
    + rewrite lookup_insert_ne by done. intros Hrow. eapply RowOk_frame; [done|].
      by apply (ok_row _ Hok).
  - intros id row. rewrite Hev, (revs_app _ _ _ id Hre). cbn.
    destruct (decide (id = Id ev)) as [-> |Hid].
    + rewrite lookup_insert_eq, decide_True by done. intros [= <-]. done.
    + rewrite lookup_insert_ne, decide_False, app_nil_r by done. apply (ok_history _ Hok).
  - intros r. rewrite Hre, elem_of_app, list_elem_of_singleton, Hev. intros [Hr| ->]; cbn.
    + destruct (decide (r_event_id r = Id ev)) as [-> |?]; [by rewrite lookup_insert_eq|].
      rewrite lookup_insert_ne by done. by apply (ok_orphans _ Hok).
    + by rewrite lookup_insert_eq.
  - intros r. rewrite Hre, elem_of_app, list_elem_of_singleton. intros [Hr| ->]; cbn; [|done].
    by apply (ok_snapshots _ Hok).
  - intros id p. rewrite Hpl, elem_of_replaced, Hev, (ok_places _ Hok). split.
    + intros [[-> Hp]|[Hid (row & Hrow & Hp)]].
      * eexists. by rewrite lookup_insert_eq.
      * exists row. by rewrite lookup_insert_ne.
    + intros (row & Hrow & Hp). destruct (decide (id = Id ev)) as [-> |Hid].
      * rewrite lookup_insert_eq in Hrow. simplify_eq. by left.
      * rewrite lookup_insert_ne in Hrow by done. eauto.
Qed.

(** A refresh: the incoming event hashes like the stored row. *)
Lemma refresh_content d ev row want :
  RowOk d (Id ev) row -> c_content_hash row = Hash ev ->
  layer ev = layer (c_proto row)
  /\ content_of (refreshBlob (c_proto row) ev want) = content_of (c_proto row).
Proof using collision_free digest marshal.
  intros Hrow Hh. destruct (row_hash _ _ _ Hrow) as (e & He & Hc).
  assert (Hn : content_of ev = content_of (c_proto row)).
  { rewrite <-Hc. unfold content_of. f_equal. apply collision_free. congruence. }
  split; [by apply (f_equal layer) in Hn|].
  unfold content_of. f_equal. apply refreshBlob_normalize.
  intros i h Hi Hd. apply (f_equal detail) in Hn. cbn in Hn.
  rewrite (GetBurnStatus_Some _ _ Hi), (GetBurnStatus_Some _ _ Hd) in Hn. cbn in *. congruence.
Qed.

Lemma effect_refresh_ok l d d' : DbOk d -> effect (KRefresh l) d d' -> DbOk d'.
Proof using collision_free digest marshal.
  intros Hok He. inversion He as [|ev row ? ? Hrow Hh Hw| | | |]; subst.
  destruct Hw as (ids & Hev & Hre & Hpl & Hs).
  pose proof (ok_row _ Hok _ _ Hrow) as Hrowok.
  destruct (refresh_content d ev row (unionSorted (place_ids ev) ids) Hrowok Hh) as [_ Hcont].
  destruct (refreshBlob_keyed (c_proto row) ev (unionSorted (place_ids ev) ids))
    as ((K1 & K2 & K3 & K4 & K5 & K6 & K7 & K8) & Kp).
  destruct (unionSorted_spec (place_ids ev) ids) as (Hsort & Hnd & _).
  set (want := unionSorted (place_ids ev) ids) in *.
  assert (Hpl' : forall id p, (id, p) ∈ event_places d'
                 <-> (id = Id ev /\ p ∈ want) \/ (id <> Id ev /\ (id, p) ∈ event_places d)).
  { intros id p. destruct Hpl as [-> |[-> Hw]]; [apply elem_of_replaced|].
    destruct (decide (id = Id ev)) as [-> |]; [|intuition congruence].
    rewrite Hw, elem_of_placesOf. intuition congruence. }
  destruct Hrowok. constructor.
  - intros id r. rewrite Hev. destruct (decide (id = Id ev)) as [-> |Hid].
    + rewrite lookup_insert_eq. intros [= <-]. constructor; cbn; rewrite ?K1, ?K2, ?K3, ?K4, ?K5, ?K6, ?K7, ?K8, ?Kp; try done.
      * by rewrite Hs.
      * intros t ->. done.
      * destruct row_hash0 as (e & ? & ?). exists e. split; [done|]. congruence.
    + rewrite lookup_insert_ne by done. intros ?. eapply RowOk_frame; [done|].
      by apply (ok_row _ Hok).
  - intros id r. rewrite Hev, (revs_same _ _ _ Hre). destruct (decide (id = Id ev)) as [-> |Hid].
    + rewrite lookup_insert_eq. intros [= <-]. exact (ok_history _ Hok _ _ Hrow).
    + rewrite lookup_insert_ne by done. apply (ok_history _ Hok).
  - intros r. rewrite Hre, Hev. intros Hr%(ok_orphans _ Hok).
    destruct (decide (r_event_id r = Id ev)) as [-> |?]; [by rewrite lookup_insert_eq|].
    by rewrite lookup_insert_ne.
  - intros r. rewrite Hre. apply (ok_snapshots _ Hok).
  - intros id p. rewrite Hpl', Hev, (ok_places _ Hok). split.
    + intros [[-> Hp]|[Hid (r & Hr & Hp)]].
      * eexists. rewrite lookup_insert_eq. split; [done|]. cbn. by rewrite Kp.
      * exists r. by rewrite lookup_insert_ne.
    + intros (r & Hr & Hp). destruct (decide (id = Id ev)) as [-> |Hid].
      * rewrite lookup_insert_eq in Hr. simplify_eq. cbn in Hp. rewrite Kp in Hp. by left.
      * rewrite lookup_insert_ne in Hr by done. eauto.
Qed.

Lemma effect_transition_ok d d' : DbOk d -> small d -> effect KTransition d d' -> DbOk d'.
Proof.
  intros Hok Hsmall He. inversion He as [| |now to obs id0 row ev ? ? Hrow Hst Hevd Hfresh Hev Hre Hpl Hs| | |]; subst.
  pose proof (ok_row _ Hok _ _ Hrow) as Hrowok. pose proof (revision_bound _ _ _ Hok Hrow) as Hb.
  destruct Hrowok. destruct row_revision0 as [Hr1 Hr2]. unfold small in Hsmall.
  cbn in Hre, Hev. rewrite <-Hr1 in Hre, Hev. unfold u32 in Hre, Hev. rewrite Z.mod_small in Hre, Hev by lia.
  set (ev := set_revision _ _) in Hre, Hev.
  constructor.
  - intros id r. rewrite Hev. destruct (decide (id = id0)) as [-> |Hid].
    + rewrite lookup_insert_eq. intros [= <-]. constructor; cbn; try done.
      * by rewrite Hs.
      * by intros t [= <-].
      * lia.
      * exists ev. done.
    + rewrite lookup_insert_ne by done. intros ?. eapply RowOk_frame; [done|].
      by apply (ok_row _ Hok).
  - intros id r. rewrite Hev, (revs_app _ _ _ id Hre). cbn.
    destruct (decide (id = id0)) as [-> |Hid].
    + rewrite lookup_insert_eq, decide_True by done. intros [= <-]. cbn.
      rewrite (ok_history _ Hok _ _ Hrow). by rewrite seqZ_next by lia.
    + rewrite lookup_insert_ne, decide_False, app_nil_r by done. apply (ok_history _ Hok).
  - intros r. rewrite Hre, elem_of_app, list_elem_of_singleton, Hev. intros [Hr| ->]; cbn.
    + destruct (decide (r_event_id r = id0)) as [-> |?]; [by rewrite lookup_insert_eq|].
      rewrite lookup_insert_ne by done. by apply (ok_orphans _ Hok).
    + by rewrite lookup_insert_eq.
  - intros r. rewrite Hre, elem_of_app, list_elem_of_singleton. intros [Hr| ->]; cbn; [|by destruct row_id0].
    by apply (ok_snapshots _ Hok).
  - intros id p. rewrite Hpl, Hev, (ok_places _ Hok). destruct (decide (id = id0)) as [-> |Hid].
    + rewrite lookup_insert_eq, Hrow. split; intros (r & [= <-] & Hp); eexists; split; done.
    + by rewrite lookup_insert_ne.
Qed.

Lemma effect_touch_ok d d' : DbOk d -> effect KTouch d d' -> DbOk d'.
Proof.
  intros Hok He. inversion He as [| | |? ? Hev Hre Hpl Hs| |]; subst.
  assert (Hrow : forall id r, events d' !! id = Some r ->
    exists r0, events d !! id = Some r0 /\ c_proto r = c_proto r0 /\ c_revision r = c_revision r0
    /\ (RowOk d id r0 -> RowOk d id r)).
  { intros id r Hr. destruct (Hev id) as [E|(t & r0 & Hr0 & E)]; rewrite E in Hr; simplify_eq.
    - eauto.
    - exists r0. split_and!; try done. intros []. by constructor. }
  constructor.
  - intros id r (r0 & Hr0 & _ & _ & H)%Hrow. eapply RowOk_frame; [done|].
    apply H. by apply (ok_row _ Hok).
  - intros id r (r0 & Hr0 & _ & -> & _)%Hrow. rewrite (revs_same _ _ _ Hre). by apply (ok_history _ Hok).
  - intros r. rewrite Hre. intros [x Hr]%(ok_orphans _ Hok).
    destruct (Hev (r_event_id r)) as [-> |(t & r0 & _ & ->)]; eauto.
  - intros r. rewrite Hre. apply (ok_snapshots _ Hok).
  - intros id p. rewrite Hpl, (ok_places _ Hok). split.
    + intros (r0 & Hr0 & Hp). destruct (Hev id) as [E|(t & r1 & Hr1 & E)]; rewrite E.
      * eauto.
      * eexists. split; [done|]. cbn. congruence.
    + intros (r & (r0 & Hr0 & Hpr & _)%Hrow & Hp). exists r0. by rewrite <-Hpr.
Qed.

Lemma effect_ok k d d' : DbOk d -> small d -> effect k d d' -> DbOk d'.
Proof using collision_free digest marshal.
  intros Hok Hs He. destruct k; eauto using effect_content_ok, effect_refresh_ok,
    effect_transition_ok, effect_touch_ok.
  - inversion He; subst. destruct Hok as [Hr ? ? ? ?]. constructor; try done.
    intros id row Hrow. eapply RowOk_frame; [|by apply Hr]. done.
  - inversion He as [| | | | |x ? Hx]; subst. destruct Hok as [Hr ? ? ? ?]. constructor; try done.
    intros id row Hrow. destruct (Hr _ _ Hrow) as [??? ? [? Hreg] ??????]. constructor; auto.
    split; [done|]. by eapply Hx.
Qed.

Lemma effect_length k d d' :
  effect k d d' -> (length (event_revisions d) <= length (event_revisions d'))%nat.
Proof.
  intros He. inversion He as [? ? ? ? ? ? ? ? Hw|? ? ? ? ? ? Hw|
    ? ? ? ? ? ? ? ? ? ? ? ? ? Hr|? ? ? Hr| |]; subst;
    [destruct Hw as (? & ? & _ & _ & _ & _ & Hr & _)|destruct Hw as (? & _ & Hr & _)|..];
    rewrite ?Hr, ?length_app; cbn; lia.
Qed.

(** ** Runs of operations *)

Inductive op :=
  | OpUpsert (now : Time) (ev : Event)
  | OpTransition (now : Time) (ids : list string) (to : EventStatus) (observedAt : Time)
  | OpTouch (ids : list string) (t staleBefore : Time)
  | OpPlace (p : Place)
  | OpSeed (seeds : list SourceSeed)
  | OpAttempt (now : Time) (id : string) (attemptErr : option string)
  | OpDelete (id : string).

Definition run_op (o : op) : Store.M unit :=
  match o with
  | OpUpsert now ev => UpsertEvent marshal digest wildfireBuffer now ev ;;; Tx.ret tt
  | OpTransition now ids to at_ => TransitionEvents marshal digest now ids to at_
  | OpTouch ids t sb => TouchSeen ids t sb ;;; Tx.ret tt
  | OpPlace p => UpsertPlace p
  | OpSeed seeds => SeedSources seeds
  | OpAttempt now id e => RecordAttempt now id e
  | OpDelete id => DeleteSource id
  end.

(** Each operation may fail; the next one starts from what it left. *)
Definition run_ops (os : list op) (s : Tx.St DB Mem) : Tx.St DB Mem :=
  foldl (fun s o => (run_op o s).2) s os.

Lemma bind_ret_snd {A} (m : Store.M A) s : (Tx.bind m (fun _ => Tx.ret tt) s).2 = (m s).2.
Proof. unfold Tx.bind. by destruct (m s) as [[|] ?]. Qed.

Lemma run_op_moves o s : rtc moves (view s) (view (run_op o s).2).
Proof.
  destruct o; cbn; rewrite ?bind_ret_snd.
  - destruct (UpsertEvent _ _ _ _ _ s) as [r s'] eqn:E. cbn.
    apply UpsertEvent_run in E. destruct r as [e|res]; [by rewrite E|].
    destruct E as (Hid & rw & Hpost & Hv).
    destruct (upsert_post_effect _ _ _ _ _ Hid Hpost) as [[Hrw Hd]|[[Hrw He]|[Hrw He]]]; cbn in Hrw;
      subst rw; [unfold view; by rewrite Hd, Hv|..];
      apply rtc_once; (eexists; split; [exact He|]); cbn; by rewrite Hv.
  - destruct (TransitionEvents _ _ _ _ _ _ s) as [r s'] eqn:E. by eapply TransitionEvents_run.
  - destruct (TouchSeen _ _ _ s) as [r s'] eqn:E. cbn.
    destruct (TouchSeen_run _ _ _ _ _ _ E) as [->|[He Hv]]; [done|].
    apply rtc_once. eexists. split; [exact He|]. cbn. by rewrite Hv.
  - destruct (UpsertPlace _ s) as [r s'] eqn:E. cbn.
    destruct (UpsertPlace_run _ _ _ _ E) as [->|[He Hv]]; [done|].
    apply rtc_once. eexists. split; [exact He|]. cbn. by rewrite Hv.
  - destruct (SeedSources _ s) as [r s'] eqn:E. cbn.
    destruct (moves_sources_run _ _ _ _ (SeedSources_moves _) E) as [->|[He Hv]]; [done|].
    apply rtc_once. eexists. split; [exact He|]. cbn. by rewrite Hv.
  - destruct (RecordAttempt _ _ _ s) as [r s'] eqn:E. cbn.
    destruct (RecordAttempt_run _ _ _ _ _ _ E) as [->|[He Hv]]; [done|].
    apply rtc_once. eexists. split; [exact He|]. cbn. by rewrite Hv.
  - destruct (DeleteSource _ s) as [r s'] eqn:E. cbn.
    destruct (moves_sources_run _ _ _ _ (DeleteSource_moves _) E) as [->|[He Hv]]; [done|].
    apply rtc_once. eexists. split; [exact He|]. cbn. by rewrite Hv.
Qed.

Lemma run_ops_moves os s : rtc moves (view s) (view (run_ops os s)).
Proof.
  revert s. induction os as [|o os IH]; intros s; cbn; [done|].
  etrans; [apply run_op_moves|apply IH].
Qed.

Lemma moves_length x y :
  rtc moves x y -> (length (event_revisions x.1) <= length (event_revisions y.1))%nat.
Proof.
  induction 1 as [|x y z (k & He & _) _ IH]; [done|]. pose proof (effect_length _ _ _ He). lia.
Qed.

Lemma moves_ok x y : rtc moves x y -> DbOk x.1 -> small y.1 -> DbOk y.1.
Proof using collision_free digest marshal.
  induction 1 as [|x y z (k & He & _) Hyz IH]; [done|]. intros Hx Hz. apply IH; [|done].
  eapply effect_ok; [exact Hx| |exact He]. pose proof (moves_length _ _ Hyz).
  pose proof (effect_length _ _ _ He). unfold small in *. lia.
Qed.

(** *** Stamps *)

(** A row's stamp only grows, and a blob that changed has a greater stamp. *)
Definition advances (r r' : EventRow) : Prop :=
  c_revision r <= c_revision r' /\ c_refreshes r <= c_refreshes r'
  /\ (stamp_of r = stamp_of r' -> c_proto r = c_proto r').

Lemma advances_refl r : advances r r.
Proof. by split_and!. Qed.

Lemma advances_trans a b c : advances a b -> advances b c -> advances a c.
Proof.
  intros (H1 & H2 & H3) (H4 & H5 & H6). split_and!; [lia..|]. unfold stamp_of in *.
  intros [= Hr Hf]. rewrite H3, H6; [done|f_equal; lia..].
Qed.

Lemma effect_advances k d d' id row :
  DbOk d -> small d -> effect k d d' -> events d !! id = Some row ->
  exists row', events d' !! id = Some row' /\ advances row row'.
Proof.
  intros Hok Hsmall He Hrow. pose proof (revision_bound _ _ _ Hok Hrow) as Hb.
  pose proof (ok_row _ Hok _ _ Hrow) as Hrowok. destruct (row_revision _ _ _ Hrowok) as [Hr1 Hr2].
  unfold small in Hsmall. inversion He as [now ev rev ? ? Hrev _ _ (ids & b & _ & _ & _ & Hev & _)
    |ev r ? ? Hr _ (ids & Hev & _)|now to obs id0 r ev ? ? Hr _ Hevd _ Hev|? ? Hev| |]; subst.
  - rewrite Hev. destruct (decide (id = Id ev)) as [-> |?].
    + rewrite lookup_insert_eq, Hrow. eexists. split; [done|]. unfold advances, stamp_of. cbn.
      unfold u32. rewrite Z.mod_small by lia. split_and!; [lia..|]. intros [=]; lia.
    + rewrite lookup_insert_ne by done. eauto using advances_refl.
  - rewrite Hev. destruct (decide (id = Id ev)) as [-> |?].
    + rewrite lookup_insert_eq. simplify_eq. eexists. split; [done|]. unfold advances, stamp_of. cbn.
      split_and!; [lia..|]. intros [=]; lia.
    + rewrite lookup_insert_ne by done. eauto using advances_refl.
  - rewrite Hev. destruct (decide (id = id0)) as [-> |?].
    + rewrite lookup_insert_eq. simplify_eq. eexists. split; [done|]. unfold advances, stamp_of. cbn.
      rewrite <-Hr1. unfold u32. rewrite Z.mod_small by lia. split_and!; [lia..|]. intros [=]; lia.
    + rewrite lookup_insert_ne by done. eauto using advances_refl.
  - destruct (Hev id) as [->|(t & r & Hr & ->)]; [eauto using advances_refl|]. simplify_eq.
    eexists. split; [done|]. by split_and!.
  - eauto using advances_refl.
  - eauto using advances_refl.
Qed.

Lemma moves_advances x y id row :
  rtc moves x y -> DbOk x.1 -> small y.1 -> events x.1 !! id = Some row ->
  exists row', events y.1 !! id = Some row' /\ advances row row'.
Proof using collision_free digest marshal.
  intros Hr. revert row. induction Hr as [|x y z (k & He & _) Hyz IH]; intros row Hx Hz Hrow.
  { eauto using advances_refl. }
  assert (Hsx : small x.1).
  { pose proof (moves_length _ _ Hyz). pose proof (effect_length _ _ _ He). unfold small in *. lia. }
  destruct (effect_advances _ _ _ _ _ Hx Hsx He Hrow) as (row1 & Hrow1 & H1).
  destruct (IH row1) as (row2 & ? & ?); [by eapply effect_ok|done..|]. eauto using advances_trans.
Qed.

(** *** Versions *)

Lemma moves_sum_mono x y layers :
  rtc moves x y -> refresh_sum x.2 layers <= refresh_sum y.2 layers.
Proof.
  induction 1 as [|x y z (k & _ & Hb) _ IH]; [done|]. etrans; [|exact IH]. rewrite Hb.
  destruct k as [|l| | | |]; cbn; try lia. rewrite refresh_sum_bump. case_decide; lia.
Qed.

(** The events of some layers, by id, with their bodies. *)
Definition bodies (layers : list Layer) (d : DB) (id : string) : option Event :=
  row ← events d !! id;
  if decide (covers layers (layer (c_proto row))) then Some (c_proto row) else None.

Lemma effect_bodies k d d' layers :
  DbOk d -> effect k d d' -> length (event_revisions d') = length (event_revisions d) ->
  (forall l, k = KRefresh l -> ~ covers layers l) ->
  forall id, bodies layers d' id = bodies layers d id.
Proof using collision_free digest marshal.
  intros Hok He Hlen Hk id. unfold bodies.
  inversion He as [now ev rev ? ? _ _ _ (ids & b & _ & _ & _ & _ & Hre & _)|ev r ? ? Hr Hh (ids & Hev & _)
    |now to obs id0 r ev ? ? _ _ _ _ _ Hre|? ? Hev| |]; subst.
  - rewrite Hre, length_app in Hlen. cbn in Hlen. lia.
  - rewrite Hev. destruct (decide (id = Id ev)) as [-> |?]; [|by rewrite lookup_insert_ne].
    rewrite lookup_insert_eq, Hr. cbn.
    destruct (refresh_content d ev r (unionSorted (place_ids ev) ids)) as [Hl _];
      [by apply (ok_row _ Hok)|done|].
    destruct (refreshBlob_keyed (c_proto r) ev (unionSorted (place_ids ev) ids)) as [(_ & -> & _) _].
    rewrite <-Hl. by rewrite !decide_False by eauto.
  - rewrite Hre, length_app in Hlen. cbn in Hlen. lia.
  - destruct (Hev id) as [->|(t & r & -> & ->)]; done.
  - done.
  - done.
Qed.

Lemma moves_bodies x y layers :
  rtc moves x y -> DbOk x.1 -> small y.1 ->
  length (event_revisions y.1) = length (event_revisions x.1) ->
  refresh_sum y.2 layers = refresh_sum x.2 layers ->
  forall id, bodies layers y.1 id = bodies layers x.1 id.
Proof using collision_free digest marshal.
  induction 1 as [|x y z (k & He & Hb) Hyz IH]; intros Hx Hz Hlen Hsum id; [done|].
  pose proof (moves_length _ _ Hyz) as H1. pose proof (effect_length _ _ _ He) as H2.
  pose proof (moves_sum_mono _ _ layers Hyz) as H3.
  assert (H4 : refresh_sum x.2 layers <= refresh_sum y.2 layers).
  { apply (moves_sum_mono x y). apply rtc_once. by exists k. }
  assert (Hsx : small x.1) by (unfold small in *; lia).
  rewrite IH; [|by eapply effect_ok|done|lia|lia].
  eapply effect_bodies; [done|exact He|lia|]. intros l -> Hc.
  rewrite Hb in H3, H4. cbn in H3, H4. rewrite refresh_sum_bump, decide_True in H3 by done. lia.
Qed.

End Spec.

(** ** Properties *)

Section Properties.
Context {MK : MathKernel} {JK : JsonKernel}.
Variable marshal : Event -> option string.
Variable digest : string -> string.
Variable wildfireBuffer : float64.
Hypothesis collision_free : forall e1 e2,
  ContentHash marshal digest e1 = ContentHash marshal digest e2 -> normalize e1 = normalize e2.

(** C2: the tables stay well formed through any sequence of upserts, lifecycle
    transitions, liveness stamps, place edits, source seeding, health and
    retirement, whichever statements fail:
    columns agree with the blob, an event's history is exactly the revisions
    1..n with n its current one, every attachment row mirrors the blob, and
    the stored hash is the hash of the stored content. *)
Theorem store_invariant os s :
  DbOk marshal digest (Tx.db s) ->
  small (Tx.db (run_ops marshal digest wildfireBuffer os s)) ->
  DbOk marshal digest (Tx.db (run_ops marshal digest wildfireBuffer os s)).
Proof using All.
  intros Hok Hs. exact (moves_ok _ _ collision_free _ _ (run_ops_moves _ _ _ os s) Hok Hs).
Qed.

(** C3: (revision, refreshes) identifies an event's body: whatever operations
    ran in between, and whichever failed, an equal stamp means an equal blob
    (and events are never lost), so an event ETag never yields a stale 304. *)
Theorem stamp_identifies_body os s id row :
  DbOk marshal digest (Tx.db s) ->
  small (Tx.db (run_ops marshal digest wildfireBuffer os s)) ->
  events (Tx.db s) !! id = Some row ->
  exists row', events (Tx.db (run_ops marshal digest wildfireBuffer os s)) !! id = Some row'
    /\ (stamp_of row = stamp_of row' -> c_proto row = c_proto row').
Proof using All.
  intros Hok Hs Hrow.
  destruct (moves_advances _ _ collision_free _ _ _ row (run_ops_moves _ _ wildfireBuffer os s)
    Hok Hs Hrow) as (row' & Hr & _ & _ & H). eauto.
Qed.

(** C8: the pair (DataVersion, RefreshVersion of some layers) is a sound list
    validator: when it is unchanged, the events of those layers (of all
    layers when none is named) and their bodies are unchanged. *)
Theorem list_version_sound os s layers :
  let s' := run_ops marshal digest wildfireBuffer os s in
  DbOk marshal digest (Tx.db s) -> small (Tx.db s') ->
  length (event_revisions (Tx.db s')) = length (event_revisions (Tx.db s)) ->
  refresh_sum (refreshVersions (Tx.mem s')) layers = refresh_sum (refreshVersions (Tx.mem s)) layers ->
  forall id, bodies layers (Tx.db s') id = bodies layers (Tx.db s) id.
Proof using All.
  intros s' Hok Hs Hlen Hsum.
  exact (moves_bodies _ _ collision_free _ _ layers (run_ops_moves _ _ wildfireBuffer os s) Hok Hs Hlen Hsum).
Qed.

End Properties.
(** ** A concrete store *)

Lemma DbOk_empty marshal digest ps srcs : DbOk marshal digest (mkDB ∅ [] ∅ ∅ ∅ ps srcs).
Proof.
  constructor; cbn.
  - intros id row. by rewrite lookup_empty.
  - intros id row. by rewrite lookup_empty.
  - intros r Hr. by apply not_elem_of_nil in Hr.
  - intros r Hr. by apply not_elem_of_nil in Hr.
  - intros id p. split; [by intros ?%not_elem_of_empty|]. intros (row & Hrow & _).
    by rewrite lookup_empty in Hrow.
Qed.

Module Demo.

#[export] Instance math : MathKernel := Geo.Series.kernel.
#[export] Instance json : JsonKernel := Geojson.point_json.

Definition crash (st : EventStatus) (head : string) (tags : list string) : Event :=
  mkEvent "chp:1" ROAD_INCIDENT "incident" MINOR st head "" "" "" "" None tags
    (Some (mkProvenance "chp" "CHP" "" "" None)) None None None None 0 None None.

Definition chp : SourceRow :=
  mkSourceRow "CHP" "" "" FEED 60 None None None None "" SOURCE_STATUS_UNSPECIFIED "resolve".

Definition s0 : Tx.St DB Mem := Tx.mkSt (mkDB ∅ [] ∅ ∅ ∅ ∅ {[ "chp" := chp ]}) (mkMem None 0 ∅) [].

Abbreviation runs := (run_ops EventCodec.marshal EventCodec.digest zero).

(** A new event, an attachment refresh, a failed statement, a new headline and
    an all-clear. *)
Definition ops1 : list op := [OpUpsert 1 (crash ACTIVE "Crash" [])].
Definition ops2 : list op := [OpUpsert 2 (crash ACTIVE "Crash" ["town:arnold"])].
Definition ops3 : list op :=
  [OpUpsert 3 (crash ACTIVE "Road closed" ["town:arnold"]); OpTransition 4 ["chp:1"; "chp:2"] RESOLVED 4;
   OpTouch ["chp:1"] (100 * second) (50 * second)].
Definition s1 := runs ops1 s0.
Definition s2 := runs ops2 s1.
Definition s3 := runs ops3 s2.

Lemma collision_free e1 e2 :
  ContentHash EventCodec.marshal EventCodec.digest e1 = ContentHash EventCodec.marshal EventCodec.digest e2 ->
  normalize e1 = normalize e2.
Proof. apply EventCodec.marshal_digest_inj. Qed.

Example stamps :
  (stamp_of <$> events (Tx.db s1) !! "chp:1") = Some (mkEventStamp 1 0)
  /\ (stamp_of <$> events (Tx.db s2) !! "chp:1") = Some (mkEventStamp 1 1)
  /\ (stamp_of <$> events (Tx.db s3) !! "chp:1") = Some (mkEventStamp 3 1).
Proof. by vm_compute. Qed.

Lemma ok0 : DbOk EventCodec.marshal EventCodec.digest (Tx.db s0).
Proof. apply DbOk_empty. Qed.

Lemma ok1 : DbOk EventCodec.marshal EventCodec.digest (Tx.db s1).
Proof.
  assert (Hs : small (Tx.db s1)) by (vm_compute; reflexivity).
  exact (moves_ok _ _ collision_free _ _ (run_ops_moves _ _ zero ops1 s0) ok0 Hs).
Qed.

End Demo.
Import Demo.

Lemma store_invariant_witness :
  DbOk EventCodec.marshal EventCodec.digest (Tx.db (Demo.runs (Demo.ops1 ++ Demo.ops2 ++ Demo.ops3) Demo.s0)).
Proof.
  apply (store_invariant EventCodec.marshal EventCodec.digest zero Demo.collision_free);
    [exact Demo.ok0|vm_compute; reflexivity].
Defined.

Lemma stamp_identifies_body_witness :
  exists row', events (Tx.db (Demo.runs Demo.ops2 Demo.s1)) !! "chp:1" = Some row'.
Proof.
  destruct (events (Tx.db Demo.s1) !! "chp:1") as [row|] eqn:E; [|vm_compute in E; discriminate E].
  destruct (stamp_identifies_body EventCodec.marshal EventCodec.digest zero Demo.collision_free
    Demo.ops2 Demo.s1 "chp:1" row Demo.ok1 ltac:(vm_compute; reflexivity) E) as (row' & H & _).
  exists row'. exact H.
Defined.

Lemma list_version_sound_witness :
  bodies [WILDFIRE] (Tx.db (Demo.runs Demo.ops2 Demo.s1)) "chp:1" = bodies [WILDFIRE] (Tx.db Demo.s1) "chp:1".
Proof.
  exact (list_version_sound EventCodec.marshal EventCodec.digest zero Demo.collision_free
    Demo.ops2 Demo.s1 [WILDFIRE] Demo.ok1 ltac:(vm_compute; reflexivity) ltac:(vm_compute; reflexivity)
    ltac:(vm_compute; reflexivity) "chp:1").
Defined.

End StoreSpec.
