(* ===== verification/StoreFunc.v ===== *)
(** * The event store: what each operation does

    The functional contract of the write operations of [Store] on every
    branch: results, rows, history, and that they succeed when nothing fails;
    and the place cache against the table it caches. *)

From S2P Require Import Prelude Float64 Geo Geojson GridEvent EventCodec Tx Store Sources StoreSpec.

Module StoreFunc.
Import F64 Grid Store Sources StoreSpec.
Open Scope tx_scope.

(** ** Refresh keeps what is stored and takes what is fresh *)

Lemma refreshBlob_enhancement stored ev want :
  enhancement (refreshBlob stored ev want)
  = (if enhChangedB stored ev then enhancement ev else enhancement stored)
  /\ summary (refreshBlob stored ev want)
     = (if enhChangedB stored ev then summary ev else summary stored).
Proof.
  unfold refreshBlob. destruct (enhChangedB stored ev), (telChangedB stored ev), (burnChangedB stored ev);
    cbn; repeat (case_match; cbn); done.
Qed.

Lemma enhChangedB_spec stored ev :
  enhancement ev <> None ->
  (if enhChangedB stored ev then enhancement ev else enhancement stored) = enhancement ev
  /\ (if enhChangedB stored ev then summary ev else summary stored) = summary ev.
Proof.
  unfold enhChangedB. destruct (enhancement ev) as [e|]; [intros _|done].
  repeat case_bool_decide; cbn; done.
Qed.

Lemma canon_telemetry_refl t : telemetry_equal t t = true.
Proof. by apply bool_decide_eq_true. Qed.

Lemma GetTelemetry_refresh stored ev want m :
  GetMesh stored = Some m -> GetTelemetry ev <> None ->
  (forall i, GetBurnStatus ev <> Some i) ->
  telemetry_equal (GetTelemetry (refreshBlob stored ev want)) (GetTelemetry ev) = true.
Proof.
  intros Hm Ht Hb. unfold refreshBlob, burnChangedB.
  destruct (GetBurnStatus ev) as [i|] eqn:Ei; [by destruct (Hb i)|].
  set (s1 := if enhChangedB stored ev then _ else _).
  assert (Hs1 : GetMesh s1 = Some m) by (unfold s1; by destruct (enhChangedB stored ev)).
  clearbody s1. unfold telChangedB.
  rewrite (bool_decide_eq_true_2 (is_Some (GetTelemetry ev))) by (by destruct (GetTelemetry ev)).
  rewrite (bool_decide_eq_true_2 (is_Some (GetMesh stored))) by (by rewrite Hm). cbn.
  destruct (telemetry_equal (GetTelemetry stored) (GetTelemetry ev)) eqn:E; cbn.
  - unfold GetTelemetry in *. rewrite Hs1. by rewrite Hm in E.
  - rewrite Hs1. unfold GetTelemetry at 1, GetMesh. cbn. apply canon_telemetry_refl.
Qed.

Lemma GetBurnStatus_refresh stored ev want i h :
  GetBurnStatus ev = Some i -> GetBurnStatus stored = Some h ->
  exists b, GetBurnStatus (refreshBlob stored ev want) = Some b
            /\ burnVolatile b = burnVolatile i
            /\ observed_at (refreshBlob stored ev want) = observed_at ev.
Proof.
  intros Hi Hh. unfold refreshBlob.
  assert (Htel : telChangedB stored ev = false).
  { unfold telChangedB, GetTelemetry, GetMesh. apply GetBurnStatus_Some in Hi. by rewrite Hi. }
  rewrite Htel. set (s1 := if enhChangedB stored ev then _ else _).
  assert (Hs1 : GetBurnStatus s1 = Some h /\ observed_at s1 = observed_at stored).
  { unfold s1. by destruct (enhChangedB stored ev). }
  destruct Hs1 as [Hs1 Ho1]. clearbody s1. unfold burnChangedB. rewrite Hi, Hh.
  destruct (negb _ || _ || _) eqn:E.
  - exists i. cbn. case_match; [case_match|]; done.
  - apply orb_false_iff in E as [[E1 E2]%orb_false_iff _].
    rewrite negb_false_iff, bool_decide_eq_true in E1, E2. exists h. by rewrite Ho1.
Qed.

Section Upsert.
Context {MK : MathKernel} {JK : JsonKernel}.
Variable marshal : Event -> option string.
Variable digest : string -> string.
Variable wildfireBuffer : float64.
Abbreviation Hash := (ContentHash marshal digest).
Abbreviation Upsert := (UpsertEvent marshal digest wildfireBuffer).

(** C14: the contract of an upsert. On an error nothing has changed. On
    success the row carries the event's hash and the returned revision; a
    write happened exactly when the event is new or its hash moved, and then
    it appended one snapshot of the stored blob; preset places are never
    dropped; no other event is touched. *)
Theorem upsert_contract now ev s r s' :
  DbOk marshal digest (Tx.db s) -> small (Tx.db s) -> UpsertEvent marshal digest wildfireBuffer now ev s = (r, s') ->
  match r with
  | inl _ => view s' = view s
  | inr res =>
      exists row', events (Tx.db s') !! Id ev = Some row'
      /\ c_content_hash row' = Hash ev /\ Revision res = c_revision row'
      /\ (forall p, p ∈ place_ids ev -> p <> "" -> p ∈ place_ids (c_proto row'))
      /\ (forall id, id <> Id ev -> events (Tx.db s') !! id = events (Tx.db s) !! id)
      /\ match events (Tx.db s) !! Id ev with
         | None => Changed res = true /\ Revision res = 1
         | Some row => (Changed res = true <-> c_content_hash row <> Hash ev)
             /\ Revision res = c_revision row + (if Changed res then 1 else 0)
         end
      /\ exists o i, event_revisions (Tx.db s') = event_revisions (Tx.db s)
           ++ (if Changed res then [mkRevisionRow (Id ev) (Revision res) o i (c_proto row')] else [])
  end.
Proof.
  intros Hok Hsmall Hrun%UpsertEvent_run. destruct r as [e|res]; [done|].
  destruct Hrun as (Hid & rw & Hpost & _). unfold upsert_post in Hpost. cbn in Hpost.
  assert (Hwritten : forall rev d', written marshal digest now ev rev (Tx.db s) d' ->
    exists row', events d' !! Id ev = Some row' /\ c_content_hash row' = Hash ev /\ c_revision row' = rev
      /\ (forall p, p ∈ place_ids ev -> p <> "" -> p ∈ place_ids (c_proto row'))
      /\ (forall id, id <> Id ev -> events d' !! id = events (Tx.db s) !! id)
      /\ exists o i, event_revisions d' = event_revisions (Tx.db s)
           ++ [mkRevisionRow (Id ev) rev o i (c_proto row')]).
  { intros rev d' (ids & b & Hb & _ & _ & Hev & Hre & _). rewrite Hev. eexists.
    rewrite lookup_insert_eq. split_and!; [done..| | |].
    - intros p Hp Hne. destruct (stored_clone_fields _ _ _ _ _ Hb) as (_&_&_&_&_&_&_&_&_&Hpl&_).
      cbn. rewrite Hpl. apply unionSorted_spec. auto.
    - intros id Hne. by rewrite lookup_insert_ne.
    - rewrite Hre. eauto. }
  destruct (events (Tx.db s) !! Id ev) as [row|] eqn:Erow.
  - pose proof (revision_bound _ _ _ _ _ Hok Erow) as Hb. pose proof (ok_row _ _ _ Hok _ _ Erow) as Hrow.
    destruct (row_revision _ _ _ _ _ Hrow) as [_ Hr1]. unfold small in Hsmall. case_decide as Hh.
    + destruct Hpost as [-> Hpost]. cbn. destruct rw.
      * destruct Hpost as (ids & Hev & Hre & _). rewrite Hev, Hre. eexists. rewrite lookup_insert_eq.
        split_and!; cbn; [done..| | |split; done|lia|].
        -- intros p Hp Hne. cbn. rewrite (proj2 (refreshBlob_keyed _ _ _)). apply unionSorted_spec. auto.
        -- intros id Hne. by rewrite lookup_insert_ne.
        -- exists 0, 0. by rewrite app_nil_r.
      * destruct Hpost as [-> [[ids Hw] _]]. exists row. split_and!; [done..| |done|split; done|lia|].
        -- intros p Hp Hne.
           assert (Hin : (Id ev, p) ∈ event_places (Tx.db s)).
           { apply elem_of_placesOf. rewrite <-Hw. apply unionSorted_spec. auto. }
           apply (ok_places _ _ _ Hok) in Hin as (row1 & ? & ?). by simplify_eq.
        -- exists 0, 0. by rewrite app_nil_r.
    + destruct Hpost as [[= -> ->] (row' & H1 & H2 & H3 & H4 & H5 & H6)%Hwritten].
      exists row'. cbn. split_and!; try done. unfold u32. rewrite Z.mod_small by lia. lia.
  - destruct Hpost as [[= -> ->] (row' & H1 & H2 & H3 & H4 & H5 & H6)%Hwritten].
    exists row'. cbn. split_and!; done.
Qed.

(** The hash-equal path loses nothing and erases nothing. After an
    upsert that minted no revision, a fresh enhancement, fresh mesh telemetry
    or a fresh burn reading the event carries is what the blob holds (as
    [proto.Equal] compares), and an event that carries no enhancement leaves
    the stored one in place. *)
Theorem refresh_persists now ev s res s' row row' :
  UpsertEvent marshal digest wildfireBuffer now ev s = (inr res, s') -> Changed res = false ->
  events (Tx.db s) !! Id ev = Some row -> events (Tx.db s') !! Id ev = Some row' ->
  (enhancement ev <> None ->
     enhancement (c_proto row') = enhancement ev /\ summary (c_proto row') = summary ev)
  /\ (enhancement ev = None -> enhancement (c_proto row') = enhancement (c_proto row)
      /\ summary (c_proto row') = summary (c_proto row))
  /\ (is_Some (GetMesh (c_proto row)) -> GetTelemetry ev <> None ->
      telemetry_equal (GetTelemetry (c_proto row')) (GetTelemetry ev) = true)
  /\ (forall i h, GetBurnStatus ev = Some i -> GetBurnStatus (c_proto row) = Some h ->
      exists b, GetBurnStatus (c_proto row') = Some b /\ burnVolatile b = burnVolatile i
                /\ observed_at (c_proto row') = observed_at ev).
Proof.
  intros Hrun%UpsertEvent_run Hch Hrow Hrow'. destruct Hrun as (_ & rw & Hpost & _).
  unfold upsert_post in Hpost. rewrite Hrow in Hpost. cbn in Hpost. case_decide as Hh; [|by destruct Hpost as [[= -> _] _]].
  destruct Hpost as [-> Hpost].
  assert (Hnoenh : forall r1, enhancement ev = None -> enhChangedB r1 ev = false).
  { intros r1 He. unfold enhChangedB. by rewrite He. }
  destruct rw.
  - destruct Hpost as (ids & Hev & _). rewrite Hev, lookup_insert_eq in Hrow'. simplify_eq. cbn.
    set (want := unionSorted _ _).
    destruct (refreshBlob_enhancement (c_proto row) ev want) as [-> ->]. split_and!.
    + apply enhChangedB_spec.
    + intros He. by rewrite Hnoenh.
    + intros [m Hm] Ht. eapply GetTelemetry_refresh; [done..|]. intros i Hi%GetBurnStatus_Some.
      unfold GetTelemetry, GetMesh in Ht. by rewrite Hi in Ht.
    + intros i h. apply GetBurnStatus_refresh.
  - destruct Hpost as [Hd (_ & He & Ht & Hb)]. rewrite Hd in Hrow'. simplify_eq. split_and!.
    + intros Hne. pose proof (enhChangedB_spec (c_proto row) ev Hne) as Hs. by rewrite He in Hs.
    + done.
    + intros Hm Hne. unfold telChangedB in Ht.
      rewrite !bool_decide_eq_true_2 in Ht by (try done; by destruct (GetTelemetry ev)).
      by apply negb_false_iff in Ht.
    + intros i h Hi Hh'. unfold burnChangedB in Hb. rewrite Hi, Hh' in Hb. exists h.
      apply orb_false_iff in Hb as [[E1 E2]%orb_false_iff _].
      by rewrite negb_false_iff, bool_decide_eq_true in E1, E2.
Qed.

(** ** Success *)

Lemma matchPlaces_twp ev (Q : list string -> DB -> Mem -> Prop) d c :
  (forall ids c', Q ids d c') -> Tx.twp (matchPlaces wildfireBuffer ev) Q d c.
Proof.
  intros HQ. unfold matchPlaces. destruct (geometry ev ≫= eventGeoOf); [|by twp_step].
  twp_step. unfold loadPlaceGeoms. twp_step. twp_step. destruct (placesGeo c); repeat twp_step; done.
Qed.

Lemma replaceEventPlaces_twp id l (Q : unit -> DB -> Mem -> Prop) d c :
  NoDup l -> (forall X, Q tt (set_event_places X d) c) -> Tx.twp (replaceEventPlaces id l) Q d c.
Proof.
  intros Hnd HQ. unfold replaceEventPlaces. twp_step. twp_step.
  set (X0 := filter (fun x => x.1 <> id) (event_places d)).
  eapply Tx.twp_mono; [|apply (Tx.twp_foreach _ (fun ps d' c' =>
    c' = c /\ exists X, d' = set_event_places X d /\ X = places_of id ps ∪ X0))].
  - intros [] d' c' (-> & X & -> & ->). by apply HQ.
  - intros ps p d1 c1 [rest Hl] (-> & X & -> & ->). eapply Tx.twp_exec_checked.
    + rewrite bool_decide_eq_false_2; [done|]. cbn. unfold places_of, X0.
      rewrite elem_of_union, elem_of_list_to_set, list_elem_of_fmap, elem_of_filter. cbn.
      rewrite Hl in Hnd. apply NoDup_app in Hnd as (Hnd & _). apply NoDup_app in Hnd as (_ & Hd & _).
      intros [(q & [= <-] & Hq)|[? _]]; [|done]. apply (Hd p Hq). by left.
    + split; [done|]. eexists. split; [done|]. cbn. unfold places_of.
      rewrite fmap_app, list_to_set_app_L. cbn. clear. set_solver.
  - split; [done|]. exists X0. split; [done|]. unfold places_of. cbn. clear. set_solver.
Qed.

Definition ordered (b : BoundingBox) : bool :=
  leb (min_lat b) (max_lat b) && leb (min_lng b) (max_lng b).

Lemma upsertGeo_twp ev (Q : unit -> DB -> Mem -> Prop) d c :
  (forall b, GetBbox ev = Some b -> ordered b = true) ->
  (forall gm g, Q tt (set_geo gm g d) c) -> Tx.twp (upsertGeo ev) Q d c.
Proof.
  intros Hb HQ. unfold upsertGeo. destruct (GetBbox ev) as [b|].
  - specialize (Hb b eq_refl). unfold ordered in Hb. twp_step. twp_step. twp_step.
    destruct (event_geo_map d !! Id ev) as [rowid|].
    + twp_step. eapply Tx.twp_exec_checked; [by rewrite Hb|]. apply HQ.
    + twp_step. twp_step. twp_step. eapply Tx.twp_exec_checked; [by rewrite Hb|].
      apply (HQ (event_geo_map (set_geo _ _ d))).
  - twp_step. twp_step. twp_step. apply (HQ (delete (Id ev) (event_geo_map d))).
Qed.

Lemma insertRevision_twp r (Q : unit -> DB -> Mem -> Prop) d c :
  (forall x, x ∈ event_revisions d -> r_event_id x = r_event_id r -> r_revision x <> r_revision r) ->
  Q tt (set_event_revisions (event_revisions d ++ [r]) d) c -> Tx.twp (insertRevision r) Q d c.
Proof.
  intros Hf HQ. unfold insertRevision. eapply Tx.twp_exec_checked; [|done].
  destruct (existsb _ _) eqn:E; [|done]. apply existsb_exists in E as (x & Hx & He).
  rewrite <-list_elem_of_In in Hx. apply andb_prop in He as [H1 H2].
  rewrite bool_decide_eq_true in H1, H2. by destruct (Hf x Hx).
Qed.

Lemma fresh_revision d id rev :
  revs d id ++ [rev] = seqZ 1 rev ->
  forall x, x ∈ event_revisions d -> r_event_id x = id -> r_revision x <> rev.
Proof.
  intros Hs x Hx Hid Hr. assert (Hin : rev ∈ revs d id).
  { unfold revs. apply list_elem_of_fmap. exists x. split; [done|]. by apply list_elem_of_filter. }
  pose proof (NoDup_seqZ 1 rev) as Hnd. rewrite <-Hs in Hnd.
  apply NoDup_app in Hnd as (_ & Hd & _). apply (Hd rev Hin). by left.
Qed.

Section Succeeds.
Hypothesis marshal_total : forall e, is_Some (marshal e).

Lemma writeContent_twp now ev rev d c :
  GetSourceId ev ∈ registered d ->
  (forall b, GetBbox (ensureGeometryIndex (set_ingested_at (Some now) (set_revision rev ev))) = Some b ->
     ordered b = true) ->
  revs d (Id ev) ++ [rev] = seqZ 1 rev ->
  Tx.twp (writeContent marshal digest wildfireBuffer now ev rev) (fun _ _ _ => True) d c.
Proof using All.
  intros Hsrc Hbox Hrev. unfold writeContent. twp_step. apply matchPlaces_twp. intros ids c'.
  destruct (ensureGeometryIndex_spec (set_ingested_at (Some now) (set_revision rev ev))) as [g Hg].
  rewrite Hg in Hbox |- *. set (b := set_place_ids _ _).
  destruct (marshal_total b) as [m ->]. twp_step. unfold put_event.
  eapply Tx.twp_exec_checked; [by rewrite bool_decide_eq_true_2|]. twp_step.
  apply insertRevision_twp; [exact (fresh_revision _ _ _ Hrev)|]. twp_step.
  apply replaceEventPlaces_twp; [apply unionSorted_spec|]. intros X.
  apply upsertGeo_twp; [exact Hbox|done].
Qed.

Lemma refreshEventPlaces_twp ev row d c :
  events d !! Id ev = Some row ->
  Tx.twp (refreshEventPlaces marshal wildfireBuffer ev) (fun _ _ _ => True) d c.
Proof using All.
  intros Hrow. unfold refreshEventPlaces. twp_step. apply matchPlaces_twp. intros ids c'.
  twp_step. twp_step. twp_step. twp_step. rewrite Hrow. cbn.
  destruct (_ && _ && _ && _); [by twp_step|]. twp_step.
  assert (Hend : forall d1, Tx.twp
    (match marshal (refreshBlob (c_proto row) ev (unionSorted (place_ids ev) ids)) with
     | None => Tx.fail "store: marshal event for refresh"
     | Some _ => update_event (Id ev) (refresh_row
         (refreshBlob (c_proto row) ev (unionSorted (place_ids ev) ids))) ;;; Tx.ret true
     end) (fun _ _ _ => True) d1 c').
  { intros d1. destruct (marshal_total (refreshBlob (c_proto row) ev (unionSorted (place_ids ev) ids)))
      as [m ->]. twp_step. unfold update_event. twp_step. by twp_step. }
  destruct (negb _).
  - apply replaceEventPlaces_twp; [apply unionSorted_spec|]. intros X. apply Hend.
  - twp_step. apply Hend.
Qed.

(** When no statement fails, an upsert of an event with an id, a
    registered source, a marshallable body and a well-ordered box succeeds. *)
Theorem upsert_succeeds now ev d c :
  DbOk marshal digest d -> small d -> Id ev <> "" -> GetSourceId ev ∈ registered d ->
  (forall rev b, GetBbox (ensureGeometryIndex (set_ingested_at (Some now) (set_revision rev ev))) = Some b ->
     ordered b = true) ->
  exists res d' c', UpsertEvent marshal digest wildfireBuffer now ev (Tx.mkSt d c []) = (inr res, Tx.mkSt d' c' []).
Proof using All.
  intros Hok Hsmall Hid Hsrc Hbox.
  assert (H : Tx.twp (Upsert now ev) (fun _ _ _ => True) d c).
  { unfold UpsertEvent. rewrite bool_decide_eq_false_2 by done. twp_step. twp_step.
    apply (Tx.twp_mono _ (fun _ _ _ => True)).
    { intros [res []] d' c' _; cbn; [unfold bumpRefreshVersion|]; by repeat twp_step. }
    unfold upsertBody. twp_step. twp_step.
    destruct (events d !! Id ev) as [row|] eqn:Erow; cbn.
    - case_bool_decide; twp_step.
      + eapply Tx.twp_mono; [|by eapply refreshEventPlaces_twp]. intros. by twp_step.
      + eapply Tx.twp_mono; [|apply writeContent_twp; [done|apply Hbox|]]; [intros; by twp_step|].
        refine (proj2 (content_next_rev _ _ _ ev _ Hok Hsmall _)). by rewrite Erow.
    - twp_step. eapply Tx.twp_mono; [|apply writeContent_twp; [done|apply Hbox|]]; [intros; by twp_step|].
      refine (proj2 (content_next_rev _ _ _ ev _ Hok Hsmall _)). by rewrite Erow. }
  destruct H as (res & d' & c' & H & _). eauto.
Qed.

End Succeeds.

(** ** Transitions *)

(** What a transition to [to] does to one event's row. *)
Definition moved_to (to : EventStatus) (row row' : EventRow) : Prop :=
  status (c_proto row') = to /\ c_status row' = to
  /\ (status (c_proto row) = to -> row' = row)
  /\ (status (c_proto row) <> to -> c_revision row' = c_revision row + 1
      /\ place_ids (c_proto row') = place_ids (c_proto row)
      /\ c_content_hash row' = Hash (c_proto row')).

(** The same with the row written out, before any bound on the counter. *)
Definition moved_raw (to : EventStatus) (observedAt now : Time) (row row' : EventRow) : Prop :=
  (status (c_proto row) = to /\ row' = row)
  \/ (status (c_proto row) <> to /\ row' = transition_row marshal digest to observedAt now
        (set_revision (u32 (revision (c_proto row) + 1)) (set_ingested_at (Some now)
           (set_observed_at (Some observedAt) (set_status to (c_proto row))))) row).

Lemma moved_raw_status to obs now row row' :
  moved_raw to obs now row row' -> status (c_proto row') = to.
Proof. by intros [[? ->]|[? ->]]. Qed.

Lemma moved_raw_to to obs now d id row row' :
  DbOk marshal digest d -> small d -> events d !! id = Some row ->
  moved_raw to obs now row row' -> moved_to to row row'.
Proof.
  intros Hok Hs Hrow Hm. pose proof (revision_bound _ _ _ _ _ Hok Hrow).
  pose proof (ok_row _ _ _ Hok _ _ Hrow) as Hr. destruct (row_revision _ _ _ _ _ Hr) as [Hrv ?].
  pose proof (row_status _ _ _ _ _ Hr). unfold small in Hs.
  destruct Hm as [[Hst ->]|[Hst ->]]; split_and!; try done; try congruence.
  intros _. split_and!; [|done..]. cbn. unfold u32. rewrite <-Hrv, Z.mod_small by lia. done.
Qed.

(** The events a transition has reached, part way through its list. *)
Definition reached (to : EventStatus) (observedAt now : Time) (d : DB) (ids : list string) (d' : DB)
    : Prop :=
  (length (event_revisions d) <= length (event_revisions d'))%nat
  /\ (forall id, id ∈ ids -> match events d !! id with
       | None => events d' !! id = None
       | Some row => exists row', events d' !! id = Some row' /\ moved_raw to observedAt now row row'
       end)
  /\ (forall id, id ∉ ids -> events d' !! id = events d !! id).

Lemma reached_same to obs now d pre id d' :
  reached to obs now d pre d' ->
  (forall row, events d' !! id = Some row -> status (c_proto row) = to) ->
  reached to obs now d (pre ++ [id]) d'.
Proof.
  intros (Hlen & Hin & Hout) Hto. split_and!; [done| |].
  - intros k. rewrite elem_of_app, list_elem_of_singleton. intros [Hk| ->]; [by apply Hin|].
    destruct (decide (id ∈ pre)) as [Hp|Hp]; [by apply Hin|].
    rewrite (Hout id Hp) in Hto |- *. destruct (events d !! id) as [row|]; [|done].
    exists row. split; [done|]. left. auto.
  - intros k. rewrite not_elem_of_app. intros [? _]. by apply Hout.
Qed.

Lemma transition_reaches to obs now d pre id d' c :
  reached to obs now d pre d' ->
  Tx.wp (transitionEvent marshal digest to obs now id)
    (fun _ d'' _ => reached to obs now d (pre ++ [id]) d'') d' c.
Proof.
  intros HP. unfold transitionEvent. wp_step. wp_step.
  destruct (events d' !! id) as [row|] eqn:Er; cbn; [|wp_step; apply reached_same; congruence].
  case_bool_decide as Hst; [wp_step; apply reached_same; [done|]; by intros ? [= <-]%(eq_trans (eq_sym Er))|].
  destruct HP as (Hlen & Hin & Hout). assert (Hp : id ∉ pre).
  { intros Hp. specialize (Hin id Hp). destruct (events d !! id); [|congruence].
    destruct Hin as (row' & Hr & Hm%moved_raw_status). congruence. }
  destruct (marshal _); [|wp_step]. wp_step. unfold update_event. wp_step.
  apply insertRevision_wp. intros _. split_and!; cbn.
  - rewrite length_app. cbn. lia.
  - intros k. rewrite elem_of_app, list_elem_of_singleton. intros [Hk| ->].
    + rewrite lookup_alter_ne by congruence. by apply Hin.
    + rewrite <-(Hout id Hp), Er, lookup_alter_eq, Er. eexists. split; [done|]. by right.
  - intros k. rewrite not_elem_of_app, list_elem_of_singleton. intros [? ?].
    rewrite lookup_alter_ne by congruence. by apply Hout.
Qed.

(** Nothing to move: the tables stay as they are. *)
Lemma TransitionEvents_settled now ids to obs s r s' :
  (forall id row, id ∈ ids -> events (Tx.db s) !! id = Some row -> status (c_proto row) = to) ->
  TransitionEvents marshal digest now ids to obs s = (r, s') -> Tx.db s' = Tx.db s.
Proof.
  intros Hto. unfold TransitionEvents. destruct ids as [|i l]; [by intros [= _ <-]|].
  destruct r as [e|[]]; [apply Tx.inTx_err|].
  apply (Tx.wp_use _ (fun _ d' _ => d' = Tx.db s)). wp_step.
  apply (Tx.wp_foreach _ (fun _ d' _ => d' = Tx.db s)); [|done].
  intros pre id d c [rest Hl] ->. unfold transitionEvent. wp_step. wp_step.
  destruct (events (Tx.db s) !! id) as [row|] eqn:Er; cbn; [|by wp_step].
  rewrite bool_decide_eq_true_2; [by wp_step|]. eapply Hto; [|exact Er].
  rewrite Hl. set_solver.
Qed.

(** C18: a transition moves every listed event that exists to the new status,
    with one new revision each unless it is already there; it leaves every
    other event alone, creates none, and is idempotent. *)
Theorem transition_contract now ids to observedAt s s' :
  DbOk marshal digest (Tx.db s) -> small (Tx.db s') ->
  TransitionEvents marshal digest now ids to observedAt s = (inr tt, s') ->
  (forall id, id ∈ ids ->
     match events (Tx.db s) !! id with
     | None => events (Tx.db s') !! id = None
     | Some row => exists row', events (Tx.db s') !! id = Some row' /\ moved_to to row row'
     end)
  /\ (forall id, id ∉ ids -> events (Tx.db s') !! id = events (Tx.db s) !! id)
  /\ (forall now' obs' r s'', TransitionEvents marshal digest now' ids to obs' s' = (r, s'') ->
        Tx.db s'' = Tx.db s').
Proof.
  intros Hok Hsmall Hrun.
  assert (Hreach : reached to observedAt now (Tx.db s) ids (Tx.db s')).
  { revert Hrun. unfold TransitionEvents. destruct ids as [|i l].
    { intros [= <-]. split_and!; [done|by intros ? ?%not_elem_of_nil|done]. }
    apply (Tx.wp_use _ (fun _ d' _ => reached to observedAt now (Tx.db s) (i :: l) d')). wp_step.
    apply (Tx.wp_foreach _ (fun pre d' _ => reached to observedAt now (Tx.db s) pre d')).
    - intros pre id d c _. apply transition_reaches.
    - split_and!; [done|by intros ? ?%not_elem_of_nil|done]. }
  destruct Hreach as (Hlen & Hin & Hout). split_and!; [|done|].
  - intros id Hid. specialize (Hin id Hid). destruct (events (Tx.db s) !! id) as [row|] eqn:Er; [|done].
    destruct Hin as (row' & ? & Hm). exists row'. split; [done|].
    eapply moved_raw_to; [exact Hok| |exact Er|exact Hm]. unfold small in *. lia.
  - intros now' obs' r s''. apply TransitionEvents_settled. intros id row Hid Hr.
    specialize (Hin id Hid). destruct (events (Tx.db s) !! id); [|congruence].
    destruct Hin as (row' & Hr' & Hm%moved_raw_status). congruence.
Qed.

(** ** The place cache *)

(** The parsed places, when cached, are those of the table. *)
Definition cache_fresh (P : gmap string Place) (d : DB) (c : Mem) : Prop :=
  places d = P /\ (placesGeo c = None \/ placesGeo c = Some (parse_places P)).

Definition fresh (s : Tx.St DB Mem) : Prop :=
  cache_fresh (places (Tx.db s)) (Tx.db s) (Tx.mem s).

Lemma keeps_fresh_matchPlaces ev P : Tx.keeps (matchPlaces wildfireBuffer ev) (cache_fresh P).
Proof.
  unfold matchPlaces. destruct (_ ≫= _); [|eauto with grid]. apply Tx.keeps_bind; [|eauto with grid].
  unfold loadPlaceGeoms. intros s r s' [HP HC]. unfold Tx.bind, Tx.get_mem.
  destruct (placesGeo (Tx.mem s)) eqn:E; [intros [= _ <-]; by split; [|rewrite E]|].
  destruct (Tx.query _ s) as [[err|l] s1] eqn:Eq.
  - apply Tx.query_frame in Eq as [Hd Hm]. intros [= _ <-]. split; [by rewrite Hd|by left; rewrite Hm].
  - apply Tx.query_inr in Eq as (-> & Hd & Hm). intros [= _ <-]. cbn. split; cbn; [by rewrite Hd|].
    right. by rewrite HP.
Qed.

Lemma keeps_fresh_exec f P :
  (forall d, places (f d) = places d) -> Tx.keeps (Tx.exec f : Store.M unit) (cache_fresh P).
Proof. intros Hf. apply Tx.keeps_exec. unfold cache_fresh. intros d c [<- H]. by rewrite Hf. Qed.

Lemma keeps_fresh_exec_checked e f P :
  (forall d d', f d = Some d' -> places d' = places d) ->
  Tx.keeps (Tx.exec_checked e f : Store.M unit) (cache_fresh P).
Proof.
  intros Hf. apply Tx.keeps_exec_checked. unfold cache_fresh. intros d c d' [<- H] Hd.
  by rewrite (Hf _ _ Hd).
Qed.

Lemma keeps_fresh_inTx {A} (m : Store.M A) P :
  Tx.keeps m (cache_fresh P) -> Tx.keeps (Tx.inTx m) (cache_fresh P).
Proof. apply Tx.keeps_inTx. unfold cache_fresh. tauto. Qed.

Ltac fresh_tac :=
  repeat (first
    [ progress eauto with grid
    | apply keeps_fresh_matchPlaces
    | apply keeps_fresh_inTx
    | apply keeps_fresh_exec; by intros
    | apply keeps_fresh_exec_checked; intros ? ? ?; by repeat case_match; simplify_eq
    | apply Tx.keeps_put_mem; by intros
    | apply Tx.keeps_bind; [|intros ?]
    | apply Tx.keeps_foreach; intros ?
    | case_match ]).

Lemma keeps_fresh_Upsert now ev P : Tx.keeps (Upsert now ev) (cache_fresh P).
Proof.
  unfold UpsertEvent, upsertBody, writeContent, refreshEventPlaces, put_event, insertRevision,
    replaceEventPlaces, upsertGeo, update_event, bumpRefreshVersion. fresh_tac.
Qed.

Lemma keeps_fresh_Transition now ids to obs P :
  Tx.keeps (TransitionEvents marshal digest now ids to obs) (cache_fresh P).
Proof. unfold TransitionEvents, transitionEvent, insertRevision, update_event. fresh_tac. Qed.

Lemma keeps_fresh_Touch ids t sb P : Tx.keeps (TouchSeen ids t sb) (cache_fresh P).
Proof.
  intros s r s' HI. unfold TouchSeen. destruct ids; [by intros [= _ <-]|].
  unfold Tx.bind. destruct (Tx.stmt s) as [[e|[]] s1] eqn:E; apply Tx.stmt_frame in E as [Hd Hm];
    intros [= _ <-]; unfold cache_fresh; cbn; by rewrite ?Hd, ?Hm.
Qed.

Lemma keeps_fresh_sources P :
  (forall seeds, Tx.keeps (SeedSources seeds) (cache_fresh P))
  /\ (forall now id e, Tx.keeps (RecordAttempt now id e) (cache_fresh P))
  /\ (forall id, Tx.keeps (DeleteSource id) (cache_fresh P)).
Proof.
  split_and!; intros; unfold SeedSources, seedOne, RecordAttempt, DeleteSource; fresh_tac.
Qed.

Lemma UpsertPlace_fresh p s : fresh s -> fresh (UpsertPlace p s).2.
Proof.
  intros Hf. unfold UpsertPlace. destruct (_ || _); [done|].
  unfold Tx.inTx. destruct (Tx.stmt s) as [[e|[]] s1] eqn:E1; apply Tx.stmt_frame in E1 as [Hd Hm];
    cbn; [unfold fresh in *; by rewrite Hd, Hm|].
  unfold Tx.exec_checked, Tx.bind, Tx.put_mem.
  destruct (Tx.stmt s1) as [[e2|[]] s2] eqn:E2; apply Tx.stmt_frame in E2 as [Hd2 Hm2]; cbn.
  { unfold fresh in *. cbn. by rewrite Hm2, Hm, Hd. }
  destruct (existsb _ _); cbn.
  { unfold fresh in *. cbn. by rewrite Hm2, Hm, Hd. }
  destruct (Tx.stmt _) as [[e3|[]] s3] eqn:E3; apply Tx.stmt_frame in E3 as [Hd3 Hm3]; cbn;
    unfold fresh, cache_fresh; cbn; rewrite Hm3; cbn; auto.
Qed.

Lemma run_op_fresh o s : fresh s -> fresh (run_op marshal digest wildfireBuffer o s).2.
Proof.
  intros Hf. assert (Hk : forall A (m : Store.M A), (forall P, Tx.keeps m (cache_fresh P)) ->
    fresh (m s).2).
  { intros A m Hm. destruct (m s) as [r s'] eqn:E. cbn. pose proof (Hm _ _ _ _ Hf E) as H.
    unfold fresh. by rewrite (proj1 H). }
  destruct o; cbn [run_op]; rewrite ?bind_ret_snd;
    eauto using keeps_fresh_Upsert, keeps_fresh_Transition, keeps_fresh_Touch, UpsertPlace_fresh;
    apply Hk; intros P; destruct (keeps_fresh_sources P) as (? & ? & ?); auto.
Qed.

(** Place matching always sees the current places: after any operations,
    failed ones included, what an event is matched against is the places
    table itself, never a cached parse that an edit has overtaken. *)
Theorem place_matching_current os s ev e r s'' :
  let s' := run_ops marshal digest wildfireBuffer os s in
  fresh s -> geometry ev ≫= eventGeoOf = Some e ->
  matchPlaces wildfireBuffer ev s' = (inr r, s'') ->
  r = match_in wildfireBuffer ev e (parse_places (places (Tx.db s'))).
Proof.
  intros s' Hf He Hrun. assert (Hfr : fresh s').
  { unfold s', run_ops. clear -Hf. revert s Hf. induction os as [|o os IH]; intros s Hf; cbn; [done|].
    apply IH, run_op_fresh, Hf. }
  revert Hrun. apply (Tx.wp_use _ (fun r _ _ => r = _)). unfold matchPlaces. rewrite He.
  unfold loadPlaceGeoms. wp_step. wp_step. wp_step. destruct Hfr as [_ [Hn|Hn]]; rewrite Hn;
    repeat wp_step; done.
Qed.

(** ** Re-ingesting the same content *)

(** An event that differs from the one last written only in its volatile
    fields never mints a revision: the next upsert reports no change and the
    history stays as it is. *)
Theorem volatile_mints_nothing now now' ev ev' s res s1 r s2 :
  DbOk marshal digest (Tx.db s) ->
  UpsertEvent marshal digest wildfireBuffer now ev s = (inr res, s1) ->
  normalize ev' = normalize ev ->
  UpsertEvent marshal digest wildfireBuffer now' ev' s1 = (r, s2) ->
  event_revisions (Tx.db s2) = event_revisions (Tx.db s1)
  /\ forall res', r = inr res' -> Changed res' = false.
Proof.
  intros Hok Hrun%UpsertEvent_run Hn Hrun'%UpsertEvent_run.
  assert (Hid : Id ev' = Id ev).
  { by apply (f_equal Id) in Hn. }
  assert (HH : Hash ev' = Hash ev) by (unfold ContentHash; by rewrite Hn, Hid).
  destruct Hrun as (_ & rw & Hpost & _).
  assert (Hrow : exists row, events (Tx.db s1) !! Id ev' = Some row /\ c_content_hash row = Hash ev').
  { rewrite Hid, HH. revert Hpost. unfold upsert_post. destruct (events (Tx.db s) !! Id ev) as [row|] eqn:E.
    - case_decide as Hh.
      + intros [_ Hr]. cbn in Hr. destruct rw.
        * destruct Hr as (ids & -> & _). rewrite lookup_insert_eq. by eexists.
        * destruct Hr as [-> _]. eauto.
      + intros [_ (ids & b & _ & _ & _ & -> & _)]. rewrite lookup_insert_eq. by eexists.
    - intros [_ (ids & b & _ & _ & _ & -> & _)]. rewrite lookup_insert_eq. by eexists. }
  destruct Hrow as (row & Hrow & Hh). destruct r as [err|res'].
  { apply (f_equal fst) in Hrun'. cbn in Hrun'. by rewrite Hrun'. }
  destruct Hrun' as (_ & rw' & Hpost' & _). unfold upsert_post in Hpost'. rewrite Hrow in Hpost'.
  rewrite decide_True in Hpost' by done. destruct Hpost' as [Hx Hpost']. cbn in Hx, Hpost'. split.
  - destruct rw'; [by destruct Hpost' as (ids & _ & -> & _)|by destruct Hpost' as [-> _]].
  - intros ? [= <-]. by rewrite Hx.
Qed.

End Upsert.

(** ** Witnesses *)

Section Witnesses.
Import Demo.

Abbreviation UpsertD := (UpsertEvent EventCodec.marshal EventCodec.digest zero).

Lemma ok2 : DbOk EventCodec.marshal EventCodec.digest (Tx.db s2).
Proof.
  assert (Hs : small (Tx.db s2)) by (vm_compute; reflexivity).
  exact (moves_ok _ _ collision_free _ _ (run_ops_moves _ _ zero ops2 s1) ok1 Hs).
Qed.

Lemma upsert_contract_witness :
  exists row', events (Tx.db (UpsertD 3 (crash ACTIVE "Road closed" []) s2).2) !! "chp:1" = Some row'
  /\ c_revision row' = 2.
Proof.
  pose proof (upsert_contract EventCodec.marshal EventCodec.digest zero 3 (crash ACTIVE "Road closed" [])
    s2 (inr (mkUpsertResult true 2)) _ ok2 ltac:(vm_compute; reflexivity)
    ltac:(vm_compute; reflexivity)) as (row' & H1 & _ & H2 & _).
  exists row'. split; [exact H1|]. exact (eq_sym H2).
Defined.

Lemma refresh_persists_witness : exists row row', c_proto row <> c_proto row'
  /\ enhancement (c_proto row') = enhancement (c_proto row).
Proof.
  destruct (events (Tx.db s1) !! "chp:1") as [row|] eqn:E1; [|vm_compute in E1; discriminate E1].
  destruct (events (Tx.db (UpsertD 2 (crash ACTIVE "Crash" ["town:arnold"]) s1).2) !! "chp:1")
    as [row'|] eqn:E2; [|vm_compute in E2; discriminate E2].
  exists row, row'. split.
  - vm_compute in E1, E2. injection E1 as <-. injection E2 as <-. discriminate.
  - destruct (refresh_persists EventCodec.marshal EventCodec.digest zero 2
      (crash ACTIVE "Crash" ["town:arnold"]) s1 (mkUpsertResult false 1) _ row row'
      ltac:(vm_compute; reflexivity) eq_refl E1 E2) as (_ & H & _).
    apply (H eq_refl).
Defined.

Lemma upsert_succeeds_witness :
  exists res d' c', UpsertD 3 (crash ACTIVE "Road closed" []) (Tx.mkSt (Tx.db s2) (Tx.mem s2) [])
    = (inr res, Tx.mkSt d' c' []).
Proof.
  apply (upsert_succeeds EventCodec.marshal EventCodec.digest zero); [by eexists|exact ok2|..].
  - vm_compute. reflexivity.
  - discriminate.
  - apply (bool_decide_unpack _). vm_compute. exact I.
  - discriminate.
Defined.

Definition sT : Tx.St DB Mem :=
  (TransitionEvents EventCodec.marshal EventCodec.digest 5 ["chp:1"; "chp:2"] RESOLVED 4 s2).2.

Lemma transition_contract_witness : events (Tx.db sT) !! "chp:2" = None.
Proof.
  pose proof (proj1 (transition_contract EventCodec.marshal EventCodec.digest 5 ["chp:1"; "chp:2"]
    RESOLVED 4 s2 sT ok2 ltac:(vm_compute; reflexivity) ltac:(vm_compute; reflexivity)) "chp:2"
    ltac:(right; left)) as H.
  replace (events (Tx.db s2) !! "chp:2") with (@None EventRow) in H by (vm_compute; reflexivity).
  exact H.
Defined.

Definition arnold : Place :=
  mkPlace "town:arnold" TOWN "Arnold" "arnold" (Some (mkGeometry "P" None None)) "".

Lemma place_matching_current_witness :
  exists l, l = match_in zero (set_geometry (Some (mkGeometry "" None (Some (mkLatLng zero zero))))
                             (crash ACTIVE "Crash" []))
    (mkEventGeo None (mkLatLng zero zero) (Geojson.mkBox zero zero zero zero) true false)
    (parse_places (places (Tx.db (runs [OpPlace arnold] s2)))).
Proof.
  eexists. eapply (place_matching_current EventCodec.marshal EventCodec.digest zero [OpPlace arnold] s2).
  - split; [reflexivity|]. vm_compute. left. reflexivity.
  - reflexivity.
  - vm_compute. reflexivity.
Defined.

Lemma volatile_mints_nothing_witness :
  event_revisions (Tx.db (UpsertD 8 (crash ACTIVE "Road closed" ["town:arnold"])
    (UpsertD 7 (crash ACTIVE "Road closed" []) s2).2).2)
  = event_revisions (Tx.db (UpsertD 7 (crash ACTIVE "Road closed" []) s2).2).
Proof.
  eapply (proj1 (volatile_mints_nothing EventCodec.marshal EventCodec.digest zero 7 8
    (crash ACTIVE "Road closed" []) (crash ACTIVE "Road closed" ["town:arnold"]) s2
    (mkUpsertResult true 2) _ (inr (mkUpsertResult false 2)) _ ok2
    ltac:(vm_compute; reflexivity) eq_refl ltac:(vm_compute; reflexivity))).
Defined.

End Witnesses.
End StoreFunc.
