(* ===== verification/Places.v ===== *)
(** * Place lookups

    The reads of [internal/store/places.go]: by id or slug, the list, and the
    places that contain a point. *)

From S2P Require Import Prelude Float64 Geo Geojson GridEvent Tx Store.

Module Places.
Import F64 Grid Store.
Open Scope tx_scope.

(** [placeSpecificity]; a kind it does not list reads as 0. *)
Definition placeSpecificity (k : PlaceKind) : Z :=
  match k with
  | SITE => 0 | EVAC_ZONE => 1 | TOWN => 2 | CORRIDOR => 3 | COUNTY => 4 | AREA => 5
  | PLACE_KIND_UNSPECIFIED => 0
  end.

(** SQLite's [lower] folds ASCII only; [instr] finds a substring. *)
Definition lower_char (c : Ascii.ascii) : Ascii.ascii :=
  let n := Ascii.N_of_ascii c in
  if (65 <=? n)%N && (n <=? 90)%N then Ascii.ascii_of_N (n + 32) else c.
Fixpoint lower (s : string) : string :=
  match s with EmptyString => EmptyString | String c s => String (lower_char c) (lower s) end.
Definition contains (s sub : string) : bool := bool_decide (is_Some (String.index 0 sub s)).

(** ORDER BY kind, name, id. *)
Definition place_leb (a b : Place) : bool :=
  let '(ka, kb) := (PlaceKind_number (p_kind a), PlaceKind_number (p_kind b)) in
  if ka =? kb then
    if bool_decide (p_name a = p_name b) then str_leb (p_id a) (p_id b) else str_leb (p_name a) (p_name b)
  else ka <? kb.
Definition place_le (a b : Place) : Prop := place_leb a b = true.
#[export] Instance place_le_dec : RelDecision place_le.
Proof. intros a b. unfold place_le. apply _. Defined.

Definition listed (kind : PlaceKind) (q : string) (p : Place) : bool :=
  (bool_decide (kind = PLACE_KIND_UNSPECIFIED) || bool_decide (p_kind p = kind))
  && (bool_decide (q = "") || contains (lower (p_name p)) (lower q)).

Definition ListPlaces (kind : PlaceKind) (q : string) : M (list Place) :=
  Tx.query (fun d => merge_sort place_le
    (filter (fun p => listed kind q p = true) (map_to_list (places d)).*2)).

(** [GetPlace]: ids are namespaced with a colon, slugs are not. *)
Definition find_place (d : DB) (slugOrID : string) : option Place :=
  if contains slugOrID ":" then places d !! slugOrID
  else snd <$> (list_find (fun p => p_slug p = slugOrID) (map_to_list (places d)).*2).

Definition GetPlace (slugOrID : string) : M Place :=
  p <-- Tx.query (fun d => find_place d slugOrID) ;;
  match p with None => Tx.fail ErrNotFound | Some p => Tx.ret p end.

Section Containing.
Context {MK : MathKernel} {JK : JsonKernel}.
(** [WithTownRadius]. *)
Variable townRadius : float64.

(** A matched place, with its distance when it is a town. *)
Definition containing (lat_ lng_ : float64) (p : Place) : option (Place * float64) :=
  g ← p_geometry p;
  if bool_decide (g_geojson g = "") then None
  else
    geom ← Geojson.Parse (g_geojson g);
    if bool_decide (p_kind p = TOWN) && bool_decide (Geojson.g_Type geom = "Point") then
      let d := Geojson.MetersBetween lat_ lng_ (Geojson.Lat (Geojson.g_Point geom))
                 (Geojson.Lng (Geojson.g_Point geom)) in
      if leb d townRadius then Some (p, d) else None
    else
      let b := Geojson.Bbox geom in
      if ltb lat_ (sub (Geojson.bMinLat b) corridorBufferDeg)
         || ltb (add (Geojson.bMaxLat b) corridorBufferDeg) lat_
         || ltb lng_ (sub (Geojson.bMinLng b) corridorBufferDeg)
         || ltb (add (Geojson.bMaxLng b) corridorBufferDeg) lng_ then None
      else if Geojson.PointInOrNearGeometry lat_ lng_ geom corridorBufferMeters then Some (p, zero)
      else None.

(** Most specific first, then nearest town, then name. *)
Definition specific_less (a b : Place * float64) : bool :=
  let '(sa, sb) := (placeSpecificity (p_kind a.1), placeSpecificity (p_kind b.1)) in
  if negb (sa =? sb) then sa <? sb
  else if negb (eqb a.2 b.2) then ltb a.2 b.2
  else str_ltb (p_name a.1) (p_name b.1).
Definition specific_le (a b : Place * float64) : Prop := specific_less b a = false.
#[export] Instance specific_le_dec : RelDecision specific_le.
Proof. intros a b. unfold specific_le. apply _. Defined.

Definition PlacesContaining (lat_ lng_ : float64) : M (list Place) :=
  Tx.query (fun d => (merge_sort specific_le (omap (containing lat_ lng_) (map_to_list (places d)).*2)).*1).
End Containing.

End Places.
