(* ===== verification/Mesh.v ===== *)
(** * The mesh measurement store

    [internal/store/{mesh,mesh_activity,mesh_telemetry}.go]: receptions and
    their compaction into the per-link rollup, activity clocks, the telemetry
    archive. Tables of their own, beside the event tables of [Store] and behind
    the same [inTx]. *)

From S2P Require Import Prelude Float64 Tx.

Module Mesh.
Import F64.
Open Scope tx_scope.

(** ** Tables *)

(** [mesh_observations], in rowid order: an insert takes the largest rowid of
    the table plus one, or 1 when it is empty. *)
Record ObsRow := mkObsRow {
  o_id : Z; o_pubkey : string; o_heard_at : Z; o_broker : string; o_gateway : string;
  o_snr : option float64; o_rssi : Z; o_hop_count : Z; o_path : string; o_path_nodes : string }.

(** [mesh_link_rollup]. *)
Record Rollup := mkRollup {
  ru_observations : Z; ru_best_snr : float64; ru_first_seen : Z; ru_last_seen : Z }.

(** The readings of a telemetry sample; a gauge may be absent. *)
Record Readings := mkReadings {
  BatteryVolts : option float64; BatteryPct : option float64; BatteryPctSource : string;
  TemperatureC : option float64; Humidity : option float64; Pressure : option float64;
  NoiseFloorDBm : option Z; LastSNRdB : option float64; LastRSSIdBm : option Z;
  TxQueueLen : option Z;
  UptimeS : Z; AirtimeMs : Z; RxAirtimeMs : Z; PacketsSent : Z; PacketsRecv : Z; SentFlood : Z;
  SentDirect : Z; RecvFlood : Z; RecvDirect : Z; DirectDups : Z; FloodDups : Z; FullEvts : Z;
  RecvErrors : Z }.

(** [mesh_telemetry], without its key (pubkey, reported_at). *)
Record TelemetryRow := mkTelemetryRow {
  t_received_at : Z; t_reporter : string; t_last_success_at : option Z;
  t_last_attempt_at : option Z; t_readings : Readings }.

(** An edge of one day. *)
Definition edgeKey : Type := string * string * Z.

Record MeshDB := mkMeshDB {
  mesh_observations : list ObsRow;
  mesh_link_rollup : gmap edgeKey Rollup;
  mesh_meta : gmap string Z;
  mesh_activity : gmap string (Z * Z);
  mesh_telemetry : gmap (string * Z) TelemetryRow;
}.

Definition set_observations (x : list ObsRow) (d : MeshDB) : MeshDB :=
  mkMeshDB x (mesh_link_rollup d) (mesh_meta d) (mesh_activity d) (mesh_telemetry d).
Definition set_rollup (x : gmap edgeKey Rollup) (d : MeshDB) : MeshDB :=
  mkMeshDB (mesh_observations d) x (mesh_meta d) (mesh_activity d) (mesh_telemetry d).
Definition set_meta (x : gmap string Z) (d : MeshDB) : MeshDB :=
  mkMeshDB (mesh_observations d) (mesh_link_rollup d) x (mesh_activity d) (mesh_telemetry d).
Definition set_activity (x : gmap string (Z * Z)) (d : MeshDB) : MeshDB :=
  mkMeshDB (mesh_observations d) (mesh_link_rollup d) (mesh_meta d) x (mesh_telemetry d).
Definition set_mesh_telemetry (x : gmap (string * Z) TelemetryRow) (d : MeshDB) : MeshDB :=
  mkMeshDB (mesh_observations d) (mesh_link_rollup d) (mesh_meta d) (mesh_activity d) x.

(** The process's state: [meshActivityVersion]. *)
Definition M := Tx.M MeshDB Z.

(** [MeshObservation], [MeshActivity], [MeshTelemetrySample]. *)
Record MeshObservation := mkMeshObservation {
  ob_PubKey : string; HeardAt : Time; Broker : string; Gateway : string; SNR : float64; RSSI : Z;
  HopCount : Z; Path : list string; PathNodes : list string }.
Record MeshActivity := mkMeshActivity {
  a_PubKey : string; LastHeardAt : Time; LastRelayedAt : Time }.
Record MeshTelemetrySample := mkMeshTelemetrySample {
  t_PubKey : string; ReportedAt : Time; ReceivedAt : Time; Reporter : string;
  LastSuccessAt : Time; LastAttemptAt : Time; t_Readings : Readings }.

Definition secondsPerDay : Z := 86400.
Definition maxCompactBatch : nat := 5000.
Definition watermarkKey : string := "compaction_watermark".
Definition maxTelemetryRows : nat := 20000.
Definition meshActivityReadChunk : nat := 500.

(** ** Strings *)

(** [strings.Join(l, ",")] and [splitList]. *)
Fixpoint join_comma (l : list string) : string :=
  match l with
  | [] => ""
  | [s] => s
  | s :: l => s +:+ "," +:+ join_comma l
  end.

Fixpoint split_comma (s : string) : list string :=
  match s with
  | EmptyString => [""]
  | String c s =>
      if bool_decide (c = Ascii.ascii_of_N 44) then "" :: split_comma s
      else match split_comma s with
           | [] => [String c ""]
           | w :: ws => String c w :: ws
           end
  end.

Definition splitList (s : string) : list string :=
  if bool_decide (s = "") then [] else split_comma s.

(** [strings.ToLower] of an ASCII string (a hex key). *)
Definition lower_char (c : Ascii.ascii) : Ascii.ascii :=
  let n := Ascii.N_of_ascii c in
  if (65 <=? n)%N && (n <=? 90)%N then Ascii.ascii_of_N (n + 32) else c.
Fixpoint ToLower (s : string) : string :=
  match s with EmptyString => EmptyString | String c s => String (lower_char c) (ToLower s) end.

(** [unixOrZero], [timeOrZero], [unixTimeOrNil]. *)
Definition unixOrZero (t : Time) : Z := if time_is_zero t then 0 else time_unix t.
Definition timeOrZero (unix : Z) : Time := if unix <=? 0 then time_zero else time_of_unix unix.
Definition unixTimeOrNil (t : Time) : option Z := if time_is_zero t then None else Some (time_unix t).

(** ** Receptions and activity *)

Definition next_obs_id (l : list ObsRow) : Z := 1 + foldr Z.max 0 (o_id <$> l).

(** A NaN is stored as NULL. *)
Definition obs_row (id : Z) (o : MeshObservation) : ObsRow :=
  mkObsRow id (ob_PubKey o) (time_unix (HeardAt o)) (Broker o) (Gateway o)
    (if is_nan (SNR o) then None else Some (SNR o)) (RSSI o) (HopCount o) (join_comma (Path o))
    (join_comma (PathNodes o)).

(** [PrepareContext]: a round trip that changes nothing. *)
Definition prepare : M unit := Tx.exec (fun d => d).

Definition insertMeshObservations (obs : list MeshObservation) : M unit :=
  (if Nat.eqb (length obs) 0 then Tx.ret tt else prepare) ;;;
  Tx.foreach (fun o => Tx.exec (fun d =>
    set_observations (mesh_observations d ++ [obs_row (next_obs_id (mesh_observations d)) o]) d)) obs.

(** The upsert of one node's clocks: each keeps its later time. *)
Definition merge_activity (m : gmap string (Z * Z)) (a : MeshActivity) : gmap string (Z * Z) :=
  let pk := ToLower (a_PubKey a) in
  let new := (unixOrZero (LastHeardAt a), unixOrZero (LastRelayedAt a)) in
  <[pk := match m !! pk with
          | None => new
          | Some old => (Z.max old.1 new.1, Z.max old.2 new.2)
          end]> m.

Definition upsertMeshActivity (act : list MeshActivity) : M unit :=
  (if Nat.eqb (length act) 0 then Tx.ret tt else prepare) ;;;
  Tx.foreach (fun a =>
    if bool_decide (ToLower (a_PubKey a) = "") then Tx.ret tt
    else Tx.exec (fun d => set_activity (merge_activity (mesh_activity d) a) d)) act.

Definition RecordMeshTick (obs : list MeshObservation) (act : list MeshActivity) : M unit :=
  if Nat.eqb (length obs) 0 && Nat.eqb (length act) 0 then Tx.ret tt
  else
    Tx.inTx (insertMeshObservations obs ;;; upsertMeshActivity act) ;;;
    (if Nat.eqb (length act) 0 then Tx.ret tt else Tx.put_mem (fun v => v + 1)).

(** [MeshNodeHeardTimes]: per node the latest [maxPerNode] (0: all), oldest
    first. *)
Definition heard_times (l : list ObsRow) (pk : string) : list Z :=
  merge_sort Z.le (o_heard_at <$> filter (fun o => o_pubkey o = pk) l).

Definition keep_last (n : nat) (l : list Z) : list Z :=
  if (0 <? n)%nat && (n <? length l)%nat then drop (length l - n) l else l.

Definition MeshNodeHeardTimes (maxPerNode : nat) : M (gmap string (list Time)) :=
  Tx.query (fun d => list_to_map ((fun pk =>
    (pk, time_of_unix <$> keep_last maxPerNode (heard_times (mesh_observations d) pk)))
    <$> remove_dups (o_pubkey <$> mesh_observations d))).

(** [MeshObservationPaths]. *)
Definition heard_le (a b : ObsRow) : Prop := o_heard_at a <= o_heard_at b.
#[export] Instance heard_le_dec : RelDecision heard_le.
Proof. intros a b. unfold heard_le. apply _. Defined.

Definition MeshObservationPaths (since : Time) : M (list MeshObservation) :=
  Tx.query (fun d => (fun o => mkMeshObservation (o_pubkey o) (time_of_unix (o_heard_at o))
      (o_broker o) (o_gateway o) zero 0 0 (splitList (o_path o)) [])
    <$> merge_sort heard_le (filter (fun o => time_unix since <= o_heard_at o /\ o_path o <> "")
                               (mesh_observations d))).

Definition CountMeshObservations : M Z :=
  Tx.query (fun d => Z.of_nat (length (mesh_observations d))).

(** [MeshActivityFor]: one query per chunk of distinct lowered keys. *)
Fixpoint chunks_of (n fuel : nat) (l : list string) : list (list string) :=
  match fuel, l with
  | _, [] => []
  | O, _ => []
  | S fuel, _ => take n l :: chunks_of n fuel (drop n l)
  end.

Definition activity_of (x : string * (Z * Z)) : MeshActivity :=
  mkMeshActivity x.1 (timeOrZero x.2.1) (timeOrZero x.2.2).

Fixpoint read_chunks (bs : list (list string)) (out : gmap string MeshActivity)
    : M (gmap string MeshActivity) :=
  match bs with
  | [] => Tx.ret out
  | b :: bs =>
      rows <-- Tx.query (fun d => filter (fun x => x.1 ∈ b) (mesh_activity d)) ;;
      read_chunks bs (map_imap (fun pk v => Some (activity_of (pk, v))) rows ∪ out)
  end.

Definition MeshActivityFor (pubkeys : list string) : M (gmap string MeshActivity) :=
  let keys := remove_dups (filter (fun pk => pk <> "") (ToLower <$> pubkeys)) in
  read_chunks (chunks_of meshActivityReadChunk (length keys) keys) ∅.

(** ** Compaction *)

(** [eachEdge]: the canonical edges of a relay chain. *)
Fixpoint eachEdge (prev : string) (pathNodes : list string) : list (string * string) :=
  match pathNodes with
  | [] => []
  | hop :: rest =>
      (if bool_decide (prev = "") || bool_decide (hop = "") || bool_decide (prev = hop) then []
       else if str_ltb hop prev then [(hop, prev)] else [(prev, hop)]) ++ eachEdge hop rest
  end.

Definition bucket_of (heard : Z) : Z := heard - Z.rem heard secondsPerDay.

Definition row_edges (o : ObsRow) : list edgeKey :=
  (fun ab => (ab.1, ab.2, bucket_of (o_heard_at o))) <$> eachEdge (o_pubkey o) (splitList (o_path_nodes o)).

Definition Float64 (v : option float64) : float64 := default zero v.

(** One edge of one reception, into [edgeAgg]. *)
Definition agg_edge (o : ObsRow) (agg : gmap edgeKey Rollup) (k : edgeKey) : gmap edgeKey Rollup :=
  let h := o_heard_at o in
  let e := default (mkRollup 0 (Float64 (o_snr o)) h h) (agg !! k) in
  <[k := mkRollup (ru_observations e + 1)
           (match o_snr o with Some s => if ltb (ru_best_snr e) s then s else ru_best_snr e
            | None => ru_best_snr e end)
           (if h <? ru_first_seen e then h else ru_first_seen e)
           (if ru_last_seen e <? h then h else ru_last_seen e)]> agg.

Definition agg_row (agg : gmap edgeKey Rollup) (o : ObsRow) : gmap edgeKey Rollup :=
  foldl (agg_edge o) agg (row_edges o).

Definition aggregate (l : list ObsRow) : gmap edgeKey Rollup := foldl agg_row ∅ l.

(** ON CONFLICT DO UPDATE of the rollup. *)
Definition merge_rollup (old new : Rollup) : Rollup :=
  mkRollup (ru_observations old + ru_observations new)
    (if ltb (ru_best_snr old) (ru_best_snr new) then ru_best_snr new else ru_best_snr old)
    (Z.min (ru_first_seen old) (ru_first_seen new)) (Z.max (ru_last_seen old) (ru_last_seen new)).

Definition upsert_rollup (k : edgeKey) (e : Rollup) (m : gmap edgeKey Rollup) : gmap edgeKey Rollup :=
  <[k := match m !! k with None => e | Some old => merge_rollup old e end]> m.

(** [readWatermark]. *)
Definition watermark (d : MeshDB) : Z := default 0 (mesh_meta d !! watermarkKey).
Definition readWatermark : M Z := Tx.query watermark.

(** The receptions past a watermark. *)
Definition past (w : Z) (d : MeshDB) : list ObsRow :=
  filter (fun o => w < o_id o) (mesh_observations d).

Definition compactChunk : M nat :=
  Tx.inTx (
    w <-- readWatermark ;;
    rows <-- Tx.query (fun d => take maxCompactBatch (past w d)) ;;
    match last rows with
    | None => Tx.ret 0%nat
    | Some final =>
        let agg := aggregate rows in
        (if bool_decide (agg = ∅) then Tx.ret tt else prepare) ;;;
        Tx.foreach (fun x => Tx.exec (fun d =>
          set_rollup (upsert_rollup x.1 x.2 (mesh_link_rollup d)) d)) (map_to_list agg) ;;;
        Tx.exec (fun d => set_meta (<[watermarkKey := o_id final]> (mesh_meta d)) d) ;;;
        Tx.ret (length rows)
    end).

(** [CompactMeshObservations]: the total so far, with the error of the chunk
    that failed. *)
Fixpoint compact_loop (fuel : nat) (total : nat) : M (nat * option Tx.error) :=
  match fuel with
  | O => Tx.fail "fuel"
  | S fuel =>
      r <-- Tx.try compactChunk ;;
      match r with
      | inl e => Tx.ret (total, Some e)
      | inr n =>
          if (n <? maxCompactBatch)%nat then Tx.ret (total + n, None)%nat
          else compact_loop fuel (total + n)%nat
      end
  end.

Definition CompactMeshObservations (fuel : nat) : M (nat * option Tx.error) := compact_loop fuel 0.

(** ** Pruning *)

Definition PruneMeshObservations (cutoff : Time) : M Z :=
  Tx.inTx (
    w <-- readWatermark ;;
    let old := fun o => o_heard_at o < time_unix cutoff /\ o_id o <= w in
    n <-- Tx.M_lookup (fun d => length (filter old (mesh_observations d))) ;;
    Tx.exec (fun d => set_observations (filter (fun o => ~ old o) (mesh_observations d)) d) ;;;
    Tx.ret (Z.of_nat n)).

Definition PruneMeshLinkRollup (cutoff : Time) : M Z :=
  Tx.inTx (
    let old := fun x : edgeKey * Rollup => x.1.2 < time_unix cutoff in
    n <-- Tx.M_lookup (fun d => size (filter old (mesh_link_rollup d))) ;;
    Tx.exec (fun d => set_rollup (filter (fun x => ~ old x) (mesh_link_rollup d)) d) ;;;
    Tx.ret (Z.of_nat n)).

Definition PruneMeshTelemetry (cutoff : Time) : M Z :=
  Tx.inTx (
    let old := fun x : (string * Z) * TelemetryRow => x.1.2 < time_unix cutoff in
    n <-- Tx.M_lookup (fun d => size (filter old (mesh_telemetry d))) ;;
    Tx.exec (fun d => set_mesh_telemetry (filter (fun x => ~ old x) (mesh_telemetry d)) d) ;;;
    Tx.ret (Z.of_nat n)).

(** ** Links *)

Record linkAcc := mkLinkAcc {
  l_observations : Z; l_bestSNR : float64; l_haveSNR : bool; l_firstSeen : Z; l_lastSeen : Z;
  l_days : gset Z }.

(** [note], on a fresh accumulator when the link has none. *)
Definition note (k : string * string) (count : Z) (snr : option float64) (first last day : Z)
    (acc : gmap (string * string) linkAcc) : gmap (string * string) linkAcc :=
  let e := default (mkLinkAcc 0 zero false (2 ^ 62) 0 ∅) (acc !! k) in
  let better := match snr with
                | Some s => negb (l_haveSNR e) || ltb (l_bestSNR e) s
                | None => false
                end in
  <[k := mkLinkAcc (l_observations e + count)
           (if better then Float64 snr else l_bestSNR e) (better || l_haveSNR e)
           (if first <? l_firstSeen e then first else l_firstSeen e)
           (if l_lastSeen e <? last then last else l_lastSeen e) ({[day]} ∪ l_days e)]> acc.

Record MeshLink := mkMeshLink {
  ln_A : string; ln_B : string; ln_Observations : Z; ln_BestSNR : float64; ln_FirstSeen : Time;
  ln_LastSeen : Time; ln_DaysActive : Z }.

(** Strongest first, then by key. *)
Definition link_leb (x y : MeshLink) : bool :=
  if ln_Observations x =? ln_Observations y then
    if bool_decide (ln_A x = ln_A y) then str_leb (ln_B x) (ln_B y) else str_leb (ln_A x) (ln_A y)
  else ln_Observations y <? ln_Observations x.
Definition link_le (x y : MeshLink) : Prop := link_leb x y = true.
#[export] Instance link_le_dec : RelDecision link_le.
Proof. intros x y. unfold link_le. apply _. Defined.

Definition note_rollup (acc : gmap (string * string) linkAcc) (x : edgeKey * Rollup) :=
  let '((a, b, bucket), e) := x in
  note (a, b) (ru_observations e) (Some (ru_best_snr e)) (ru_first_seen e) (ru_last_seen e) bucket acc.

Definition note_row (acc : gmap (string * string) linkAcc) (o : ObsRow) :=
  foldl (fun acc ab => note ab 1 (o_snr o) (o_heard_at o) (o_heard_at o) (bucket_of (o_heard_at o)) acc)
    acc (eachEdge (o_pubkey o) (splitList (o_path_nodes o))).

Definition link_of (x : (string * string) * linkAcc) : MeshLink :=
  let '((a, b), e) := x in
  mkMeshLink a b (l_observations e) (l_bestSNR e) (time_of_unix (l_firstSeen e))
    (time_of_unix (l_lastSeen e)) (Z.of_nat (size (l_days e))).

Definition MeshLinks (since : Time) : M (list MeshLink) :=
  let sinceBucket := time_unix since - Z.rem (time_unix since) secondsPerDay in
  rollup <-- Tx.query (fun d =>
    map_to_list (filter (fun x : edgeKey * Rollup => sinceBucket <= x.1.2) (mesh_link_rollup d))) ;;
  w <-- readWatermark ;;
  tail <-- Tx.query (fun d => filter (fun o => time_unix since <= o_heard_at o) (past w d)) ;;
  let acc := foldl note_row (foldl note_rollup ∅ rollup) tail in
  Tx.ret (merge_sort link_le (link_of <$> map_to_list acc)).

(** ** The telemetry archive *)

(** SQLite stores a NaN as NULL. *)
Definition stored_real (v : option float64) : option float64 :=
  x ← v; if is_nan x then None else Some x.

Definition stored_readings (r : Readings) : Readings :=
  mkReadings (stored_real (BatteryVolts r)) (stored_real (BatteryPct r)) (BatteryPctSource r)
    (stored_real (TemperatureC r)) (stored_real (Humidity r)) (stored_real (Pressure r))
    (NoiseFloorDBm r) (stored_real (LastSNRdB r)) (LastRSSIdBm r) (TxQueueLen r)
    (UptimeS r) (AirtimeMs r) (RxAirtimeMs r) (PacketsSent r) (PacketsRecv r) (SentFlood r)
    (SentDirect r) (RecvFlood r) (RecvDirect r) (DirectDups r) (FloodDups r) (FullEvts r) (RecvErrors r).

Definition telemetry_row (t : MeshTelemetrySample) : TelemetryRow :=
  mkTelemetryRow (time_unix (ReceivedAt t)) (Reporter t) (unixTimeOrNil (LastSuccessAt t))
    (unixTimeOrNil (LastAttemptAt t)) (stored_readings (t_Readings t)).

Definition at_le (x y : (string * Z) * TelemetryRow) : Prop := x.1.2 <= y.1.2.
#[export] Instance at_le_dec : RelDecision at_le.
Proof. intros x y. unfold at_le. apply _. Defined.

(** The node's previous row from that reporter. *)
Definition prev_row (pk reporter : string) (at_ : Z) (m : gmap (string * Z) TelemetryRow)
    : option TelemetryRow :=
  snd <$> last (merge_sort at_le (map_to_list (filter (fun x : (string * Z) * TelemetryRow =>
    x.1.1 = pk /\ t_reporter x.2 = reporter /\ x.1.2 < at_) m))).

(** A sample that carries no identity or no time, and one that repeats the read
    of the row before it. *)
Definition unusable (t : MeshTelemetrySample) : bool :=
  bool_decide (t_PubKey t = "") || time_is_zero (ReportedAt t).

Definition repeats (t : MeshTelemetrySample) (m : gmap (string * Z) TelemetryRow) : bool :=
  match prev_row (t_PubKey t) (Reporter t) (time_unix (ReportedAt t)) m with
  | Some p => bool_decide (t_last_success_at p = Some (time_unix (LastSuccessAt t)))
  | None => false
  end.

(** INSERT OR IGNORE. *)
Definition insert_new (t : MeshTelemetrySample) (m : gmap (string * Z) TelemetryRow)
    : gmap (string * Z) TelemetryRow :=
  let k := (t_PubKey t, time_unix (ReportedAt t)) in
  match m !! k with Some _ => m | None => <[k := telemetry_row t]> m end.

Definition insertSample (t : MeshTelemetrySample) : M unit :=
  if unusable t then Tx.ret tt
  else
    same <-- (if time_is_zero (LastSuccessAt t) then Tx.ret false
              else Tx.query (fun d => repeats t (mesh_telemetry d))) ;;
    if same then Tx.ret tt
    else Tx.exec (fun d => set_mesh_telemetry (insert_new t (mesh_telemetry d)) d).

Definition InsertMeshTelemetry (samples : list MeshTelemetrySample) : M unit :=
  if Nat.eqb (length samples) 0 then Tx.ret tt
  else Tx.inTx (prepare ;;; prepare ;;; Tx.foreach insertSample samples).

Definition sample_of (x : (string * Z) * TelemetryRow) : MeshTelemetrySample :=
  let '((pk, at_), r) := x in
  mkMeshTelemetrySample pk (time_of_unix at_) (time_of_unix (t_received_at r)) (t_reporter r)
    (default time_zero (time_of_unix <$> t_last_success_at r))
    (default time_zero (time_of_unix <$> t_last_attempt_at r)) (t_readings r).

(** [MeshTelemetry]: the samples of [from, to), oldest first, and whether the
    limit cut them. *)
Definition MeshTelemetry (pubkey : string) (from to : Time) : M (list MeshTelemetrySample * bool) :=
  Tx.query (fun d =>
    let rows := take (maxTelemetryRows + 1) (merge_sort at_le (map_to_list
      (filter (fun x : (string * Z) * TelemetryRow =>
         x.1.1 = pubkey /\ time_unix from <= x.1.2 /\ x.1.2 < time_unix to) (mesh_telemetry d)))) in
    if (maxTelemetryRows <? length rows)%nat
    then (sample_of <$> take maxTelemetryRows rows, true) else (sample_of <$> rows, false)).

Definition MeshTelemetryCoverage (pubkey : string) : M (Time * Time * Z) :=
  Tx.query (fun d =>
    let at_s := (fun x : (string * Z) * TelemetryRow => x.1.2) <$> map_to_list
      (filter (fun x : (string * Z) * TelemetryRow => x.1.1 = pubkey) (mesh_telemetry d)) in
    match at_s with
    | [] => (time_zero, time_zero, 0)
    | a :: l => (time_of_unix (foldr Z.min a l), time_of_unix (foldr Z.max a l), Z.of_nat (length at_s))
    end).

(** [RenameMeshTelemetryPubKey]. UPDATE OR IGNORE leaves a row whose new key is
    taken; the DELETE then drops it. *)
Definition of_key (pk : string) (m : gmap (string * Z) TelemetryRow) : gmap (string * Z) TelemetryRow :=
  filter (fun x : (string * Z) * TelemetryRow => x.1.1 = pk) m.
Definition not_of_key (pk : string) (m : gmap (string * Z) TelemetryRow) : gmap (string * Z) TelemetryRow :=
  filter (fun x : (string * Z) * TelemetryRow => x.1.1 <> pk) m.
Definition taken (to : string) (m : gmap (string * Z) TelemetryRow) (x : (string * Z) * TelemetryRow) : bool :=
  bool_decide (is_Some (m !! (to, x.1.2))).
Definition rekey (to : string) (l : list ((string * Z) * TelemetryRow)) : gmap (string * Z) TelemetryRow :=
  list_to_map ((fun x => ((to, x.1.2), x.2)) <$> l).

Definition update_or_ignore (from to : string) (m : gmap (string * Z) TelemetryRow) :=
  let src := map_to_list (of_key from m) in
  not_of_key from m ∪ rekey to (filter (fun x => taken to m x = false) src)
    ∪ list_to_map (filter (fun x => taken to m x = true) src).

Definition RenameMeshTelemetryPubKey (from to : string) : M Z :=
  if bool_decide (from = "") || bool_decide (to = "") || bool_decide (from = to) then Tx.ret 0
  else
    Tx.inTx (
      n <-- Tx.M_lookup (fun d => length (filter (fun x => taken to (mesh_telemetry d) x = false)
                                            (map_to_list (of_key from (mesh_telemetry d))))) ;;
      Tx.exec (fun d => set_mesh_telemetry (update_or_ignore from to (mesh_telemetry d)) d) ;;;
      Tx.exec (fun d => set_mesh_telemetry (not_of_key from (mesh_telemetry d)) d) ;;;
      Tx.ret (Z.of_nat n)).

(** ** Activity clocks *)

(** What [upsertMeshActivity] makes of the table. *)
Definition merge_all (act : list MeshActivity) (m : gmap string (Z * Z)) : gmap string (Z * Z) :=
  foldl merge_activity m (filter (fun a => ToLower (a_PubKey a) <> "") act).

(** No clock of [m] is later than in [m']. *)
Definition no_later (m m' : gmap string (Z * Z)) : Prop :=
  forall pk c, m !! pk = Some c -> exists c', m' !! pk = Some c' /\ c.1 <= c'.1 /\ c.2 <= c'.2.

#[export] Instance no_later_preorder : PreOrder no_later.
Proof.
  split; [intros m pk c; eauto with lia|]. intros m1 m2 m3 H1 H2 pk c Hc.
  destruct (H1 _ _ Hc) as (c2 & Hc2 & ? & ?). destruct (H2 _ _ Hc2) as (c3 & Hc3 & ? & ?).
  exists c3. split; [done|]. lia.
Qed.

Definition absorbed (a : MeshActivity) (m : gmap string (Z * Z)) : Prop :=
  exists c, m !! ToLower (a_PubKey a) = Some c
    /\ unixOrZero (LastHeardAt a) <= c.1 /\ unixOrZero (LastRelayedAt a) <= c.2.

Lemma merge_activity_spec m a : no_later m (merge_activity m a) /\ absorbed a (merge_activity m a).
Proof.
  unfold merge_activity, absorbed. split.
  - intros pk c Hc. destruct (decide (pk = ToLower (a_PubKey a))) as [-> |Hne].
    + rewrite lookup_insert_eq, Hc. eexists. split; [done|]. cbn. lia.
    + rewrite lookup_insert_ne by done. eauto with lia.
  - rewrite lookup_insert_eq. eexists. split; [done|]. destruct (m !! _); cbn; lia.
Qed.

Lemma absorbed_mono a m m' : no_later m m' -> absorbed a m -> absorbed a m'.
Proof.
  intros H (c & Hc & ? & ?). destruct (H _ _ Hc) as (c' & ? & ? & ?). exists c'. split; [done|]. lia.
Qed.

Lemma merge_absorbed a m : absorbed a m -> merge_activity m a = m.
Proof.
  intros ([h r] & Hc & ? & ?). cbn in *. unfold merge_activity. rewrite Hc. cbn.
  rewrite !Z.max_l by lia. by rewrite insert_id.
Qed.

Lemma foldl_merge l m :
  no_later m (foldl merge_activity m l) /\ forall a, a ∈ l -> absorbed a (foldl merge_activity m l).
Proof.
  revert m. induction l as [|a l IH]; intros m; cbn.
  - split; [done|]. by intros a ?%not_elem_of_nil.
  - destruct (merge_activity_spec m a) as [H1 H2]. destruct (IH (merge_activity m a)) as [H3 H4]. split.
    + by etrans.
    + intros b [-> |Hb]%elem_of_cons; [by eapply absorbed_mono|auto].
Qed.

Lemma foldl_merge_absorbed l m : (forall a, a ∈ l -> absorbed a m) -> foldl merge_activity m l = m.
Proof.
  induction l as [|a l IH]; intros H; cbn; [done|]. rewrite merge_absorbed by (apply H; by left).
  apply IH. intros b Hb. apply H. by right.
Qed.

Lemma upsertMeshActivity_wp act (Q : unit -> MeshDB -> Z -> Prop) d c :
  Q tt (set_activity (merge_all act (mesh_activity d)) d) c -> Tx.wp (upsertMeshActivity act) Q d c.
Proof.
  intros HQ. unfold upsertMeshActivity. wp_step.
  assert (Hloop : Tx.wp (Tx.foreach (fun a =>
      if bool_decide (ToLower (a_PubKey a) = "") then Tx.ret tt
      else Tx.exec (fun d => set_activity (merge_activity (mesh_activity d) a) d)) act) Q d c).
  { eapply Tx.wp_mono; [|apply (Tx.wp_foreach _ (fun pre d' c' =>
      c' = c /\ d' = set_activity (merge_all pre (mesh_activity d)) d))].
    - by intros [] d' c' [-> ->].
    - intros pre a d' c' _ [-> ->]. unfold merge_all. rewrite filter_app, foldl_app.
      case_bool_decide as Ha.
      + wp_step. by rewrite filter_cons_False by auto.
      + wp_step. by rewrite filter_cons_True by auto.
    - split; [done|]. by destruct d. }
  destruct (Nat.eqb _ _); [by wp_step|]. unfold prepare. by wp_step.
Qed.

Lemma next_obs_id_pos l : 1 <= next_obs_id l.
Proof. unfold next_obs_id. induction (o_id <$> l); cbn; lia. Qed.

Lemma next_obs_id_bound l o : o ∈ l -> o_id o < next_obs_id l.
Proof.
  unfold next_obs_id. induction l as [|o' l IH]; [by intros ?%not_elem_of_nil|].
  intros [-> |Ho]%elem_of_cons; cbn; [lia|]. specialize (IH Ho). lia.
Qed.

Lemma next_obs_id_snoc l o : o_id o = next_obs_id l -> next_obs_id (l ++ [o]) = next_obs_id l + 1.
Proof.
  intros Ho. pose proof (next_obs_id_pos l) as Hp. unfold next_obs_id in *. rewrite fmap_app, foldr_app.
  cbn. assert (H : forall k b, 0 <= b -> foldr Z.max b k = Z.max b (foldr Z.max 0 k)).
  { intros k b Hb. induction k; cbn; lia. }
  rewrite H; lia.
Qed.

Lemma insertMeshObservations_wp obs (Q : unit -> MeshDB -> Z -> Prop) d c :
  (forall x, length x = length obs ->
     ((forall o, o ∈ x -> next_obs_id (mesh_observations d) <= o_id o
         < next_obs_id (mesh_observations d) + Z.of_nat (length obs))
      /\ (row_edges <$> x) = (fun o => row_edges (obs_row 0 o)) <$> obs) ->
     Q tt (set_observations (mesh_observations d ++ x) d) c) ->
  Tx.wp (insertMeshObservations obs) Q d c.
Proof.
  intros HQ. unfold insertMeshObservations. wp_step.
  assert (Hloop : Tx.wp (Tx.foreach (fun o => Tx.exec (fun d =>
    set_observations (mesh_observations d ++ [obs_row (next_obs_id (mesh_observations d)) o]) d)) obs) Q d c).
  { eapply Tx.wp_mono; [|apply (Tx.wp_foreach _ (fun pre d' c' => c' = c /\ exists x,
      d' = set_observations (mesh_observations d ++ x) d /\ length x = length pre
      /\ next_obs_id (mesh_observations d') = next_obs_id (mesh_observations d) + Z.of_nat (length pre)
      /\ (forall o, o ∈ x -> next_obs_id (mesh_observations d) <= o_id o
         < next_obs_id (mesh_observations d) + Z.of_nat (length pre))
      /\ (row_edges <$> x) = (fun o => row_edges (obs_row 0 o)) <$> pre))].
    - intros [] d' c' (-> & x & -> & Hx & _ & Hr). auto.
    - intros pre o d' c' _ (-> & x & -> & Hx & Hn & Hids & He). wp_step. split; [done|].
      eexists (x ++ [_]). cbn in Hn |- *. rewrite <-app_assoc, !length_app, Hx. cbn. split_and!; [done..| | |].
      + rewrite app_assoc, next_obs_id_snoc by done. lia.
      + intros o' [Ho'| ->%list_elem_of_singleton]%elem_of_app; [specialize (Hids _ Ho'); lia|]. cbn. lia.
      + rewrite !fmap_app, He. done.
    - split; [done|]. exists []. cbn. rewrite app_nil_r. split_and!; [by destruct d|done|lia| |done].
      by intros o ?%not_elem_of_nil. }
  destruct (Nat.eqb _ _); [by wp_step|]. unfold prepare. by wp_step.
Qed.

(** A node's activity clocks never move back, whatever a tick reports and
    whatever fails; a tick that is written leaves each clock at least at the
    time it reported, and writing it again changes nothing. *)
Theorem activity_monotone obs act s r s' :
  RecordMeshTick obs act s = (r, s') ->
  no_later (mesh_activity (Tx.db s)) (mesh_activity (Tx.db s'))
  /\ (r = inr tt ->
      (forall a, a ∈ act -> ToLower (a_PubKey a) <> "" -> absorbed a (mesh_activity (Tx.db s')))
      /\ forall r2 s2, RecordMeshTick [] act s' = (r2, s2) ->
           mesh_activity (Tx.db s2) = mesh_activity (Tx.db s')).
Proof.
  assert (Hrun : forall obs s r s', RecordMeshTick obs act s = (r, s') ->
    mesh_activity (Tx.db s') = mesh_activity (Tx.db s)
    /\ (act = [] \/ exists e, r = inl e)
    \/ mesh_activity (Tx.db s') = merge_all act (mesh_activity (Tx.db s))).
  { clear. intros obs s r s'. unfold RecordMeshTick.
    destruct (_ && _) eqn:E0.
    { apply andb_prop in E0 as [_ E0%Nat.eqb_eq%nil_length_inv]. intros [= <- <-]. left. auto. }
    unfold Tx.bind at 1. destruct (Tx.inTx _ s) as [[e|[]] s1] eqn:E.
    - intros [= <- <-]. left. apply Tx.inTx_err in E as ->. eauto.
    - intros Hs. assert (Hd : Tx.db s' = Tx.db s1) by (destruct (Nat.eqb _ _) in Hs; by injection Hs as _ <-).
      right. rewrite Hd. revert E.
      apply (Tx.wp_use _ (fun _ d' _ => mesh_activity d' = merge_all act (mesh_activity (Tx.db s)))).
      wp_step. wp_step. apply insertMeshObservations_wp. intros x _ _. by apply upsertMeshActivity_wp. }
  intros H. destruct (Hrun _ _ _ _ H) as [[Heq Hr]|Heq]; rewrite Heq.
  - split; [done|]. intros ->. destruct Hr as [-> |[e ?]]; [|done]. split.
    + by intros a ?%not_elem_of_nil.
    + intros r2 s2 H2. cbn in H2. by injection H2 as _ <-.
  - destruct (foldl_merge (filter (fun a => ToLower (a_PubKey a) <> "") act) (mesh_activity (Tx.db s)))
      as [H1 H2]. split; [exact H1|]. intros ->. split.
    + intros a Ha Hk. apply H2. by apply list_elem_of_filter.
    + intros r2 s2 H3. destruct (Hrun _ _ _ _ H3) as [[-> _]| ->]; rewrite ?Heq; [done|].
      by apply foldl_merge_absorbed.
Qed.

(** ** Compaction *)

Definition obs_at (m : gmap edgeKey Rollup) (k : edgeKey) : Z := default 0 (ru_observations <$> m !! k).

(** How often some receptions show an edge. *)
Fixpoint hits (k : edgeKey) (l : list edgeKey) : Z :=
  match l with [] => 0 | k' :: l => (if decide (k' = k) then 1 else 0) + hits k l end.
Definition edge_count (l : list ObsRow) (k : edgeKey) : Z := hits k (l ≫= row_edges).

(** What is recorded of an edge: rolled up, or still to be. *)
Definition total (d : MeshDB) (k : edgeKey) : Z :=
  obs_at (mesh_link_rollup d) k + edge_count (past (watermark d) d) k.

(** Rows are in the order of their ids. *)
Definition ordered_ids (l : list ObsRow) : Prop := StronglySorted (fun a b => o_id a < o_id b) l.

Lemma hits_app k l1 l2 : hits k (l1 ++ l2) = hits k l1 + hits k l2.
Proof. induction l1; cbn; [done|]. lia. Qed.

Lemma edge_count_app l1 l2 k : edge_count (l1 ++ l2) k = edge_count l1 k + edge_count l2 k.
Proof. unfold edge_count. by rewrite bind_app, hits_app. Qed.

Lemma agg_edge_obs o m k k' : obs_at (agg_edge o m k') k = obs_at m k + (if decide (k' = k) then 1 else 0).
Proof.
  unfold obs_at, agg_edge. destruct (decide (k' = k)) as [-> |Hne].
  - rewrite lookup_insert_eq. cbn. destruct (m !! k); cbn; lia.
  - rewrite lookup_insert_ne by done. lia.
Qed.

Lemma agg_row_obs o m k : obs_at (agg_row m o) k = obs_at m k + hits k (row_edges o).
Proof.
  unfold agg_row. revert m. induction (row_edges o) as [|k' l IH]; intros m; cbn; [lia|].
  rewrite IH, agg_edge_obs. lia.
Qed.

Lemma aggregate_obs l k : obs_at (aggregate l) k = edge_count l k.
Proof.
  unfold aggregate. assert (H : forall m, obs_at (foldl agg_row m l) k = obs_at m k + edge_count l k).
  { induction l as [|o l IH]; intros m; cbn; [unfold edge_count; cbn; lia|].
    rewrite IH, agg_row_obs. unfold edge_count. cbn. rewrite hits_app. lia. }
  rewrite H. unfold obs_at. by rewrite lookup_empty.
Qed.

Fixpoint sum_at (k : edgeKey) (l : list (edgeKey * Rollup)) : Z :=
  match l with [] => 0 | x :: l => (if decide (x.1 = k) then ru_observations x.2 else 0) + sum_at k l end.

Lemma sum_at_perm k l1 l2 : l1 ≡ₚ l2 -> sum_at k l1 = sum_at k l2.
Proof. induction 1; cbn; lia. Qed.

Lemma sum_at_map k m : sum_at k (map_to_list m) = obs_at m k.
Proof.
  induction m as [|k' x m Hm IH] using map_ind; [by rewrite map_to_list_empty|].
  rewrite (sum_at_perm _ _ _ (map_to_list_insert _ _ _ Hm)). cbn. rewrite IH. unfold obs_at.
  destruct (decide (k' = k)) as [-> |Hne].
  - rewrite Hm, lookup_insert_eq. cbn. lia.
  - by rewrite lookup_insert_ne by done.
Qed.

Lemma upsert_rollup_obs m k k' e :
  obs_at (upsert_rollup k' e m) k = obs_at m k + (if decide (k' = k) then ru_observations e else 0).
Proof.
  unfold upsert_rollup, obs_at. destruct (decide (k' = k)) as [-> |Hne].
  - rewrite lookup_insert_eq. cbn. destruct (m !! k); cbn; lia.
  - rewrite lookup_insert_ne by done. lia.
Qed.

(** The receptions past the last of a batch are those after the batch. *)
Lemma past_batch d w n final :
  ordered_ids (mesh_observations d) -> last (take n (past w d)) = Some final ->
  past (o_id final) d = drop n (past w d) /\ w < o_id final.
Proof.
  intros Hs Hl.
  assert (Hw : w < o_id final).
  { apply last_Some_elem_of in Hl. apply elem_of_take in Hl as (i & Hi & _).
    apply list_elem_of_lookup_2, list_elem_of_filter in Hi. tauto. }
  split; [|done].
  assert (Hp : past (o_id final) d = filter (fun o => o_id final < o_id o) (past w d)).
  { unfold past. rewrite list_filter_filter. apply list_filter_iff. intros o. lia. }
  assert (Hs' : ordered_ids (past w d)) by by apply StronglySorted_filter.
  rewrite Hp. clear Hp. rewrite <-(take_drop n (past w d)) in Hs' |- * at 1.
  set (L := take n (past w d)) in *. set (R := drop n (past w d)) in *. clearbody L R.
  unfold ordered_ids in Hs'. apply StronglySorted_app in Hs' as (HLR & HL & HR).
  apply last_Some in Hl as [L' ->]. rewrite filter_app, (filter_all _ R), filter_none; [done|..].
  - intros o [Ho| ->%list_elem_of_singleton]%elem_of_app; [|lia].
    assert (Ho' : o_id o < o_id final); [|lia].
    apply StronglySorted_app in HL as (HL & _ & _). apply HL; [done|by left].
  - intros o Ho. apply HLR; [|done]. apply elem_of_app. right. by left.
Qed.

(** What one chunk does: it rolls up the first receptions past the watermark
    and moves the watermark over them. *)
Definition chunk_post (d : MeshDB) (n : nat) (d' : MeshDB) : Prop :=
  mesh_observations d' = mesh_observations d /\ (forall k, total d' k = total d k)
  /\ watermark d <= watermark d'
  /\ n = Nat.min maxCompactBatch (length (past (watermark d) d))
  /\ past (watermark d') d' = drop maxCompactBatch (past (watermark d) d).

Lemma foldl_upsert_obs k l m :
  obs_at (foldl (fun m x => upsert_rollup x.1 x.2 m) m l) k = obs_at m k + sum_at k l.
Proof.
  revert m. induction l as [|x l IH]; intros m; cbn; [lia|]. rewrite IH, upsert_rollup_obs. lia.
Qed.

Lemma upsert_loop_wp (l : list (edgeKey * Rollup)) (Q : unit -> MeshDB -> Z -> Prop) d c :
  Q tt (set_rollup (foldl (fun m x => upsert_rollup x.1 x.2 m) (mesh_link_rollup d) l) d) c ->
  Tx.wp (Tx.foreach (fun x => Tx.exec (fun d =>
          set_rollup (upsert_rollup x.1 x.2 (mesh_link_rollup d)) d)) l) Q d c.
Proof.
  intros HQ. eapply Tx.wp_mono; [|apply (Tx.wp_foreach _ (fun pre d' c' => c' = c
    /\ d' = set_rollup (foldl (fun m x => upsert_rollup x.1 x.2 m) (mesh_link_rollup d) pre) d))].
  - by intros [] d' c' [-> ->].
  - intros pre x d' c' _ [-> ->]. wp_step. split; [done|]. cbn. by rewrite foldl_app.
  - split; [done|]. by destruct d.
Qed.

Lemma compactChunk_wp d c :
  ordered_ids (mesh_observations d) ->
  Tx.wp compactChunk (fun n d' c' => c' = c /\ chunk_post d n d') d c.
Proof.
  intros Hs. unfold compactChunk. wp_step. wp_step. unfold readWatermark. wp_step. wp_step. wp_step.
  set (L := past (watermark d) d). destruct (last (take maxCompactBatch L)) as [final|] eqn:El.
  - destruct (past_batch _ _ _ _ Hs El) as [Hp Hw]. wp_step.
    match goal with |- Tx.wp ?m ?Q d c => assert (Hgo : Q tt d c) end.
    { wp_step. apply upsert_loop_wp. wp_step. wp_step. wp_step. split; [done|].
      match goal with |- chunk_post d _ ?x => set (d' := x) end.
      assert (Hwm : watermark d' = o_id final) by (unfold watermark, d'; cbn; by rewrite lookup_insert_eq).
      assert (Hp' : past (watermark d') d' = drop maxCompactBatch L) by (rewrite Hwm; exact Hp).
      unfold chunk_post. rewrite Hp', Hwm. split_and!; [done| |lia|by rewrite length_take|done].
      intros k. unfold total. rewrite Hp'. fold L.
      change (mesh_link_rollup d') with (foldl (fun m x => upsert_rollup x.1 x.2 m) (mesh_link_rollup d)
        (map_to_list (aggregate (take maxCompactBatch L)))).
      rewrite foldl_upsert_obs, sum_at_map, aggregate_obs.
      rewrite <-(take_drop maxCompactBatch L) at 3. rewrite edge_count_app. lia. }
    case_bool_decide; [by wp_step|]. unfold prepare. by wp_step.
  - wp_step. split; [done|]. apply last_None in El.
    assert (HL : L = []).
    { apply (f_equal length) in El. rewrite length_take in El. unfold maxCompactBatch in El. cbn in El.
      destruct L; [done|]. cbn in El. lia. }
    unfold chunk_post. fold L. rewrite HL. split_and!; done || lia || by rewrite ?drop_nil.
Qed.

Lemma compactChunk_total d c : Tx.twp compactChunk (fun _ _ _ => True) d c.
Proof.
  unfold compactChunk, readWatermark. repeat twp_step. destruct (last _); [|by twp_step]. twp_step.
  apply (Tx.twp_mono _ (fun _ _ _ => True)).
  - intros [] d1 c1 _. twp_step. apply (Tx.twp_mono _ (fun _ _ _ => True)); [intros; by repeat twp_step|].
    apply (Tx.twp_foreach _ (fun _ _ _ => True)); [intros; by twp_step|done].
  - case_bool_decide; [|unfold prepare]; by twp_step.
Qed.

(** A chunk, failing or not. *)
Lemma compactChunk_keeps s r s' :
  ordered_ids (mesh_observations (Tx.db s)) -> compactChunk s = (r, s') ->
  mesh_observations (Tx.db s') = mesh_observations (Tx.db s)
  /\ (forall k, total (Tx.db s') k = total (Tx.db s) k) /\ watermark (Tx.db s) <= watermark (Tx.db s').
Proof.
  intros Hs Hrun. destruct r as [e|n].
  - apply Tx.inTx_err in Hrun as ->. done.
  - apply (Tx.wp_use _ _ _ _ _ (compactChunk_wp _ _ Hs)) in Hrun as [_ (H1 & H2 & H3 & _)]. done.
Qed.

Lemma compact_loop_keeps fuel n s r s' :
  ordered_ids (mesh_observations (Tx.db s)) -> compact_loop fuel n s = (r, s') ->
  mesh_observations (Tx.db s') = mesh_observations (Tx.db s)
  /\ (forall k, total (Tx.db s') k = total (Tx.db s) k) /\ watermark (Tx.db s) <= watermark (Tx.db s').
Proof.
  revert n s. induction fuel as [|fuel IH]; intros n s Hs; cbn [compact_loop]; [by intros [= _ <-]|].
  unfold Tx.bind, Tx.try. destruct (compactChunk s) as [[e|m] s1] eqn:E;
    pose proof (compactChunk_keeps _ _ _ Hs E) as (H1 & H2 & H3).
  - by intros [= _ <-].
  - destruct (m <? maxCompactBatch)%nat; [by intros [= _ <-]|]. intros Hrun.
    apply IH in Hrun as (H4 & H5 & H6); [|by rewrite H1]. split_and!; [congruence|congruence|lia].
Qed.

Lemma compact_loop_finishes fuel n d c :
  ordered_ids (mesh_observations d) -> (length (past (watermark d) d) < fuel * maxCompactBatch)%nat ->
  Tx.twp (compact_loop fuel n) (fun r d' _ => past (watermark d') d' = []
    /\ r = (n + length (past (watermark d) d), None)%nat) d c.
Proof.
  revert n d c. induction fuel as [|fuel IH]; intros n d c Hs Hf; [lia|]. cbn [compact_loop]. twp_step.
  destruct (Tx.twp_wp _ _ _ _ (compactChunk_total d c) (compactChunk_wp d c Hs))
    as (m & d1 & c1 & Hrun & -> & (H1 & _ & _ & Hm & Hp)).
  exists (inr m), d1, c. split; [unfold Tx.try; by rewrite Hrun|].
  destruct (m <? maxCompactBatch)%nat eqn:Em.
  - apply Nat.ltb_lt in Em. twp_step.
    assert (Hl : (length (past (watermark d) d) < maxCompactBatch)%nat) by lia.
    rewrite Hp, drop_ge by lia. split; [done|]. do 2 f_equal. lia.
  - apply Nat.ltb_ge in Em. eapply Tx.twp_mono; [|apply IH; [by rewrite H1|]].
    + intros r d' c' [H2 ->]. split; [done|]. rewrite Hp, length_drop. f_equal. lia.
    + rewrite Hp, length_drop. lia.
Qed.

(** C34: compaction loses no reception and counts none twice, whatever fails on
    the way: for every link and day, what is rolled up plus what is still past
    the watermark is unchanged. When nothing fails it terminates, reports the
    receptions it processed, and leaves nothing past the watermark, so the
    rollup then holds every reception. *)
Theorem compaction_exact fuel s :
  ordered_ids (mesh_observations (Tx.db s)) ->
  (forall r s', CompactMeshObservations fuel s = (r, s') ->
     mesh_observations (Tx.db s') = mesh_observations (Tx.db s)
     /\ (forall k, total (Tx.db s') k = total (Tx.db s) k)
     /\ watermark (Tx.db s) <= watermark (Tx.db s'))
  /\ (Tx.plan s = [] ->
      (length (past (watermark (Tx.db s)) (Tx.db s)) < fuel * maxCompactBatch)%nat ->
      exists s', CompactMeshObservations fuel s
        = (inr (length (past (watermark (Tx.db s)) (Tx.db s)), None), s')
        /\ past (watermark (Tx.db s')) (Tx.db s') = []
        /\ forall k, obs_at (mesh_link_rollup (Tx.db s')) k = total (Tx.db s) k).
Proof.
  intros Hs. split; [intros r s'; by apply compact_loop_keeps|].
  destruct s as [d c p]. cbn. intros -> Hf.
  destruct (compact_loop_finishes fuel 0 d c Hs Hf) as (r & d' & c' & Hrun & Hp & ->).
  eexists. split; [exact Hrun|]. cbn. split; [done|]. intros k.
  destruct (compact_loop_keeps _ _ _ _ _ Hs Hrun) as (_ & Ht & _). cbn in Ht.
  rewrite <-Ht. unfold total. rewrite Hp. unfold edge_count. cbn. lia.
Qed.

(** ** Receptions and the watermark *)

Lemma RecordMeshTick_inr obs act s s' :
  RecordMeshTick obs act s = (inr tt, s') ->
  exists x, length x = length obs
    /\ (forall o, o ∈ x -> next_obs_id (mesh_observations (Tx.db s)) <= o_id o
         < next_obs_id (mesh_observations (Tx.db s)) + Z.of_nat (length obs))
    /\ (row_edges <$> x) = (fun o => row_edges (obs_row 0 o)) <$> obs
    /\ mesh_observations (Tx.db s') = mesh_observations (Tx.db s) ++ x
    /\ mesh_link_rollup (Tx.db s') = mesh_link_rollup (Tx.db s)
    /\ mesh_meta (Tx.db s') = mesh_meta (Tx.db s).
Proof.
  unfold RecordMeshTick. destruct (_ && _) eqn:E0.
  { apply andb_prop in E0 as [E0%Nat.eqb_eq%nil_length_inv _]. subst. intros [= <-]. exists [].
    rewrite app_nil_r. split_and!; try done. by intros o ?%not_elem_of_nil. }
  apply (Tx.wp_use _ (fun _ d' _ => exists x, length x = length obs
    /\ (forall o, o ∈ x -> next_obs_id (mesh_observations (Tx.db s)) <= o_id o
         < next_obs_id (mesh_observations (Tx.db s)) + Z.of_nat (length obs))
    /\ (row_edges <$> x) = (fun o => row_edges (obs_row 0 o)) <$> obs
    /\ mesh_observations d' = mesh_observations (Tx.db s) ++ x
    /\ mesh_link_rollup d' = mesh_link_rollup (Tx.db s)
    /\ mesh_meta d' = mesh_meta (Tx.db s))).
  wp_step. wp_step. wp_step. apply insertMeshObservations_wp. intros x Hx [Hi He].
  apply upsertMeshActivity_wp. cbn beta. destruct (Nat.eqb (length act) 0); wp_step; by exists x.
Qed.

Lemma edge_count_rows x obs k :
  (row_edges <$> x) = (fun o => row_edges (obs_row 0 o)) <$> obs ->
  edge_count x k = hits k (obs ≫= (fun o => row_edges (obs_row 0 o))).
Proof.
  revert obs. induction x as [|o x IH]; intros [|ob obs]; cbn; try done. intros [= H1 H2].
  change (edge_count ([o] ++ x) k = hits k (row_edges (obs_row 0 ob) ++ (obs ≫= (fun o => row_edges (obs_row 0 o))))).
  rewrite edge_count_app, hits_app, <-(IH obs H2). unfold edge_count. cbn. by rewrite app_nil_r, H1.
Qed.

(** While the watermark is below the next rowid, every reception a tick
    stores is counted exactly once (and compaction keeps that count). But rowids
    restart at 1 when pruning has emptied the table, and the watermark does not:
    receptions stored then lie under it, so no compaction, no link and no
    count ever sees them. *)
Theorem receptions_counted obs act s s' :
  RecordMeshTick obs act s = (inr tt, s') ->
  (watermark (Tx.db s) < next_obs_id (mesh_observations (Tx.db s)) ->
     watermark (Tx.db s') < next_obs_id (mesh_observations (Tx.db s'))
     /\ forall k, total (Tx.db s') k
          = total (Tx.db s) k + hits k (obs ≫= (fun o => row_edges (obs_row 0 o))))
  /\ (mesh_observations (Tx.db s) = [] -> Z.of_nat (length obs) <= watermark (Tx.db s) ->
      length (mesh_observations (Tx.db s')) = length obs
      /\ past (watermark (Tx.db s')) (Tx.db s') = []
      /\ forall k, total (Tx.db s') k = total (Tx.db s) k).
Proof.
  intros (x & Hlen & Hids & He & Hobs & Hru & Hme)%RecordMeshTick_inr.
  assert (Hw : watermark (Tx.db s') = watermark (Tx.db s)) by (unfold watermark; by rewrite Hme).
  assert (Hpast : past (watermark (Tx.db s')) (Tx.db s')
    = past (watermark (Tx.db s)) (Tx.db s) ++ filter (fun o => watermark (Tx.db s) < o_id o) x).
  { unfold past. by rewrite Hw, Hobs, filter_app. }
  split.
  - intros Hlt. split.
    + rewrite Hw, Hobs. eapply Z.lt_le_trans; [exact Hlt|]. unfold next_obs_id.
      rewrite fmap_app, foldr_app. clear. induction (o_id <$> mesh_observations (Tx.db s)); cbn; [|lia].
      induction (o_id <$> x); cbn; lia.
    + intros k. unfold total. rewrite Hpast, Hru, edge_count_app, filter_all.
      * rewrite (edge_count_rows _ _ _ He). lia.
      * intros o Ho. specialize (Hids _ Ho). lia.
  - intros Hnil Hle. rewrite Hobs, Hnil. split; [done|].
    assert (Hp : past (watermark (Tx.db s')) (Tx.db s') = []).
    { rewrite Hpast. unfold past. rewrite Hnil. apply filter_none. intros o Ho.
      specialize (Hids _ Ho). rewrite Hnil in Hids. unfold next_obs_id in Hids. cbn in Hids. lia. }
    split; [done|]. intros k. unfold total. rewrite Hp, Hru. unfold past. by rewrite Hnil.
Qed.

Lemma PruneMeshObservations_keeps cutoff s r s' :
  PruneMeshObservations cutoff s = (r, s') ->
  watermark (Tx.db s') = watermark (Tx.db s)
  /\ past (watermark (Tx.db s')) (Tx.db s') = past (watermark (Tx.db s)) (Tx.db s)
  /\ forall k, total (Tx.db s') k = total (Tx.db s) k.
Proof.
  intros Hrun. destruct r as [e|n]; [by apply Tx.inTx_err in Hrun as ->|].
  revert Hrun. apply (Tx.wp_use _ (fun _ d' _ => watermark d' = watermark (Tx.db s)
    /\ past (watermark d') d' = past (watermark (Tx.db s)) (Tx.db s)
    /\ forall k, total d' k = total (Tx.db s) k)).
  unfold PruneMeshObservations. do 2 wp_step. unfold readWatermark. do 6 wp_step.
  set (d' := set_observations _ _).
  assert (Hp : past (watermark d') d' = past (watermark (Tx.db s)) (Tx.db s)).
  { change (watermark d') with (watermark (Tx.db s)). unfold past, d'. cbn.
    rewrite list_filter_filter. apply list_filter_iff. intros o. lia. }
  split_and!; [done|done|]. intros k. unfold total. by rewrite Hp.
Qed.

(** ** The telemetry archive *)

Lemma elem_of_of_key pk m x : x ∈ map_to_list (of_key pk m) <-> m !! x.1 = Some x.2 /\ x.1.1 = pk.
Proof.
  destruct x as [k row]. rewrite elem_of_map_to_list. unfold of_key. by rewrite map_lookup_filter_Some.
Qed.

(** The rows [UPDATE OR IGNORE] moves. *)
Lemma rekey_lookup from to m pk at_ :
  rekey to (filter (fun x => taken to m x = false) (map_to_list (of_key from m))) !! (pk, at_)
  = if decide (pk = to) then match m !! (to, at_) with Some _ => None | None => m !! (from, at_) end
    else None.
Proof.
  set (l := filter (fun x => taken to m x = false) (map_to_list (of_key from m))).
  assert (Hl : forall x, x ∈ l <-> m !! x.1 = Some x.2 /\ x.1.1 = from /\ m !! (to, x.1.2) = None).
  { intros x. unfold l. rewrite list_elem_of_filter, elem_of_of_key. unfold taken.
    rewrite bool_decide_eq_false, <-eq_None_not_Some. tauto. }
  assert (Hnd : NoDup ((fun x : (string * Z) * TelemetryRow => ((to, x.1.2), x.2)) <$> l).*1).
  { rewrite <-list_fmap_compose. apply NoDup_fmap_2_strong.
    - intros [[k1 a1] r1] [[k2 a2] r2] (H1 & H2 & _)%Hl (H3 & H4 & _)%Hl. cbn in *. intros [= ->].
      subst. congruence.
    - apply NoDup_filter, NoDup_map_to_list. }
  apply option_eq. intros row. unfold rekey. rewrite <-(elem_of_list_to_map _ _ _ Hnd), list_elem_of_fmap.
  split.
  - intros ([[k a] r] & [= -> -> ->] & (H1 & H2 & H3)%Hl). cbn in *. subst. by rewrite decide_True, H3.
  - destruct (decide (pk = to)) as [-> |]; [|done]. destruct (m !! (to, at_)) eqn:Et; [done|]. intros Hr.
    exists ((from, at_), row). split; [done|]. by apply Hl.
Qed.

Lemma ignored_lookup from to m pk at_ : pk <> from ->
  (list_to_map (filter (fun x => taken to m x = true) (map_to_list (of_key from m)))
     : gmap (string * Z) TelemetryRow) !! (pk, at_) = None.
Proof.
  intros Hpk. apply not_elem_of_list_to_map_1. intros ([[k a] r] & [= -> ->] & Hx)%list_elem_of_fmap.
  apply list_elem_of_filter in Hx as [_ [_ Hk]%elem_of_of_key]. done.
Qed.

Lemma not_of_key_lookup pk m k at_ :
  not_of_key pk m !! (k, at_) = if decide (k = pk) then None else m !! (k, at_).
Proof.
  unfold not_of_key. rewrite map_lookup_filter. cbn. destruct (decide (k = pk)) as [-> |Hne].
  - destruct (m !! _); cbn; [|done]. by rewrite option_guard_False by tauto.
  - destruct (m !! _); cbn; [|done]. by rewrite option_guard_True.
Qed.

(** Promoting a node's key moves its archive: every sample under the
    provisional key is found under the full key at its own time (unless the full
    key already had one for that instant, which stays), the provisional key
    holds nothing, no other node's samples change, and an error moves
    nothing. *)
Theorem telemetry_rename from to s r s' :
  from <> "" -> to <> "" -> from <> to ->
  RenameMeshTelemetryPubKey from to s = (r, s') ->
  match r with
  | inl _ => Tx.db s' = Tx.db s
  | inr _ => forall pk at_, mesh_telemetry (Tx.db s') !! (pk, at_)
      = if decide (pk = from) then None
        else if decide (pk = to)
             then match mesh_telemetry (Tx.db s) !! (to, at_) with
                  | Some row => Some row
                  | None => mesh_telemetry (Tx.db s) !! (from, at_)
                  end
             else mesh_telemetry (Tx.db s) !! (pk, at_)
  end.
Proof.
  intros Hf Ht Hne. unfold RenameMeshTelemetryPubKey.
  rewrite !bool_decide_eq_false_2 by done. cbn [orb]. intros Hrun.
  destruct r as [e|n]; [by eapply Tx.inTx_err|]. revert Hrun.
  apply (Tx.wp_use _ (fun _ d' _ => forall pk at_, mesh_telemetry d' !! (pk, at_) = _)).
  do 8 wp_step. intros pk at_. cbn [mesh_telemetry set_mesh_telemetry]. rewrite not_of_key_lookup.
  destruct (decide (pk = from)) as [-> |Hpf]; [done|]. unfold update_or_ignore.
  rewrite !lookup_union, not_of_key_lookup, rekey_lookup, ignored_lookup by done.
  rewrite decide_False by done. destruct (decide (pk = to)) as [-> |].
  - destruct (mesh_telemetry (Tx.db s) !! (to, at_)); [done|].
    by destruct (mesh_telemetry (Tx.db s) !! (from, at_)).
  - by destruct (mesh_telemetry (Tx.db s) !! (pk, at_)).
Qed.

(** One sample's effect on the archive. *)
Definition put_sample (m : gmap (string * Z) TelemetryRow) (t : MeshTelemetrySample)
    : gmap (string * Z) TelemetryRow :=
  if unusable t || (negb (time_is_zero (LastSuccessAt t)) && repeats t m) then m else insert_new t m.

Definition sample_key (t : MeshTelemetrySample) : string * Z := (t_PubKey t, time_unix (ReportedAt t)).

Lemma put_sample_grows m t k row : m !! k = Some row -> put_sample m t !! k = Some row.
Proof.
  intros Hk. unfold put_sample, insert_new. case_match; [done|]. case_match eqn:E; [done|].
  by rewrite lookup_insert_ne by congruence.
Qed.

Lemma put_sample_new m t k row :
  put_sample m t !! k = Some row ->
  m !! k = Some row \/ k = sample_key t /\ row = telemetry_row t /\ unusable t = false.
Proof.
  unfold put_sample, insert_new, sample_key. destruct (unusable t); cbn [orb]; [auto|].
  destruct (_ && _); [auto|]. case_match; [auto|].
  destruct (decide (k = (t_PubKey t, time_unix (ReportedAt t)))) as [-> |Hne].
  - rewrite lookup_insert_eq. intros [= <-]. auto.
  - rewrite lookup_insert_ne by done. auto.
Qed.

Lemma repeats_later m t t' :
  ReportedAt t <= ReportedAt t' -> repeats t m = true -> repeats t (put_sample m t') = true.
Proof.
  intros Hle Hr. unfold put_sample. case_match; [done|]. unfold insert_new. case_match; [done|].
  unfold repeats, prev_row in *. rewrite map_filter_insert_not'; [done| |]; cbn.
  - pose proof (time_unix_mono _ _ Hle). lia.
  - intros row Hrow. congruence.
Qed.

Lemma put_sample_settles m t : put_sample (put_sample m t) t = put_sample m t.
Proof.
  unfold put_sample at 2 3. destruct (unusable t) eqn:Eu; cbn [orb]; [unfold put_sample; by rewrite Eu|].
  destruct (_ && _) eqn:Er; [unfold put_sample; by rewrite Eu, Er|].
  unfold put_sample. rewrite Eu. cbn [orb]. destruct (negb _ && repeats t (insert_new t m)); [done|].
  assert (Hk : is_Some (insert_new t m !! sample_key t)).
  { unfold insert_new, sample_key. case_match eqn:E; [by rewrite E|]. by rewrite lookup_insert_eq. }
  destruct Hk as [row Hk]. revert Hk. generalize (insert_new t m) as m1. intros m1 Hk.
  unfold insert_new. unfold sample_key in Hk. by rewrite Hk.
Qed.

Lemma settled_later m t t' :
  ReportedAt t <= ReportedAt t' -> put_sample m t = m -> put_sample (put_sample m t') t = put_sample m t'.
Proof.
  intros Hle Hs. set (m' := put_sample m t'). destruct (m !! sample_key t) as [row|] eqn:Ek.
  - apply (put_sample_grows _ t') in Ek. fold m' in Ek. unfold put_sample. case_match; [done|].
    unfold insert_new. unfold sample_key in Ek. by rewrite Ek.
  - unfold put_sample in Hs |- *. destruct (unusable t); cbn [orb] in *; [done|].
    destruct (negb _ && repeats t m) eqn:Er.
    + apply andb_prop in Er as [E1 E2]. rewrite E1. cbn. unfold m'. by rewrite (repeats_later m t t').
    + unfold insert_new in Hs. unfold sample_key in Ek. rewrite Ek in Hs.
      rewrite <-Hs, lookup_insert_eq in Ek. done.
Qed.

Lemma foldl_put_settled l m :
  StronglySorted (fun a b => ReportedAt a <= ReportedAt b) l ->
  foldl put_sample (foldl put_sample m l) l = foldl put_sample m l.
Proof.
  intros Hs. assert (H : forall l m, StronglySorted (fun a b => ReportedAt a <= ReportedAt b) l ->
    (forall t, (forall t', t' ∈ l -> ReportedAt t <= ReportedAt t') -> put_sample m t = m ->
       put_sample (foldl put_sample m l) t = foldl put_sample m l)
    /\ forall t, t ∈ l -> put_sample (foldl put_sample m l) t = foldl put_sample m l).
  { clear. intros l. induction l as [|a l IH]; intros m Hs; cbn.
    { split; [done|]. by intros t ?%not_elem_of_nil. }
    apply StronglySorted_cons in Hs as [Ha Hs]. rewrite Forall_forall in Ha.
    destruct (IH (put_sample m a) Hs) as [H1 H2]. split.
    - intros t Ht Hm. apply H1; [intros t' Ht'; apply Ht; by right|].
      apply settled_later; [apply Ht; by left|done].
    - intros t [-> |Ht]%elem_of_cons; [|auto]. apply H1; [done|]. apply put_sample_settles. }
  destruct (H l m Hs) as [_ H2]. clear H Hs. revert H2. generalize (foldl put_sample m l). clear.
  intros m H. induction l as [|a l IH]; cbn; [done|]. rewrite H by (by left).
  apply IH. intros t Ht. apply H. by right.
Qed.

Lemma InsertMeshTelemetry_run samples s r s' :
  InsertMeshTelemetry samples s = (r, s') ->
  Tx.db s' = match r with
             | inl _ => Tx.db s
             | inr _ => set_mesh_telemetry (foldl put_sample (mesh_telemetry (Tx.db s)) samples) (Tx.db s)
             end.
Proof.
  unfold InsertMeshTelemetry. destruct (Nat.eqb _ _) eqn:E0.
  { apply Nat.eqb_eq, nil_length_inv in E0 as ->. intros [= <- <-]. cbn. by destruct (Tx.db s). }
  intros Hrun. destruct r as [e|[]]; [by eapply Tx.inTx_err|]. revert Hrun.
  apply (Tx.wp_use _ (fun _ d' _ => d' = _)). do 2 wp_step. unfold prepare. do 3 wp_step.
  apply (Tx.wp_foreach _ (fun pre d' _ =>
    d' = set_mesh_telemetry (foldl put_sample (mesh_telemetry (Tx.db s)) pre) (Tx.db s)));
    [|by destruct (Tx.db s)].
  intros pre t d' c' _ ->. rewrite foldl_app. cbn [foldl]. unfold insertSample, put_sample at 1.
  set (m := foldl put_sample _ pre). destruct (unusable t); [by wp_step|]. cbn [orb]. wp_step.
  destruct (time_is_zero _); cbn [negb andb].
  - wp_step. by wp_step.
  - wp_step. cbn [mesh_telemetry set_mesh_telemetry]. destruct (repeats t m); by wp_step.
Qed.

(** The archive is append-only: an insert never changes a sample that is
    there, adds only rows of the samples offered, and offering the same batch
    (oldest first) again, which the poller does on every tick until the monitor
    reports, changes nothing. *)
Theorem telemetry_append samples s r s' :
  InsertMeshTelemetry samples s = (r, s') ->
  (forall k row, mesh_telemetry (Tx.db s) !! k = Some row -> mesh_telemetry (Tx.db s') !! k = Some row)
  /\ (forall k row, mesh_telemetry (Tx.db s') !! k = Some row ->
      mesh_telemetry (Tx.db s) !! k = Some row
      \/ exists t, t ∈ samples /\ k = sample_key t /\ row = telemetry_row t /\ unusable t = false)
  /\ (r = inr tt -> StronglySorted (fun a b => ReportedAt a <= ReportedAt b) samples ->
      forall r2 s2, InsertMeshTelemetry samples s' = (r2, s2) -> Tx.db s2 = Tx.db s').
Proof.
  intros Hrun%InsertMeshTelemetry_run. rewrite Hrun. destruct r as [e|[]].
  { split_and!; [done|auto|done]. }
  cbn [mesh_telemetry set_mesh_telemetry]. split; [|split]; [generalize (mesh_telemetry (Tx.db s)) as m..|].
  - clear. intros m k row. revert m. induction samples as [|t l IH]; intros m Hk; cbn; [done|].
    by apply IH, put_sample_grows.
  - clear. intros m k row. revert m. induction samples as [|t l IH]; intros m Hk; cbn in *; [by left|].
    apply IH in Hk as [Hk|(t' & ? & ?)]; [|right; exists t'; split; [by right|done]].
    apply put_sample_new in Hk as [?|?]; [by left|]. right. exists t. split; [by left|done].
  - intros _ Hs r2 s2 Hrun2%InsertMeshTelemetry_run. rewrite Hrun2, Hrun. destruct r2; [done|]. cbn.
    unfold set_mesh_telemetry. cbn. by rewrite foldl_put_settled.
Qed.

(** ** Witnesses *)

Definition day0 : Time := time_of_unix (20000 * 86400).
Definition reception (at_ : Time) : MeshObservation :=
  mkMeshObservation "aa" at_ "mqtt" "gw" one (-80) 1 ["b"] ["bb"].
Definition e0 : Tx.St MeshDB Z := Tx.mkSt (mkMeshDB [] ∅ ∅ ∅ ∅) 0 [].
Definition e1 : Tx.St MeshDB Z :=
  (RecordMeshTick [reception day0; reception day0] [mkMeshActivity "AA" day0 day0] e0).2.
Definition e2 : Tx.St MeshDB Z := (CompactMeshObservations 1 e1).2.
Definition e3 : Tx.St MeshDB Z := (PruneMeshObservations (day0 + 72 * hour) e2).2.
Definition e4 : Tx.St MeshDB Z := (RecordMeshTick [reception (day0 + 73 * hour)] [] e3).2.

(** Two days without a reception, then one more: it is stored, and in no link. *)
Example reused_rowid :
  length (mesh_observations (Tx.db e4)) = 1%nat /\ watermark (Tx.db e4) = 2
  /\ (CompactMeshObservations 1 e4).1 = inr (0%nat, None)
  /\ (ln_Observations <$> match (MeshLinks day0 e4).1 with inr l => l | inl _ => [] end) = [2]
  /\ (MeshLinks (day0 + 72 * hour) e4).1 = inr [].
Proof. vm_compute. repeat split. Qed.

Lemma activity_monotone_witness : exists c, mesh_activity (Tx.db e1) !! "aa" = Some c.
Proof.
  destruct (proj1 (proj2 (activity_monotone [reception day0; reception day0]
    [mkMeshActivity "AA" day0 day0] e0 (inr tt) e1 ltac:(vm_compute; reflexivity)) eq_refl)
    (mkMeshActivity "AA" day0 day0) ltac:(left) ltac:(discriminate)) as (c & Hc & _).
  exists c. exact Hc.
Defined.

Lemma e1_ordered : ordered_ids (mesh_observations (Tx.db e1)).
Proof.
  vm_compute. repeat constructor.
Qed.

Lemma compaction_exact_witness :
  exists s', CompactMeshObservations 1 e1 = (inr (2%nat, None), s') /\ past (watermark (Tx.db s')) (Tx.db s') = [].
Proof.
  destruct (proj2 (compaction_exact 1 e1 e1_ordered) eq_refl ltac:(vm_compute; lia)) as (s' & H1 & H2 & _).
  exists s'. split; [|exact H2].
  replace (inr (2%nat, None)) with (inr (length (past (watermark (Tx.db e1)) (Tx.db e1)), @None Tx.error)
    : Tx.error + nat * option Tx.error) by (vm_compute; reflexivity). exact H1.
Defined.

Lemma receptions_counted_witness : past (watermark (Tx.db e4)) (Tx.db e4) = [].
Proof.
  exact (proj1 (proj2 (proj2 (receptions_counted [reception (day0 + 73 * hour)] [] e3 e4
    ltac:(vm_compute; reflexivity)) ltac:(vm_compute; reflexivity) ltac:(vm_compute; discriminate)))).
Defined.

Definition reading : Readings :=
  mkReadings (Some one) None "measured" None None None None None None None 60 0 0 0 0 0 0 0 0 0 0 0 0.
Definition sample (at_ ok : Time) : MeshTelemetrySample :=
  mkMeshTelemetrySample "aabb" at_ at_ "relay" ok ok reading.
Definition batch : list MeshTelemetrySample :=
  [sample day0 day0; sample (day0 + 5 * minute) day0; sample (day0 + 30 * minute) (day0 + 30 * minute)].
Definition t1 : Tx.St MeshDB Z := (InsertMeshTelemetry batch e0).2.

Example repeated_read_skipped : size (mesh_telemetry (Tx.db t1)) = 2%nat.
Proof. by vm_compute. Qed.

Lemma telemetry_append_witness : Tx.db (InsertMeshTelemetry batch t1).2 = Tx.db t1.
Proof.
  refine (proj2 (proj2 (telemetry_append batch e0 (inr tt) t1 ltac:(vm_compute; reflexivity))) eq_refl _
    (inr tt) _ ltac:(vm_compute; reflexivity)).
  repeat constructor; cbn; unfold minute, second; lia.
Defined.

Lemma telemetry_rename_witness :
  mesh_telemetry (Tx.db (RenameMeshTelemetryPubKey "aabb" "aabbcc" t1).2) !! ("aabb", 1728000000) = None.
Proof.
  exact (telemetry_rename "aabb" "aabbcc" t1 (inr 2) _ ltac:(discriminate) ltac:(discriminate)
    ltac:(discriminate) ltac:(vm_compute; reflexivity) "aabb" 1728000000).
Defined.
End Mesh.
