(* ===== verification/Query.v ===== *)
(** * Reading the store: pages

    [internal/store/query.go]: the event list, one event's history and the
    cross-event history, with keyset pagination. A generic section proves what a
    walk over the pages returns, also while the tables change between pages; the
    three queries are instances. Page tokens (JSON in base64) are a parameter
    that round-trips a cursor whose id is valid UTF-8. *)

From S2P Require Import Prelude Float64 Geo Geojson GridEvent Tx Store.

Module Query.
Import F64 Grid Store.
Open Scope tx_scope.

(** ** Keyset pagination *)

Section Keyset.
Context {R K : Type}.
Variable key : R -> K.
(** [before a b]: [a] comes strictly before [b] in the ORDER BY. *)
Variable before : K -> K -> bool.

Definition row_le (x y : R) : Prop := before (key y) (key x) = false.
#[export] Instance row_le_dec : RelDecision row_le.
Proof. intros x y. unfold row_le. apply _. Defined.

(** The rows after a cursor, in order. *)
Definition after (cur : option K) (rows : list R) : list R :=
  merge_sort row_le (match cur with
                     | None => rows
                     | Some k => filter (fun x => before k (key x) = true) rows
                     end).

(** LIMIT pageSize + 1, the extra row probing for a next page. *)
Definition page (pageSize : nat) (cur : option K) (rows : list R) : list R * option K :=
  let l := take (pageSize + 1) (after cur rows) in
  if (pageSize <? length l)%nat then (take pageSize l, key <$> last (take pageSize l)) else (l, None).

(** A walk: the table each request sees, and the pages it gets. It is
    [complete] when the last page has no token. *)
Fixpoint walk (pageSize : nat) (tables : list (list R)) (cur : option K) : list R * bool :=
  match tables with
  | [] => ([], false)
  | rows :: tables =>
      match page pageSize cur rows with
      | (l, None) => (l, true)
      | (l, Some k) => let (rest, fin) := walk pageSize tables (Some k) in (l ++ rest, fin)
      end
  end.

Context (before_irrefl : forall a, before a a = false)
  (before_trans : forall a b c, before a b = true -> before b c = true -> before a c = true)
  (before_total : forall a b, before a b = false -> before b a = false -> a = b).

Lemma before_asym a b : before a b = true -> before b a = false.
Proof using before_irrefl before_trans.
  intros H. destruct (before b a) eqn:E; [|done].
  rewrite <-(before_irrefl a). symmetry. by apply (before_trans a b a).
Qed.

#[local] Instance row_le_total : Total row_le.
Proof using before_irrefl before_trans.
  intros x y. unfold row_le. destruct (before (key y) (key x)) eqn:E; [right|by left]. by apply before_asym.
Qed.

#[local] Instance row_le_trans : Transitive row_le.
Proof using before_irrefl before_trans before_total.
  intros x y z. unfold row_le. intros H1 H2. destruct (before (key z) (key x)) eqn:E; [|done].
  destruct (before (key y) (key z)) eqn:E2; [by rewrite (before_trans _ _ _ E2 E) in H1|].
  rewrite (before_total _ _ E2 H2) in H1. congruence.
Qed.

Definition strictly (l : list K) : Prop := StronglySorted (fun a b => before a b = true) l.

(** Distinct keys: a key identifies a row of the table. *)
Definition keyed_rows (rows : list R) : Prop := NoDup (key <$> rows).

Lemma sorted_strict l : keyed_rows l -> StronglySorted row_le l -> strictly (key <$> l).
Proof using before_total.
  unfold keyed_rows, strictly. induction 2 as [|x l Hs IH Hx]; cbn in *; [constructor|].
  apply NoDup_cons in H as [Hn Hnd]. constructor; [by apply IH|]. apply Forall_forall.
  intros k (y & -> & Hy)%list_elem_of_fmap. pose proof (proj1 (Forall_forall _ _) Hx y Hy) as Hxy. unfold row_le in Hxy.
  destruct (before (key x) (key y)) eqn:E; [done|]. rewrite (before_total _ _ E Hxy) in Hn.
  destruct Hn. apply list_elem_of_fmap. eauto.
Qed.

Lemma after_perm cur rows :
  after cur rows ≡ₚ match cur with None => rows | Some k => filter (fun x => before k (key x) = true) rows end.
Proof. apply merge_sort_Permutation. Qed.

Lemma elem_of_after cur rows x :
  x ∈ after cur rows <-> x ∈ rows /\ forall k, cur = Some k -> before k (key x) = true.
Proof.
  rewrite after_perm. destruct cur as [k|]; [rewrite list_elem_of_filter|]; naive_solver.
Qed.

Lemma after_sorted cur rows : StronglySorted row_le (after cur rows).
Proof using before_irrefl before_trans before_total.
  unfold after. apply StronglySorted_merge_sort; apply _.
Qed.

Lemma keyed_rows_inj rows x y : keyed_rows rows -> x ∈ rows -> y ∈ rows -> key x = key y -> x = y.
Proof.
  unfold keyed_rows. induction rows as [|z l IH]; [by intros _ ?%not_elem_of_nil|]. cbn.
  intros [Hz Hnd]%NoDup_cons [-> |Hx]%elem_of_cons [-> |Hy]%elem_of_cons Hk; [done| | |auto];
    destruct Hz; apply list_elem_of_fmap; eauto.
Qed.

Lemma after_strict cur rows : keyed_rows rows -> strictly (key <$> after cur rows).
Proof using before_irrefl before_trans before_total.
  intros Hk. apply sorted_strict.
  - unfold keyed_rows in *. rewrite after_perm. destruct cur as [k|]; [|done].
    clear -Hk. induction rows as [|x l IH]; [done|]. cbn in Hk. apply NoDup_cons in Hk as [Hx Hk].
    rewrite filter_cons. case_decide; [|auto]. cbn. apply NoDup_cons. split; [|auto].
    contradict Hx. apply list_elem_of_fmap in Hx as (y & -> & [_ Hy]%list_elem_of_filter).
    apply list_elem_of_fmap. eauto.
  - apply after_sorted.
Qed.

(** The page is a prefix of the rows after the cursor, and the next cursor is
    the key of its last row. *)
Lemma page_spec n cur rows : (0 < n)%nat ->
  let '(l, next) := page n cur rows in
  exists rest, after cur rows = l ++ rest
    /\ match next with
       | None => rest = []
       | Some k => (exists x, last l = Some x /\ k = key x) /\ rest <> [] /\ length l = n
       end.
Proof.
  intros Hn. unfold page. set (L := after cur rows). destruct (Nat.ltb_spec n (length (take (n + 1) L))) as [Hl|Hl];
    rewrite length_take in Hl.
  - rewrite take_take. replace (n `min` (n + 1))%nat with n by lia.
    exists (drop n L). rewrite take_drop. split; [done|].
    assert (Hlen : length (take n L) = n) by (rewrite length_take; lia).
    destruct (last (take n L)) as [x|] eqn:E; cbn.
    + split_and!; [by exists x| |done]. intros H%(f_equal length). rewrite length_drop in H. cbn in H. lia.
    + apply last_None in E. rewrite E in Hlen. cbn in Hlen. lia.
  - exists []. rewrite app_nil_r, take_ge by lia. done.
Qed.

Lemma strictly_app l1 l2 : strictly (l1 ++ l2) <-> (forall a b, a ∈ l1 -> b ∈ l2 -> before a b = true)
  /\ strictly l1 /\ strictly l2.
Proof. apply StronglySorted_app. Qed.

(** Whatever the tables do between pages, the keys returned only go forward. *)
Lemma walk_strict n tables cur : (0 < n)%nat -> Forall keyed_rows tables ->
  strictly (key <$> (walk n tables cur).1)
  /\ forall x k, cur = Some k -> x ∈ (walk n tables cur).1 -> before k (key x) = true.
Proof using before_irrefl before_trans before_total.
  intros Hn. revert cur. induction tables as [|rows tables IH]; intros cur Hk; cbn.
  { split; [constructor|]. by intros x k _ ?%not_elem_of_nil. }
  apply Forall_cons in Hk as [Hrows Hk]. pose proof (page_spec n cur rows Hn) as Hp.
  destruct (page n cur rows) as [l [k|]].
  - destruct Hp as (rest & Ha & (x & Hx & ->) & _ & _). destruct (IH (Some (key x)) Hk) as [IH1 IH2].
    destruct (walk n tables (Some (key x))) as [more fin]. cbn in *.
    pose proof (after_strict cur rows Hrows) as Hs. rewrite Ha, fmap_app in Hs.
    apply strictly_app in Hs as (_ & Hl & _).
    assert (Hlast : forall y, y ∈ l -> key y = key x \/ before (key y) (key x) = true).
    { intros y Hy. apply last_Some in Hx as [l' ->]. rewrite fmap_app in Hl. apply strictly_app in Hl as (Hl & _).
      apply elem_of_app in Hy as [Hy| ->%list_elem_of_singleton]; [right|by left].
      apply Hl; [|by left]. apply list_elem_of_fmap. eauto. }
    split.
    + rewrite fmap_app. apply strictly_app. split_and!; [|done|done].
      intros a b (y & -> & Hy)%list_elem_of_fmap (z & -> & Hz)%list_elem_of_fmap.
      pose proof (IH2 z _ eq_refl Hz) as Hxz. destruct (Hlast y Hy) as [->|?]; [done|eauto].
    + intros y k -> Hy. apply elem_of_app in Hy as [Hy|Hy].
      * assert (Hin : y ∈ after (Some k) rows) by (rewrite Ha; apply elem_of_app; by left).
        apply elem_of_after in Hin as [_ Hin]. auto.
      * pose proof (IH2 y _ eq_refl Hy) as Hxy. apply (before_trans _ (key x)); [|done].
        assert (Hin : x ∈ after (Some k) rows).
        { rewrite Ha. apply elem_of_app. left. by apply last_Some_elem_of. }
        apply elem_of_after in Hin as [_ Hin]. auto.
  - destruct Hp as (rest & Ha & ->). rewrite app_nil_r in Ha. cbn. rewrite <-Ha. split.
    + by apply after_strict.
    + intros y k -> Hy. apply elem_of_after in Hy as [_ Hy]. auto.
Qed.

(** A key that every request's table holds is returned by a complete walk. *)
Lemma walk_finds n tables cur kx : (0 < n)%nat -> Forall keyed_rows tables ->
  (forall rows, rows ∈ tables -> exists x, x ∈ rows /\ key x = kx) ->
  (forall k, cur = Some k -> before k kx = true) ->
  (walk n tables cur).2 = true -> exists x, x ∈ (walk n tables cur).1 /\ key x = kx.
Proof using before_irrefl before_trans before_total.
  intros Hn. revert cur. induction tables as [|rows tables IH]; intros cur Hk Hx Hc; cbn; [done|].
  apply Forall_cons in Hk as [Hrows Hk]. destruct (Hx rows) as (x & Hxr & Hkx); [by left|].
  assert (Hin : x ∈ after cur rows) by (apply elem_of_after; rewrite Hkx; done).
  pose proof (page_spec n cur rows Hn) as Hp. destruct (page n cur rows) as [l [k|]]; cbn.
  - destruct Hp as (rest & Ha & (z & Hz & ->) & _ & _). rewrite Ha in Hin.
    specialize (IH (Some (key z)) Hk). destruct (walk n tables (Some (key z))) as [more fin]. cbn in *.
    intros Hfin. apply elem_of_app in Hin as [Hin|Hin].
    { exists x. split; [apply elem_of_app; by left|done]. }
    destruct IH as (y & Hy & Hky); [intros; apply Hx; by right| |done|].
    + intros k [= <-]. pose proof (after_strict cur rows Hrows) as Hs. rewrite Ha, fmap_app in Hs.
      apply strictly_app in Hs as (Hs & _ & _). rewrite <-Hkx. apply Hs; apply list_elem_of_fmap.
      * exists z. split; [done|]. by apply last_Some_elem_of.
      * eauto.
    + exists y. split; [apply elem_of_app; by right|done].
  - destruct Hp as (rest & Ha & ->). rewrite app_nil_r in Ha. rewrite <-Ha. eauto.
Qed.

(** What is returned is from one of the tables. *)
Lemma walk_from n tables cur x :
  (0 < n)%nat -> x ∈ (walk n tables cur).1 -> exists rows, rows ∈ tables /\ x ∈ rows.
Proof.
  intros Hn. revert cur. induction tables as [|rows tables IH]; intros cur; cbn; [by intros ?%not_elem_of_nil|].
  pose proof (page_spec n cur rows Hn) as Hp. destruct (page n cur rows) as [l next].
  destruct Hp as (rest & Ha & _).
  assert (Hl : x ∈ l -> exists rows', rows' ∈ rows :: tables /\ x ∈ rows').
  { intros Hx. exists rows. split; [by left|]. assert (Hin : x ∈ after cur rows) by (rewrite Ha; apply elem_of_app; by left).
    by apply elem_of_after in Hin as [? _]. }
  destruct next as [k|]; [|exact Hl]. specialize (IH (Some k)).
  destruct (walk n tables (Some k)) as [more fin]. cbn in *.
  intros [Hx|Hx]%elem_of_app; [auto|]. destruct (IH Hx) as (rows' & ? & ?). exists rows'. split; [by right|done].
Qed.

(** A key found in every table, and only under [P], is returned exactly once
    under [P]. *)
Lemma walk_once n tables kx (P : R -> Prop) `{!forall x, Decision (P x)} :
  (0 < n)%nat -> Forall keyed_rows tables -> tables <> [] ->
  (forall rows, rows ∈ tables -> (exists x, x ∈ rows /\ key x = kx /\ P x)
     /\ forall x, x ∈ rows -> P x <-> key x = kx) ->
  (walk n tables None).2 = true -> length (filter P (walk n tables None).1) = 1%nat.
Proof using before_irrefl before_trans before_total.
  intros Hn Hk Hne Ht Hfin.
  destruct (walk_finds n tables None kx Hn Hk) as (x & Hx & Hkx); [|done|done|].
  { intros rows Hr. destruct (Ht rows Hr) as [(y & ? & ? & ?) _]. eauto. }
  destruct (walk_strict n tables None Hn Hk) as [Hs _].
  assert (HP : forall y, y ∈ (walk n tables None).1 -> P y <-> key y = kx).
  { intros y Hy. destruct (walk_from n tables None y Hn Hy) as (rows & Hr & Hyr).
    destruct (Ht rows Hr) as [_ HPk]. by apply HPk. }
  revert Hx Hs HP. generalize (walk n tables None).1 as out. clear -Hkx before_irrefl. intros out Hx Hs HP.
  apply list_elem_of_split in Hx as (l1 & l2 & ->). rewrite fmap_app in Hs.
  apply StronglySorted_app in Hs as (H1 & _ & H2). cbn in H2. apply StronglySorted_cons in H2 as [H2 _].
  rewrite filter_app, filter_cons_True by (apply HP; [set_solver|done]).
  rewrite !filter_none; [done|..]; intros y Hy Hyp; apply HP in Hyp; try (apply elem_of_app; set_solver).
  - pose proof (proj1 (Forall_forall _ _) H2 (key y)) as Hb.
    rewrite Hyp, Hkx, before_irrefl in Hb. by discriminate Hb; apply list_elem_of_fmap; eauto.
  - assert (Hb : before (key y) (key x) = true).
    { apply H1; [apply list_elem_of_fmap; eauto|by left]. }
    rewrite Hyp, Hkx, before_irrefl in Hb. done.
Qed.

(** The rows after the last one of a page are those the page left. *)
Lemma after_next rows cur l rest z : keyed_rows rows -> after cur rows = l ++ rest ->
  last l = Some z -> after (Some (key z)) rows = rest.
Proof using before_irrefl before_trans before_total.
  intros Hk Ha Hz.
  pose proof (after_strict cur rows Hk) as Hs. rewrite Ha, fmap_app in Hs.
  pose proof Hs as Hs'. apply strictly_app in Hs as (H1 & H2 & H3).
  assert (Hz' : z ∈ l) by by apply last_Some_elem_of.
  assert (Hperm : after (Some (key z)) rows ≡ₚ rest).
  { rewrite after_perm. transitivity (filter (fun x => before (key z) (key x) = true) (after cur rows)).
    - rewrite after_perm. destruct cur as [k|]; [|done]. rewrite list_filter_filter.
      rewrite (list_filter_iff _ (fun x => before (key z) (key x) = true /\ before k (key x) = true)); [done|].
      intros x. split; [|tauto]. intros Hzx. split; [done|].
      apply (before_trans _ (key z)); [|done].
      assert (Hin : z ∈ after (Some k) rows) by (rewrite Ha; apply elem_of_app; by left).
      apply elem_of_after in Hin as [_ Hin]. auto.
    - rewrite Ha, filter_app, (filter_all _ rest), filter_none; [done|..].
      + intros x Hx. apply last_Some in Hz as [l' ->]. rewrite fmap_app in H2.
        apply strictly_app in H2 as (H2 & _). apply elem_of_app in Hx as [Hx| ->%list_elem_of_singleton].
        * rewrite before_asym; [done|]. apply H2; [apply list_elem_of_fmap; eauto|by left].
        * by rewrite before_irrefl.
      + intros x Hx. apply H1; apply list_elem_of_fmap; eauto. }
  refine (StronglySorted_unique_strong row_le _ _ _ (after_sorted _ _) _ Hperm).
  - intros x y Hx%elem_of_after Hy Hxy Hyx. apply (keyed_rows_inj rows); [done|tauto| |].
    + assert (Hin : y ∈ after cur rows) by (rewrite Ha; apply elem_of_app; by right).
      by apply elem_of_after in Hin as [? _].
    + by apply before_total.
  - pose proof (after_sorted cur rows) as Hst. rewrite Ha in Hst. apply StronglySorted_app in Hst. tauto.
Qed.

(** An unchanged table: the walk ends, and returns every row in order. *)
Lemma walk_fixed n rows fuel cur : (0 < n)%nat -> keyed_rows rows ->
  (length (after cur rows) < fuel)%nat -> walk n (repeat rows fuel) cur = (after cur rows, true).
Proof using before_irrefl before_trans before_total.
  intros Hn Hk. revert cur. induction fuel as [|fuel IH]; intros cur Hf; [lia|]. cbn.
  pose proof (page_spec n cur rows Hn) as Hp. destruct (page n cur rows) as [l [k|]].
  - destruct Hp as (rest & Ha & (z & Hz & ->) & Hr & Hl).
    pose proof (after_next rows cur l rest z Hk Ha Hz) as Hrest.
    rewrite IH, Hrest, Ha; [done|]. rewrite Hrest. rewrite Ha, length_app in Hf. lia.
  - destruct Hp as (rest & Ha & ->). rewrite app_nil_r in Ha. by rewrite Ha.
Qed.

End Keyset.

(** ** Cursors and tokens *)

(** [eventCursor], [historyCursor]. *)
Record eventCursor := mkEventCursor { e_S : Z; e_O : Z; e_ID : string }.
Record historyCursor := mkHistoryCursor { h_O : Z; h_ID : string; h_R : Z }.

(** [encodeToken] and [decodeToken]: JSON in base64. A cursor whose id
    [json.Marshal] does not repair comes back. *)
Class TokenCodec (C : Type) := {
  encodeToken : C -> string;
  decodeToken : string -> option C;
  representable : C -> Prop;
  token_roundtrip : forall c, representable c -> decodeToken (encodeToken c) = Some c;
  token_nonempty : forall c, encodeToken c <> "" }.

Definition DefaultPageSize : Z := 50.
Definition MaxPageSize : Z := 200.

Definition clampPageSize (n : Z) : Z :=
  if n <=? 0 then DefaultPageSize else if MaxPageSize <? n then MaxPageSize else n.

Lemma clampPageSize_spec n :
  1 <= clampPageSize n <= MaxPageSize /\ (1 <= n <= MaxPageSize -> clampPageSize n = n)
  /\ (n <= 0 -> clampPageSize n = DefaultPageSize).
Proof. unfold clampPageSize, DefaultPageSize, MaxPageSize. split_and!; repeat case_match; lia. Qed.

(** [EventQuery], [HistoryQuery]. *)
Record EventQuery := mkEventQuery {
  q_PlaceID : string; q_Layers : list Layer; q_Statuses : list EventStatus; q_MinSeverity : Severity;
  q_Since : Time; q_PageSize : Z; q_PageToken : string }.
Record HistoryQuery := mkHistoryQuery {
  hq_PlaceID : string; hq_Layers : list Layer; hq_From : Time; hq_To : Time; hq_PageSize : Z;
  hq_PageToken : string }.

Definition set_token (tok : string) (q : EventQuery) : EventQuery :=
  mkEventQuery (q_PlaceID q) (q_Layers q) (q_Statuses q) (q_MinSeverity q) (q_Since q) (q_PageSize q) tok.
Definition set_htoken (tok : string) (q : HistoryQuery) : HistoryQuery :=
  mkHistoryQuery (hq_PlaceID q) (hq_Layers q) (hq_From q) (hq_To q) (hq_PageSize q) tok.

(** ** Events *)

Definition in_layers (layers : list Layer) (l : Layer) : bool :=
  Nat.eqb (length layers) 0 || bool_decide (l ∈ layers).

Definition at_place (d : DB) (placeID id : string) : bool :=
  bool_decide (placeID = "") || bool_decide ((id, placeID) ∈ event_places d).

Definition statuses_of (q : EventQuery) : list EventStatus :=
  match q_Statuses q with [] => [ACTIVE; SCHEDULED] | l => l end.

(** The WHERE clause, but for the cursor. *)
Definition selected (q : EventQuery) (d : DB) (x : string * EventRow) : bool :=
  at_place d (q_PlaceID q) x.1 && bool_decide (c_status x.2 ∈ statuses_of q)
  && in_layers (q_Layers q) (c_layer x.2)
  && (negb (Severity_number INFO <? Severity_number (q_MinSeverity q))
      || (Severity_number (q_MinSeverity q) <=? Severity_number (c_severity x.2)))
  && (time_is_zero (q_Since q) || (time_unix (q_Since q) <=? c_observed_at x.2)).

Definition event_rows (q : EventQuery) (d : DB) : list (string * EventRow) :=
  filter (fun x => selected q d x = true) (map_to_list (events d)).

Definition event_key (x : string * EventRow) : eventCursor :=
  mkEventCursor (Severity_number (c_severity x.2)) (c_observed_at x.2) x.1.

(** severity DESC, observed_at DESC, id ASC. *)
Definition event_before (a b : eventCursor) : bool :=
  (e_S b <? e_S a) || ((e_S b =? e_S a) && (e_O b <? e_O a))
  || ((e_S b =? e_S a) && (e_O b =? e_O a) && str_ltb (e_ID a) (e_ID b)).

Definition ErrToken : Tx.error := "store: invalid page token".

(** The cursor a request carries: none, or the decoded token. *)
Definition cursor_of {C} `{TokenCodec C} (tok : string) : option (option C) :=
  if bool_decide (tok = "") then Some None
  else match decodeToken tok with Some c => Some (Some c) | None => None end.

Definition token_of {C} `{TokenCodec C} (next : option C) : string :=
  match next with Some c => encodeToken c | None => "" end.

Definition QueryEvents `{TokenCodec eventCursor} (q : EventQuery) : M (list Event * string) :=
  match cursor_of (q_PageToken q) with
  | None => Tx.fail ErrToken
  | Some cur =>
      Tx.query (fun d =>
        let (l, next) := page event_key event_before (Z.to_nat (clampPageSize (q_PageSize q))) cur
                           (event_rows q d) in
        ((fun x => c_proto x.2) <$> l, token_of next))
  end.

(** ** Revisions *)

(** [EventRevision]. *)
Record EventRevision := mkEventRevision {
  er_revision : Z; er_observed_at : Time; er_ingested_at : Time; er_event : Event }.

Definition scanRevision (r : RevisionRow) : EventRevision :=
  mkEventRevision (r_revision r) (time_of_unix (r_observed_at r)) (time_of_unix (r_ingested_at r))
    (r_proto r).

(** [EventHistory]: newest first; the cursor is the revision. *)
Definition EventHistory `{TokenCodec historyCursor} (id : string) (pageSize : Z) (token : string)
    : M (list EventRevision * string) :=
  match cursor_of token with
  | None => Tx.fail ErrToken
  | Some cur =>
      Tx.query (fun d =>
        let (l, next) := page r_revision (fun a b => b <? a) (Z.to_nat (clampPageSize pageSize))
                           (h_R <$> cur) (filter (fun r => r_event_id r = id) (event_revisions d)) in
        (scanRevision <$> l, token_of ((fun r => mkHistoryCursor 0 "" r) <$> next)))
  end.

(** [QueryHistory]: the layer and place filters read the current events row. *)
Definition history_selected (q : HistoryQuery) (d : DB) (r : RevisionRow) : bool :=
  match events d !! r_event_id r with
  | None => false
  | Some row =>
      at_place d (hq_PlaceID q) (r_event_id r) && in_layers (hq_Layers q) (c_layer row)
      && (time_is_zero (hq_From q) || (time_unix (hq_From q) <=? r_observed_at r))
      && (time_is_zero (hq_To q) || (r_observed_at r <? time_unix (hq_To q)))
  end.

Definition history_rows (q : HistoryQuery) (d : DB) : list RevisionRow :=
  filter (fun r => history_selected q d r = true) (event_revisions d).

Definition history_key (r : RevisionRow) : historyCursor :=
  mkHistoryCursor (r_observed_at r) (r_event_id r) (r_revision r).

(** observed_at DESC, event_id ASC, revision DESC. *)
Definition history_before (a b : historyCursor) : bool :=
  (h_O b <? h_O a) || ((h_O b =? h_O a) && str_ltb (h_ID a) (h_ID b))
  || ((h_O b =? h_O a) && bool_decide (h_ID b = h_ID a) && (h_R b <? h_R a)).

Definition QueryHistory `{TokenCodec historyCursor} (q : HistoryQuery)
    : M (list EventRevision * string) :=
  match cursor_of (hq_PageToken q) with
  | None => Tx.fail ErrToken
  | Some cur =>
      Tx.query (fun d =>
        let (l, next) := page history_key history_before (Z.to_nat (clampPageSize (hq_PageSize q))) cur
                           (history_rows q d) in
        (scanRevision <$> l, token_of next))
  end.

(** ** Walking the pages *)

(** A client that follows the tokens: the store it meets at each request. *)
Fixpoint follow {A} (request : string -> M (list A * string)) (tok : string) (ss : list (Tx.St DB Mem))
    : option (list A * bool) :=
  match ss with
  | [] => Some ([], false)
  | s :: ss =>
      match (request tok s).1 with
      | inl _ => None
      | inr (l, next) =>
          if bool_decide (next = "") then Some (l, true)
          else match follow request next ss with
               | Some (rest, fin) => Some (l ++ rest, fin)
               | None => None
               end
      end
  end.

Section Follow.
Context {R K A : Type} `{TokenCodec K}.
Variable key : R -> K.
Variable before : K -> K -> bool.
Variable rows_of : DB -> list R.
Variable out : R -> A.
Variable n : nat.
Variable request : string -> M (list A * string).
Hypothesis request_page : forall tok cur, cursor_of tok = Some cur ->
  forall s, request tok s = Tx.query (fun d => let (l, next) := page key before n cur (rows_of d) in
                                     (out <$> l, token_of next)) s.
Hypothesis n_pos : (0 < n)%nat.

Lemma follow_walk ss tok cur :
  cursor_of tok = Some cur ->
  (forall s, s ∈ ss -> forall x, x ∈ rows_of (Tx.db s) -> representable (key x)) ->
  forall l fin, follow request tok ss = Some (l, fin) ->
  let w := walk key before n ((fun s => rows_of (Tx.db s)) <$> ss) cur in l = out <$> w.1 /\ fin = w.2.
Proof using request_page n_pos.
  revert tok cur. induction ss as [|s ss IH]; intros tok cur Hcur Hrep l fin; cbn.
  { intros [= <- <-]. done. }
  rewrite (request_page tok cur Hcur). unfold Tx.query, Tx.bind.
  destruct (Tx.stmt s) as [[e|[]] s1] eqn:E; [done|]. apply Tx.stmt_frame in E as [Hd _]. cbn. rewrite Hd.
  pose proof (page_spec key before n cur (rows_of (Tx.db s)) n_pos) as Hp.
  destruct (page key before n cur (rows_of (Tx.db s))) as [pg [k|]].
  - cbn. rewrite bool_decide_eq_false_2 by apply token_nonempty.
    destruct Hp as (rest & Ha & (x & Hx & ->) & _).
    assert (Hk : cursor_of (encodeToken (key x)) = Some (Some (key x))).
    { unfold cursor_of. rewrite bool_decide_eq_false_2 by apply token_nonempty. rewrite token_roundtrip; [done|].
      apply (Hrep s); [by left|]. assert (Hin : x ∈ after key before cur (rows_of (Tx.db s))).
      { rewrite Ha. apply elem_of_app. left. by apply last_Some_elem_of. }
      by apply elem_of_after in Hin as [? _]. }
    destruct (follow request (encodeToken (key x)) ss) as [[more f]|] eqn:Ef; [|done]. intros [= <- <-].
    destruct (IH _ _ Hk (fun s' Hs' => Hrep s' ltac:(by right)) _ _ Ef) as [-> ->].
    destruct (walk _ _ _ _ _) as [w1 w2]. cbn. by rewrite fmap_app.
  - cbn. intros [= <- <-]. done.
Qed.

(** With a store that answers, every request succeeds. *)
Lemma follow_total ss tok cur :
  cursor_of tok = Some cur -> (forall s, s ∈ ss -> Tx.plan s = []) ->
  (forall s, s ∈ ss -> forall x, x ∈ rows_of (Tx.db s) -> representable (key x)) ->
  is_Some (follow request tok ss).
Proof using request_page n_pos.
  revert tok cur. induction ss as [|s ss IH]; intros tok cur Hcur Hpl Hrep; cbn; [done|].
  rewrite (request_page tok cur Hcur), Tx.query_noFaults by (apply Hpl; by left). cbn.
  pose proof (page_spec key before n cur (rows_of (Tx.db s)) n_pos) as Hp.
  destruct (page key before n cur (rows_of (Tx.db s))) as [pg [k|]]; cbn; [|done].
  rewrite bool_decide_eq_false_2 by apply token_nonempty.
  destruct Hp as (rest & Ha & (x & Hx & ->) & _).
  assert (Hk : cursor_of (encodeToken (key x)) = Some (Some (key x))).
  { unfold cursor_of. rewrite bool_decide_eq_false_2 by apply token_nonempty. rewrite token_roundtrip; [done|].
    apply (Hrep s); [by left|]. assert (Hin : x ∈ after key before cur (rows_of (Tx.db s))).
    { rewrite Ha. apply elem_of_app. left. by apply last_Some_elem_of. }
    by apply elem_of_after in Hin as [? _]. }
  destruct (IH _ _ Hk) as [[more f] ->]; [intros; apply Hpl; by right|intros s' ?; apply (Hrep s'); by right|done].
Qed.

(** An unchanged store: the walk ends with every row, in order. *)
Lemma follow_fixed s fuel :
  (forall a, before a a = false) ->
  (forall a b c, before a b = true -> before b c = true -> before a c = true) ->
  (forall a b, before a b = false -> before b a = false -> a = b) ->
  keyed_rows key (rows_of (Tx.db s)) -> Tx.plan s = [] ->
  (forall x, x ∈ rows_of (Tx.db s) -> representable (key x)) ->
  (length (rows_of (Tx.db s)) < fuel)%nat ->
  exists l, follow request "" (repeat s fuel) = Some (out <$> l, true)
    /\ l ≡ₚ rows_of (Tx.db s) /\ StronglySorted (fun a b => before a b = true) (key <$> l).
Proof using request_page n_pos.
  intros Hirr Htr Htot Hk Hpl Hrep Hf.
  assert (Hall : forall s', s' ∈ repeat s fuel -> s' = s).
  { intros s' Hs'%list_elem_of_In%repeat_spec. done. }
  destruct (follow_total (repeat s fuel) "" None eq_refl) as [[l fin] Hl]; [by intros s' ->%Hall..|].
  destruct (follow_walk (repeat s fuel) "" None eq_refl ltac:(by intros s' ->%Hall) _ _ Hl) as [-> ->].
  assert (Hrows : (fun s => rows_of (Tx.db s)) <$> repeat s fuel = repeat (rows_of (Tx.db s)) fuel).
  { clear. induction fuel; cbn; [done|]. by f_equal. }
  exists (after key before None (rows_of (Tx.db s))). rewrite Hl, Hrows, walk_fixed; try done.
  - split; [done|]. split; [by rewrite (after_perm _ _ None)|]. by apply after_strict.
  - by rewrite (after_perm _ _ None).
Qed.

End Follow.


(** ** The orders *)

Lemma event_before_order :
  (forall a, event_before a a = false)
  /\ (forall a b c, event_before a b = true -> event_before b c = true -> event_before a c = true)
  /\ (forall a b, event_before a b = false -> event_before b a = false -> a = b).
Proof.
  unfold event_before. split_and!.
  - intros a. rewrite str_ltb_irrefl. lia.
  - intros a b c H1 H2. destruct (str_ltb (e_ID a) (e_ID b)) eqn:E1, (str_ltb (e_ID b) (e_ID c)) eqn:E2;
      [rewrite (str_ltb_trans _ _ _ E1 E2)|..]; lia.
  - intros [s1 o1 i1] [s2 o2 i2]. cbn. intros H1 H2.
    destruct (str_ltb i1 i2) eqn:E1, (str_ltb i2 i1) eqn:E2;
      try (exfalso; lia).
    rewrite (str_ltb_total _ _ E1 E2). f_equal; lia.
Qed.

Lemma history_before_spec a b :
  history_before a b = true <-> h_O b < h_O a \/ h_O b = h_O a /\ str_ltb (h_ID a) (h_ID b) = true
    \/ h_O b = h_O a /\ h_ID b = h_ID a /\ h_R b < h_R a.
Proof.
  unfold history_before. rewrite !orb_true_iff, !andb_true_iff, bool_decide_eq_true, !Z.ltb_lt, !Z.eqb_eq. tauto.
Qed.

Lemma history_before_order :
  (forall a, history_before a a = false)
  /\ (forall a b c, history_before a b = true -> history_before b c = true -> history_before a c = true)
  /\ (forall a b, history_before a b = false -> history_before b a = false -> a = b).
Proof.
  split_and!.
  - intros a. apply not_true_iff_false. rewrite history_before_spec, str_ltb_irrefl. intuition lia.
  - intros [o1 i1 r1] [o2 i2 r2] [o3 i3 r3]. rewrite !history_before_spec. cbn.
    intros [H1|[[-> H1]|(-> & -> & H1)]] [H2|[[-> H2]|(-> & -> & H2)]]; auto with lia.
    right; left. split; [done|]. by eapply str_ltb_trans.
  - intros [o1 i1 r1] [o2 i2 r2]. rewrite <-!not_true_iff_false, !history_before_spec. cbn. intros H1 H2.
    destruct (str_ltb i1 i2) eqn:E1; [exfalso; intuition lia|].
    destruct (str_ltb i2 i1) eqn:E2; [exfalso; intuition lia|].
    pose proof (str_ltb_total _ _ E1 E2) as ->.
    destruct (Z.lt_trichotomy o1 o2) as [?|[-> |?]]; [destruct H2; auto| |destruct H1; auto].
    destruct (Z.lt_trichotomy r1 r2) as [?|[-> |?]]; [destruct H2; auto|done|destruct H1; auto].
Qed.

(** ** What a client sees *)

(** Columns agree with the blobs (part of the store's invariant), and the
    primary key of [event_revisions] holds. *)
Definition tables_ok (d : DB) : Prop :=
  (forall id row, events d !! id = Some row -> Id (c_proto row) = id)
  /\ (forall r, r ∈ event_revisions d -> Id (r_proto r) = r_event_id r)
  /\ NoDup ((fun r => (r_event_id r, r_revision r)) <$> event_revisions d).

Lemma event_rows_keyed q d : keyed_rows event_key (event_rows q d).
Proof.
  apply (NoDup_fmap_1 e_ID). rewrite <-list_fmap_compose.
  apply (sublist_NoDup _ ((map_to_list (events d)).*1)); [apply NoDup_fst_map_to_list|].
  apply (fmap_sublist fst), sublist_filter.
Qed.

Lemma history_rows_keyed q d : tables_ok d -> keyed_rows history_key (history_rows q d).
Proof.
  intros (_ & _ & H). apply (NoDup_fmap_1 (fun k => (h_ID k, h_R k))). rewrite <-list_fmap_compose.
  eapply sublist_NoDup; [exact H|]. apply fmap_sublist, sublist_filter.
Qed.

Lemma length_filter_fmap {A B} (f : A -> B) (P : B -> Prop) (Q : A -> Prop)
    `{!forall x, Decision (P x)} `{!forall x, Decision (Q x)} l :
  (forall x, x ∈ l -> P (f x) <-> Q x) -> length (filter P (f <$> l)) = length (filter Q l).
Proof.
  induction l as [|x l IH]; intros HPQ; [done|]. cbn [fmap list_fmap].
  assert (HPx : P (f x) <-> Q x) by (apply HPQ; by left).
  rewrite !filter_cons. destruct (decide (P (f x))), (decide (Q x)); cbn; rewrite ?IH; auto; try tauto;
    intros y Hy; apply HPQ; by right.
Qed.

Lemma clampPageSize_pos n : (0 < Z.to_nat (clampPageSize n))%nat.
Proof. pose proof (proj1 (clampPageSize_spec n)). lia. Qed.

Section Clients.
Context `{TokenCodec eventCursor} `{TokenCodec historyCursor}.

Abbreviation list_events q := (fun tok => QueryEvents (set_token tok q)).
Abbreviation list_history q := (fun tok => QueryHistory (set_htoken tok q)).

Lemma QueryEvents_page q tok cur : cursor_of tok = Some cur ->
  forall s, QueryEvents (set_token tok q) s = Tx.query (fun d =>
    let (l, next) := page event_key event_before (Z.to_nat (clampPageSize (q_PageSize q))) cur
                       (event_rows q d) in ((fun x => c_proto x.2) <$> l, token_of next)) s.
Proof. intros Hc s. unfold QueryEvents. cbn. by rewrite Hc. Qed.

Lemma QueryHistory_page q tok cur : cursor_of tok = Some cur ->
  forall s, QueryHistory (set_htoken tok q) s = Tx.query (fun d =>
    let (l, next) := page history_key history_before (Z.to_nat (clampPageSize (hq_PageSize q))) cur
                       (history_rows q d) in (scanRevision <$> l, token_of next)) s.
Proof. intros Hc s. unfold QueryHistory. cbn. by rewrite Hc. Qed.

Definition revisions_of (id : string) (d : DB) : list RevisionRow :=
  filter (fun r => r_event_id r = id) (event_revisions d).

(** The cursor of one event's history: only its revision is set. *)
Definition revision_codec : TokenCodec Z :=
  {| encodeToken r := encodeToken (mkHistoryCursor 0 "" r); decodeToken t := option_map h_R (decodeToken t);
     representable r := representable (mkHistoryCursor 0 "" r);
     token_roundtrip r Hr := eq_trans (f_equal (option_map h_R) (token_roundtrip _ Hr)) eq_refl;
     token_nonempty r := token_nonempty _ |}.

Lemma EventHistory_page id n tok cur : cursor_of (H := revision_codec) tok = Some cur ->
  forall s, EventHistory id n tok s = Tx.query (fun d =>
    let (l, next) := page r_revision (fun a b => b <? a) (Z.to_nat (clampPageSize n)) cur
                       (revisions_of id d) in
    (scanRevision <$> l, token_of (H := revision_codec) next)) s.
Proof.
  intros Hc s. unfold EventHistory, cursor_of in *. cbn in Hc.
  case_bool_decide; [|destruct (decodeToken tok) as [c|]; [|done]]; injection Hc as <-; cbn;
    unfold Tx.query, Tx.bind; destruct (Tx.stmt s) as [[e|[]] s1]; try done;
    fold (revisions_of id (Tx.db s1)); by destruct (page _ _ _ _ _) as [? []].
Qed.

(** A client that follows the page tokens of the event list to the end gets
    every event that stayed selected, with its severity and observation time
    unchanged, exactly once, however the store changed between its requests; on
    a store that does not change the walk ends and returns exactly the selected
    events, in order. *)
Theorem event_pages q :
  (forall ss evs, ss <> [] ->
     (forall s, s ∈ ss -> tables_ok (Tx.db s)
        /\ forall x, x ∈ event_rows q (Tx.db s) -> representable (event_key x)) ->
     follow (list_events q) "" ss = Some (evs, true) ->
     forall id sev obs,
       (forall s, s ∈ ss -> exists row, events (Tx.db s) !! id = Some row
          /\ selected q (Tx.db s) (id, row) = true /\ c_severity row = sev /\ c_observed_at row = obs) ->
       length (filter (fun ev => Id ev = id) evs) = 1%nat)
  /\ (forall s fuel, Tx.plan s = [] ->
     (forall x, x ∈ event_rows q (Tx.db s) -> representable (event_key x)) ->
     (length (event_rows q (Tx.db s)) < fuel)%nat ->
     exists l, follow (list_events q) "" (repeat s fuel) = Some ((fun x => c_proto x.2) <$> l, true)
       /\ l ≡ₚ event_rows q (Tx.db s)
       /\ StronglySorted (fun a b => event_before a b = true) (event_key <$> l)).
Proof.
  destruct event_before_order as (Hirr & Htr & Htot). pose proof (clampPageSize_pos (q_PageSize q)) as Hn. split.
  - intros ss evs Hne Hok Hf id sev obs Hid.
    destruct (follow_walk event_key event_before (event_rows q) _ _ _ (QueryEvents_page q) Hn ss "" None
      eq_refl (fun s Hs => proj2 (Hok s Hs)) _ _ Hf) as [-> Hfin].
    rewrite (length_filter_fmap _ _ (fun x => Id (c_proto x.2) = id)) by done.
    apply (walk_once event_key event_before Hirr Htr Htot _ _
      (mkEventCursor (Severity_number sev) obs id)); [done| | | |exact (eq_sym Hfin)].
    + apply Forall_forall. intros rows (s & -> & _)%list_elem_of_fmap. apply event_rows_keyed.
    + by destruct ss.
    + intros rows (s & -> & Hs)%list_elem_of_fmap. destruct (Hid s Hs) as (row & Hr & Hsel & <- & <-).
      destruct (Hok s Hs) as [(Hids & _) _]. split.
      * exists (id, row). split; [|split; [done|by apply Hids]].
        apply list_elem_of_filter. split; [done|]. by apply elem_of_map_to_list.
      * intros [k row'] [_ Hx%elem_of_map_to_list]%list_elem_of_filter. cbn. rewrite (Hids _ _ Hx).
        split; [intros ->; unfold event_key; cbn; congruence|by intros [= _ _ ->]].
  - intros s fuel Hpl Hrep Hf.
    exact (follow_fixed event_key event_before (event_rows q) _ _ _ (QueryEvents_page q) Hn s fuel
      Hirr Htr Htot (event_rows_keyed q (Tx.db s)) Hpl Hrep Hf).
Qed.

(** The same of the history archive: a revision that stays selected is
    returned exactly once by a complete walk, and on a store that does not change
    the walk ends with exactly the selected revisions, newest observation
    first. Walking one event's history returns all its revisions, newest
    first. *)
Theorem history_pages q :
  (forall ss revs, ss <> [] ->
     (forall s, s ∈ ss -> tables_ok (Tx.db s)
        /\ forall x, x ∈ history_rows q (Tx.db s) -> representable (history_key x)) ->
     follow (list_history q) "" ss = Some (revs, true) ->
     forall r, (forall s, s ∈ ss -> r ∈ history_rows q (Tx.db s)) ->
       length (filter (fun e => Id (er_event e) = r_event_id r /\ er_revision e = r_revision r) revs) = 1%nat)
  /\ (forall s fuel, tables_ok (Tx.db s) -> Tx.plan s = [] ->
     (forall x, x ∈ history_rows q (Tx.db s) -> representable (history_key x)) ->
     (length (history_rows q (Tx.db s)) < fuel)%nat ->
     exists l, follow (list_history q) "" (repeat s fuel) = Some (scanRevision <$> l, true)
       /\ l ≡ₚ history_rows q (Tx.db s)
       /\ StronglySorted (fun a b => history_before a b = true) (history_key <$> l))
  /\ (forall s fuel id n, tables_ok (Tx.db s) -> Tx.plan s = [] ->
     (forall x, x ∈ revisions_of id (Tx.db s) -> representable (mkHistoryCursor 0 "" (r_revision x))) ->
     (length (revisions_of id (Tx.db s)) < fuel)%nat ->
     exists l, follow (EventHistory id n) "" (repeat s fuel) = Some (scanRevision <$> l, true)
       /\ l ≡ₚ revisions_of id (Tx.db s)
       /\ StronglySorted (fun a b => (b <? a) = true) (r_revision <$> l)).
Proof.
  destruct history_before_order as (Hirr & Htr & Htot).
  pose proof (clampPageSize_pos (hq_PageSize q)) as Hn. split_and!.
  - intros ss revs Hne Hok Hf r Hr.
    destruct (follow_walk history_key history_before (history_rows q) _ _ _ (QueryHistory_page q) Hn ss "" None
      eq_refl (fun s Hs => proj2 (Hok s Hs)) _ _ Hf) as [-> Hfin].
    set (w := walk _ _ _ _ _) in *.
    assert (Hw : forall x, x ∈ w.1 -> Id (r_proto x) = r_event_id x).
    { intros x Hx. destruct (walk_from _ _ _ _ _ x Hn Hx) as (rows & (s & -> & Hs)%list_elem_of_fmap & Hin).
      apply list_elem_of_filter in Hin as [_ Hin]. by apply (proj1 (Hok s Hs)). }
    rewrite (length_filter_fmap _ _ (fun x => r_event_id x = r_event_id r /\ r_revision x = r_revision r)).
    2: { intros x Hx. cbn. by rewrite (Hw x Hx). }
    apply (walk_once history_key history_before Hirr Htr Htot _ _ (history_key r)); [done| | | |exact (eq_sym Hfin)].
    + apply Forall_forall. intros rows (s & -> & Hs)%list_elem_of_fmap. by apply history_rows_keyed, (Hok s Hs).
    + by destruct ss.
    + intros rows (s & -> & Hs)%list_elem_of_fmap. pose proof (Hr s Hs) as Hin. split; [by exists r|].
      intros x Hx. split; [|intros [= _ -> ->]; done]. intros [H1 H2].
      assert (Heq : x = r); [|by rewrite Heq].
      destruct (Hok s Hs) as [(_ & _ & Hpk) _].
      apply (keyed_rows_inj (fun r => (r_event_id r, r_revision r)) (event_revisions (Tx.db s))); [done|..];
        [by apply list_elem_of_filter in Hx as [_ ?]|by apply list_elem_of_filter in Hin as [_ ?]|].
      by rewrite H1, H2.
  - intros s fuel Hok Hpl Hrep Hf.
    exact (follow_fixed history_key history_before (history_rows q) _ _ _ (QueryHistory_page q) Hn s fuel
      Hirr Htr Htot (history_rows_keyed q (Tx.db s) Hok) Hpl Hrep Hf).
  - intros s fuel id n (_ & _ & Hpk) Hpl Hrep Hf.
    refine (follow_fixed (H := revision_codec) r_revision (fun a b => b <? a) (revisions_of id) _ _ _
      (EventHistory_page id n) (clampPageSize_pos n) s fuel _ _ _ _ Hpl Hrep Hf); [lia..|].
    apply (NoDup_fmap_1 (pair id)). rewrite <-list_fmap_compose.
    assert (Heq : pair id ∘ r_revision <$> revisions_of id (Tx.db s)
      = (fun r => (r_event_id r, r_revision r)) <$> revisions_of id (Tx.db s)).
    { apply list_fmap_ext. intros i r Hr. apply list_elem_of_lookup_2, list_elem_of_filter in Hr as [<- _]. done. }
    rewrite Heq. eapply sublist_NoDup; [exact Hpk|]. apply fmap_sublist, sublist_filter.
Qed.

End Clients.

(** ** A concrete codec and a small store *)

Fixpoint pos_string (p : positive) : string :=
  match p with
  | xH => ""
  | xO p => String (Ascii.ascii_of_N 48) (pos_string p)
  | xI p => String (Ascii.ascii_of_N 49) (pos_string p)
  end.

Fixpoint string_pos (s : string) : positive :=
  match s with
  | EmptyString => xH
  | String c s => if bool_decide (c = Ascii.ascii_of_N 49) then xI (string_pos s) else xO (string_pos s)
  end.

Lemma string_pos_string p : string_pos (pos_string p) = p.
Proof. induction p; cbn; by rewrite ?IHp. Qed.

Definition tuple_codec {C} (into : C -> Z * Z * string) (back : Z * Z * string -> C)
    (Hback : forall c, back (into c) = c) : TokenCodec C.
Proof.
  refine {| encodeToken c := "t" +:+ pos_string (encode (into c));
            decodeToken s := match s with
                             | String _ s => back <$> decode (string_pos s)
                             | EmptyString => None
                             end;
            representable _ := True |}.
  - intros c _. change (back <$> decode (string_pos (pos_string (encode (into c)))) = Some c).
    rewrite string_pos_string, decode_encode. cbn. by rewrite Hback.
  - done.
Defined.

Definition event_codec : TokenCodec eventCursor :=
  tuple_codec (fun c => (e_S c, e_O c, e_ID c)) (fun x => mkEventCursor x.1.1 x.1.2 x.2)
    (fun c => match c with mkEventCursor _ _ _ => eq_refl end).
Definition history_codec : TokenCodec historyCursor :=
  tuple_codec (fun c => (h_O c, h_R c, h_ID c)) (fun x => mkHistoryCursor x.1.1 x.2 x.1.2)
    (fun c => match c with mkHistoryCursor _ _ _ => eq_refl end).

Definition ev (id : string) : Event :=
  mkEvent id WILDFIRE "" MINOR ACTIVE "Fire" "" "" "" "" None []
    (Some (mkProvenance "nws" "NWS" "" "" None)) None None None None 1 None None.
Definition ev_row (id : string) (at_ : Z) : EventRow :=
  mkEventRow WILDFIRE MINOR ACTIVE "nws" None None at_ 0 1 "h" (ev id) 0 0.
Definition three : Tx.St DB Mem :=
  Tx.mkSt (mkDB {[ "a" := ev_row "a" 5; "b" := ev_row "b" 7; "c" := ev_row "c" 5 ]}
    [mkRevisionRow "a" 1 5 0 (ev "a"); mkRevisionRow "b" 1 7 0 (ev "b")] ∅ ∅ ∅ ∅ ∅) (mkMem None 0 ∅) [].
Definition all_fires : EventQuery := mkEventQuery "" [WILDFIRE] [] INFO 0 2 "".
Definition archive : HistoryQuery := mkHistoryQuery "" [] 0 0 1 "".

Example two_pages :
  match follow (fun tok => @QueryEvents event_codec (set_token tok all_fires)) "" [three; three] with
  | Some (l, fin) => (Id <$> l, fin) = (["b"; "a"; "c"], true)
  | None => False
  end.
Proof. vm_compute. reflexivity. Qed.

Lemma three_ok : tables_ok (Tx.db three).
Proof.
  split_and!.
  - intros id row. cbn. intros H%lookup_insert_Some. destruct H as [[<- <-]|[_ H]]; [done|].
    apply lookup_insert_Some in H as [[<- <-]|[_ H]]; [done|].
    by apply lookup_singleton_Some in H as [<- <-].
  - cbn. intros r [-> |[-> |?%not_elem_of_nil]%elem_of_cons]%elem_of_cons; done.
  - cbn. apply (bool_decide_unpack _). vm_compute. exact I.
Qed.

Lemma event_pages_witness :
  exists l, follow (fun tok => @QueryEvents event_codec (set_token tok all_fires)) "" (repeat three 4)
    = Some ((fun x : string * EventRow => c_proto x.2) <$> l, true).
Proof.
  destruct (proj2 (@event_pages event_codec all_fires) three 4%nat eq_refl
    ltac:(intros; exact I) ltac:(vm_compute; lia)) as (l & Hl & _).
  exists l. exact Hl.
Defined.

Lemma history_pages_witness :
  exists l, follow (fun tok => @QueryHistory history_codec (set_htoken tok archive)) "" (repeat three 3)
    = Some (scanRevision <$> l, true).
Proof.
  destruct (proj1 (proj2 (@history_pages history_codec archive)) three 3%nat three_ok eq_refl
    ltac:(intros; exact I) ltac:(vm_compute; lia)) as (l & Hl & _).
  exists l. exact Hl.
Defined.

End Query.
