(* ===== verification/Scheduler.v ===== *)
(** * The ingest scheduler

    [internal/ingest/scheduler.go] with the types of [internal/ingest/ingest.go]:
    one tick of one poller, its write gate, the enhancement budget, the
    disappearance sweep and the source health. A tick runs on the event store
    and the mesh store with every statement free to fail; errors are logged and
    the tick goes on, as in the code. Readings of the clock come from one
    sequence. The upstream poll and the language model are parameters. Timers,
    goroutines, logging and panics are not modelled. *)

From S2P Require Import Prelude Float64 Geo Geojson GridEvent EventCodec Tx Store Sources StoreSpec Places Mesh.

Module Scheduler.
Import F64 Grid Store Sources Places Mesh.
Open Scope tx_scope.

(** ** The interface to the pollers *)

(** [MeshKeyRename], [PollResult]. [PerSource] maps a source to its error. *)
Record MeshKeyRename := mkMeshKeyRename { rn_From : string; rn_To : string }.
Record PollResult := mkPollResult {
  Events : list Event; PerSource : gmap string string; SweepSuppress : list string;
  Superseded : list string; MeshObservations : list MeshObservation;
  pr_MeshActivity : list MeshActivity; MeshTelemetry_ : list MeshTelemetrySample;
  MeshTelemetryRenames : list MeshKeyRename; ForceWrite : list string;
  MeshActivityUnwritten : bool (* whether the callback is set *) }.

(** [Prior]: the active events of the poller's sources. *)
Record Prior := mkPrior { byID : gmap string Event; bySource : gmap string (list Event) }.
Definition ByID (p : Prior) (id : string) : option Event := byID p !! id.
Definition ForSource (p : Prior) (src : string) : list Event := default [] (bySource p !! src).

(** [config.SourceTuning], the part the scheduler reads. *)
Record SourceTuning := mkSourceTuning { ExpireAfter : Duration; Disappearance : string }.

(** [SeverityFromLabel]. *)
Definition SeverityFromLabel (label : string) : Severity :=
  if bool_decide (label = "MINOR") then MINOR else if bool_decide (label = "MODERATE") then MODERATE
  else if bool_decide (label = "SEVERE") then SEVERE else if bool_decide (label = "EXTREME") then EXTREME
  else INFO.

(** [zonesMatch]. *)
Definition zonesMatch (areaZones recordZones : list string) : bool :=
  Nat.eqb (length areaZones) 0 || Nat.eqb (length recordZones) 0
  || existsb (fun z => bool_decide (z ∈ areaZones)) recordZones.

(** What the language model answers. *)
Record Enhanced := mkEnhanced { en_Summary : string; en_Request : string; en_Response : string }.

(** ** State *)

(** The process: the store's and the mesh store's memory, how often the clock
    was read, the calls made to the language model, and how often a poller was
    told its mesh activity was not written. *)
Record SMem := mkSMem {
  m_store : Mem; m_mesh : Z; clock_reads : nat; enhance_calls : list (string * string * list string);
  unwritten : Z }.

Definition store_mem : Tx.lens SMem Mem :=
  Tx.mkLens m_store (fun x c => mkSMem x (m_mesh c) (clock_reads c) (enhance_calls c) (unwritten c)).
Definition mesh_mem : Tx.lens SMem Z :=
  Tx.mkLens m_mesh (fun x c => mkSMem (m_store c) x (clock_reads c) (enhance_calls c) (unwritten c)).

Definition SM := Tx.M (DB * MeshDB) SMem.

Definition onStore {A} (m : Store.M A) : SM A := Tx.zoom Tx.fst_lens store_mem m.
Definition onMesh {A} (m : Mesh.M A) : SM A := Tx.zoom Tx.snd_lens mesh_mem m.

(** [pollerState]. *)
Record pollerState := mkPollerState { ps_placesVersion : Z; reconciled : bool }.

Definition touchSeenCoalesce : Duration := 10 * minute.
Definition maxStartJitter : Duration := 90 * second.
Definition statsRefreshInterval : Duration := 6 * hour.

Section Scheduler.
Context {MK : MathKernel} {JK : JsonKernel}.
Variable marshal : Event -> option string.
Variable digest : string -> string.
Variable wildfireBuffer : float64.
(** The n-th reading of the clock; the n-th answer of the model. *)
Variable clock : nat -> Time.
Variable Enhance : nat -> string -> string -> list string -> option Enhanced.

(** [SchedulerConfig]. *)
Variable tuning : gmap string SourceTuning.
Variable has_enhancer : bool.
Variable enhancerModel : string.
Variable budgetPerTick : Z.

Definition now_ : SM Time := fun s =>
  let c := Tx.mem s in
  (inr (clock (clock_reads c)),
   Tx.mkSt (Tx.db s) (mkSMem (m_store c) (m_mesh c) (S (clock_reads c)) (enhance_calls c) (unwritten c))
     (Tx.plan s)).

(** A call to the language model: its answer. *)
Definition call_enhance (headline_ description_ : string) (names : list string)
    : SM (option Enhanced) := fun s =>
  let c := Tx.mem s in
  (inr (Enhance (length (enhance_calls c)) headline_ description_ names),
   Tx.mkSt (Tx.db s) (mkSMem (m_store c) (m_mesh c) (clock_reads c)
     (enhance_calls c ++ [(headline_, description_, names)]) (unwritten c)) (Tx.plan s)).

(** ** Before the writes *)

(** [loadPrior]: a source whose read fails contributes nothing. *)
Fixpoint loadPrior (sourceIDs : list string) (p : Prior) : SM Prior :=
  match sourceIDs with
  | [] => Tx.ret p
  | src :: rest =>
      stored <-- Tx.try (onStore (ActiveEventsBySource src)) ;;
      loadPrior rest (match stored with
        | inl _ => p
        | inr l =>
            mkPrior (foldl (fun m se => <[Id (se_event se) := se_event se]> m) (byID p) l)
              (if Nat.eqb (length l) 0 then bySource p
               else <[src := ForSource p src ++ (se_event <$> l)]> (bySource p))
        end)
  end.

(** [storedHashes]: nil ([None]) when the lookup fails. *)
Definition storedHashes (evs : list Event) : SM (option (gmap string string)) :=
  h <-- Tx.try (onStore (ContentHashes (Id <$> evs))) ;;
  Tx.ret (match h with inl _ => None | inr m => Some m end).

Definition shouldUpsert (ev : Event) (fullReconcile : bool) (stored : option (gmap string string))
    (forceWrite : list string) : bool :=
  if fullReconcile || bool_decide (is_Some (enhancement ev)) || bool_decide (Id ev ∈ forceWrite) then true
  else match stored with
       | None => true
       | Some m =>
           match m !! Id ev with
           | None => true
           | Some h => negb (bool_decide (h = ContentHash marshal digest ev))
           end
       end.

(** [placeNames]. *)
Fixpoint placeNames (ids : list string) : SM (list string) :=
  match ids with
  | [] => Tx.ret []
  | id :: rest =>
      p <-- Tx.try (onStore (GetPlace id)) ;;
      names <-- placeNames rest ;;
      Tx.ret (match p with
              | inl _ => names
              | inr p => if bool_decide (p_name p = "") then names else p_name p :: names
              end)
  end.

(** [maybeEnhance]: the event, enhanced or not, and the budget left. *)
Definition maybeEnhance (ev : Event) (budget : Z) : SM (Event * Z) :=
  if negb has_enhancer || negb (bool_decide (layer ev = WEATHER_ALERT)) || (budget <=? 0) then
    Tx.ret (ev, budget)
  else
    changed <-- Tx.try (onStore (NeedsUpdate marshal digest ev)) ;;
    match changed with
    | inl _ | inr false => Tx.ret (ev, budget)
    | inr true =>
        names <-- placeNames (place_ids ev) ;;
        enh <-- call_enhance (headline ev) (description ev) names ;;
        match enh with
        | None => Tx.ret (ev, budget - 1)
        | Some e =>
            t <-- now_ ;;
            Tx.ret (set_enhancement (Some (mkEnhancement enhancerModel (Some t) ["summary"]
                                             (en_Request e) (en_Response e)))
                      (set_summary (en_Summary e) ev), budget - 1)
        end
    end.

(** ** Lifecycle *)

Definition supersede (src : string) (ids : list string) (now : Time) : SM unit :=
  if Nat.eqb (length ids) 0 then Tx.ret tt
  else
    active <-- Tx.try (onStore (ActiveEventsBySource src)) ;;
    match active with
    | inl _ => Tx.ret tt
    | inr l =>
        let hit := filter (fun id => id ∈ ids) (Id ∘ se_event <$> l) in
        if Nat.eqb (length hit) 0 then Tx.ret tt
        else
          t <-- now_ ;;
          Tx.try (onStore (TransitionEvents marshal digest t hit RESOLVED now)) ;;; Tx.ret tt
    end.

Definition shouldExpire (se : StoredEvent) (expireAfter : Duration) (now : Time) : bool :=
  let ev := se_event se in
  if match expires ev with Some exp => time_after now exp | None => false end then true
  else if expireAfter <=? 0 then false
  else
    let ref := if time_is_zero (LastSeenAt se) then
                 match observed_at ev with
                 | Some t => t
                 | None => default (LastSeenAt se) (ingested_at ev)
                 end
               else LastSeenAt se in
    negb (time_is_zero ref) && (expireAfter <? time_sub now ref).

Definition no_tuning : SourceTuning := mkSourceTuning 0 "".

(** The status a disappeared event goes to, and the ones that go. *)
Definition sweep_target (src : string) : EventStatus :=
  if bool_decide (Disappearance (default no_tuning (tuning !! src)) = DisappearanceExpire)
  then EXPIRED else RESOLVED.

Definition sweep_takes (src : string) (now : Time) (se : StoredEvent) : bool :=
  let t := default no_tuning (tuning !! src) in
  if bool_decide (Disappearance t = DisappearanceExpire) then shouldExpire se (ExpireAfter t) now
  else true.

Definition sweepDisappeared (src : string) (polledIDs : gset string) (now : Time) : SM unit :=
  active <-- Tx.try (onStore (ActiveEventsBySource src)) ;;
  match active with
  | inl _ => Tx.ret tt
  | inr l =>
      let disappeared := filter (fun se => Id (se_event se) ∉ polledIDs) l in
      let ids := Id ∘ se_event <$> filter (fun se => sweep_takes src now se = true) disappeared in
      if Nat.eqb (length ids) 0 then Tx.ret tt
      else
        t <-- now_ ;;
        Tx.try (onStore (TransitionEvents marshal digest t ids (sweep_target src) now)) ;;; Tx.ret tt
  end.

(** [recordAttempt]. *)
Definition recordAttempt (src : string) (attemptErr : option string) : SM unit :=
  t <-- now_ ;;
  Tx.try (onStore (RecordAttempt t src attemptErr)) ;;; Tx.ret tt.

(** ** The tick *)

(** The polled ids of each of the poller's sources. *)
Definition note_polled (src id : string) (polled : gmap string (gset string))
    : gmap string (gset string) :=
  match polled !! src with Some ids => <[src := {[id]} ∪ ids]> polled | None => polled end.

(** The event loop: ids polled per source, ids confirmed seen, budget. *)
Fixpoint upsertEvents (r : PollResult) (fullReconcile : bool) (stored : option (gmap string string))
    (evs : list Event) (polled : gmap string (gset string)) (polledIDs : list string) (budget : Z)
    : SM (gmap string (gset string) * list string) :=
  match evs with
  | [] => Tx.ret (polled, polledIDs)
  | ev :: rest =>
      let src := GetSourceId ev in
      let polled := note_polled src (Id ev) polled in
      let polledIDs := match PerSource r !! src with
                       | None => polledIDs ++ [Id ev]
                       | Some _ => polledIDs
                       end in
      x <-- maybeEnhance ev budget ;;
      (if shouldUpsert x.1 fullReconcile stored (ForceWrite r) then
         t <-- now_ ;;
         Tx.try (onStore (UpsertEvent marshal digest wildfireBuffer t x.1)) ;;; Tx.ret tt
       else Tx.ret tt) ;;;
      upsertEvents r fullReconcile stored rest polled polledIDs x.2
  end.

(** The mesh measurements of a tick. *)
Definition told_unwritten : SM unit := Tx.put_mem (fun c =>
  mkSMem (m_store c) (m_mesh c) (clock_reads c) (enhance_calls c) (unwritten c + 1)).

Definition writeMesh (r : PollResult) : SM unit :=
  (if Nat.eqb (length (MeshObservations r)) 0 && Nat.eqb (length (pr_MeshActivity r)) 0 then Tx.ret tt
   else
     e <-- Tx.try (onMesh (RecordMeshTick (MeshObservations r) (pr_MeshActivity r))) ;;
     match e with
     | inl _ => if MeshActivityUnwritten r then told_unwritten else Tx.ret tt
     | inr _ => Tx.ret tt
     end) ;;;
  Tx.foreach (fun x => Tx.try (onMesh (RenameMeshTelemetryPubKey (rn_From x) (rn_To x))) ;;; Tx.ret tt)
    (MeshTelemetryRenames r) ;;;
  Tx.try (onMesh (InsertMeshTelemetry (MeshTelemetry_ r))) ;;; Tx.ret tt.

Definition sweepSource (r : PollResult) (polled : gmap string (gset string)) (now : Time) (src : string)
    : SM unit :=
  if bool_decide (is_Some (PerSource r !! src)) || bool_decide (src ∈ SweepSuppress r) then Tx.ret tt
  else
    supersede src (Superseded r) now ;;;
    sweepDisappeared src (default ∅ (polled !! src)) now.

Definition tick (sourceIDs : list string) (Poll : Prior -> Tx.error + PollResult) (st : pollerState)
    : SM pollerState :=
  prior <-- loadPrior sourceIDs (mkPrior ∅ ∅) ;;
  match Poll prior with
  | inl err =>
      Tx.foreach (fun src => recordAttempt src (Some err)) sourceIDs ;;; Tx.ret st
  | inr r =>
      now <-- now_ ;;
      c <-- Tx.get_mem ;;
      let placesVersion := placesVersion (m_store c) in
      let fullReconcile := negb (reconciled st) || negb (placesVersion =? ps_placesVersion st) in
      stored <-- storedHashes (Events r) ;;
      x <-- upsertEvents r fullReconcile stored (Events r)
              (gset_to_gmap ∅ (list_to_set sourceIDs)) [] budgetPerTick ;;
      Tx.try (onStore (TouchSeen x.2 now (time_add now (- touchSeenCoalesce)))) ;;;
      writeMesh r ;;;
      Tx.foreach (sweepSource r x.1 now) sourceIDs ;;;
      Tx.foreach (fun src => recordAttempt src (PerSource r !! src)) sourceIDs ;;;
      Tx.ret (mkPollerState placesVersion true)
  end.

End Scheduler.

End Scheduler.
