(* ===== verification/SchedulerSpec.v ===== *)
(** * The scheduler's lifecycle guarantees

    A tick, whatever fails in it, is a sequence of store operations of which each
    is allowed by the poll: what it may upsert, touch, resolve and expire. The
    fail-loud rule (a failed or partial fetch never ends an event), the store
    invariant across ticks, the sweep's policy and the enhancement budget
    follow. *)

From S2P Require Import Prelude Float64 Geo Geojson GridEvent EventCodec Tx Store Sources StoreSpec StoreFunc Places Mesh Scheduler.

Module SchedulerSpec.
Import F64 Grid Store Sources StoreSpec StoreFunc Places Mesh Scheduler.
Open Scope tx_scope.

Definition St : Type := Tx.St (DB * MeshDB) SMem.

(** The event store's part of the state. *)
Definition core (s : St) : DB * Mem := ((Tx.db s).1, m_store (Tx.mem s)).

(** The polled ids cover the events gone through. *)
Definition covers_polled (srcs : list string) (done_ : list Event) (polled : gmap string (gset string))
    : Prop :=
  forall src, src ∈ srcs -> exists ids, polled !! src = Some ids
    /\ forall ev, ev ∈ done_ -> GetSourceId ev = src -> Id ev ∈ ids.

Lemma note_polled_covers srcs done_ ev polled :
  covers_polled srcs done_ polled ->
  covers_polled srcs (done_ ++ [ev]) (note_polled (GetSourceId ev) (Id ev) polled).
Proof.
  intros H src Hsrc. destruct (H src Hsrc) as (ids & Hids & Hall). unfold note_polled.
  destruct (decide (GetSourceId ev = src)) as [<-|Hne].
  - rewrite Hids, lookup_insert_eq. eexists. split; [done|].
    intros ev' [Hev|Hev%list_elem_of_singleton]%elem_of_app Hs; [|subst; set_solver].
    specialize (Hall ev' Hev Hs). set_solver.
  - exists ids. split.
    + destruct (polled !! GetSourceId ev); [|done]. by rewrite lookup_insert_ne.
    + intros ev' [Hev|Hev%list_elem_of_singleton]%elem_of_app Hs; [auto|congruence].
Qed.

Definition seen_ok (r : PollResult) (ids : list string) : Prop :=
  forall id, id ∈ ids -> exists ev, ev ∈ Events r /\ Id ev = id /\ PerSource r !! GetSourceId ev = None.

Section Spec.
Context {MK : MathKernel} {JK : JsonKernel}.
Variable marshal : Event -> option string.
Variable digest : string -> string.
Variable wildfireBuffer : float64.

(** One store operation, whatever statements fail. *)
Definition op_step (o : op) (x y : DB * Mem) : Prop :=
  exists p r p', run_op marshal digest wildfireBuffer o (Tx.mkSt x.1 x.2 p) = (r, Tx.mkSt y.1 y.2 p').

Definition step (A : DB -> op -> Prop) (x y : DB * Mem) : Prop := exists o, A x.1 o /\ op_step o x y.

(** [runs A m Q s]: from [s], failing or not, [m] only performs operations that
    [A] allows; a value it returns satisfies [Q]. *)
Definition runs (A : DB -> op -> Prop) {T} (m : SM T) (Q : T -> St -> Prop) (s : St) : Prop :=
  forall r s', m s = (r, s') -> rtc (step A) (core s) (core s') /\ forall a, r = inr a -> Q a s'.

(** A read-only operation, with what its result says of the tables. *)
Definition reads {T} (m : Store.M T) (R : T -> DB -> Prop) : Prop :=
  forall s r s', m s = (r, s') -> Tx.db s' = Tx.db s /\ Tx.mem s' = Tx.mem s
    /\ forall a, r = inr a -> R a (Tx.db s).

Section Rules.
Variable A : DB -> op -> Prop.

Lemma runs_mono {T} (m : SM T) (Q R : T -> St -> Prop) s :
  (forall a s', Q a s' -> R a s') -> runs A m Q s -> runs A m R s.
Proof. intros HQR Hm r s' [H1 H2]%Hm. split; [done|]. auto. Qed.

Lemma runs_ret {T} (a : T) (Q : T -> St -> Prop) s : Q a s -> runs A (Tx.ret a) Q s.
Proof. intros HQ r s' [= <- <-]. split; [done|]. by intros ? [= <-]. Qed.

Lemma runs_bind {T U} (m : SM T) (f : T -> SM U) (Q : U -> St -> Prop) s :
  runs A m (fun a s1 => runs A (f a) Q s1) s -> runs A (Tx.bind m f) Q s.
Proof.
  intros Hm r s'. unfold Tx.bind. destruct (m s) as [[e|a] s1] eqn:E; destruct (Hm _ _ E) as [H1 H2].
  - intros [= <- <-]. split; [done|]. done.
  - intros Hf. destruct (H2 a eq_refl _ _ Hf) as [H3 H4]. split; [by etrans|done].
Qed.

(** A program that leaves the event store alone. *)
Lemma runs_quiet {T} (m : SM T) (Q : T -> St -> Prop) s :
  (forall r s', m s = (r, s') -> core s' = core s) ->
  (forall a s', m s = (inr a, s') -> Q a s') -> runs A m Q s.
Proof. intros Hc HQ r s' E. rewrite (Hc _ _ E). split; [done|]. intros a ->. auto. Qed.

Lemma core_now clock s r s' : now_ clock s = (r, s') -> core s' = core s.
Proof. by intros [= _ <-]. Qed.

Lemma runs_now clock (Q : Time -> St -> Prop) s :
  (forall t s', core s' = core s -> Q t s') -> runs A (now_ clock) Q s.
Proof. intros HQ. apply runs_quiet; [intros r s'; apply core_now|]. intros a s' [= <- <-]. by apply HQ. Qed.

(** A read of the event store, logged when it fails. *)
Lemma runs_read {T} (m : Store.M T) (R : T -> DB -> Prop) (Q : Tx.error + T -> St -> Prop) s :
  reads m R ->
  (forall r s', core s' = core s -> (forall a, r = inr a -> R a (core s).1) -> Q r s') ->
  runs A (Tx.try (onStore m)) Q s.
Proof.
  intros Hm HQ. unfold Tx.try, onStore, Tx.zoom. intros r s'.
  destruct (m _) as [r1 s1] eqn:E. destruct (Hm _ _ _ E) as (Hd & Hc & HR). intros [= <- <-].
  match goal with |- rtc _ _ (core ?x) /\ _ => assert (Hcore : core x = core s) end.
  { unfold core. cbn. by rewrite Hd, Hc. }
  rewrite Hcore. split; [done|]. intros a [= <-]. by apply HQ.
Qed.

(** A store operation, logged when it fails. *)
Lemma runs_op {T} (m : Store.M T) o (Q : Tx.error + T -> St -> Prop) s :
  (forall s, (run_op marshal digest wildfireBuffer o s).2 = (m s).2) -> A (core s).1 o ->
  (forall r s', Q r s') -> runs A (Tx.try (onStore m)) Q s.
Proof.
  intros Hm HA HQ. unfold Tx.try, onStore, Tx.zoom. intros r s'.
  destruct (m _) as [r1 s1] eqn:E. intros [= <- <-]. split; [|by intros ? [= <-]].
  apply rtc_once. exists o. split; [done|].
  exists (Tx.plan s). specialize (Hm (Tx.mkSt (core s).1 (core s).2 (Tx.plan s))).
  cbn in E. unfold core in *. cbn in Hm |- *. rewrite E in Hm.
  destruct (run_op _ _ _ o _) as [r2 s2]. cbn in Hm. subst s2. destruct s1 as [d c p]. cbn. eauto.
Qed.

Lemma runs_foreach {T} (f : T -> SM unit) l s :
  (forall a s, a ∈ l -> runs A (f a) (fun _ _ => True) s) ->
  runs A (Tx.foreach f l) (fun _ _ => True) s.
Proof.
  revert s. induction l as [|a l IH]; intros s Hf; cbn; [by apply runs_ret|].
  apply runs_bind. eapply runs_mono; [|apply Hf; by left]. intros _ s' _. apply IH. intros b s1 Hb.
  apply Hf. by right.
Qed.

Lemma runs_onMesh {T} (m : Mesh.M T) (Q : Tx.error + T -> St -> Prop) s :
  (forall r s', Q r s') -> runs A (Tx.try (onMesh m)) Q s.
Proof.
  intros HQ. apply runs_quiet; [|auto]. intros r s'. unfold Tx.try, onMesh, Tx.zoom.
  destruct (m _). by intros [= _ <-].
Qed.

End Rules.

(** ** Reads *)

Lemma query_reads {T} (f : DB -> T) s r s' :
  (Tx.query f : Store.M T) s = (r, s') ->
  Tx.db s' = Tx.db s /\ Tx.mem s' = Tx.mem s /\ forall a, r = inr a -> a = f (Tx.db s).
Proof.
  intros H. pose proof (Tx.query_frame _ _ _ _ H) as [H1 H2]. split_and!; [done|done|].
  intros a ->. by apply Tx.query_inr in H as [? _].
Qed.

(** The hash a row holds. *)
Definition hash_in (d : DB) (id h : string) : Prop :=
  exists row, events d !! id = Some row /\ c_content_hash row = h.

Lemma ContentHashes_reads ids :
  reads (ContentHashes ids) (fun a d => forall id h, a !! id = Some h -> hash_in d id h).
Proof.
  unfold reads, ContentHashes. generalize (chunks max_hash_batch (length ids) ids). clear ids.
  assert (H : forall bs out s r s', (forall id h, out !! id = Some h -> hash_in (Tx.db s) id h) ->
    (fix go (bs : list (list string)) (out : gmap string string) : Store.M (gmap string string) :=
     match bs with
     | [] => Tx.ret out
     | b :: bs => h <-- Tx.query (fun d => hashes_of d b) ;; go bs (h ∪ out)
     end) bs out s = (r, s') -> Tx.db s' = Tx.db s /\ Tx.mem s' = Tx.mem s
    /\ forall a, r = inr a -> forall id h, a !! id = Some h -> hash_in (Tx.db s) id h).
  { intros bs. induction bs as [|b bs IH]; intros out s r s' Hout.
    - intros [= <- <-]. split_and!; [done..|]. by intros a [= <-].
    - unfold Tx.bind at 1. destruct (Tx.query _ s) as [[e|h] s1] eqn:E;
        destruct (query_reads _ _ _ _ E) as (Hd & Hc & Hh).
      + intros [= <- <-]. done.
      + specialize (Hh h eq_refl). subst h. intros Hgo. apply IH in Hgo as (H1 & H2 & H3).
        * rewrite H1, H2. split_and!; [done..|]. by rewrite <-Hd.
        * rewrite Hd. intros id h [Hl|[_ Hl]]%lookup_union_Some_raw; [|auto].
          unfold hashes_of in Hl. apply lookup_fmap_Some in Hl as (row & <- & Hrow).
          apply map_lookup_filter_Some in Hrow as [Hrow _]. by exists row. }
  intros bs s r s' Hgo. apply (H bs ∅ s r s'); [|done]. intros id h. by rewrite lookup_empty.
Qed.

Lemma NeedsUpdate_reads ev : reads (NeedsUpdate marshal digest ev) (fun _ _ => True).
Proof.
  intros s r s'. unfold NeedsUpdate, Tx.bind. destruct (Tx.query _ s) as [[e|h] s1] eqn:E;
    destruct (query_reads _ _ _ _ E) as (Hd & Hc & _); [by intros [= <- <-]|].
  destruct h; intros [= <- <-]; done.
Qed.

Lemma GetPlace_reads k : reads (GetPlace k) (fun _ _ => True).
Proof.
  intros s r s'. unfold GetPlace, Tx.bind. destruct (Tx.query _ s) as [[e|h] s1] eqn:E;
    destruct (query_reads _ _ _ _ E) as (Hd & Hc & _); [by intros [= <- <-]|].
  destruct h; intros [= <- <-]; done.
Qed.

Lemma ActiveEventsBySource_reads src :
  reads (ActiveEventsBySource src) (fun l d => l = active_rows d src).
Proof. intros s r s'. apply query_reads. Qed.

(** The active events of a source, as rows. *)
Lemma elem_of_active_rows d src se :
  se ∈ active_rows d src -> exists k row, events d !! k = Some row /\ se_event se = c_proto row
    /\ c_source_id row = src /\ active_status (c_status row) = true.
Proof.
  unfold active_rows. intros ([k row] & -> & [Hp Hin]%list_elem_of_filter)%list_elem_of_fmap.
  unfold by_id in Hin. rewrite merge_sort_Permutation, elem_of_map_to_list in Hin.
  apply andb_prop in Hp as [Hs Hst]. apply bool_decide_eq_true in Hs. by exists k, row.
Qed.

(** ** What a poll allows *)

Variable clock : nat -> Time.
Variable Enhance : nat -> string -> string -> list string -> option Enhanced.
Variable tuning : gmap string SourceTuning.
Variable has_enhancer : bool.
Variable enhancerModel : string.
Variable budgetPerTick : Z.

(** A source whose fetch succeeded, and whose absences count. *)
Definition clean (sourceIDs : list string) (r : PollResult) (src : string) : Prop :=
  src ∈ sourceIDs /\ PerSource r !! src = None /\ src ∉ SweepSuppress r.

(** The poll returned an event with this id from this source. *)
Definition returned (r : PollResult) (src id : string) : Prop :=
  exists ev, ev ∈ Events r /\ Id ev = id /\ GetSourceId ev = src.

Definition allowed (sourceIDs : list string) (r : PollResult) (d : DB) (o : op) : Prop :=
  match o with
  | OpUpsert _ ev => exists ev0, ev0 ∈ Events r /\ Id ev = Id ev0 /\ normalize ev = normalize ev0
  | OpTouch ids _ _ => forall id, id ∈ ids ->
      exists ev, ev ∈ Events r /\ Id ev = id /\ PerSource r !! GetSourceId ev = None
  | OpTransition _ ids to _ => exists src, clean sourceIDs r src
      /\ (to = RESOLVED \/ to = EXPIRED)
      /\ forall id, id ∈ ids ->
           (exists k row, events d !! k = Some row /\ Id (c_proto row) = id
              /\ c_source_id row = src /\ active_status (c_status row) = true)
           /\ (id ∈ Superseded r \/ ~ returned r src id)
  | OpAttempt _ src e => src ∈ sourceIDs /\ e = PerSource r !! src
  | _ => False
  end.

Definition allowed_failed (sourceIDs : list string) (err : string) (_ : DB) (o : op) : Prop :=
  match o with OpAttempt _ src e => src ∈ sourceIDs /\ e = Some err | _ => False end.


Lemma loadPrior_runs A srcs p s : runs A (loadPrior srcs p) (fun _ _ => True) s.
Proof.
  revert p s. induction srcs as [|src srcs IH]; intros p s; cbn; [by apply runs_ret|].
  apply runs_bind. eapply runs_read; [apply ActiveEventsBySource_reads|]. intros r s' _ _. apply IH.
Qed.

Lemma placeNames_runs A ids s : runs A (placeNames ids) (fun _ _ => True) s.
Proof.
  revert s. induction ids as [|id ids IH]; intros s; cbn; [by apply runs_ret|].
  apply runs_bind. eapply runs_read; [apply GetPlace_reads|]. intros r s' _ _. apply runs_bind.
  eapply runs_mono; [|apply IH]. intros names s1 _. by apply runs_ret.
Qed.

Lemma maybeEnhance_runs A ev b s :
  runs A (maybeEnhance marshal digest clock Enhance has_enhancer enhancerModel ev b)
    (fun x _ => Id x.1 = Id ev /\ normalize x.1 = normalize ev) s.
Proof.
  unfold maybeEnhance. destruct (_ || _); [by apply runs_ret|]. apply runs_bind.
  eapply runs_read; [apply NeedsUpdate_reads|]. intros [e|[]] s1 _ _; [by apply runs_ret| |by apply runs_ret].
  apply runs_bind. eapply runs_mono; [|apply placeNames_runs]. intros names s2 _. apply runs_bind.
  apply runs_quiet; [by intros r s' [= _ <-]|]. intros enh s3 _. destruct enh; [|by apply runs_ret].
  apply runs_bind, runs_now. intros t s4 _. by apply runs_ret.
Qed.

Lemma recordAttempt_runs (A : DB -> op -> Prop) src e s :
  (forall d t, A d (OpAttempt t src e)) -> runs A (recordAttempt clock src e) (fun _ _ => True) s.
Proof.
  intros HA. unfold recordAttempt. apply runs_bind, runs_now. intros t s1 _. apply runs_bind.
  eapply (runs_op _ _ (OpAttempt t src e)); [done|apply HA|]. intros r s'. by apply runs_ret.
Qed.

(** ** The tick *)

Abbreviation MaybeEnhance := (maybeEnhance marshal digest clock Enhance has_enhancer enhancerModel).
Abbreviation UpsertEvents :=
  (upsertEvents marshal digest wildfireBuffer clock Enhance has_enhancer enhancerModel).
Abbreviation Tick :=
  (tick marshal digest wildfireBuffer clock Enhance tuning has_enhancer enhancerModel budgetPerTick).

Lemma supersede_runs srcs r src now s :
  clean srcs r src ->
  runs (allowed srcs r) (supersede marshal digest clock src (Superseded r) now) (fun _ _ => True) s.
Proof.
  intros Hc. unfold supersede. destruct (Nat.eqb _ _); [by apply runs_ret|]. apply runs_bind.
  eapply runs_read; [apply ActiveEventsBySource_reads|]. intros [e|l] s1 Hs1 Hl; [by apply runs_ret|].
  specialize (Hl l eq_refl). set (hit := filter _ _). destruct (Nat.eqb _ _); [by apply runs_ret|].
  apply runs_bind, runs_now. intros t s2 Hs2. apply runs_bind.
  eapply (runs_op _ _ (OpTransition t hit RESOLVED now)); [done| |intros; by apply runs_ret].
  exists src. split_and!; [done|by left|]. intros id [Hid Hin]%list_elem_of_filter. split; [|by left].
  apply list_elem_of_fmap in Hin as (se & -> & Hse). subst l.
  apply elem_of_active_rows in Hse as (k & row & Hk & He & Hsrc & Hst). exists k, row.
  rewrite Hs2, Hs1. cbn. by rewrite He.
Qed.

Lemma sweep_runs srcs r src polled now s :
  clean srcs r src -> (forall id, returned r src id -> id ∈ polled) ->
  runs (allowed srcs r) (sweepDisappeared marshal digest clock tuning src polled now) (fun _ _ => True) s.
Proof.
  intros Hc Hp. unfold sweepDisappeared. apply runs_bind.
  eapply runs_read; [apply ActiveEventsBySource_reads|]. intros [e|l] s1 Hs1 Hl; [by apply runs_ret|].
  specialize (Hl l eq_refl). set (ids := _ <$> filter _ _). destruct (Nat.eqb _ _); [by apply runs_ret|].
  apply runs_bind, runs_now. intros t s2 Hs2. apply runs_bind.
  eapply (runs_op _ _ (OpTransition t ids (sweep_target tuning src) now)); [done| |intros; by apply runs_ret].
  exists src. split_and!; [done|unfold sweep_target; case_bool_decide; auto|].
  intros id (se & -> & [_ [Hnot Hse]%list_elem_of_filter]%list_elem_of_filter)%list_elem_of_fmap. subst l.
  split; [|right; intros Hret; by apply Hnot, Hp].
  apply elem_of_active_rows in Hse as (k & row & Hk & He & Hsrc & Hst). exists k, row.
  rewrite Hs2, Hs1. cbn. by rewrite He.
Qed.

Lemma upsertEvents_runs srcs r fr stored done_ evs polled ids b s :
  Events r = done_ ++ evs -> covers_polled srcs done_ polled -> seen_ok r ids ->
  runs (allowed srcs r) (UpsertEvents r fr stored evs polled ids b)
    (fun x _ => covers_polled srcs (Events r) x.1 /\ seen_ok r x.2) s.
Proof.
  revert done_ polled ids b s. induction evs as [|ev evs IH]; intros pre polled ids b s He Hp Hi; cbn.
  { apply runs_ret. rewrite He, app_nil_r. done. }
  apply runs_bind. eapply runs_mono; [|apply maybeEnhance_runs]. intros [ev' b'] s1 [Hid Hn]. cbn in Hid, Hn |- *.
  assert (Hin : ev ∈ Events r) by (rewrite He; set_solver).
  assert (Hrest : forall s, runs (allowed srcs r) (UpsertEvents r fr stored evs
      (note_polled (GetSourceId ev) (Id ev) polled)
      (match PerSource r !! GetSourceId ev with None => ids ++ [Id ev] | Some _ => ids end) b')
      (fun x _ => covers_polled srcs (Events r) x.1 /\ seen_ok r x.2) s).
  { intros s2. apply (IH (pre ++ [ev])); [by rewrite He, <-app_assoc|by apply note_polled_covers|].
    destruct (PerSource r !! GetSourceId ev) eqn:Ep; [done|].
    intros id [Hid'|Hid'%list_elem_of_singleton]%elem_of_app; [auto|]. subst id. eauto. }
  apply runs_bind. destruct (shouldUpsert _ _ _ _ _ _); [|apply runs_ret; apply Hrest].
  apply runs_bind, runs_now. intros t s2 _. apply runs_bind.
  eapply (runs_op _ _ (OpUpsert t ev')); [intros; cbn; by rewrite bind_ret_snd|by exists ev|].
  intros rr s3. apply runs_ret. apply Hrest.
Qed.

Lemma writeMesh_runs A r s : runs A (writeMesh r) (fun _ _ => True) s.
Proof.
  unfold writeMesh. apply runs_bind.
  assert (Htail : forall s, runs A (Tx.foreach (fun x =>
      Tx.try (onMesh (RenameMeshTelemetryPubKey (rn_From x) (rn_To x))) ;;; Tx.ret tt)
      (MeshTelemetryRenames r) ;;;
      Tx.try (onMesh (InsertMeshTelemetry (MeshTelemetry_ r))) ;;; Tx.ret tt) (fun _ _ => True) s).
  { intros s1. apply runs_bind. eapply runs_mono; [|apply runs_foreach].
    - intros _ s2 _. apply runs_bind. eapply runs_mono; [|by apply (runs_onMesh _ _ (fun _ _ => True))].
      intros ? ? _. by apply runs_ret.
    - intros x s2 _. apply runs_bind. eapply runs_mono; [|by apply (runs_onMesh _ _ (fun _ _ => True))].
      intros ? ? _. by apply runs_ret. }
  destruct (_ && _); [apply runs_ret, Htail|]. apply runs_bind.
  eapply runs_mono; [|by apply (runs_onMesh _ _ (fun _ _ => True))]. intros [e|u] s1 _; [|apply runs_ret, Htail].
  destruct (MeshActivityUnwritten r); [|apply runs_ret, Htail].
  apply runs_quiet; [by intros ? ? [= _ <-]|]. intros ? ? _. apply Htail.
Qed.

Lemma steps_none x y : rtc (step (fun _ _ => False)) x y -> y = x.
Proof. intros [|? ? ? (? & [] & _)]. done. Qed.

(** A tick performs only what its poll allows; a failed poll, only the record of
    the failure. *)
Lemma tick_steps srcs Poll st s rs s' :
  Tick srcs Poll st s = (rs, s') ->
  exists prior, match Poll prior with
  | inl err => rtc (step (allowed_failed srcs err)) (core s) (core s')
  | inr r => rtc (step (allowed srcs r)) (core s) (core s')
  end.
Proof.
  unfold tick, Tx.bind at 1. destruct (loadPrior srcs (mkPrior ∅ ∅) s) as [[e|prior] s1] eqn:E;
    pose proof (loadPrior_runs (fun _ _ => False) _ _ _ _ _ E) as [Hl _];
    apply steps_none in Hl as Hc.
  { intros [= _ <-]. exists (mkPrior ∅ ∅). rewrite Hc. destruct (Poll _); done. }
  intros Hrun. exists prior. rewrite <-Hc. clear s Hc Hl E. destruct (Poll prior) as [err|r].
  - revert Hrun. apply runs_bind with (Q := fun _ _ => True). eapply runs_mono; [|apply runs_foreach].
    + intros _ s2 _. by apply runs_ret.
    + intros src s2 Hsrc. by apply recordAttempt_runs.
  - revert rs s' Hrun.
    assert (Hgo : forall m, runs (allowed srcs r) m (fun (_ : pollerState) _ => True) s1 ->
      forall rs s', m s1 = (rs, s') -> rtc (step (allowed srcs r)) (core s1) (core s')).
    { intros m Hm rs s' H. by apply Hm in H as [? _]. }
    intros rs s'. apply Hgo. clear Hgo rs s'. apply runs_bind, runs_now. intros now s2 _. apply runs_bind.
    apply runs_quiet; [by intros ? ? [= _ <-]|]. intros c s3 _. apply runs_bind. unfold storedHashes.
    apply runs_bind. eapply runs_read; [apply ContentHashes_reads|]. intros h s4 _ _. apply runs_ret.
    apply runs_bind. eapply runs_mono; [|apply (upsertEvents_runs srcs r _ _ [])].
    2: done.
    2: { intros src Hsrc. exists ∅. split; [|by intros ? ?%not_elem_of_nil].
         apply lookup_gset_to_gmap_Some. split; [by apply elem_of_list_to_set|done]. }
    2: { by intros ? ?%not_elem_of_nil. }
    intros [polled ids] s5 [Hp Hi]. cbn in Hp, Hi |- *. apply runs_bind.
    eapply (runs_op _ _ (OpTouch ids now (time_add now (- touchSeenCoalesce))));
      [intros; cbn; by rewrite bind_ret_snd|exact Hi|].
    intros _ s6. apply runs_bind. eapply runs_mono; [|apply writeMesh_runs]. intros _ s7 _.
    apply runs_bind. eapply runs_mono; [|apply runs_foreach].
    + intros _ s8 _. apply runs_bind. eapply runs_mono; [|apply runs_foreach].
      * intros _ s9 _. by apply runs_ret.
      * intros src s9 Hsrc. by apply recordAttempt_runs.
    + intros src s8 Hsrc. unfold sweepSource. destruct (_ || _) eqn:Eg; [by apply runs_ret|].
      apply orb_false_iff in Eg as [E1 E2]. rewrite bool_decide_eq_false in E1, E2.
      rewrite <-eq_None_not_Some in E1. assert (Hclean : clean srcs r src) by done.
      apply runs_bind. eapply runs_mono; [|by apply supersede_runs]. intros _ s9 _.
      apply sweep_runs; [done|]. intros id (ev & Hev & <- & Hs). destruct (Hp src Hsrc) as (x & -> & Hx).
      cbn. by apply Hx.
Qed.

(** ** What an operation leaves alone *)

Definition ids_of (o : op) : list string :=
  match o with
  | OpUpsert _ ev => [Id ev]
  | OpTransition _ ids _ _ | OpTouch ids _ _ => ids
  | _ => []
  end.

Lemma keeps_events {T} (m : Store.M T) E s r s' :
  Tx.keeps m (fun d _ => events d = E) -> events (Tx.db s) = E -> m s = (r, s') ->
  events (Tx.db s') = E.
Proof. intros Hk He Hm. by eapply Hk. Qed.

Lemma keeps_events_tx {T} (m : Store.M T) E :
  Tx.keeps m (fun d _ => events d = E) -> Tx.keeps (Tx.inTx m) (fun d _ => events d = E).
Proof. by apply Tx.keeps_inTx. Qed.

Ltac events_tac :=
  repeat lazymatch goal with
  | |- Tx.keeps (Tx.bind _ _) _ => apply Tx.keeps_bind; [|intros ?]
  | |- Tx.keeps (Tx.foreach _ _) _ => apply Tx.keeps_foreach; intros ?
  | |- Tx.keeps (Tx.fail _) _ => apply Tx.keeps_fail
  | |- Tx.keeps (Tx.ret _) _ => apply Tx.keeps_ret
  | |- Tx.keeps (Tx.query _) _ => apply Tx.keeps_query
  | |- Tx.keeps (Tx.exec _) _ => apply Tx.keeps_exec; by intros
  | |- Tx.keeps (Tx.put_mem _) _ => apply Tx.keeps_put_mem; by intros
  | |- Tx.keeps (Tx.exec_checked _ _) _ =>
      apply Tx.keeps_exec_checked; intros ? ? ? ? ?; case_match; by simplify_eq
  | |- _ => case_match
  end.

Lemma upsert_post_frame now ev d x d' id :
  upsert_post marshal digest now ev d x d' -> id <> Id ev -> events d' !! id = events d !! id.
Proof.
  unfold upsert_post. intros Hp Hne. repeat case_match; destruct Hp as [_ Hp];
    repeat match goal with
    | H : written _ _ _ _ _ _ _ |- _ => destruct H as (? & ? & _ & _ & _ & -> & _)
    | H : refreshed _ _ _ _ |- _ => destruct H as (? & -> & _)
    | H : _ /\ nothing_new _ _ _ |- _ => destruct H as [-> _]
    end; try done; by rewrite lookup_insert_ne.
Qed.

Lemma op_step_frame o x y id :
  op_step o x y -> id ∉ ids_of o -> events y.1 !! id = events x.1 !! id.
Proof.
  intros (p & r & p' & Hrun) Hid. destruct x as [d0 c0], y as [d1 c1]. cbn [fst snd] in Hrun |- *. destruct o as [now ev|now ids to obs|ids t sb|pl|seeds|now src e|src];
    cbn [run_op ids_of] in Hrun, Hid.
  - unfold Tx.bind in Hrun. destruct (UpsertEvent _ _ _ _ _ _) as [r1 s1] eqn:E.
    assert (Hs : s1 = Tx.mkSt d1 c1 p') by (by destruct r1; injection Hrun). subst s1.
    apply UpsertEvent_run in E. destruct r1 as [e|res].
    + unfold view in E. cbn in E. congruence.
    + destruct E as (_ & rw & Hpost & _). eapply upsert_post_frame; [exact Hpost|]. set_solver.
  - unfold TransitionEvents in Hrun. destruct ids as [|i ids]; [by injection Hrun as <- <-|].
    set (l := i :: ids) in *. destruct r as [e|[]].
    + apply Tx.inTx_err in Hrun. cbn in Hrun. by rewrite Hrun.
    + revert Hrun. apply (Tx.wp_use _ (fun _ d' _ => events d' !! id = events d0 !! id)).
      apply Tx.wp_inTx. eapply Tx.wp_mono; [|apply (Tx.wp_foreach _ (fun pre d' _ =>
        reached marshal digest to obs now d0 pre d'))].
      * intros _ d' _ (_ & _ & Hout). by apply Hout.
      * intros pre a d c _. apply transition_reaches.
      * split_and!; [done| |done]. by intros ? ?%not_elem_of_nil.
  - unfold Tx.bind in Hrun. destruct (TouchSeen _ _ _ _) as [r1 s1] eqn:E.
    assert (Hs : s1 = Tx.mkSt d1 c1 p') by (by destruct r1; injection Hrun). subst s1. clear Hrun.
    revert E. unfold TouchSeen. destruct ids as [|i ids]; [by intros [= _ <- <- _]|].
    set (l := i :: ids) in *. unfold Tx.bind. destruct (Tx.stmt _) as [[e|[]] s2] eqn:E2;
      apply Tx.stmt_frame in E2 as [Hd _]; cbn in Hd.
    + intros [= _ ->]. cbn in Hd. by rewrite Hd.
    + rewrite Hd. intros [= _ <- _ _]. cbn. rewrite map_lookup_imap.
      destruct (events d0 !! id) as [row|]; [|done]. cbn. unfold stale_seen.
      by rewrite bool_decide_eq_false_2.
  - f_equal. refine (keeps_events _ _ _ _ _ _ eq_refl Hrun). unfold UpsertPlace.
    destruct (_ || _); [apply Tx.keeps_fail|]. apply keeps_events_tx. events_tac.
  - f_equal. refine (keeps_events _ _ _ _ _ _ eq_refl Hrun). unfold SeedSources, seedOne. apply keeps_events_tx.
    events_tac.
  - f_equal. refine (keeps_events _ _ _ _ _ _ eq_refl Hrun). unfold RecordAttempt. apply keeps_events_tx.
    events_tac.
  - f_equal. refine (keeps_events _ _ _ _ _ _ eq_refl Hrun). unfold DeleteSource. apply keeps_events_tx. events_tac.
Qed.

(** Every row is stored under its event's id. *)
Definition ids_ok (d : DB) : Prop := forall k row, events d !! k = Some row -> Id (c_proto row) = k.

Lemma effect_ids k d d' : ids_ok d -> effect marshal digest k d d' -> ids_ok d'.
Proof.
  intros Hok He. inversion He as [now ev rev ? ? _ _ _ (ids & b & (g & ->) & _ & _ & Hev & _)
    |ev r ? ? Hr _ (ids & Hev & _)|now to obs id0 r ev ? ? Hr _ Hevd _ Hev|? ? Hev| |]; subst; try done;
    intros id row Hid.
  all: try rewrite Hev in Hid.
  - apply lookup_insert_Some in Hid as [[<- <-]|[_ Hid]]; [done|by apply Hok].
  - apply lookup_insert_Some in Hid as [[<- <-]|[_ Hid]]; [|by apply Hok].
    cbn. destruct (refreshBlob_keyed (c_proto r) ev (unionSorted (place_ids ev) ids)) as [[-> _] _].
    by apply Hok.
  - apply lookup_insert_Some in Hid as [[<- <-]|[_ Hid]]; [cbn; by apply Hok|by apply Hok].
  - destruct (Hev id) as [E|(t & r & Hr & E)]; rewrite E in Hid; [by apply Hok|].
    injection Hid as <-. exact (Hok _ _ Hr).
Qed.

Lemma op_step_ids o x y : op_step o x y -> ids_ok x.1 -> ids_ok y.1.
Proof.
  intros (p & r & p' & Hrun) Hx.
  pose proof (run_op_moves marshal digest wildfireBuffer o (Tx.mkSt x.1 x.2 p)) as Hm.
  rewrite Hrun in Hm. unfold view in Hm. cbn in Hm.
  assert (H : forall u v, rtc (moves marshal digest) u v -> ids_ok u.1 -> ids_ok v.1).
  { induction 1 as [|u v w (k & He & _) _ IH]; [done|]. intros Hu. apply IH. by eapply effect_ids. }
  exact (H _ _ Hm Hx).
Qed.

(** A row no step of a run may touch. *)
Lemma steps_frame (A : DB -> op -> Prop) x y id row :
  rtc (step A) x y -> ids_ok x.1 -> events x.1 !! id = Some row ->
  (forall d o, ids_ok d -> events d !! id = Some row -> A d o -> id ∉ ids_of o) ->
  events y.1 !! id = Some row.
Proof.
  induction 1 as [|x y z (o & HA & Ho) _ IH]; [done|]. intros Hx Hrow Hno.
  apply IH; [by eapply op_step_ids| |done]. rewrite (op_step_frame _ _ _ _ Ho); [done|]. by eapply Hno.
Qed.

Lemma steps_moves (A : DB -> op -> Prop) x y :
  rtc (step A) x y -> rtc (moves marshal digest) (x.1, refreshVersions x.2) (y.1, refreshVersions y.2).
Proof.
  induction 1 as [|x y z (o & _ & p & r & p' & Hrun) _ IH]; [done|]. etrans; [|exact IH].
  pose proof (run_op_moves marshal digest wildfireBuffer o (Tx.mkSt x.1 x.2 p)) as Hm.
  rewrite Hrun in Hm. done.
Qed.

End Spec.

(** ** The enhancement budget *)

Section Budget.
Context {MK : MathKernel} {JK : JsonKernel}.
Variable marshal : Event -> option string.
Variable digest : string -> string.
Variable wildfireBuffer : float64.
Variable clock : nat -> Time.
Variable Enhance : nat -> string -> string -> list string -> option Enhanced.
Variable tuning : gmap string SourceTuning.
Variable has_enhancer : bool.
Variable enhancerModel : string.
Variable budgetPerTick : Z.

Definition no_call (l : list (string * string * list string)) : DB * MeshDB -> SMem -> Prop :=
  fun _ c => enhance_calls c = l.

Lemma no_call_onStore {T} (m : Store.M T) l : Tx.keeps (onStore m) (no_call l).
Proof. intros s r s' HI. unfold onStore, Tx.zoom. destruct (m _). intros [= _ <-]. exact HI. Qed.

Lemma no_call_onMesh {T} (m : Mesh.M T) l : Tx.keeps (onMesh m) (no_call l).
Proof. intros s r s' HI. unfold onMesh, Tx.zoom. destruct (m _). intros [= _ <-]. exact HI. Qed.

Lemma no_call_now l : Tx.keeps (now_ clock) (no_call l).
Proof. by intros s r s' HI [= _ <-]. Qed.

Ltac calls_tac :=
  repeat lazymatch goal with
  | |- Tx.keeps (Tx.bind _ _) _ => apply Tx.keeps_bind; [|intros ?]
  | |- Tx.keeps (Tx.foreach _ _) _ => apply Tx.keeps_foreach; intros ?
  | |- Tx.keeps (Tx.ret _) _ => apply Tx.keeps_ret
  | |- Tx.keeps Tx.get_mem _ => apply Tx.keeps_get_mem
  | |- Tx.keeps (Tx.put_mem _) _ => apply Tx.keeps_put_mem; by intros
  | |- Tx.keeps (Tx.try _) _ => apply Tx.keeps_try
  | |- Tx.keeps (onStore _) _ => apply no_call_onStore
  | |- Tx.keeps (onMesh _) _ => apply no_call_onMesh
  | |- Tx.keeps (now_ _) _ => apply no_call_now
  | |- _ => case_match
  end.

Lemma no_call_loadPrior srcs p l : Tx.keeps (loadPrior srcs p) (no_call l).
Proof. revert p. induction srcs as [|src srcs IH]; intros p; cbn; [calls_tac|].
  apply Tx.keeps_bind; [calls_tac|]. intros ?. apply IH. Qed.

Lemma no_call_placeNames ids l : Tx.keeps (placeNames ids) (no_call l).
Proof. induction ids as [|id ids IH]; cbn; [calls_tac|].
  apply Tx.keeps_bind; [calls_tac|]. intros ?. apply Tx.keeps_bind; [apply IH|]. intros ?. calls_tac. Qed.

Lemma keeps_calls {T} (m : SM T) s r s' :
  (forall l, Tx.keeps m (no_call l)) -> m s = (r, s') ->
  enhance_calls (Tx.mem s') = enhance_calls (Tx.mem s).
Proof. intros Hk E. exact (Hk _ s r s' eq_refl E). Qed.

(** The call an event makes. *)
Definition call_of (r : PollResult) (call : string * string * list string) : Prop :=
  exists ev, ev ∈ Events r /\ layer ev = WEATHER_ALERT /\ call.1 = (headline ev, description ev).

Definition spends (r : PollResult) (n : Z) (s s' : St) : Prop :=
  exists calls, enhance_calls (Tx.mem s') = enhance_calls (Tx.mem s) ++ calls
    /\ Z.of_nat (length calls) <= n /\ Forall (call_of r) calls.

Lemma spends_none r n s s' :
  0 <= n -> enhance_calls (Tx.mem s') = enhance_calls (Tx.mem s) -> spends r n s s'.
Proof. intros Hn H. exists []. rewrite H, app_nil_r. split_and!; [done|cbn; lia|done]. Qed.

Lemma spends_trans r n1 n2 n s s1 s2 :
  n1 + n2 <= n -> spends r n1 s s1 -> spends r n2 s1 s2 -> spends r n s s2.
Proof.
  intros Hb (l1 & E1 & H1 & F1) (l2 & E2 & H2 & F2). exists (l1 ++ l2).
  rewrite E2, E1, app_assoc, length_app, Forall_app. split_and!; [done|lia|done..].
Qed.

(** What is left of the budget after the calls made. *)
Definition paid (r : PollResult) (b : Z) (s s' : St) (b' : Z) : Prop :=
  exists n, 0 <= n /\ Z.max 0 b' + n <= Z.max 0 b /\ spends r n s s'.

Lemma paid_none r b s s' : enhance_calls (Tx.mem s') = enhance_calls (Tx.mem s) -> paid r b s s' b.
Proof. intros H. exists 0. split_and!; [lia|lia|by apply spends_none]. Qed.

Lemma maybeEnhance_paid r ev b s x s' :
  ev ∈ Events r ->
  maybeEnhance marshal digest clock Enhance has_enhancer enhancerModel ev b s = (x, s') ->
  exists b', paid r b s s' b' /\ forall ev' b1, x = inr (ev', b1) -> b1 = b'.
Proof.
  intros Hev. unfold maybeEnhance.
  assert (Hsame : forall s1, enhance_calls (Tx.mem s1) = enhance_calls (Tx.mem s) ->
    (Tx.ret (ev, b) : SM _) s1 = (x, s') ->
    exists b', paid r b s s' b' /\ forall ev' b1, x = inr (ev', b1) -> b1 = b').
  { intros s1 Hs1 [= <- <-]. exists b. split; [by apply paid_none|]. by intros ? ? [= _ <-]. }
  destruct (_ || _ || _) eqn:Eg; [by apply Hsame|].
  apply orb_false_iff in Eg as [[_ Hl]%orb_false_iff Hb]. apply negb_false_iff, bool_decide_eq_true in Hl.
  apply Z.leb_gt in Hb. unfold Tx.bind at 1. destruct (Tx.try _ s) as [[e|changed] s1] eqn:E1.
  { apply keeps_calls in E1; [|intros; calls_tac]. intros [= <- <-]. exists b. by split; [apply paid_none|]. }
  apply keeps_calls in E1; [|intros; calls_tac].
  destruct changed as [|[]]; [by apply Hsame| |by apply Hsame].
  unfold Tx.bind at 1. destruct (placeNames (place_ids ev) s1) as [[e|names] s2] eqn:E2;
    (apply keeps_calls in E2; [|intros; apply no_call_placeNames]); rewrite E1 in E2.
  { intros [= <- <-]. exists b. split; [by apply paid_none|done]. }
  unfold Tx.bind at 1. cbn [call_enhance].
  set (s3 := Tx.mkSt _ _ _). assert (H3 : paid r b s s3 (b - 1)).
  { exists 1. split_and!; [lia|lia|]. exists [(headline ev, description ev, names)]. cbn. rewrite E2. split_and!; [done|done|]. apply Forall_singleton. by exists ev. }
  destruct (Enhance _ _ _ _) as [enh|]; intros [= <- <-]; exists (b - 1);
    (split; [exact H3|]); by intros ? ? [= _ <-].
Qed.

Lemma upsertEvents_spends r fr stored evs polled ids b s x s' :
  (forall ev, ev ∈ evs -> ev ∈ Events r) ->
  upsertEvents marshal digest wildfireBuffer clock Enhance has_enhancer enhancerModel
    r fr stored evs polled ids b s = (x, s') -> spends r (Z.max 0 b) s s'.
Proof.
  revert polled ids b s. induction evs as [|ev evs IH]; intros polled ids b s Hin; cbn.
  { intros [= _ <-]. apply spends_none; [lia|done]. }
  unfold Tx.bind at 1. destruct (maybeEnhance _ _ _ _ _ _ _ _ s) as [x1 s1] eqn:E1.
  apply (maybeEnhance_paid r) in E1 as (b' & (n & Hn & Hb & Hs1) & Hx); [|by apply Hin; left].
  destruct x1 as [e|[ev' b1]].
  { intros [= _ <-]. eapply (spends_trans _ n 0); [lia|exact Hs1|by apply spends_none]. }
  specialize (Hx _ _ eq_refl) as ->. unfold Tx.bind at 1. cbn [fst snd].
  set (write := if shouldUpsert _ _ _ _ _ _ then _ else _).
  destruct (write s1) as [[e|[]] s2] eqn:E2; (apply keeps_calls in E2; [|intros; unfold write; calls_tac]).
  - intros [= _ <-]. eapply (spends_trans _ n 0); [lia|exact Hs1|by apply spends_none].
  - intros Hrest. apply IH in Hrest; [|by intros ? ?; apply Hin; right].
    eapply (spends_trans _ n (Z.max 0 b')); [lia|exact Hs1|].
    eapply (spends_trans _ 0 (Z.max 0 b')); [lia|by apply spends_none|exact Hrest].
Qed.

Lemma tick_spends srcs Poll st s rs s' :
  tick marshal digest wildfireBuffer clock Enhance tuning has_enhancer enhancerModel budgetPerTick
    srcs Poll st s = (rs, s') ->
  exists prior, match Poll prior with
  | inl _ => enhance_calls (Tx.mem s') = enhance_calls (Tx.mem s)
  | inr r => spends r (Z.max 0 budgetPerTick) s s'
  end.
Proof.
  unfold tick, Tx.bind at 1. destruct (loadPrior _ _ s) as [[e|prior] s1] eqn:E1;
    (apply keeps_calls in E1; [|intros; apply no_call_loadPrior]).
  { intros [= _ <-]. exists (mkPrior ∅ ∅). destruct (Poll _); [done|]. apply spends_none; [lia|done]. }
  intros Hrun. exists prior. destruct (Poll prior) as [err|r].
  { apply keeps_calls in Hrun; [by rewrite Hrun|]. intros. unfold recordAttempt. calls_tac. }
  unfold Tx.bind at 1 in Hrun. cbn [now_] in Hrun. set (s2 := Tx.mkSt _ _ _) in Hrun.
  unfold Tx.bind at 1 in Hrun. cbn [Tx.get_mem] in Hrun. unfold Tx.bind at 1 in Hrun.
  destruct (storedHashes (Events r) s2) as [[e|stored] s3] eqn:E3;
    (apply keeps_calls in E3; [|intros; unfold storedHashes; calls_tac]); cbn in E3; rewrite E1 in E3.
  { injection Hrun as _ <-. apply spends_none; [lia|done]. }
  unfold Tx.bind at 1 in Hrun. destruct (upsertEvents _ _ _ _ _ _ _ _ _ _ _ _ _ _ s3) as [x s4] eqn:E4.
  apply upsertEvents_spends in E4; [|done].
  assert (H4 : spends r (Z.max 0 budgetPerTick) s s4).
  { eapply (spends_trans _ 0 _); [|by apply spends_none|exact E4]. lia. }
  destruct x as [e|[polled ids]]; [by injection Hrun as _ <-|].
  eapply (spends_trans _ (Z.max 0 budgetPerTick) 0); [lia|exact H4|]. apply spends_none; [lia|].
  apply keeps_calls in Hrun; [exact Hrun|]. intros.
  unfold writeMesh, told_unwritten, sweepSource, supersede, sweepDisappeared, recordAttempt. calls_tac.
Qed.

End Budget.

(** ** The sweep *)

(** A row as [ActiveEventsBySource] returns it. *)
Definition stored_of (row : EventRow) : StoredEvent :=
  mkStoredEvent (c_proto row)
    (if 0 <? c_last_seen_at row then time_of_unix (c_last_seen_at row) else time_zero).

Lemma elem_of_active_rows_iff d src se :
  se ∈ active_rows d src <-> exists k row, events d !! k = Some row /\ se = stored_of row
    /\ c_source_id row = src /\ active_status (c_status row) = true.
Proof.
  unfold active_rows, by_id. rewrite list_elem_of_fmap. split.
  - intros ([k row] & -> & [Hp Hin]%list_elem_of_filter). rewrite merge_sort_Permutation, elem_of_map_to_list in Hin.
    apply andb_prop in Hp as [Hs Hst]. apply bool_decide_eq_true in Hs. by exists k, row.
  - intros (k & row & Hk & -> & Hs & Hst). exists (k, row). split; [done|]. apply list_elem_of_filter.
    rewrite merge_sort_Permutation, elem_of_map_to_list. cbn. by rewrite bool_decide_eq_true_2.
Qed.

Lemma length_active_rows d src : (length (active_rows d src) <= size (events d))%nat.
Proof.
  unfold active_rows. rewrite length_fmap, length_filter. unfold by_id.
  by rewrite merge_sort_Permutation, length_map_to_list.
Qed.

Section Sweep.
Context {MK : MathKernel} {JK : JsonKernel}.
Variable marshal : Event -> option string.
Variable digest : string -> string.
Hypothesis marshals : forall ev, is_Some (marshal ev).
Hypothesis collision_free : forall e1 e2,
  ContentHash marshal digest e1 = ContentHash marshal digest e2 -> normalize e1 = normalize e2.

Lemma wp_and {D C T} (m : Tx.M D C T) (Q R : T -> D -> C -> Prop) d c :
  Tx.wp m Q d c -> Tx.wp m R d c -> Tx.wp m (fun a d c => Q a d c /\ R a d c) d c.
Proof. intros HQ HR p a s' H. split; eauto. Qed.

Lemma effect_transition_length d d' :
  effect marshal digest KTransition d d' ->
  length (event_revisions d') = S (length (event_revisions d)).
Proof.
  intros He. inversion He as [| |? ? ? ? ? ? ? ? ? ? ? ? ? Hr| | |]; subst. rewrite Hr, length_app. cbn. lia.
Qed.

Lemma transitionEvent_twp to obs now id d c :
  DbOk marshal digest d -> small d ->
  Tx.twp (transitionEvent marshal digest to obs now id) (fun _ _ _ => True) d c.
Proof using marshals.
  intros Hok Hsmall. unfold transitionEvent. twp_step. twp_step.
  destruct (events d !! id) as [row|] eqn:Er; cbn; [|by twp_step].
  case_bool_decide; [by twp_step|].
  match goal with |- context [marshal ?e] => destruct (marshals e) as [x ->] end.
  twp_step. unfold update_event. twp_step. apply insertRevision_twp; [|done]. cbn.
  apply (fresh_revision d). destruct (row_revision _ _ _ _ _ (ok_row _ _ _ Hok _ _ Er)) as [Hr ?].
  pose proof (revision_bound _ _ _ _ _ Hok Er). unfold small in Hsmall.
  unfold u32. rewrite <-Hr, Z.mod_small by lia.
  rewrite (ok_history _ _ _ Hok _ _ Er), seqZ_next by lia. done.
Qed.

(** Without faults a batch of transitions succeeds, whole. *)
Lemma TransitionEvents_twp now ids to obs d c :
  DbOk marshal digest d -> Z.of_nat (length (event_revisions d) + length ids) < 2 ^ 32 - 1 ->
  Tx.twp (TransitionEvents marshal digest now ids to obs)
    (fun _ d' c' => c' = c /\ reached marshal digest to obs now d ids d') d c.
Proof using All.
  intros Hok Hb.
  assert (H0 : reached marshal digest to obs now d [] d).
  { split_and!; [done| |done]. by intros ? ?%not_elem_of_nil. }
  unfold TransitionEvents. destruct ids as [|i ids]; [by apply Tx.twp_ret|].
  set (l := i :: ids) in *. apply Tx.twp_inTx.
  eapply Tx.twp_mono; [|apply (Tx.twp_foreach _ (fun pre d' c' => c' = c /\ DbOk marshal digest d'
    /\ (length (event_revisions d') <= length (event_revisions d) + length pre)%nat
    /\ reached marshal digest to obs now d pre d'))].
  - intros _ d' c' (-> & _ & _ & H). done.
  - intros pre a d1 c1 Hpre (-> & Hok1 & Hlen & Hr). apply prefix_length in Hpre. rewrite length_app in Hpre.
    change (length [a]) with 1%nat in Hpre. assert (Hs1 : small d1) by (unfold small; lia).
    eapply Tx.twp_mono; [|apply Tx.twp_wp; [by apply transitionEvent_twp|]].
    2: { apply wp_and; [apply transition_reaches, Hr|].
         apply (transitionEvent_wp _ _ _ _ _ _ (fun _ d' c' => c' = c
           /\ (d' = d1 \/ effect marshal digest KTransition d1 d'))); auto. }
    intros _ d2 c2 (Hr2 & -> & [->|He]); rewrite length_app; change (length [a]) with 1%nat.
    + split_and!; [done..|lia|done].
    + split_and!; [done|by eapply effect_ok|rewrite (effect_transition_length _ _ He); lia|done].
  - split_and!; [done..|cbn; lia|done].
Qed.

End Sweep.

(** ** Properties *)

(** What the disappearance sweep of a source takes: its active events the poll
    did not return, under the source's policy. *)
Definition swept (tuning : gmap string SourceTuning) (src : string) (polled : gset string) (now : Time)
    (row : EventRow) : bool :=
  bool_decide (c_source_id row = src) && active_status (c_status row)
  && bool_decide (Id (c_proto row) ∉ polled) && sweep_takes tuning src now (stored_of row).

Lemma swept_spec tuning src polled now row :
  swept tuning src polled now row = true <->
  c_source_id row = src /\ active_status (c_status row) = true /\ Id (c_proto row) ∉ polled
  /\ sweep_takes tuning src now (stored_of row) = true.
Proof. unfold swept. rewrite !andb_true_iff, !bool_decide_eq_true. tauto. Qed.

Section Properties.
Context {MK : MathKernel} {JK : JsonKernel}.
Variable marshal : Event -> option string.
Variable digest : string -> string.
Variable wildfireBuffer : float64.
Variable clock : nat -> Time.
Variable Enhance : nat -> string -> string -> list string -> option Enhanced.
Variable tuning : gmap string SourceTuning.
Variable has_enhancer : bool.
Variable enhancerModel : string.
Variable budgetPerTick : Z.

(** An event that a tick neither returned nor took from a clean fetch of its source
    is as it was. *)
Lemma tick_untouched sourceIDs Poll st s rs s' id row :
  ids_ok (core s).1 ->
  tick marshal digest wildfireBuffer clock Enhance tuning has_enhancer enhancerModel budgetPerTick
    sourceIDs Poll st s = (rs, s') ->
  events (core s).1 !! id = Some row ->
  (forall prior r, Poll prior = inr r ->
     (forall ev, ev ∈ Events r -> Id ev <> id) /\ ~ clean sourceIDs r (c_source_id row)) ->
  events (core s').1 !! id = Some row.
Proof.
  intros Hok (prior & Hsteps)%tick_steps Hrow Hpoll. specialize (Hpoll prior).
  destruct (Poll prior) as [err|r]; (eapply steps_frame; [exact Hsteps|done..|]).
  - intros d o _ _ HA. destruct o; try done. apply not_elem_of_nil.
  - destruct (Hpoll r eq_refl) as [Hnot Hclean]. intros d o Hd Hdrow HA Hin.
    destruct o as [now ev|now ids to obs|ids t sb|pl|seeds|now src e|src]; cbn in HA, Hin; try done; try by apply not_elem_of_nil in Hin.
    + apply list_elem_of_singleton in Hin. destruct HA as (ev0 & Hev & Hi & _).
      apply (Hnot ev0 Hev). congruence.
    + destruct HA as (src & Hcl & _ & HA). destruct (HA _ Hin) as [(k & row' & Hk & Hi & <- & _) _].
      pose proof (Hd _ _ Hk). apply Hclean. congruence.
    + destruct (HA _ Hin) as (ev & Hev & Hi & _). by apply (Hnot ev).
Qed.

(** C7: the fail-loud rule. Whatever statements fail, an event is untouched by a
    tick that neither returned it nor got a successful, unsuppressed and
    covered fetch of its source: an error of the poll or of a source, or an
    empty partial answer, never ends an event nor stamps it as seen. *)
Theorem fail_loud sourceIDs Poll st s rs s' id row :
  ids_ok (core s).1 ->
  tick marshal digest wildfireBuffer clock Enhance tuning has_enhancer enhancerModel budgetPerTick
    sourceIDs Poll st s = (rs, s') ->
  events (core s).1 !! id = Some row ->
  (forall prior r, Poll prior = inr r ->
     (forall ev, ev ∈ Events r -> Id ev <> id) /\ ~ clean sourceIDs r (c_source_id row)) ->
  events (core s').1 !! id = Some row.
Proof. apply tick_untouched. Qed.

(** Per tick, at most [budgetPerTick] language-model calls, each for a
    weather alert the poll returned, with that alert's text; none when the poll
    fails. *)
Theorem enhance_budget sourceIDs Poll st s rs s' :
  tick marshal digest wildfireBuffer clock Enhance tuning has_enhancer enhancerModel budgetPerTick
    sourceIDs Poll st s = (rs, s') ->
  exists prior calls, enhance_calls (Tx.mem s') = enhance_calls (Tx.mem s) ++ calls
    /\ match Poll prior with
       | inl _ => calls = []
       | inr r => Z.of_nat (length calls) <= Z.max 0 budgetPerTick /\ Forall (call_of r) calls
       end.
Proof.
  intros (prior & H)%tick_spends. exists prior. destruct (Poll prior) as [e|r].
  - exists []. by rewrite H, app_nil_r.
  - destruct H as (calls & H1 & H2 & H3). by exists calls.
Qed.

(** The write gate is sound. An event it skips is one whose content hash is
    already stored: had it been upserted instead, no content would have changed
    and no revision would have been minted. *)
Theorem write_gate_sound evs forceWrite s stored s1 ev now s2 r :
  DbOk marshal digest (core s).1 ->
  storedHashes evs s = (inr stored, s1) ->
  shouldUpsert marshal digest ev false stored forceWrite = false ->
  UpsertEvent marshal digest wildfireBuffer now ev (Tx.mkSt (core s1).1 (core s1).2 (Tx.plan s1)) = (r, s2) ->
  (core s1).1 = (core s).1
  /\ event_revisions (Tx.db s2) = event_revisions (core s).1
  /\ forall res, r = inr res -> Changed res = false.
Proof.
  intros Hok Hst Hgate Hup. unfold storedHashes, Tx.bind, Tx.try, onStore, Tx.zoom in Hst.
  destruct (ContentHashes _ _) as [r1 s3] eqn:E. apply ContentHashes_reads in E as (Hd & Hm & Hh).
  cbn in Hd, Hm, Hh. destruct r1 as [e|m]; injection Hst as <- <-; unfold shouldUpsert in Hgate;
    destruct (_ || _) in Hgate; try done.
  destruct (m !! Id ev) as [h|] eqn:Em; [|done]. apply negb_false_iff, bool_decide_eq_true in Hgate.
  destruct (Hh m eq_refl _ _ Em) as (row & Hrow & Hhash). unfold core in *. cbn in *. rewrite Hd in Hup |- *.
  split; [done|]. apply UpsertEvent_run in Hup. destruct r as [e|res].
  - unfold view in Hup. cbn in Hup. injection Hup as -> _. done.
  - destruct Hup as (_ & rw & Hpost & _). unfold upsert_post in Hpost. cbn in Hpost. rewrite Hrow in Hpost.
    rewrite decide_True in Hpost by congruence. destruct Hpost as [-> Hrw]. split; [|by intros ? [= <-]].
    destruct rw; [destruct Hrw as (? & _ & -> & _)|destruct Hrw as [-> _]]; done.
Qed.

(** The ids a sweep of [src] transitions. *)
Lemma sweep_ids src polled now d :
  DbOk marshal digest d ->
  let ids := Id ∘ se_event <$> filter (fun se => sweep_takes tuning src now se = true)
    (filter (fun se => Id (se_event se) ∉ polled) (active_rows d src)) in
  (length ids <= size (events d))%nat
  /\ forall id row, events d !! id = Some row ->
     (id ∈ ids <-> swept tuning src polled now row = true).
Proof.
  intros Hok ids. split.
  { unfold ids. rewrite length_fmap. etrans; [apply length_filter|]. etrans; [apply length_filter|].
    apply length_active_rows. }
  pose proof (fun k r H => row_id _ _ _ _ _ (ok_row _ _ _ Hok k r H)) as Hkey.
  intros id row Hrow. rewrite swept_spec. unfold ids. rewrite list_elem_of_fmap. split.
  - intros (se & Hi & [Ht [Hp Hse]%list_elem_of_filter]%list_elem_of_filter).
    apply elem_of_active_rows_iff in Hse as (k & r & Hk & -> & Hs & Ha).
    assert (id = k) as -> by (rewrite Hi; exact (proj1 (Hkey _ _ Hk))). simplify_eq. done.
  - intros (Hs & Ha & Hp & Ht). exists (stored_of row). split; [symmetry; exact (proj1 (Hkey _ _ Hrow))|].
    rewrite !list_elem_of_filter, elem_of_active_rows_iff. split_and!; [done..|]. by exists id, row.
Qed.

(** What the sweep of [src] leaves, when the ids [ids] were transitioned. *)
Definition swept_to (src : string) (polled : gset string) (now : Time) (d d' : DB) : Prop :=
  forall id, match events d !! id with
  | None => events d' !! id = None
  | Some row => exists row', events d' !! id = Some row'
      /\ if swept tuning src polled now row
         then moved_to marshal digest (sweep_target tuning src) row row' else row' = row
  end.

Lemma reached_swept src polled now obs t d ids d' :
  DbOk marshal digest d -> small d ->
  (forall id row, events d !! id = Some row -> (id ∈ ids <-> swept tuning src polled now row = true)) ->
  reached marshal digest (sweep_target tuning src) obs t d ids d' -> swept_to src polled now d d'.
Proof.
  intros Hok Hsmall Hids (_ & Hin & Hout) id. destruct (events d !! id) as [row|] eqn:Er.
  - destruct (swept tuning src polled now row) eqn:Es.
    + apply (Hids _ _ Er) in Es. specialize (Hin _ Es). rewrite Er in Hin.
      destruct Hin as (row' & ? & ?). eauto using moved_raw_to.
    + exists row. split; [|done]. rewrite Hout; [done|]. rewrite (Hids _ _ Er), Es. done.
  - destruct (decide (id ∈ ids)) as [Hi|Hi]; [|by rewrite Hout].
    specialize (Hin _ Hi). by rewrite Er in Hin.
Qed.

Section Safe.
Hypothesis marshals : forall ev, is_Some (marshal ev).
Hypothesis collision_free : forall e1 e2,
  ContentHash marshal digest e1 = ContentHash marshal digest e2 -> normalize e1 = normalize e2.

(** C26: a tick, whatever fails in it, keeps the store's invariant, loses no
    event, and an event whose stamp it did not move has the body it had. *)
Theorem tick_keeps_store sourceIDs Poll st s rs s' :
  tick marshal digest wildfireBuffer clock Enhance tuning has_enhancer enhancerModel budgetPerTick
    sourceIDs Poll st s = (rs, s') ->
  DbOk marshal digest (core s).1 -> small (core s').1 ->
  DbOk marshal digest (core s').1
  /\ forall id row, events (core s).1 !! id = Some row ->
     exists row', events (core s').1 !! id = Some row' /\ advances row row'.
Proof using collision_free.
  intros (prior & H)%tick_steps Hok Hsmall.
  assert (Hm : rtc (moves marshal digest) ((core s).1, refreshVersions (core s).2)
                 ((core s').1, refreshVersions (core s').2)).
  { destruct (Poll prior); by eapply steps_moves. }
  split; [by apply (moves_ok _ _ collision_free _ _ Hm)|].
  intros id row Hrow. exact (moves_advances _ _ collision_free _ _ _ _ Hm Hok Hsmall Hrow).
Qed.

(** C32: with no fault, the sweep of a source moves exactly its active events the
    poll did not return and the policy takes to the policy's status, each with
    one new revision, and leaves every other event as it was. *)
Theorem sweep_contract src polled now s :
  DbOk marshal digest (core s).1 ->
  Z.of_nat (length (event_revisions (core s).1) + size (events (core s).1)) < 2 ^ 32 - 1 ->
  Tx.plan s = [] ->
  exists s', sweepDisappeared marshal digest clock tuning src polled now s = (inr tt, s')
    /\ swept_to src polled now (core s).1 (core s').1.
Proof using MK JK marshals collision_free.
  destruct s as [[d md] [c cm cr ce cu] p]. unfold core. cbn [fst snd Tx.db Tx.mem m_store Tx.plan].
  intros Hok Hb ->. destruct (sweep_ids src polled now d Hok) as [Hlen Hids].
  unfold sweepDisappeared. set (ids := Id ∘ se_event <$> _) in Hlen, Hids.
  assert (Hsmall : small d) by (unfold small; lia).
  unfold Tx.bind at 1, Tx.try at 1, onStore at 1, Tx.zoom at 1, ActiveEventsBySource.
  rewrite Tx.query_noFaults by done. cbn -[Nat.eqb]. fold ids.
  destruct (Nat.eqb (length ids) 0) eqn:En.
  { apply Nat.eqb_eq, nil_length_inv in En. eexists. split; [done|].
    apply (reached_swept _ _ _ now now _ ids); [done..|]. rewrite En.
    split_and!; [done|by intros ? ?%not_elem_of_nil|done]. }
  destruct (TransitionEvents_twp marshal digest marshals collision_free (clock cr) ids
    (sweep_target tuning src) now d c Hok ltac:(lia)) as ([] & d' & c' & Hrun & -> & Hreach).
  unfold Tx.bind, Tx.try, onStore, Tx.zoom. cbn. rewrite Hrun. eexists. split; [done|].
  by eapply reached_swept.
Qed.

End Safe.
End Properties.

(** ** Witnesses *)

Module SchedDemo.
Import StoreSpec.Demo.

Definition clock (n : nat) : Time := Z.of_nat n * second.
Definition Enhance (_ : nat) (_ _ : string) (_ : list string) : option Enhanced :=
  Some (mkEnhanced "plain words" "request" "response").

Definition poll (evs : list Event) (errs : gmap string string) (_ : Prior) : Tx.error + PollResult :=
  inr (mkPollResult evs errs [] [] [] [] [] [] [] false).

Definition TickD (Poll : Prior -> Tx.error + PollResult) (s : St) :=
  tick EventCodec.marshal EventCodec.digest zero clock Enhance ∅ true "model" 1 ["chp"] Poll
    (mkPollerState 0 false) s.

(** The store holds one active incident; the disk fails once. *)
Definition start (p : list bool) : St :=
  Tx.mkSt (Tx.db s1, mkMeshDB [] ∅ ∅ ∅ ∅) (mkSMem (Tx.mem s1) 0 0 [] 0) p.

Definition alert (id head : string) : Event :=
  mkEvent id WEATHER_ALERT "alert" MINOR ACTIVE head "" "" "" "" None []
    (Some (mkProvenance "chp" "CHP" "" "" None)) None None None None 0 None None.

(** Two alerts, and the incident gone from the feed. *)
Definition alerts : Prior -> Tx.error + PollResult := poll [alert "w:1" "Wind"; alert "w:2" "Snow"] ∅.
Definition timeout : Prior -> Tx.error + PollResult := poll [] {["chp" := "timeout"]}.
Definition after_alerts : St := (TickD alerts (start [])).2.
Definition after_timeout : St := (TickD timeout (start [false; true])).2.

Lemma ids_start p : ids_ok (core (start p)).1.
Proof.
  intros k row Hk. exact (proj1 (row_id _ _ _ _ _ (ok_row _ _ _ ok1 k row Hk))).
Qed.

(** A clean absence resolves the incident, and the two alerts are stored, the
    first one enhanced. *)
Example after_alerts_rows :
  ((fun r => (c_status r, summary (c_proto r))) <$> events (core after_alerts).1 !! "chp:1")
    = Some (RESOLVED, "")
  /\ ((fun r => (c_status r, summary (c_proto r))) <$> events (core after_alerts).1 !! "w:1")
    = Some (ACTIVE, "plain words")
  /\ ((fun r => (c_status r, summary (c_proto r))) <$> events (core after_alerts).1 !! "w:2")
    = Some (ACTIVE, "").
Proof. by vm_compute. Qed.

End SchedDemo.
Import StoreSpec.Demo SchedDemo.

(** A failed fetch keeps the incident active. *)
Lemma fail_loud_witness : exists row,
  c_status row = ACTIVE /\ events (core SchedDemo.after_timeout).1 !! "chp:1" = Some row.
Proof.
  destruct (events (core (SchedDemo.start [false; true])).1 !! "chp:1") as [row|] eqn:E;
    [|vm_compute in E; discriminate E].
  exists row. split; [vm_compute in E; injection E as <-; reflexivity|].
  apply (fail_loud EventCodec.marshal EventCodec.digest zero SchedDemo.clock SchedDemo.Enhance ∅ true "model" 1
    ["chp"] SchedDemo.timeout (mkPollerState 0 false) (SchedDemo.start [false; true])
    (SchedDemo.TickD SchedDemo.timeout (SchedDemo.start [false; true])).1 SchedDemo.after_timeout "chp:1" row
    (SchedDemo.ids_start _)).
  - unfold SchedDemo.after_timeout. apply surjective_pairing.
  - exact E.
  - intros prior r [= <-]. split; [intros ev Hev; by apply not_elem_of_nil in Hev|].
    replace (c_source_id row) with "chp" by (vm_compute in E; injection E as <-; reflexivity).
    intros (_ & H & _). discriminate H.
Defined.

Lemma enhance_budget_witness : exists calls : list (string * string * list string),
  Z.of_nat (length calls) <= 1 /\ enhance_calls (Tx.mem SchedDemo.after_alerts) = calls.
Proof.
  destruct (enhance_budget EventCodec.marshal EventCodec.digest zero SchedDemo.clock SchedDemo.Enhance ∅ true
    "model" 1 ["chp"] SchedDemo.alerts (mkPollerState 0 false) (SchedDemo.start [])
    (SchedDemo.TickD SchedDemo.alerts (SchedDemo.start [])).1 SchedDemo.after_alerts) as (prior & calls & H & Hc).
  - unfold SchedDemo.after_alerts. apply surjective_pairing.
  - exists calls. split; [exact (proj1 Hc)|exact H].
Defined.

Lemma tick_keeps_store_witness :
  DbOk EventCodec.marshal EventCodec.digest (core SchedDemo.after_alerts).1.
Proof.
  apply (tick_keeps_store EventCodec.marshal EventCodec.digest zero SchedDemo.clock SchedDemo.Enhance ∅ true
    "model" 1 Demo.collision_free ["chp"] SchedDemo.alerts (mkPollerState 0 false) (SchedDemo.start [])
    (SchedDemo.TickD SchedDemo.alerts (SchedDemo.start [])).1 SchedDemo.after_alerts).
  - unfold SchedDemo.after_alerts. apply surjective_pairing.
  - exact Demo.ok1.
  - vm_compute. reflexivity.
Defined.

Lemma write_gate_sound_witness : exists s2 : Tx.St DB Mem,
  event_revisions (Tx.db s2) = event_revisions (core (SchedDemo.start [])).1.
Proof.
  pose (r := storedHashes [Demo.crash ACTIVE "Crash" []] (SchedDemo.start [])).
  pose (up := UpsertEvent EventCodec.marshal EventCodec.digest zero 9 (Demo.crash ACTIVE "Crash" [])
    (Tx.mkSt (core (SchedDemo.start [])).1 (core (SchedDemo.start [])).2 [])).
  exists up.2.
  refine (proj1 (proj2 (write_gate_sound EventCodec.marshal EventCodec.digest zero
    [Demo.crash ACTIVE "Crash" []] [] (SchedDemo.start [])
    (match r.1 with inr x => x | inl _ => None end) r.2
    (Demo.crash ACTIVE "Crash" []) 9 up.2 up.1 Demo.ok1 _ _ _))).
  - vm_compute. reflexivity.
  - vm_compute. reflexivity.
  - vm_compute. reflexivity.
Defined.

Lemma sweep_contract_witness : exists s' : St, c_status <$> events (core s').1 !! "chp:1" = Some RESOLVED.
Proof.
  destruct (sweep_contract EventCodec.marshal EventCodec.digest SchedDemo.clock ∅ ltac:(by eexists)
    Demo.collision_free "chp" ∅ 7 (SchedDemo.start []) Demo.ok1 ltac:(vm_compute; reflexivity) eq_refl)
    as (s' & _ & H).
  exists s'. specialize (H "chp:1").
  destruct (events (core (SchedDemo.start [])).1 !! "chp:1") as [row|] eqn:E; [|vm_compute in E; discriminate E].
  destruct H as (row' & Hr & H). rewrite Hr.
  replace (swept ∅ "chp" ∅ 7 row) with true in H by (vm_compute in E; injection E as <-; vm_compute; reflexivity).
  destruct H as (_ & H & _). cbn. f_equal. exact H.
Defined.

End SchedulerSpec.
