(* ===== verification/GoText.v ===== *)
(** * Text as the request handlers treat it

    The functions of Go's [strings] and [encoding/hex] the push endpoint uses,
    on byte strings, and the node identifiers of
    [internal/clients/meshcore/nodeid.go]. The lower case of a string that is not
    ASCII is a class. *)

From Stdlib Require Import Ascii ZifyN ZifyBool.
From S2P Require Import Prelude.

Module Text.

(** ** Bytes *)

Definition code (c : ascii) : N := N_of_ascii c.

Fixpoint bytes (s : string) : list ascii :=
  match s with EmptyString => [] | String c s => c :: bytes s end.
Fixpoint of_bytes (l : list ascii) : string :=
  match l with [] => EmptyString | c :: l => String c (of_bytes l) end.

Lemma of_bytes_bytes s : of_bytes (bytes s) = s.
Proof. induction s; cbn; congruence. Qed.

Lemma bytes_of_bytes l : bytes (of_bytes l) = l.
Proof. induction l; cbn; congruence. Qed.

Definition all_bytes (p : N -> bool) (s : string) : bool := forallb (fun c => p (code c)) (bytes s).

(** ** [strings.ToLower], [strings.TrimSpace], [strings.EqualFold] *)

Definition lower_byte (n : N) : N := if (65 <=? n)%N && (n <=? 90)%N then (n + 32)%N else n.

Definition map_bytes (f : N -> N) (s : string) : string :=
  of_bytes (map (fun c => ascii_of_N (f (code c))) (bytes s)).

(** [unicode.ToLower], rune by rune, of a string with a byte beyond ASCII. *)
Class UnicodeLower := { unicode_lower : string -> string }.

Definition is_ascii (s : string) : bool := all_bytes (fun n => n <? 128)%N s.

Definition ToLower `{UnicodeLower} (s : string) : string :=
  if is_ascii s then map_bytes lower_byte s else unicode_lower s.

(** The UTF-8 encodings of the runes [unicode.IsSpace] holds of. *)
Definition space_runes : list (list N) :=
  ((fun n => [n]) <$> [9; 10; 11; 12; 13; 32]%N)
  ++ [[194; 133]; [194; 160]; [225; 154; 128]]%N
  ++ ((fun n => [226; 128; n]%N) <$> [128; 129; 130; 131; 132; 133; 134; 135; 136; 137; 138; 168; 169; 175]%N)
  ++ [[226; 129; 159]; [227; 128; 128]]%N.

Fixpoint strip {A} (eqb : A -> A -> bool) (p l : list A) : option (list A) :=
  match p, l with
  | [], _ => Some l
  | a :: p, b :: l => if eqb a b then strip eqb p l else None
  | _ :: _, [] => None
  end.

Definition strip_one (runes : list (list N)) (l : list ascii) : option (list ascii) :=
  foldr (fun r acc => match strip N.eqb r (code <$> l) with
                      | Some _ => Some (drop (length r) l)
                      | None => acc
                      end) None runes.

(** Drops leading runes of the list; each round drops one byte at least. *)
Fixpoint trim_front (runes : list (list N)) (fuel : nat) (l : list ascii) : list ascii :=
  match fuel with
  | O => l
  | S fuel => match strip_one runes l with Some l' => trim_front runes fuel l' | None => l end
  end.

Definition TrimSpace (s : string) : string :=
  let l := trim_front space_runes (length (bytes s)) (bytes s) in
  of_bytes (reverse (trim_front (reverse <$> space_runes) (length l) (reverse l))).

(** [strings.EqualFold] with an ASCII string without [k] and [s]: no rune
    beyond ASCII folds into its letters. *)
Definition EqualFold (s t : string) : bool :=
  bool_decide (map_bytes lower_byte s = map_bytes lower_byte t).

(** ** Trimming *)

(** A rune table in which a byte under 128 is a rune of its own. *)
Definition rune_ok (r : list N) : bool :=
  match r with [] => false | [n] => (n <? 128)%N | n :: _ => (128 <=? n)%N end.

Definition ascii_space (n : N) : bool := bool_decide (n ∈ [9; 10; 11; 12; 13; 32]%N).

(** The table holds of the bytes under 128 the six spaces. *)
Definition table_ok (runes : list (list N)) : Prop :=
  forallb rune_ok runes = true /\ forall n, (n < 128)%N -> existsb (fun r => bool_decide (r = [n])) runes = ascii_space n.

Lemma strip_one_ascii runes c l :
  forallb rune_ok runes = true -> (code c < 128)%N ->
  strip_one runes (c :: l) = if existsb (fun r => bool_decide (r = [code c])) runes then Some l else None.
Proof.
  intros Hok Hc. induction runes as [|r runes IH]; [done|]. cbn in Hok |- *. apply andb_prop in Hok as [Hr Hok].
  destruct r as [|n [|n' r]]; [done|cbn in *..].
  - destruct (N.eqb_spec n (code c)) as [->|Hne]; [by rewrite bool_decide_true|].
    rewrite bool_decide_false by congruence. by apply IH.
  - apply N.leb_le in Hr. destruct (N.eqb_spec n (code c)); [lia|]. rewrite bool_decide_false by congruence. by apply IH.
Qed.

Lemma table_bytes runes :
  forallb rune_ok runes = true ->
  forallb (fun n => Bool.eqb (existsb (fun r => bool_decide (r = [n])) runes) (ascii_space n)) (N.of_nat <$> seq 0 128) = true ->
  table_ok runes.
Proof.
  intros Hok Hall. split; [done|]. intros n Hn. rewrite forallb_forall in Hall. apply eqb_prop, Hall.
  apply list_elem_of_In, list_elem_of_fmap. exists (N.to_nat n). rewrite elem_of_seq. lia.
Qed.

Lemma space_table : table_ok space_runes /\ table_ok (reverse <$> space_runes).
Proof. split; apply table_bytes; vm_compute; reflexivity. Qed.

Lemma trim_front_spaces runes a c l fuel :
  table_ok runes -> Forall (fun x => ascii_space (code x) = true) a ->
  (code c < 128)%N -> ascii_space (code c) = false -> (length a < fuel)%nat ->
  trim_front runes fuel (a ++ c :: l) = c :: l.
Proof.
  intros [Hok Htab] Ha Hc Hsp. revert fuel. induction Ha as [|x a Hx _ IH]; intros [|fuel] Hf; cbn in Hf; try lia; cbn.
  - by rewrite strip_one_ascii, Htab, Hsp by done.
  - assert (code x < 128)%N.
    { unfold ascii_space in Hx. apply bool_decide_eq_true in Hx. set_unfold. lia. }
    rewrite strip_one_ascii, Htab, Hx by done. apply IH. lia.
Qed.

Lemma bytes_app s t : bytes (s +:+ t) = bytes s ++ bytes t.
Proof. induction s as [|c s IH]; [done|]. change (String c s +:+ t) with (String c (s +:+ t)). cbn. by rewrite IH. Qed.

Lemma length_bytes s : length (bytes s) = String.length s.
Proof. induction s; cbn; congruence. Qed.

(** Bytes of ASCII, none a space. *)
Definition plain (s : string) : bool := all_bytes (fun n => (32 <? n)%N && (n <? 128)%N) s.

Lemma plain_byte s c : plain s = true -> c ∈ bytes s -> (code c < 128)%N /\ ascii_space (code c) = false.
Proof.
  unfold plain, all_bytes. rewrite forallb_forall. intros Hp Hc%list_elem_of_In%Hp.
  cbn beta in Hc. apply andb_prop in Hc as [?%N.ltb_lt ?%N.ltb_lt]. split; [done|].
  apply bool_decide_eq_false. set_unfold. lia.
Qed.

Lemma TrimSpace_pad a s b :
  all_bytes ascii_space a = true -> all_bytes ascii_space b = true -> plain s = true -> s <> "" ->
  TrimSpace (a +:+ s +:+ b) = s.
Proof.
  unfold all_bytes. rewrite !forallb_forall. intros Ha Hb Hs Hne. destruct space_table as [Hf Hr].
  assert (Ha' : Forall (fun x => ascii_space (code x) = true) (bytes a)) by (apply Forall_forall; intros x; rewrite list_elem_of_In; apply Ha).
  assert (Hb' : Forall (fun x => ascii_space (code x) = true) (reverse (bytes b)))
    by (apply Forall_reverse, Forall_forall; intros x; rewrite list_elem_of_In; apply Hb).
  unfold TrimSpace. rewrite !bytes_app.
  assert (Hfront : trim_front space_runes (length (bytes a ++ bytes s ++ bytes b)) (bytes a ++ bytes s ++ bytes b)
                   = bytes s ++ bytes b).
  { destruct (bytes s) as [|c l] eqn:E; [destruct s; done|].
    assert (Hc : c ∈ bytes s) by (rewrite E; left). destruct (plain_byte _ _ Hs Hc).
    cbn [app]. apply trim_front_spaces; try done. rewrite length_app. cbn. lia. }
  rewrite Hfront, reverse_app.
  destruct (reverse (bytes s)) as [|c l] eqn:E.
  { apply (f_equal reverse) in E. rewrite reverse_involutive in E. destruct s; done. }
  assert (Hc : c ∈ bytes s) by (rewrite <-elem_of_reverse, E; left). destruct (plain_byte _ _ Hs Hc).
  assert (Hs0 : (0 < length (bytes s))%nat) by (destruct (bytes s); [by rewrite reverse_nil in E|cbn; lia]).
  rewrite trim_front_spaces; try done; [|rewrite length_app, length_reverse; lia].
  by rewrite <-E, reverse_involutive, of_bytes_bytes.
Qed.

(** [strings.ToValidUTF8(s, "")]: the bytes of well-formed sequences. The length of
    the sequence at the head, as [utf8.DecodeRune] accepts it. *)
Definition cont (n : N) : bool := (128 <=? n)%N && (n <=? 191)%N.
Definition second_ok (a b : N) : bool :=
  if (a =? 224)%N then (160 <=? b)%N && (b <=? 191)%N
  else if (a =? 237)%N then (128 <=? b)%N && (b <=? 159)%N
  else if (a =? 240)%N then (144 <=? b)%N && (b <=? 191)%N
  else if (a =? 244)%N then (128 <=? b)%N && (b <=? 143)%N
  else cont b.
Definition rune_len (l : list N) : option nat :=
  match l with
  | [] => None
  | a :: r =>
      if (a <? 128)%N then Some 1%nat
      else
        match r with
        | b :: r =>
            if (194 <=? a)%N && (a <=? 223)%N then if second_ok a b then Some 2%nat else None
            else
              match r with
              | c :: r =>
                  if (224 <=? a)%N && (a <=? 239)%N then if second_ok a b && cont c then Some 3%nat else None
                  else
                    match r with
                    | d :: _ =>
                        if (240 <=? a)%N && (a <=? 244)%N then
                          if second_ok a b && cont c && cont d then Some 4%nat else None
                        else None
                    | [] => None
                    end
              | [] => None
              end
        | [] => None
        end
  end.

(** [pending] bytes of an accepted sequence are still to be copied. *)
Fixpoint valid_bytes (pending : nat) (l : list ascii) : list ascii :=
  match l, pending with
  | [], _ => []
  | c :: r, S n => c :: valid_bytes n r
  | c :: r, O =>
      match rune_len (code <$> l) with
      | Some n => c :: valid_bytes (pred n) r
      | None => valid_bytes 0 r
      end
  end.
Definition ToValidUTF8 (s : string) : string := of_bytes (valid_bytes 0 (bytes s)).

(** [strings.Contains]. *)
Fixpoint contains_bytes (sub l : list ascii) : bool :=
  bool_decide (take (length sub) l = sub) || match l with [] => false | _ :: l => contains_bytes sub l end.
Definition Contains (s sub : string) : bool := contains_bytes (bytes sub) (bytes s).

(** ** Splitting and suffixes *)

(** [strings.Split] at a separator of one byte. *)
Fixpoint split_bytes (sep : ascii) (l : list ascii) : list (list ascii) :=
  match l with
  | [] => [[]]
  | c :: l =>
      if bool_decide (c = sep) then [] :: split_bytes sep l
      else match split_bytes sep l with w :: ws => (c :: w) :: ws | [] => [[c]] end
  end.
Definition Split (s : string) (sep : ascii) : list string := of_bytes <$> split_bytes sep (bytes s).

(** [strings.Fields]: the words between runs of white space. Each round drops a
    byte at least. *)
Fixpoint fields_bytes (fuel : nat) (word l : list ascii) : list (list ascii) :=
  let flush := match word with [] => [] | _ => [reverse word] end in
  match fuel, l with
  | O, _ | _, [] => flush
  | S fuel, c :: r =>
      match strip_one space_runes l with
      | Some l' => flush ++ fields_bytes fuel [] l'
      | None => fields_bytes fuel (c :: word) r
      end
  end.
Definition Fields (s : string) : list string := of_bytes <$> fields_bytes (S (String.length s)) [] (bytes s).

Definition HasSuffix (s p : string) : bool :=
  (String.length p <=? String.length s)%nat
  && bool_decide (drop (String.length s - String.length p) (bytes s) = bytes p).
Definition TrimSuffix (s p : string) : string :=
  if HasSuffix s p then of_bytes (take (String.length s - String.length p) (bytes s)) else s.

(** [strings.ToUpper]; the upper case of a string that is not ASCII is a class. *)
Definition upper_byte (n : N) : N := if (97 <=? n)%N && (n <=? 122)%N then (n - 32)%N else n.
Class UnicodeUpper := { unicode_upper : string -> string }.
Definition ToUpper `{UnicodeUpper} (s : string) : string :=
  if is_ascii s then map_bytes upper_byte s else unicode_upper s.

(** [strings.ReplaceAll] of a string that is not empty: [skip] bytes of a match are
    still to be dropped. *)
Fixpoint replace_bytes (old new : list ascii) (skip : nat) (l : list ascii) : list ascii :=
  match l, skip with
  | [], _ => []
  | _ :: r, S n => replace_bytes old new n r
  | c :: r, O =>
      if bool_decide (take (length old) l = old) then new ++ replace_bytes old new (pred (length old)) r
      else c :: replace_bytes old new 0 r
  end.
Definition ReplaceAll (s old new : string) : string := of_bytes (replace_bytes (bytes old) (bytes new) 0 (bytes s)).

(** [strings.Join]. *)
Definition join (sep : string) (l : list string) : string :=
  match l with [] => "" | x :: l => foldl (fun acc y => acc +:+ sep +:+ y) x l end.

Definition is_digit (n : N) : bool := (48 <=? n)%N && (n <=? 57)%N.

(** ** [encoding/hex] *)

Definition is_hex_byte (n : N) : bool :=
  ((48 <=? n) && (n <=? 57) || (97 <=? n) && (n <=? 102) || (65 <=? n) && (n <=? 70))%N.

(** Whether [hex.DecodeString] succeeds. *)
Definition hex_ok (s : string) : bool := Nat.even (String.length s) && all_bytes is_hex_byte s.

(** ** Node identifiers *)

Definition MinNodeIDHex : nat := 8.
Definition MaxNodeIDHex : nat := 64.
Definition EventIDPrefix : string := "meshcore:".

Section NodeIDs.
Context `{UnicodeLower}.

Definition ValidNodeID (id : string) : bool :=
  if (String.length id <? MinNodeIDHex)%nat || (MaxNodeIDHex <? String.length id)%nat
     || negb (Nat.eqb (String.length id mod 2) 0) then false
  else if negb (bool_decide (ToLower id = id)) then false
  else hex_ok id.

(** [strings.HasPrefix], [strings.TrimPrefix]. *)
Definition HasPrefix (s p : string) : bool := String.prefix p s.
Definition TrimPrefix (s p : string) : string :=
  if HasPrefix s p then String.substring (String.length p) (String.length s - String.length p) s else s.

Definition ParseNodeKey (s : string) : string * bool :=
  let key := TrimPrefix (ToLower (TrimSpace s)) EventIDPrefix in (key, ValidNodeID key).

(** [strings.CutPrefix]. *)
Definition CutPrefix (s p : string) : option string := if HasPrefix s p then Some (TrimPrefix s p) else None.

Lemma HasPrefix_bytes s p : HasPrefix s p = true <-> bytes p `prefix_of` bytes s.
Proof.
  unfold HasPrefix. revert s. induction p as [|a p IH]; intros [|b s]; cbn.
  - split; [intros _; apply prefix_nil|done].
  - split; [intros _; apply prefix_nil|done].
  - split; [done|]. by intros ?%prefix_nil_not.
  - destruct (ascii_dec a b) as [->|Hne].
    + rewrite IH. split; [apply prefix_cons|apply prefix_cons_inv_2].
    + split; [done|]. by intros ?%prefix_cons_inv_1.
Qed.

(** ** Node keys *)

Lemma string_app_empty_r s : s +:+ "" = s.
Proof. induction s as [|c s IH]; [done|]. change (String c s +:+ "") with (String c (s +:+ "")). by rewrite IH. Qed.

Lemma app_cons c s t : String c s +:+ t = String c (s +:+ t).
Proof. done. Qed.

Lemma TrimPrefix_app p s : TrimPrefix (p +:+ s) p = s.
Proof.
  unfold TrimPrefix, HasPrefix.
  assert (String.prefix p (p +:+ s) = true) as ->.
  { induction p as [|c p IH]; [by destruct s|]. rewrite app_cons. cbn. by destruct (ascii_dec c c). }
  assert (Hlen : (String.length (p +:+ s) - String.length p = String.length s)%nat).
  { rewrite <-!length_bytes, bytes_app, length_app. lia. }
  rewrite Hlen. clear Hlen. induction p as [|c p IH]; [|by rewrite app_cons].
  change ("" +:+ s) with s. cbn. induction s as [|c s IH]; [done|]. cbn. by rewrite IH.
Qed.

Lemma CutPrefix_app p t : CutPrefix (p +:+ t) p = Some t.
Proof.
  unfold CutPrefix. rewrite TrimPrefix_app. assert (HasPrefix (p +:+ t) p = true) as ->; [|done].
  apply HasPrefix_bytes. rewrite bytes_app. by exists (bytes t).
Qed.

Lemma CutPrefix_Some s p t : CutPrefix s p = Some t -> s = p +:+ t.
Proof.
  unfold CutPrefix. destruct (HasPrefix s p) eqn:E; [|done]. intros [= <-]. apply HasPrefix_bytes in E as [k Hk].
  assert (s = p +:+ of_bytes k) as ->; [|by rewrite TrimPrefix_app].
  rewrite <-(of_bytes_bytes s), Hk, <-(of_bytes_bytes (p +:+ of_bytes k)), bytes_app, bytes_of_bytes. done.
Qed.

Lemma ToLower_app s t : is_ascii s = true -> is_ascii t = true -> ToLower (s +:+ t) = ToLower s +:+ ToLower t.
Proof.
  unfold ToLower. intros Hs Ht. assert (is_ascii (s +:+ t) = true) as ->.
  { unfold is_ascii, all_bytes in *. by rewrite bytes_app, forallb_app, Hs, Ht. }
  rewrite Hs, Ht. unfold map_bytes. rewrite bytes_app, map_app.
  generalize (map (fun c => ascii_of_N (lower_byte (code c))) (bytes t)). intros l.
  induction (map _ (bytes s)) as [|c k IH]; [done|]. cbn [of_bytes app]. by rewrite IH.
Qed.

Lemma lower_plain x : is_ascii x = true -> plain (ToLower x) = true -> plain x = true.
Proof.
  unfold ToLower, plain, all_bytes. intros Hx. rewrite Hx. unfold map_bytes.
  rewrite bytes_of_bytes, !forallb_forall.
  intros Hf c Hc. unfold is_ascii, all_bytes in Hx. rewrite forallb_forall in Hx. specialize (Hx c Hc).
  apply N.ltb_lt in Hx. specialize (Hf _ (in_map _ _ _ Hc)). cbn beta in Hf.
  assert (Hcode : code (ascii_of_N (lower_byte (code c))) = lower_byte (code c)).
  { apply N_ascii_embedding. clear Hf. unfold lower_byte. destruct (_ && _) eqn:E; lia. }
  rewrite Hcode in Hf.
  apply andb_prop in Hf as [?%N.ltb_lt ?]. apply andb_true_intro. split; [|by apply N.ltb_lt].
  apply N.ltb_lt. unfold lower_byte in *. destruct (_ && _) eqn:E; [|done].
  apply andb_prop in E as [?%N.leb_le _]. lia.
Qed.

Lemma valid_plain k : ValidNodeID k = true -> plain k = true /\ k <> "" /\ HasPrefix k EventIDPrefix = false.
Proof.
  unfold ValidNodeID. destruct (_ || _) eqn:El; [done|]. case_bool_decide; [cbn [negb]|done].
  intros [_ Hh]%andb_prop. unfold all_bytes in Hh. rewrite forallb_forall in Hh.
  assert (Hne : k <> "") by by intros ->. split_and!; [|done|].
  - unfold plain, all_bytes. rewrite forallb_forall. intros c Hc%Hh. unfold is_hex_byte in Hc.
    apply andb_true_intro. rewrite !N.ltb_lt. lia.
  - destruct k as [|c k]; [done|]. specialize (Hh c (or_introl eq_refl)). 
    change (HasPrefix (String c k) EventIDPrefix)
      with (if ascii_dec "m" c then String.prefix "eshcore:" k else false).
    by destruct (ascii_dec "m" c) as [<-|].
Qed.

(** A node key comes back from either form a client holds: the key itself or
    its event id, in any case, with any ASCII space around it. What it parses
    to, when it is a node id, parses to itself. *)
Theorem node_key_roundtrip k :
  ValidNodeID k = true ->
  (forall a x b, all_bytes ascii_space a = true -> all_bytes ascii_space b = true -> is_ascii x = true ->
     ToLower x = k \/ ToLower x = EventIDPrefix +:+ k -> ParseNodeKey (a +:+ x +:+ b) = (k, true))
  /\ ParseNodeKey k = (k, true) /\ ParseNodeKey (EventIDPrefix +:+ k) = (k, true).
Proof.
  intros Hv. destruct (valid_plain k Hv) as (Hp & Hne & Hpre).
  assert (Hall : forall a x b, all_bytes ascii_space a = true -> all_bytes ascii_space b = true ->
     is_ascii x = true -> ToLower x = k \/ ToLower x = EventIDPrefix +:+ k ->
     ParseNodeKey (a +:+ x +:+ b) = (k, true)).
  { intros a x b Ha Hb Hx Hk. unfold ParseNodeKey.
    assert (plain (ToLower x) = true /\ ToLower x <> "") as [Hpl Hnil].
    { destruct Hk as [->| ->]; [done|]. split; [|done]. unfold plain, all_bytes in *.
      by rewrite bytes_app, forallb_app, Hp. }
    rewrite TrimSpace_pad; [|done|done|by apply lower_plain|].
    - destruct Hk as [->| ->]; [|by rewrite TrimPrefix_app, Hv].
      unfold TrimPrefix. by rewrite Hpre, Hv.
    - intros ->. done. }
  assert (Hlow : is_ascii k = true /\ ToLower k = k).
  { split.
    - unfold plain, is_ascii, all_bytes in *. rewrite forallb_forall in *. intros c Hc%Hp.
      by apply andb_prop in Hc as [_ ?].
    - revert Hv. unfold ValidNodeID. destruct (_ || _); [done|]. by case_bool_decide. }
  destruct Hlow as [Hak Hlk]. split_and!; [done|..].
  - specialize (Hall "" k "" eq_refl eq_refl Hak (or_introl Hlk)). by rewrite string_app_empty_r in Hall.
  - specialize (Hall "" (EventIDPrefix +:+ k) "" eq_refl eq_refl). rewrite string_app_empty_r in Hall.
    apply Hall.
    + unfold is_ascii, all_bytes in *. by rewrite bytes_app, forallb_app, Hak.
    + right. by rewrite ToLower_app, Hlk.
Qed.

End NodeIDs.

(** A lower case for text that is ASCII. *)
Definition ascii_only : UnicodeLower := {| unicode_lower s := s |}.

Lemma node_key_roundtrip_witness :
  @ParseNodeKey ascii_only "  MeshCore:AABBccdd " = ("aabbccdd", true).
Proof.
  apply (proj1 (@node_key_roundtrip ascii_only "aabbccdd" ltac:(reflexivity)) "  " "MeshCore:AABBccdd" " ");
    [reflexivity..|right; reflexivity].
Defined.

End Text.
