(* ===== verification/MeshFrame.v ===== *)
(** * Mesh packets

    [internal/clients/meshcore/frame.go] and [advert.go]: the transport header
    of a packet and the payload of an advert, decoded from bytes. Bytes are
    [ascii], as in [Text]; the hexadecimal coding of [encoding/hex] is here.
    [ed25519.Verify] is a class. *)

From Stdlib Require Import Ascii ZifyN ZifyBool.
From stdpp Require Import pretty.
From S2P Require Import Prelude Float64 GoText.

Module Frame.
Import F64 Text.

Abbreviation Bytes := (list ascii).

(** ** [hex.EncodeToString], [hex.DecodeString] *)

Definition hex_digit (n : N) : ascii := ascii_of_N (if (n <? 10)%N then 48 + n else 87 + n)%N.
Definition hex_val (c : ascii) : option N :=
  let n := code c in
  if ((48 <=? n) && (n <=? 57))%N then Some (n - 48)%N
  else if ((97 <=? n) && (n <=? 102))%N then Some (n - 87)%N
  else if ((65 <=? n) && (n <=? 70))%N then Some (n - 55)%N
  else None.

Fixpoint hex_bytes (l : Bytes) : Bytes :=
  match l with
  | [] => []
  | c :: l => hex_digit (code c / 16) :: hex_digit (code c mod 16) :: hex_bytes l
  end.
Fixpoint unhex_bytes (l : Bytes) : option Bytes :=
  match l with
  | [] => Some []
  | a :: b :: l =>
      x ← hex_val a; y ← hex_val b; rest ← unhex_bytes l; Some (ascii_of_N (x * 16 + y) :: rest)
  | _ => None
  end.

Definition EncodeToString (l : Bytes) : string := of_bytes (hex_bytes l).
Definition DecodeString (s : string) : option Bytes := unhex_bytes (bytes s).

(** ** Transport header *)

Definition hdrRouteTypeMask : N := 3.
Definition hdrPayloadTypeShift : N := 2.
Definition hdrPayloadTypeMask : N := 15.
Definition routeTransportFlood : N := 0.
Definition routeFlood : N := 1.
Definition routeTransportDirect : N := 3.
Definition payloadTypeAdvert : N := 4.
Definition payloadTypeTrace : N := 9.
Definition transportCodesLen : nat := 4.

(** What became of a packet handed to the registry (client.go). *)
Inductive PacketOutcome := PacketAccepted | PacketIgnored | PacketMalformed | PacketRejected.

Record FrameHeader := mkFrameHeader {
  RouteType : N; PayloadType : N; HashSize : nat; Path : list string; PayloadOffset : nat }.

Inductive FrameError :=
  | TooShort (n : nat) | NoPathLen | PathTooLong (hashSize hashCount have : nat) | NotAdvert (payloadType : N)
  | AdvertTooShort (n : nat) | LocationTruncated | LocationRange (lat lng : float64) | NameTruncated.

Definition byte_at (l : Bytes) (i : nat) : N := default 0%N (code <$> l !! i).

(** [raw[a:a+n]]. *)
Definition slice (l : Bytes) (a n : nat) : Bytes := take n (drop a l).

Definition route_type (b : N) : N := N.land b hdrRouteTypeMask.
Definition payload_type (b : N) : N := N.land (N.shiftr b hdrPayloadTypeShift) hdrPayloadTypeMask.
Definition is_transport (route : N) : bool := (route =? routeTransportFlood)%N || (route =? routeTransportDirect)%N.
Definition hash_size (plen : N) : nat := S (N.to_nat (N.shiftr plen 6)).
Definition hash_count (plen : N) : nat := N.to_nat (N.land plen 63).

Definition hops_of (size count : nat) (path : Bytes) : list string :=
  (fun i => EncodeToString (slice path (i * size) size)) <$> seq 0 count.

Definition DecodeFrameHeader (raw : Bytes) : FrameError + FrameHeader :=
  if (length raw <? 2)%nat then inl (TooShort (length raw))
  else
    let b0 := byte_at raw 0 in
    let off := (1 + if is_transport (route_type b0) then transportCodesLen else 0)%nat in
    if (length raw <=? off)%nat then inl NoPathLen
    else
      let plen := byte_at raw off in
      let off := S off in
      let size := hash_size plen in
      let count := hash_count plen in
      let pathBytes := (size * count)%nat in
      if (length raw <? off + pathBytes)%nat then inl (PathTooLong size count (length raw - off))
      else inr (mkFrameHeader (route_type b0) (payload_type b0) size
                  (hops_of size count (slice raw off pathBytes)) (off + pathBytes)).

Definition is_flood (h : FrameHeader) : bool :=
  (RouteType h =? routeFlood)%N || (RouteType h =? routeTransportFlood)%N.

Definition RelayHops (h : FrameHeader) : list string :=
  if negb (is_flood h) then [] else if (PayloadType h =? payloadTypeTrace)%N then [] else Path h.
Definition RouteHops (h : FrameHeader) : list string :=
  if is_flood h then [] else if (PayloadType h =? payloadTypeTrace)%N then [] else Path h.

(** ** Adverts *)

Definition advPubKeyLen : nat := 32.
Definition advTimestampAt : nat := 32.
Definition advSignatureAt : nat := 36.
Definition advSignatureN : nat := 64.
Definition advAppDataAt : nat := 100.
Definition advMinLen : nat := advAppDataAt.
Definition roleMask : N := 15.
Definition flagLocation : N := 16.
Definition flagReserv5 : N := 32.
Definition flagReserv6 : N := 64.
Definition flagName : N := 128.

Definition RoleCompanion : string := "companion".
Definition RoleRepeater : string := "repeater".
Definition RoleRoomServer : string := "room_server".
Definition RoleSensor : string := "sensor".

Definition roleName (flags : N) : string :=
  match N.land flags roleMask with
  | 1%N => RoleCompanion | 2%N => RoleRepeater | 3%N => RoleRoomServer | 4%N => RoleSensor
  | n => "unknown(" +:+ pretty n +:+ ")"
  end.

Record Advert := mkAdvert {
  PubKey : string; Role : string; Name : string; HasLocation : bool; Lat : float64; Lng : float64;
  Timestamp : Time; a_Path : list string; HopCount : nat; SignatureValid : bool }.

(** [ed25519.Verify]: key, message, signature. *)
Class Ed25519 := { Verify : Bytes -> Bytes -> Bytes -> bool }.

(** [binary.LittleEndian.Uint32] of four bytes. *)
Definition Uint32 (l : Bytes) : Z :=
  Z.lor (Z.of_N (byte_at l 0)) (Z.lor (Z.shiftl (Z.of_N (byte_at l 1)) 8)
    (Z.lor (Z.shiftl (Z.of_N (byte_at l 2)) 16) (Z.shiftl (Z.of_N (byte_at l 3)) 24))).
Definition int32 (n : Z) : Z := if n <? 2 ^ 31 then n else n - 2 ^ 32.

Definition has_flag (flags f : N) : bool := negb (N.land flags f =? 0)%N.
Definition degrees (n : Z) : float64 := div (of_Z n) (of_Z 1000000).

(** The location block at [p]: where the next field starts, and what was read. *)
Definition decode_location (flags : N) (app : Bytes) (p : nat)
    : FrameError + nat * (bool * float64 * float64) :=
  if negb (has_flag flags flagLocation) then inr (p, (false, zero, zero))
  else if (length app <? p + 8)%nat then inl LocationTruncated
  else
    let lat := degrees (int32 (Uint32 (slice app p 4))) in
    let lng := degrees (int32 (Uint32 (slice app (p + 4) 4))) in
    if ltb lat (of_Z (-90)) || ltb (of_Z 90) lat || ltb lng (of_Z (-180)) || ltb (of_Z 180) lng
    then inl (LocationRange lat lng)
    else inr ((p + 8)%nat, (negb (eqb lat zero) || negb (eqb lng zero), lat, lng)).

Definition decode_name (flags : N) (app : Bytes) (p : nat) : FrameError + string :=
  let p := (p + if has_flag flags flagReserv5 then 2 else 0)%nat in
  let p := (p + if has_flag flags flagReserv6 then 2 else 0)%nat in
  if negb (has_flag flags flagName) then inr ""
  else if (length app <? p)%nat then inl NameTruncated
  else inr (of_bytes (drop p app)).

Section Decode.
Context `{Ed25519}.

Definition DecodeAdvert (payload : Bytes) : FrameError + Advert :=
  if (length payload <? advMinLen)%nat then inl (AdvertTooShort (length payload))
  else
    let pub := slice payload 0 advPubKeyLen in
    let tsUnix := Uint32 (slice payload advTimestampAt 4) in
    let sig := slice payload advSignatureAt advSignatureN in
    let app := drop advAppDataAt payload in
    let valid := Verify pub (slice payload 0 advSignatureAt ++ app) sig in
    let advert := fun role name loc =>
      mkAdvert (EncodeToString pub) role name loc.1.1 loc.1.2 loc.2 (time_of_unix tsUnix) [] 0 valid in
    match app with
    | [] => inr (advert "unknown(0)" "" (false, zero, zero))
    | c :: _ =>
        let flags := code c in
        match decode_location flags app 1 with
        | inl e => inl e
        | inr (p, loc) =>
            match decode_name flags app p with
            | inl e => inl e
            | inr name => inr (advert (roleName flags) name loc)
            end
        end
    end.

Definition with_path (h : FrameHeader) (a : Advert) : Advert :=
  mkAdvert (PubKey a) (Role a) (Name a) (HasLocation a) (Lat a) (Lng a) (Timestamp a) (Path h)
    (length (Path h)) (SignatureValid a).

Definition DecodeFrame (raw : Bytes) : FrameError + Advert :=
  if (length raw <? 2)%nat then inl (TooShort (length raw))
  else if negb (payload_type (byte_at raw 0) =? payloadTypeAdvert)%N then
    inl (NotAdvert (payload_type (byte_at raw 0)))
  else
    match DecodeFrameHeader raw with
    | inl e => inl e
    | inr h =>
        match DecodeAdvert (drop (PayloadOffset h) raw) with
        | inl e => inl e
        | inr a => inr (with_path h a)
        end
    end.

End Decode.

(** ** Hexadecimal *)

Lemma code_ascii n : (n < 256)%N -> code (ascii_of_N n) = n.
Proof. apply N_ascii_embedding. Qed.

Lemma code_lt c : (code c < 256)%N.
Proof. apply N_ascii_bounded. Qed.

Lemma ascii_code c : ascii_of_N (code c) = c.
Proof. apply ascii_N_embedding. Qed.

Definition nibbles : list N := N.of_nat <$> seq 0 16.

Lemma nibble_ind (P : N -> Prop) (n : N) : (n < 16)%N -> Forall P nibbles -> P n.
Proof.
  intros Hn Hall. rewrite Forall_forall in Hall. apply Hall. apply list_elem_of_fmap.
  exists (N.to_nat n). rewrite elem_of_seq. lia.
Qed.

Lemma hex_val_digit n : (n < 16)%N -> hex_val (hex_digit n) = Some n.
Proof. intros Hn. pattern n. apply nibble_ind; [done|]. by repeat constructor. Qed.

Lemma unhex_hex l : unhex_bytes (hex_bytes l) = Some l.
Proof.
  induction l as [|c l IH]; [done|]. cbn. pose proof (code_lt c).
  rewrite !hex_val_digit by (try apply N.mod_lt; try apply N.Div0.div_lt_upper_bound; lia). cbn. rewrite IH. cbn.
  do 2 f_equal. rewrite N.mul_comm, <-N.div_mod by done. apply ascii_code.
Qed.

(** Decoding gives back what was encoded. *)
Lemma DecodeString_Encode l : DecodeString (EncodeToString l) = Some l.
Proof. unfold DecodeString, EncodeToString. rewrite bytes_of_bytes. apply unhex_hex. Qed.

Lemma length_Encode l : String.length (EncodeToString l) = (2 * length l)%nat.
Proof.
  unfold EncodeToString. rewrite <-length_bytes, bytes_of_bytes. induction l; cbn; lia.
Qed.

(** What is encoded is lower case. *)
Definition lower_hex (n : N) : bool := is_hex_byte n && (lower_byte n =? n)%N.

Lemma hex_lower l : all_bytes lower_hex (EncodeToString l) = true.
Proof.
  unfold all_bytes, EncodeToString. rewrite bytes_of_bytes, forallb_forall.
  induction l as [|c l IH]; [done|]. cbn. pose proof (code_lt c).
  assert (Hd : forall n, (n < 16)%N -> lower_hex (code (hex_digit n)) = true).
  { intros n Hn. pattern n. apply nibble_ind; [done|]. by repeat constructor. }
  intros x [<-|[<-|Hx]]; [apply Hd, N.Div0.div_lt_upper_bound; lia|by apply Hd, N.mod_lt|by apply IH].
Qed.

Lemma lower_hex_ToLower `{UnicodeLower} s :
  all_bytes lower_hex s = true -> ToLower s = s /\ all_bytes is_hex_byte s = true /\ is_ascii s = true.
Proof.
  unfold ToLower, is_ascii, all_bytes. rewrite !forallb_forall. intros Hs.
  assert (Hb : forall c, In c (bytes s) ->
    is_hex_byte (code c) = true /\ lower_byte (code c) = code c /\ (code c <? 128)%N = true).
  { intros c Hc%Hs. unfold lower_hex in Hc. apply andb_prop in Hc as [Hh ?%N.eqb_eq].
    split_and!; [done..|]. unfold is_hex_byte in Hh. lia. }
  assert (forallb (fun c => (code c <? 128)%N) (bytes s) = true) as ->.
  { apply forallb_forall. by intros c (_ & _ & ?)%Hb. }
  split_and!; [|by intros c (? & _)%Hb|by intros c (_ & _ & ?)%Hb].
  unfold map_bytes. rewrite <-(of_bytes_bytes s) at 2. f_equal.
  erewrite map_ext_in; [apply map_id|]. intros c (_ & Hl & _)%Hb. cbn. rewrite Hl. apply ascii_code.
Qed.

(** A key of 4 to 32 bytes is a node id. *)
Lemma Encode_ValidNodeID `{UnicodeLower} l :
  (4 <= length l <= 32)%nat -> ValidNodeID (EncodeToString l) = true.
Proof.
  intros Hl. destruct (lower_hex_ToLower _ (hex_lower l)) as (Hlow & Hhex & _).
  unfold ValidNodeID, hex_ok. rewrite Hlow, Hhex, length_Encode. unfold MinNodeIDHex, MaxNodeIDHex.
  rewrite bool_decide_true, andb_true_r by done. cbn [negb].
  replace (_ || _)%bool with false; [by rewrite Nat.even_mul|].
  symmetry. rewrite !orb_false_iff, !Nat.ltb_ge. split_and!; [lia..|].
  by rewrite Nat.mul_comm, Nat.Div0.mod_mul.
Qed.

(** ** The frame layout *)

(** A frame by its fields: [fr_hops] are the hops' hashes. *)
Record FrameSpec := mkFrameSpec {
  fr_header : ascii; fr_codes : Bytes; fr_size : nat; fr_hops : list Bytes; fr_payload : Bytes }.

Definition fr_ok (f : FrameSpec) : Prop :=
  length (fr_codes f) = (if is_transport (route_type (code (fr_header f))) then transportCodesLen else 0)%nat
  /\ (1 <= fr_size f <= 4)%nat /\ (length (fr_hops f) <= 63)%nat
  /\ Forall (fun hop => length hop = fr_size f) (fr_hops f).

Definition fr_plen (f : FrameSpec) : N := ((N.of_nat (fr_size f) - 1) * 64 + N.of_nat (length (fr_hops f)))%N.

Definition fr_encode (f : FrameSpec) : Bytes :=
  fr_header f :: fr_codes f ++ ascii_of_N (fr_plen f) :: concat (fr_hops f) ++ fr_payload f.

Definition fr_decoded (f : FrameSpec) : FrameHeader :=
  mkFrameHeader (route_type (code (fr_header f))) (payload_type (code (fr_header f))) (fr_size f)
    (EncodeToString <$> fr_hops f) (2 + length (fr_codes f) + fr_size f * length (fr_hops f)).

Lemma plen_split n : (n < 256)%N -> hash_size n = S (N.to_nat (n / 64)) /\ hash_count n = N.to_nat (n mod 64).
Proof.
  intros Hn. unfold hash_size, hash_count. rewrite N.shiftr_div_pow2.
  change 63%N with (N.ones 6). by rewrite N.land_ones.
Qed.

Lemma fr_plen_split f :
  fr_ok f -> (fr_plen f < 256)%N /\ hash_size (fr_plen f) = fr_size f
  /\ hash_count (fr_plen f) = length (fr_hops f).
Proof.
  intros (_ & Hs & Hn & _). assert (Hlt : (fr_plen f < 256)%N) by (unfold fr_plen; lia).
  destruct (plen_split _ Hlt) as [-> ->]. unfold fr_plen in *.
  set (a := (N.of_nat (fr_size f) - 1)%N) in *. set (b := N.of_nat (length (fr_hops f))) in *.
  assert (Hb : (b < 64)%N) by lia.
  rewrite (N.add_comm (a * 64)), N.div_add, N.Div0.mod_add, N.div_small, N.mod_small by done. lia.
Qed.

Lemma slice_app_l (a b : Bytes) n : length a = n -> slice (a ++ b) 0 n = a.
Proof. intros <-. unfold slice. by rewrite drop_0, take_app_length. Qed.

Lemma slice_app_r (a b : Bytes) i n : slice (a ++ b) (length a + i) n = slice b i n.
Proof. unfold slice. by rewrite drop_app_add. Qed.

Lemma hops_of_concat size hops :
  Forall (fun hop => length hop = size) hops ->
  hops_of size (length hops) (concat hops) = EncodeToString <$> hops.
Proof.
  unfold hops_of. induction 1 as [|hop hops Hhop _ IH]; [done|]. cbn [length seq concat].
  rewrite !fmap_cons, <-fmap_S_seq, <-list_fmap_compose. f_equal.
  - cbn. by rewrite slice_app_l.
  - rewrite <-IH. apply list_fmap_ext. intros i x _. cbn. by rewrite <-Hhop, slice_app_r.
Qed.

Lemma length_concat size (hops : list Bytes) :
  Forall (fun hop => length hop = size) hops -> length (concat hops) = (size * length hops)%nat.
Proof. induction 1 as [|hop hops Hh _ IH]; cbn; [lia|]. rewrite length_app, Hh, IH. lia. Qed.

Lemma concat_slices size count (path : Bytes) :
  length path = (size * count)%nat ->
  concat ((fun i => slice path (i * size) size) <$> seq 0 count) = path.
Proof.
  revert path. induction count as [|count IH]; intros path Hp.
  { cbn. symmetry. apply nil_length_inv. lia. }
  cbn [seq]. rewrite fmap_cons, <-fmap_S_seq, <-list_fmap_compose. cbn [concat].
  transitivity (take size path ++ drop size path); [|apply take_drop]. f_equal.
  rewrite <-(IH (drop size path)) by (rewrite length_drop; lia). f_equal.
  apply list_fmap_ext. intros i x _. unfold slice. cbn. by rewrite drop_drop.
Qed.

Lemma decode_encode f :
  fr_ok f -> DecodeFrameHeader (fr_encode f) = inr (fr_decoded f)
  /\ drop (PayloadOffset (fr_decoded f)) (fr_encode f) = fr_payload f.
Proof.
  intros Hok. destruct (fr_plen_split f Hok) as (Hlt & Hsize & Hcount).
  destruct Hok as (Hcodes & Hs & Hn & Hhops). pose proof (length_concat _ _ Hhops) as Hlen.
  unfold DecodeFrameHeader, fr_decoded. cbn [PayloadOffset]. set (raw := fr_encode f).
  change (byte_at raw 0) with (code (fr_header f)). rewrite <-Hcodes.
  assert (Hraw : length raw = (2 + length (fr_codes f) + fr_size f * length (fr_hops f) + length (fr_payload f))%nat).
  { unfold raw, fr_encode. cbn. rewrite length_app. cbn. rewrite length_app, Hlen. lia. }
  assert (Hplen : byte_at raw (1 + length (fr_codes f)) = fr_plen f).
  { unfold byte_at.
    change raw with ((fr_header f :: fr_codes f) ++ ascii_of_N (fr_plen f) :: concat (fr_hops f) ++ fr_payload f).
    rewrite list_lookup_middle by done. cbn. by rewrite code_ascii. }
  assert (Hdrop : drop (S (1 + length (fr_codes f))) raw = concat (fr_hops f) ++ fr_payload f).
  { unfold raw, fr_encode. cbn. rewrite drop_app_ge by lia. by replace (S _ - _)%nat with 1%nat by lia. }
  rewrite Hplen, Hsize, Hcount.
  rewrite (proj2 (Nat.ltb_ge _ 2)), (proj2 (Nat.leb_gt _ _)), (proj2 (Nat.ltb_ge _ _)) by lia. split.
  - do 2 f_equal. unfold slice. rewrite Hdrop, <-Hlen, take_app_length. by apply hops_of_concat.
  - replace (2 + _ + _)%nat with (S (1 + length (fr_codes f)) + length (concat (fr_hops f)))%nat by lia.
    by rewrite <-drop_drop, Hdrop, drop_app_length.
Qed.

Lemma hash_size_bounds n : (n < 256)%N -> (1 <= hash_size n <= 4)%nat /\ (hash_count n <= 63)%nat.
Proof.
  intros Hn. destruct (plen_split n Hn) as [-> ->].
  pose proof (N.mod_lt n 64). pose proof (N.Div0.div_lt_upper_bound n 64 4). lia.
Qed.

Lemma plen_join n : (n < 256)%N -> ((N.of_nat (hash_size n) - 1) * 64 + N.of_nat (hash_count n))%N = n.
Proof. intros Hn. destruct (plen_split n Hn) as [-> ->]. pose proof (N.div_mod n 64). lia. Qed.

Lemma decode_layout raw h :
  DecodeFrameHeader raw = inr h -> exists f, fr_ok f /\ raw = fr_encode f /\ h = fr_decoded f.
Proof.
  unfold DecodeFrameHeader. destruct (Nat.ltb_spec (length raw) 2); [done|].
  destruct raw as [|b raw]; [done|]. change (byte_at (b :: raw) 0) with (code b).
  set (n := (if is_transport (route_type (code b)) then transportCodesLen else 0)%nat).
  destruct (Nat.leb_spec (length (b :: raw)) (1 + n)); [done|]. cbn [length] in *.
  destruct (lookup_lt_is_Some_2 raw n ltac:(lia)) as [pl Hpl].
  assert (Hb : byte_at (b :: raw) (1 + n) = code pl) by (unfold byte_at; change ((b :: raw) !! (1 + n)%nat) with (raw !! n); by rewrite Hpl).
  rewrite Hb. pose proof (code_lt pl) as Hlt.
  destruct (hash_size_bounds _ Hlt) as [Hsz Hct]. pose proof (plen_join _ Hlt) as Hjoin.
  set (size := hash_size (code pl)) in *. set (count := hash_count (code pl)) in *. clearbody size count.
  destruct (Nat.ltb_spec (S (length raw)) (S (1 + n) + size * count)); [done|]. intros [= <-].
  set (path := slice (b :: raw) (S (1 + n)) (size * count)).
  assert (Hpath : length path = (size * count)%nat).
  { unfold path, slice. rewrite length_take, length_drop. cbn. lia. }
  set (hops := (fun i => slice path (i * size) size) <$> seq 0 count).
  assert (Hhops : Forall (fun hop => length hop = size) hops).
  { apply Forall_fmap, Forall_seq. intros i Hi. cbn. unfold slice. rewrite length_take, length_drop. nia. }
  assert (Hcount : length hops = count) by (unfold hops; by rewrite length_fmap, length_seq).
  exists (mkFrameSpec b (take n raw) size hops (drop (S n + size * count) raw)). split_and!.
  - unfold fr_ok. cbn. rewrite Hcount. split_and!; [|lia..|done]. rewrite length_take. fold n. lia.
  - unfold fr_encode, fr_plen. cbn [fr_header fr_codes fr_size fr_hops fr_payload].
    rewrite Hcount, Hjoin, ascii_code. f_equal.
    unfold hops. rewrite concat_slices by done. unfold path, slice. cbn [drop].
    replace (drop (S n + size * count) raw) with (drop (size * count) (drop (1 + n) raw))
      by (rewrite drop_drop; f_equal; lia).
    rewrite take_drop. by rewrite take_drop_middle.
  - unfold fr_decoded. cbn [fr_header fr_codes fr_size fr_hops]. rewrite Hcount.
    replace (length (take n raw)) with n by (rewrite length_take; lia).
    unfold hops. rewrite <-list_fmap_compose. f_equal.
Qed.

(** A packet's transport header decodes exactly when the packet is laid out
    as documented: a header byte, four transport codes on the transport routes,
    a packed path length, that many hops, the payload. The decoded fields are
    the fields laid out; what follows the header is the payload. *)
Theorem frame_layout raw :
  (forall h, DecodeFrameHeader raw = inr h <-> exists f, fr_ok f /\ raw = fr_encode f /\ h = fr_decoded f)
  /\ (forall f, fr_ok f -> raw = fr_encode f -> drop (PayloadOffset (fr_decoded f)) raw = fr_payload f)
  /\ (forall h, DecodeFrameHeader raw = inr h ->
       Forall (fun hop => exists l, DecodeString hop = Some l /\ length l = HashSize h) (Path h)).
Proof.
  split_and!.
  - intros h. split; [apply decode_layout|]. intros (f & Hok & -> & ->). by apply decode_encode.
  - intros f Hok ->. by apply decode_encode.
  - intros h (f & (_ & _ & _ & Hhops) & -> & ->)%decode_layout. cbn. apply Forall_fmap.
    eapply Forall_impl; [exact Hhops|]. intros hop Hhop. exists hop. split; [apply DecodeString_Encode|done].
Qed.

(** ** The advert layout *)

(** The fields of an advert's application data. *)
Record AppSpec := mkAppSpec {
  ap_role : N; ap_location : option (Z * Z); ap_reserved5 : option Bytes; ap_reserved6 : option Bytes;
  ap_name : option Bytes }.

Definition bit (b : bool) (n : N) : N := if b then n else 0%N.
Definition is_some {A} (o : option A) : bool := match o with Some _ => true | None => false end.

Definition ap_flags (x : AppSpec) : N :=
  (ap_role x + (bit (is_some (ap_location x)) flagLocation + (bit (is_some (ap_reserved5 x)) flagReserv5
     + (bit (is_some (ap_reserved6 x)) flagReserv6 + bit (is_some (ap_name x)) flagName))))%N.

(** The little-endian bytes of an int32. *)
Definition le32 (z : Z) : Bytes :=
  (fun k => ascii_of_N (Z.to_N (Z.shiftr (z mod 2 ^ 32) k mod 256))) <$> [0; 8; 16; 24].

Definition ap_encode (x : AppSpec) : Bytes :=
  ascii_of_N (ap_flags x) :: (match ap_location x with Some (lat, lng) => le32 lat ++ le32 lng | None => [] end)
    ++ default [] (ap_reserved5 x) ++ default [] (ap_reserved6 x) ++ default [] (ap_name x).

Definition is_int32 (z : Z) : Prop := - 2 ^ 31 <= z < 2 ^ 31.

Definition ap_ok (x : AppSpec) : Prop :=
  (ap_role x < 16)%N
  /\ (forall lat lng, ap_location x = Some (lat, lng) -> is_int32 lat /\ is_int32 lng)
  /\ (forall l, ap_reserved5 x = Some l -> length l = 2%nat)
  /\ (forall l, ap_reserved6 x = Some l -> length l = 2%nat).

Lemma lor_shiftl a b k : 0 <= k -> 0 <= a < 2 ^ k -> Z.lor a (Z.shiftl b k) = a + b * 2 ^ k.
Proof.
  intros Hk Ha. rewrite <-Z.shiftl_mul_pow2 by done.
  pose proof (Z.add_lor_land a (Z.shiftl b k)) as Hsum.
  assert (Hand : Z.land a (Z.shiftl b k) = 0); [|lia].
  apply Z.bits_inj'. intros n Hn. rewrite Z.land_spec, Z.bits_0. destruct (Z.lt_ge_cases n k).
  - rewrite Z.shiftl_spec_low by done. by rewrite andb_false_r.
  - assert (Hbit : Z.testbit a n = false); [|by rewrite Hbit].
    rewrite <-(Z.mod_small a (2 ^ k)) by done. by apply Z.mod_pow2_bits_high.
Qed.

Lemma Uint32_le32 z : Uint32 (le32 z) = z mod 2 ^ 32.
Proof.
  unfold Uint32, le32, byte_at. cbn -[Z.shiftr Z.shiftl Z.modulo Z.pow Z.lor].
  set (n := z mod 2 ^ 32). assert (Hn : 0 <= n < 2 ^ 32) by (by apply Z.mod_pos_bound).
  assert (Hb : forall k, 0 <= k -> Z.of_N (code (ascii_of_N (Z.to_N (Z.shiftr n k mod 256)))) = n / 2 ^ k mod 256).
  { intros k Hk. rewrite Z.shiftr_div_pow2 by done. pose proof (Z.mod_pos_bound (n / 2 ^ k) 256 ltac:(lia)).
    rewrite code_ascii by lia. lia. }
  rewrite !Hb by lia. clear Hb. set (d := fun k => n / 2 ^ k mod 256).
  assert (Hd : forall k, 0 <= d k < 2 ^ 8) by (intros k; by apply Z.mod_pos_bound).
  change (Z.lor (d 0) (Z.lor (Z.shiftl (d 8) 8) (Z.lor (Z.shiftl (d 16) 16) (Z.shiftl (d 24) 24))) = n).
  replace (Z.shiftl (d 16) 16) with (Z.shiftl (Z.shiftl (d 16) 8) 8) by by rewrite Z.shiftl_shiftl.
  replace (Z.shiftl (d 24) 24) with (Z.shiftl (Z.shiftl (Z.shiftl (d 24) 8) 8) 8) by by rewrite !Z.shiftl_shiftl.
  rewrite <-!Z.shiftl_lor, !lor_shiftl by (try done; apply Hd). unfold d.
  replace (n / 2 ^ 8) with (n / 256) by done. change (2 ^ 0) with 1.
  clear d Hd. Z.to_euclidean_division_equations. lia.
Qed.

Lemma int32_mod z : is_int32 z -> int32 (z mod 2 ^ 32) = z.
Proof.
  unfold is_int32, int32. intros Hz. destruct (Z.ltb_spec (z mod 2 ^ 32) (2 ^ 31)) as [H|H];
    Z.to_euclidean_division_equations; lia.
Qed.

Lemma ap_flags_spec x :
  (ap_role x < 16)%N ->
  (ap_flags x < 256)%N /\ N.land (ap_flags x) roleMask = ap_role x
  /\ has_flag (ap_flags x) flagLocation = is_some (ap_location x)
  /\ has_flag (ap_flags x) flagReserv5 = is_some (ap_reserved5 x)
  /\ has_flag (ap_flags x) flagReserv6 = is_some (ap_reserved6 x)
  /\ has_flag (ap_flags x) flagName = is_some (ap_name x).
Proof.
  unfold ap_flags. generalize (ap_role x), (is_some (ap_location x)), (is_some (ap_reserved5 x)),
    (is_some (ap_reserved6 x)), (is_some (ap_name x)). intros role [] [] [] [] Hrole;
    pattern role; (apply nibble_ind; [done|]); repeat constructor.
Qed.

Definition in_range (lat lng : float64) : bool :=
  negb (ltb lat (of_Z (-90)) || ltb (of_Z 90) lat || ltb lng (of_Z (-180)) || ltb (of_Z 180) lng).

Lemma length_le32 z : length (le32 z) = 4%nat.
Proof. done. Qed.

(** What the fields of the location say. *)
Definition ap_place (x : AppSpec) : FrameError + bool * float64 * float64 :=
  match ap_location x with
  | None => inr (false, zero, zero)
  | Some (lat, lng) =>
      let lat := degrees lat in let lng := degrees lng in
      if in_range lat lng then inr (negb (eqb lat zero) || negb (eqb lng zero), lat, lng)
      else inl (LocationRange lat lng)
  end.

Lemma decode_location_spec x :
  ap_ok x ->
  decode_location (ap_flags x) (ap_encode x) 1
  = match ap_place x with
    | inl e => inl e
    | inr loc => inr (if is_some (ap_location x) then 9 else 1, loc)%nat
    end.
Proof.
  intros (Hrole & Hloc & _). destruct (ap_flags_spec x Hrole) as (_ & _ & Hl & _).
  unfold decode_location, ap_place, ap_encode. rewrite Hl. destruct (ap_location x) as [[lat lng]|]; [|done].
  cbn [is_some negb]. destruct (Hloc _ _ eq_refl) as [Hlat Hlng].
  set (rest := _ ++ _ ++ default [] (ap_name x)).
  rewrite (proj2 (Nat.ltb_ge _ _)) by (cbn; lia).
  assert (Hs1 : slice (ascii_of_N (ap_flags x) :: (le32 lat ++ le32 lng) ++ rest) 1 4 = le32 lat) by done.
  assert (Hs2 : slice (ascii_of_N (ap_flags x) :: (le32 lat ++ le32 lng) ++ rest) (1 + 4) 4 = le32 lng) by done.
  rewrite Hs1, Hs2, !Uint32_le32, !int32_mod by done. unfold in_range. by destruct (_ || _).
Qed.

Lemma decode_name_spec x :
  ap_ok x ->
  decode_name (ap_flags x) (ap_encode x) (if is_some (ap_location x) then 9 else 1)
  = inr (default "" (of_bytes <$> ap_name x)).
Proof.
  intros (Hrole & _ & H5 & H6). destruct (ap_flags_spec x Hrole) as (_ & _ & _ & Hf5 & Hf6 & Hfn).
  unfold decode_name. rewrite Hf5, Hf6, Hfn.
  destruct (ap_name x) as [name|] eqn:En; cbn [is_some negb]; [|done].
  set (front := ascii_of_N (ap_flags x) :: (match ap_location x with Some (lat, lng) => le32 lat ++ le32 lng | None => [] end)
    ++ default [] (ap_reserved5 x) ++ default [] (ap_reserved6 x)).
  assert (Henc : ap_encode x = front ++ name).
  { unfold ap_encode, front. rewrite En. cbn. by rewrite <-!app_assoc. }
  set (p := (_ + _ + _)%nat).
  assert (Hlen : length front = p).
  { unfold front, p. cbn. rewrite !length_app.
    destruct (ap_location x) as [[lat lng]|], (ap_reserved5 x) as [l5|] eqn:E5, (ap_reserved6 x) as [l6|] eqn:E6; cbn;
      rewrite ?length_app, ?length_le32, ?(H5 _ eq_refl), ?(H6 _ eq_refl); done. }
  rewrite Henc, length_app, Hlen, (proj2 (Nat.ltb_ge _ _)) by lia.
  by rewrite <-Hlen, drop_app_length.
Qed.

(** An advert by its fields. *)
Record AdvertSpec := mkAdvertSpec { ad_pub : Bytes; ad_ts : Z; ad_sig : Bytes; ad_app : option AppSpec }.

Definition ad_ok (x : AdvertSpec) : Prop :=
  length (ad_pub x) = advPubKeyLen /\ length (ad_sig x) = advSignatureN /\ 0 <= ad_ts x < 2 ^ 32
  /\ forall app, ad_app x = Some app -> ap_ok app.

Definition ad_body (x : AdvertSpec) : Bytes := match ad_app x with Some app => ap_encode app | None => [] end.

Definition ad_encode (x : AdvertSpec) : Bytes := ad_pub x ++ le32 (ad_ts x) ++ ad_sig x ++ ad_body x.

Lemma decode_location_in flags app p p' loc :
  decode_location flags app p = inr (p', loc) -> loc.1.1 = true ->
  in_range loc.1.2 loc.2 = true /\ eqb loc.1.2 zero && eqb loc.2 zero = false.
Proof.
  unfold decode_location, in_range. destruct (negb _); [by intros [= _ <-]|]. destruct (_ <? _)%nat; [done|].
  set (lat := degrees _). set (lng := degrees _). destruct (_ || _) eqn:E; [done|].
  clearbody lat lng. intros [= _ <-]. cbn [fst snd]. intros Hnz. rewrite E. by destruct (eqb lat zero), (eqb lng zero).
Qed.

Section AdvertLayout.
Context `{Ed25519} `{UnicodeLower}.

Definition ad_decoded (x : AdvertSpec) : FrameError + Advert :=
  let valid := Verify (ad_pub x) (ad_pub x ++ le32 (ad_ts x) ++ ad_body x) (ad_sig x) in
  let advert := fun role name loc =>
    mkAdvert (EncodeToString (ad_pub x)) role name loc.1.1 loc.1.2 loc.2 (time_of_unix (ad_ts x)) [] 0 valid in
  match ad_app x with
  | None => inr (advert "unknown(0)" "" (false, zero, zero))
  | Some app =>
      match ap_place app with
      | inl e => inl e
      | inr loc => inr (advert (roleName (ap_role app)) (default "" (of_bytes <$> ap_name app)) loc)
      end
  end.

Lemma decode_advert_encode x : ad_ok x -> DecodeAdvert (ad_encode x) = ad_decoded x.
Proof.
  intros (Hpub & Hsig & Hts & Happ). unfold DecodeAdvert, ad_decoded. set (raw := ad_encode x).
  assert (Hraw : raw = ad_pub x ++ le32 (ad_ts x) ++ ad_sig x ++ ad_body x) by done.
  assert (H36 : length (ad_pub x ++ le32 (ad_ts x)) = advSignatureAt) by (by rewrite length_app, Hpub).
  assert (H100 : length (ad_pub x ++ le32 (ad_ts x) ++ ad_sig x) = advAppDataAt)
    by (by rewrite !length_app, Hpub, Hsig).
  rewrite (proj2 (Nat.ltb_ge _ _)) by (rewrite Hraw, !app_assoc, length_app, <-!app_assoc, H100; unfold advMinLen; lia).
  replace (drop advAppDataAt raw) with (ad_body x)
    by (by rewrite Hraw, <-H100, !app_assoc, drop_app_length).
  replace (slice raw 0 advPubKeyLen) with (ad_pub x) by (by rewrite Hraw, slice_app_l).
  replace (slice raw advTimestampAt 4) with (le32 (ad_ts x))
    by (rewrite Hraw; replace advTimestampAt with (length (ad_pub x) + 0)%nat by (by rewrite Hpub);
        by rewrite slice_app_r, slice_app_l).
  replace (slice raw advSignatureAt advSignatureN) with (ad_sig x)
    by (rewrite Hraw, app_assoc, <-H36, <-(Nat.add_0_r (length _)); by rewrite slice_app_r, slice_app_l).
  replace (slice raw 0 advSignatureAt) with (ad_pub x ++ le32 (ad_ts x))
    by (by rewrite Hraw, app_assoc, slice_app_l).
  rewrite Uint32_le32, Z.mod_small, <-app_assoc by done. unfold ad_body in *.
  destruct (ad_app x) as [app|]; [|done]. specialize (Happ app eq_refl).
  destruct Happ as [Hrole Hrest]. destruct (ap_flags_spec app Hrole) as (Hlt & Hmask & _).
  pose proof (decode_location_spec app (conj Hrole Hrest)) as Hl.
  pose proof (decode_name_spec app (conj Hrole Hrest)) as Hn.
  destruct (ap_encode app) as [|c l] eqn:Eapp; [done|].
  assert (Hc : code c = ap_flags app).
  { assert (Hhead : head (ap_encode app) = Some (ascii_of_N (ap_flags app))) by done.
    rewrite Eapp in Hhead. apply (inj Some) in Hhead. rewrite Hhead. by apply code_ascii. }
  rewrite Hc, Hl. destruct (ap_place app) as [e|loc]; [done|]. rewrite Hn.
  do 2 f_equal. unfold roleName. rewrite Hmask. clear -Hrole. pattern (ap_role app).
  apply nibble_ind; [done|]. by repeat constructor.
Qed.

(** C39: an advert laid out as documented decodes to its fields, on every branch:
    role, location with its unset and out-of-range cases, reserved fields, name.
    Whatever decodes names a node by its full key, holds no location outside the
    globe, and is reported as signed exactly when the signature verifies over the
    key, the stamp and the application data it came with. *)
Theorem advert_layout payload :
  (forall x, ad_ok x -> payload = ad_encode x -> DecodeAdvert payload = ad_decoded x)
  /\ (forall a, DecodeAdvert payload = inr a ->
       PubKey a = EncodeToString (take 32 payload) /\ ValidNodeID (PubKey a) = true
       /\ String.length (PubKey a) = 64%nat
       /\ (HasLocation a = true -> in_range (Lat a) (Lng a) = true
            /\ (eqb (Lat a) zero && eqb (Lng a) zero) = false)
       /\ SignatureValid a = Verify (take 32 payload) (take 36 payload ++ drop 100 payload)
                               (take 64 (drop 36 payload))).
Proof.
  split; [intros x Hok ->; by apply decode_advert_encode|]. intros a. unfold DecodeAdvert.
  destruct (Nat.ltb_spec (length payload) advMinLen) as [|Hlen]; [done|]. unfold advMinLen, advAppDataAt in Hlen.
  assert (Hpub : length (take 32 payload) = 32%nat) by (rewrite length_take; lia).
  assert (Hkey : ValidNodeID (EncodeToString (take 32 payload)) = true
                 /\ String.length (EncodeToString (take 32 payload)) = 64%nat).
  { rewrite length_Encode, Hpub. split; [apply Encode_ValidNodeID; lia|done]. }
  change (slice payload 0 advPubKeyLen) with (take 32 payload). 
  destruct (drop advAppDataAt payload) as [|c app] eqn:Eapp.
  { intros [= <-]. cbn. change advAppDataAt with 100%nat in Eapp. rewrite Eapp. by destruct Hkey. }
  change advAppDataAt with 100%nat in Eapp. destruct Hkey as [Hk1 Hk2].
  destruct (decode_location _ _ _) as [e|[p loc]] eqn:Eloc; [done|].
  destruct (decode_name _ _ _) as [e|name]; [done|]. intros [= <-].
  cbn [PubKey HasLocation Lat Lng SignatureValid]. rewrite Eapp. split_and!; [done..|exact (decode_location_in _ _ _ _ _ Eloc)|done].
Qed.

End AdvertLayout.

(** ** A concrete packet *)

Definition demo_frame : FrameSpec :=
  mkFrameSpec (ascii_of_N 17) [] 2 [[ascii_of_N 44; ascii_of_N 254]; [ascii_of_N 171; ascii_of_N 7]] [ascii_of_N 1].

Lemma frame_layout_witness :
  DecodeFrameHeader (fr_encode demo_frame) = inr (mkFrameHeader 1 4 2 ["2cfe"; "ab07"] 6).
Proof.
  apply (proj1 (frame_layout (fr_encode demo_frame))). exists demo_frame.
  split; [|split; [reflexivity|vm_compute; reflexivity]]. unfold fr_ok. cbn. split; [reflexivity|split; [lia|split; [lia|]]].
  repeat constructor.
Defined.

Definition demo_advert : AdvertSpec :=
  mkAdvertSpec (repeat (ascii_of_N 10) 32) 1700000000 (repeat (ascii_of_N 0) 64)
    (Some (mkAppSpec 2 (Some (38250000, -120350000)) None None (Some (bytes "Ridge")))).

Definition no_key : Ed25519 := {| Verify _ _ _ := false |}.

Lemma advert_layout_witness :
  exists a, @DecodeAdvert no_key (ad_encode demo_advert) = inr a /\ Name a = "Ridge" /\ HasLocation a = true
    /\ Role a = RoleRepeater.
Proof.
  destruct (@advert_layout no_key ascii_only (ad_encode demo_advert)) as [Hdec _].
  assert (Hok : ad_ok demo_advert).
  { split; [reflexivity|split; [reflexivity|split; [cbn; lia|]]]. intros app [= <-].
    split; [reflexivity|split; [|split; discriminate]].
    intros lat lng [= <- <-]. unfold is_int32. lia. }
  exists (match @ad_decoded no_key demo_advert with inr a => a | inl _ => mkAdvert "" RoleSensor "" false zero zero 0 [] 0 false end).
  split; [rewrite (Hdec demo_advert Hok eq_refl); vm_compute; reflexivity|].
  split; [|split]; vm_compute; reflexivity.
Defined.

End Frame.
