(* ===== verification/BurnStore.v ===== *)
(** * Staged burn readings

    [internal/store/burn.go]: the latest reading of each burn line, last write
    wins on the time the line was called. *)

From S2P Require Import Prelude GoText Tx.

Module Burn.
Import Text.
Open Scope tx_scope.

(** [BurnReading] and a row of [burn_readings]. *)
Record BurnReading := mkBurnReading {
  LineID : string; Status : string; Message : string; Transcript : string; Confidence : Z;
  ObservedAt : Time; ReceivedAt : Time; ReporterID : string }.
Record BurnRow := mkBurnRow {
  b_status : string; b_message : string; b_transcript : string; b_confidence : Z;
  b_observed_at : Z; b_received_at : Z; b_reporter_id : string }.

Abbreviation BurnDB := (gmap string BurnRow).

Section Burn.
Context {C : Type} `{UnicodeLower}.
Abbreviation M := (Tx.M BurnDB C).

(** The row of a reading received at [received]. *)
Definition burn_row (r : BurnReading) (received : Time) : BurnRow :=
  mkBurnRow (Status r) (Message r) (Transcript r) (Confidence r) (time_unix (ObservedAt r))
    (time_unix received) (ReporterID r).

(** INSERT ... ON CONFLICT DO UPDATE WHERE the new one is not older. *)
Definition upsert_reading (line : string) (row : BurnRow) (d : BurnDB) : BurnDB :=
  match d !! line with
  | Some old => if b_observed_at old <=? b_observed_at row then <[line := row]> d else d
  | None => <[line := row]> d
  end.

Definition PutBurnReading (now : Time) (r : BurnReading) : M unit :=
  if bool_decide (LineID r = "") then Tx.fail "store: burn reading needs a line id"
  else if time_is_zero (ObservedAt r) then Tx.fail "store: burn reading needs an observed_at"
  else
    let received := if time_is_zero (ReceivedAt r) then now else ReceivedAt r in
    Tx.inTx (Tx.exec (upsert_reading (ToLower (LineID r)) (burn_row r received))).

Definition reading_of (line : string) (row : BurnRow) : BurnReading :=
  mkBurnReading line (b_status row) (b_message row) (b_transcript row) (b_confidence row)
    (time_of_unix (b_observed_at row)) (time_of_unix (b_received_at row)) (b_reporter_id row).

Definition BurnReadings : M (gmap string BurnReading) :=
  Tx.query (fun d => map_imap (fun line row => Some (reading_of line row)) d).

(** ** Never backwards *)

(** Each line of [d] has a reading in [d'] that is not older. *)
Definition no_older (d d' : BurnDB) : Prop :=
  forall line row, d !! line = Some row ->
  exists row', d' !! line = Some row' /\ b_observed_at row <= b_observed_at row'.

#[export] Instance no_older_preorder : PreOrder no_older.
Proof.
  split.
  - intros d line row Hr. by exists row.
  - intros d1 d2 d3 H1 H2 line row Hr. destruct (H1 _ _ Hr) as (r2 & Hr2 & ?).
    destruct (H2 _ _ Hr2) as (r3 & ? & ?). exists r3. split; [done|lia].
Qed.

Lemma upsert_reading_lookup line row d line' :
  upsert_reading line row d !! line' =
    if decide (line = line') then
      Some (match d !! line with
            | Some old => if b_observed_at old <=? b_observed_at row then row else old
            | None => row
            end)
    else d !! line'.
Proof.
  unfold upsert_reading. case_decide as Hl; [subst line'|].
  - destruct (d !! line) as [old|] eqn:E; [|by rewrite lookup_insert_eq].
    destruct (_ <=? _); [by rewrite lookup_insert_eq|done].
  - destruct (d !! line); [destruct (_ <=? _)|]; by rewrite ?lookup_insert_ne by done.
Qed.

Lemma upsert_no_older line row d : no_older d (upsert_reading line row d).
Proof.
  intros l old Hl. rewrite upsert_reading_lookup. case_decide as He; [subst l|by exists old].
  rewrite Hl. destruct (_ <=? _) eqn:E; eexists; (split; [done|]); lia.
Qed.

(** What a run of [PutBurnReading] leaves. *)
Lemma PutBurnReading_run now r s res s' :
  PutBurnReading now r s = (res, s') ->
  Tx.mem s' = Tx.mem s /\
  match res with
  | inl _ => Tx.db s' = Tx.db s
  | inr _ => LineID r <> "" /\ ObservedAt r <> time_zero
      /\ Tx.db s' = upsert_reading (ToLower (LineID r))
           (burn_row r (if time_is_zero (ReceivedAt r) then now else ReceivedAt r)) (Tx.db s)
  end.
Proof.
  unfold PutBurnReading. case_bool_decide as Hl; [by intros [= <- <-]|].
  destruct (time_is_zero (ObservedAt r)) eqn:Ho; [by intros [= <- <-]|].
  set (row := burn_row _ _). intros Hrun. split.
  { refine (Tx.keeps_inTx _ (fun _ c => c = Tx.mem s) _ _ _ _ _ eq_refl Hrun); [done|].
    by apply Tx.keeps_exec. }
  destruct res as [e|[]]; [by eapply Tx.inTx_err|]. split_and!; [done|by intros E; rewrite E in Ho|].
  refine (Tx.wp_use _ (fun _ d' _ => d' = upsert_reading (ToLower (LineID r)) row (Tx.db s)) _ _ _ _ Hrun).
  wp_step. by wp_step.
Qed.

End Burn.

Section Properties.
Context `{UnicodeLower}.

(** Puts one after the other, each at its own time, failures included. *)
Fixpoint put_all (l : list (Time * BurnReading)) : Tx.M BurnDB unit unit :=
  match l with
  | [] => Tx.ret tt
  | (now, r) :: l => Tx.try (PutBurnReading now r) ;;; put_all l
  end.

(** No sequence of deliveries, however late, repeated or failing, moves a
    line back to an older reading. A delivery that succeeds leaves its line with
    the reading it brought if the line had none that is newer, and as it was
    otherwise; other lines are left alone, and delivering it again changes
    nothing. *)
Theorem burn_never_back :
  (forall l s r s', put_all l s = (r, s') -> no_older (Tx.db s) (Tx.db s'))
  /\ forall now rd (s s' : Tx.St BurnDB unit), ReceivedAt rd <> time_zero ->
     PutBurnReading now rd s = (inr tt, s') ->
     (Tx.db s' !! ToLower (LineID rd) = Some (burn_row rd (ReceivedAt rd))
      \/ Tx.db s' = Tx.db s /\ exists row, Tx.db s !! ToLower (LineID rd) = Some row
         /\ time_unix (ObservedAt rd) < b_observed_at row)
     /\ (forall line, line <> ToLower (LineID rd) -> Tx.db s' !! line = Tx.db s !! line)
     /\ forall now' r' s'', PutBurnReading now' rd s' = (r', s'') -> Tx.db s'' = Tx.db s'.
Proof.
  split.
  - intros l. induction l as [|[now rd] l IH]; intros s r s'; cbn; [by intros [= _ <-]|].
    unfold Tx.bind at 1, Tx.try. destruct (PutBurnReading now rd s) as [x s1] eqn:E.
    apply PutBurnReading_run in E as [_ E]. intros Hrun%IH. etrans; [|exact Hrun].
    destruct x; [by rewrite E|]. destruct E as (_ & _ & ->). apply upsert_no_older.
  - intros now rd s s' Hr Hrun. apply PutBurnReading_run in Hrun as [_ (_ & _ & Hd)].
    assert (Hz : time_is_zero (ReceivedAt rd) = false) by (unfold time_is_zero, time_zero in *; lia).
    rewrite Hz in Hd. pose proof (upsert_reading_lookup (ToLower (LineID rd))
      (burn_row rd (ReceivedAt rd)) (Tx.db s)) as Hl. rewrite <-Hd in Hl.
    split_and!.
    + specialize (Hl (ToLower (LineID rd))). rewrite decide_True in Hl by done.
      destruct (Tx.db s !! ToLower (LineID rd)) as [old|] eqn:Eo; [|by left].
      destruct (_ <=? _) eqn:Ele in Hl; [by left|right].
      split; [rewrite Hd; unfold upsert_reading; by rewrite Eo, Ele|]. exists old. cbn in Ele.
      split; [done|lia].
    + intros line Hne. rewrite Hl, decide_False by done. done.
    + intros now' r' s'' Hrun'. apply PutBurnReading_run in Hrun' as [_ Hd'].
      destruct r' as [e|[]]; [done|]. destruct Hd' as (_ & _ & ->). rewrite Hz. apply map_eq. intros line.
      rewrite upsert_reading_lookup. case_decide as He; [subst line|done].
      rewrite Hl, decide_True by done. destruct (Tx.db s !! _) as [old|]; [|cbn; by rewrite Z.leb_refl].
      destruct (_ <=? _) eqn:Ele; [by rewrite Z.leb_refl|]. by rewrite Ele.
Qed.

End Properties.

(** ** A concrete line *)

Definition called (at_ : Time) (st : string) : BurnReading :=
  mkBurnReading "Calaveras" st "" "" 90 (time_of_unix at_) (time_of_unix 900) "ci".

Definition put (r : BurnReading) (s : Tx.St BurnDB unit) : Tx.St BurnDB unit :=
  (PutBurnReading (H := ascii_only) 0 r s).2.

Lemma burn_never_back_witness :
  b_status <$> Tx.db (put (called 100 "red") (put (called 200 "green") (Tx.mkSt ∅ tt []))) !! "calaveras"
    = Some "green"
  /\ Tx.db (put (called 200 "green") (put (called 200 "green") (Tx.mkSt ∅ tt [])))
    = Tx.db (put (called 200 "green") (Tx.mkSt ∅ tt [])).
Proof.
  split; [vm_compute; reflexivity|].
  assert (Hz : ReceivedAt (called 200 "green") <> time_zero) by (vm_compute; discriminate).
  destruct (proj2 (@burn_never_back ascii_only) 0 (called 200 "green") (Tx.mkSt ∅ tt [])
    (put (called 200 "green") (Tx.mkSt ∅ tt [])) Hz ltac:(vm_compute; reflexivity)) as (_ & _ & H).
  apply (H 0 (inr tt)). vm_compute. reflexivity.
Defined.

End Burn.
