(* ===== verification/PushIngest.v ===== *)
(** * The push endpoint

    [internal/pushingest]: the registry of reporters with their credentials,
    grants, rate limits and health, and the request handler with its three
    streams. The endpoint is [ServeStream]; requests are served one at a time
    here, while the code lets two that passed the rate limit together run
    together. Burn readings are staged in the table of [Burn]; forwarded packets
    go to a sink. Messages of errors and warnings are data, not formatted text. *)

From S2P Require Import Prelude Float64 GridEvent GoText MeshFrame Tx BurnStore.

Module Push.
Import F64 Grid Text Burn.
Import Frame(PacketOutcome, PacketOutcome(..)).
Open Scope tx_scope.

(** ** Configuration *)

(** [config.Reporter], [config.IngestConfig]. *)
Record Reporter := mkReporter {
  rc_ID : string; rc_Name : string; TokenSha256 : string; TokenSuppliedAtDeploy : bool;
  Streams : list string; StaleAfter : Duration; MinInterval : Duration; Priority : Z;
  PlaceIDs : list string; Enumerates : bool }.
Record IngestConfig := mkIngestConfig {
  MaxBodyBytes : Z; MaxItems : Z; Reporters : list Reporter;
  ReporterTokenSha256 : gmap string string }.

Definition DefaultIngestMaxBodyBytes : Z := Z.shiftl 1 20.
Definition DefaultIngestMaxItems : Z := 1000.
Definition DefaultIngestReporterStaleAfter : Duration := 30 * minute.
Definition DefaultIngestMinInterval : Duration := 15 * second.

Definition StaleAfterOrDefault (r : Reporter) : Duration :=
  if StaleAfter r <=? 0 then DefaultIngestReporterStaleAfter else StaleAfter r.
Definition MinIntervalOrDefault (r : Reporter) : Duration :=
  if MinInterval r <=? 0 then DefaultIngestMinInterval else MinInterval r.
Definition MaxBodyBytesOrDefault (c : IngestConfig) : Z :=
  if MaxBodyBytes c <=? 0 then DefaultIngestMaxBodyBytes else MaxBodyBytes c.
Definition MaxItemsOrDefault (c : IngestConfig) : Z :=
  if MaxItems c <=? 0 then DefaultIngestMaxItems else MaxItems c.

(** ** Payloads *)

Definition MeshStream : string := "mesh.repeater".
Definition MeshPacketStream : string := "mesh.packet".
Definition BurnStream : string := "burn.line".
Definition KnownStreams : list string := [MeshStream; MeshPacketStream; BurnStream].

Definition meshSchemaVersion : Z := 1.
Definition packetSchemaVersion : Z := 1.
Definition burnSchemaVersion : Z := 1.
Definition maxPacketWarnings : nat := 25.
Definition reporterDeadMultiple : Z := 4.

Record meshRepeaterIn := mkMeshRepeaterIn {
  in_ID : string; in_Name : string; in_LastAttempt : option Z; in_LastSuccess : option Z;
  BatteryVoltage : option float64; BatteryPercent : option float64; BatteryPercentSource : string;
  TemperatureC : option float64; Humidity : option float64; Pressure : option float64;
  UptimeS : option Z; AirtimeMs : option Z; RxAirtimeMs : option Z; NoiseFloorDBm : option Z;
  LastRSSIdBm : option Z; LastSNRdB : option float64; TxQueueLen : option Z; NbSent : option Z;
  NbRecv : option Z; SentFlood : option Z; SentDirect : option Z; RecvFlood : option Z;
  RecvDirect : option Z; DirectDups : option Z; FloodDups : option Z; FullEvts : option Z;
  RecvErrors : option Z; Online : option bool }.
Record meshPayload := mkMeshPayload {
  mp_SchemaVersion : Z; mp_GeneratedAt : string; Repeaters : list meshRepeaterIn }.
(** A packet is the raw JSON of its envelope. *)
Record packetPayload := mkPacketPayload {
  pp_SchemaVersion : Z; pp_GeneratedAt : string; Observer : string; Packets : list string }.
Record burnReadingIn := mkBurnReadingIn {
  br_LineID : string; br_Status : string; br_Message : string; br_Transcript : string;
  br_Confidence : Z; br_ObservedAt : string }.
Record burnPayload := mkBurnPayload {
  bp_SchemaVersion : Z; bp_GeneratedAt : string; Readings : list burnReadingIn }.

(** What [json.Decoder] and [time.Parse] do: the document at the front of a
    body with what follows it, whether more follows, and an RFC 3339 stamp.
    [sha256_hex] is the hex SHA-256 of a token. *)
Class PushKernel := {
  sha256_hex : string -> string;
  DecodeMesh : string -> string + meshPayload * string;
  DecodePackets : string -> string + packetPayload * string;
  DecodeBurn : string -> string + burnPayload * string;
  More : string -> bool;
  RFC3339 : string -> option Time }.

(** ** Errors and warnings *)

Inductive Reason :=
  | BodyTooLarge | ReadError | MalformedJSON (detail_ : string) | TrailingContent
  | UnsupportedVersion (got : Z) | TooManyItems (n : nat) | NoReadings | NoUsableReadings
  | NoBurnLines | StagingFailed (line : string) | SinkOff | BadObserver (observer : string).

Inductive Warning :=
  | W_BadID (i : nat) | W_Duplicate (i : nat) | W_LineRequired (i : nat) | W_NotConfigured (i : nat)
  | W_Status (i : nat) | W_Confidence (i : nat) | W_ObservedAt (i : nat)
  | W_Packet (i : nat) (o : PacketOutcome) | W_MorePackets (n : nat).

(** ** State *)

(** [MeshNodeReport]. *)
Record MeshNodeReport := mkMeshNodeReport {
  nr_ReporterID : string; nr_Priority : Z; nr_PlaceIDs : list string; nr_Enumerates : bool;
  NodeID : string; nr_Name : string; nr_ReceivedAt : Time; nr_ReportedAt : Time;
  nr_LastAttempt : Time; nr_LastSuccess : Time; nr_Telemetry : option MeshAdminTelemetry }.

(** [reporter]: a nil error is [None]. *)
Record reporter := mkReporterState {
  r_cfg : Reporter; streams : gset string; lastAcceptedAt : Time; lastAttemptAt : Time;
  lastError : option Reason; reports : Z; lastAcceptedByStream : gmap string Time }.

(** [Registry]. [byTokenHash] holds positions in [order], for the pointers the
    two share. [mesh] is reporter, then node. *)
Record Registry := mkRegistry {
  cfg : IngestConfig; byTokenHash : gmap string nat; order : list reporter;
  missingTokens : list string; burn : bool; burnLines : gset string; burnHook : bool;
  mesh : gmap string (gmap string MeshNodeReport); packets : bool }.

Definition set_order (x : list reporter) (r : Registry) : Registry :=
  mkRegistry (cfg r) (byTokenHash r) x (missingTokens r) (burn r) (burnLines r) (burnHook r) (mesh r)
    (packets r).
Definition set_mesh (x : gmap string (gmap string MeshNodeReport)) (r : Registry) : Registry :=
  mkRegistry (cfg r) (byTokenHash r) (order r) (missingTokens r) (burn r) (burnLines r) (burnHook r) x
    (packets r).

Definition attempted (now : Time) (r : reporter) : reporter :=
  mkReporterState (r_cfg r) (streams r) (lastAcceptedAt r) now (lastError r) (reports r)
    (lastAcceptedByStream r).
Definition rejected (e : Reason) (r : reporter) : reporter :=
  mkReporterState (r_cfg r) (streams r) (lastAcceptedAt r) (lastAttemptAt r) (Some e) (reports r)
    (lastAcceptedByStream r).
(** An accepted report; [stamp] is the rate-limit stamp it leaves. *)
Definition accepted_at (now : Time) (stamp : gmap string Time -> gmap string Time) (r : reporter)
    : reporter :=
  mkReporterState (r_cfg r) (streams r) now (lastAttemptAt r) None (reports r + 1)
    (stamp (lastAcceptedByStream r)).

Section Push.
Context `{UnicodeLower} {PK : PushKernel}.
(** The packet sink. *)
Context {Sink : Type}.
Variable IngestEnvelope : string -> string -> string -> Sink -> PacketOutcome * Sink.

(** The memory of the process: the registry, the sink, the wake-ups of the burn
    poller. *)
Record Mem := mkMem { reg : Registry; sink : Sink; wakes : Z }.

Definition M := Tx.M BurnDB Mem.

Definition on_reg (f : Registry -> Registry) : M unit :=
  Tx.put_mem (fun m => mkMem (f (reg m)) (sink m) (wakes m)).
Definition on_reporter (i : nat) (f : reporter -> reporter) : M unit :=
  on_reg (fun r => set_order (alter f i (order r)) r).

(** ** Construction *)

Inductive ConfigError :=
  | EmptyReporterID | DuplicateReporter (id : string) | TwoHashes (id : string)
  | EmptyInjected (id : string) | NoTokenHash (id : string) | NoStreams (id : string)
  | HashLength (id : string) | HashNotHex (id : string) | SharedToken (id : string)
  | UnknownReporterHash.

(** [tokenHashFor]; "" is a token the deploy did not supply. *)
Definition tokenHashFor (rc : Reporter) (supplied : gmap string string) : ConfigError + string :=
  let committed := ToLower (TrimSpace (TokenSha256 rc)) in
  let ok := bool_decide (is_Some (supplied !! rc_ID rc)) in
  let injected := ToLower (TrimSpace (default "" (supplied !! rc_ID rc))) in
  if TokenSuppliedAtDeploy rc && negb (bool_decide (committed = "")) then inl (TwoHashes (rc_ID rc))
  else if ok && negb (bool_decide (committed = "")) then inl (TwoHashes (rc_ID rc))
  else if ok && bool_decide (injected = "") then inl (EmptyInjected (rc_ID rc))
  else if ok then inr injected
  else if bool_decide (committed = "") && TokenSuppliedAtDeploy rc then inr ""
  else if bool_decide (committed = "") then inl (NoTokenHash (rc_ID rc))
  else inr committed.

Definition set_token (h : string) (rc : Reporter) : Reporter :=
  mkReporter (rc_ID rc) (rc_Name rc) h (TokenSuppliedAtDeploy rc) (Streams rc) (StaleAfter rc)
    (MinInterval rc) (Priority rc) (PlaceIDs rc) (Enumerates rc).

Definition newReporter (rc : Reporter) : reporter :=
  mkReporterState rc (list_to_set (Streams rc)) time_zero time_zero None 0 ∅.

(** One round of the loop over the reporters. *)
Definition add_reporter (rc : Reporter) (seen : gset string) (r : Registry)
    : ConfigError + gset string * Registry :=
  if bool_decide (rc_ID rc = "") then inl EmptyReporterID
  else if bool_decide (rc_ID rc ∈ seen) then inl (DuplicateReporter (rc_ID rc))
  else
    let seen := {[rc_ID rc]} ∪ seen in
    match tokenHashFor rc (ReporterTokenSha256 (cfg r)) with
    | inl e => inl e
    | inr h =>
        let rc := set_token h rc in
        let appended := fun keys missing =>
          mkRegistry (cfg r) keys (order r ++ [newReporter rc]) missing (burn r) (burnLines r)
            (burnHook r) (mesh r) (packets r) in
        if Nat.eqb (length (Streams rc)) 0 then inl (NoStreams (rc_ID rc))
        else if bool_decide (h = "") then
          inr (seen, appended (byTokenHash r) (missingTokens r ++ [rc_ID rc]))
        else if negb (Nat.eqb (String.length h) 64) then inl (HashLength (rc_ID rc))
        else if negb (hex_ok h) then inl (HashNotHex (rc_ID rc))
        else if bool_decide (is_Some (byTokenHash r !! h)) then inl (SharedToken (rc_ID rc))
        else inr (seen, appended (<[h := length (order r)]> (byTokenHash r)) (missingTokens r))
    end.

Fixpoint add_reporters (rcs : list Reporter) (seen : gset string) (r : Registry)
    : ConfigError + gset string * Registry :=
  match rcs with
  | [] => inr (seen, r)
  | rc :: rcs =>
      match add_reporter rc seen r with
      | inl e => inl e
      | inr (seen, r) => add_reporters rcs seen r
      end
  end.

(** [WithBurnLines], [WithBurnAccepted]: the options, none when not given. *)
Record Options := mkOptions { opt_burn : option (list string); opt_hook : bool }.

Definition NewRegistry (c : IngestConfig) (o : Options) : ConfigError + Registry :=
  let lines := default [] (opt_burn o) in
  let r0 := mkRegistry c ∅ [] [] (negb (Nat.eqb (length lines) 0))
              (list_to_set ((fun id => ToLower (TrimSpace id)) <$> lines)) (opt_hook o) ∅ false in
  match add_reporters (Reporters c) ∅ r0 with
  | inl e => inl e
  | inr (seen, r) =>
      if bool_decide (dom (ReporterTokenSha256 c) ⊆ seen) then inr r else inl UnknownReporterHash
  end.

Definition SetPacketSink (r : Registry) : Registry :=
  mkRegistry (cfg r) (byTokenHash r) (order r) (missingTokens r) (burn r) (burnLines r) (burnHook r)
    (mesh r) true.

Definition Enabled (r : Registry) : bool := negb (bool_decide (byTokenHash r = ∅)).

(** ** Authentication *)

Definition TokenHash (token : string) : string := sha256_hex token.

Definition authenticate (r : Registry) (token : string) : option nat :=
  if bool_decide (token = "") then None
  else
    i ← byTokenHash r !! TokenHash token;
    rep ← order r !! i;
    if bool_decide (ToLower (TokenSha256 (r_cfg rep)) = TokenHash token) then Some i else None.

(** [bearerToken], of the Authorization header. *)
Definition bearer_prefix : string := "Bearer ".
Definition bearerToken (header : string) : string :=
  let n := String.length bearer_prefix in
  if (String.length header <=? n)%nat || negb (EqualFold (String.substring 0 n header) bearer_prefix)
  then "" else TrimSpace (String.substring n (String.length header - n) header).

(** ** Time *)

Definition clampPast (t now : Time) : Time :=
  if time_is_zero t then t else if time_after t now then now else t.
Definition unixOrZero (v : option Z) : Time :=
  match v with Some n => if n <=? 0 then time_zero else time_of_unix n | None => time_zero end.
Definition parseRFC3339 (s : string) : Time :=
  if bool_decide (s = "") then time_zero else default time_zero (RFC3339 s).

(** ** The mesh.repeater stream *)

Definition hasAnyMetric (x : meshRepeaterIn) : bool :=
  bool_decide (is_Some (BatteryVoltage x)) || bool_decide (is_Some (BatteryPercent x))
  || bool_decide (is_Some (TemperatureC x)) || bool_decide (is_Some (Humidity x))
  || bool_decide (is_Some (Pressure x)) || bool_decide (is_Some (UptimeS x))
  || bool_decide (is_Some (AirtimeMs x)) || bool_decide (is_Some (RxAirtimeMs x))
  || bool_decide (is_Some (NoiseFloorDBm x)) || bool_decide (is_Some (LastRSSIdBm x))
  || bool_decide (is_Some (LastSNRdB x)) || bool_decide (is_Some (TxQueueLen x))
  || bool_decide (is_Some (NbSent x)) || bool_decide (is_Some (NbRecv x)).

Definition stamp_of (t : Time) : option Time := if time_is_zero t then None else Some t.

Definition adminProto (x : meshRepeaterIn) (nr : MeshNodeReport) : MeshAdminTelemetry :=
  mkMeshAdminTelemetry (nr_ReporterID nr) (stamp_of (nr_ReportedAt nr)) (stamp_of (nr_LastSuccess nr))
    (stamp_of (nr_LastAttempt nr)) (BatteryVoltage x) (BatteryPercent x)
    (TrimSpace (BatteryPercentSource x)) (TemperatureC x) (Humidity x) (Pressure x) (NoiseFloorDBm x)
    (LastSNRdB x) (LastRSSIdBm x) (TxQueueLen x) (default 0 (UptimeS x)) (default 0 (AirtimeMs x))
    (default 0 (RxAirtimeMs x)) (default 0 (NbSent x)) (default 0 (NbRecv x)) (default 0 (SentFlood x))
    (default 0 (SentDirect x)) (default 0 (RecvFlood x)) (default 0 (RecvDirect x))
    (default 0 (DirectDups x)) (default 0 (FloodDups x)) (default 0 (FullEvts x))
    (default 0 (RecvErrors x)).

Definition with_telemetry (t : option MeshAdminTelemetry) (nr : MeshNodeReport) : MeshNodeReport :=
  mkMeshNodeReport (nr_ReporterID nr) (nr_Priority nr) (nr_PlaceIDs nr) (nr_Enumerates nr) (NodeID nr)
    (nr_Name nr) (nr_ReceivedAt nr) (nr_ReportedAt nr) (nr_LastAttempt nr) (nr_LastSuccess nr) t.

Definition node_report (rc : Reporter) (generatedAt now : Time) (id : string) (x : meshRepeaterIn)
    : MeshNodeReport :=
  let nr := mkMeshNodeReport (rc_ID rc) (Priority rc) (PlaceIDs rc) (Enumerates rc) id
    (TrimSpace (in_Name x)) now generatedAt (clampPast (unixOrZero (in_LastAttempt x)) now)
    (clampPast (unixOrZero (in_LastSuccess x)) now) None in
  if negb (time_is_zero (nr_LastSuccess nr)) && hasAnyMetric x
  then with_telemetry (Some (adminProto x nr)) nr else nr.

(** The loop over the repeaters: the set so far and the warnings. *)
Fixpoint mesh_set (rc : Reporter) (generatedAt now : Time) (i : nat) (l : list meshRepeaterIn)
    (set_ : gmap string MeshNodeReport) (ws : list Warning)
    : gmap string MeshNodeReport * list Warning :=
  match l with
  | [] => (set_, ws)
  | x :: l =>
      let id := ToLower (TrimSpace (in_ID x)) in
      if negb (ValidNodeID id) then mesh_set rc generatedAt now (S i) l set_ (ws ++ [W_BadID i])
      else if bool_decide (is_Some (set_ !! id)) then
        mesh_set rc generatedAt now (S i) l set_ (ws ++ [W_Duplicate i])
      else
        mesh_set rc generatedAt now (S i) l (<[id := node_report rc generatedAt now id x]> set_) ws
  end.

(** [decodeJSON]. *)
Definition decodeJSON {T} (d : string -> string + T * string) (body : string) : Reason + T :=
  match d body with
  | inl e => inl (MalformedJSON e)
  | inr (out, rest) => if More rest then inl TrailingContent else inr out
  end.

(** A stream handler's answer: the number accepted with the warnings. *)
Definition Outcome : Type := Reason + nat * list Warning.

Definition ingestMesh (i : nat) (rep : reporter) (body : string) (maxItems : Z) (now : Time) : M Outcome :=
  match decodeJSON DecodeMesh body with
  | inl e => Tx.ret (inl e)
  | inr p =>
      if negb (mp_SchemaVersion p =? meshSchemaVersion) then
        Tx.ret (inl (UnsupportedVersion (mp_SchemaVersion p)))
      else if maxItems <? Z.of_nat (length (Repeaters p)) then
        Tx.ret (inl (TooManyItems (length (Repeaters p))))
      else
        let generatedAt := clampPast (parseRFC3339 (mp_GeneratedAt p)) now in
        let x := mesh_set (r_cfg rep) generatedAt now 0 (Repeaters p) ∅ [] in
        on_reg (fun r => set_mesh (<[rc_ID (r_cfg rep) := x.1]> (mesh r)) r) ;;;
        on_reporter i (accepted_at now (insert MeshStream now)) ;;;
        Tx.ret (inr (size x.1, x.2))
  end.

(** ** The mesh.packet stream *)

Definition packetSourcePrefix : string := "reporter:".
Definition PacketSource (reporterID : string) : string := packetSourcePrefix +:+ reporterID.
Definition ReporterFromPacketSource (source : string) : string * bool :=
  if HasPrefix source packetSourcePrefix then (TrimPrefix source packetSourcePrefix, true) else ("", false).

Record PacketTally := mkTally { t_accepted : nat; t_dropped : nat; t_warnings : list Warning }.

Definition tally (i : nat) (o : PacketOutcome) (t : PacketTally) : PacketTally :=
  match o with
  | PacketAccepted => mkTally (S (t_accepted t)) (t_dropped t) (t_warnings t)
  | PacketIgnored => t
  | PacketMalformed | PacketRejected =>
      mkTally (t_accepted t) (S (t_dropped t))
        (if (length (t_warnings t) <? maxPacketWarnings)%nat then t_warnings t ++ [W_Packet i o]
         else t_warnings t)
  end.

Fixpoint feed (source gateway : string) (i : nat) (l : list string) (t : PacketTally) (s : Sink)
    : PacketTally * Sink :=
  match l with
  | [] => (t, s)
  | pk :: l => let '(o, s) := IngestEnvelope pk source gateway s in feed source gateway (S i) l (tally i o t) s
  end.

Definition ingestPackets (i : nat) (rep : reporter) (body : string) (maxItems : Z) (now : Time) : M Outcome :=
  m <-- Tx.get_mem ;;
  if negb (packets (reg m)) then Tx.ret (inl SinkOff)
  else
    match decodeJSON DecodePackets body with
    | inl e => Tx.ret (inl e)
    | inr p =>
        if negb (pp_SchemaVersion p =? packetSchemaVersion) then
          Tx.ret (inl (UnsupportedVersion (pp_SchemaVersion p)))
        else if maxItems <? Z.of_nat (length (Packets p)) then
          Tx.ret (inl (TooManyItems (length (Packets p))))
        else
          let observer := ToLower (TrimSpace (Observer p)) in
          if negb (bool_decide (observer = "")) && negb (ValidNodeID observer) then
            Tx.ret (inl (BadObserver (Observer p)))
          else
            let gateway := if bool_decide (observer = "") then rc_ID (r_cfg rep) else observer in
            let x := feed (PacketSource (rc_ID (r_cfg rep))) gateway 0 (Packets p) (mkTally 0 0 []) (sink m) in
            let ws := if (maxPacketWarnings <? t_dropped x.1)%nat
                      then t_warnings x.1 ++ [W_MorePackets (t_dropped x.1 - maxPacketWarnings)]
                      else t_warnings x.1 in
            Tx.put_mem (fun m => mkMem (reg m) x.2 (wakes m)) ;;;
            on_reporter i (accepted_at now (insert MeshPacketStream now)) ;;;
            Tx.ret (inr (t_accepted x.1, ws))
    end.

(** ** The burn.line stream *)

(** The checks of one reading, in their order: a warning, or the reading to
    stage. *)
Definition check_reading (lines : gset string) (reporterID : string) (now : Time) (i : nat)
    (seen : gset string) (x : burnReadingIn) : Warning + BurnReading :=
  let lineID := ToLower (TrimSpace (br_LineID x)) in
  let status := ToLower (TrimSpace (br_Status x)) in
  let observed := parseRFC3339 (br_ObservedAt x) in
  if bool_decide (lineID = "") then inl (W_LineRequired i)
  else if bool_decide (lineID ∉ lines) then inl (W_NotConfigured i)
  else if bool_decide (lineID ∈ seen) then inl (W_Duplicate i)
  else if bool_decide (status ∉ ["green"; "red"; "orange"]) then inl (W_Status i)
  else if (br_Confidence x <? 0) || (100 <? br_Confidence x) then inl (W_Confidence i)
  else if time_is_zero observed then inl (W_ObservedAt i)
  else inr (mkBurnReading lineID status (TrimSpace (br_Message x)) (TrimSpace (br_Transcript x))
              (br_Confidence x) (clampPast observed now) now reporterID).

Fixpoint stage (lines : gset string) (reporterID : string) (now : Time) (i : nat) (l : list burnReadingIn)
    (seen : gset string) (accepted : nat) (ws : list Warning) : M Outcome :=
  match l with
  | [] => Tx.ret (if Nat.eqb accepted 0 then inl NoUsableReadings else inr (accepted, ws))
  | x :: l =>
      match check_reading lines reporterID now i seen x with
      | inl w => stage lines reporterID now (S i) l seen accepted (ws ++ [w])
      | inr rd =>
          put <-- Tx.try (PutBurnReading now rd) ;;
          match put with
          | inl _ => Tx.ret (inl (StagingFailed (LineID rd)))
          | inr _ => stage lines reporterID now (S i) l ({[LineID rd]} ∪ seen) (S accepted) ws
          end
      end
  end.

Definition ingestBurn (i : nat) (rep : reporter) (body : string) (maxItems : Z) (now : Time) : M Outcome :=
  m <-- Tx.get_mem ;;
  if negb (burn (reg m)) || bool_decide (burnLines (reg m) = ∅) then Tx.ret (inl NoBurnLines)
  else
    match decodeJSON DecodeBurn body with
    | inl e => Tx.ret (inl e)
    | inr p =>
        if negb (bp_SchemaVersion p =? burnSchemaVersion) then
          Tx.ret (inl (UnsupportedVersion (bp_SchemaVersion p)))
        else if maxItems <? Z.of_nat (length (Readings p)) then
          Tx.ret (inl (TooManyItems (length (Readings p))))
        else if Nat.eqb (length (Readings p)) 0 then Tx.ret (inl NoReadings)
        else
          o <-- stage (burnLines (reg m)) (rc_ID (r_cfg rep)) now 0 (Readings p) ∅ 0 [] ;;
          match o with
          | inl e => Tx.ret (inl e)
          | inr x =>
              on_reporter i (accepted_at now (fun stamps => stamps)) ;;;
              (if burnHook (reg m) then Tx.put_mem (fun m => mkMem (reg m) (sink m) (wakes m + 1))
               else Tx.ret tt) ;;;
              Tx.ret (inr x)
          end
    end.

(** [RestoreBurnHealth]: the rows in any order, since only the latest counts. *)
Definition restore_row (granted : list nat) (row : BurnReading) (l : list reporter) : list reporter :=
  let named := fun i => match l !! i with
                        | Some rep => bool_decide (rc_ID (r_cfg rep) = Burn.ReporterID row)
                        | None => false
                        end in
  let target := if bool_decide (Burn.ReporterID row = "") && Nat.eqb (length granted) 1
                then head granted else last (filter (fun i => named i = true) granted) in
  match target with
  | None => l
  | Some i =>
      alter (fun rep =>
        if time_after (Burn.ReceivedAt row) (lastAcceptedAt rep)
        then mkReporterState (r_cfg rep) (streams rep) (Burn.ReceivedAt row) (lastAttemptAt rep)
               (lastError rep) (reports rep) (lastAcceptedByStream rep)
        else rep) i l
  end.

Definition granted_to (stream : string) (l : list reporter) : list nat :=
  filter (fun i => match l !! i with
                   | Some rep => bool_decide (stream ∈ streams rep)
                   | None => false
                   end = true) (seq 0 (length l)).

Definition RestoreBurnHealth : M unit :=
  m <-- Tx.get_mem ;;
  if negb (burn (reg m)) then Tx.ret tt
  else
    rows <-- BurnReadings ;;
    on_reg (fun r => set_order (foldr (fun x l => restore_row (granted_to BurnStream (order r)) x.2 l)
                                  (order r) (map_to_list rows)) r).

(** ** The handler *)

Inductive Handler := HMesh | HPackets | HBurn.

Definition dispatch (stream : string) : option Handler :=
  if bool_decide (stream = MeshStream) then Some HMesh
  else if bool_decide (stream = MeshPacketStream) then Some HPackets
  else if bool_decide (stream = BurnStream) then Some HBurn
  else None.

Definition run_handler (h : Handler) : nat -> reporter -> string -> Z -> Time -> M Outcome :=
  match h with HMesh => ingestMesh | HPackets => ingestPackets | HBurn => ingestBurn end.

(** A request: the body as it can be read, [None] when reading it fails;
    [rq_at] and [rq_handled] are the two readings of the clock. *)
Record Request := mkRequest {
  rq_method : string; rq_authorization : string; rq_preflight : string; rq_body : option string;
  rq_at : Time; rq_handled : Time }.

(** The status codes of the answers, with what their body tells. *)
Inductive Response :=
  | R202 (accepted : nat) (warnings : list Warning) (receivedAt : Time)
  | R204 | R400 (e : Reason) | R401 | R403 | R404 | R405 | R413 | R429 (retryAfter : Z).

Definition recordFailure (i : nat) (e : Reason) : M unit := on_reporter i (rejected e).

(** After the rate limit: the body and the stream's handler. *)
Definition consume (i : nat) (rep : reporter) (h : Handler) (q : Request) : M Response :=
  m <-- Tx.get_mem ;;
  match rq_body q with
  | None => recordFailure i ReadError ;;; Tx.ret (R400 ReadError)
  | Some body =>
      if MaxBodyBytesOrDefault (cfg (reg m)) <? Z.of_nat (String.length body) then
        recordFailure i BodyTooLarge ;;; Tx.ret R413
      else
        o <-- run_handler h i rep body (MaxItemsOrDefault (cfg (reg m))) (rq_handled q) ;;
        match o with
        | inl e => recordFailure i e ;;; Tx.ret (R400 e)
        | inr x => Tx.ret (R202 x.1 x.2 (rq_at q))
        end
  end.

Definition tooSoon (rep : reporter) (stream : string) (now : Time) : bool :=
  let last := default time_zero (lastAcceptedByStream rep !! stream) in
  negb (time_is_zero last) && (time_sub now last <? MinIntervalOrDefault (r_cfg rep)).

(** int(d.Seconds()) + 1, of what is left of the interval. *)
Definition retry_after (rep : reporter) (stream : string) (now : Time) : Z :=
  let last := default time_zero (lastAcceptedByStream rep !! stream) in
  trunc (Seconds (MinIntervalOrDefault (r_cfg rep) - time_sub now last)) + 1.

Definition ServeStream (q : Request) (stream : string) : M Response :=
  if negb (bool_decide (rq_method q = "POST")) then Tx.ret R405
  else
    m <-- Tx.get_mem ;;
    match authenticate (reg m) (bearerToken (rq_authorization q)) with
    | None => Tx.ret R401
    | Some i =>
        match dispatch stream, order (reg m) !! i with
        | None, _ | _, None => Tx.ret R404
        | Some h, Some rep =>
            if negb (bool_decide (stream ∈ streams rep)) then Tx.ret R403
            else if bool_decide (rq_preflight q = "true") then Tx.ret R204
            else
              on_reporter i (attempted (rq_at q)) ;;;
              if tooSoon rep stream (rq_at q) then Tx.ret (R429 (retry_after rep stream (rq_at q)))
              else consume i rep h q
        end
    end.

(** ** Health *)

Inductive ReporterState := ReporterUnknown | ReporterOK | ReporterStale | ReporterDead.

Definition health_state (rep : reporter) (now : Time) : ReporterState :=
  if time_is_zero (lastAcceptedAt rep) then ReporterUnknown
  else if time_sub now (lastAcceptedAt rep) <=? StaleAfterOrDefault (r_cfg rep) then ReporterOK
  else if time_sub now (lastAcceptedAt rep) <=? StaleAfterOrDefault (r_cfg rep) * reporterDeadMultiple
  then ReporterStale else ReporterDead.

Record ReporterHealth := mkReporterHealth {
  h_ID : string; h_Name : string; h_State : ReporterState; LastAcceptedAt : Time; LastAttemptAt : Time;
  h_LastError : option Reason; h_Reports : Z }.

Definition healthLocked (rep : reporter) (now : Time) : ReporterHealth :=
  mkReporterHealth (rc_ID (r_cfg rep)) (rc_Name (r_cfg rep)) (health_state rep now) (lastAcceptedAt rep)
    (lastAttemptAt rep) (lastError rep) (reports rep).

Definition Health (r : Registry) (stream : string) (now : Time) : list ReporterHealth :=
  (fun rep => healthLocked rep now) <$> filter (fun rep => stream ∈ streams rep) (order r).

Definition ReporterIDs (r : Registry) (stream : string) : list string :=
  (fun rep => rc_ID (r_cfg rep)) <$> filter (fun rep => stream ∈ streams rep) (order r).

(** [MeshSnapshot]: the reports of a reporter in no particular order. *)
Record MeshSnapshot := mkMeshSnapshot {
  Reports : list MeshNodeReport; sn_Reporters : list ReporterHealth; SuppressSweep : bool;
  MonitorSilent : bool; Live : nat; PacketReporters : list ReporterHealth; PacketLive : nat }.

Definition note_monitor (r : Registry) (now : Time) (rep : reporter) (s : MeshSnapshot) : MeshSnapshot :=
  if bool_decide (MeshStream ∉ streams rep) then s
  else
    let h := healthLocked rep now in
    let ok := match h_State h with ReporterOK => true | _ => false end in
    mkMeshSnapshot
      (if ok then Reports s ++ (map_to_list (default ∅ (mesh r !! rc_ID (r_cfg rep)))).*2 else Reports s)
      (sn_Reporters s ++ [h]) (SuppressSweep s)
      (match h_State h with ReporterStale | ReporterUnknown => true | _ => MonitorSilent s end)
      (if ok then S (Live s) else Live s) (PacketReporters s) (PacketLive s).

Definition note_forwarder (now : Time) (rep : reporter) (s : MeshSnapshot) : MeshSnapshot :=
  if bool_decide (MeshPacketStream ∉ streams rep) then s
  else
    let h := healthLocked rep now in
    mkMeshSnapshot (Reports s) (sn_Reporters s)
      (match h_State h with ReporterStale => true | _ => SuppressSweep s end) (MonitorSilent s) (Live s)
      (PacketReporters s ++ [h])
      (match h_State h with ReporterOK => S (PacketLive s) | _ => PacketLive s end).

Definition MeshReports (r : Registry) (now : Time) : MeshSnapshot :=
  foldl (fun s rep => note_forwarder now rep (note_monitor r now rep s))
    (mkMeshSnapshot [] [] false false 0 [] 0) (order r).

End Push.
End Push.
