(* ===== verification/PushSpec.v ===== *)
(** * The push endpoint's guarantees

    One request as a change of one reporter's record ([answered]), and what
    follows: isolation of reporters, in the registry and outside it ([framed]), the
    rate limit, the replacement of a reporter's mesh set, and the registry's
    invariant. *)

From S2P Require Import Prelude Float64 GridEvent GoText MeshFrame Tx BurnStore PushIngest.

Module PushSpec.
Import F64 Grid Text Burn Push.
Import Frame(PacketOutcome, PacketOutcome(..)).
Open Scope tx_scope.

Section Spec.
Context `{UnicodeLower} {PK : PushKernel}.
Context {Sink : Type}.
Variable IngestEnvelope : string -> string -> string -> Sink -> PacketOutcome * Sink.

Abbreviation Mem := (@Mem Sink).
Abbreviation St := (Tx.St BurnDB Mem).
Abbreviation Serve := (ServeStream IngestEnvelope).

(** ** Programs that never fail *)

Definition total {A} (m : @M Sink A) : Prop := forall s, exists a s', m s = (inr a, s').

Lemma total_ret {A} (a : A) : total (Tx.ret a).
Proof. intros s. by exists a, s. Qed.
Lemma total_get_mem : total Tx.get_mem.
Proof. intros s. by eexists _, s. Qed.
Lemma total_put_mem f : total (Tx.put_mem f).
Proof. intros s. by eexists _, _. Qed.
Lemma total_bind {A B} (m : @M Sink A) (f : A -> @M Sink B) :
  total m -> (forall a, total (f a)) -> total (Tx.bind m f).
Proof.
  intros Hm Hf s. unfold Tx.bind. destruct (Hm s) as (a & s1 & ->). apply Hf.
Qed.
Lemma total_try {A} (m : @M Sink A) : total (Tx.try m).
Proof. intros s. unfold Tx.try. destruct (m s). by eexists _, _. Qed.

Hint Resolve total_ret total_get_mem total_put_mem total_bind total_try : grid.

Ltac total_tac :=
  repeat lazymatch goal with
  | |- total (Tx.bind _ _) => apply total_bind; [|intros ?]
  | |- total (Tx.ret _) => apply total_ret
  | |- total Tx.get_mem => apply total_get_mem
  | |- total (Tx.put_mem _) => apply total_put_mem
  | |- total (on_reporter _ _) => apply total_put_mem
  | |- total (on_reg _) => apply total_put_mem
  | |- total (Tx.try _) => apply total_try
  | |- _ => case_match
  end.

Lemma total_stage lines id now i l seen n ws : total (stage lines id now i l seen n ws).
Proof.
  revert i seen n ws. induction l as [|x l IH]; intros i seen n ws; cbn; [apply total_ret|].
  destruct (check_reading _ _ _ _ _ _); [apply IH|]. apply total_bind; [apply total_try|].
  intros []; [apply total_ret|apply IH].
Qed.

Lemma total_handler h i rep body k now : total (run_handler IngestEnvelope h i rep body k now).
Proof.
  destruct h; cbn; unfold ingestMesh, ingestPackets, ingestBurn; total_tac. apply total_stage.
Qed.

Lemma total_serve q stream : total (Serve q stream).
Proof. unfold ServeStream, consume, recordFailure. total_tac. apply total_handler. Qed.

(** ** One request *)

(** What acceptance does to the rate-limit stamps: burn.line leaves none. *)
Definition restamp (h : Handler) (now : Time) : gmap string Time -> gmap string Time :=
  match h with
  | HMesh => insert MeshStream now
  | HPackets => insert MeshPacketStream now
  | HBurn => fun stamps => stamps
  end.

(** What a handler leaves of the registry. *)
Definition handled (h : Handler) (i : nat) (rep : reporter) (now : Time) (o : Outcome) (r r' : Registry)
    : Prop :=
  match o with
  | inl _ => r' = r
  | inr _ => exists ms, r' = set_order (alter (accepted_at now (restamp h now)) i (order r)) (set_mesh ms r)
      /\ (ms = mesh r \/ h = HMesh /\ exists x, ms = <[rc_ID (r_cfg rep) := x]> (mesh r))
  end.

Lemma set_mesh_same r : set_mesh (mesh r) r = r.
Proof. by destruct r. Qed.

Lemma keeps_stage lines id now i l seen n ws (m : Mem) :
  Tx.keeps (stage lines id now i l seen n ws) (fun _ c => c = m).
Proof.
  revert i seen n ws. induction l as [|x l IH]; intros i seen n ws; cbn; [apply Tx.keeps_ret|].
  destruct (check_reading _ _ _ _ _ _); [apply IH|]. apply Tx.keeps_bind.
  - intros s r s' Hm. unfold Tx.try. destruct (PutBurnReading _ _ s) as [x1 s1] eqn:E. intros [= _ <-].
    apply PutBurnReading_run in E as [-> _]. done.
  - intros []; [apply Tx.keeps_ret|apply IH].
Qed.

Lemma wp_stage lines id now i l seen n ws d (m : Mem) :
  Tx.wp (stage lines id now i l seen n ws) (fun _ _ m' => m' = m) d m.
Proof. intros p a s' Hs. by eapply (keeps_stage _ _ _ _ _ _ _ _ m _ _ _ _ Hs). Unshelve. done. Qed.

Lemma handler_wp h i rep body k now d m :
  Tx.wp (run_handler IngestEnvelope h i rep body k now)
    (fun o _ m' => handled h i rep now o (reg m) (reg m')) d m.
Proof.
  destruct h; cbn [run_handler].
  - unfold ingestMesh, on_reporter, on_reg. destruct (decodeJSON _ _) as [e|p]; [by wp_step|].
    destruct (negb _); [by wp_step|]. destruct (_ <? _); [by wp_step|]. do 5 wp_step.
    eexists. split; [done|]. right. eauto.
  - unfold ingestPackets, on_reporter, on_reg. wp_step. wp_step. destruct (negb _); [by wp_step|].
    destruct (decodeJSON _ _) as [e|p]; [by wp_step|]. destruct (negb _); [by wp_step|].
    destruct (_ <? _); [by wp_step|]. destruct (negb _ && _); [by wp_step|]. do 5 wp_step.
    exists (mesh (reg m)).
    rewrite set_mesh_same. auto.
  - unfold ingestBurn, on_reporter, on_reg. wp_step. wp_step. destruct (negb _ || _); [by wp_step|].
    destruct (decodeJSON _ _) as [e|p]; [by wp_step|]. destruct (negb _); [by wp_step|].
    destruct (_ <? _); [by wp_step|]. destruct (Nat.eqb _ _); [by wp_step|].
    wp_step. eapply Tx.wp_mono; [|apply (wp_stage _ _ _ _ _ _ _ _ d m)]. intros [e|x] d' m' ->; [by wp_step|].
    wp_step. wp_step. wp_step. destruct (burnHook _); wp_step; wp_step; exists (mesh (reg m));
      rewrite set_mesh_same; auto.
Qed.

(** The record of the reporter after an answer. *)
Inductive answer (q : Request) (stream : string) (h : Handler) (rep : reporter) : Response -> reporter -> Prop :=
  | an_429 n : tooSoon rep stream (rq_at q) = true -> answer q stream h rep (R429 n) (attempted (rq_at q) rep)
  | an_400 e : tooSoon rep stream (rq_at q) = false ->
      answer q stream h rep (R400 e) (rejected e (attempted (rq_at q) rep))
  | an_413 : tooSoon rep stream (rq_at q) = false ->
      answer q stream h rep R413 (rejected BodyTooLarge (attempted (rq_at q) rep))
  | an_202 n ws : tooSoon rep stream (rq_at q) = false ->
      answer q stream h rep (R202 n ws (rq_at q))
        (accepted_at (rq_handled q) (restamp h (rq_handled q)) (attempted (rq_at q) rep)).

Definition is_202 (x : Response) : bool := match x with R202 _ _ _ => true | _ => false end.

(** What an answer leaves of the registry. *)
Definition leaves (q : Request) (stream : string) (h : Handler) (i : nat) (rep : reporter)
    (r : Registry) (x : Response) (r' : Registry) : Prop :=
  exists rep' ms, answer q stream h rep x rep'
    /\ r' = set_order (<[i := rep']> (order r)) (set_mesh ms r)
    /\ (ms = mesh r
        \/ h = HMesh /\ is_202 x = true /\ exists y, ms = <[rc_ID (r_cfg rep) := y]> (mesh r)).

(** A request whose credential and grant are good. *)
Definition answered (q : Request) (stream : string) (r : Registry) (x : Response) (r' : Registry) : Prop :=
  exists i rep h, authenticate r (bearerToken (rq_authorization q)) = Some i /\ order r !! i = Some rep
    /\ dispatch stream = Some h /\ stream ∈ streams rep /\ leaves q stream h i rep r x r'.

Lemma alter_some {A} (f : A -> A) (l : list A) i a : l !! i = Some a -> alter f i l = <[i := f a]> l.
Proof.
  intros Ha. apply list_eq. intros j. destruct (decide (i = j)) as [<-|Hij].
  - rewrite list_lookup_alter_eq, list_lookup_insert_eq; [by rewrite Ha|]. by eapply lookup_lt_Some.
  - by rewrite list_lookup_alter_ne, list_lookup_insert_ne by done.
Qed.

Lemma consume_wp i rep h q stream d (m : Mem) r0 :
  reg m = set_order (<[i := attempted (rq_at q) rep]> (order r0)) r0 ->
  order r0 !! i = Some rep -> tooSoon rep stream (rq_at q) = false ->
  Tx.wp (consume IngestEnvelope i rep h q)
    (fun x _ m' => leaves q stream h i rep r0 x (reg m')) d m.
Proof.
  intros Hm Hi Hsoon. unfold consume, recordFailure. wp_step. wp_step.
  assert (Hlook : order (reg m) !! i = Some (attempted (rq_at q) rep)).
  { rewrite Hm. cbn. apply list_lookup_insert_eq. by eapply lookup_lt_Some. }
  assert (Hset : forall f ms r', r' = set_order (alter f i (order (reg m))) (set_mesh ms (reg m)) ->
    r' = set_order (<[i := f (attempted (rq_at q) rep)]> (order r0)) (set_mesh ms r0)).
  { intros f ms r' ->. rewrite (alter_some _ _ _ _ Hlook), Hm. cbn. by rewrite list_insert_insert_eq. }
  assert (Hfail : forall e x d1 (m1 : Mem), reg m1 = reg m ->
    answer q stream h rep x (rejected e (attempted (rq_at q) rep)) ->
    Tx.wp (on_reporter i (rejected e) ;;; Tx.ret x : @M Sink Response)
      (fun x _ m' => leaves q stream h i rep r0 x (reg m')) d1 m1).
  { intros e x d1 m1 Hm1 Hx. unfold on_reporter, on_reg. do 3 wp_step. exists (rejected e (attempted (rq_at q) rep)), (mesh r0).
    split_and!; [done| |by left]. apply Hset. cbn. rewrite Hm1. f_equal. by rewrite Hm; destruct r0. }
  destruct (rq_body q) as [body|]; [|apply Hfail; [done|by constructor]].
  destruct (_ <? _); [apply Hfail; [done|by constructor]|]. wp_step.
  eapply Tx.wp_mono; [|apply handler_wp]. intros [e|x] d' m' Hh; [apply Hfail; [done|by constructor]|].
  wp_step. destruct Hh as (ms & Hr & Hms).
  exists (accepted_at (rq_handled q) (restamp h (rq_handled q)) (attempted (rq_at q) rep)), ms.
  split_and!; [by constructor|by apply Hset|]. rewrite Hm in Hms. cbn in Hms.
  destruct Hms as [->|(-> & y & ->)]; [by left|right; eauto].
Qed.

(** Every run of the handler: a refusal that changes nothing, or an answer. *)
Lemma request_cases q stream s :
  exists x s', Serve q stream s = (inr x, s')
    /\ ((s' = s /\ x ∈ [R401; R403; R404; R405; R204])
        \/ answered q stream (reg (Tx.mem s)) x (reg (Tx.mem s'))).
Proof.
  destruct (total_serve q stream s) as (x & s' & Hrun). exists x, s'. split; [done|]. revert Hrun.
  unfold ServeStream. destruct (negb _); [intros [= <- <-]; left; split; [done|set_solver]|].
  unfold Tx.bind at 1. cbn [Tx.get_mem]. set (r := reg (Tx.mem s)).
  destruct (authenticate _ _) as [i|] eqn:Ha; [|intros [= <- <-]; left; split; [done|set_solver]].
  destruct (dispatch stream) as [h|] eqn:Hd, (order r !! i) as [rep|] eqn:Hi;
    try (intros [= <- <-]; left; split; [done|set_solver]).
  destruct (negb _) eqn:Hg; [intros [= <- <-]; left; split; [done|set_solver]|].
  apply negb_false_iff, bool_decide_eq_true in Hg.
  case_bool_decide; [intros [= <- <-]; left; split; [done|set_solver]|].
  intros Hrun. right. exists i, rep, h. split_and!; [done..|].
  unfold on_reporter, on_reg, Tx.bind at 1 in Hrun. cbn [Tx.put_mem] in Hrun.
  set (m1 := mkMem _ _ _) in Hrun.
  assert (Hm1 : reg m1 = set_order (<[i := attempted (rq_at q) rep]> (order r)) r).
  { cbn. by rewrite (alter_some _ _ _ _ Hi). }
  destruct (tooSoon rep stream (rq_at q)) eqn:Hs.
  - injection Hrun as <- <-. exists (attempted (rq_at q) rep), (mesh r).
    split_and!; [by constructor|rewrite set_mesh_same; exact Hm1|by left].
  - exact (Tx.wp_use _ _ _ _ _ (consume_wp i rep h q stream _ _ r Hm1 Hi Hs) Hrun).
Qed.

(** ** What lies outside the registry *)

(** A line of [d'] is as in [d], or holds a reading that reporter [id] brought for
    one of [lines], not older than the one that was there. *)
Definition staged_by (lines : gset string) (id : string) (d d' : BurnDB) : Prop := forall line,
  d' !! line = d !! line
  \/ exists row l, d' !! line = Some row /\ b_reporter_id row = id /\ l ∈ lines /\ line = ToLower l
       /\ forall old, d !! line = Some old -> b_observed_at old <= b_observed_at row.

#[export] Instance staged_by_preorder lines id : PreOrder (staged_by lines id).
Proof.
  split; [intros d line; by left|]. intros d1 d2 d3 H1 H2 line. destruct (H2 line) as [->|(row & l & Hr & Hid & Hl & -> & Hold)]; [apply H1|].
  right. exists row, l. split_and!; [done..|]. intros old Ho. destruct (H1 (ToLower l)) as [He|(row1 & _ & Hr1 & _ & _ & _ & Hold1)].
  - apply Hold. by rewrite He.
  - transitivity (b_observed_at row1); [by apply Hold1|by apply Hold].
Qed.

Lemma staged_upsert lines id line row d :
  line ∈ lines -> b_reporter_id row = id -> staged_by lines id d (upsert_reading (ToLower line) row d).
Proof.
  intros Hl Hid k. rewrite upsert_reading_lookup. destruct (decide (ToLower line = k)) as [<-|]; [|by left].
  destruct (d !! ToLower line) as [old|]; [destruct (Z.leb_spec (b_observed_at old) (b_observed_at row)) as [Hle|]; [|by left]|];
    right; exists row, line; (split_and!; [done..|]); [by intros ? [= <-]|done].
Qed.

Lemma check_reading_line lines id now i seen x rd :
  check_reading lines id now i seen x = inr rd -> LineID rd ∈ lines /\ Burn.ReporterID rd = id.
Proof. unfold check_reading. repeat case_bool_decide; repeat case_match; try done; intros [= <-]; split; [|done]; cbn; set_solver. Qed.

Lemma stage_staged lines id now i l seen n ws d m :
  Tx.wp (stage (Sink := Sink) lines id now i l seen n ws) (fun _ d' m' => staged_by lines id d d' /\ m' = m) d m.
Proof.
  revert i seen n ws d. induction l as [|x l IH]; intros i seen n ws d; cbn [stage]; [by wp_step|].
  destruct (check_reading _ _ _ _ _ _) as [w|rd] eqn:Hc; [apply IH|]. apply check_reading_line in Hc as [Hl Hid].
  wp_step. apply Tx.wp_try. intros s r s' <- <- Hrun. apply PutBurnReading_run in Hrun as [-> Hrun].
  destruct r as [e|[]]; [rewrite Hrun; by wp_step|]. destruct Hrun as (_ & _ & ->).
  eapply Tx.wp_mono; [|apply IH]. intros _ d' m' [Hd ->]. split; [|done]. etrans; [|exact Hd]. by apply staged_upsert.
Qed.

(** What a request may do to the staged readings, the packet sink and the wakes
    of the burn poller. *)
Definition framed (h : Handler) (rep : reporter) (ok : bool) (d : BurnDB) (m : Mem) (d' : BurnDB) (m' : Mem) : Prop :=
  (d' = d \/ h = HBurn /\ staged_by (burnLines (reg m)) (rc_ID (r_cfg rep)) d d')
  /\ (sink m' = sink m \/ h = HPackets /\ ok = true /\ exists gateway pks,
        (gateway = rc_ID (r_cfg rep) \/ ValidNodeID gateway = true)
        /\ sink m' = (feed IngestEnvelope (PacketSource (rc_ID (r_cfg rep))) gateway 0 pks (mkTally 0 0 []) (sink m)).2)
  /\ (wakes m' = wakes m \/ h = HBurn /\ ok = true /\ wakes m' = wakes m + 1).

Definition is_ok (o : Outcome) : bool := match o with inl _ => false | inr _ => true end.

Lemma framed_same h rep ok d m m' : sink m' = sink m -> wakes m' = wakes m -> framed h rep ok d m d m'.
Proof. intros ? ?. unfold framed. split_and!; by left. Qed.

Lemma handler_framed h i rep body k now d m :
  Tx.wp (run_handler IngestEnvelope h i rep body k now) (fun o d' m' => framed h rep (is_ok o) d m d' m') d m.
Proof.
  destruct h; cbn [run_handler].
  - unfold ingestMesh, on_reporter, on_reg. repeat case_match; repeat wp_step; by apply framed_same.
  - unfold ingestPackets, on_reporter, on_reg. wp_step. wp_step. destruct (negb _); [wp_step; by apply framed_same|].
    destruct (decodeJSON _ _) as [e|p]; [wp_step; by apply framed_same|]. destruct (negb _); [wp_step; by apply framed_same|].
    destruct (_ <? _); [wp_step; by apply framed_same|]. destruct (negb _ && _) eqn:Ho; [wp_step; by apply framed_same|].
    do 5 wp_step. split_and!; [by left| |by left]. right. split_and!; [done..|].
    eexists _, _. split; [|reflexivity]. case_bool_decide; [by left|]. right. cbn in Ho. by apply negb_false_iff in Ho.
  - unfold ingestBurn, on_reporter, on_reg. wp_step. wp_step. destruct (negb _ || _); [wp_step; by apply framed_same|].
    destruct (decodeJSON _ _) as [e|p]; [wp_step; by apply framed_same|]. destruct (negb _); [wp_step; by apply framed_same|].
    destruct (_ <? _); [wp_step; by apply framed_same|]. destruct (Nat.eqb _ _); [wp_step; by apply framed_same|].
    wp_step. eapply Tx.wp_mono; [|apply stage_staged]. intros [e|x] d' m' [Hd ->].
    + wp_step. split_and!; [by right|by left|by left].
    + wp_step. wp_step. wp_step. destruct (burnHook _); wp_step; wp_step; (split_and!; [by right|by left|]); [by right|by left].
Qed.

Lemma consume_framed i rep h q d (m : Mem) :
  Tx.wp (consume IngestEnvelope i rep h q) (fun x d' m' => framed h rep (is_202 x) d m d' m') d m.
Proof.
  unfold consume, recordFailure, on_reporter, on_reg. wp_step. wp_step. destruct (rq_body q) as [body|]; [|do 3 wp_step; by apply framed_same].
  destruct (_ <? _); [do 3 wp_step; by apply framed_same|]. wp_step. eapply Tx.wp_mono; [|apply handler_framed].
  intros [e|x] d' m' Hf; [do 3 wp_step|wp_step]; exact Hf.
Qed.

Lemma serve_framed q stream s x s' i rep :
  Serve q stream s = (inr x, s') -> authenticate (reg (Tx.mem s)) (bearerToken (rq_authorization q)) = Some i ->
  order (reg (Tx.mem s)) !! i = Some rep ->
  s' = s \/ exists h, dispatch stream = Some h /\ framed h rep (is_202 x) (Tx.db s) (Tx.mem s) (Tx.db s') (Tx.mem s').
Proof.
  unfold ServeStream. destruct (negb _); [intros [= _ <-]; by left|]. unfold Tx.bind at 1. cbn [Tx.get_mem]. intros Hrun Hau Hi.
  rewrite Hau, Hi in Hrun. destruct (dispatch stream) as [h|]; [|injection Hrun as _ <-; by left].
  destruct (negb _); [injection Hrun as _ <-; by left|]. case_bool_decide; [injection Hrun as _ <-; by left|].
  right. exists h. split; [done|]. unfold on_reporter, on_reg, Tx.bind at 1 in Hrun. cbn [Tx.put_mem] in Hrun.
  destruct (tooSoon _ _ _); [injection Hrun as <- <-; by apply framed_same|].
  exact (Tx.wp_use _ _ _ _ _ (consume_framed i rep h q _ _) Hrun).
Qed.

(** ** Isolation *)

Lemma dispatch_stream stream h :
  dispatch stream = Some h ->
  stream = match h with HMesh => MeshStream | HPackets => MeshPacketStream | HBurn => BurnStream end.
Proof. unfold dispatch. repeat case_bool_decide; by intros [= <-]. Qed.

Lemma answer_same q stream h rep x rep' :
  answer q stream h rep x rep' ->
  r_cfg rep' = r_cfg rep /\ streams rep' = streams rep /\ lastAttemptAt rep' = rq_at q
  /\ (is_202 x = false -> lastAcceptedAt rep' = lastAcceptedAt rep
       /\ lastAcceptedByStream rep' = lastAcceptedByStream rep /\ reports rep' = reports rep).
Proof. by destruct 1. Qed.

(** C15: A request changes nothing unless its token's hash is a configured
    reporter's and that reporter is granted the stream. Then, of the registry, it
    changes that reporter's record and, on mesh.repeater, its buffered set; never a
    configuration, a grant, a credential or another reporter's record. Outside the
    registry it may, on burn.line, stage readings, each for a configured line and in
    the reporter's own name, none older than what it replaces, and when accepted
    wake the burn poller once; and, on mesh.packet when accepted, feed packets to
    the sink as from that reporter. A rejected request moves neither its acceptance
    nor its rate-limit stamps, buffered set, sink or wakes. *)
Theorem push_isolation q stream s :
  let m := Tx.mem s in
  exists x s', let m' := Tx.mem s' in
    Serve q stream s = (inr x, s')
    /\ match authenticate (reg m) (bearerToken (rq_authorization q)) with
       | None => s' = s /\ (x = R401 \/ x = R405)
       | Some i => exists rep rep',
           let id := rc_ID (r_cfg rep) in
           order (reg m) !! i = Some rep /\ order (reg m') !! i = Some rep'
           /\ r_cfg rep' = r_cfg rep /\ streams rep' = streams rep
           /\ (stream ∉ streams rep -> s' = s)
           /\ reg m' = set_order (<[i := rep']> (order (reg m))) (set_mesh (mesh (reg m')) (reg m))
           /\ (mesh (reg m') = mesh (reg m)
               \/ stream = MeshStream /\ is_202 x = true /\ exists nodes, mesh (reg m') = <[id := nodes]> (mesh (reg m)))
           /\ (Tx.db s' = Tx.db s \/ stream = BurnStream /\ staged_by (burnLines (reg m)) id (Tx.db s) (Tx.db s'))
           /\ (sink m' = sink m
               \/ stream = MeshPacketStream /\ is_202 x = true
                  /\ exists gateway pks, (gateway = id \/ ValidNodeID gateway = true)
                       /\ sink m' = (feed IngestEnvelope (PacketSource id) gateway 0 pks (mkTally 0 0 []) (sink m)).2)
           /\ (wakes m' = wakes m \/ stream = BurnStream /\ is_202 x = true /\ wakes m' = wakes m + 1)
           /\ (is_202 x = false -> lastAcceptedAt rep' = lastAcceptedAt rep
                /\ lastAcceptedByStream rep' = lastAcceptedByStream rep)
       end.
Proof.
  cbn zeta. destruct (request_cases q stream s) as (x & s' & Hrun & Hc). exists x, s'. split; [done|].
  set (r := reg (Tx.mem s)) in *. destruct Hc as [[-> Hx]|Ha].
  - fold r. destruct (authenticate r _) as [i|] eqn:Hau.
    + unfold authenticate in Hau. case_bool_decide; [done|]. apply bind_Some in Hau as (j & Hj & Hau).
      apply bind_Some in Hau as (rep & Hrep & Hau). case_bool_decide; [|done]. simplify_eq.
      exists rep, rep. split_and!; try done; try (by left). rewrite set_mesh_same, list_insert_id by done. by destruct r.
    + split; [done|]. unfold ServeStream in Hrun. destruct (negb _); [injection Hrun as <-; by right|].
      unfold Tx.bind at 1 in Hrun. cbn [Tx.get_mem] in Hrun. fold r in Hrun. rewrite Hau in Hrun.
      injection Hrun as <-. by left.
  - destruct Ha as (i & rep & h & Hau & Hi & Hd & Hg & rep' & ms & Han & Hr & Hms).
    assert (Hf : exists h, dispatch stream = Some h /\ framed h rep (is_202 x) (Tx.db s) (Tx.mem s) (Tx.db s') (Tx.mem s')).
    { destruct (serve_framed _ _ _ _ _ _ _ Hrun Hau Hi) as [->|?]; [|done]. exists h. split; [done|by apply framed_same]. }
    destruct Hf as (h' & Hd' & Hdb & Hsk & Hw). assert (h' = h) as -> by congruence. fold r in Hdb, Hsk, Hw.
    rewrite Hau, Hr. destruct (answer_same _ _ _ _ _ _ Han) as (H1 & H2 & _ & H4). apply dispatch_stream in Hd.
    exists rep, rep'. cbn. split_and!; try done.
    + apply list_lookup_insert_eq. by eapply lookup_lt_Some.
    + destruct Hms as [->|(-> & Ht & y & ->)]; [by left|right; eauto].
    + destruct Hdb as [?|[-> ?]]; [by left|by right].
    + destruct Hsk as [?|[-> ?]]; [by left|by right].
    + destruct Hw as [?|[-> ?]]; [by left|by right].
    + intros Hx. destruct (H4 Hx) as (? & ? & _). by split_and!.
Qed.

(** ** The rate limit *)

(** Requests one after the other, with their answers. *)
Fixpoint serve_all (l : list (Request * string)) : @M Sink (list Response) :=
  match l with
  | [] => Tx.ret []
  | (q, stream) :: l => x <-- Serve q stream ;; xs <-- serve_all l ;; Tx.ret (x :: xs)
  end.

Lemma serve_all_cons q stream l s :
  exists x s1 xs s2, Serve q stream s = (inr x, s1) /\ serve_all l s1 = (inr xs, s2)
    /\ serve_all ((q, stream) :: l) s = (inr (x :: xs), s2).
Proof.
  revert q stream s. induction l as [|[q' stream'] l IH]; intros q stream s;
    destruct (total_serve q stream s) as (x & s1 & Hx).
  - exists x, s1, [], s1. cbn. unfold Tx.bind. by rewrite Hx.
  - destruct (IH q' stream' s1) as (x1 & s2 & xs & s3 & _ & _ & Hall).
    exists x, s1, (x1 :: xs), s3. split_and!; [done..|]. cbn [serve_all] in Hall |- *.
    unfold Tx.bind at 1. rewrite Hx. unfold Tx.bind at 1. by rewrite Hall.
Qed.

(** The stamp that limits reporter [i] on [stream]. *)
Definition stamp (r : Registry) (i : nat) (stream : string) : option Time :=
  rep ← order r !! i; lastAcceptedByStream rep !! stream.

(** The configuration of reporter [i]. *)
Definition config_of (r : Registry) (i : nat) : option Reporter := r_cfg <$> order r !! i.

Definition by_reporter (r : Registry) (i : nat) (q : Request) : Prop :=
  authenticate r (bearerToken (rq_authorization q)) = Some i.

Lemma authenticate_same r r' token :
  byTokenHash r' = byTokenHash r -> (forall i, config_of r' i = config_of r i) ->
  authenticate r' token = authenticate r token.
Proof.
  intros Hb Hc. unfold authenticate. case_bool_decide; [done|]. rewrite Hb.
  destruct (byTokenHash r !! TokenHash token) as [i|]; cbn; [|done].
  specialize (Hc i). unfold config_of in Hc.
  destruct (order r' !! i) as [a|], (order r !! i) as [b|]; cbn in *; try done. by injection Hc as ->.
Qed.

(** What one request does to a stamp, and what an acceptance says of it. *)
Lemma serve_stamp q stream s x s' :
  Serve q stream s = (inr x, s') ->
  let r := reg (Tx.mem s) in let r' := reg (Tx.mem s') in
  byTokenHash r' = byTokenHash r /\ (forall i, config_of r' i = config_of r i)
  /\ (forall i st, stamp r' i st = stamp r i st
       \/ is_202 x = true /\ by_reporter r i q /\ st = stream /\ stream <> BurnStream
          /\ stamp r' i st = Some (rq_handled q))
  /\ (forall i, by_reporter r i q -> is_202 x = true -> stream <> BurnStream ->
       stamp r' i stream = Some (rq_handled q))
  /\ (forall i rc u, by_reporter r i q -> config_of r i = Some rc -> is_202 x = true ->
       stamp r i stream = Some u -> u <> time_zero ->
       MinIntervalOrDefault rc <= time_sub (rq_at q) u)
  /\ (forall n, x = R429 n -> exists i u, stamp r i stream = Some u).
Proof.
  intros Hrun r r'. destruct (request_cases q stream s) as (x1 & s1 & Hrun1 & Hc).
  rewrite Hrun in Hrun1. injection Hrun1 as <- <-. destruct Hc as [[-> Hx]|Ha].
  { assert (H202 : is_202 x = false /\ forall n, x <> R429 n).
    { rewrite !elem_of_cons in Hx. by destruct Hx as [->|[->|[->|[->|[->|Hx%not_elem_of_nil]]]]]. }
    destruct H202 as [H202 H429]. split_and!; try done; try congruence.
    all: try (intros i st; by left). all: intros n Hn; by destruct (H429 n). }
  destruct Ha as (i & rep & h & Hau & Hi & Hd & Hg & rep' & ms & Han & Hr & Hms).
  fold r in Hau, Hi, Hr, Hms. fold r' in Hr.
  destruct (answer_same _ _ _ _ _ _ Han) as (Hcfg & _ & _ & Hrej). pose proof (dispatch_stream _ _ Hd) as Hst.
  assert (Hother : forall j, j <> i -> order r' !! j = order r !! j).
  { intros j Hj. rewrite Hr. cbn. by rewrite list_lookup_insert_ne. }
  assert (Hhere : order r' !! i = Some rep').
  { rewrite Hr. cbn. apply list_lookup_insert_eq. by eapply lookup_lt_Some. }
  assert (Hacc : is_202 x = true -> lastAcceptedByStream rep' = restamp h (rq_handled q) (lastAcceptedByStream rep)
    /\ tooSoon rep stream (rq_at q) = false).
  { by destruct Han. }
  split_and!.
  - by rewrite Hr.
  - intros j. unfold config_of. destruct (decide (j = i)) as [->|Hj]; [|by rewrite Hother].
    by rewrite Hhere, Hi; cbn; rewrite Hcfg.
  - intros j st. unfold stamp. destruct (decide (j = i)) as [->|Hj]; [|left; by rewrite Hother].
    rewrite Hhere, Hi. cbn. destruct (is_202 x) eqn:Ex; [|left; destruct (Hrej eq_refl) as (_ & -> & _); done].
    destruct (Hacc eq_refl) as [-> _]. destruct h; cbn; [..|by left];
      (destruct (decide (st = stream)) as [->|Hne]; [right|left; subst stream; by rewrite lookup_insert_ne]);
      (split_and!; [done..|rewrite Hst; discriminate|by rewrite Hst, lookup_insert_eq]).
  - intros j Hj Hx Hb. unfold by_reporter in Hj. assert (j = i) as -> by congruence.
    unfold stamp. rewrite Hhere. cbn. destruct (Hacc Hx) as [-> _].
    destruct h; cbn; rewrite ?Hst, ?lookup_insert_eq; done.
  - intros j rc u Hj Hrc Hx Hu Hz. unfold by_reporter in Hj. assert (j = i) as -> by congruence.
    unfold config_of in Hrc. rewrite Hi in Hrc. injection Hrc as <-.
    unfold stamp in Hu. rewrite Hi in Hu. cbn in Hu. destruct (Hacc Hx) as [_ Hsoon].
    unfold tooSoon in Hsoon. rewrite Hu in Hsoon. cbn in Hsoon. unfold time_is_zero, time_zero in *. lia.
  - intros n ->. inversion Han as [? Hsoon| | |]; subst. exists i.
    unfold stamp, tooSoon in *. rewrite Hi. cbn.
    destruct (lastAcceptedByStream rep !! _) as [u|]; [by exists u|done].
Qed.

(** The readings of the clock, in the order they were taken. *)
Definition times (l : list (Request * string)) : list Time :=
  l ≫= fun x => [rq_at x.1; rq_handled x.1].

Lemma times_cons x l : times (x :: l) = rq_at x.1 :: rq_handled x.1 :: times l.
Proof. done. Qed.

(** Once a stamp is at [t] or later, no acceptance on its stream is sooner than
    the interval after [t]. *)
Lemma limited t rc i st l s xs s' :
  serve_all l s = (inr xs, s') -> Forall (Z.le t) (times l) -> 0 < t -> st <> BurnStream ->
  config_of (reg (Tx.mem s)) i = Some rc ->
  (exists u, stamp (reg (Tx.mem s)) i st = Some u /\ t <= u) ->
  forall k q x, l !! k = Some (q, st) -> xs !! k = Some x -> is_202 x = true ->
  by_reporter (reg (Tx.mem s)) i q -> MinIntervalOrDefault rc <= time_sub (rq_at q) t.
Proof.
  revert s xs. induction l as [|[q0 st0] l IH]; intros s xs Hrun Hl Ht Hst Hrc (u & Hu & Htu) k q x Hk Hxk Hx Hq;
    [done|].
  destruct (serve_all_cons q0 st0 l s) as (x0 & s1 & xs1 & s2 & Hs & Hrest & Hall).
  rewrite Hall in Hrun. injection Hrun as <- <-. rewrite times_cons in Hl.
  apply Forall_cons in Hl as [_ [Hh Hl]%Forall_cons]. cbn in Hh.
  destruct (serve_stamp _ _ _ _ _ Hs) as (Hb & Hc & Hstamp & _ & Hmin & _). destruct k as [|k]; cbn in Hk, Hxk.
  - simplify_eq. etrans; [eapply Hmin; [exact Hq|exact Hrc|done|exact Hu|unfold time_zero; lia]|].
    by apply time_sub_mono_r.
  - eapply (IH s1 xs1 Hrest Hl Ht Hst); [by rewrite Hc| |exact Hk|exact Hxk|done|].
    + destruct (Hstamp i st) as [->|(_ & _ & _ & _ & ->)]; eauto.
    + unfold by_reporter in *. by erewrite authenticate_same.
Qed.

(** Whatever requests are served in between, and whatever they carry, two
    reports of one reporter accepted on one stream are at least its minimum
    interval apart, from the acceptance of the first to the arrival of the
    second; a rejected report never moves the window. This holds of mesh.repeater
    and mesh.packet only: burn.line leaves no stamp, so its reports are never
    refused for coming too fast. *)
Theorem rate_limit l s xs s' :
  StronglySorted Z.le (times l) -> Forall (Z.lt 0) (times l) -> serve_all l s = (inr xs, s') ->
  (forall i rc st j k qj qk xj xk, (j < k)%nat ->
     l !! j = Some (qj, st) -> l !! k = Some (qk, st) -> xs !! j = Some xj -> xs !! k = Some xk ->
     is_202 xj = true -> is_202 xk = true -> st <> BurnStream ->
     by_reporter (reg (Tx.mem s)) i qj -> by_reporter (reg (Tx.mem s)) i qk ->
     config_of (reg (Tx.mem s)) i = Some rc ->
     MinIntervalOrDefault rc <= time_sub (rq_at qk) (rq_handled qj))
  /\ ((forall i, stamp (reg (Tx.mem s)) i BurnStream = None) ->
      forall k q n, l !! k = Some (q, BurnStream) -> xs !! k <> Some (R429 n)).
Proof.
  revert s xs. induction l as [|[q0 st0] l IH]; intros s xs Hsort Hpos Hrun; [done|].
  destruct (serve_all_cons q0 st0 l s) as (x0 & s1 & xs1 & s2 & Hs & Hrest & Hall).
  rewrite Hall in Hrun. injection Hrun as <- <-. rewrite times_cons in Hsort, Hpos.
  apply StronglySorted_inv in Hsort as [[Hsort Hafter]%StronglySorted_inv _].
  apply Forall_cons in Hpos as [_ [Hh Hpos]%Forall_cons]. cbn in Hh, Hafter.
  destruct (serve_stamp _ _ _ _ _ Hs) as (Hb & Hc & Hstamp & Hset & _ & Hburn).
  destruct (IH s1 xs1 Hsort Hpos Hrest) as [IH1 IH2]. split.
  - intros i rc st j k qj qk xj xk Hjk Hj Hk Hxj Hxk H2j H2k Hst Hqj Hqk Hrc.
    destruct k as [|k]; [lia|]. cbn in Hk, Hxk.
    assert (Hqk1 : by_reporter (reg (Tx.mem s1)) i qk) by (unfold by_reporter in *; by erewrite authenticate_same).
    assert (Hrc1 : config_of (reg (Tx.mem s1)) i = Some rc) by by rewrite Hc.
    destruct j as [|j]; cbn in Hj, Hxj.
    + simplify_eq. eapply (limited (rq_handled qj) rc i st l s1 xs1);
        [exact Hrest|exact Hafter|exact Hh|done|exact Hrc1| |exact Hk|exact Hxk|done|exact Hqk1].
      exists (rq_handled qj). split; [by apply Hset|done].
    + eapply (IH1 i rc st j k qj qk xj xk); try done; [lia|].
      unfold by_reporter in *. by erewrite authenticate_same.
  - intros Hnone k q n Hk Hx. destruct k as [|k]; cbn in Hk, Hx.
    + simplify_eq. destruct (Hburn n eq_refl) as (i & u & Hu). by rewrite Hnone in Hu.
    + eapply IH2; [|exact Hk|exact Hx]. intros i.
      destruct (Hstamp i BurnStream) as [->|(_ & _ & -> & ? & _)]; [apply Hnone|done].
Qed.

(** ** Reports *)

Definition node_id (x : meshRepeaterIn) : string := ToLower (TrimSpace (in_ID x)).

Lemma mesh_set_spec rc gen now i l X ws :
  let Y := (mesh_set rc gen now i l X ws).1 in
  (forall id, is_Some (Y !! id) <->
     is_Some (X !! id) \/ ValidNodeID id = true /\ exists x, x ∈ l /\ node_id x = id)
  /\ (forall id nr, Y !! id = Some nr ->
     X !! id = Some nr \/ exists x, x ∈ l /\ nr = node_report rc gen now id x).
Proof.
  revert i X ws. induction l as [|x l IH]; intros i X ws; cbn [mesh_set].
  { split; [|by left]. intros id. split; [by left|]. intros [?|(_ & x & ?%not_elem_of_nil & _)]; done. }
  fold (node_id x). destruct (ValidNodeID (node_id x)) eqn:Ev; cbn [negb].
  - case_bool_decide as Hdup.
    + destruct (IH (S i) X (ws ++ [W_Duplicate i])) as [H1 H2]. split.
      * intros id. rewrite H1. split; [intros [?|(? & y & ? & ?)]; eauto 6 using list_elem_of_further|].
        intros [?|(? & y & [->|?]%elem_of_cons & <-)]; eauto.
      * intros id nr Hn. destruct (H2 _ _ Hn) as [?|(y & ? & ?)]; eauto using list_elem_of_further.
    + destruct (IH (S i) (<[node_id x := node_report rc gen now (node_id x) x]> X) ws) as [H1 H2]. split.
      * intros id. rewrite H1, lookup_insert_is_Some'. split.
        { intros [[<-|?]|(? & y & ? & ?)]; eauto 6 using list_elem_of_further, list_elem_of_here. }
        intros [?|(? & y & [->|?]%elem_of_cons & <-)]; eauto 6.
      * intros id nr Hn. destruct (H2 _ _ Hn) as [[[<- <-]|[_ ?]]%lookup_insert_Some|(y & ? & ?)];
          eauto using list_elem_of_further, list_elem_of_here.
  - destruct (IH (S i) X (ws ++ [W_BadID i])) as [H1 H2]. split.
    + intros id. rewrite H1. split; [intros [?|(? & y & ? & ?)]; eauto 6 using list_elem_of_further|].
      intros [?|(? & y & [->|?]%elem_of_cons & <-)]; [eauto|congruence|eauto 6].
    + intros id nr Hn. destruct (H2 _ _ Hn) as [?|(y & ? & ?)]; eauto using list_elem_of_further.
Qed.

Lemma clampPast_le t now : 0 <= now -> clampPast t now <= now.
Proof. unfold clampPast, time_is_zero, time_after, time_zero. intros. repeat case_match; lia. Qed.

(** A buffered report, from reporter [rc] at [now]. *)
Definition report_ok (rc : Reporter) (now : Time) (id : string) (nr : MeshNodeReport) : Prop :=
  NodeID nr = id /\ nr_ReporterID nr = rc_ID rc /\ nr_ReceivedAt nr = now /\ nr_ReportedAt nr <= now
  /\ nr_LastAttempt nr <= now /\ nr_LastSuccess nr <= now
  /\ (nr_Telemetry nr <> None -> nr_LastSuccess nr <> time_zero).

Lemma node_report_ok rc gen now id x : 0 <= now -> gen <= now -> report_ok rc now id (node_report rc gen now id x).
Proof.
  intros Hn Hg. unfold node_report. set (nr := mkMeshNodeReport _ _ _ _ _ _ _ _ _ _ _).
  assert (Hnr : report_ok rc now id nr) by (split_and!; try done; by apply clampPast_le).
  destruct (negb _ && _) eqn:E; [|done]. apply andb_prop in E as [E _]. destruct Hnr as (?&?&?&?&?&?&_).
  split_and!; try done. intros _ Hz. unfold time_is_zero in E. cbn in Hz, E. by rewrite Hz in E.
Qed.

(** An accepted mesh report is buffered as parsed. *)
Lemma serve_mesh q s n ws t s' :
  Serve q MeshStream s = (inr (R202 n ws t), s') ->
  exists i rep body p, by_reporter (reg (Tx.mem s)) i q /\ order (reg (Tx.mem s)) !! i = Some rep
    /\ rq_body q = Some body /\ decodeJSON DecodeMesh body = inr p
    /\ let X := (mesh_set (r_cfg rep) (clampPast (parseRFC3339 (mp_GeneratedAt p)) (rq_handled q))
                   (rq_handled q) 0 (Repeaters p) ∅ []).1 in
       mesh (reg (Tx.mem s')) = <[rc_ID (r_cfg rep) := X]> (mesh (reg (Tx.mem s))) /\ size X = n.
Proof.
  unfold ServeStream. destruct (negb _); [done|]. unfold Tx.bind at 1. cbn [Tx.get_mem].
  destruct (authenticate _ _) as [i|] eqn:Ha; [|done].
  replace (dispatch MeshStream) with (Some HMesh) by reflexivity.
  destruct (order (reg (Tx.mem s)) !! i) as [rep|] eqn:Hi; [|done]. destruct (negb _); [done|]. case_bool_decide; [done|].
  unfold on_reporter, on_reg, Tx.bind at 1. cbn [Tx.put_mem]. destruct (tooSoon _ _ _); [done|].
  unfold consume, recordFailure, on_reporter, on_reg. unfold Tx.bind at 1. cbn [Tx.get_mem].
  destruct (rq_body q) as [body|] eqn:Eb; [|done]. destruct (_ <? _); [done|].
  cbn [run_handler]. unfold ingestMesh, on_reporter, on_reg.
  destruct (decodeJSON DecodeMesh body) as [e|p] eqn:Ep; [done|].
  destruct (negb _); [done|]. destruct (_ <? _); [done|]. unfold Tx.bind. cbn.
  intros [= <- <- <- <-]. exists i, rep, body, p. by split_and!.
Qed.

(** An accepted mesh.repeater report replaces the reporter's buffered set:
    the set holds exactly the valid ids the report lists, as many as the answer
    says, each under its own id and reporter; no time in it is later than our
    own clock, and a node that was never reached has no telemetry. *)
Theorem mesh_report q s n ws t s' :
  0 <= rq_handled q -> Serve q MeshStream s = (inr (R202 n ws t), s') ->
  exists i rep body p X, by_reporter (reg (Tx.mem s)) i q /\ order (reg (Tx.mem s)) !! i = Some rep
    /\ rq_body q = Some body /\ decodeJSON DecodeMesh body = inr p
    /\ mesh (reg (Tx.mem s')) !! rc_ID (r_cfg rep) = Some X /\ size X = n
    /\ (forall id, is_Some (X !! id) <->
         ValidNodeID id = true /\ exists x, x ∈ Repeaters p /\ node_id x = id)
    /\ (forall id nr, X !! id = Some nr -> report_ok (r_cfg rep) (rq_handled q) id nr).
Proof.
  intros Hz (i & rep & body & p & Hq & Hi & Hb & Hp & Hm & Hn)%serve_mesh.
  set (gen := clampPast (parseRFC3339 (mp_GeneratedAt p)) (rq_handled q)) in *.
  destruct (mesh_set_spec (r_cfg rep) gen (rq_handled q) 0 (Repeaters p) ∅ []) as [H1 H2].
  eexists i, rep, body, p, _. split_and!; [done..|by rewrite Hm, lookup_insert_eq|done| |].
  - intros id. rewrite H1, lookup_empty. split; [by intros [[? [=]]|?]|by right].
  - intros id nr Hnr. destruct (H2 _ _ Hnr) as [He|(x & _ & ->)]; [by rewrite lookup_empty in He|].
    apply node_report_ok; [done|]. by apply clampPast_le.
Qed.

End Spec.

(** ** The snapshot *)

Section snapshot.
Context (r : Registry) (now : Time).

Definition granted (stream : string) (st : ReporterState) (rep : reporter) : Prop :=
  stream ∈ streams rep /\ health_state rep now = st.

#[global] Instance ReporterState_eq_dec : EqDecision ReporterState.
Proof. solve_decision. Defined.
#[global] Instance granted_dec stream st rep : Decision (granted stream st rep).
Proof. unfold granted. apply _. Defined.

Definition buffered (rep : reporter) : list MeshNodeReport :=
  (map_to_list (default ∅ (mesh r !! rc_ID (r_cfg rep)))).*2.

Definition note (s : MeshSnapshot) (rep : reporter) : MeshSnapshot :=
  note_forwarder now rep (note_monitor r now rep s).

Lemma note_fields s rep :
  Reports (note s rep) = Reports s ++ (if decide (granted MeshStream ReporterOK rep) then buffered rep else [])
  /\ Live (note s rep) = (Live s + if decide (granted MeshStream ReporterOK rep) then 1 else 0)%nat
  /\ PacketLive (note s rep)
     = (PacketLive s + if decide (granted MeshPacketStream ReporterOK rep) then 1 else 0)%nat
  /\ (SuppressSweep (note s rep) = true <->
       SuppressSweep s = true \/ granted MeshPacketStream ReporterStale rep)
  /\ (MonitorSilent (note s rep) = true <-> MonitorSilent s = true
       \/ granted MeshStream ReporterStale rep \/ granted MeshStream ReporterUnknown rep).
Proof.
  do 2 case_decide; unfold note, note_monitor, note_forwarder, granted, buffered in *;
    cbn [healthLocked h_State]; destruct (health_state rep now);
    do 2 case_bool_decide; try tauto; cbn;
    rewrite ?app_nil_r; split_and!; try done; try lia; intuition congruence.
Qed.

Lemma snapshot_fold l s :
  let s' := foldl note s l in
  Reports s' = Reports s ++ (filter (granted MeshStream ReporterOK) l ≫= buffered)
  /\ Live s' = (Live s + length (filter (granted MeshStream ReporterOK) l))%nat
  /\ PacketLive s' = (PacketLive s + length (filter (granted MeshPacketStream ReporterOK) l))%nat
  /\ (SuppressSweep s' = true <->
       SuppressSweep s = true \/ Exists (granted MeshPacketStream ReporterStale) l)
  /\ (MonitorSilent s' = true <-> MonitorSilent s = true
       \/ Exists (granted MeshStream ReporterStale) l \/ Exists (granted MeshStream ReporterUnknown) l).
Proof.
  revert s. induction l as [|rep l IH]; intros s; cbn [foldl].
  { cbn. rewrite app_nil_r, !Nat.add_0_r, !Exists_nil. tauto. }
  destruct (IH (note s rep)) as (-> & -> & -> & -> & ->), (note_fields s rep) as (-> & -> & -> & -> & ->).
  rewrite !Exists_cons, !filter_cons.
  repeat case_decide; cbn; rewrite <-?app_assoc; split_and!; try done; try lia; tauto.
Qed.

End snapshot.

(** The snapshot the mesh feed reads reports a node exactly when a reporter
    granted mesh.repeater that is OK now has it in its last set. A stale
    forwarder, and nothing else, suppresses the sweep; a stale or never heard
    monitor is silent and suppresses nothing; a dead reporter does neither. *)
Theorem mesh_snapshot r now :
  let s := MeshReports r now in
  (forall nr, nr ∈ Reports s <->
     exists rep id, rep ∈ order r /\ granted now MeshStream ReporterOK rep
       /\ mesh r !! rc_ID (r_cfg rep) ≫= (.!! id) = Some nr)
  /\ (Live s = 0%nat -> Reports s = [])
  /\ (Live s = 0%nat <-> Forall (fun rep => ~ granted now MeshStream ReporterOK rep) (order r))
  /\ (PacketLive s = 0%nat <-> Forall (fun rep => ~ granted now MeshPacketStream ReporterOK rep) (order r))
  /\ (SuppressSweep s = true <-> Exists (granted now MeshPacketStream ReporterStale) (order r))
  /\ (MonitorSilent s = true <-> Exists (granted now MeshStream ReporterStale) (order r)
       \/ Exists (granted now MeshStream ReporterUnknown) (order r)).
Proof.
  intros s. destruct (snapshot_fold r now (order r) (mkMeshSnapshot [] [] false false 0 [] 0))
    as (HR & HL & HP & HS & HM). change (foldl _ _ _) with s in HR, HL, HP, HS, HM.
  cbn in HR, HL, HP, HS, HM.
  assert (Hnone : forall stream, length (filter (granted now stream ReporterOK) (order r)) = 0%nat <->
    Forall (fun rep => ~ granted now stream ReporterOK rep) (order r)).
  { intros stream. clear. induction (order r) as [|rep l IH]; [by split|]. rewrite filter_cons, Forall_cons, <-IH.
    case_decide; cbn; intuition (done || lia). }
  split_and!; [..|by rewrite HS; intuition|by rewrite HM; intuition].
  - intros nr. rewrite HR, list_elem_of_bind. unfold buffered. split.
    + intros (rep & ([id x] & -> & Hx%elem_of_map_to_list)%list_elem_of_fmap & [??]%list_elem_of_filter).
      exists rep, id. split_and!; [done..|]. by destruct (mesh r !! _).
    + intros (rep & id & Hin & Hg & Hx). exists rep. split; [|by apply list_elem_of_filter].
      apply list_elem_of_fmap. exists (id, nr). split; [done|]. apply elem_of_map_to_list.
      by destruct (mesh r !! _).
  - rewrite HL, HR, length_zero_iff_nil. by intros ->.
  - by rewrite HL, Hnone.
  - by rewrite HP, Hnone.
Qed.

(** ** The registry's invariant *)

Section Credentials.
Context `{UnicodeLower} {PK : PushKernel}.

Definition id_of (rep : reporter) : string := rc_ID (r_cfg rep).
Definition hash_of (rep : reporter) : string := TokenSha256 (r_cfg rep).

(** Every reporter has an id of its own, a grant, and either the hash that finds
    it or no way in at all. *)
Record registry_ok (r : Registry) : Prop := {
  ok_ids : NoDup (id_of <$> order r);
  ok_named : Forall (fun rep => id_of rep <> "" /\ streams rep <> ∅) (order r);
  ok_keys : forall h i, byTokenHash r !! h = Some i ->
    String.length h = 64%nat /\ hex_ok h = true /\ hash_of <$> order r !! i = Some h;
  ok_found : forall i rep, order r !! i = Some rep ->
    hash_of rep = "" /\ id_of rep ∈ missingTokens r \/ byTokenHash r !! hash_of rep = Some i }.

Lemma registry_append rc keys missing r :
  registry_ok r -> rc_ID rc ∉ id_of <$> order r -> rc_ID rc <> "" -> Streams rc <> [] ->
  (TokenSha256 rc = "" /\ keys = byTokenHash r /\ missing = missingTokens r ++ [rc_ID rc]
   \/ String.length (TokenSha256 rc) = 64%nat /\ hex_ok (TokenSha256 rc) = true
      /\ byTokenHash r !! TokenSha256 rc = None
      /\ keys = <[TokenSha256 rc := length (order r)]> (byTokenHash r) /\ missing = missingTokens r) ->
  registry_ok (mkRegistry (cfg r) keys (order r ++ [newReporter rc]) missing (burn r) (burnLines r)
                 (burnHook r) (mesh r) (packets r)).
Proof.
  intros [H1 H2 H3 H4] Hid Hne Hst Hk. constructor; cbn.
  - rewrite fmap_app. apply NoDup_app. split_and!; [done| |apply NoDup_singleton].
    intros x Hx ->%list_elem_of_singleton. done.
  - apply Forall_app. split; [done|]. apply Forall_singleton. split; [done|]. cbn.
    destruct (Streams rc) as [|s l]; [done|]. cbn. set_solver.
  - assert (Hold : forall h i, byTokenHash r !! h = Some i ->
      String.length h = 64%nat /\ hex_ok h = true /\ hash_of <$> (order r ++ [newReporter rc]) !! i = Some h).
    { intros h i Hh. destruct (H3 h i Hh) as (? & ? & Hl). split_and!; [done..|].
      destruct (order r !! i) eqn:E; [|done]. by rewrite (lookup_app_l_Some _ _ _ _ E). }
    destruct Hk as [(_ & -> & _)|(? & ? & _ & -> & _)]; [done|].
    intros h i [[<- <-]|[_ Hh]]%lookup_insert_Some; [|by apply Hold].
    split_and!; [done..|]. by rewrite list_lookup_middle.
  - intros i rep [Hl|[Hl Hi]]%lookup_app_Some.
    + destruct (H4 i rep Hl) as [[? ?]|Hf].
      * left. split; [done|]. destruct Hk as [(_ & _ & ->)|(_ & _ & _ & _ & ->)]; [|done].
        apply elem_of_app. by left.
      * right. destruct Hk as [(_ & -> & _)|(_ & _ & Hfree & -> & _)]; [done|].
        rewrite lookup_insert_ne; [done|congruence].
    + apply list_lookup_singleton_Some in Hi as [Hi <-].
      destruct Hk as [(? & _ & ->)|(_ & _ & _ & -> & _)].
      * left. split; [done|]. apply elem_of_app. right. by apply list_elem_of_singleton.
      * right. cbn. rewrite lookup_insert_eq. f_equal. lia.
Qed.

Lemma add_reporter_ok rc seen r seen' r' :
  registry_ok r -> (forall id, id ∈ seen <-> id ∈ id_of <$> order r) ->
  add_reporter rc seen r = inr (seen', r') ->
  registry_ok r' /\ (forall id, id ∈ seen' <-> id ∈ id_of <$> order r') /\ cfg r' = cfg r
  /\ exists rep, order r' = order r ++ [rep] /\ id_of rep = rc_ID rc.
Proof.
  intros Hok Hseen. unfold add_reporter. do 2 (case_bool_decide; [done|]).
  destruct (tokenHashFor _ _) as [e|h]; [done|]. destruct (Nat.eqb _ 0) eqn:El; [done|].
  apply Nat.eqb_neq in El. cbn in El.
  assert (Hgoal : forall keys missing,
    (h = "" /\ keys = byTokenHash r /\ missing = missingTokens r ++ [rc_ID rc]
     \/ String.length h = 64%nat /\ hex_ok h = true /\ byTokenHash r !! h = None
        /\ keys = <[h := length (order r)]> (byTokenHash r) /\ missing = missingTokens r) ->
    let r1 := mkRegistry (cfg r) keys (order r ++ [newReporter (set_token h rc)]) missing (burn r)
                (burnLines r) (burnHook r) (mesh r) (packets r) in
    registry_ok r1 /\ (forall id, id ∈ {[rc_ID rc]} ∪ seen <-> id ∈ id_of <$> order r1) /\ cfg r1 = cfg r
    /\ exists rep, order r1 = order r ++ [rep] /\ id_of rep = rc_ID rc).
  { intros keys missing Hk r1. split_and!; [|intros id|done|eexists; by split].
    - apply registry_append; cbn; try done; [by rewrite <-Hseen|]. intros E0. by rewrite E0 in El.
    - unfold r1. cbn [order]. rewrite fmap_app, elem_of_app, elem_of_union, elem_of_singleton, Hseen.
      cbn. rewrite list_elem_of_singleton. tauto. }
  case_bool_decide; [intros [= <- <-]; apply Hgoal; by left|]. destruct (Nat.eqb _ 64) eqn:E64; [|done].
  destruct (hex_ok h) eqn:Eh; [|done]. cbn [negb]. case_bool_decide as Hn; [done|]. intros [= <- <-].
  apply Hgoal. right. apply Nat.eqb_eq in E64. split_and!; try done. by apply eq_None_not_Some.
Qed.

Lemma add_reporters_ok rcs seen r seen' r' :
  registry_ok r -> (forall id, id ∈ seen <-> id ∈ id_of <$> order r) ->
  add_reporters rcs seen r = inr (seen', r') ->
  registry_ok r' /\ (forall id, id ∈ seen' <-> id ∈ id_of <$> order r') /\ cfg r' = cfg r
  /\ id_of <$> order r' = (id_of <$> order r) ++ (rc_ID <$> rcs).
Proof.
  revert seen r. induction rcs as [|rc rcs IH]; intros seen r Hok Hseen; cbn [add_reporters].
  { intros [= <- <-]. split_and!; try done. by rewrite app_nil_r. }
  destruct (add_reporter rc seen r) as [e|[seen1 r1]] eqn:E; [done|]. intros Hrest.
  destruct (add_reporter_ok _ _ _ _ _ Hok Hseen E) as (Hok1 & Hseen1 & Hc & rep & Ho & Hid).
  destruct (IH seen1 r1 Hok1 Hseen1 Hrest) as (? & ? & ? & Hids). split_and!; try done; [congruence|].
  rewrite Hids, Ho, fmap_app, <-app_assoc. cbn. by rewrite Hid.
Qed.

Lemma registry_ok_same r r' :
  byTokenHash r' = byTokenHash r -> missingTokens r' = missingTokens r ->
  Forall2 (fun a b => r_cfg b = r_cfg a /\ streams b = streams a) (order r) (order r') ->
  registry_ok r -> registry_ok r'.
Proof.
  intros Hb Hm Ho [H1 H2 H3 H4].
  assert (Hids : id_of <$> order r' = id_of <$> order r).
  { clear -Ho. induction Ho as [|a b l k [Hc _] _ IH]; [done|]. cbn. unfold id_of at 1 3. by rewrite Hc, IH. }
  assert (Hhash : forall i, hash_of <$> order r' !! i = hash_of <$> order r !! i).
  { clear -Ho. induction Ho as [|a b l k [Hc _] _ IH]; intros [|i]; try done; [|apply IH].
    cbn. unfold hash_of. by rewrite Hc. }
  constructor; [by rewrite Hids| |by intros h i; rewrite Hb, Hhash; apply H3|].
  - clear -Ho H2. induction Ho as [|a b l k [Hc Hs] _ IH]; [done|]. apply Forall_cons in H2 as [Ha H2].
    constructor; [|by apply IH]. unfold id_of in *. by rewrite Hc, Hs.
  - intros i b Hi. destruct (Forall2_lookup_r _ _ _ _ _ Ho Hi) as (a & Ha & Hc & _). rewrite Hb, Hm.
    unfold id_of, hash_of. rewrite Hc. by apply H4.
Qed.

Lemma new_registry_ok c o r :
  NewRegistry c o = inr r ->
  registry_ok r /\ id_of <$> order r = rc_ID <$> Reporters c
  /\ dom (ReporterTokenSha256 c) ⊆ list_to_set (rc_ID <$> Reporters c).
Proof.
  unfold NewRegistry. set (r0 := mkRegistry _ _ _ _ _ _ _ _ _).
  destruct (add_reporters _ _ _) as [e|[seen r1]] eqn:E; [done|]. case_bool_decide as Hd; [|done].
  intros [= <-].
  assert (Hok0 : registry_ok r0).
  { constructor; cbn; [apply NoDup_nil_2|by constructor|intros h i; by rewrite lookup_empty|done]. }
  assert (Hseen0 : forall id, id ∈ (∅ : gset string) <-> id ∈ id_of <$> order r0) by (cbn; set_solver).
  destruct (add_reporters_ok _ _ _ _ _ Hok0 Hseen0 E)
    as (Hok & Hseen & _ & Hids). split_and!; [done..|]. rewrite Hids in Hseen. cbn in Hseen.
  intros id Hid%Hd. by apply elem_of_list_to_set, Hseen.
Qed.

Lemma authenticate_iff r token i :
  registry_ok r -> ToLower (TokenHash token) = TokenHash token -> TokenHash token <> "" ->
  authenticate r token = Some i <->
  token <> "" /\ hash_of <$> order r !! i = Some (TokenHash token).
Proof.
  intros [_ _ H3 H4] Hlow Hne. unfold authenticate. case_bool_decide as Ht.
  { split; [done|]. by intros [? _]. }
  split.
  - intros (j & Hj & (rep & Hrep & Hif)%bind_Some)%bind_Some. case_bool_decide; [|done]. injection Hif as <-.
    split; [done|]. by destruct (H3 _ _ Hj) as (_ & _ & ?).
  - intros [_ (rep & Hrep & Hh)%fmap_Some]. destruct (H4 _ _ Hrep) as [[Hz _]|Hf]; [congruence|].
    rewrite <-Hh in Hf. rewrite Hh. rewrite Hh, Hf in *. cbn. rewrite Hrep. cbn.
    by rewrite (bool_decide_true _ Hlow).
Qed.

End Credentials.

Section Served.
Context `{UnicodeLower} {PK : PushKernel}.
Context {Sink : Type}.
Variable IngestEnvelope : string -> string -> string -> Sink -> PacketOutcome * Sink.

Lemma serve_all_ok l s xs s' :
  serve_all IngestEnvelope l s = (inr xs, s') -> registry_ok (reg (Tx.mem s)) ->
  registry_ok (reg (Tx.mem s')) /\ id_of <$> order (reg (Tx.mem s')) = id_of <$> order (reg (Tx.mem s)).
Proof.
  revert s xs. induction l as [|[q stream] l IH]; intros s xs; [by intros [= <- <-]|].
  destruct (serve_all_cons IngestEnvelope q stream l s) as (x & s1 & xs1 & s2 & Hs & Hrest & ->).
  intros [= <- <-] Hok. destruct (request_cases IngestEnvelope q stream s) as (x' & s1' & Hs' & Hc).
  rewrite Hs in Hs'. injection Hs' as <- <-. destruct Hc as [[-> _]|Ha]; [by eapply IH|].
  destruct Ha as (i & rep & h & _ & Hi & _ & _ & rep' & ms & Han & Hr & _).
  destruct (answer_same _ _ _ _ _ _ Han) as (Hcfg & Hst & _).
  assert (Hall : Forall2 (fun a b => r_cfg b = r_cfg a /\ streams b = streams a)
                   (order (reg (Tx.mem s))) (order (reg (Tx.mem s1)))).
  { rewrite Hr. cbn. apply Forall2_same_length_lookup_2; [by rewrite length_insert|].
    intros j a b Hja [(<- & <- & _)|[_ Hjb]]%list_lookup_insert_Some; by simplify_eq. }
  destruct (IH s1 xs1 Hrest) as [Hok' Hids].
  { eapply registry_ok_same; [..|exact Hall|exact Hok]; by rewrite Hr. }
  split; [done|]. rewrite Hids. clear -Hall. induction Hall as [|a b la lb [Hab _] _ IH]; [done|]. cbn.
  unfold id_of at 1 3. by rewrite Hab, IH.
Qed.

(** C35: a registry built from a configuration has reporters with distinct,
    nonempty ids and at least one grant each, in the configuration's order, knows
    every reporter a supplied hash names, and stays so whatever is served. A
    token is taken for a reporter exactly when its hash is that reporter's: no
    two share a credential, and one the deploy supplied none for has no way in. *)
Theorem registry_wf c o r l s xs s' :
  (forall token, ToLower (TokenHash token) = TokenHash token /\ String.length (TokenHash token) = 64%nat) ->
  NewRegistry c o = inr r -> reg (Tx.mem s) = SetPacketSink r ->
  serve_all IngestEnvelope l s = (inr xs, s') ->
  let r' := reg (Tx.mem s') in
  registry_ok r' /\ id_of <$> order r' = rc_ID <$> Reporters c
  /\ dom (ReporterTokenSha256 c) ⊆ list_to_set (id_of <$> order r')
  /\ (forall token i, authenticate r' token = Some i <->
       token <> "" /\ hash_of <$> order r' !! i = Some (TokenHash token))
  /\ (forall i j a b, order r' !! i = Some a -> order r' !! j = Some b ->
       hash_of a = hash_of b -> hash_of a <> "" -> i = j).
Proof.
  intros Hhex (Hok & Hids & Hdom)%new_registry_ok Hs Hrun r'.
  destruct (serve_all_ok _ _ _ _ Hrun) as [Hok' Hids'].
  { rewrite Hs. eapply (registry_ok_same r); [done|done| |done]. cbn.
    apply Forall2_same_length_lookup_2; [done|]. intros i a b Ha Hb. by simplify_eq. }
  fold r' in Hok', Hids'. rewrite Hs in Hids'. cbn in Hids'. rewrite Hids' , Hids.
  split_and!; [done..| |].
  - intros token i. destruct (Hhex token) as [? Hl]. apply authenticate_iff; [done..|].
    intros E. by rewrite E in Hl.
  - intros i j a b Ha Hb Hab Hne. destruct (ok_found _ Hok' i a Ha) as [[? _]|Hi]; [done|].
    destruct (ok_found _ Hok' j b Hb) as [[? _]|Hj]; congruence.
Qed.

End Served.

(** ** A concrete endpoint *)

Module PushDemo.

(** Two tokens, two hashes. *)
Definition digest (token : string) : string :=
  if bool_decide (token = "alpha")
  then "aaaaaaaaaaaaaaaaaaaaaaaaaaaaaaaaaaaaaaaaaaaaaaaaaaaaaaaaaaaaaaaa"
  else "bbbbbbbbbbbbbbbbbbbbbbbbbbbbbbbbbbbbbbbbbbbbbbbbbbbbbbbbbbbbbbbb".

Definition repeater_in (id : string) (last : option Z) : meshRepeaterIn :=
  mkMeshRepeaterIn id " Ridge " (Some 900) last (Some (F64.of_Z 4)) None "" None None None None None None None
    None None None None None None None None None None None None None (Some true).

Definition payload : meshPayload :=
  mkMeshPayload 1 "" [repeater_in "AABBCCDD" (Some 800); repeater_in "zz" None; repeater_in " aabbccdd" None;
                      repeater_in "00112233" None].

#[local] Instance kernel : PushKernel :=
  {| sha256_hex := digest; DecodeMesh := fun _ => inr (payload, "");
     DecodePackets := fun _ => inl "no packets here"; DecodeBurn := fun _ => inl "no readings here";
     More := fun rest => negb (bool_decide (rest = "")); RFC3339 := fun _ => None |}.
#[local] Existing Instance ascii_only.

Definition monitor : Reporter :=
  mkReporter "mon" "Monitor" (digest "alpha") false [MeshStream] (30 * minute) (15 * second) 1 [] true.
Definition forwarder : Reporter :=
  mkReporter "fwd" "Forwarder" "" true [MeshPacketStream] 0 0 0 [] false.

Definition config : IngestConfig := mkIngestConfig 0 0 [monitor; forwarder] {["fwd" := digest "beta"]}.

Definition accept (_ _ _ : string) (s : unit) : PacketOutcome * unit := (PacketAccepted, s).

Definition registry : Registry :=
  match NewRegistry config (mkOptions None false) with
  | inr r => r
  | inl _ => mkRegistry config ∅ [] [] false ∅ false ∅ false
  end.

Definition start : Tx.St BurnDB (@Push.Mem unit) := Tx.mkSt ∅ (mkMem (SetPacketSink registry) tt 0) [].

Definition post (at_ : Z) : Request * string :=
  (mkRequest "POST" "bearer alpha" "" (Some "{}") (time_of_unix at_) (time_of_unix at_ + 7), MeshStream).

Definition run : list (Request * string) := [post 1000; post 1005; post 1020].

Definition done_ : (Tx.error + list Response) * Tx.St BurnDB (@Push.Mem unit) := serve_all accept run start.
Definition first : (Tx.error + Response) * Tx.St BurnDB (@Push.Mem unit) :=
  ServeStream accept (post 1000).1 MeshStream start.

Lemma rate_limit_witness :
  done_.1 = inr [R202 2 [W_BadID 1; W_Duplicate 2] (time_of_unix 1000); R429 11;
                 R202 2 [W_BadID 1; W_Duplicate 2] (time_of_unix 1020)]
  /\ 15 * second <= time_sub (rq_at (post 1020).1) (rq_handled (post 1000).1).
Proof.
  split; [vm_compute; reflexivity|].
  eapply (proj1 (rate_limit accept run start
     [R202 2 [W_BadID 1; W_Duplicate 2] (time_of_unix 1000); R429 11;
      R202 2 [W_BadID 1; W_Duplicate 2] (time_of_unix 1020)] done_.2
     ltac:(repeat constructor; vm_compute; discriminate) ltac:(repeat constructor)
     ltac:(vm_compute; reflexivity)) 0%nat monitor MeshStream 0%nat 2%nat);
    try reflexivity; [lia|discriminate|..]; vm_compute; reflexivity.
Defined.

Lemma mesh_report_witness :
  first.1 = inr (R202 2 [W_BadID 1; W_Duplicate 2] (time_of_unix 1000))
  /\ exists X, mesh (reg (Tx.mem first.2)) !! "mon" = Some X /\ size X = 2%nat /\ is_Some (X !! "aabbccdd").
Proof.
  split; [vm_compute; reflexivity|].
  destruct (mesh_report accept (post 1000).1 start 2 [W_BadID 1; W_Duplicate 2] (time_of_unix 1000) first.2
    ltac:(vm_compute; discriminate) ltac:(vm_compute; reflexivity))
    as (i & rep & body & p & X & Hi & Hrep & Hb & Hp & HX & Hn & Hids & _).
  assert (i = 0%nat) as -> by (unfold by_reporter in Hi; vm_compute in Hi; congruence).
  injection Hb as <-. injection Hp as <-.
  assert (rc_ID (r_cfg rep) = "mon") as Hid by (vm_compute in Hrep; injection Hrep as <-; reflexivity).
  rewrite Hid in HX. exists X. split; [exact HX|split; [exact Hn|]]. apply Hids.
  split; [vm_compute; reflexivity|]. exists (repeater_in "AABBCCDD" (Some 800)).
  split; [left|vm_compute; reflexivity].
Defined.

Lemma digest_hex token :
  ToLower (TokenHash token) = TokenHash token /\ String.length (TokenHash token) = 64%nat.
Proof. unfold TokenHash. cbn. unfold digest. case_bool_decide; by vm_compute. Qed.

Lemma registry_wf_witness :
  let r := reg (Tx.mem done_.2) in
  id_of <$> order r = ["mon"; "fwd"] /\ authenticate r "beta" = Some 1%nat /\ authenticate r "alpha" <> Some 1%nat.
Proof.
  intros r.
  destruct (registry_wf accept config (mkOptions None false) registry run start
     [R202 2 [W_BadID 1; W_Duplicate 2] (time_of_unix 1000); R429 11;
      R202 2 [W_BadID 1; W_Duplicate 2] (time_of_unix 1020)] done_.2 digest_hex
     ltac:(vm_compute; reflexivity) ltac:(reflexivity) ltac:(vm_compute; reflexivity))
    as (_ & Hids & _ & Hauth & _). fold r in Hids, Hauth.
  split; [exact Hids|]. split; [apply Hauth|rewrite Hauth]; (split || intros [_ H]); vm_compute in *; congruence.
Defined.

End PushDemo.

End PushSpec.
