(* ===== verification/MeshRelaySpec.v ===== *)
(** * What relay attribution promises

    A credit names a catalogued node whose key carries the hop; the second rule
    runs to an end; the graph holds only what the first rule proved; and nothing
    depends on the order a Go map is iterated in. *)

From S2P Require Import Prelude GoText MeshFrame MeshRelay.

Module RelaySpec.
Import Text Frame Relay.

(** ** The index *)

Definition carries (hop pk : string) : Prop := String.length hop ∈ prefixLens /\ HasPrefix pk hop = true.
#[export] Instance carries_dec hop pk : Decision (carries hop pk).
Proof. unfold carries. apply _. Defined.

Lemma length_substring n s : (n <= String.length s)%nat -> String.length (String.substring 0 n s) = n.
Proof.
  revert n. induction s as [|c s IH]; intros [|n] Hn; cbn in *; try lia. by rewrite IH by lia.
Qed.

Lemma HasPrefix_length s p : HasPrefix s p = true -> (String.length p <= String.length s)%nat.
Proof.
  unfold HasPrefix. revert s. induction p as [|c p IH]; intros [|d s]; cbn; try done; [lia|].
  destruct (Ascii.ascii_dec c d); [|done]. intros ?%IH. lia.
Qed.

Lemma HasPrefix_substring s p : HasPrefix s p = true <-> String.substring 0 (String.length p) s = p.
Proof. apply String.prefix_correct. Qed.

Lemma index_prefix_lookup pk idx n h :
  default [] (index_prefix pk idx n !! h)
  = default [] (idx !! h) ++ (if decide (String.length h = n /\ HasPrefix pk h = true) then [pk] else []).
Proof.
  unfold index_prefix. destruct (Nat.leb_spec n (String.length pk)) as [Hn|Hn].
  - destruct (decide (h = String.substring 0 n pk)) as [->|Hne].
    + rewrite lookup_insert_eq, decide_True; [done|]. rewrite length_substring by done. split; [done|].
      apply HasPrefix_substring. by rewrite length_substring.
    + rewrite lookup_insert_ne by done. rewrite decide_False; [by rewrite app_nil_r|].
      intros [<- Hp]. by apply HasPrefix_substring in Hp.
  - rewrite decide_False; [by rewrite app_nil_r|]. intros [<- Hp%HasPrefix_length]. lia.
Qed.

Lemma index_key_lookup idx pk h :
  default [] (index_key idx pk !! h) = default [] (idx !! h) ++ (if decide (carries h pk) then [pk] else []).
Proof.
  unfold index_key, prefixLens. cbn [foldl]. rewrite !index_prefix_lookup, <-!app_assoc. f_equal.
  assert (Hc : carries h pk <-> (String.length h = 2 \/ String.length h = 4 \/ String.length h = 6)%nat
                 /\ HasPrefix pk h = true).
  { unfold carries, prefixLens. rewrite !elem_of_cons, elem_of_nil. tauto. }
  repeat case_decide; try done; exfalso; try lia; tauto.
Qed.

Lemma prefixIndex_lookup keys h : default [] (prefixIndex keys !! h) = filter (carries h) keys.
Proof.
  unfold prefixIndex. change (filter (carries h) keys) with (default [] ((∅ : Index) !! h) ++ filter (carries h) keys).
  generalize (∅ : Index). induction keys as [|pk keys IH]; intros idx; cbn [foldl].
  - by rewrite app_nil_r.
  - rewrite IH, index_key_lookup, <-app_assoc, filter_cons. by case_decide.
Qed.

(** ** Rule 1 *)

(** A full key of the catalog that can appear as a hop. *)
Definition relayable (roles : Roles) (pk : string) : Prop :=
  String.length pk = fullKeyHex /\ exists role, roles !! pk = Some role /\ canRelay role = true.

(** The one candidate that carries the hop. *)
Definition pinned (roles : Roles) (hop pk : string) : Prop :=
  relayable roles pk /\ HasPrefix pk hop = true
  /\ forall pk', relayable roles pk' -> HasPrefix pk' hop = true -> pk' = pk.

Lemma relay_keys roles pk : pk ∈ (map_to_list (filter can_be_hop roles)).*1 <-> relayable roles pk.
Proof.
  rewrite list_elem_of_fmap. unfold relayable, can_be_hop. split.
  - intros ([k role] & -> & Hin%elem_of_map_to_list). apply map_lookup_filter_Some in Hin as [Hl [? ?]].
    cbn in *. eauto.
  - intros (Hl & role & Hr & Hc). exists (pk, role). split; [done|]. apply elem_of_map_to_list.
    by apply map_lookup_filter_Some.
Qed.

Lemma unique_pinned roles hop pk :
  unique (relayIndex roles) hop = pk -> pk <> "" -> pinned roles hop pk /\ String.length hop ∈ prefixLens.
Proof.
  unfold unique, relayIndex. intros Hu Hne. pose proof (prefixIndex_lookup (map_to_list (filter can_be_hop roles)).*1 hop) as Hl.
  destruct (prefixIndex _ !! hop) as [[|c [|]]|]; subst; try done. cbn in Hl.
  assert (Hc : forall x, x ∈ [pk] <-> relayable roles x /\ carries hop x).
  { intros x. rewrite Hl, list_elem_of_filter, relay_keys. tauto. }
  destruct (proj1 (Hc pk)) as [Hrel [Hlen Hpre]]; [left|]. split; [|done]. split_and!; [done..|].
  intros pk' Hr' Hp'. apply list_elem_of_singleton, Hc. done.
Qed.

Lemma pinned_unique roles hop pk :
  pinned roles hop pk -> String.length hop ∈ prefixLens -> unique (relayIndex roles) hop = pk.
Proof.
  intros (Hrel & Hpre & Huni) Hlen. unfold unique, relayIndex.
  set (keys := (map_to_list (filter can_be_hop roles)).*1).
  assert (Hf : filter (carries hop) keys = [pk]).
  { apply Permutation_singleton_r. apply NoDup_Permutation; [apply NoDup_filter, NoDup_fst_map_to_list|apply NoDup_singleton|].
    intros x. rewrite list_elem_of_filter, list_elem_of_singleton. unfold keys. rewrite relay_keys. split.
    - intros [[_ ?] ?]. by apply Huni.
    - intros ->. done. }
  rewrite <-prefixIndex_lookup in Hf. destruct (prefixIndex keys !! hop); cbn in Hf; subst; done.
Qed.

Lemma length_rule1 hs idx : length (resolveByPrefix hs idx) = length hs.
Proof.
  unfold resolveByPrefix. destruct hs as [|h hs]; [done|]. destruct (_ <? 4)%nat.
  - by rewrite length_replicate.
  - by rewrite length_fmap.
Qed.

(** A path of 1-byte hops resolves nothing by prefix. *)
Definition one_byte (hs : list string) : Prop := match hs with h :: _ => (String.length h < 4)%nat | [] => False end.

Lemma rule1_pinned roles hs i hop pk :
  resolveByPrefix hs (relayIndex roles) !! i = Some pk -> pk <> "" -> hs !! i = Some hop ->
  pinned roles hop pk /\ ~ one_byte hs.
Proof.
  unfold resolveByPrefix. destruct hs as [|h hs]; [done|]. destruct (Nat.ltb_spec (String.length h) 4).
  - intros [-> _]%lookup_replicate. done.
  - intros Hl Hne Hh. rewrite list_lookup_fmap, Hh in Hl. cbn in Hl. injection Hl as Hl.
    destruct (unique_pinned _ _ _ Hl Hne) as [? _]. split; [done|]. cbn. lia.
Qed.

Lemma rule1_one_byte hs idx : one_byte hs -> resolveByPrefix hs idx = replicate (length hs) "".
Proof.
  unfold resolveByPrefix, one_byte. destruct hs as [|h hs]; [done|].
  by destruct (Nat.ltb_spec (String.length h) 4); [|lia].
Qed.

(** ** Rule 2 *)

Definition cand (roles : Roles) (hop : string) (nbs : list string) (nb : string) : Prop :=
  nb ∈ nbs /\ candidate roles hop nb = true.

Lemma candidate_spec roles hop nb :
  candidate roles hop nb = true <-> relayable roles nb /\ HasPrefix nb hop = true.
Proof.
  unfold candidate, relayable. rewrite !andb_true_iff, Nat.eqb_eq. split.
  - intros [[? ?] Hr]. destruct (roles !! nb) as [role|]; [|done]. eauto.
  - intros [[? (role & -> & ?)] ?]. done.
Qed.

Lemma candidate_nonempty roles hop : candidate roles hop "" = false.
Proof. done. Qed.

Lemma consider_mono roles hop nbs st :
  (st.2 <= (foldl (consider roles hop) st nbs).2)%nat
  /\ ((foldl (consider roles hop) st nbs).2 = st.2 -> foldl (consider roles hop) st nbs = st).
Proof.
  revert st. induction nbs as [|y nbs IH]; intros st; cbn [foldl]; [done|].
  assert (Hy : consider roles hop st y = st \/ consider roles hop st y = (y, S st.2)).
  { unfold consider. destruct (_ || _); auto. }
  destruct Hy as [-> | ->]; [apply IH|]. destruct (IH (y, S st.2)) as [H1 _]. cbn in H1. split; lia.
Qed.

Lemma consider_stay roles hop nbs p c :
  foldl (consider roles hop) (p, c) nbs = (p, c) <-> (forall nb, cand roles hop nbs nb -> nb = p).
Proof.
  induction nbs as [|nb nbs IH]; cbn [foldl]; [split; [by intros _ nb [?%not_elem_of_nil _]|done]|].
  unfold consider at 2. cbn [fst snd]. destruct (bool_decide (nb = p)) eqn:Ep; cbn [orb].
  { apply bool_decide_eq_true in Ep. subst nb. rewrite IH. unfold cand. split.
    - intros Hall nb [[->|?]%elem_of_cons ?]; [done|by apply Hall].
    - intros Hall nb [? ?]. apply Hall. split; [by right|done]. }
  apply bool_decide_eq_false in Ep. destruct (candidate roles hop nb) eqn:Ec; cbn [negb].
  - split.
    + intros Heq. destruct (consider_mono roles hop nbs (nb, S c)) as [Hm _]. rewrite Heq in Hm. cbn in Hm. lia.
    + intros Hall. destruct Ep. apply Hall. split; [left|done].
  - rewrite IH. unfold cand. split.
    + intros Hall nb' [[->|?]%elem_of_cons ?]; [congruence|by apply Hall].
    + intros Hall nb' [? ?]. apply Hall. split; [by right|done].
Qed.

(** The count is one exactly when both sides together have one candidate, in
    whatever order they are gone through. *)
Lemma pick_hop_one roles hop before after pk :
  pick_hop roles hop before after = (pk, 1%nat)
  <-> cand roles hop (before ++ after) pk /\ forall nb, cand roles hop (before ++ after) nb -> nb = pk.
Proof.
  unfold pick_hop. rewrite <-foldl_app. generalize (before ++ after). clear before after. intros nbs.
  induction nbs as [|nb nbs IH]; [split; [done|by intros [[?%not_elem_of_nil _] _]]|].
  cbn [foldl]. unfold consider at 2. cbn [fst snd].
  destruct (candidate roles hop nb) eqn:Ec.
  - rewrite bool_decide_false by (intros ->; done). cbn [orb negb].
    assert (Hc : cand roles hop (nb :: nbs) nb) by (split; [left|done]).
    assert (Hsplit : forall x, cand roles hop (nb :: nbs) x <-> x = nb \/ cand roles hop nbs x).
    { intros x. unfold cand. rewrite elem_of_cons. split; [tauto|]. intros [->|[? ?]]; auto. }
    split.
    + intros Heq.
      destruct (consider_mono roles hop nbs (nb, 1%nat)) as [_ Hsame]. rewrite Heq in Hsame. specialize (Hsame eq_refl).
      injection Hsame as ->. split; [done|]. intros x [->|Hx]%Hsplit; [done|].
      by apply (proj1 (consider_stay roles hop nbs nb 1)).
    + intros [_ Hall]. assert (nb = pk) as <- by by apply Hall.
      apply consider_stay. intros x Hx. apply Hall, Hsplit. by right.
  - rewrite orb_true_r. rewrite IH. unfold cand.
    assert (Hsplit : forall x, x ∈ nb :: nbs /\ candidate roles hop x = true <-> x ∈ nbs /\ candidate roles hop x = true).
    { intros x. rewrite elem_of_cons. split; [|tauto]. intros [[->|?] ?]; [congruence|done]. }
    setoid_rewrite Hsplit. done.
Qed.

(** A resolution of a path: parallel to it, naming only nodes that carry the hop. *)
Definition resolution (roles : Roles) (hs res : list string) : Prop :=
  length res = length hs
  /\ forall i hop pk, hs !! i = Some hop -> res !! i = Some pk -> pk <> "" ->
       relayable roles pk /\ HasPrefix pk hop = true.

Lemma rule1_resolution roles hs : resolution roles hs (resolveByPrefix hs (relayIndex roles)).
Proof.
  split; [apply length_rule1|]. intros i hop pk Hh Hr Hne.
  by destruct (rule1_pinned roles hs i hop pk Hr Hne Hh) as [(? & ? & _) _].
Qed.

Definition unresolved (res : list string) : nat := length (filter (fun pk => pk = "") res).

(** What stops rule 2 at position [i]: it is resolved, or the two anchors do not
    have exactly one candidate between them. *)
Definition settled (adj : Adj) (roles : Roles) (p : relayPath) (res : list string) (i : nat) : Prop :=
  default "" (res !! i) <> ""
  \/ ~ exists pk, let nbs := neighbours adj (anchors p res i).1 ++ neighbours adj (anchors p res i).2 in
       cand roles (default "" (hops p !! i)) nbs pk
       /\ forall nb, cand roles (default "" (hops p !! i)) nbs nb -> nb = pk.

Lemma unresolved_insert res i pk :
  default "" (res !! i) = "" -> (i < length res)%nat -> pk <> "" ->
  (unresolved (<[i := pk]> res) < unresolved res)%nat.
Proof.
  intros Hi Hlt Hne. destruct (lookup_lt_is_Some_2 res i Hlt) as [x Hx]. rewrite Hx in Hi. cbn in Hi. subst x.
  unfold unresolved. rewrite <-(take_drop_middle res i "" Hx) at 2.
  rewrite insert_take_drop by done. rewrite !filter_app, !filter_cons, !length_app.
  rewrite (decide_False (P := pk = "")), (decide_True (P := "" = "")) by done. cbn. lia.
Qed.

Lemma resolve_at_spec adj roles p st i :
  resolution roles (hops p) st.1 -> (i < length (hops p))%nat ->
  (resolve_at adj roles p st i = st /\ settled adj roles p st.1 i)
  \/ exists res', resolve_at adj roles p st i = (res', true) /\ resolution roles (hops p) res'
       /\ (unresolved res' < unresolved st.1)%nat
       /\ (forall j pk, st.1 !! j = Some pk -> pk <> "" -> res' !! j = Some pk).
Proof.
  intros [Hlen Hok] Hi. unfold resolve_at, settled. case_bool_decide as He; cbn [negb]; [|by left; split; [|left]].
  destruct (anchors p st.1 i) as [a b] eqn:Ea. cbn [fst snd].
  destruct (pick_hop _ _ _ _) as [pk n] eqn:Ep. cbn [fst snd].
  destruct (Nat.eqb_spec n 1) as [->|Hn].
  - right. apply pick_hop_one in Ep as [[_ Hc] _]. apply candidate_spec in Hc as [Hrel Hpre].
    assert (Hne : pk <> "") by (intros ->; destruct Hrel; done).
    exists (<[i := pk]> st.1). split_and!; [done| |by apply unresolved_insert; [|lia|]|].
    + split; [by rewrite length_insert|]. intros j hop x Hh [(<- & <- & _)|[_ Hx]]%list_lookup_insert_Some Hnx.
      * rewrite Hh in Hpre. done.
      * by eapply Hok.
    + intros j x Hx Hnx. rewrite list_lookup_insert_ne; [done|]. intros <-. rewrite Hx in He. done.
  - left. split; [done|]. right. intros (x & Hx). apply pick_hop_one in Hx. congruence.
Qed.

Lemma resolve_pass_spec adj roles p res :
  resolution roles (hops p) res ->
  let st := resolve_pass adj roles p res in
  resolution roles (hops p) st.1
  /\ (forall j pk, res !! j = Some pk -> pk <> "" -> st.1 !! j = Some pk)
  /\ (if st.2 then (unresolved st.1 < unresolved res)%nat
      else st.1 = res /\ forall i, (i < length (hops p))%nat -> settled adj roles p res i).
Proof.
  intros Hres. unfold resolve_pass.
  assert (Hgen : forall l st, (forall i, i ∈ l -> (i < length (hops p))%nat) -> resolution roles (hops p) st.1 ->
    let st' := foldl (resolve_at adj roles p) st l in
    resolution roles (hops p) st'.1
    /\ (forall j pk, st.1 !! j = Some pk -> pk <> "" -> st'.1 !! j = Some pk)
    /\ (unresolved st'.1 <= unresolved st.1)%nat
    /\ (st'.2 = true -> st.2 = true \/ (unresolved st'.1 < unresolved st.1)%nat)
    /\ (st'.2 = false -> st' = st /\ forall i, i ∈ l -> settled adj roles p st.1 i)).
  { clear res Hres. induction l as [|i l IH]; intros st Hl Hres; cbn [foldl].
    { split_and!; try done; [by left|]. intros _. split; [done|]. by intros i ?%not_elem_of_nil. }
    assert (Hi : (i < length (hops p))%nat) by (apply Hl; left).
    assert (Hl' : forall j, j ∈ l -> (j < length (hops p))%nat) by (intros j Hj; apply Hl; by right).
    destruct (resolve_at_spec adj roles p st i Hres Hi) as [[-> Hs]|(res' & -> & Hres' & Hlt & Hkeep)].
    - destruct (IH st Hl' Hres) as (? & ? & ? & ? & Hf). split_and!; try done.
      intros Hfalse. destruct (Hf Hfalse) as [? Hset]. split; [done|]. intros j [->|Hj]%elem_of_cons; [done|by apply Hset].
    - destruct (IH (res', true) Hl' Hres') as (? & Hk & Hle & Ht & Hf). cbn [fst snd] in *. split_and!; try done.
      + intros j pk Hj Hne. by apply Hk; [apply Hkeep|].
      + lia.
      + intros _. right. lia.
      + intros Hfalse. destruct (Hf Hfalse) as [Heq _]. by rewrite Heq in Hfalse. }
  destruct (Hgen (seq 0 (length (hops p))) (res, false)) as (H1 & H2 & _ & H4 & H5); [|done|].
  { intros i Hi%elem_of_seq. lia. }
  cbn in *. split_and!; [done..|]. destruct (foldl _ _ _) as [res' ch]; cbn in *. destruct ch.
  - destruct (H4 eq_refl); done.
  - destruct (H5 eq_refl) as [[= ->] Hs]. split; [done|]. intros i Hi. apply Hs, elem_of_seq. lia.
Qed.

Lemma resolve_loop_spec fuel adj roles p res :
  resolution roles (hops p) res -> (unresolved res < fuel)%nat ->
  exists res', resolve_loop fuel adj roles p res = Some res' /\ resolution roles (hops p) res'
    /\ (forall j pk, res !! j = Some pk -> pk <> "" -> res' !! j = Some pk)
    /\ forall i, (i < length (hops p))%nat -> settled adj roles p res' i.
Proof.
  revert res. induction fuel as [|fuel IH]; intros res Hres Hf; [lia|]. cbn [resolve_loop].
  pose proof (resolve_pass_spec adj roles p res Hres) as Hp.
  destruct (resolve_pass adj roles p res) as [res1 ch]. cbn [fst snd] in Hp. destruct Hp as (Hres1 & Hkeep & Hc).
  destruct ch.
  - destruct (IH res1 Hres1 ltac:(lia)) as (res' & ? & ? & Hk & ?). exists res'. split_and!; [done..| |done].
    intros j pk Hj Hne. by apply Hk; [apply Hkeep|].
  - destruct Hc as [-> Hs]. by exists res.
Qed.

Lemma unresolved_le res : (unresolved res <= length res)%nat.
Proof. apply length_filter. Qed.

(** The second rule ends on every path and leaves it settled: an unresolved
    hop is one whose neighbouring anchors have no candidate or several between
    them, in whatever order they are gone through. What was resolved stays, and
    what it adds is a catalogued, relay-capable full key that carries the hop. *)
Theorem rule2_settles adj roles p :
  let res := resolveByPrefix (hops p) (relayIndex roles) in
  exists res', resolve_loop (S (length (hops p))) adj roles p res = Some res'
    /\ resolveByNeighboursLocked adj roles p res = res'
    /\ resolution roles (hops p) res'
    /\ (forall j pk, res !! j = Some pk -> pk <> "" -> res' !! j = Some pk)
    /\ forall i, (i < length (hops p))%nat -> settled adj roles p res' i.
Proof.
  intros res. pose proof (rule1_resolution roles (hops p)) as Hres. fold res in Hres.
  destruct (resolve_loop_spec (S (length (hops p))) adj roles p res Hres) as (res' & Hl & Hrest).
  { pose proof (unresolved_le res). destruct Hres as [Hlen _]. lia. }
  exists res'. split; [done|]. split; [|done]. unfold resolveByNeighboursLocked. by rewrite Hl.
Qed.

(** ** The neighbour graph *)

Definition edge (adj : Adj) (a b : string) : option Time := adj !! a ≫= (.!! b).

(** Links go both ways, join two nodes, and name both. *)
Definition adj_ok (adj : Adj) : Prop :=
  (forall a b, edge adj a b = edge adj b a) /\ forall a b t, edge adj a b = Some t -> a <> b /\ a <> "".

Lemma edge_add_half a b t adj x y :
  edge (add_half a b t adj) x y =
    if decide (x = a /\ y = b /\ time_after t (default time_zero (edge adj a b)) = true) then Some t else edge adj x y.
Proof.
  unfold add_half, edge.
  assert (Hm : forall z, default ∅ (adj !! a) !! z = adj !! a ≫= (.!! z)) by (intros z; by destruct (adj !! a)).
  destruct (decide (x = a)) as [->|Hx].
  - rewrite lookup_insert_eq. cbn. rewrite !Hm. destruct (time_after _ _) eqn:Et.
    + destruct (decide (y = b)) as [->|Hy].
      * by rewrite lookup_insert_eq, decide_True.
      * rewrite lookup_insert_ne, Hm by done. rewrite decide_False by tauto. done.
    + rewrite Hm, decide_False; [done|]. intros (_ & _ & ?). done.
  - rewrite lookup_insert_ne by done. by rewrite decide_False by tauto.
Qed.

Definition joins (a b x y : string) : Prop := x = a /\ y = b \/ x = b /\ y = a.

Lemma edge_addEdge a b t adj x y :
  adj_ok adj ->
  let e := edge (addEdgeLocked a b t adj) x y in
  (e = edge adj x y /\ (joins a b x y -> a <> "" -> b <> "" -> a <> b -> t <= default time_zero (edge adj x y)))
  \/ e = Some t /\ joins a b x y /\ a <> "" /\ b <> "" /\ a <> b
     /\ default time_zero (edge adj x y) < t.
Proof.
  intros [Hsym _]. unfold addEdgeLocked, joins. cbn zeta. repeat case_bool_decide; cbn [orb];
    try (left; split; [done|by intros ? ? ? ?]).
  rewrite !edge_add_half. rewrite (decide_False (P := b = a /\ _)) by naive_solver.
  rewrite (Hsym b a).
  destruct (time_after t (default time_zero (edge adj a b))) eqn:Et.
  - apply time_after_spec in Et. destruct (decide (x = b /\ y = a)) as [[-> ->]|Hba].
    + rewrite decide_True by done. right. rewrite (Hsym b a). split_and!; try done. by right.
    + rewrite (decide_False (P := x = b /\ _)) by tauto. destruct (decide (x = a /\ y = b)) as [[-> ->]|Hab].
      * rewrite decide_True by done. right. split_and!; try done. by left.
      * rewrite decide_False by tauto. left. split; [done|]. intros [?|?]; tauto.
  - apply time_after_false in Et. rewrite !decide_False by (intros (_ & _ & ?); done). left. split; [done|].
    intros [[-> ->]|[-> ->]] _ _ _; [done|]. by rewrite (Hsym b a).
Qed.

Lemma addEdge_ok a b t adj : adj_ok adj -> adj_ok (addEdgeLocked a b t adj).
Proof.
  intros Hok. pose proof Hok as [Hsym Hne]. split.
  - intros x y. destruct (edge_addEdge a b t adj x y Hok) as [[E1 L1]|(E1 & J1 & ? & ? & ? & L1)],
      (edge_addEdge a b t adj y x Hok) as [[E2 L2]|(E2 & J2 & ? & ? & ? & L2)]; rewrite E1, E2; try done.
    + exfalso. rewrite (Hsym x y) in L1. assert (joins a b x y) by (unfold joins in *; tauto).
      assert (t <= default time_zero (edge adj y x)) by auto. lia.
    + exfalso. rewrite (Hsym x y) in L1. assert (joins a b y x) by (unfold joins in *; tauto).
      assert (t <= default time_zero (edge adj y x)) by auto. lia.
  - intros x y u Hu. destruct (edge_addEdge a b t adj x y Hok) as [[E _]|(E & J & ? & ? & ? & _)].
    + rewrite E in Hu. by eapply Hne.
    + unfold joins in J. naive_solver.
Qed.

(** Two consecutive known positions of a chain. *)
Definition consecutive (chain : list string) (a b : string) : Prop :=
  exists i x y, chain !! i = Some x /\ chain !! S i = Some y /\ joins x y a b /\ a <> "" /\ b <> "".

Lemma learn_chain_spec chain t adj :
  adj_ok adj ->
  adj_ok (learn_chain chain t adj)
  /\ forall a b u, edge (learn_chain chain t adj) a b = Some u ->
       edge adj a b = Some u \/ u = t /\ consecutive chain a b.
Proof.
  revert adj. induction chain as [|x [|y chain] IH]; intros adj Hok; cbn [learn_chain]; [split; auto..|].
  destruct (IH (addEdgeLocked x y t adj)) as [Hok' He]; [by apply addEdge_ok|]. split; [done|].
  intros a b u [Hu|[-> (i & x' & y' & ? & ? & ?)]]%He.
  - destruct (edge_addEdge x y t adj a b Hok) as [[E _]|(E & J & ? & ? & ? & _)]; rewrite E in Hu; [by left|].
    right. injection Hu as <-. split; [done|]. exists 0%nat, x, y. unfold joins in *. naive_solver.
  - right. split; [done|]. by exists (S i), x', y'.
Qed.

(** A chain of a 1-byte path has no two known neighbours. *)
Lemma one_byte_chain p a b n :
  (0 < n)%nat -> ~ consecutive (sender p :: replicate n "" ++ [observer p]) a b.
Proof.
  intros Hn (i & x & y & Hx & Hy & Hj & Ha & Hb). cbn in Hy.
  assert (Hgap : x = "" \/ y = ""); [|unfold joins in Hj; naive_solver].
  destruct i as [|i]; cbn in Hx.
  - right. destruct n; [lia|]. cbn in Hy. congruence.
  - left. apply lookup_app_Some in Hx as [[-> _]%lookup_replicate|[Hge Hx]]; [done|].
    apply lookup_lt_Some in Hy. rewrite length_app, length_replicate in *. cbn in Hy. lia.
Qed.

Lemma edge_prune now adj a b :
  edge (pruneAdjacencyLocked now adj) a b =
    t ← edge adj a b; if decide (time_sub now t <= AdjacencyRetention) then Some t else None.
Proof.
  unfold edge, pruneAdjacencyLocked. rewrite map_lookup_filter, lookup_fmap.
  destruct (adj !! a) as [m|]; [|done]. cbn.
  assert (Hm : filter (fresh_edge now) m !! b
               = t ← m !! b; if decide (time_sub now t <= AdjacencyRetention) then Some t else None).
  { rewrite map_lookup_filter. destruct (m !! b) as [t|]; [|done]. cbn. unfold fresh_edge. cbn.
    destruct (decide (time_sub now t <= AdjacencyRetention)); by case_guard. }
  case_guard as Hg; cbn; [done|]. by rewrite <-Hm, Hg.
Qed.

Lemma prune_ok now adj : adj_ok adj -> adj_ok (pruneAdjacencyLocked now adj).
Proof.
  intros [Hsym Hne]. split.
  - intros a b. by rewrite !edge_prune, Hsym.
  - intros a b t. rewrite edge_prune. intros (u & Hu & _)%bind_Some. by eapply Hne.
Qed.

(** A link learned from a buffered path. *)
Definition taught (roles : Roles) (es : list relayEntry) (a b : string) (u : Time) : Prop :=
  exists e, e ∈ es /\ e_at e = u /\ ~ one_byte (hops (e_path e))
    /\ consecutive (chain_of (e_path e) (resolveByPrefix (hops (e_path e)) (relayIndex roles))) a b.

Lemma learn_spec roles p t adj :
  adj_ok adj ->
  let adj' := learnLocked p (resolveByPrefix (hops p) (relayIndex roles)) t adj in
  adj_ok adj' /\ forall a b u, edge adj' a b = Some u -> edge adj a b = Some u \/ taught roles [mkRelayEntry p t] a b u.
Proof.
  intros Hok. unfold learnLocked. set (res := resolveByPrefix _ _).
  destruct (learn_chain_spec (chain_of p res) t adj Hok) as [Hok' He]. split; [done|].
  intros a b u [?|[-> Hc]]%He; [by left|]. right. exists (mkRelayEntry p t).
  split_and!; [left|done| |done]. intros Hone. cbn in Hone. unfold chain_of, res in Hc.
  rewrite rule1_one_byte in Hc by done. apply one_byte_chain in Hc; [done|].
  destruct (hops p); [done|cbn; lia].
Qed.

Lemma taught_mono roles es es' a b u : es ⊆ es' -> taught roles es a b u -> taught roles es' a b u.
Proof. intros Hsub (e & He & Hrest). exists e. split; [by apply Hsub|done]. Qed.

Lemma learn_all_spec roles es adj :
  adj_ok adj ->
  let adj' := foldl (learn_entry (relayIndex roles)) adj es in
  adj_ok adj' /\ forall a b u, edge adj' a b = Some u -> edge adj a b = Some u \/ taught roles es a b u.
Proof.
  revert adj. induction es as [|e es IH]; intros adj Hok; cbn [foldl]; [split; auto|].
  destruct (learn_spec roles (e_path e) (e_at e) adj Hok) as [Hok1 H1].
  destruct (IH _ Hok1) as [Hok2 H2]. split; [done|]. intros a b u [Hu|Ht]%H2.
  - destruct (H1 _ _ _ Hu) as [?|(e' & ->%list_elem_of_singleton & Hrest)]; [by left|]. right.
    exists e. split; [left|done].
  - right. eapply taught_mono; [|exact Ht]. intros x Hx. by right.
Qed.

Lemma drain_graph now roles es rs adj :
  (drain now roles es rs adj).2 = foldl (learn_entry (relayIndex roles)) (pruneAdjacencyLocked now adj) es.
Proof. unfold drain. by destruct es, rs. Qed.

Section Seeding.
Context `{UnicodeLower}.

Definition seed_entry (sp : SeedPath) : relayEntry :=
  mkRelayEntry (mkRelayPath (sp_Hops sp) (anchorKey (sp_Observer sp)) (ToLower (sp_Sender sp))) (sp_At sp).

Lemma seed_spec now roles sps adj :
  adj_ok adj ->
  let adj' := foldl (seed_path now (relayIndex roles)) adj sps in
  adj_ok adj' /\ forall a b u, edge adj' a b = Some u ->
    edge adj a b = Some u \/ taught roles (seed_entry <$> sps) a b u /\ time_sub now u <= AdjacencyRetention.
Proof.
  revert adj. induction sps as [|sp sps IH]; intros adj Hok; cbn [foldl]; [split; auto|].
  unfold seed_path at 2 4. destruct (Z.ltb_spec AdjacencyRetention (time_sub now (sp_At sp))) as [Hold|Hnew].
  - destruct (IH adj Hok) as [? Hr]. split; [done|]. intros a b u [?|[Ht ?]]%Hr; [by left|]. right. split; [|done].
    eapply taught_mono; [|exact Ht]. intros x Hx. by right.
  - destruct (learn_spec roles (e_path (seed_entry sp)) (sp_At sp) adj Hok) as [Hok1 H1].
    destruct (IH _ Hok1) as [Hok2 H2]. split; [done|]. intros a b u [Hu|[Ht ?]]%H2.
    + destruct (H1 _ _ _ Hu) as [?|(e' & ->%list_elem_of_singleton & <- & Hrest)]; [by left|]. right.
      split; [|done]. exists (seed_entry sp). split; [left|done].
    + right. split; [|done]. eapply taught_mono; [|exact Ht]. intros x Hx. by right.
Qed.

(** The neighbour graph is symmetric, joins distinct named nodes, and learns
    a link only from two neighbouring positions of a path that the first rule
    (or the path's own ends) names: no inference of the second rule enters it,
    and a path of 1-byte hops teaches nothing. Seeding at boot is held to the
    same; a drain drops every link past its retention. *)
Theorem graph_evidence now roles es rs sps adj :
  adj_ok adj ->
  (adj_ok (drain now roles es rs adj).2
   /\ forall a b u, edge (drain now roles es rs adj).2 a b = Some u ->
      edge adj a b = Some u /\ time_sub now u <= AdjacencyRetention \/ taught roles es a b u)
  /\ adj_ok (foldl (seed_path now (relayIndex roles)) adj sps)
  /\ forall a b u, edge (foldl (seed_path now (relayIndex roles)) adj sps) a b = Some u ->
      edge adj a b = Some u \/ taught roles (seed_entry <$> sps) a b u /\ time_sub now u <= AdjacencyRetention.
Proof.
  intros Hok. split; [|by apply seed_spec]. rewrite drain_graph.
  destruct (learn_all_spec roles es (pruneAdjacencyLocked now adj)) as [Hok' He]; [by apply prune_ok|].
  split; [done|]. intros a b u [Hu|?]%He; [|by right]. left. rewrite edge_prune in Hu.
  apply bind_Some in Hu as (t & Ht & Hif). case_decide; by simplify_eq.
Qed.

End Seeding.

(** ** Credits *)

Abbreviation Credit := (string * Time)%type.

Definition credits (f : relayEntry -> list string) (es : list relayEntry) : list Credit :=
  es ≫= fun e => (fun pk => (pk, e_at e)) <$> f e.

Definition credit1 (out : gmap string Time) (x : Credit) : gmap string Time := credit x.2 out x.1.

Lemma credit_fold f es out :
  foldl (fun out e => foldl (credit (e_at e)) out (f e)) out es = foldl credit1 out (credits f es).
Proof.
  revert out. induction es as [|e es IH]; intros out; [done|]. cbn. rewrite foldl_app, IH. f_equal.
  generalize (f e). intros l. revert out. induction l as [|pk l IHl]; intros out; [done|]. cbn. apply IHl.
Qed.

(** The latest time a node is credited with, zero for none. *)
Definition best (l : list Credit) (pk : string) : Time :=
  foldr (fun x t => if bool_decide (x.1 = pk) then Z.max x.2 t else t) time_zero l.

Lemma best_cons x l pk : best (x :: l) pk = if bool_decide (x.1 = pk) then Z.max x.2 (best l pk) else best l pk.
Proof. done. Qed.

Lemma best_nonneg l pk : 0 <= best l pk.
Proof. induction l as [|x l IH]; [done|]. rewrite best_cons. case_bool_decide; lia. Qed.

Lemma best_perm l k pk : l ≡ₚ k -> best l pk = best k pk.
Proof.
  induction 1 as [|x l k _ IH|x y l|l1 l2 l3 _ IH1 _ IH2]; rewrite ?best_cons; [done|by rewrite IH| |by rewrite IH1].
  repeat case_bool_decide; lia.
Qed.

Lemma credits_lookup l out pk :
  0 <= default time_zero (out !! pk) ->
  foldl credit1 out l !! pk =
    if decide (pk <> "" /\ default time_zero (out !! pk) < best l pk) then Some (best l pk) else out !! pk.
Proof.
  revert out. induction l as [|x l IH]; intros out Hpos; cbn [foldl].
  { rewrite decide_False; [done|]. intros [_ Hlt]. change (best [] pk) with 0 in Hlt. lia. }
  rewrite best_cons.
  assert (H1 : credit1 out x !! pk = if decide (pk <> "" /\ x.1 = pk /\ default time_zero (out !! pk) < x.2)
                                     then Some x.2 else out !! pk).
  { unfold credit1, credit. destruct (decide (x.1 = pk)) as [->|Hne].
    - case_bool_decide; cbn [negb andb]; [by rewrite decide_False by tauto|].
      destruct (time_after _ _) eqn:Et; [apply time_after_spec in Et|apply time_after_false in Et].
      + rewrite lookup_insert_eq, decide_True; done.
      + rewrite decide_False; [done|]. lia.
    - rewrite decide_False by tauto. destruct (_ && _); [by rewrite lookup_insert_ne|done]. }
  rewrite IH; [|rewrite H1; case_decide; cbn; [lia|done]]. rewrite H1. clear IH H1.
  case_bool_decide as Hx; repeat case_decide; cbn in *; try done; try (f_equal; lia); try (exfalso; lia);
    try (exfalso; intuition lia); f_equal.
  - destruct (Z.lt_ge_cases (default time_zero (out !! pk)) x.2); [tauto|lia].
  - destruct (Z.lt_ge_cases x.2 (best l pk)); [tauto|lia].
Qed.

(** ** The drain *)

Definition rule1 (roles : Roles) (e : relayEntry) : list string :=
  resolveByPrefix (hops (e_path e)) (relayIndex roles).
Definition rule2 (adj : Adj) (roles : Roles) (e : relayEntry) : list string :=
  resolveByNeighboursLocked adj roles (e_path e) (rule1 roles e).

(** What a path says of a node: a relayed packet by both rules, a route by the
    first only. *)
Definition claims (adj : Adj) (roles : Roles) (es rs : list relayEntry) (e : relayEntry) (pk : string) : Prop :=
  pk <> "" /\ (e ∈ rs /\ pk ∈ rule1 roles e \/ e ∈ es /\ pk ∈ rule2 adj roles e).

Definition all_credits (adj : Adj) (roles : Roles) (es rs : list relayEntry) : list Credit :=
  credits (rule1 roles) rs ++ credits (rule2 adj roles) es.

Lemma drain_credits now roles es rs adj pk :
  let out := drain now roles es rs adj in
  out.1 !! pk = if decide (pk <> "" /\ 0 < best (all_credits out.2 roles es rs) pk)
                then Some (best (all_credits out.2 roles es rs) pk) else None.
Proof.
  intros out. assert (Hout : out.1 = foldl credit1 ∅ (all_credits out.2 roles es rs)).
  { unfold all_credits. rewrite foldl_app, <-!credit_fold. unfold out, drain. by destruct es, rs. }
  rewrite Hout, credits_lookup; rewrite lookup_empty; done.
Qed.

Lemma best_spec adj roles es rs pk :
  pk <> "" ->
  (forall e, claims adj roles es rs e pk -> e_at e <= best (all_credits adj roles es rs) pk)
  /\ (0 < best (all_credits adj roles es rs) pk ->
      exists e, claims adj roles es rs e pk /\ e_at e = best (all_credits adj roles es rs) pk).
Proof.
  intros Hne.
  assert (Hin : forall x, x ∈ all_credits adj roles es rs /\ x.1 = pk <->
    exists e, claims adj roles es rs e pk /\ x = (pk, e_at e)).
  { intros [k t]. unfold all_credits, credits, claims. rewrite elem_of_app, !list_elem_of_bind.
    setoid_rewrite list_elem_of_fmap. naive_solver. }
  assert (Hb : (forall x, x ∈ all_credits adj roles es rs /\ x.1 = pk -> x.2 <= best (all_credits adj roles es rs) pk)
    /\ (0 < best (all_credits adj roles es rs) pk -> exists x, (x ∈ all_credits adj roles es rs /\ x.1 = pk)
         /\ x.2 = best (all_credits adj roles es rs) pk)).
  { clear Hin. induction (all_credits adj roles es rs) as [|x l [IH1 IH2]]; [split; [by intros ? [?%not_elem_of_nil _]|done]|].
    rewrite best_cons. split.
    - intros y [[->|Hy]%elem_of_cons Hk].
      + rewrite bool_decide_true by done. lia.
      + specialize (IH1 y (conj Hy Hk)). case_bool_decide; lia.
    - intros Hpos. case_bool_decide as Hx.
      + destruct (Z.max_spec x.2 (best l pk)) as [[Hlt Hm]|[Hge Hm]]; rewrite Hm in *.
        * destruct IH2 as (y & [? ?] & ?); [done|]. exists y. split; [split; [by right|done]|done].
        * exists x. split; [split; [left|done]|done].
      + destruct IH2 as (y & [? ?] & ?); [done|]. exists y. split; [split; [by right|done]|done]. }
  destruct Hb as [Hb1 Hb2]. split.
  - intros e He. apply (Hb1 (pk, e_at e)). apply Hin. eauto.
  - intros Hpos. destruct (Hb2 Hpos) as (x & Hx & Ht). apply Hin in Hx as (e & He & ->). eauto.
Qed.

(** A claim names a catalogued relay-capable node by its full key, and the path
    has a hop its key begins with. *)
Lemma claims_sound adj roles es rs e pk :
  claims adj roles es rs e pk ->
  relayable roles pk /\ exists hop, hop ∈ hops (e_path e) /\ HasPrefix pk hop = true.
Proof.
  assert (Hgen : forall res, resolution roles (hops (e_path e)) res -> pk <> "" -> pk ∈ res ->
    relayable roles pk /\ exists hop, hop ∈ hops (e_path e) /\ HasPrefix pk hop = true).
  { intros res [Hlen Hok] Hne [i Hi]%list_elem_of_lookup.
    assert (Hlt : (i < length (hops (e_path e)))%nat) by (rewrite <-Hlen; by eapply lookup_lt_Some).
    destruct (lookup_lt_is_Some_2 _ _ Hlt) as [hop Hh]. destruct (Hok i hop pk Hh Hi Hne) as [? ?].
    split; [done|]. exists hop. split; [by eapply list_elem_of_lookup_2|done]. }
  intros [Hne [[_ Hin]|[_ Hin]]].
  - by apply (Hgen (rule1 roles e)); [apply rule1_resolution|..].
  - destruct (rule2_settles adj roles (e_path e)) as (res' & _ & Hr & Hres & _).
    apply (Hgen (rule2 adj roles e)); [|done..]. unfold rule2, rule1. by rewrite Hr.
Qed.

(** A drain credits a node exactly when a buffered path claims it, at the
    time of the latest such path; every node credited is catalogued, able to
    relay, named by its full key, and its key begins with a hop of that path. A
    direct route of 1-byte hops credits nobody. *)
Theorem relay_credit now roles es rs adj :
  let out := drain now roles es rs adj in
  (forall pk t, out.1 !! pk = Some t ->
     0 < t /\ relayable roles pk
     /\ (exists e, claims out.2 roles es rs e pk /\ e_at e = t
          /\ exists hop, hop ∈ hops (e_path e) /\ HasPrefix pk hop = true)
     /\ forall e, claims out.2 roles es rs e pk -> e_at e <= t)
  /\ (forall e pk, claims out.2 roles es rs e pk -> 0 < e_at e -> is_Some (out.1 !! pk))
  /\ (forall e pk, e ∈ rs -> one_byte (hops (e_path e)) -> pk <> "" -> pk ∉ rule1 roles e).
Proof.
  intros out. split_and!.
  - intros pk t. unfold out. rewrite drain_credits. fold out. case_decide as Hc; [|done]. intros [= <-].
    destruct Hc as [Hne Hpos]. destruct (best_spec out.2 roles es rs pk Hne) as [Hall Hex].
    destruct (Hex Hpos) as (e & He & Ht). destruct (claims_sound _ _ _ _ _ _ He) as [Hrel Hhop]. eauto 10.
  - intros e pk He Hpos. unfold out. rewrite drain_credits. fold out. destruct He as [Hne Hin].
    destruct (best_spec out.2 roles es rs pk Hne) as [Hall _]. specialize (Hall e (conj Hne Hin)).
    rewrite decide_True by (split; [done|lia]). done.
  - intros e pk _ Hone Hne Hin. unfold rule1 in Hin. rewrite rule1_one_byte in Hin by done.
    apply list_elem_of_lookup in Hin as [i [-> _]%lookup_replicate]. done.
Qed.

(** ** Order *)

Lemma foldl_perm {A B} (f : B -> A -> B) l k b :
  (forall b x y, f (f b x) y = f (f b y) x) -> l ≡ₚ k -> foldl f b l = foldl f b k.
Proof.
  intros Hf Hp. revert b. induction Hp as [|x l k _ IH|x y l|l1 l2 l3 _ IH1 _ IH2]; intros b; cbn.
  - done.
  - apply IH.
  - by rewrite Hf.
  - by rewrite IH1.
Qed.

Definition later (b : string) (t : Time) (m : gmap string Time) : gmap string Time :=
  if time_after t (default time_zero (m !! b)) then <[b := t]> m else m.

Lemma later_lookup b t m x :
  later b t m !! x = if decide (x = b /\ default time_zero (m !! b) < t) then Some t else m !! x.
Proof.
  unfold later. destruct (time_after _ _) eqn:Et; [apply time_after_spec in Et|apply time_after_false in Et].
  - destruct (decide (x = b)) as [->|Hx]; [by rewrite lookup_insert_eq, decide_True|].
    rewrite lookup_insert_ne by done. by rewrite decide_False by tauto.
  - rewrite decide_False; [done|]. lia.
Qed.

Lemma later_comm b t b' t' m : later b t (later b' t' m) = later b' t' (later b t m).
Proof.
  apply map_eq. intros x. rewrite !later_lookup.
  destruct (decide (b = b')) as [<-|Hb].
  - destruct (decide (x = b)) as [->|Hx]; [|by rewrite !decide_False by tauto].
    assert (Hd : forall u v (o : option Time), (if decide (b = b /\ u < v) then Some v else o)
                  = if decide (u < v) then Some v else o) by (intros; repeat case_decide; tauto || done).
    rewrite !Hd. repeat case_decide; cbn in *; try done; try lia; f_equal; lia.
  - rewrite !(decide_False (P := b = b' /\ _)), !(decide_False (P := b' = b /\ _)) by naive_solver.
    destruct (decide (x = b)) as [->|Hx]; [|by rewrite !(decide_False (P := x = b /\ _)) by tauto].
    by rewrite !(decide_False (P := b = b' /\ _)) by tauto.
Qed.

Lemma add_half_later a b t adj : add_half a b t adj = <[a := later b t (default ∅ (adj !! a))]> adj.
Proof. done. Qed.

Lemma add_half_comm a b t a' b' t' adj :
  add_half a b t (add_half a' b' t' adj) = add_half a' b' t' (add_half a b t adj).
Proof.
  rewrite !add_half_later. destruct (decide (a = a')) as [<-|Ha].
  - rewrite !lookup_insert_eq, !insert_insert_eq. cbn. by rewrite later_comm.
  - rewrite !lookup_insert_ne by done. by rewrite insert_insert_ne.
Qed.

(** A link as a path teaches it. *)
Definition Link : Type := string * string * Time.
Definition add_link (adj : Adj) (x : Link) : Adj := addEdgeLocked x.1.1 x.1.2 x.2 adj.


Lemma add_link_comm adj x y : add_link (add_link adj x) y = add_link (add_link adj y) x.
Proof.
  destruct x as [[a b] t], y as [[c d] u]. unfold add_link, addEdgeLocked. cbn [fst snd].
  destruct (bool_decide (a = "") || _ || _), (bool_decide (c = "") || _ || _); try done.
  rewrite (add_half_comm c d u b a t), (add_half_comm d c u b a t).
  by rewrite (add_half_comm c d u a b t), (add_half_comm d c u a b t).
Qed.

Fixpoint links (chain : list string) (t : Time) : list Link :=
  match chain with
  | a :: (b :: _) as rest => (a, b, t) :: links rest t
  | _ => []
  end.

Lemma learn_links chain t adj : learn_chain chain t adj = foldl add_link adj (links chain t).
Proof.
  revert adj. induction chain as [|a [|b chain] IH]; intros adj; cbn [learn_chain links foldl]; [done..|]. apply IH.
Qed.

Lemma learn_entries idx es adj :
  foldl (learn_entry idx) adj es
  = foldl add_link adj (es ≫= fun e => links (chain_of (e_path e) (resolveByPrefix (hops (e_path e)) idx)) (e_at e)).
Proof.
  revert adj. induction es as [|e es IH]; intros adj; [done|]. rewrite bind_cons, foldl_app. cbn [foldl].
  by rewrite IH, <-learn_links.
Qed.

(** What a drain credits and learns does not depend on the order the two
    buffers, which are Go maps, are gone through. *)
Theorem drain_order now roles es es' rs rs' adj :
  es ≡ₚ es' -> rs ≡ₚ rs' -> drain now roles es rs adj = drain now roles es' rs' adj.
Proof.
  intros Hes Hrs.
  assert (Hadj : (drain now roles es rs adj).2 = (drain now roles es' rs' adj).2).
  { rewrite !drain_graph, !learn_entries. apply foldl_perm; [apply add_link_comm|]. by rewrite Hes. }
  apply injective_projections; [|done]. apply map_eq. intros pk. rewrite !drain_credits, Hadj.
  set (adj' := (drain now roles es' rs' adj).2).
  assert (Hp : all_credits adj' roles es rs ≡ₚ all_credits adj' roles es' rs').
  { unfold all_credits, credits. by rewrite Hes, Hrs. }
  by rewrite (best_perm _ _ pk Hp).
Qed.

(** ** A concrete mesh *)

Module RelayDemo.

Definition key (front : string) : string := front +:+ String.concat "" (repeat "00" 30).
Definition ridge : string := key "2cfe".
Definition valley : string := key "ab07".
Definition catalog : Roles := {[ridge := RoleRepeater; valley := "repeater"; key "ab99" := RoleCompanion]}.

Definition heard (at_ : Z) (hs : list string) : relayEntry :=
  mkRelayEntry (mkRelayPath hs "gw" "") (time_of_unix at_).
(** One packet with 2-byte hops, one with 1-byte hops. *)
Definition two : list relayEntry := [heard 100 ["2cfe"; "ab07"]; heard 200 ["2c"; "ab"]].

(** The 1-byte path resolves by the links the other one taught. *)
Example credited :
  let out := (drain (time_of_unix 300) catalog two [] ∅).1 in
  out !! ridge = Some (time_of_unix 200) /\ out !! valley = Some (time_of_unix 200) /\ size out = 2%nat.
Proof. split_and!; vm_compute; reflexivity. Qed.

Lemma adj_ok_empty : adj_ok ∅.
Proof. split; [done|]. intros a b t. unfold edge. by rewrite lookup_empty. Qed.

Lemma graph_evidence_witness :
  adj_ok (drain (time_of_unix 300) catalog two [] ∅).2
  /\ edge (drain (time_of_unix 300) catalog two [] ∅).2 valley ridge = Some (time_of_unix 100)
  /\ taught catalog two valley ridge (time_of_unix 100).
Proof.
  destruct (proj1 (@graph_evidence ascii_only (time_of_unix 300) catalog two [] [] ∅ adj_ok_empty)) as [Hok He].
  assert (Hedge : edge (drain (time_of_unix 300) catalog two [] ∅).2 valley ridge = Some (time_of_unix 100))
    by (vm_compute; reflexivity).
  split; [exact Hok|split; [exact Hedge|]]. destruct (He _ _ _ Hedge) as [[Hnone _]|Ht]; [|exact Ht].
  vm_compute in Hnone. discriminate Hnone.
Defined.

Lemma drain_order_witness :
  drain (time_of_unix 300) catalog two [] ∅ = drain (time_of_unix 300) catalog (reverse two) [] ∅.
Proof.
  apply (drain_order (time_of_unix 300) catalog two (reverse two) [] [] ∅); [symmetry; apply reverse_Permutation|reflexivity].
Defined.

End RelayDemo.

End RelaySpec.
