(* ===== verification/MeshRegistry.v ===== *)
(** * The mesh registry

    [internal/clients/meshcore/client.go]: node presence from received packets,
    the buffer of receptions, cadence and presence windows, seeding at start, and
    the drains the scheduler calls, over the relay buffers and the graph of
    [Relay]. A clock reading is an argument. The MQTT sessions are not modelled;
    an envelope comes decoded, and [json.Unmarshal] of it is a class. *)

From Stdlib Require Import Ascii.
From S2P Require Import Prelude Float64 GoText MeshFrame MeshRelay.

Module Registry.
Import F64 Text Frame Relay.

(** ** Data *)

Record Config := mkConfig {
  RequireValidSignature : bool; RetainFor : Duration; SpamFloor : Duration; CadenceK : float64;
  GraceFloor : Duration; GraceCeil : Duration; SilenceAfter : Duration; RelayPresence : Duration }.

(** [flexInt], [flexFloat]: a value and whether one arrived. *)
Record flexInt := mkFlexInt { fi_v : Z; fi_set : bool }.
Record flexFloat := mkFlexFloat { ff_v : float64; ff_set : bool }.

(** The fields of [packetEnvelope] the registry reads. *)
Record packetEnvelope := mkEnvelope {
  Origin : string; OriginID : string; PacketType : flexInt; Raw : string; env_SNR : flexFloat; env_RSSI : flexInt }.

Class EnvelopeKernel := { Unmarshal : string -> option packetEnvelope }.

Record Observation := mkObservation {
  o_PubKey : string; o_HeardAt : Time; o_Broker : string; o_Gateway : string; o_SNR : float64; o_RSSI : Z;
  o_HopCount : nat; o_Path : list string; o_PathNodes : list string }.

Record NodeState := mkNodeState {
  ns_PubKey : string; ns_Role : string; ns_Name : string; ns_HasLocation : bool; ns_Lat : float64; ns_Lng : float64;
  Brokers : list string; SNR : float64; RSSI : Z; ns_HopCount : nat; Gateways : list string;
  LastAdvertAt : Time; LastHeardAt : Time; ReceivedAt : Time; LastRelayedAt : Time; HasSignal : bool }.

(** The cadence fields of [nodeEntry]. *)
Record Cadence := mkCadence { lastAdvertAt : Time; ewmaInterval : Duration; advertCount : Z }.
Record nodeEntry := mkNodeEntry {
  state : NodeState; gateways : gset string; brokers : gset string; cadence : Cadence }.

Abbreviation Nodes := (gmap string nodeEntry).
Record Registry := mkRegistry {
  nodes : Nodes; obsBuf : list Observation; obsGate : gmap string Time; relayBuf : Buffer; routeBuf : Buffer;
  adj : Adj }.

Record SeedNode := mkSeedNode {
  sn_PubKey : string; sn_Role : string; sn_Name : string; sn_HasLocation : bool; sn_Lat : float64; sn_Lng : float64;
  sn_LastHeard : Time; sn_HeardTimes : list Time; sn_LastReceived : Time; sn_LastRelayed : Time }.

Definition packetTypeAdvert : Z := 4.
Definition maxObsBuffer : nat := N.to_nat 100000.
Definition defaultCadenceK : float64 := of_Z 3.
Definition defaultGraceFloor : Duration := 3 * hour.
Definition defaultGraceCeil : Duration := 72 * hour.
Definition minCadenceSample : Duration := 30 * second.
(** 0.3 and 1 - 0.3 as float64. *)
Definition cadenceAlpha : float64 := div (of_Z 3) (of_Z 10).
Definition cadenceRest : float64 := div (of_Z 7) (of_Z 10).

(** [NewRegistry]: the configuration with its defaults; the registry is empty. *)
Definition with_defaults (c : Config) : Config :=
  let ceil := if GraceCeil c <=? 0 then defaultGraceCeil else GraceCeil c in
  mkConfig (RequireValidSignature c) (if RetainFor c <=? 0 then ceil else RetainFor c) (SpamFloor c)
    (if leb (CadenceK c) zero then defaultCadenceK else CadenceK c)
    (if GraceFloor c <=? 0 then defaultGraceFloor else GraceFloor c) ceil (SilenceAfter c) (RelayPresence c).
Definition empty_registry : Registry := mkRegistry ∅ [] ∅ ∅ ∅ ∅.

Definition set_nodes (x : Nodes) (r : Registry) : Registry :=
  mkRegistry x (obsBuf r) (obsGate r) (relayBuf r) (routeBuf r) (adj r).
Definition set_obs (x : list Observation) (g : gmap string Time) (r : Registry) : Registry :=
  mkRegistry (nodes r) x g (relayBuf r) (routeBuf r) (adj r).
Definition set_relays (x y : Buffer) (r : Registry) : Registry :=
  mkRegistry (nodes r) (obsBuf r) (obsGate r) x y (adj r).
Definition set_adj (x : Adj) (r : Registry) : Registry :=
  mkRegistry (nodes r) (obsBuf r) (obsGate r) (relayBuf r) (routeBuf r) x.

(** The zero [nodeEntry]. *)
Definition new_entry : nodeEntry :=
  mkNodeEntry (mkNodeState "" "" "" false zero zero [] zero 0 0 [] time_zero time_zero time_zero time_zero false)
    ∅ ∅ (mkCadence time_zero 0 0).

(** ** Cadence and presence *)

Definition recordCadence (t : Time) (c : Cadence) : Cadence :=
  if time_is_zero (lastAdvertAt c) then mkCadence t (ewmaInterval c) 1
  else
    let gap := time_sub t (lastAdvertAt c) in
    if gap <? minCadenceSample then c
    else
      mkCadence t
        (if ewmaInterval c <=? 0 then gap
         else trunc (add (mul cadenceAlpha (of_Z gap)) (mul cadenceRest (of_Z (ewmaInterval c)))))
        (advertCount c + 1).

Definition presenceWindow (cfg : Config) (e : nodeEntry) : Duration :=
  let c := cadence e in
  if (advertCount c <? 2) || (ewmaInterval c <=? 0) then GraceFloor cfg
  else
    let w := trunc (mul (CadenceK cfg) (of_Z (ewmaInterval c))) in
    if w <? GraceFloor cfg then GraceFloor cfg
    else if GraceCeil cfg <? w then GraceCeil cfg else w.

Definition presentLocked (cfg : Config) (e : nodeEntry) (now : Time) : bool :=
  (time_sub now (LastHeardAt (state e)) <=? presenceWindow cfg e)
  || ((0 <? RelayPresence cfg) && negb (time_is_zero (LastRelayedAt (state e)))
      && (time_sub now (LastRelayedAt (state e)) <=? RelayPresence cfg)).

(** ** Pruning *)

Definition last_evidence (s : NodeState) : Time :=
  if time_after (LastRelayedAt s) (LastHeardAt s) then LastRelayedAt s else LastHeardAt s.

Definition keeps_node (cfg : Config) (now : Time) (x : string * nodeEntry) : Prop :=
  time_sub now (last_evidence (state x.2)) <= RetainFor cfg.
Definition keeps_gate (cfg : Config) (now : Time) (x : string * Time) : Prop := time_sub now x.2 <= RetainFor cfg.
#[export] Instance keeps_node_dec cfg now x : Decision (keeps_node cfg now x).
Proof. unfold keeps_node. apply _. Defined.
#[export] Instance keeps_gate_dec cfg now x : Decision (keeps_gate cfg now x).
Proof. unfold keeps_gate. apply _. Defined.

Definition pruneLocked (cfg : Config) (now : Time) (r : Registry) : Registry :=
  if RetainFor cfg <=? 0 then r
  else set_obs (obsBuf r) (filter (keeps_gate cfg now) (obsGate r))
         (set_nodes (filter (keeps_node cfg now) (nodes r)) r).

(** ** Receiving *)

Definition firstNonEmpty (vals : list string) : string :=
  default "" (head (filter (fun v => TrimSpace v <> "") vals)).

Definition relayObserver (env : packetEnvelope) (defaultGateway : string) : string :=
  firstNonEmpty [OriginID env; Origin env; defaultGateway].

Definition gate_key (pubkey gateway : string) : string := pubkey +:+ String (ascii_of_N 0) gateway.

(** Whether to buffer a reception, and the gate after. *)
Definition allowObservationLocked (cfg : Config) (pubkey gateway : string) (now : Time)
    (gate : gmap string Time) : bool * gmap string Time :=
  if SpamFloor cfg <=? 0 then (true, gate)
  else
    let key := gate_key pubkey gateway in
    match gate !! key with
    | Some last => if time_sub now last <? SpamFloor cfg then (false, gate) else (true, <[key := now]> gate)
    | None => (true, <[key := now]> gate)
    end.

Definition to_int32 (n : Z) : Z := int32 (n mod 2 ^ 32).

(** An accepted advert on its node. *)
Definition note_advert (adv : Advert) (env : packetEnvelope) (gw source : string) (now : Time) (e : nodeEntry)
    : nodeEntry :=
  let s := state e in
  mkNodeEntry
    (mkNodeState (PubKey adv) (Role adv) (Name adv)
       (if HasLocation adv then true else ns_HasLocation s)
       (if HasLocation adv then Lat adv else ns_Lat s) (if HasLocation adv then Lng adv else ns_Lng s)
       (Brokers s)
       (if ff_set (env_SNR env) then ff_v (env_SNR env) else SNR s)
       (if fi_set (env_RSSI env) && negb (fi_v (env_RSSI env) =? 0) then to_int32 (fi_v (env_RSSI env)) else RSSI s)
       (HopCount adv) (Gateways s) (Timestamp adv) now now (LastRelayedAt s) true)
    (if bool_decide (gw = "") then gateways e else {[gw]} ∪ gateways e)
    (if bool_decide (source = "") then brokers e else {[source]} ∪ brokers e)
    (recordCadence now (cadence e)).

Definition observation (adv : Advert) (env : packetEnvelope) (gw source : string) (now : Time) : Observation :=
  mkObservation (PubKey adv) now source gw (ff_v (env_SNR env)) (to_int32 (fi_v (env_RSSI env))) (HopCount adv)
    (a_Path adv) [].

(** The reception buffer with one more, the oldest dropped past the cap. *)
Definition push_obs (o : Observation) (l : list Observation) : list Observation :=
  let l := l ++ [o] in drop (length l - maxObsBuffer) l.

Section Ingest.
Context `{UnicodeLower} `{Ed25519} `{EnvelopeKernel}.

(** The relay path of a packet that is not an advert. *)
Definition record_path_of (env : packetEnvelope) (defaultGateway : string) (now : Time) (h : FrameHeader)
    (r : Registry) : Registry :=
  match RelayHops h, RouteHops h with
  | (_ :: _) as hops, _ =>
      set_relays (recordRelaysLocked hops (relayObserver env defaultGateway) "" now (relayBuf r)) (routeBuf r) r
  | [], (_ :: _) as hops => set_relays (relayBuf r) (recordRouteLocked hops now (routeBuf r)) r
  | [], [] => r
  end.

(** [packets] outcomes: [PacketOutcome]. *)
Definition raw_of (env : packetEnvelope) : option Bytes :=
  DecodeString (TrimPrefix (TrimSpace (Raw env)) "meshcore://").

Definition ingest_advert (cfg : Config) (adv : Advert) (raw : Bytes) (env : packetEnvelope)
    (source defaultGateway : string) (now : Time) (r : Registry) : Registry :=
  let gw := firstNonEmpty [OriginID env; Origin env; defaultGateway; source] in
  let r :=
    match DecodeFrameHeader raw with
    | inr h =>
        if is_flood h
        then set_relays (recordRelaysLocked (RelayHops h) (relayObserver env defaultGateway) (PubKey adv) now (relayBuf r))
               (routeBuf r) r
        else r
    | inl _ => r
    end in
  let e := default new_entry (nodes r !! PubKey adv) in
  let r := set_nodes (<[PubKey adv := note_advert adv env gw source now e]> (nodes r)) r in
  let x := allowObservationLocked cfg (PubKey adv) gw now (obsGate r) in
  let r := set_obs (if x.1 then push_obs (observation adv env gw source now) (obsBuf r) else obsBuf r) x.2 r in
  pruneLocked cfg now r.

Definition ingestPacket (cfg : Config) (env : packetEnvelope) (source defaultGateway : string) (now : Time)
    (r : Registry) : PacketOutcome * Registry :=
  if negb (fi_v (PacketType env) =? packetTypeAdvert) then
    (PacketIgnored,
     match raw_of env with
     | Some raw => match DecodeFrameHeader raw with
                   | inr h => record_path_of env defaultGateway now h r
                   | inl _ => r
                   end
     | None => r
     end)
  else
    match raw_of env with
    | None => (PacketMalformed, r)
    | Some raw =>
        match DecodeFrame raw with
        | inl _ => (PacketMalformed, r)
        | inr adv =>
            if RequireValidSignature cfg && negb (SignatureValid adv) then (PacketRejected, r)
            else (PacketAccepted, ingest_advert cfg adv raw env source defaultGateway now r)
        end
    end.

Definition IngestEnvelope (cfg : Config) (payload source defaultGateway : string) (now : Time) (r : Registry)
    : PacketOutcome * Registry :=
  match Unmarshal payload with
  | None => (PacketMalformed, r)
  | Some env => ingestPacket cfg env source defaultGateway now r
  end.

(** ** Seeding *)

Definition seed_received (times : list Time) (last : Time) (received : Time) : Time :=
  let t := foldl (fun acc t => if time_after t acc then t else acc) received times in
  if time_after last t then last else t.

Definition seed_entry (sn : SeedNode) (e : nodeEntry) : nodeEntry :=
  let s := state e in
  let received := seed_received (sn_HeardTimes sn) (sn_LastReceived sn) (ReceivedAt s) in
  mkNodeEntry
    (mkNodeState (sn_PubKey sn) (sn_Role sn) (sn_Name sn)
       (if sn_HasLocation sn then true else ns_HasLocation s)
       (if sn_HasLocation sn then sn_Lat sn else ns_Lat s) (if sn_HasLocation sn then sn_Lng sn else ns_Lng s)
       (Brokers s) (SNR s) (RSSI s) (ns_HopCount s) (Gateways s) (LastAdvertAt s)
       (if time_is_zero received then sn_LastHeard sn else received) received
       (if time_after (sn_LastRelayed sn) (LastRelayedAt s) then sn_LastRelayed sn else LastRelayedAt s)
       (HasSignal s))
    (gateways e) (brokers e) (foldl (fun c t => recordCadence t c) (cadence e) (sn_HeardTimes sn)).

Definition seed_node (ns : Nodes) (sn : SeedNode) : Nodes :=
  if bool_decide (sn_PubKey sn = "") then ns
  else <[sn_PubKey sn := seed_entry sn (default new_entry (ns !! sn_PubKey sn))]> ns.

Definition Seed (l : list SeedNode) (r : Registry) : Registry := set_nodes (foldl seed_node (nodes r) l) r.

(** [relayRoles]. *)
Definition relayRoles (known : list KnownNode) (ns : Nodes) : Roles :=
  foldl (fun roles k =>
    let pk := ToLower (kn_PubKey k) in
    if negb (bool_decide (pk = "")) && negb (bool_decide (is_Some (roles !! pk)))
    then <[pk := kn_Role k]> roles else roles)
    ((fun e => ns_Role (state e)) <$> ns) known.

Definition SeedPaths (paths : list SeedPath) (known : list KnownNode) (now : Time) (r : Registry) : Registry :=
  let idx := relayIndex (relayRoles known (nodes r)) in
  set_adj (foldl (seed_path now idx) (adj r) paths) r.

(** ** Reading *)

Definition DrainObservations (r : Registry) : list Observation * Registry :=
  match obsBuf r with
  | [] => ([], r)
  | _ =>
      let idx := prefixIndex (map_to_list (nodes r)).*1 in
      ((fun o => mkObservation (o_PubKey o) (o_HeardAt o) (o_Broker o) (o_Gateway o) (o_SNR o) (o_RSSI o)
                   (o_HopCount o) (o_Path o) (resolvePath (o_Path o) idx)) <$> obsBuf r,
       set_obs [] (obsGate r) r)
  end.

Definition sortedKeys (m : gset string) : list string := sort_strings (elements m).

Definition shown (e : nodeEntry) : NodeState :=
  let s := state e in
  mkNodeState (ns_PubKey s) (ns_Role s) (ns_Name s) (ns_HasLocation s) (ns_Lat s) (ns_Lng s)
    (sortedKeys (brokers e)) (SNR s) (RSSI s) (ns_HopCount s) (sortedKeys (gateways e)) (LastAdvertAt s)
    (LastHeardAt s) (ReceivedAt s) (LastRelayedAt s) (HasSignal s).

Definition Snapshot (cfg : Config) (now : Time) (r : Registry) : list NodeState * Registry :=
  let r := pruneLocked cfg now r in
  (shown <$> filter (fun e => presentLocked cfg e now = true) (map_to_list (nodes r)).*2, r).

Definition set_relayed (t : Time) (e : nodeEntry) : nodeEntry :=
  let s := state e in
  mkNodeEntry
    (mkNodeState (ns_PubKey s) (ns_Role s) (ns_Name s) (ns_HasLocation s) (ns_Lat s) (ns_Lng s) (Brokers s)
       (SNR s) (RSSI s) (ns_HopCount s) (Gateways s) (LastAdvertAt s) (LastHeardAt s) (ReceivedAt s)
       (if time_after t (LastRelayedAt s) then t else LastRelayedAt s) (HasSignal s))
    (gateways e) (brokers e) (cadence e).

Definition stamp_relayed (out : gmap string Time) (ns : Nodes) : Nodes :=
  map_imap (fun pk e => Some (match out !! pk with Some t => set_relayed t e | None => e end)) ns.

Definition DrainRelays (known : list KnownNode) (now : Time) (r : Registry)
    : gmap string Time * Registry :=
  let entries := (map_to_list (relayBuf r)).*2 in
  let routes := (map_to_list (routeBuf r)).*2 in
  let x := drain now (relayRoles known (nodes r)) entries routes (adj r) in
  (x.1, set_adj x.2 (set_relays ∅ ∅ (set_nodes (stamp_relayed x.1 (nodes r)) r))).

(** [ResolvePrefix]: the loop over the nodes, with the match so far. *)
Fixpoint resolve_prefix (prefix match_ : string) (l : list string) : string * bool :=
  match l with
  | [] => (match_, negb (bool_decide (match_ = "")))
  | pk :: l =>
      if negb (HasPrefix pk prefix) then resolve_prefix prefix match_ l
      else if negb (bool_decide (match_ = "")) then ("", false)
      else resolve_prefix prefix pk l
  end.

Definition ResolvePrefix (prefix : string) (r : Registry) : string * bool :=
  if Nat.eqb (String.length prefix) 0 then ("", false)
  else resolve_prefix (ToLower prefix) "" (map_to_list (nodes r)).*1.

End Ingest.

(** ** Broker health *)

Inductive Problem := NotConnected | Silent.

(** [deliveryProblem], without the wording; [None] when delivering. *)
Definition deliveryProblem (open : bool) (startedAt lastMsgAt now : Time) (silenceAfter : Duration) : option Problem :=
  if negb open then Some NotConnected
  else if silenceAfter <=? 0 then None
  else
    let ref := if time_is_zero lastMsgAt then startedAt else lastMsgAt in
    if time_sub now ref <=? silenceAfter then None else Some Silent.

End Registry.
