(* ===== verification/MeshRegistrySpec.v ===== *)
(** * What the mesh registry promises

    Every operation as a step of one machine: the registry's invariant, where a
    node's identity and position can come from, what a packet does on each
    outcome, the presence window, and the buffer of receptions. *)

From Stdlib Require Import Ascii.
From S2P Require Import Prelude Float64 GoText MeshFrame MeshRelay MeshRelaySpec MeshRegistry.

Module RegistrySpec.
Import F64 Text Frame Relay RelaySpec Registry.

Section Spec.
Context `{UnicodeLower} `{Ed25519}.

(** ** Steps *)

(** The calls of the process: a packet from any door, the two seeds at start,
    the snapshot and the two drains of the scheduler. *)
Inductive Op :=
  | Packet (env : packetEnvelope) (source gateway : string) (now : Time)
  | OpSeed (l : list SeedNode)
  | OpSeedPaths (paths : list SeedPath) (known : list KnownNode) (now : Time)
  | OpSnapshot (now : Time)
  | OpDrainObservations
  | OpDrainRelays (known : list KnownNode) (now : Time).

Definition step (cfg : Config) (r : Registry) (o : Op) : Registry :=
  match o with
  | Packet env source gw now => (ingestPacket cfg env source gw now r).2
  | OpSeed l => Seed l r
  | OpSeedPaths paths known now => SeedPaths paths known now r
  | OpSnapshot now => (Snapshot cfg now r).2
  | OpDrainObservations => (DrainObservations r).2
  | OpDrainRelays known now => (DrainRelays known now r).2
  end.

Definition run (cfg : Config) (ops : list Op) : Registry := foldl (step cfg) empty_registry ops.

(** ** The invariant *)

Definition node_ok (pk : string) (e : nodeEntry) : Prop :=
  ns_PubKey (state e) = pk /\ pk <> ""
  /\ (ReceivedAt (state e) <> time_zero -> LastHeardAt (state e) = ReceivedAt (state e))
  /\ 0 <= ReceivedAt (state e)
  /\ (HasSignal (state e) = true -> ReceivedAt (state e) <> time_zero).

Record reg_ok (r : Registry) : Prop := {
  ok_nodes : map_Forall node_ok (nodes r);
  ok_obs : (length (obsBuf r) <= maxObsBuffer)%nat;
  ok_relays : Z.of_nat (size (relayBuf r)) <= maxRelayPaths;
  ok_routes : Z.of_nat (size (routeBuf r)) <= maxRelayPaths;
  ok_adj : adj_ok (adj r) }.

Lemma record_path_bound key p t buf :
  Z.of_nat (size buf) <= maxRelayPaths -> Z.of_nat (size (record_path key p t buf)) <= maxRelayPaths.
Proof.
  intros Hb. unfold record_path. destruct (buf !! key) eqn:E.
  - rewrite map_size_insert_Some; [done|by rewrite E].
  - destruct (Z.leb_spec maxRelayPaths (Z.of_nat (size buf))); [done|]. rewrite map_size_insert_None by done. lia.
Qed.

Lemma recordRelays_bound hs obs sender t buf :
  Z.of_nat (size buf) <= maxRelayPaths -> Z.of_nat (size (recordRelaysLocked hs obs sender t buf)) <= maxRelayPaths.
Proof. intros Hb. unfold recordRelaysLocked. destruct (_ && _); [done|]. by apply record_path_bound. Qed.

Lemma push_obs_bound o l : (length (push_obs o l) <= maxObsBuffer)%nat.
Proof. unfold push_obs. rewrite length_drop. lia. Qed.

Lemma prune_ok_reg cfg now r : reg_ok r -> reg_ok (pruneLocked cfg now r).
Proof.
  intros [H1 H2 H3 H4 H5]. unfold pruneLocked. destruct (_ <=? 0); [done|]. constructor; cbn; try done.
  intros pk e He. apply map_lookup_filter_Some in He as [He _]. by apply H1.
Qed.

Lemma seed_received_ge ts last received : received <= seed_received ts last received.
Proof.
  unfold seed_received.
  assert (Hmono : forall ts acc, acc <= foldl (fun acc t => if time_after t acc then t else acc) acc ts).
  { clear. induction ts as [|t ts IH]; intros acc; cbn; [lia|]. etrans; [|apply IH].
    destruct (time_after t acc) eqn:E; [apply time_after_spec in E; lia|lia]. }
  specialize (Hmono ts received). destruct (time_after last _) eqn:E; [apply time_after_spec in E; lia|done].
Qed.

Lemma new_entry_parts : ReceivedAt (state new_entry) = 0 /\ HasSignal (state new_entry) = false.
Proof. done. Qed.

(** A key of the catalog of nodes, or a fresh entry. *)
Lemma entry_or_new (ns : Nodes) pk :
  map_Forall node_ok ns -> let e := default new_entry (ns !! pk) in
  0 <= ReceivedAt (state e) /\ (HasSignal (state e) = true -> ReceivedAt (state e) <> time_zero).
Proof.
  intros Hns. destruct (ns !! pk) as [e|] eqn:E; cbn; [|done]. by destruct (Hns pk e E) as (_ & _ & _ & ? & ?).
Qed.

Lemma seed_node_ok ns sn : map_Forall node_ok ns -> map_Forall node_ok (seed_node ns sn).
Proof.
  intros Hns. unfold seed_node. case_bool_decide as Hne; [done|]. apply map_Forall_insert_2; [|done].
  destruct (entry_or_new ns (sn_PubKey sn) Hns) as [Hpos Hsig].
  set (e := default new_entry (ns !! sn_PubKey sn)) in *.
  pose proof (seed_received_ge (sn_HeardTimes sn) (sn_LastReceived sn) (ReceivedAt (state e))) as Hge.
  unfold node_ok, seed_entry. cbn. split_and!; [done..| |lia|].
  - intros Hnz. unfold time_is_zero. destruct (Z.eqb_spec (seed_received (sn_HeardTimes sn) (sn_LastReceived sn) (ReceivedAt (state e))) 0); [done|done].
  - intros Hs%Hsig. unfold time_zero in *. lia.
Qed.

Lemma PubKey_nonempty raw adv : DecodeFrame raw = inr adv -> PubKey adv <> "".
Proof using All.
  unfold DecodeFrame. destruct (_ <? 2)%nat; [done|]. destruct (negb _); [done|].
  destruct (DecodeFrameHeader raw) as [|h]; [done|]. destruct (DecodeAdvert _) as [|a] eqn:Ea; [done|].
  intros [= <-]. destruct (proj2 (advert_layout _) a Ea) as (_ & _ & Hlen & _). cbn. intros E. by rewrite E in Hlen.
Qed.

Lemma ingest_advert_ok cfg adv raw env source gw now r :
  0 < now -> PubKey adv <> "" -> reg_ok r -> reg_ok (ingest_advert cfg adv raw env source gw now r).
Proof.
  intros Hnow Hne [H1 H2 H3 H4 H5]. unfold ingest_advert. apply prune_ok_reg.
  set (r1 := match DecodeFrameHeader raw with inr h => _ | inl _ => r end).
  assert (Hr1 : nodes r1 = nodes r /\ obsBuf r1 = obsBuf r /\ obsGate r1 = obsGate r /\ routeBuf r1 = routeBuf r
     /\ adj r1 = adj r /\ Z.of_nat (size (relayBuf r1)) <= maxRelayPaths).
  { unfold r1. destruct (DecodeFrameHeader raw) as [|h]; [done|]. destruct (is_flood h); [|done]. cbn.
    split_and!; try done. by apply recordRelays_bound. }
  destruct Hr1 as (En & Eo & Eg & Er & Ea & Hb). constructor; cbn; rewrite ?En, ?Eo, ?Eg, ?Er, ?Ea; try done.
  - apply map_Forall_insert_2; [|done].
    unfold node_ok, note_advert. cbn. unfold time_zero. split_and!; try done; lia.
  - destruct (allowObservationLocked _ _ _ _ _).1; [apply push_obs_bound|done].
Qed.

Lemma record_path_of_ok env gw now h r : reg_ok r -> reg_ok (record_path_of env gw now h r).
Proof.
  intros [H1 H2 H3 H4 H5]. unfold record_path_of.
  destruct (RelayHops h), (RouteHops h); constructor; cbn; try done; try (by apply recordRelays_bound);
    by apply record_path_bound.
Qed.

Lemma stamp_relayed_ok out ns : map_Forall node_ok ns -> map_Forall node_ok (stamp_relayed out ns).
Proof.
  intros Hns pk e He. unfold stamp_relayed in He. rewrite map_lookup_imap in He.
  destruct (ns !! pk) as [e0|] eqn:E; [|done]. cbn in He. injection He as <-.
  destruct (out !! pk); [|by apply Hns]. by destruct (Hns pk e0 E) as (? & ? & ? & ? & ?).
Qed.

(** Times of the clock are after the zero time. *)
Definition op_ok (o : Op) : Prop := match o with Packet _ _ _ now => 0 < now | _ => True end.

Lemma step_ok cfg r o : op_ok o -> reg_ok r -> reg_ok (step cfg r o).
Proof.
  intros Ho Hok. pose proof Hok as [H1 H2 H3 H4 H5]. destruct o; cbn [step].
  - unfold ingestPacket. destruct (negb _); cbn [snd].
    { destruct (raw_of env) as [raw|]; [|done]. destruct (DecodeFrameHeader raw); [done|].
      by apply record_path_of_ok. }
    destruct (raw_of env) as [raw|]; [|done]. destruct (DecodeFrame raw) as [|adv] eqn:Ed; [done|].
    destruct (_ && _); [done|]. cbn. apply ingest_advert_ok; [done|by eapply PubKey_nonempty|done].
  - constructor; cbn; try done. unfold Seed. revert H1. generalize (nodes r). induction l as [|sn l IH]; intros ns Hns; [done|].
    cbn. by apply IH, seed_node_ok.
  - constructor; cbn; try done. by apply seed_spec.
  - by apply prune_ok_reg.
  - unfold DrainObservations. destruct (obsBuf r); [done|]. constructor; cbn; try done. lia.
  - constructor; cbn; try done.
    + by apply stamp_relayed_ok.
    + rewrite drain_graph. by apply learn_all_spec, prune_ok.
Qed.

(** C33: through any calls in any order the registry stays well formed: nodes are
    filed under their own key, the last-heard time is a real reception whenever
    there is one on record, a node with signal readings was received, the three
    buffers stay within their caps and the neighbour graph stays symmetric
    between distinct named nodes. *)
Theorem registry_invariant cfg ops : Forall op_ok ops -> reg_ok (run cfg ops).
Proof.
  unfold run. assert (Hempty : reg_ok empty_registry).
  { constructor; [apply map_Forall_empty|apply Nat.le_0_l|done|done|].
    split; [done|]. intros a b t. cbn. unfold edge. by rewrite lookup_empty. }
  revert Hempty. generalize empty_registry. induction ops as [|o ops IH]; intros r Hr Hops; [done|].
  apply Forall_cons in Hops as [Ho Hops]. cbn. apply IH; [by apply step_ok|done].
Qed.

(** ** Where identity comes from *)

(** An advert among the packets of the calls whose signature verifies. *)
Definition verified (ops : list Op) (adv : Advert) : Prop :=
  exists env source gw now raw, Packet env source gw now ∈ ops /\ raw_of env = Some raw
    /\ DecodeFrame raw = inr adv /\ SignatureValid adv = true.
Definition seeded (ops : list Op) (sn : SeedNode) : Prop := exists l, OpSeed l ∈ ops /\ sn ∈ l.

Definition named_by (ops : list Op) (pk : string) (s : NodeState) : Prop :=
  (exists adv, verified ops adv /\ PubKey adv = pk /\ Role adv = ns_Role s /\ Name adv = ns_Name s)
  \/ exists sn, seeded ops sn /\ sn_PubKey sn = pk /\ sn_Role sn = ns_Role s /\ sn_Name sn = ns_Name s.
Definition placed_by (ops : list Op) (pk : string) (s : NodeState) : Prop :=
  (exists adv, verified ops adv /\ PubKey adv = pk /\ HasLocation adv = true
     /\ Lat adv = ns_Lat s /\ Lng adv = ns_Lng s)
  \/ exists sn, seeded ops sn /\ sn_PubKey sn = pk /\ sn_HasLocation sn = true
     /\ sn_Lat sn = ns_Lat s /\ sn_Lng sn = ns_Lng s.

Definition origin_ok (ops : list Op) (pk : string) (e : nodeEntry) : Prop :=
  named_by ops pk (state e) /\ (ns_HasLocation (state e) = true -> placed_by ops pk (state e)).

Lemma verified_mono ops ops' adv : ops ⊆ ops' -> verified ops adv -> verified ops' adv.
Proof. intros Hs (env & src & gw & now & raw & Hin & Hrest). exists env, src, gw, now, raw. auto. Qed.
Lemma seeded_mono ops ops' sn : ops ⊆ ops' -> seeded ops sn -> seeded ops' sn.
Proof. intros Hs (l & Hin & ?). exists l. auto. Qed.
Lemma origin_mono ops ops' pk e : ops ⊆ ops' -> origin_ok ops pk e -> origin_ok ops' pk e.
Proof.
  intros Hs [Hn Hp]. unfold named_by, placed_by in *.
  pose proof (fun adv => verified_mono ops ops' adv Hs) as Hv.
  pose proof (fun sn => seeded_mono ops ops' sn Hs) as Hse. split.
  - destruct Hn as [(adv & ? & ?)|(sn & ? & ?)]; [left; exists adv|right; exists sn]; auto.
  - intros Hl. destruct (Hp Hl) as [(adv & ? & ?)|(sn & ? & ?)]; [left; exists adv|right; exists sn]; auto.
Qed.

(** A call of [ops] keeps the origin of every node. *)
Lemma ingest_advert_nodes cfg adv raw env source gw now r pk e :
  nodes (ingest_advert cfg adv raw env source gw now r) !! pk = Some e ->
  pk <> PubKey adv /\ nodes r !! pk = Some e
  \/ pk = PubKey adv /\ exists gw', e = note_advert adv env gw' source now (default new_entry (nodes r !! pk)).
Proof.
  unfold ingest_advert, pruneLocked. set (r1 := match DecodeFrameHeader raw with inr h => _ | inl _ => r end).
  assert (Hr1 : nodes r1 = nodes r).
  { unfold r1. destruct (DecodeFrameHeader raw) as [|h]; [done|]. by destruct (is_flood h). }
  intros He.
  assert (Hl : <[PubKey adv := note_advert adv env (firstNonEmpty [OriginID env; Origin env; gw; source]) source now
                   (default new_entry (nodes r !! PubKey adv))]> (nodes r) !! pk = Some e).
  { destruct (_ <=? 0); cbn in He; rewrite Hr1 in He; [done|]. by apply map_lookup_filter_Some in He as [? _]. }
  apply lookup_insert_Some in Hl as [[<- <-]|[? ?]]; [right|left]; eauto.
Qed.

Lemma seed_nodes_origin ops l l0 ns :
  OpSeed l0 ∈ ops -> l ⊆ l0 -> map_Forall (origin_ok ops) ns ->
  map_Forall (origin_ok ops) (foldl seed_node ns l).
Proof.
  intros Hop. revert ns. induction l as [|sn l IH]; intros ns Hl Hns; [done|]. cbn.
  apply IH; [set_solver|]. unfold seed_node. case_bool_decide; [done|].
  apply map_Forall_insert_2; [|done].
  assert (Hs : seeded ops sn) by (exists l0; split; [done|apply Hl; left]).
  split.
  - right. by exists sn.
  - unfold seed_entry. cbn. destruct (sn_HasLocation sn) eqn:Eh.
    + intros _. right. exists sn. cbn. by rewrite Eh.
    + intros Hloc. destruct (ns !! sn_PubKey sn) as [e|] eqn:Ee; [|done]. cbn in Hloc.
      destruct (Hns _ _ Ee) as [_ Hp]. specialize (Hp Hloc). unfold placed_by in *. cbn. rewrite ?Eh. exact Hp.
Qed.

Lemma step_origin cfg ops r o :
  RequireValidSignature cfg = true -> map_Forall (origin_ok ops) (nodes r) ->
  map_Forall (origin_ok (ops ++ [o])) (nodes (step cfg r o)).
Proof.
  intros Hsig Hns. set (ops' := ops ++ [o]).
  assert (Hsub : ops ⊆ ops') by (unfold ops'; set_solver).
  assert (Hlast : o ∈ ops') by (unfold ops'; set_solver).
  assert (Hns' : map_Forall (origin_ok ops') (nodes r)).
  { intros pk e He. eapply origin_mono; [exact Hsub|by apply Hns]. }
  assert (Hprune : forall now, map_Forall (origin_ok ops') (nodes (pruneLocked cfg now r))).
  { intros now pk e He. unfold pruneLocked in He. destruct (_ <=? 0); [by apply Hns'|]. cbn in He.
    apply map_lookup_filter_Some in He as [He _]. by apply Hns'. }
  clearbody ops'. destruct o; cbn [step]; try done.
  - unfold ingestPacket. destruct (negb _); cbn [snd].
    { destruct (raw_of env) as [raw|]; [|done]. destruct (DecodeFrameHeader raw) as [|h]; [done|].
      unfold record_path_of. by destruct (RelayHops h), (RouteHops h). }
    destruct (raw_of env) as [raw|] eqn:Er; [|done]. destruct (DecodeFrame raw) as [|adv] eqn:Ed; [done|].
    rewrite Hsig. destruct (SignatureValid adv) eqn:Ev; cbn [negb andb snd]; [|done].
    assert (Hver : verified ops' adv) by (exists env, source, gateway, now, raw; auto).
    intros pk e [[_ He]|[-> [gw' ->]]]%ingest_advert_nodes; [by apply Hns'|]. split.
    + left. by exists adv.
    + unfold note_advert. cbn. destruct (HasLocation adv) eqn:El.
      * intros _. left. exists adv. cbn. by rewrite El.
      * intros Hloc. destruct (nodes r !! PubKey adv) as [e|] eqn:Ee; [|done]. cbn in Hloc.
        destruct (Hns' _ _ Ee) as [_ Hp]. specialize (Hp Hloc). unfold placed_by in *. cbn. rewrite ?El. exact Hp.
  - by apply (seed_nodes_origin ops' l l); [|reflexivity|].
  - apply Hprune.
  - unfold DrainObservations. by destruct (obsBuf r).
  - cbn. intros pk e He. unfold stamp_relayed in He. rewrite map_lookup_imap in He.
    destruct (nodes r !! pk) as [e0|] eqn:E0; [|done]. cbn in He. injection He as <-.
    destruct ((drain _ _ _ _ _).1 !! pk); apply (Hns' _ _ E0).
Qed.

(** C9: with signatures required, a node's identity comes only from an advert
    among the received packets that verifies under that very key, or from the
    seed; so does its position. No relay path, no forwarded packet and no advert
    that fails to verify ever introduces, renames or moves a node. *)
Theorem identity_signed cfg ops :
  RequireValidSignature cfg = true ->
  forall pk e, nodes (run cfg ops) !! pk = Some e ->
    named_by ops pk (state e) /\ (ns_HasLocation (state e) = true -> placed_by ops pk (state e)).
Proof.
  intros Hsig. change (map_Forall (origin_ok ops) (nodes (run cfg ops))).
  induction ops as [|o ops IH] using rev_ind; [apply map_Forall_empty|].
  unfold run. rewrite foldl_app. by apply step_origin.
Qed.

(** ** One packet *)

Lemma advert_kept cfg now pk e :
  LastHeardAt (state e) = now -> 0 < RetainFor cfg -> keeps_node cfg now (pk, e).
Proof.
  intros He Hpos. unfold keeps_node, last_evidence. cbn.
  destruct (time_after _ _) eqn:E; [apply time_after_spec in E|]; unfold time_sub, min_int64, max_int64; lia.
Qed.

(** What a packet does, by its outcome. One that is not an advert, is
    malformed or is rejected changes no node and no reception; the last two change
    nothing at all. An accepted advert decodes from the packet, verifies when
    that is required, and touches its own node alone: other nodes can only be
    pruned. The node's clocks are ours, a position or signal reading the advert
    lacks stays what it was, and its relay clock does not move. *)
Theorem packet_contract cfg env source gw now r :
  match ingestPacket cfg env source gw now r with
  | (PacketIgnored, r') => fi_v (PacketType env) <> packetTypeAdvert
      /\ nodes r' = nodes r /\ obsBuf r' = obsBuf r /\ obsGate r' = obsGate r /\ adj r' = adj r
  | (PacketMalformed, r') => fi_v (PacketType env) = packetTypeAdvert /\ r' = r
      /\ forall raw adv, raw_of env = Some raw -> DecodeFrame raw <> inr adv
  | (PacketRejected, r') => r' = r /\ RequireValidSignature cfg = true
      /\ exists raw adv, raw_of env = Some raw /\ DecodeFrame raw = inr adv /\ SignatureValid adv = false
  | (PacketAccepted, r') => exists raw adv e', raw_of env = Some raw /\ DecodeFrame raw = inr adv
      /\ (RequireValidSignature cfg = true -> SignatureValid adv = true)
      /\ adj r' = adj r /\ routeBuf r' = routeBuf r
      /\ (forall pk e, pk <> PubKey adv -> nodes r' !! pk = Some e -> nodes r !! pk = Some e)
      /\ (forall pk e, pk <> PubKey adv -> nodes r !! pk = Some e -> keeps_node cfg now (pk, e) ->
           nodes r' !! pk = Some e)
      /\ nodes r' !! PubKey adv = Some e'
      /\ let s := state (default new_entry (nodes r !! PubKey adv)) in let s' := state e' in
         ns_PubKey s' = PubKey adv /\ LastHeardAt s' = now /\ ReceivedAt s' = now /\ HasSignal s' = true
         /\ ns_HopCount s' = HopCount adv /\ LastRelayedAt s' = LastRelayedAt s
         /\ (HasLocation adv = false ->
              ns_HasLocation s' = ns_HasLocation s /\ ns_Lat s' = ns_Lat s /\ ns_Lng s' = ns_Lng s)
         /\ (ff_set (env_SNR env) = false -> SNR s' = SNR s)
         /\ (fi_set (env_RSSI env) = false \/ fi_v (env_RSSI env) = 0 -> RSSI s' = RSSI s)
  end.
Proof.
  unfold ingestPacket. destruct (Z.eqb_spec (fi_v (PacketType env)) packetTypeAdvert) as [Ht|Ht]; cbn [negb].
  2:{ destruct (raw_of env) as [raw|]; [|done]. destruct (DecodeFrameHeader raw) as [|h]; [done|].
      unfold record_path_of. by destruct (RelayHops h), (RouteHops h). }
  destruct (raw_of env) as [raw|]; [|done].
  destruct (DecodeFrame raw) as [|adv] eqn:Ed; [split_and!; [done..|]; intros raw' adv' [= <-]; congruence|].
  destruct (RequireValidSignature cfg && negb (SignatureValid adv)) eqn:Ev.
  { apply andb_prop in Ev as [? ?%negb_true_iff]. split_and!; [done..|]. eauto. }
  set (gw' := firstNonEmpty [OriginID env; Origin env; gw; source]).
  set (e' := note_advert adv env gw' source now (default new_entry (nodes r !! PubKey adv))).
  assert (Hnodes : nodes (ingest_advert cfg adv raw env source gw now r)
    = if RetainFor cfg <=? 0 then <[PubKey adv := e']> (nodes r)
      else filter (keeps_node cfg now) (<[PubKey adv := e']> (nodes r))).
  { unfold ingest_advert, pruneLocked, e', gw'. destruct (RetainFor cfg <=? 0);
      (destruct (DecodeFrameHeader raw) as [|h]; [done|]; by destruct (is_flood h)). }
  assert (Hrest : adj (ingest_advert cfg adv raw env source gw now r) = adj r
    /\ routeBuf (ingest_advert cfg adv raw env source gw now r) = routeBuf r).
  { unfold ingest_advert, pruneLocked. destruct (RetainFor cfg <=? 0);
      (destruct (DecodeFrameHeader raw) as [|h]; [done|]; by destruct (is_flood h)). }
  exists raw, adv, e'. destruct Hrest as [-> ->]. rewrite Hnodes. split_and!; try done.
  - intros Hreq. rewrite Hreq in Ev. by destruct (SignatureValid adv).
  - intros pk e Hne. destruct (_ <=? 0); [by rewrite lookup_insert_ne|].
    intros [Hl _]%map_lookup_filter_Some. by rewrite lookup_insert_ne in Hl.
  - intros pk e Hne Hl Hk. destruct (_ <=? 0); [by rewrite lookup_insert_ne|].
    apply map_lookup_filter_Some. by rewrite lookup_insert_ne.
  - destruct (Z.leb_spec (RetainFor cfg) 0); [by rewrite lookup_insert_eq|].
    apply map_lookup_filter_Some. split; [by rewrite lookup_insert_eq|]. by apply advert_kept.
  - intros Hloc. unfold e', note_advert. cbn. by rewrite Hloc.
  - intros Hsnr. unfold e', note_advert. cbn. by rewrite Hsnr.
  - intros Hrssi. unfold e', note_advert. cbn. destruct Hrssi as [-> | ->]; [done|]. by rewrite andb_false_r.
Qed.

(** ** Presence *)

Lemma window_bounds cfg e :
  GraceFloor cfg <= GraceCeil cfg -> GraceFloor cfg <= presenceWindow cfg e <= GraceCeil cfg.
Proof.
  intros Hle. unfold presenceWindow. destruct (_ || _); [lia|].
  destruct (Z.ltb_spec (trunc (mul (CadenceK cfg) (of_Z (ewmaInterval (cadence e))))) (GraceFloor cfg)); [lia|].
  destruct (Z.ltb_spec (GraceCeil cfg) (trunc (mul (CadenceK cfg) (of_Z (ewmaInterval (cadence e)))))); lia.
Qed.

Lemma present_kept cfg now pk e :
  GraceFloor cfg <= GraceCeil cfg -> GraceCeil cfg <= RetainFor cfg -> RelayPresence cfg <= RetainFor cfg ->
  presentLocked cfg e now = true -> keeps_node cfg now (pk, e).
Proof.
  intros Hfc Hcr Hrr Hp. pose proof (window_bounds cfg e Hfc) as [_ Hw].
  unfold keeps_node, last_evidence. cbn [snd].
  assert (Hlast : LastHeardAt (state e) <= (if time_after (LastRelayedAt (state e)) (LastHeardAt (state e))
       then LastRelayedAt (state e) else LastHeardAt (state e))
     /\ LastRelayedAt (state e) <= (if time_after (LastRelayedAt (state e)) (LastHeardAt (state e))
       then LastRelayedAt (state e) else LastHeardAt (state e))).
  { destruct (time_after _ _) eqn:E; [apply time_after_spec in E|apply time_after_false in E]; lia. }
  destruct Hlast as [H1 H2]. unfold presentLocked in Hp. apply orb_prop in Hp as [Hp|Hp].
  - pose proof (time_sub_mono_r now _ _ H1). lia.
  - apply andb_prop in Hp as [_ Hp]. pose proof (time_sub_mono_r now _ _ H2). lia.
Qed.

(** A snapshot lists exactly the nodes the registry retains that are present:
    heard within their own window, which is between the floor and the ceiling
    whatever their cadence, or relaying within the relay presence. When the
    retention covers both windows, no present node is ever lost to pruning. *)
Theorem snapshot_present cfg now r :
  let l := (Snapshot cfg now r).1 in
  (forall ns, ns ∈ l <-> exists pk e, nodes (pruneLocked cfg now r) !! pk = Some e
     /\ presentLocked cfg e now = true /\ ns = shown e)
  /\ (GraceFloor cfg <= GraceCeil cfg ->
      (forall e, GraceFloor cfg <= presenceWindow cfg e <= GraceCeil cfg)
      /\ (GraceCeil cfg <= RetainFor cfg -> RelayPresence cfg <= RetainFor cfg ->
          forall pk e, nodes r !! pk = Some e -> presentLocked cfg e now = true -> shown e ∈ l)).
Proof.
  intros l.
  assert (Hl : forall ns, ns ∈ l <-> exists pk e, nodes (pruneLocked cfg now r) !! pk = Some e
     /\ presentLocked cfg e now = true /\ ns = shown e).
  { intros ns. unfold l, Snapshot. cbn [fst]. rewrite list_elem_of_fmap. split.
    - intros (e & -> & [Hp Hin]%list_elem_of_filter). apply list_elem_of_fmap in Hin as ([pk e'] & -> & Hin).
      apply elem_of_map_to_list in Hin. eauto.
    - intros (pk & e & He & Hp & ->). exists e. split; [done|]. apply list_elem_of_filter. split; [done|].
      apply list_elem_of_fmap. exists (pk, e). split; [done|]. by apply elem_of_map_to_list. }
  split; [done|]. intros Hfc. split; [intros e; by apply window_bounds|].
  intros Hcr Hrr pk e He Hp. apply Hl. exists pk, e. split_and!; [|done..].
  unfold pruneLocked. destruct (_ <=? 0); [done|]. cbn. apply map_lookup_filter_Some. split; [done|].
  by apply present_kept.
Qed.

(** ** Receptions *)

Definition op_time (o : Op) : list Time :=
  match o with Packet _ _ _ now | OpSnapshot now => [now] | _ => [] end.

(** Every reception the calls handed over, and those still buffered, oldest first. *)
Fixpoint handed (cfg : Config) (r : Registry) (ops : list Op) : list Observation :=
  match ops with
  | [] => obsBuf r
  | o :: ops => (match o with OpDrainObservations => (DrainObservations r).1 | _ => [] end) ++ handed cfg (step cfg r o) ops
  end.

Definition same_link (a b : Observation) : Prop := o_PubKey a = o_PubKey b /\ o_Gateway a = o_Gateway b.

(** [b] comes after [a] by the floor, on the same link. *)
Definition spaced (cfg : Config) (a b : Observation) : Prop :=
  same_link a b -> SpamFloor cfg <= time_sub (o_HeardAt b) (o_HeardAt a).

(** What bounds the next reception on [a]'s link: the gate, or the time passed. *)
Definition gated (cfg : Config) (t : Time) (gate : gmap string Time) (a : Observation) : Prop :=
  o_HeardAt a <= t
  /\ ((exists g, gate !! gate_key (o_PubKey a) (o_Gateway a) = Some g /\ o_HeardAt a <= g)
      \/ SpamFloor cfg <= time_sub t (o_HeardAt a)).

Lemma sorted_remove {A} (R : A -> A -> Prop) (l k m : list A) :
  StronglySorted R (l ++ k ++ m) -> StronglySorted R (l ++ m).
Proof.
  induction l as [|x l IH]; cbn; [by apply StronglySorted_app_1_r|].
  intros [Hs Hall]%StronglySorted_inv. constructor; [by apply IH|]. rewrite !Forall_app in *. tauto.
Qed.

Lemma sorted_snoc {A} (R : A -> A -> Prop) (l : list A) x :
  StronglySorted R l -> Forall (fun a => R a x) l -> StronglySorted R (l ++ [x]).
Proof.
  induction l as [|y l IH]; cbn; intros Hs Hall; [repeat constructor|].
  apply StronglySorted_inv in Hs as [Hs Hy]. apply Forall_cons in Hall as [? ?].
  constructor; [by apply IH|]. apply Forall_app. split; [done|]. by repeat constructor.
Qed.

Lemma gated_later cfg t t' gate a : t <= t' -> gated cfg t gate a -> gated cfg t' gate a.
Proof.
  intros Ht [Hle [?|Hf]]; (split; [lia|]); [by left|right]. etrans; [exact Hf|]. by apply time_sub_mono_l.
Qed.

Lemma gated_prune cfg t gate a :
  SpamFloor cfg <= RetainFor cfg -> gated cfg t gate a -> gated cfg t (filter (keeps_gate cfg t) gate) a.
Proof.
  intros Hfr [Hle [(g & Hg & Hag)|Hf]]; (split; [done|]); [|by right].
  destruct (decide (keeps_gate cfg t (gate_key (o_PubKey a) (o_Gateway a), g))) as [Hk|Hk].
  - left. exists g. split; [|done]. by apply map_lookup_filter_Some.
  - right. unfold keeps_gate in Hk. cbn in Hk. pose proof (time_sub_mono_r t _ _ Hag). lia.
Qed.

(** The invariant of the log: [past] is what was handed over. *)
Definition log_ok (cfg : Config) (t : Time) (past : list Observation) (r : Registry) : Prop :=
  StronglySorted (spaced cfg) (past ++ obsBuf r) /\ Forall (gated cfg t (obsGate r)) (past ++ obsBuf r).

Lemma log_prune cfg t past r :
  SpamFloor cfg <= RetainFor cfg -> log_ok cfg t past r -> log_ok cfg t past (pruneLocked cfg t r).
Proof.
  intros Hfr [Hs Hg]. unfold pruneLocked. destruct (_ <=? 0); [done|]. split; [done|]. cbn.
  eapply Forall_impl; [exact Hg|]. intros a. by apply gated_prune.
Qed.

Lemma log_push cfg now past buf gate o :
  0 < SpamFloor cfg -> o_HeardAt o = now ->
  StronglySorted (spaced cfg) (past ++ buf) -> Forall (gated cfg now gate) (past ++ buf) ->
  let x := allowObservationLocked cfg (o_PubKey o) (o_Gateway o) now gate in
  let buf' := if x.1 then push_obs o buf else buf in
  StronglySorted (spaced cfg) (past ++ buf') /\ Forall (gated cfg now x.2) (past ++ buf').
Proof.
  intros Hpos Ho Hs Hg. unfold allowObservationLocked.
  destruct (Z.leb_spec (SpamFloor cfg) 0); [lia|]. set (key := gate_key (o_PubKey o) (o_Gateway o)).
  assert (Hallow : match gate !! key with Some last => SpamFloor cfg <= time_sub now last | None => True end ->
    StronglySorted (spaced cfg) (past ++ push_obs o buf)
    /\ Forall (gated cfg now (<[key := now]> gate)) (past ++ push_obs o buf)).
  { intros Hgap.
    assert (Hnew : Forall (fun a => spaced cfg a o) (past ++ buf)).
    { eapply Forall_impl; [exact Hg|]. intros a [Hle Hc] [Hk1 Hk2]. rewrite Ho.
      destruct Hc as [(g & Hga & Hag)|?]; [|done]. rewrite Hk1, Hk2 in Hga. fold key in Hga. rewrite Hga in Hgap.
      pose proof (time_sub_mono_r now _ _ Hag). lia. }
    assert (Hup : Forall (gated cfg now (<[key := now]> gate)) (past ++ buf ++ [o])).
    { rewrite app_assoc, Forall_app. split.
      - eapply Forall_impl; [exact Hg|]. intros a [Hle Hc]. split; [done|].
        destruct Hc as [(g & Hga & Hag)|?]; [left|by right].
        destruct (decide (gate_key (o_PubKey a) (o_Gateway a) = key)) as [->|Hne].
        + exists now. by rewrite lookup_insert_eq.
        + exists g. by rewrite lookup_insert_ne.
      - constructor; [|done]. split; [lia|]. left. exists now. fold key. rewrite lookup_insert_eq. split; [done|lia]. }
    unfold push_obs. set (k := (length (buf ++ [o]) - maxObsBuffer)%nat). split.
    - apply (sorted_remove _ past (take k (buf ++ [o]))). rewrite take_drop, app_assoc. by apply sorted_snoc.
    - apply Forall_app in Hup as [? Hup]. apply Forall_app. split; [done|]. by apply Forall_drop. }
  destruct (gate !! key) as [last|]; [|by apply Hallow].
  destruct (Z.ltb_spec (time_sub now last) (SpamFloor cfg)); [done|by apply Hallow].
Qed.

Definition handed_by (r : Registry) (o : Op) : list Observation :=
  match o with OpDrainObservations => (DrainObservations r).1 | _ => [] end.

(** A log under a change of what the floor does not look at. *)
Lemma log_fmap cfg t gate (f : Observation -> Observation) past l :
  (forall o, o_PubKey (f o) = o_PubKey o /\ o_Gateway (f o) = o_Gateway o /\ o_HeardAt (f o) = o_HeardAt o) ->
  StronglySorted (spaced cfg) (past ++ l) -> Forall (gated cfg t gate) (past ++ l) ->
  StronglySorted (spaced cfg) (past ++ (f <$> l)) /\ Forall (gated cfg t gate) (past ++ (f <$> l)).
Proof.
  intros Hf Hs Hg. split.
  - revert Hs. clear Hg. induction past as [|x past IH]; cbn.
    + induction l as [|y l IHl]; [done|]. intros [Hs Hall]%StronglySorted_inv. cbn. constructor; [by apply IHl|].
      apply Forall_fmap. eapply Forall_impl; [exact Hall|]. intros z Hz. cbn. unfold spaced, same_link in *.
      destruct (Hf y) as (-> & -> & ->), (Hf z) as (-> & -> & ->). done.
    + intros [Hs Hall]%StronglySorted_inv. constructor; [by apply IH|]. rewrite !Forall_app in *.
      destruct Hall as [? Hall]. split; [done|]. apply Forall_fmap. eapply Forall_impl; [exact Hall|].
      intros z Hz. cbn. unfold spaced, same_link in *. by destruct (Hf z) as (-> & -> & ->).
  - rewrite !Forall_app in *. destruct Hg as [? Hg]. split; [done|]. apply Forall_fmap.
    eapply Forall_impl; [exact Hg|]. intros z Hz. cbn. unfold gated in *. by destruct (Hf z) as (-> & -> & ->).
Qed.

Lemma step_log cfg t t' past r o :
  0 < SpamFloor cfg -> SpamFloor cfg <= RetainFor cfg -> t <= t' -> Forall (eq t') (op_time o) ->
  log_ok cfg t past r -> log_ok cfg t' (past ++ handed_by r o) (step cfg r o).
Proof.
  intros Hpos Hfr Ht Hop [Hs Hg].
  assert (Hok : log_ok cfg t' past r).
  { split; [done|]. eapply Forall_impl; [exact Hg|]. intros a. by apply gated_later. }
  clear Hs Hg. destruct o; cbn [step handed_by]; rewrite ?app_nil_r; cbn in Hop; try done.
  - apply Forall_cons in Hop as [<- _]. unfold ingestPacket. destruct (negb _); cbn [snd].
    { destruct (raw_of env) as [raw|]; [|done]. destruct (DecodeFrameHeader raw) as [|h]; [done|].
      unfold record_path_of. by destruct (RelayHops h), (RouteHops h). }
    destruct (raw_of env) as [raw|]; [|done]. destruct (DecodeFrame raw) as [|adv]; [done|].
    destruct (_ && _); [done|]. cbn [snd]. unfold ingest_advert. apply log_prune; [done|].
    set (r1 := match DecodeFrameHeader raw with inr h => _ | inl _ => r end).
    assert (Hr1 : obsBuf r1 = obsBuf r /\ obsGate r1 = obsGate r).
    { unfold r1. destruct (DecodeFrameHeader raw) as [|h]; [done|]. by destruct (is_flood h). }
    destruct Hr1 as [Eo Eg]. unfold log_ok. cbn. rewrite Eo, Eg. destruct Hok as [Hs Hg].
    exact (log_push cfg t' past (obsBuf r) (obsGate r) (observation adv env _ source t') Hpos eq_refl Hs Hg).
  - apply Forall_cons in Hop as [<- _]. by apply log_prune.
  - unfold DrainObservations. destruct Hok as [Hs Hg]. destruct (obsBuf r) as [|o l] eqn:E.
    + unfold log_ok. cbn [fst snd]. rewrite E, !app_nil_r in *. done.
    + unfold log_ok. cbn [fst snd obsBuf set_obs obsGate]. rewrite app_nil_r.
      apply (log_fmap cfg t' (obsGate r) _ past (o :: l)); [done|done|done].
Qed.

Lemma handed_spaced cfg t past r ops :
  0 < SpamFloor cfg -> SpamFloor cfg <= RetainFor cfg -> StronglySorted Z.le (t :: (ops ≫= op_time)) ->
  log_ok cfg t past r -> StronglySorted (spaced cfg) (past ++ handed cfg r ops).
Proof.
  intros Hpos Hfr. revert t past r. induction ops as [|o ops IH]; intros t past r Ht Hok; [by destruct Hok|].
  cbn [handed]. rewrite app_assoc. rewrite bind_cons in Ht.
  apply StronglySorted_inv in Ht as [Hs Hall]. apply Forall_app in Hall as [Hall1 Hall2].
  assert (Ht' : exists t', t <= t' /\ Forall (eq t') (op_time o) /\ StronglySorted Z.le (t' :: (ops ≫= op_time))).
  { destruct o; cbn in *; try (by exists t; split_and!; [lia|constructor|constructor]);
      (exists now; split_and!; [by apply Forall_cons in Hall1 as [? _]|by repeat constructor|done]). }
  destruct Ht' as (t' & Hle & Hop & Hsort). change (match o with OpDrainObservations => _ | _ => [] end) with (handed_by r o).
  eapply IH; [exact Hsort|]. by eapply step_log.
Qed.

(** The receptions handed to the store keep the spam floor: of two from one
    node on one gateway the later comes at least the floor after the earlier,
    across drains, snapshots and anything else in between, as long as the floor
    is within the retention. *)
Theorem spam_floor cfg ops :
  0 < SpamFloor cfg -> SpamFloor cfg <= RetainFor cfg -> StronglySorted Z.le (ops ≫= op_time) ->
  forall i j a b, (i < j)%nat -> handed cfg empty_registry ops !! i = Some a ->
    handed cfg empty_registry ops !! j = Some b -> same_link a b ->
    SpamFloor cfg <= time_sub (o_HeardAt b) (o_HeardAt a).
Proof.
  intros Hpos Hfr Hsort.
  assert (Hs : StronglySorted (spaced cfg) ([] ++ handed cfg empty_registry ops)).
  { destruct (ops ≫= op_time) as [|t l] eqn:E.
    - apply (handed_spaced cfg 0); [done|done| |split; constructor]. rewrite E. apply SSorted_cons; constructor.
    - apply (handed_spaced cfg t); [done|done| |split; constructor]. rewrite E. constructor; [done|].
      apply StronglySorted_inv in Hsort as [_ Hall]. by constructor. }
  cbn in Hs. intros i j a b Hij Ha Hb Hl. revert i j Hij Ha Hb.
  induction Hs as [|x l _ IH Hall]; intros [|i] [|j] Hij Ha Hb; try done; [lia| |lia|].
  - cbn in *. injection Ha as ->. eapply Forall_lookup_1 in Hall; [|exact Hb]. by apply Hall.
  - cbn in *. apply (IH i j); [lia|done|done].
Qed.

(** ** Prefixes *)

Lemma resolve_prefix_spec prefix l pk :
  NoDup l -> "" ∉ l ->
  resolve_prefix prefix "" l = (pk, true)
  <-> pk ∈ l /\ HasPrefix pk prefix = true /\ forall pk', pk' ∈ l -> HasPrefix pk' prefix = true -> pk' = pk.
Proof.
  assert (Hsome : forall l m, m <> "" -> resolve_prefix prefix m l
    = if bool_decide (Forall (fun k => HasPrefix k prefix = false) l) then (m, true) else ("", false)).
  { clear. induction l as [|k l IH]; intros m Hm; cbn.
    - by rewrite bool_decide_false.
    - destruct (HasPrefix k prefix) eqn:Ek; cbn [negb].
      + rewrite (bool_decide_false (m = "")) by done. cbn [negb]. rewrite bool_decide_false; [done|].
        intros [? _]%Forall_cons. congruence.
      + rewrite IH by done. apply (f_equal (fun b : bool => if b then _ else _)).
        apply bool_decide_ext. rewrite Forall_cons. tauto. }
  intros Hnd Hne. induction l as [|k l IH]; cbn; [split; [by intros [=]|by intros [?%not_elem_of_nil _]]|].
  apply NoDup_cons in Hnd as [Hk Hnd]. rewrite not_elem_of_cons in Hne. destruct Hne as [Hk0 Hne].
  destruct (HasPrefix k prefix) eqn:Ek; cbn [negb].
  - rewrite bool_decide_true by done. cbn [negb]. rewrite Hsome by done. case_bool_decide as Hall.
    + rewrite Forall_forall in Hall. split.
      * intros [= ->]. split_and!; [left|done|]. intros pk' [->|Hin]%elem_of_cons Hp; [done|].
        by rewrite (Hall _ Hin) in Hp.
      * intros ([->|Hin]%elem_of_cons & Hp & _); [done|]. by rewrite (Hall _ Hin) in Hp.
    + split; [done|]. intros (Hin & Hp & Huni). destruct Hall. apply Forall_forall. intros x Hx.
      destruct (HasPrefix x prefix) eqn:Ex; [|done]. exfalso. apply Hk.
      assert (x = pk) as -> by (apply Huni; [by right|done]).
      assert (k = pk) as -> by (apply Huni; [left|done]). done.
  - rewrite IH by done. split.
    + intros (? & ? & Huni). split_and!; [by right|done|]. intros pk' [->|?]%elem_of_cons ?; [congruence|auto].
    + intros ([->|?]%elem_of_cons & Hp & Huni); [congruence|]. split_and!; [done..|].
      intros pk' ? ?. apply Huni; [by right|done].
Qed.

(** A prefix resolves exactly to the one known node whose key begins with it,
    in any case; shared or unknown, it resolves to nothing. *)
Theorem resolve_prefix_unique cfg ops prefix pk :
  Forall op_ok ops ->
  ResolvePrefix prefix (run cfg ops) = (pk, true)
  <-> prefix <> "" /\ is_Some (nodes (run cfg ops) !! pk) /\ HasPrefix pk (ToLower prefix) = true
     /\ forall pk', is_Some (nodes (run cfg ops) !! pk') -> HasPrefix pk' (ToLower prefix) = true -> pk' = pk.
Proof.
  intros Hops. destruct (registry_invariant cfg ops Hops) as [Hnodes _ _ _ _]. unfold ResolvePrefix.
  set (ns := nodes (run cfg ops)) in *.
  assert (Hin : forall k, k ∈ (map_to_list ns).*1 <-> is_Some (ns !! k)).
  { intros k. rewrite list_elem_of_fmap. split.
    - intros ([k' e] & -> & He%elem_of_map_to_list). eauto.
    - intros [e He]. exists (k, e). split; [done|]. by apply elem_of_map_to_list. }
  destruct (Nat.eqb_spec (String.length prefix) 0) as [Hl|Hl].
  - split; [done|]. intros [Hne _]. by destruct prefix.
  - rewrite resolve_prefix_spec, Hin.
    + setoid_rewrite Hin. split; [|tauto]. intros Hr. split; [by intros ->|done].
    + apply NoDup_fst_map_to_list.
    + rewrite Hin. intros [e He]. destruct (Hnodes _ _ He) as (_ & Hne & _). done.
Qed.

End Spec.

(** ** A concrete feed *)

Module RegistryDemo.

#[local] Existing Instance ascii_only.
(** Every signature verifies. *)
#[local] Instance trusting : Ed25519 := {| Verify _ _ _ := true |}.

Definition config : Config :=
  with_defaults (mkConfig true 0 (30 * second) (of_Z 3) 0 0 0 hour).

Definition advert_frame : FrameSpec := mkFrameSpec (ascii_of_N 17) [] 1 [] (ad_encode demo_advert).
Definition envelope : packetEnvelope :=
  mkEnvelope "" "observer" (mkFlexInt 4 true) (EncodeToString (fr_encode advert_frame))
    (mkFlexFloat (of_Z 5) true) (mkFlexInt (-90) true).

Definition at_ (s : Z) : Op := Packet envelope "tcp://broker" "" (time_of_unix s).
(** Heard, echoed within the floor, drained, heard again. *)
Definition feed : list Op := [at_ 1000; at_ 1010; OpDrainObservations; at_ 1040].

Definition node : string := EncodeToString (ad_pub demo_advert).
Abbreviation final := (run config feed).

Lemma feed_ok : Forall op_ok feed.
Proof. repeat constructor. Qed.

Lemma registry_invariant_witness :
  reg_ok final /\ length (obsBuf final) = 1%nat /\ is_Some (nodes final !! node).
Proof.
  split; [exact (registry_invariant config feed feed_ok)|].
  split; [vm_compute; reflexivity|]. exists (default new_entry (nodes final !! node)). vm_compute. reflexivity.
Defined.

Lemma identity_signed_witness :
  exists e, nodes final !! node = Some e /\ named_by feed node (state e) /\ ns_Name (state e) = "Ridge".
Proof.
  exists (default new_entry (nodes final !! node)).
  assert (He : nodes final !! node = Some (default new_entry (nodes final !! node))) by (vm_compute; reflexivity).
  split; [exact He|split; [|vm_compute; reflexivity]].
  exact (proj1 (identity_signed config feed eq_refl node _ He)).
Defined.

Definition first_two : list Observation := take 2 (handed config empty_registry feed).

Lemma spam_floor_witness :
  o_HeardAt <$> handed config empty_registry feed = [time_of_unix 1000; time_of_unix 1040]
  /\ 30 * second <= time_sub (time_of_unix 1040) (time_of_unix 1000).
Proof.
  split; [vm_compute; reflexivity|].
  set (a := mkObservation node (time_of_unix 1000) "tcp://broker" "observer" (of_Z 5) (-90) 0 [] []).
  set (b := mkObservation node (time_of_unix 1040) "tcp://broker" "observer" (of_Z 5) (-90) 0 [] []).
  apply (spam_floor config feed ltac:(reflexivity) ltac:(vm_compute; discriminate)
     ltac:(repeat constructor; vm_compute; discriminate) 0%nat 1%nat a b ltac:(lia));
    [vm_compute; reflexivity|vm_compute; reflexivity|split; reflexivity].
Defined.

Lemma resolve_prefix_unique_witness : ResolvePrefix "0A0A" final = (node, true).
Proof.
  apply (proj2 (resolve_prefix_unique config feed "0A0A" node feed_ok)).
  assert (Hdom : (map_to_list (nodes final)).*1 = [node]) by (vm_compute; reflexivity).
  split; [discriminate|split; [|split; [vm_compute; reflexivity|]]].
  - exists (default new_entry (nodes final !! node)). vm_compute. reflexivity.
  - intros pk [e He] _. apply list_elem_of_singleton. rewrite <-Hdom. apply list_elem_of_fmap.
    exists (pk, e). split; [reflexivity|]. by apply elem_of_map_to_list.
Defined.

End RegistryDemo.
End RegistrySpec.
