(* ===== verification/Companion.v ===== *)
(** * Reading the companion node

    [internal/relaytelemetry/companion.go] and the exchange of
    [poller.go]: the companion protocol's commands and replies over bytes, and
    one leased conversation with a node. What the conversation receives is a
    script: per command, whether it could be sent, the arrivals the select of
    [ask] takes in order, and what the lease and the context say afterwards. *)

From Stdlib Require Import Ascii ZifyN ZifyBool.
From S2P Require Import Prelude Float64 GoText MeshFrame.

Module Companion.
Import F64 Text Frame.

(** ** Samples *)

(** [Sample]; [None] is a value the node did not answer. *)
Record Sample := mkSample {
  BatteryVoltage : option float64; UptimeS : option Z; TxQueueLen : option Z; NoiseFloorDBm : option Z;
  LastRSSIdBm : option Z; LastSNRdB : option float64; AirtimeMs : option Z; RxAirtimeMs : option Z;
  NbRecv : option Z; NbSent : option Z; SentFlood : option Z; SentDirect : option Z;
  RecvFlood : option Z; RecvDirect : option Z; RecvErrors : option Z;
  TemperatureC : option float64; DirectDups : option Z; FloodDups : option Z }.

Definition no_sample : Sample :=
  mkSample None None None None None None None None None None None None None None None None None None.

Definition set_BatteryVoltage (v : option float64) (s : Sample) : Sample :=
  mkSample v (UptimeS s) (TxQueueLen s) (NoiseFloorDBm s) (LastRSSIdBm s) (LastSNRdB s) (AirtimeMs s)
    (RxAirtimeMs s) (NbRecv s) (NbSent s) (SentFlood s) (SentDirect s) (RecvFlood s) (RecvDirect s)
    (RecvErrors s) (TemperatureC s) (DirectDups s) (FloodDups s).

(** ** Frames *)

Definition cmdAppStart : N := 1.
Definition cmdGetBattStorage : N := 20.
Definition cmdDeviceQuery : N := 22.
Definition cmdGetStats : N := 56.
Definition respErr : N := 1.
Definition respSelfInfo : N := 5.
Definition respBattStorage : N := 12.
Definition respDeviceInfo : N := 13.
Definition respStats : N := 24.
Definition statsCore : N := 0.
Definition statsRadio : N := 1.
Definition statsPackets : N := 2.
Definition statsMinFirmware : N := 8.
Definition deviceQueryVersion : N := 3.
Definition appName : string := "sierra-relay-telemetry".

Definition selfInfoPubkeyOff : nat := 4.
Definition pubkeySize : nat := 32.
Definition selfInfoNameOff : nat := selfInfoPubkeyOff + pubkeySize + 4 + 4 + 1 + 1 + 1 + 1 + 4 + 4 + 1 + 1.

Definition appStartFrame : Bytes := (ascii_of_N <$> [cmdAppStart; 1; 0; 0; 0; 0; 0; 0]%N) ++ bytes appName.
Definition deviceQueryFrame : Bytes := ascii_of_N <$> [cmdDeviceQuery; deviceQueryVersion].
Definition battStorageFrame : Bytes := ascii_of_N <$> [cmdGetBattStorage].
Definition statsFrame (kind : N) : Bytes := ascii_of_N <$> [cmdGetStats; kind].

Definition isCode (c : N) (f : Bytes) : bool := (0 <? length f)%nat && (byte_at f 0 =? c)%N.
Definition isStats (kind : N) (f : Bytes) : bool :=
  (1 <? length f)%nat && (byte_at f 0 =? respStats)%N && (byte_at f 1 =? kind)%N.

(** [binary.LittleEndian.Uint16] of two bytes, and the signed readings of a byte
    and of a 16-bit word. *)
Definition Uint16 (l : Bytes) : Z := Z.lor (Z.of_N (byte_at l 0)) (Z.shiftl (Z.of_N (byte_at l 1)) 8).
Definition int16 (n : Z) : Z := if n <? 2 ^ 15 then n else n - 2 ^ 16.
Definition int8 (n : Z) : Z := if n <? 2 ^ 7 then n else n - 2 ^ 8.

Definition thousandths (n : Z) : float64 := div (of_Z n) (of_Z 1000).
Definition quarters (n : Z) : float64 := div (of_Z n) (of_Z 4).

(** A C string, invalid UTF-8 dropped. *)
Definition cString (b : Bytes) : string :=
  ToValidUTF8 (of_bytes (match list_find (fun c => code c = 0%N) b with Some (i, _) => take i b | None => b end)).

Definition parseSelfInfo (f : Bytes) : option (string * string) :=
  if (length f <? selfInfoPubkeyOff + pubkeySize)%nat || negb (byte_at f 0 =? respSelfInfo)%N then None
  else Some (EncodeToString (slice f selfInfoPubkeyOff pubkeySize),
             if (selfInfoNameOff <? length f)%nat then cString (drop selfInfoNameOff f) else "").

Definition parseFirmwareVersion (f : Bytes) : option N :=
  if (length f <? 2)%nat || negb (byte_at f 0 =? respDeviceInfo)%N then None else Some (byte_at f 1).

Definition parseBattery (f : Bytes) : option float64 :=
  if (length f <? 3)%nat || negb (byte_at f 0 =? respBattStorage)%N then None
  else Some (thousandths (Uint16 (slice f 1 2))).

Definition u32_at (f : Bytes) (off : nat) : Z := Uint32 (slice f off 4).

(** The stats appliers; a frame that is short or of another kind changes nothing. *)
Definition applyCoreStats (f : Bytes) (s : Sample) : Sample :=
  if (length f <? 11)%nat || negb (isStats statsCore f) then s
  else
    mkSample (match BatteryVoltage s with None => Some (thousandths (Uint16 (slice f 2 2))) | v => v end)
      (Some (u32_at f 4)) (Some (Z.of_N (byte_at f 10))) (NoiseFloorDBm s) (LastRSSIdBm s) (LastSNRdB s)
      (AirtimeMs s) (RxAirtimeMs s) (NbRecv s) (NbSent s) (SentFlood s) (SentDirect s) (RecvFlood s)
      (RecvDirect s) (RecvErrors s) (TemperatureC s) (DirectDups s) (FloodDups s).

Definition applyRadioStats (f : Bytes) (s : Sample) : Sample :=
  if (length f <? 14)%nat || negb (isStats statsRadio f) then s
  else
    mkSample (BatteryVoltage s) (UptimeS s) (TxQueueLen s) (Some (int16 (Uint16 (slice f 2 2))))
      (Some (int8 (Z.of_N (byte_at f 4)))) (Some (quarters (int8 (Z.of_N (byte_at f 5)))))
      (Some (u32_at f 6 * 1000)) (Some (u32_at f 10 * 1000)) (NbRecv s) (NbSent s) (SentFlood s) (SentDirect s)
      (RecvFlood s) (RecvDirect s) (RecvErrors s) (TemperatureC s) (DirectDups s) (FloodDups s).

Definition applyPacketStats (f : Bytes) (s : Sample) : Sample :=
  if (length f <? 26)%nat || negb (isStats statsPackets f) then s
  else
    mkSample (BatteryVoltage s) (UptimeS s) (TxQueueLen s) (NoiseFloorDBm s) (LastRSSIdBm s) (LastSNRdB s)
      (AirtimeMs s) (RxAirtimeMs s) (Some (u32_at f 2)) (Some (u32_at f 6)) (Some (u32_at f 10)) (Some (u32_at f 14))
      (Some (u32_at f 18)) (Some (u32_at f 22)) (if (30 <=? length f)%nat then Some (u32_at f 26) else RecvErrors s)
      (TemperatureC s) (DirectDups s) (FloodDups s).

(** ** One leased conversation *)

(** What [ask] waits for: a frame of the node, the end of the lease with its
    reason, the deadline, the end of the context. *)
Inductive Arrival := Got (f : Bytes) | LeaseEnd (reason : string) | Deadline | CtxDone.

Inductive AskError := SendFailed (leaseEnded : bool) | NodeRefused | LeaseEnded (reason : string) | NoReply | CtxErr.

(** One command: what the relay's [Send] answers ([Some b] is an error, [b]
    whether it is [ErrLeaseEnded]), the arrivals in the order the select takes
    them, and, when [fatal] looks, whether the context is over and why the lease
    ended. *)
Record Turn := mkTurn { sendErr : option bool; arrivals : list Arrival; ctxOver : bool; endedWith : option string }.

(** The loop of [ask]; the timer ends it when nothing else does. *)
Fixpoint await (want : Bytes -> bool) (l : list Arrival) : AskError + Bytes :=
  match l with
  | [] | Deadline :: _ => inl NoReply
  | LeaseEnd reason :: _ => inl (LeaseEnded reason)
  | CtxDone :: _ => inl CtxErr
  | Got f :: l =>
      if want f then inr f
      else if isCode respErr f then inl NodeRefused
      else await want l
  end.

Definition ask (t : Turn) (want : Bytes -> bool) : AskError + Bytes :=
  match sendErr t with
  | Some b => inl (SendFailed b)
  | None => await want (arrivals t)
  end.

Definition fatal (t : Turn) (e : AskError) : bool :=
  ctxOver t || bool_decide (is_Some (endedWith t)) || match e with SendFailed true => true | _ => false end.

(** The answer of [readNode]'s optional commands: [None] ends the poll, otherwise
    the sample goes on. *)
Definition optional {A} (t : Turn) (want : Bytes -> bool) (got : Bytes -> A) (missed : A) : option A :=
  match ask t want with
  | inr f => Some (got f)
  | inl e => if fatal t e then None else Some missed
  end.

Inductive ReadError := AppStart (e : AskError) | NotSelfInfo | KeyMismatch | Fatal.

(** The commands of [readNode], each sent at most once in a poll. *)
Section ReadNode.
Variable turn : Bytes -> Turn.

Definition read_firmware : option N :=
  optional (turn deviceQueryFrame) (isCode respDeviceInfo) (fun f => default 0%N (parseFirmwareVersion f)) 0%N.

Definition read_battery (s : Sample) : option Sample :=
  optional (turn battStorageFrame) (isCode respBattStorage)
    (fun f => match parseBattery f with Some v => set_BatteryVoltage (Some v) s | None => s end) s.

Definition read_stats (kind : N) (apply : Bytes -> Sample -> Sample) (s : Sample) : option Sample :=
  optional (turn (statsFrame kind)) (isStats kind) (fun f => apply f s) s.

Definition readNode (pubkey : string) : ReadError + string * Sample :=
  match ask (turn appStartFrame) (isCode respSelfInfo) with
  | inl e => inl (AppStart e)
  | inr f =>
      match parseSelfInfo f with
      | None => inl NotSelfInfo
      | Some (got, name) =>
          if negb (bool_decide (got = pubkey)) then inl KeyMismatch
          else
            let sample :=
              fw ← read_firmware;
              s ← read_battery no_sample;
              if (statsMinFirmware <=? fw)%N then
                s ← read_stats statsCore applyCoreStats s;
                s ← read_stats statsRadio applyRadioStats s;
                read_stats statsPackets applyPacketStats s
              else Some s in
            match sample with Some s => inr (name, s) | None => inl Fatal end
      end
  end.

End ReadNode.

(** ** Waiting for a reply *)

(** What the node pushes on its own: neither the reply nor an error. *)
Definition is_push (want : Bytes -> bool) (a : Arrival) : Prop :=
  exists f, a = Got f /\ want f = false /\ isCode respErr f = false.

Lemma await_pushes want noise l : Forall (is_push want) noise -> await want (noise ++ l) = await want l.
Proof. induction 1 as [|a noise (f & -> & Hw & He) _ IH]; [done|]. cbn. by rewrite Hw, He. Qed.

Lemma await_got want l f : await want l = inr f -> Got f ∈ l /\ want f = true.
Proof.
  induction l as [|[g|r| |] l IH]; cbn; try done. destruct (want g) eqn:Hw.
  - intros [= ->]. split; [left|done].
  - destruct (isCode respErr g); [done|]. intros [Hin ?]%IH. split; [by right|done].
Qed.

Lemma ask_got t want f : ask t want = inr f -> Got f ∈ arrivals t /\ want f = true.
Proof. unfold ask. destruct (sendErr t); [done|]. apply await_got. Qed.

(** ** Numbers at their width *)

Lemma byte_at_lt l i : (byte_at l i < 256)%N.
Proof. unfold byte_at. destruct (l !! i); cbn; [apply code_lt|lia]. Qed.

(** A disjunction with higher bits is a sum. *)
Lemma lor_shift a b n : 0 <= n -> 0 <= a < 2 ^ n -> Z.lor a (Z.shiftl b n) = a + 2 ^ n * b.
Proof.
  intros Hn Ha. assert (Hd : Z.land a (Z.shiftl b n) = 0).
  { rewrite <-(Z.mod_small a (2 ^ n)), <-Z.land_ones, <-Z.land_assoc by done.
    rewrite (Z.land_comm (Z.ones n)), Z.land_ones, Z.shiftl_mul_pow2, Z.mod_mul by lia. apply Z.land_0_r. }
  rewrite <-Z.lxor_lor, <-Z.add_nocarry_lxor, Z.shiftl_mul_pow2 by done. lia.
Qed.

Lemma Uint16_range l : 0 <= Uint16 l < 2 ^ 16.
Proof.
  unfold Uint16. pose proof (byte_at_lt l 0). pose proof (byte_at_lt l 1). rewrite lor_shift by lia. lia.
Qed.

Lemma Uint32_range l : 0 <= Uint32 l < 2 ^ 32.
Proof.
  unfold Uint32. pose proof (byte_at_lt l 0). pose proof (byte_at_lt l 1). pose proof (byte_at_lt l 2).
  pose proof (byte_at_lt l 3).
  replace (Z.shiftl (Z.of_N (byte_at l 3)) 24) with (Z.shiftl (Z.shiftl (Z.of_N (byte_at l 3)) 8) 16)
    by (by rewrite Z.shiftl_shiftl).
  rewrite <-Z.shiftl_lor, (lor_shift (Z.of_N (byte_at l 2))) by lia. rewrite (Z.shiftl_mul_pow2 _ 16), (Z.shiftl_mul_pow2 _ 8) by done.
  change (2 ^ 16) with (2 ^ 8 * 2 ^ 8). rewrite Z.mul_assoc, <-!(Z.shiftl_mul_pow2 _ 8), <-Z.shiftl_lor by done.
  rewrite !lor_shift by lia. lia.
Qed.

Lemma int16_range n : 0 <= n < 2 ^ 16 -> - 2 ^ 15 <= int16 n < 2 ^ 15.
Proof. unfold int16. intros. destruct (Z.ltb_spec n (2 ^ 15)); lia. Qed.

Lemma int8_range n : 0 <= n < 2 ^ 8 -> - 2 ^ 7 <= int8 n < 2 ^ 7.
Proof. unfold int8. intros. destruct (Z.ltb_spec n (2 ^ 7)); lia. Qed.

(** ** What a poll reads *)

Section Reading.
Variable turn : Bytes -> Turn.

Lemma optional_inv {A} cmd want (got : Bytes -> A) missed a :
  optional (turn cmd) want got missed = Some a ->
  a = match ask (turn cmd) want with inr f => got f | inl _ => missed end.
Proof. unfold optional. destruct (ask _ _); [destruct (fatal _ _)|]; congruence. Qed.

(** The reply to a stats command, when the firmware has it and answers in full. *)
Definition stats_reply (kind : N) (size : nat) : option Bytes :=
  if match ask (turn deviceQueryFrame) (isCode respDeviceInfo) with
     | inr f => (statsMinFirmware <=? default 0%N (parseFirmwareVersion f))%N
     | inl _ => false
     end
  then match ask (turn (statsFrame kind)) (isStats kind) with
       | inr f => if (length f <? size)%nat then None else Some f
       | inl _ => None
       end
  else None.

(** The reply to the battery command. *)
Definition battery_reply : option float64 :=
  match ask (turn battStorageFrame) (isCode respBattStorage) with inr f => parseBattery f | inl _ => None end.

Definition expected : Sample :=
  let core {A} (f : Bytes -> A) := f <$> stats_reply statsCore 11 in
  let radio {A} (f : Bytes -> A) := f <$> stats_reply statsRadio 14 in
  let packets {A} (f : Bytes -> A) := f <$> stats_reply statsPackets 26 in
  mkSample (match battery_reply with Some v => Some v | None => core (fun f => thousandths (Uint16 (slice f 2 2))) end)
    (core (fun f => u32_at f 4)) (core (fun f => Z.of_N (byte_at f 10)))
    (radio (fun f => int16 (Uint16 (slice f 2 2)))) (radio (fun f => int8 (Z.of_N (byte_at f 4))))
    (radio (fun f => quarters (int8 (Z.of_N (byte_at f 5))))) (radio (fun f => u32_at f 6 * 1000))
    (radio (fun f => u32_at f 10 * 1000)) (packets (fun f => u32_at f 2)) (packets (fun f => u32_at f 6))
    (packets (fun f => u32_at f 10)) (packets (fun f => u32_at f 14)) (packets (fun f => u32_at f 18))
    (packets (fun f => u32_at f 22)) (packets (fun f => f) ≫= fun f => if (30 <=? length f)%nat then Some (u32_at f 26) else None)
    None None None.

(** The widths of the fields the integers are read from. *)
Definition between (lo hi : Z) (v : option Z) : Prop := forall n, v = Some n -> lo <= n < hi.
Definition within_width (s : Sample) : Prop :=
  between 0 (2 ^ 32) (UptimeS s) /\ between 0 256 (TxQueueLen s)
  /\ between (- 2 ^ 15) (2 ^ 15) (NoiseFloorDBm s) /\ between (- 128) 128 (LastRSSIdBm s)
  /\ between 0 (1000 * 2 ^ 32) (AirtimeMs s) /\ between 0 (1000 * 2 ^ 32) (RxAirtimeMs s)
  /\ Forall (between 0 (2 ^ 32))
       [NbRecv s; NbSent s; SentFlood s; SentDirect s; RecvFlood s; RecvDirect s; RecvErrors s].

Lemma between_fmap lo hi (f : Bytes -> Z) o : (forall b, lo <= f b < hi) -> between lo hi (f <$> o).
Proof. intros Hf n. destruct o; cbn; [intros [= <-]; apply Hf|done]. Qed.

Lemma u32_at_range f off : 0 <= u32_at f off < 2 ^ 32.
Proof. apply Uint32_range. Qed.

Lemma expected_width : within_width expected.
Proof.
  unfold within_width, expected; cbn -[Nat.leb]. rewrite !Forall_cons, Forall_nil.
  split_and!; try done; try apply between_fmap; try (intros b; pose proof (u32_at_range b 6);
    pose proof (u32_at_range b 10); pose proof (byte_at_lt b 4); pose proof (byte_at_lt b 10)).
  all: try apply u32_at_range; try apply int16_range, Uint16_range; try apply int8_range; try lia.
  intros n. destruct (stats_reply statsPackets 26) as [f|]; cbn -[Nat.leb]; [|done]. destruct (30 <=? length f)%nat; [|done].
  intros [= <-]. apply u32_at_range.
Qed.

(** A stats command applies its reply when it is long enough. *)
Lemma read_stats_inv kind size (apply : Bytes -> Sample -> Sample) s s' :
  (forall f s, (length f <? size)%nat || negb (isStats kind f) = true -> apply f s = s) ->
  read_stats turn kind apply s = Some s' ->
  s' = match ask (turn (statsFrame kind)) (isStats kind) with
       | inr f => if (length f <? size)%nat then s else apply f s
       | inl _ => s
       end.
Proof.
  intros Hshort ->%optional_inv. destruct (ask _ _) as [|f] eqn:Ef; [done|].
  destruct (_ <? _)%nat eqn:Hl; [|done]. apply Hshort. by rewrite Hl.
Qed.

Lemma sample_expected fw s0 s :
  fw = match ask (turn deviceQueryFrame) (isCode respDeviceInfo) with
       | inr f => default 0%N (parseFirmwareVersion f) | inl _ => 0%N end ->
  s0 = match ask (turn battStorageFrame) (isCode respBattStorage) with
       | inr f => match parseBattery f with Some v => set_BatteryVoltage (Some v) no_sample | None => no_sample end
       | inl _ => no_sample end ->
  (if (statsMinFirmware <=? fw)%N then
     s ← read_stats turn statsCore applyCoreStats s0;
     s ← read_stats turn statsRadio applyRadioStats s;
     read_stats turn statsPackets applyPacketStats s
   else Some s0) = Some s ->
  s = expected.
Proof.
  intros Hfw Hb. unfold expected, stats_reply, battery_reply.
  replace (match ask (turn deviceQueryFrame) _ with inl _ => false | inr _ => _ end) with (statsMinFirmware <=? fw)%N
    by (rewrite Hfw; by destruct (ask _ _)).
  destruct (_ <=? _)%N.
  2: { intros [= <-]. rewrite Hb. destruct (ask (turn battStorageFrame) _) as [|f]; [done|]. by destruct (parseBattery f). }
  destruct (read_stats turn statsCore _ _) as [s1|] eqn:H1; [|done]. cbn [mbind option_bind].
  destruct (read_stats turn statsRadio _ _) as [s2|] eqn:H2; [|done]. cbn [mbind option_bind]. intros H3.
  apply (read_stats_inv _ 11) in H1; [|by intros f x Hf; unfold applyCoreStats; rewrite Hf].
  apply (read_stats_inv _ 14) in H2; [|by intros f x Hf; unfold applyRadioStats; rewrite Hf].
  apply (read_stats_inv _ 26) in H3; [|by intros f x Hf; unfold applyPacketStats; rewrite Hf].
  destruct (ask (turn battStorageFrame) _) as [|fb]; [|destruct (parseBattery fb)]; cbn in Hb; subst s0;
  (destruct (ask (turn (statsFrame statsCore)) _) as [|fc] eqn:Ec;
    [|apply ask_got in Ec as [_ Ec]; destruct (length fc <? 11)%nat eqn:Lc]);
  (destruct (ask (turn (statsFrame statsRadio)) _) as [|fr] eqn:Er;
    [|apply ask_got in Er as [_ Er]; destruct (length fr <? 14)%nat eqn:Lr]);
  (destruct (ask (turn (statsFrame statsPackets)) _) as [|fp] eqn:Ep;
    [|apply ask_got in Ep as [_ Ep]; destruct (length fp <? 26)%nat eqn:Lp]);
  unfold applyCoreStats, applyRadioStats, applyPacketStats in *;
  rewrite ?Lc, ?Ec, ?Lr, ?Er, ?Lp, ?Ep in *; cbn in *; subst; cbn; reflexivity.
Qed.

(** What a poll publishes about a node comes from the node behind the pinned
    key: the frame that answered APP_START carries that key and the published
    name, whatever the node pushed before it. Each value of the sample is what the
    node answered, and null exactly when it did not: the command went unanswered
    or was refused, the reply was short, or the firmware is older than the stats
    command. The integers keep the width of the field they were read from. *)
Theorem reading_of_the_node (pk nm : string) (s : Sample) :
  readNode turn pk = inr (nm, s) ->
  (exists f, Got f ∈ arrivals (turn appStartFrame) /\ parseSelfInfo f = Some (pk, nm))
  /\ s = expected /\ within_width s.
Proof.
  unfold readNode. destruct (ask _ (isCode respSelfInfo)) as [|f] eqn:Ef; [done|].
  destruct (parseSelfInfo f) as [[got nm']|] eqn:Hf; [|done]. case_bool_decide; [|done]. cbn [negb].
  destruct (read_firmware turn) as [fw|] eqn:Hfw; [|done]. cbn [mbind option_bind].
  destruct (read_battery turn no_sample) as [s0|] eqn:Hb; [|done]. cbn [mbind option_bind].
  intros Hs. assert (nm' = nm) by (destruct (if (_ <=? _)%N then _ else _); congruence). subst got nm'.
  split; [exists f; split; [by apply (ask_got _ _ _ Ef)|done]|].
  apply optional_inv in Hfw, Hb. enough (s = expected) as -> by (split; [done|apply expected_width]).
  eapply sample_expected; eauto. destruct (if (_ <=? _)%N then _ else _); congruence.
Qed.
End Reading.

(** ** A node that answers everything but its radio statistics *)

Definition demo_bytes (l : list N) : Bytes := ascii_of_N <$> l.
Definition demo_replies : list (Bytes * Turn) :=
  let reply l := mkTurn None (Got <$> l) false None in
  [ (appStartFrame, reply [demo_bytes [130; 1; 2]%N;
       demo_bytes ([5; 0; 0; 0] ++ repeat 171 32 ++ repeat 0 22 ++ [78; 49; 0; 88])%N]);
    (deviceQueryFrame, reply [demo_bytes [13; 9]%N]);
    (battStorageFrame, reply [demo_bytes [1; 2]%N]);
    (statsFrame statsCore, reply [demo_bytes [24; 0; 104; 16; 16; 14; 0; 0; 0; 0; 3]%N]);
    (statsFrame statsPackets, reply [demo_bytes (24 :: 2 :: repeat 1 24)%N]) ].
Definition demo_turn (cmd : Bytes) : Turn :=
  match list_find (fun x => x.1 = cmd) demo_replies with
  | Some (_, (_, t)) => t
  | None => mkTurn None [] false None
  end.

Lemma reading_of_the_node_witness :
  exists s, readNode demo_turn (String.concat "" (repeat "ab" 32)) = inr ("N1", s)
    /\ UptimeS s = Some 3600 /\ NoiseFloorDBm s = None /\ s = expected demo_turn.
Proof.
  eexists. split; [vm_compute; reflexivity|]. split; [reflexivity|]. split; [reflexivity|].
  eapply (reading_of_the_node demo_turn (String.concat "" (repeat "ab" 32)) "N1"). vm_compute. reflexivity.
Defined.

End Companion.
