(* ===== verification/RelayPoll.v ===== *)
(** * Polling the relay's nodes

    [internal/relaytelemetry]: the poller of opted-in gateways ([poller.go]), the
    schedule of shared repeaters ([schedule.go], [repeaters.go]), the report and
    the forwarded adverts ([report.go]). The relay, the clock and the Grid are the
    class [Relay] over a state [W]: each call returns its answer and the state
    after it. The records of the relay's package hold the fields the code uses;
    an error is the list of what [errors.Is] and [errors.As] find in it. Each
    method runs in one piece; [pushAdverts] has its two critical sections apart. *)

From Stdlib Require Import Ascii.
From S2P Require Import Prelude Float64 GoText MeshFrame Companion.

Module RelayPoll.
Import F64 Text Frame Companion.

(** ** The relay's package *)

Inductive Sentinel :=
  | ErrNotKnown | ErrBusy | UnavailableError (code : string) | ErrLeaseEnded | ErrLoginFailed | ErrNoMeshReply
  | OtherError (text : string).
#[export] Instance Sentinel_eq_dec : EqDecision Sentinel.
Proof. solve_decision. Defined.

Abbreviation Error := (list Sentinel).
Definition Is (e : Error) (s : Sentinel) : bool := bool_decide (s ∈ e).
Definition unavailable (e : Error) : option string :=
  head (omap (fun s => match s with UnavailableError c => Some c | _ => None end) e).

Record GatewayRecord := mkGatewayRecord { g_Name : string; PinnedPubkey : string }.

Record RepeaterPollState := mkPollState {
  NextCycle : Time; RefusedAt : option Time; FailedCycles : Z; HibernatingSince : option Time;
  Primary : string; Reading : string }.

Record RepeaterCredential := mkCredential {
  Pubkey : string; c_Name : string; Password : string; UpdatedAt : Time; LastGateway : string;
  AddedByGateway : string; LastAttemptAt : option Time; LastOKAt : option Time; LastError : string;
  Poll : RepeaterPollState }.

Record CheckRequest := mkCheckRequest {
  r_Gateway : string; r_Pubkey : string; r_Password : string; OnlyIfKnown : bool; FloodFirst : bool }.

Record Status := mkStatus {
  BatteryMilliVolts : option Z; s_UptimeS : option Z; PacketsSent : option Z; PacketsRecv : option Z;
  s_SentFlood : option Z; s_SentDirect : option Z; s_RecvFlood : option Z; s_RecvDirect : option Z;
  s_RecvErrors : option Z; s_LastSNRdB : option float64; s_TxQueueLen : option Z; s_NoiseFloorDBm : option Z;
  s_LastRSSIdBm : option Z; s_DirectDups : option Z; s_FloodDups : option Z; AirtimeS : option Z;
  RxAirtimeS : option Z }.
Record Telemetry := mkTelemetry { t_TemperatureC : option float64; Voltage : option float64 }.
Record RepeaterCheck := mkCheck {
  k_Name : string; k_Advert : Bytes; k_Status : option Status; k_Telemetry : option Telemetry }.

(** The reasons the relay gives for a refusal or the end of a lease, and the
    encoding of a sample that the relay keeps across restarts. *)
Class RelayNames := {
  ReasonPreempted : string; ReasonHostPaused : string; NodePaused : string; ReasonShutdown : string;
  ReasonRevoked : string;
  marshal_sample : Sample -> option string; unmarshal_sample : string -> option Sample }.

Section Names.
Context `{RelayNames}.
Definition skipCode (code : string) : bool :=
  bool_decide (code ∈ [ReasonPreempted; ReasonHostPaused; "node_" +:+ NodePaused; ReasonShutdown; ReasonRevoked]).
End Names.

Definition skipErr (e : Error) : bool :=
  Is e ErrBusy || bool_decide (is_Some (unavailable e)) || Is e ErrLeaseEnded.

(** ** Samples of repeaters *)

Definition wrap (w n : Z) : Z := (n + 2 ^ (w - 1)) mod 2 ^ w - 2 ^ (w - 1).
Definition i32 (v : option Z) : option Z := wrap 32 <$> v.
Definition i64 (v : option Z) : option Z := v.

Definition status_sample (st : Status) : Sample :=
  mkSample (thousandths <$> BatteryMilliVolts st) (s_UptimeS st) (i32 (s_TxQueueLen st)) (i32 (s_NoiseFloorDBm st))
    (i32 (s_LastRSSIdBm st)) (s_LastSNRdB st) ((fun n => wrap 64 (n * 1000)) <$> AirtimeS st)
    ((fun n => wrap 64 (n * 1000)) <$> RxAirtimeS st) (PacketsRecv st) (PacketsSent st) (s_SentFlood st)
    (s_SentDirect st) (s_RecvFlood st) (s_RecvDirect st) (s_RecvErrors st) None (i64 (s_DirectDups st))
    (i64 (s_FloodDups st)).

Definition with_telemetry (t : Telemetry) (s : Sample) : Sample :=
  let v := match BatteryVoltage s with None => Voltage t | v => v end in
  mkSample v (UptimeS s) (TxQueueLen s) (NoiseFloorDBm s) (LastRSSIdBm s) (LastSNRdB s) (AirtimeMs s)
    (RxAirtimeMs s) (NbRecv s) (NbSent s) (SentFlood s) (SentDirect s) (RecvFlood s) (RecvDirect s)
    (RecvErrors s) (t_TemperatureC t) (DirectDups s) (FloodDups s).

Definition sampleFromCheck (r : RepeaterCheck) : Sample :=
  let s := match k_Status r with Some st => status_sample st | None => no_sample end in
  match k_Telemetry r with Some t => with_telemetry t s | None => s end.

(** ** Configuration and state *)

Record Config := mkConfig {
  f_Gateways : list string; Interval : Duration; Timeout : Duration; GridURL : string; IngestToken : string;
  RepeaterInterval : Duration; RepeaterRetries : option (list Duration); HibernateAfter : Z;
  HibernateInterval : Duration; RepeaterTickEvery : Duration; ReporterID : string }.

Inductive Outcome := outcomeOK | outcomeSkipped | outcomeFailed.
#[export] Instance Outcome_eq_dec : EqDecision Outcome.
Proof. solve_decision. Defined.

(** [ident] is the identity of the struct a pointer refers to; the outcome is
    [None] while the string is empty. *)
Record nodeState := mkNode {
  ident : nat; pubkey : string; name : string; lastAttempt : Time; lastSuccess : Time; sample : option Sample;
  outcome : option Outcome; advert : Bytes; advertSent : Bytes }.

Record repeaterCycle := mkCycle {
  start : Time; gateways : list string; gi : nat; retry : nat; retries : bool; fallback : bool; triedFall : bool;
  nextAt : Time; tried : nat; sent : bool; unanswered : gset string; lastErr : option Error; via : string }.

Record repeaterJob := mkJob {
  j_pubkey : string; j_state : RepeaterPollState; cycle : option repeaterCycle; nextAliveCheck : Time }.

Record Poller := mkPoller {
  cfg : Config; nodes : gmap string nodeState; repeaters : gmap string nodeState; jobs : gmap string repeaterJob;
  next_ident : nat }.

Definition set_nodes (m : gmap string nodeState) (p : Poller) : Poller :=
  mkPoller (cfg p) m (repeaters p) (jobs p) (next_ident p).
Definition set_repeaters (m : gmap string nodeState) (p : Poller) : Poller :=
  mkPoller (cfg p) (nodes p) m (jobs p) (next_ident p).
Definition set_jobs (m : gmap string repeaterJob) (p : Poller) : Poller :=
  mkPoller (cfg p) (nodes p) (repeaters p) m (next_ident p).

(** [&nodeState{pubkey: pk}]. *)
Definition new_node (pk : string) (p : Poller) : nodeState * Poller :=
  (mkNode (next_ident p) pk "" time_zero time_zero None None [] [],
   mkPoller (cfg p) (nodes p) (repeaters p) (jobs p) (S (next_ident p))).

Definition DefaultRepeaterRetries : list Duration := [30 * second; 60 * second; 120 * second].
Definition maxMeshTries : nat := 3.
Definition payloadAdvert : N := 4.

(** [strings.TrimRight(s, "/")]. *)
Fixpoint trim_slashes (l : list ascii) : list ascii :=
  match l with "/"%char :: l => trim_slashes l | _ => l end.
Definition TrimRightSlash (s : string) : string := of_bytes (reverse (trim_slashes (reverse (bytes s)))).

Definition positive_or (n d : Z) : Z := if n <=? 0 then d else n.

Definition New (c : Config) : Poller :=
  mkPoller
    (mkConfig (f_Gateways c) (positive_or (Interval c) (5 * minute)) (positive_or (Timeout c) (5 * second))
      (TrimRightSlash (GridURL c)) (IngestToken c) (positive_or (RepeaterInterval c) (30 * minute))
      (Some (default DefaultRepeaterRetries (RepeaterRetries c))) (positive_or (HibernateAfter c) 6)
      (positive_or (HibernateInterval c) (24 * hour)) (positive_or (RepeaterTickEvery c) (5 * second))
      (if String.eqb (ReporterID c) "" then "relay" else ReporterID c))
    ∅ ∅ ∅ 0.

Definition retry_waits (p : Poller) : list Duration := default [] (RepeaterRetries (cfg p)).

(** FNV-1a over 64 bits. *)
Definition fnv64a (s : string) : Z :=
  foldl (fun h c => (Z.lxor h (Z.of_N (code c)) * 1099511628211) mod 2 ^ 64) 14695981039346656037 (bytes s).

Definition offset (p : Poller) (pk : string) : Duration := fnv64a pk mod RepeaterInterval (cfg p).

Definition hibernateWindow (p : Poller) : Duration := wrap 64 (HibernateAfter (cfg p) * RepeaterInterval (cfg p)).

(** ** What the Grid says of a node *)

Record AdminReport := mkAdmin { ReporterId : string; LastSuccessAt : option Time }.
Record MeshTelemetry := mkMeshTelemetry { LastAdvertAt : option Time; Admin : option AdminReport }.

(** The answer to a GET: no answer, a status other than 200, a body that does not
    decode, or the telemetry of the event. *)
Inductive GridAnswer := NoAnswer | AnswerStatus (code : Z) | BadBody | Answer (t : MeshTelemetry).

(** ** Documents the poller posts *)

Record ReportEntry := mkEntry {
  ID : string; e_Name : string; LastAttempt : option Z; LastSuccess : option Z; readings : Sample; Online : bool }.

Record packet := mkPacket { PacketType : N; Raw : string }.

Inductive Document :=
  | MeshRepeater (GeneratedAt : Time) (Repeaters : list ReportEntry)
  | MeshPacket (GeneratedAt : Time) (Packets : list packet).

Definition stream_of (d : Document) : string :=
  match d with MeshRepeater _ _ => "mesh.repeater" | MeshPacket _ _ => "mesh.packet" end.

(** ** The outside *)

Class Relay (W : Type) := {
  Now : W -> Time * W;
  ctx_err : W -> bool;
  Gateways : W -> (Error + list GatewayRecord) * W;
  RepeaterCredentials : W -> (Error + list RepeaterCredential) * W;
  CheckRepeater : CheckRequest -> W -> (Error + RepeaterCheck) * W;
  RecordRepeaterPoll : string -> string -> option Error -> W -> W;
  SetRepeaterPollState : string -> RepeaterPollState -> W -> W;
  (** the GET of an event of the Grid at a URL, with an event id *)
  get_event : string -> string -> W -> GridAnswer * W;
  (** the POST of a document to a stream with a token: the status of the answer *)
  post_stream : string -> string -> string -> Document -> W -> option Z * W;
  (** a background lease on a gateway, and the conversation under it: the turns by
      command and why the lease has ended when the poll looks *)
  Acquire : string -> W -> option Error * W;
  converse : string -> W -> (Bytes -> Turn) * option string * W }.

Section Poller.
Context {W : Type} `{Relay W} `{RelayNames}.

(** ** Gateways *)

Definition read (gw pk : string) (w : W) : string * option Sample * Outcome * W :=
  let '(err, w) := Acquire gw w in
  match err with
  | Some e =>
      if Is e ErrBusy then ("", None, outcomeSkipped, w)
      else match unavailable e with
           | Some c => ("", None, if skipCode c then outcomeSkipped else outcomeFailed, w)
           | None => ("", None, outcomeFailed, w)
           end
  | None =>
      let '(turn, ended, w) := converse gw w in
      match readNode turn pk with
      | inl _ =>
          match ended with
          | Some reason => ("", None, if skipCode reason then outcomeSkipped else outcomeFailed, w)
          | None => ("", None, outcomeFailed, w)
          end
      | inr (nm, s) => (nm, Some s, outcomeOK, w)
      end
  end.

(** What a poll that started at [t] leaves of a node. *)
Definition gateway_outcome (t : Time) (nm : string) (s : option Sample) (o : Outcome) (st : nodeState) : nodeState :=
  match o with
  | outcomeOK =>
      mkNode (ident st) (pubkey st) (if String.eqb nm "" then name st else nm) t t s (Some o) (advert st) (advertSent st)
  | outcomeFailed =>
      mkNode (ident st) (pubkey st) (name st) t (lastSuccess st) (sample st) (Some o) (advert st) (advertSent st)
  | outcomeSkipped =>
      mkNode (ident st) (pubkey st) (name st) (lastAttempt st) (lastSuccess st) (sample st) (Some o) (advert st)
        (advertSent st)
  end.

Definition pollGateway (p : Poller) (gw pk : string) (w : W) : Poller * W :=
  let '(t, w) := Now w in
  let '(nm, s, o, w) := read gw pk w in
  let '(st, p) :=
    match nodes p !! gw with
    | Some st => if String.eqb (pubkey st) pk then (st, p) else new_node pk p
    | None => new_node pk p
    end in
  (set_nodes (<[gw := gateway_outcome t nm s o st]> (nodes p)) p, w).

Definition forget (p : Poller) (gw : string) : Poller := set_nodes (delete gw (nodes p)) p.

(** ** The report *)

Definition unix (t : Time) : option Z := if time_is_zero t then None else Some (time_unix t).

Definition entry (st : nodeState) : ReportEntry :=
  mkEntry (pubkey st) (name st) (unix (lastAttempt st)) (unix (lastSuccess st)) (default no_sample (sample st))
    (bool_decide (outcome st = Some outcomeOK)).

(** The values of a map in the order of its keys. *)
Definition by_key {A} (m : gmap string A) : list A :=
  omap (fun k => m !! k) (sort_strings (map_to_list m).*1).

Definition report_entries (p : Poller) : list ReportEntry :=
  entry <$> filter (fun st => time_is_zero (lastAttempt st) = false) (by_key (nodes p) ++ by_key (repeaters p)).

Definition Report (p : Poller) (w : W) : Document * W :=
  let '(now, w) := Now w in (MeshRepeater now (report_entries p), w).

(** ** Posting *)

Definition post (p : Poller) (d : Document) (w : W) : bool * W :=
  let url := GridURL (cfg p) +:+ "/api/v1/ingest/" +:+ stream_of d in
  let '(status, w) := post_stream url (stream_of d) ("Bearer " +:+ IngestToken (cfg p)) d w in
  (bool_decide (status = Some 202), w).

Definition push (p : Poller) (w : W) : W :=
  let '(d, w) := Report p w in (post p d w).2.

(** The header's payload type, [st.advert[0]>>2&0x0f]. *)
Definition pending_advert (st : nodeState) : bool :=
  (0 <? length (advert st))%nat && (N.land (N.shiftr (byte_at (advert st) 0) 2) 15 =? payloadAdvert)%N
  && negb (bool_decide (advert st = advertSent st)).

(** The first critical section: what is to be sent, with the struct it is from. *)
Definition pending_adverts (p : Poller) : list (nat * Bytes) :=
  (fun st => (ident st, advert st)) <$> filter (fun st => pending_advert st = true) (map_to_list (repeaters p)).*2.

(** The second: the structs that were sent. *)
Definition mark_sent (out : list (nat * Bytes)) (st : nodeState) : nodeState :=
  match list_find (fun x => x.1 = ident st) out with
  | Some (_, (_, raw)) =>
      mkNode (ident st) (pubkey st) (name st) (lastAttempt st) (lastSuccess st) (sample st) (outcome st)
        (advert st) raw
  | None => st
  end.
Definition commit_adverts (out : list (nat * Bytes)) (p : Poller) : Poller :=
  set_repeaters (mark_sent out <$> repeaters p) p.

(** Between the two the repeaters may change; [between] is what the other
    goroutine makes of the poller meanwhile. *)
Definition pushAdverts (between : Poller -> Poller) (p : Poller) (w : W) : Poller * W :=
  let out := pending_adverts p in
  match out with
  | [] => (p, w)
  | _ =>
      let '(now, w) := Now w in
      let d := MeshPacket now ((fun o => mkPacket payloadAdvert (EncodeToString o.2)) <$> out) in
      let '(ok, w) := post p d w in
      let p := between p in
      if ok then (commit_adverts out p, w) else (p, w)
  end.

(** ** A cycle over the gateways *)

Definition pinned (recs : list GatewayRecord) (gw : string) : string :=
  foldl (fun k r => if String.eqb (g_Name r) gw then PinnedPubkey r else k) "" recs.

Fixpoint poll_gateways (recs : list GatewayRecord) (gws : list string) (p : Poller) (w : W) : bool * Poller * W :=
  match gws with
  | [] => (true, p, w)
  | gw :: gws =>
      if ctx_err w then (false, p, w)
      else
        let key := pinned recs gw in
        if String.eqb key "" then poll_gateways recs gws (forget p gw) w
        else let '(p, w) := pollGateway p gw key w in poll_gateways recs gws p w
  end.

Definition Cycle (between : Poller -> Poller) (p : Poller) (w : W) : Poller * W :=
  let '(recs, w) := Gateways w in
  match recs with
  | inl _ => (p, w)
  | inr recs =>
      let '(go_on, p, w) := poll_gateways recs (f_Gateways (cfg p)) p w in
      if negb go_on || ctx_err w then (p, w)
      else let w := push p w in pushAdverts between p w
  end.

(** ** Whether a repeater is alive elsewhere *)

Definition gridAlive (p : Poller) (pk : string) (window : Duration) (w : W) : (unit + bool) * W :=
  let '(a, w) := get_event (GridURL (cfg p)) ("meshcore:" +:+ pk) w in
  match a with
  | NoAnswer | BadBody => (inl tt, w)
  | AnswerStatus n => if n =? 404 then (inr false, w) else (inl tt, w)
  | Answer t =>
      let '(now, w) := Now w in
      let since := time_add now (- window) in
      let later := fun o => match o with Some u => time_after u since | None => false end in
      (inr (later (LastAdvertAt t)
            || match Admin t with
               | Some a => negb (String.eqb (ReporterId a) (ReporterID (cfg p))) && later (LastSuccessAt a)
               | None => false
               end), w)
  end.

(** ** The schedule of shared repeaters *)

Definition candidates (c : RepeaterCredential) (gws : list string) : list string :=
  let first := foldl (fun out g => if negb (String.eqb g "") && bool_decide (g ∈ gws) && bool_decide (g ∉ out)
                                   then out ++ [g] else out)
                 [] [Primary (Poll c); LastGateway c; AddedByGateway c] in
  foldl (fun out g => if bool_decide (g ∉ out) then out ++ [g] else out) first gws.

Definition restore (p : Poller) (c : RepeaterCredential) : Poller :=
  match LastAttemptAt c with
  | None => p
  | Some t =>
      let '(ns, p) := new_node (Pubkey c) p in
      let success := default time_zero (LastOKAt c) in
      let o := match LastOKAt c with
               | Some _ => if String.eqb (LastError c) "" then outcomeOK else outcomeFailed
               | None => outcomeFailed
               end in
      let s := if negb (String.eqb (Reading (Poll c)) "") && negb (time_is_zero success)
               then unmarshal_sample (Reading (Poll c)) else None in
      let ns := mkNode (ident ns) (Pubkey c) (c_Name c) t success s (Some o) [] [] in
      match repeaters p !! Pubkey c with
      | None => set_repeaters (<[Pubkey c := ns]> (repeaters p)) p
      | Some _ => p
      end
  end.

(** What an ended cycle leaves of the node's report. *)
Definition repeater_outcome (cy : repeaterCycle) (c : RepeaterCredential) (res : option RepeaterCheck) (o : Outcome)
    (ns : nodeState) : nodeState :=
  match o, res with
  | outcomeOK, Some r =>
      mkNode (ident ns) (pubkey ns) (if String.eqb (k_Name r) "" then c_Name c else k_Name r) (start cy) (start cy)
        (Some (sampleFromCheck r)) (Some o) (match k_Advert r with [] => advert ns | a => a end) (advertSent ns)
  | outcomeFailed, _ =>
      mkNode (ident ns) (pubkey ns) (c_Name c) (start cy) (lastSuccess ns) (sample ns) (Some o) (advert ns)
        (advertSent ns)
  | _, _ =>
      mkNode (ident ns) (pubkey ns) (c_Name c) (lastAttempt ns) (lastSuccess ns) (sample ns) (Some o) (advert ns)
        (advertSent ns)
  end.

(** The state after a cycle that reached the repeater, was refused its password,
    or went unanswered (with what [hibernating] became). *)
Definition state_read (cy : repeaterCycle) (r : RepeaterCheck) (st : RepeaterPollState) : RepeaterPollState :=
  mkPollState (NextCycle st) (RefusedAt st) 0 None (via cy)
    (match marshal_sample (sampleFromCheck r) with Some b => b | None => Reading st end).
Definition state_refused (now : Time) (st : RepeaterPollState) : RepeaterPollState :=
  mkPollState (NextCycle st) (Some now) (FailedCycles st) (HibernatingSince st) (Primary st) (Reading st).
Definition state_missed (hibernating : option Time) (st : RepeaterPollState) : RepeaterPollState :=
  mkPollState (NextCycle st) (RefusedAt st) (FailedCycles st + 1) hibernating (Primary st) (Reading st).
Definition set_NextCycle (t : Time) (st : RepeaterPollState) : RepeaterPollState :=
  mkPollState t (RefusedAt st) (FailedCycles st) (HibernatingSince st) (Primary st) (Reading st).

(** How the cycle counts: its outcome, the state without the next cycle, when
    that is, and the next wake check. *)
Definition verdict (p : Poller) (j : repeaterJob) (cy : repeaterCycle) (c : RepeaterCredential)
    (res : option RepeaterCheck) (now : Time) (w : W) : Outcome * RepeaterPollState * Time * Time * W :=
  let st := j_state j in
  let next := let n := time_add (start cy) (RepeaterInterval (cfg p)) in
              if time_after n now then n else time_add now (RepeaterInterval (cfg p)) in
  match res with
  | Some r => (outcomeOK, state_read cy r st, next, nextAliveCheck j, w)
  | None =>
      if match lastErr cy with Some e => Is e ErrLoginFailed | None => false end
      then (outcomeFailed, state_refused now st, next, nextAliveCheck j, w)
      else if sent cy then
        if bool_decide (is_Some (HibernatingSince st)) || (HibernateAfter (cfg p) <=? FailedCycles st + 1) then
          let '(a, w) := gridAlive p (Pubkey c) (hibernateWindow p) w in
          let hib := match a with
                     | inl _ => None
                     | inr true => None
                     | inr false => match HibernatingSince st with None => Some now | h => h end
                     end in
          match hib with
          | Some _ => (outcomeFailed, state_missed hib st, time_add now (HibernateInterval (cfg p)),
                       time_add now (RepeaterInterval (cfg p)), w)
          | None => (outcomeFailed, state_missed None st, next, nextAliveCheck j, w)
          end
        else (outcomeFailed, state_missed None st, next, nextAliveCheck j, w)
      else (outcomeSkipped, st, next, nextAliveCheck j, w)
  end.

Definition endCycle (p : Poller) (j : repeaterJob) (cy : repeaterCycle) (c : RepeaterCredential)
    (res : option RepeaterCheck) (w : W) : Poller * repeaterJob * W :=
  let '(now, w) := Now w in
  let '(o, st, next, wake, w) := verdict p j cy c res now w in
  let st := set_NextCycle next st in
  let w := SetRepeaterPollState (Pubkey c) st w in
  let w := if negb (bool_decide (o = outcomeSkipped)) || match lastErr cy with Some e => Is e ErrNotKnown | None => false end
           then RecordRepeaterPoll (Pubkey c) (via cy) (lastErr cy) w else w in
  let '(ns, p) := match repeaters p !! Pubkey c with Some ns => (ns, p) | None => new_node (Pubkey c) p end in
  (set_repeaters (<[Pubkey c := repeater_outcome cy c res o ns]> (repeaters p)) p,
   mkJob (j_pubkey j) st None wake, w).

(** *** One attempt *)

Definition set_cycle (cy : option repeaterCycle) (j : repeaterJob) : repeaterJob :=
  mkJob (j_pubkey j) (j_state j) cy (nextAliveCheck j).

Definition to_fallback (g : string) (cy : repeaterCycle) : repeaterCycle :=
  mkCycle (start cy) [g] 0 0 (retries cy) true true (nextAt cy) (tried cy) (sent cy) (unanswered cy) (lastErr cy) (via cy).
Definition reached (gw : string) (cy : repeaterCycle) : repeaterCycle :=
  mkCycle (start cy) (gateways cy) (gi cy) (retry cy) (retries cy) (fallback cy) (triedFall cy) (nextAt cy) (tried cy)
    (sent cy) (unanswered cy) None gw.
Definition not_tried (e : Error) (now : Time) (cy : repeaterCycle) : repeaterCycle :=
  mkCycle (start cy) (gateways cy) (S (gi cy)) 0 (retries cy) (fallback cy) (triedFall cy) now (tried cy) (sent cy)
    (unanswered cy) (match lastErr cy with None => Some e | x => x end) (via cy).
Definition transmitted (gw : string) (e : Error) (cy : repeaterCycle) : repeaterCycle :=
  mkCycle (start cy) (gateways cy) (gi cy) (retry cy) (retries cy) (fallback cy) (triedFall cy) (nextAt cy) (tried cy)
    true (unanswered cy) (Some e) gw.
Definition went_unanswered (gw : string) (cy : repeaterCycle) : repeaterCycle :=
  mkCycle (start cy) (gateways cy) (gi cy) (retry cy) (retries cy) (fallback cy) (triedFall cy) (nextAt cy) (tried cy)
    (sent cy) ({[gw]} ∪ unanswered cy) (lastErr cy) (via cy).
Definition retry_at (t : Time) (cy : repeaterCycle) : repeaterCycle :=
  mkCycle (start cy) (gateways cy) (gi cy) (S (retry cy)) (retries cy) (fallback cy) (triedFall cy) t (tried cy)
    (sent cy) (unanswered cy) (lastErr cy) (via cy).
Definition next_gateway (now : Time) (cy : repeaterCycle) : repeaterCycle :=
  mkCycle (start cy) (gateways cy) (S (gi cy)) 0 (retries cy) (fallback cy) (triedFall cy) now (S (tried cy))
    (sent cy) (unanswered cy) (lastErr cy) (via cy).

Definition request (cy : repeaterCycle) (c : RepeaterCredential) (gw : string) : CheckRequest :=
  mkCheckRequest gw (Pubkey c) (Password c) (negb (fallback cy)) (bool_decide (gw ∈ unanswered cy)).

(** The gateway the cycle would ask now. *)
Definition current_gateway (cy : repeaterCycle) : option string :=
  if (maxMeshTries <=? tried cy)%nat then None else gateways cy !! gi cy.

Definition may_fall_back (cy : repeaterCycle) (c : RepeaterCredential) (gws : list string) : bool :=
  negb (sent cy) && negb (triedFall cy) && negb (String.eqb (LastGateway c) "")
  && bool_decide (LastGateway c ∈ gws) && (tried cy <? maxMeshTries)%nat.

Definition step (p : Poller) (j : repeaterJob) (cy : repeaterCycle) (c : RepeaterCredential) (gws : list string) (w : W)
    : Poller * repeaterJob * W :=
  let '(now, w) := Now w in
  match current_gateway cy with
  | None =>
      if may_fall_back cy c gws then (p, set_cycle (Some (to_fallback (LastGateway c) cy)) j, w)
      else endCycle p j cy c None w
  | Some gw =>
      let '(r, w) := CheckRepeater (request cy c gw) w in
      match r with
      | inr res => endCycle p j (reached gw cy) c (Some res) w
      | inl e =>
          if Is e ErrNotKnown || skipErr e then (p, set_cycle (Some (not_tried e now cy)) j, w)
          else
            let cy := transmitted gw e cy in
            if Is e ErrLoginFailed then endCycle p j cy c None w
            else
              let cy := if Is e ErrNoMeshReply then went_unanswered gw cy else cy in
              match (if retries cy then retry_waits p !! retry cy else None) with
              | Some d => (p, set_cycle (Some (retry_at (time_add now d) cy)) j, w)
              | None => (p, set_cycle (Some (next_gateway now cy)) j, w)
              end
      end
  end.

(** *** The tick *)

(** The attempts that can still be made: the fallback with its retries, what is
    left of each gateway, and the end. *)
Definition attempts_left (p : Poller) (cy : repeaterCycle) : nat :=
  let per := S (length (retry_waits p)) in
  (if triedFall cy then 0 else S per) + ((length (gateways cy) - gi cy) * per - retry cy) + 1.

Fixpoint attempts (fuel : nat) (p : Poller) (j : repeaterJob) (c : RepeaterCredential) (gws : list string) (now : Time)
    (w : W) : Poller * repeaterJob * W :=
  match fuel, cycle j with
  | S fuel, Some cy =>
      if negb (time_before now (nextAt cy)) && negb (ctx_err w) then
        let '(p, j, w) := step p j cy c gws w in
        let '(now, w) := Now w in
        attempts fuel p j c gws now w
      else (p, j, w)
  | _, _ => (p, j, w)
  end.

Definition new_cycle (now : Time) (j : repeaterJob) (c : RepeaterCredential) (gws : list string) : repeaterCycle :=
  mkCycle now (candidates c gws) 0 0 ((FailedCycles (j_state j) =? 0) && negb (bool_decide (is_Some (HibernatingSince (j_state j)))))
    false false now 0 false ∅ None "".

(** The job of a repeater that is new to the schedule. *)
Definition new_job (p : Poller) (c : RepeaterCredential) (now : Time) : repeaterJob :=
  let st := Poll c in
  mkJob (Pubkey c)
    (if time_is_zero (NextCycle st) then set_NextCycle (time_add now (offset p (Pubkey c))) st else st) None time_zero.

(** A refused password waits for the share to be updated. *)
Definition unrefuse (c : RepeaterCredential) (now : Time) (j : repeaterJob) : option repeaterJob :=
  match RefusedAt (j_state j) with
  | None => Some j
  | Some r =>
      if negb (time_after (UpdatedAt c) r) then None
      else
        let st := j_state j in
        Some (mkJob (j_pubkey j) (mkPollState now None 0 (HibernatingSince st) (Primary st) (Reading st)) (cycle j)
                (nextAliveCheck j))
  end.

(** A hibernating repeater is looked up on the Grid every interval. *)
Definition wake (p : Poller) (c : RepeaterCredential) (now : Time) (j : repeaterJob) (w : W) : repeaterJob * W :=
  let st := j_state j in
  if negb (bool_decide (is_Some (cycle j))) && bool_decide (is_Some (HibernatingSince st))
     && negb (time_before now (nextAliveCheck j)) && time_before now (NextCycle st)
  then
    let '(a, w) := gridAlive p (Pubkey c) (hibernateWindow p) w in
    let st := match a with
              | inr true => mkPollState now (RefusedAt st) (FailedCycles st) None (Primary st) (Reading st)
              | _ => st
              end in
    (mkJob (j_pubkey j) st (cycle j) (time_add now (RepeaterInterval (cfg p))), w)
  else (j, w).

(** A cycle that is due starts. *)
Definition begin_cycle (now : Time) (c : RepeaterCredential) (gws : list string) (j : repeaterJob) : repeaterJob :=
  match cycle j with
  | Some _ => j
  | None => if time_before now (NextCycle (j_state j)) then j else set_cycle (Some (new_cycle now j c gws)) j
  end.

Definition get_job (p : Poller) (c : RepeaterCredential) (now : Time) : repeaterJob * Poller :=
  match jobs p !! Pubkey c with
  | Some j => (j, p)
  | None => let j := new_job p c now in (j, restore (set_jobs (<[Pubkey c := j]> (jobs p)) p) c)
  end.

Definition tickRepeater (p : Poller) (c : RepeaterCredential) (gws : list string) (w : W) : Poller * W :=
  let '(now, w) := Now w in
  let '(j, p) := get_job p c now in
  match unrefuse c now j with
  | None => (p, w)
  | Some j =>
      let '(j, w) := wake p c now j w in
      let j := begin_cycle now c gws j in
      let fuel := match cycle j with Some cy => S (attempts_left p cy) | None => 0%nat end in
      let '(p, j, w) := attempts fuel p j c gws now w in
      (set_jobs (<[Pubkey c := j]> (jobs p)) p, w)
  end.

Fixpoint tick_all (creds : list RepeaterCredential) (gws : list string) (p : Poller) (w : W) : bool * Poller * W :=
  match creds with
  | [] => (true, p, w)
  | c :: creds =>
      if ctx_err w then (false, p, w)
      else let '(p, w) := tickRepeater p c gws w in tick_all creds gws p w
  end.

Definition RepeaterTick (p : Poller) (w : W) : Poller * W :=
  let '(creds, w) := RepeaterCredentials w in
  match creds with
  | inl _ => (p, w)
  | inr creds =>
      let '(recs, w) := Gateways w in
      match recs with
      | inl _ => (p, w)
      | inr recs =>
          let '(go_on, p, w) := tick_all creds (g_Name <$> recs) p w in
          if negb go_on then (p, w)
          else
            let current : gset string := list_to_set (Pubkey <$> creds) in
            (set_jobs (filter (fun x => x.1 ∈ current) (jobs p))
               (set_repeaters (filter (fun x => x.1 ∈ current) (repeaters p)) p), w)
      end
  end.

End Poller.
End RelayPoll.
