(* ===== verification/RelayPollSpec.v ===== *)
(** * What the relay's poller promises

    Theorems on [RelayPoll]: the schedule of shared repeaters (the loop of a
    tick ends, airtime is bounded, a due repeater is asked, hibernation), what a
    restart keeps, the report and the forwarded adverts. *)

From Stdlib Require Import Ascii.
From S2P Require Import Prelude Float64 GoText MeshFrame Companion RelayPoll.

Module RelayPollSpec.
Import F64 Text Frame Companion RelayPoll.

Abbreviation Check := (CheckRequest * (Error + RepeaterCheck))%type.

(** A check that put a frame on the air: it was answered, or failed otherwise than
    by a refusal of the gateway. *)
Definition transmits (x : Check) : bool :=
  match x.2 with inr _ => true | inl e => negb (Is e ErrNotKnown || skipErr e) end.

(** ** The attempts of a cycle *)

Section Attempts.
Context {W : Type} `{R : Relay W} `{N : RelayNames}.

(** What [step] asks the relay. *)
Definition asked (cy : repeaterCycle) (c : RepeaterCredential) (w : W) : list Check :=
  match current_gateway cy with
  | None => []
  | Some gw => let req := request cy c gw in [(req, (CheckRepeater req (Now w).2).1)]
  end.

Definition answered (gw : string) (e : Error) (cy : repeaterCycle) : repeaterCycle :=
  let cy := transmitted gw e cy in if Is e ErrNoMeshReply then went_unanswered gw cy else cy.

(** How a step changes the cycle, with what it asked; [None] is the end. *)
Inductive advance (ws : list Duration) (cy : repeaterCycle) : list Check -> option repeaterCycle -> Prop :=
  | adv_fallback g :
      current_gateway cy = None -> sent cy = false -> triedFall cy = false ->
      advance ws cy [] (Some (to_fallback g cy))
  | adv_end : current_gateway cy = None -> advance ws cy [] None
  | adv_read gw c res :
      current_gateway cy = Some gw -> advance ws cy [(request cy c gw, inr res)] None
  | adv_skip gw c e now :
      current_gateway cy = Some gw -> Is e ErrNotKnown || skipErr e = true ->
      advance ws cy [(request cy c gw, inl e)] (Some (not_tried e now cy))
  | adv_refused gw c e :
      current_gateway cy = Some gw -> Is e ErrNotKnown || skipErr e = false -> Is e ErrLoginFailed = true ->
      advance ws cy [(request cy c gw, inl e)] None
  | adv_retry gw c e t d :
      current_gateway cy = Some gw -> Is e ErrNotKnown || skipErr e = false ->
      retries cy = true -> ws !! retry cy = Some d ->
      advance ws cy [(request cy c gw, inl e)] (Some (retry_at t (answered gw e cy)))
  | adv_next gw c e now :
      current_gateway cy = Some gw -> Is e ErrNotKnown || skipErr e = false ->
      advance ws cy [(request cy c gw, inl e)] (Some (next_gateway now (answered gw e cy))).

Lemma endCycle_ends p j cy c res w : cycle (endCycle p j cy c res w).1.2 = None.
Proof.
  unfold endCycle. destruct (Now w) as [now w1]. destruct (verdict _ _ _ _ _ _ _) as [[[[o st] next] wk] w2].
  by destruct (repeaters p !! Pubkey c).
Qed.

Lemma endCycle_cfg p j cy c res w : cfg (endCycle p j cy c res w).1.1 = cfg p.
Proof.
  unfold endCycle. destruct (Now w) as [now w1]. destruct (verdict _ _ _ _ _ _ _) as [[[[o st] next] wk] w2].
  by destruct (repeaters p !! Pubkey c).
Qed.

Lemma step_cfg p j cy c gws w : cfg (step p j cy c gws w).1.1 = cfg p.
Proof.
  unfold step. destruct (Now w) as [now w1]. destruct (current_gateway cy) as [gw|].
  - destruct (CheckRepeater _ w1) as [[e|res] w2]; [|apply endCycle_cfg].
    destruct (_ || _); [done|]. destruct (Is e ErrLoginFailed); [apply endCycle_cfg|].
    by destruct (if retries _ then _ else _).
  - destruct (may_fall_back _ _ _); [done|apply endCycle_cfg].
Qed.

Lemma step_advance p j cy c gws w : advance (retry_waits p) cy (asked cy c w) (cycle (step p j cy c gws w).1.2).
Proof.
  unfold step, asked. destruct (Now w) as [now w1]. cbn [snd]. destruct (current_gateway cy) as [gw|] eqn:Hg.
  - cbn zeta. destruct (CheckRepeater (request cy c gw) w1) as [[e|res] w2]; cbn [fst].
    2: { rewrite endCycle_ends. by apply adv_read. }
    destruct (_ || _) eqn:Hs; [by apply adv_skip|].
    destruct (Is e ErrLoginFailed) eqn:Hl; [rewrite endCycle_ends; by apply adv_refused|].
    change (retries (if Is e ErrNoMeshReply then _ else _)) with (retries (answered gw e cy)).
    assert (Hr : retries (answered gw e cy) = retries cy /\ retry (answered gw e cy) = retry cy)
      by (unfold answered; by destruct (Is e ErrNoMeshReply)).
    destruct Hr as [Hr1 Hr2]. fold (answered gw e cy). rewrite Hr1, Hr2.
    destruct (retries cy) eqn:Hr; [|by apply adv_next].
    destruct (retry_waits p !! retry cy) as [d|] eqn:Hd; [by eapply adv_retry|by apply adv_next].
  - destruct (may_fall_back cy c gws) eqn:Hf; [|rewrite endCycle_ends; by apply adv_end].
    unfold may_fall_back in Hf. apply andb_true_iff in Hf as [Hf _]. apply andb_true_iff in Hf as [Hf _].
    apply andb_true_iff in Hf as [Hf _]. apply andb_true_iff in Hf as [H1 H2].
    apply adv_fallback; [done|by apply negb_true_iff..].
Qed.

(** *** The loop of a tick ends *)

Definition left (ws : list Duration) (cy : repeaterCycle) : nat :=
  let per := S (length ws) in
  (if triedFall cy then 0 else S per) + ((length (gateways cy) - gi cy) * per - retry cy) + 1.

Lemma current_gateway_Some cy gw :
  current_gateway cy = Some gw -> gateways cy !! gi cy = Some gw /\ (tried cy < maxMeshTries)%nat.
Proof. unfold current_gateway. destruct (maxMeshTries <=? tried cy)%nat eqn:E; [done|]. split; [done|lia]. Qed.

Lemma answered_same gw e cy :
  start (answered gw e cy) = start cy /\ gateways (answered gw e cy) = gateways cy /\ gi (answered gw e cy) = gi cy
  /\ retry (answered gw e cy) = retry cy /\ retries (answered gw e cy) = retries cy
  /\ fallback (answered gw e cy) = fallback cy /\ triedFall (answered gw e cy) = triedFall cy
  /\ tried (answered gw e cy) = tried cy /\ sent (answered gw e cy) = true.
Proof. unfold answered. by destruct (Is e ErrNoMeshReply). Qed.

Definition retry_ok (ws : list Duration) (cy : repeaterCycle) : Prop := (retry cy <= length ws)%nat.

Lemma advance_left ws cy new cy' :
  advance ws cy new (Some cy') -> retry_ok ws cy -> retry_ok ws cy' /\ (left ws cy' < left ws cy)%nat.
Proof.
  unfold retry_ok. intros Ha Hr. remember (Some cy') as o eqn:Ho. destruct Ha as [g Hc Hs Ht| | | | | |]; simplify_eq.
  - cbn. split; [lia|]. unfold left. rewrite Ht. cbn. lia.
  - apply current_gateway_Some in H as [H _]. apply lookup_lt_Some in H. unfold left. cbn. split; [lia|].
    destruct (length (gateways cy) - gi cy)%nat as [|n] eqn:E; [lia|].
    replace (length (gateways cy) - S (gi cy))%nat with n by lia. cbn. lia.
  - apply current_gateway_Some in H as [H _]. apply lookup_lt_Some in H. apply lookup_lt_Some in H2.
    destruct (answered_same gw e cy) as (_ & Hg & Hi & Hre & _ & _ & Ht & _).
    unfold left. cbn. rewrite Hg, Hi, Hre, Ht. split; [lia|].
    destruct (length (gateways cy) - gi cy)%nat as [|n] eqn:E; [lia|]. cbn. lia.
  - apply current_gateway_Some in H as [H _]. apply lookup_lt_Some in H.
    destruct (answered_same gw e cy) as (_ & Hg & Hi & Hre & _ & _ & Ht & _).
    unfold left. cbn. rewrite Hg, Hi, Ht. split; [lia|].
    destruct (length (gateways cy) - gi cy)%nat as [|n] eqn:E; [lia|].
    replace (length (gateways cy) - S (gi cy))%nat with n by lia. cbn. lia.
Qed.

(** The loop of [tickRepeater] as the code runs it, without fuel. *)
Inductive loop : Poller -> repeaterJob -> RepeaterCredential -> list string -> Time -> W
    -> Poller * repeaterJob * W -> Prop :=
  | loop_over p j c gws now w : cycle j = None -> loop p j c gws now w (p, j, w)
  | loop_wait p j c gws now w cy :
      cycle j = Some cy -> negb (time_before now (nextAt cy)) && negb (ctx_err w) = false ->
      loop p j c gws now w (p, j, w)
  | loop_step p j c gws now w cy p1 j1 w1 now1 w2 out :
      cycle j = Some cy -> negb (time_before now (nextAt cy)) && negb (ctx_err w) = true ->
      step p j cy c gws w = (p1, j1, w1) -> Now w1 = (now1, w2) -> loop p1 j1 c gws now1 w2 out ->
      loop p j c gws now w out.

Definition job_ok (ws : list Duration) (j : repeaterJob) : Prop :=
  match cycle j with Some cy => retry_ok ws cy | None => True end.

Lemma attempts_loop fuel p j c gws now w :
  job_ok (retry_waits p) j ->
  match cycle j with Some cy => (left (retry_waits p) cy < fuel)%nat | None => True end ->
  loop p j c gws now w (attempts fuel p j c gws now w) /\ job_ok (retry_waits p) (attempts fuel p j c gws now w).1.2
  /\ cfg (attempts fuel p j c gws now w).1.1 = cfg p.
Proof.
  revert p j now w. induction fuel as [|fuel IH]; intros p j now w Hj Hf.
  - destruct (cycle j) as [cy|] eqn:Hc; [lia|]. cbn. split; [by constructor|done].
  - cbn [attempts]. destruct (cycle j) as [cy|] eqn:Hc; [|by split; [constructor|]].
    destruct (negb (time_before now (nextAt cy)) && negb (ctx_err w)) eqn:Hgo.
    2: { split; [by eapply loop_wait|done]. }
    pose proof (step_advance p j cy c gws w) as Ha. pose proof (step_cfg p j cy c gws w) as Hcfg.
    destruct (step p j cy c gws w) as [[p1 j1] w1] eqn:Hs. cbn [fst snd] in Ha, Hcfg.
    assert (Hw : retry_waits p1 = retry_waits p) by (unfold retry_waits; by rewrite Hcfg).
    destruct (Now w1) as [now1 w2] eqn:Hn. unfold job_ok in Hj. rewrite Hc in Hj.
    assert (Hj1 : job_ok (retry_waits p1) j1 /\ match cycle j1 with Some cy => (left (retry_waits p1) cy < fuel)%nat | None => True end).
    { rewrite Hw. unfold job_ok. destruct (cycle j1) as [cy1|]; [|done]. apply advance_left in Ha as [? ?]; [|done].
      split; [done|lia]. }
    destruct Hj1 as [Hj1 Hl1]. destruct (IH p1 j1 now1 w2 Hj1 Hl1) as (Hloop & Hok & Hc1).
    split; [by eapply loop_step|]. by rewrite <-Hw, Hc1.
Qed.

(** ** Airtime *)

(** A cycle from its start: what it has asked so far, and the cycle, whatever the
    relay, the credential and the list of gateways are at each of its steps. *)
Inductive during (ws : list Duration) (cy0 : repeaterCycle) : list Check -> option repeaterCycle -> Prop :=
  | during_start : during ws cy0 [] (Some cy0)
  | during_step log cy p j c gws w :
      during ws cy0 log (Some cy) -> retry_waits p = ws ->
      during ws cy0 (log ++ asked cy c w) (cycle (step p j cy c gws w).1.2).

(** The checks of a log that were on the air, of one gateway. *)
Definition on_air (log : list Check) : list Check := filter (fun x => transmits x = true) log.
Definition on_air_at (g : string) (log : list Check) : nat :=
  length (filter (fun x => r_Gateway x.1 = g) (on_air log)).

Lemma on_air_app l k : on_air (l ++ k) = on_air l ++ on_air k.
Proof. apply filter_app. Qed.

Lemma on_air_at_app g l k : on_air_at g (l ++ k) = (on_air_at g l + on_air_at g k)%nat.
Proof. unfold on_air_at. by rewrite on_air_app, filter_app, length_app. Qed.

Lemma on_air_at_one g x :
  on_air_at g [x] = if transmits x && bool_decide (r_Gateway x.1 = g) then 1%nat else 0%nat.
Proof.
  unfold on_air_at, on_air. rewrite filter_cons. destruct (transmits x) eqn:Ht; case_decide; try done.
  rewrite filter_nil, filter_cons. case_decide; case_bool_decide; try done; congruence.
Qed.

Lemma on_air_one x : length (on_air [x]) = if transmits x then 1%nat else 0%nat.
Proof. unfold on_air. rewrite filter_cons. destruct (transmits x) eqn:Ht; case_decide; try done; congruence. Qed.

Lemma on_air_at_nil g log : on_air log = [] -> on_air_at g log = 0%nat.
Proof. unfold on_air_at. by intros ->. Qed.

(** How often a gateway was on the air, by its place in the cycle's list. *)
Definition spent (ws : list Duration) (log : list Check) (cy : repeaterCycle) : Prop :=
  (forall k g, gateways cy !! k = Some g ->
     (on_air_at g log <= if decide (k < gi cy) then S (length ws) else if decide (k = gi cy) then retry cy else 0)%nat)
  /\ (forall g, g ∉ gateways cy -> on_air_at g log = 0%nat).

Record during_ok (ws : list Duration) (miss : bool) (log : list Check) (cy : repeaterCycle) : Prop := {
  do_nodup : NoDup (gateways cy);
  do_retry : (retry cy <= length ws)%nat;
  do_tried : (tried cy <= maxMeshTries)%nat;
  do_spent : spent ws log cy;
  do_sent : sent cy = negb (bool_decide (on_air log = []));
  do_fall : triedFall cy = fallback cy;
  do_known : forall x, x ∈ log -> transmits x = true -> OnlyIfKnown x.1 = negb (fallback cy);
  do_kind : forall x, x ∈ log -> fallback cy = false -> OnlyIfKnown x.1 = true;
  do_retries : retries cy = negb miss;
  do_miss : miss = true -> length (on_air log) = tried cy /\ retry cy = 0%nat }.

(** What holds when a cycle is over. *)
Record over_ok (ws : list Duration) (miss : bool) (log : list Check) : Prop := {
  oo_spent : forall g, (on_air_at g log <= S (length ws))%nat;
  oo_known : forall x y, x ∈ on_air log -> y ∈ on_air log -> OnlyIfKnown x.1 = OnlyIfKnown y.1;
  oo_miss : miss = true -> (length (on_air log) <= maxMeshTries)%nat }.

Lemma spent_bound ws log cy g : spent ws log cy -> retry_ok ws cy -> (on_air_at g log <= S (length ws))%nat.
Proof.
  intros [Hin Hout] Hr. unfold retry_ok in Hr. destruct (decide (g ∈ gateways cy)) as [Hg|Hg].
  - apply list_elem_of_lookup in Hg as [k Hk]. specialize (Hin k g Hk). repeat case_decide; lia.
  - rewrite Hout by done. lia.
Qed.

Lemma during_over ws miss log cy : during_ok ws miss log cy -> over_ok ws miss log.
Proof.
  intros []. split.
  - intros g. by eapply spent_bound.
  - intros x y [Hx1 Hx2]%list_elem_of_filter [Hy1 Hy2]%list_elem_of_filter.
    by rewrite (do_known0 x), (do_known0 y).
  - intros Hm. destruct (do_miss0 Hm). lia.
Qed.

Lemma spent_move ws log cy cy' gw x :
  spent ws log cy -> NoDup (gateways cy) -> gateways cy !! gi cy = Some gw -> retry_ok ws cy ->
  gateways cy' = gateways cy -> r_Gateway x.1 = gw ->
  (gi cy' = S (gi cy) /\ retry cy' = 0%nat) \/ (gi cy' = gi cy /\ retry cy' = S (retry cy)) ->
  spent ws (log ++ [x]) cy'.
Proof.
  intros [Hin Hout] Hnd Hgw Hr Hg Hx Hmove. unfold retry_ok in Hr. unfold spent. rewrite Hg. split.
  - intros k g Hk. rewrite on_air_at_app, on_air_at_one. specialize (Hin k g Hk).
    destruct (decide (k = gi cy)) as [->|Hne].
    + destruct (transmits x && _); repeat case_decide; lia.
    + rewrite (bool_decide_eq_false_2 (r_Gateway x.1 = g)), andb_false_r.
      * repeat case_decide; lia.
      * intros E. apply Hne. apply (NoDup_lookup _ _ _ _ Hnd Hk). congruence.
  - intros g Hng. rewrite on_air_at_app, on_air_at_one, Hout by done.
    rewrite bool_decide_eq_false_2, andb_false_r; [done|]. intros E. apply Hng. rewrite <-E, Hx.
    by eapply list_elem_of_lookup_2.
Qed.

Ltac cycle_fields :=
  cbn [to_fallback not_tried retry_at next_gateway start gateways gi retry retries fallback triedFall nextAt tried sent
       unanswered lastErr via].

(** A check that was on the air, and the cycle moves on to the next gateway. *)
Lemma during_next ws miss log cy cy1 gw x now :
  during_ok ws miss log cy -> current_gateway cy = Some gw -> transmits x = true ->
  r_Gateway x.1 = gw -> OnlyIfKnown x.1 = negb (fallback cy) ->
  gateways cy1 = gateways cy -> gi cy1 = gi cy -> retries cy1 = retries cy -> fallback cy1 = fallback cy ->
  triedFall cy1 = triedFall cy -> tried cy1 = tried cy -> sent cy1 = true ->
  during_ok ws miss (log ++ [x]) (next_gateway now cy1).
Proof.
  intros [] [Hgw Htr]%current_gateway_Some Hx Hrg Hro Hg Hi Hre Hf Htf Ht Hs.
  split; cycle_fields; rewrite ?Hg, ?Ht, ?Hf, ?Htf, ?Hre, ?Hs.
  - done.
  - apply Nat.le_0_l.
  - exact Htr.
  - apply (spent_move _ _ cy _ gw); try assumption. left. cbn. by rewrite Hi.
  - rewrite on_air_app. pose proof (on_air_one x) as H1. rewrite Hx in H1.
    rewrite bool_decide_eq_false_2; [done|]. intros [_ E]%app_nil. by rewrite E in H1.
  - done.
  - intros y [Hy|Hy%list_elem_of_singleton]%elem_of_app; [auto|by subst].
  - intros y [Hy|Hy%list_elem_of_singleton]%elem_of_app Hfb; [auto|]. subst y. by rewrite Hro, Hfb.
  - done.
  - intros Hm. destruct (do_miss0 Hm) as [Hl _]. rewrite on_air_app, length_app, on_air_one, Hx, Hl. split; [apply Nat.add_1_r|done].
Qed.

Lemma during_fallback ws miss log cy g :
  during_ok ws miss log cy -> sent cy = false -> triedFall cy = false ->
  during_ok ws miss log (to_fallback g cy).
Proof.
  intros [] Hs Ht. rewrite Hs in do_sent0. symmetry in do_sent0.
  apply negb_false_iff, bool_decide_eq_true in do_sent0. split; cycle_fields.
  - apply NoDup_singleton.
  - apply Nat.le_0_l.
  - exact do_tried0.
  - split; [intros k h _; rewrite on_air_at_nil by done; apply Nat.le_0_l|intros h _; by apply on_air_at_nil].
  - by rewrite Hs, do_sent0.
  - reflexivity.
  - intros x Hx Hxt. exfalso. apply (not_elem_of_nil x). rewrite <-do_sent0. by apply list_elem_of_filter.
  - discriminate.
  - exact do_retries0.
  - intros Hm. split; [apply (do_miss0 Hm)|reflexivity].
Qed.

Lemma during_skip ws miss log cy gw c e now :
  during_ok ws miss log cy -> current_gateway cy = Some gw -> Is e ErrNotKnown || skipErr e = true ->
  during_ok ws miss (log ++ [(request cy c gw, inl e)]) (not_tried e now cy).
Proof.
  intros [] [Hgw Htr]%current_gateway_Some He.
  assert (Hsame : on_air (log ++ [(request cy c gw, inl e)]) = on_air log).
  { rewrite on_air_app. replace (on_air [(request cy c gw, inl e)]) with (@nil Check); [apply app_nil_r|].
    symmetry. apply length_zero_iff_nil. rewrite on_air_one. unfold transmits. cbn [snd]. by rewrite He. }
  split; cycle_fields; try assumption.
  - apply Nat.le_0_l.
  - apply (spent_move _ _ cy _ gw); try assumption; try reflexivity. by left.
  - by rewrite Hsame.
  - intros y [Hy|Hy%list_elem_of_singleton]%elem_of_app; [auto|by subst].
  - intros y [Hy|Hy%list_elem_of_singleton]%elem_of_app Hfb; [auto|]. subst y. cbn. by rewrite Hfb.
  - intros Hm. rewrite Hsame. split; [apply (do_miss0 Hm)|reflexivity].
Qed.

Lemma during_retry ws log cy gw c e t :
  during_ok ws false log cy -> current_gateway cy = Some gw -> Is e ErrNotKnown || skipErr e = false ->
  (retry cy < length ws)%nat ->
  during_ok ws false (log ++ [(request cy c gw, inl e)]) (retry_at t (answered gw e cy)).
Proof.
  intros Hd Hc He Hw. pose proof Hc as [Hgw Htr]%current_gateway_Some.
  destruct (answered_same gw e cy) as (_ & Hg & Hi & Hre & Hrs & Hf & Htf & Ht & Hse).
  assert (Hnext : during_ok ws false (log ++ [(request cy c gw, inl e)]) (next_gateway t (answered gw e cy))).
  { apply (during_next _ _ _ cy _ gw); try assumption; try reflexivity. unfold transmits. cbn [snd]. by rewrite He. }
  destruct Hnext. revert do_nodup0 do_sent0 do_fall0 do_known0 do_kind0 do_retries0. cycle_fields. intros.
  destruct Hd. split; cycle_fields; try assumption.
  - by rewrite Hre.
  - by rewrite Ht.
  - apply (spent_move _ _ cy _ gw); try assumption; try reflexivity. right. cbn. by rewrite Hi, Hre.
  - discriminate.
Qed.

Lemma advance_during ws miss log cy new ocy :
  during_ok ws miss log cy -> advance ws cy new ocy ->
  match ocy with Some cy' => during_ok ws miss (log ++ new) cy' | None => over_ok ws miss (log ++ new) end.
Proof.
  intros Hd Ha. destruct Ha as [g Hc Hs Ht|Hc|gw c res Hc|gw c e now Hc He|gw c e Hc He Hl|gw c e t d Hc He Hr Hw|gw c e now Hc He].
  - rewrite app_nil_r. by apply during_fallback.
  - rewrite app_nil_r. by eapply during_over.
  - eapply during_over, (during_next _ _ _ cy (transmitted gw [] cy) gw _ 0); try assumption; reflexivity.
  - by apply during_skip.
  - eapply during_over, (during_next _ _ _ cy (transmitted gw e cy) gw _ 0); try assumption; try reflexivity.
    unfold transmits. cbn [snd]. by rewrite He.
  - apply lookup_lt_Some in Hw. pose proof (do_retries _ _ _ _ Hd) as Hm. destruct miss; [by rewrite Hr in Hm|].
    by apply during_retry.
  - destruct (answered_same gw e cy) as (_ & Hg & Hi & Hre & Hrs & Hf & Htf & Ht & Hse).
    apply (during_next _ _ _ cy _ gw); try assumption; try reflexivity. unfold transmits. cbn [snd]. by rewrite He.
Qed.

Lemma candidates_nodup c gws : NoDup (candidates c gws).
Proof.
  assert (Hadd : forall (P : list string -> string -> bool) l out, NoDup out ->
    NoDup (foldl (fun out g => if P out g && bool_decide (g ∉ out) then out ++ [g] else out) out l)).
  { intros P l. induction l as [|g l IH]; intros out Hn; [done|]. cbn. apply IH. destruct (P out g); [|done].
    cbn [andb]. case_bool_decide; [|done]. apply NoDup_app. split_and!; [done| |apply NoDup_singleton].
    intros x Hx ->%list_elem_of_singleton. done. }
  unfold candidates. apply (Hadd (fun _ _ => true)).
  apply (Hadd (fun _ g => negb (String.eqb g "") && bool_decide (g ∈ gws))). constructor.
Qed.

Lemma during_invariant ws now j c gws log ocy :
  let cy0 := new_cycle now j c gws in
  during ws cy0 log ocy ->
  match ocy with Some cy => during_ok ws (negb (retries cy0)) log cy | None => over_ok ws (negb (retries cy0)) log end.
Proof.
  intros cy0 Hd. induction Hd as [|log cy p j' c' gws' w Hd IH Hw].
  - split; cbn [new_cycle gateways gi retry tried sent triedFall fallback retries cy0].
    + apply candidates_nodup.
    + apply Nat.le_0_l.
    + apply Nat.le_0_l.
    + split; [intros k g _; apply Nat.le_0_l|done].
    + reflexivity.
    + reflexivity.
    + intros x []%not_elem_of_nil.
    + intros x []%not_elem_of_nil.
    + by rewrite negb_involutive.
    + done.
  - rewrite <-Hw. apply (advance_during _ _ _ cy); [rewrite Hw; by apply IH|apply step_advance].
Qed.

(** A route that went unanswered. *)
Definition no_reply (x : Check) : bool :=
  transmits x && match x.2 with inl e => Is e ErrNoMeshReply | inr _ => false end.

(** A check floods exactly when the same gateway's route went unanswered before. *)
Definition floods (log : list Check) (x : Check) : Prop :=
  FloodFirst x.1 = true <-> exists y, y ∈ log /\ no_reply y = true /\ r_Gateway y.1 = r_Gateway x.1.
Definition flood_rule (log : list Check) : Prop :=
  forall pre x post, log = pre ++ x :: post -> floods pre x.
Definition unanswered_ok (log : list Check) (cy : repeaterCycle) : Prop :=
  forall g, g ∈ unanswered cy <-> exists y, y ∈ log /\ no_reply y = true /\ r_Gateway y.1 = g.

Lemma flood_rule_snoc log x : flood_rule log -> floods log x -> flood_rule (log ++ [x]).
Proof.
  intros Hl Hx pre y post E. destruct post as [|z post _] using rev_ind.
  - apply app_inj_tail in E as [<- <-]. done.
  - rewrite app_comm_cons, app_assoc in E. apply app_inj_tail in E as [-> _]. by eapply Hl.
Qed.

Lemma unanswered_snoc log cy cy' x :
  unanswered_ok log cy ->
  unanswered cy' = (if no_reply x then {[r_Gateway x.1]} ∪ unanswered cy else unanswered cy) ->
  unanswered_ok (log ++ [x]) cy'.
Proof.
  intros Hu E g. rewrite E. setoid_rewrite elem_of_app. setoid_rewrite list_elem_of_singleton.
  destruct (no_reply x) eqn:Hx; rewrite ?elem_of_union, ?elem_of_singleton, (Hu g).
  - split; [intros [->|(y & ? & ?)]; eauto 6|]. intros (y & [Hy| ->] & ? & ?); eauto.
  - split; [intros (y & ? & ?); eauto 6|]. intros (y & [Hy| ->] & ? & ?); [eauto|congruence].
Qed.

Lemma advance_floods ws log cy new ocy :
  flood_rule log /\ unanswered_ok log cy -> advance ws cy new ocy ->
  flood_rule (log ++ new) /\ match ocy with Some cy' => unanswered_ok (log ++ new) cy' | None => True end.
Proof.
  intros [Hl Hu] Ha.
  assert (Hreq : forall c gw r, floods log (request cy c gw, r)).
  { intros c gw r. unfold floods. cbn. rewrite bool_decide_eq_true. apply Hu. }
  assert (Hans : forall gw e c, Is e ErrNotKnown || skipErr e = false ->
    unanswered (answered gw e cy) = if no_reply (request cy c gw, inl e) then {[gw]} ∪ unanswered cy else unanswered cy).
  { intros gw e c He. unfold no_reply, transmits, answered. cbn. rewrite He. by destruct (Is e ErrNoMeshReply). }
  destruct Ha; rewrite ?app_nil_r; (split; [try done; by apply flood_rule_snoc|]); try done.
  - eapply unanswered_snoc; [done|]. unfold no_reply, transmits. cbn. by rewrite H0.
  - eapply unanswered_snoc; [done|]. by apply Hans.
  - eapply unanswered_snoc; [done|]. by apply Hans.
Qed.

Lemma during_floods ws now j c gws log ocy :
  during ws (new_cycle now j c gws) log ocy ->
  flood_rule log /\ match ocy with Some cy => unanswered_ok log cy | None => True end.
Proof.
  induction 1 as [|log cy p j' c' gws' w Hd IH Hw].
  - split; [by intros [] ? ?|]. intros g. cbn. split; [set_solver|]. by intros (y & []%not_elem_of_nil & _).
  - eapply advance_floods; [done|apply step_advance].
Qed.

(** C19: the airtime one cycle over a shared repeater may use. However the relay
    answers and whatever changes between its steps, each gateway is on the air at
    most once and once per retry; a repeater that missed its last cycle, or
    hibernates, costs at most [maxMeshTries] checks in all; the contact is added
    only when no check went out without it, and then all do; and a check floods
    exactly when the route of its gateway went unanswered in this cycle. *)
Theorem airtime (ws : list Duration) (now : Time) (j : repeaterJob) (c : RepeaterCredential) (gws : list string)
    (log : list Check) (ocy : option repeaterCycle) :
  during ws (new_cycle now j c gws) log ocy ->
  (forall g, (on_air_at g log <= S (length ws))%nat)
  /\ (FailedCycles (j_state j) <> 0 \/ is_Some (HibernatingSince (j_state j)) -> (length (on_air log) <= maxMeshTries)%nat)
  /\ (forall x y, x ∈ on_air log -> y ∈ on_air log -> OnlyIfKnown x.1 = OnlyIfKnown y.1)
  /\ flood_rule log.
Proof.
  intros Hd. destruct (during_floods _ _ _ _ _ _ _ Hd) as [Hf _]. apply during_invariant in Hd.
  assert (Ho : over_ok ws (negb (retries (new_cycle now j c gws))) log) by (destruct ocy; [by eapply during_over|done]).
  destruct Ho as [H1 H2 H3]. split_and!; try done. intros Hm. apply H3. cbn.
  destruct Hm as [Hm|Hm]; [|rewrite (bool_decide_eq_true_2 _ Hm); by rewrite andb_false_r].
  destruct (Z.eqb_spec (FailedCycles (j_state j)) 0); [done|done].
Qed.

(** ** Every repeater is polled again *)

(** The states of the outside the poller's calls lead to. *)
Inductive later : W -> W -> Prop :=
  | later_refl w : later w w
  | later_now w w' : later (Now w).2 w' -> later w w'
  | later_check w w' r : later (CheckRepeater r w).2 w' -> later w w'
  | later_event w w' u i : later (get_event u i w).2 w' -> later w w'
  | later_record w w' pk g e : later (RecordRepeaterPoll pk g e w) w' -> later w w'
  | later_state w w' pk st : later (SetRepeaterPollState pk st w) w' -> later w w'.

Lemma later_trans w1 w2 w3 : later w1 w2 -> later w2 w3 -> later w1 w3.
Proof.
  induction 1; intros; [done|eapply later_now|eapply later_check|eapply later_event|eapply later_record|eapply later_state];
    eauto.
Qed.

Lemma now_later w t w' : Now w = (t, w') -> later w w'.
Proof. intros E. eapply later_now. rewrite E. constructor. Qed.

Lemma gridAlive_later p pk d w : later w (gridAlive p pk d w).2.
Proof.
  unfold gridAlive. destruct (get_event _ _ w) as [a w1] eqn:E.
  assert (H1 : later w w1) by (eapply later_event; rewrite E; constructor).
  destruct a as [|n| |t]; try done; [by destruct (n =? 404)|].
  destruct (Now w1) as [now w2] eqn:En. eapply later_trans; [done|]. by eapply now_later.
Qed.

(** When the job has work next, and the longest it waits. *)
Definition due (j : repeaterJob) : Time :=
  match cycle j with Some cy => nextAt cy | None => NextCycle (j_state j) end.
Definition longest (p : Poller) : Duration :=
  foldr Z.max (Z.max (RepeaterInterval (cfg p)) (HibernateInterval (cfg p))) (retry_waits p).

Lemma longest_interval p : RepeaterInterval (cfg p) <= longest p /\ HibernateInterval (cfg p) <= longest p.
Proof. unfold longest. induction (retry_waits p); cbn; lia. Qed.

Lemma longest_wait p d : d ∈ retry_waits p -> d <= longest p.
Proof.
  unfold longest. induction (retry_waits p) as [|x l IH]; [by intros ?%not_elem_of_nil|].
  intros [->|H1]%elem_of_cons; cbn; [lia|]. specialize (IH H1). lia.
Qed.

Definition clock_monotone : Prop := forall w w', later w w' -> (Now w).1 <= (Now w').1.

Definition positive_config (p : Poller) : Prop := 0 < RepeaterInterval (cfg p) /\ 0 < HibernateInterval (cfg p).

Lemma verdict_due p j cy c res now w :
  positive_config p -> start cy <= now ->
  let '(_, _, next, _, w') := verdict p j cy c res now w in now < next <= now + longest p /\ later w w'.
Proof.
  intros [Hi Hh] Hs. pose proof (longest_interval p) as [Hl1 Hl2].
  set (next := let n := time_add (start cy) (RepeaterInterval (cfg p)) in
               if time_after n now then n else time_add now (RepeaterInterval (cfg p))).
  assert (Hn : now < next <= now + longest p).
  { subst next. cbn zeta. unfold time_add, time_after. destruct (Z.ltb_spec now (start cy + RepeaterInterval (cfg p))); lia. }
  unfold verdict. fold next. destruct res as [r|]; [split; [done|constructor]|].
  destruct (match lastErr cy with Some e => _ | None => false end); [split; [done|constructor]|].
  destruct (sent cy); [|split; [done|constructor]].
  destruct (_ || _); [|split; [done|constructor]].
  pose proof (gridAlive_later p (Pubkey c) (hibernateWindow p) w) as Hg.
  destruct (gridAlive _ _ _ w) as [a w1]. cbn [snd] in Hg. cbn zeta.
  destruct (match a with inl _ => None | inr _ => _ end); (split; [|done]); [unfold time_add; lia|done].
Qed.

Lemma endCycle_due p j cy c res w :
  clock_monotone -> positive_config p -> start cy <= (Now w).1 ->
  let '(_, j', w') := endCycle p j cy c res w in
  later w w' /\ (Now w).1 < NextCycle (j_state j') <= (Now w).1 + longest p.
Proof.
  intros Hm Hp Hs. unfold endCycle. destruct (Now w) as [now w1] eqn:En.
  pose proof (verdict_due p j cy c res now w1 Hp Hs) as Hv.
  destruct (verdict _ _ _ _ _ _ _) as [[[[o st] next] wk] w2]. destruct Hv as [Hn Hl].
  assert (Hw : later w w2) by (eapply later_trans; [by eapply now_later|done]).
  assert (Hend : forall w3, w3 = (let w := SetRepeaterPollState (Pubkey c) (set_NextCycle next st) w2 in
    if negb (bool_decide (o = outcomeSkipped)) || match lastErr cy with Some e => Is e ErrNotKnown | None => false end
    then RecordRepeaterPoll (Pubkey c) (via cy) (lastErr cy) w else w) -> later w w3).
  { intros w3 ->. eapply later_trans; [done|]. eapply later_state. cbn zeta.
    destruct (_ || _); [eapply later_record|]; constructor. }
  destruct (repeaters p !! Pubkey c); (split; [by apply Hend|done]).
Qed.

Lemma step_due p j cy c gws w now :
  clock_monotone -> positive_config p -> start cy <= now -> nextAt cy <= now -> now <= (Now w).1 ->
  let '(p', j', w') := step p j cy c gws w in
  later w w' /\
  match cycle j' with
  | Some cy' => start cy' = start cy /\ nextAt cy' <= (Now w').1 + longest p
  | None => now < NextCycle (j_state j') <= (Now w').1 + longest p
  end.
Proof.
  intros Hm Hp Hs Hn Hw. pose proof (longest_interval p) as [Hl _]. destruct Hp as [Hp1 Hp2].
  assert (Hend : forall cy c res w1, start cy <= now -> later w w1 ->
    let '(p', j', w') := endCycle p j cy c res w1 in
    later w w' /\ cycle j' = None /\ now < NextCycle (j_state j') <= (Now w').1 + longest p).
  { intros cy0 c0 res w1 Hs0 Hlw. pose proof (Hm _ _ Hlw) as Hc.
    pose proof (endCycle_ends p j cy0 c0 res w1) as He.
    pose proof (endCycle_due p j cy0 c0 res w1 Hm (conj Hp1 Hp2) ltac:(lia)) as Hd.
    destruct (endCycle _ _ _ _ _ _) as [[p' j'] w']. destruct Hd as [Hd1 Hd2]. pose proof (Hm _ _ Hd1).
    split_and!; [by eapply later_trans|done|lia|lia]. }
  assert (Hmatch : forall out : Poller * repeaterJob * W, (let '(p', j', w') := out in later w w' /\ cycle j' = None /\
      now < NextCycle (j_state j') <= (Now w').1 + longest p) ->
    let '(p', j', w') := out in later w w' /\ match cycle j' with
      | Some cy' => start cy' = start cy /\ nextAt cy' <= (Now w').1 + longest p
      | None => now < NextCycle (j_state j') <= (Now w').1 + longest p end).
  { intros [[p' j'] w'] (H1 & H2 & H3). by rewrite H2. }
  unfold step. destruct (Now w) as [t w1] eqn:En. cbn [fst] in Hw.
  assert (Hw1 : later w w1) by by eapply now_later.
  destruct (current_gateway cy) as [gw|] eqn:Hg.
  - cbn zeta. destruct (CheckRepeater (request cy c gw) w1) as [r w2] eqn:Ec.
    assert (Hw2 : later w w2) by (eapply later_trans; [done|]; eapply later_check; rewrite Ec; constructor).
    pose proof (Hm _ _ Hw2) as Ht. rewrite En in Ht. cbn [fst] in Ht.
    destruct r as [e|res]; [|apply Hmatch; by apply Hend].
    destruct (_ || _). { cbn. split; [done|split; [done|lia]]. }
    destruct (Is e ErrLoginFailed); [apply Hmatch; by apply Hend|].
    fold (answered gw e cy). destruct (answered_same gw e cy) as (Hst & _).
    destruct (if retries _ then _ else _) as [d|] eqn:Hd; cbn [set_cycle cycle]; (split; [done|]); cycle_fields; (split; [done|]).
    + destruct (retries _); [|done]. apply list_elem_of_lookup_2, longest_wait in Hd. unfold time_add. lia.
    + lia.
  - destruct (may_fall_back _ _ _); [|apply Hmatch; by apply Hend].
    pose proof (Hm _ _ Hw1) as Ht. rewrite En in Ht. cbn in Ht |- *. split; [done|]. split; [done|lia].
Qed.

Lemma attempts_due fuel p j c gws now w w0 :
  clock_monotone -> (forall w, ctx_err w = false) -> positive_config p ->
  later w0 w -> (Now w0).1 <= now -> now <= (Now w).1 ->
  match cycle j with
  | Some cy => retry_ok (retry_waits p) cy /\ (left (retry_waits p) cy < fuel)%nat /\ start cy <= now
               /\ nextAt cy <= now + longest p
  | None => (Now w0).1 < NextCycle (j_state j) <= (Now w).1 + longest p
  end ->
  let '(_, j', w') := attempts fuel p j c gws now w in
  later w0 w' /\ (Now w0).1 < due j' <= (Now w').1 + longest p.
Proof.
  intros Hm Hctx. revert p j now w. induction fuel as [|fuel IH]; intros p j now w Hp Hl Hn Hnw Hj.
  - destruct (cycle j) as [cy|] eqn:Hc; [lia|]. cbn. unfold due. by rewrite Hc.
  - cbn [attempts]. destruct (cycle j) as [cy|] eqn:Hc; [|unfold due; by rewrite Hc].
    destruct Hj as (Hr & Hf & Hs & Hna). rewrite Hctx, andb_true_r. unfold time_before at 1.
    destruct (Z.ltb_spec now (nextAt cy)) as [Hw|Hw]; cbn [negb].
    { unfold due. rewrite Hc. split; [done|lia]. }
    pose proof (step_advance p j cy c gws w) as Ha. pose proof (step_cfg p j cy c gws w) as Hcfg.
    pose proof (step_due p j cy c gws w now Hm Hp Hs Hw Hnw) as Hd.
    destruct (step p j cy c gws w) as [[p1 j1] w1] eqn:Hst. cbn [fst snd] in Ha, Hcfg. destruct Hd as [Hlw Hd].
    assert (Hrw : retry_waits p1 = retry_waits p) by (unfold retry_waits; by rewrite Hcfg).
    assert (Hlong : longest p1 = longest p) by (unfold longest; by rewrite Hrw, Hcfg).
    destruct (Now w1) as [now1 w2] eqn:En. rewrite <-Hlong.
    assert (Hw2 : later w1 w2) by by eapply now_later.
    assert (Hl1 : later w0 w1) by by eapply later_trans.
    pose proof (Hm _ _ Hl1) as H01. pose proof (Hm _ _ Hlw) as H1. pose proof (Hm _ _ Hw2) as H2.
    rewrite En in H01, H1, H2. cbn [fst] in H01, H1, H2, Hd.
    apply IH; try lia; [by unfold positive_config; rewrite Hcfg|by eapply later_trans|].
    rewrite Hrw, Hlong. destruct (cycle j1) as [cy1|].
    + apply advance_left in Ha as [? ?]; [|done]. destruct Hd as [Hd1 Hd2]. split_and!; [done|lia|lia|lia].
    + lia.
Qed.

Lemma endCycle_later p j cy c res w : later w (endCycle p j cy c res w).2.
Proof.
  unfold endCycle. destruct (Now w) as [now w1] eqn:En.
  assert (Hv : later w1 (verdict p j cy c res now w1).2).
  { unfold verdict. destruct res; [constructor|]. destruct (match lastErr cy with Some e => _ | None => _ end); [constructor|].
    destruct (sent cy); [|constructor]. destruct (_ || _); [|constructor].
    pose proof (gridAlive_later p (Pubkey c) (hibernateWindow p) w1) as Hg. destruct (gridAlive _ _ _ w1) as [a w2].
    cbn zeta. by destruct (match a with inl _ => None | inr _ => _ end). }
  destruct (verdict _ _ _ _ _ _ _) as [[[[o st] next] wk] w2]. cbn [snd] in Hv.
  destruct (repeaters p !! Pubkey c); cbn [snd];
    (eapply later_trans; [by eapply now_later|]; eapply later_trans; [done|]; eapply later_state;
     destruct (_ || _); [eapply later_record|]; constructor).
Qed.

(** A step has made the check it asks for. *)
Lemma step_later p j cy c gws w :
  later (match current_gateway cy with
         | Some gw => (CheckRepeater (request cy c gw) (Now w).2).2
         | None => (Now w).2
         end) (step p j cy c gws w).2.
Proof.
  unfold step. destruct (Now w) as [t w1]. cbn [snd]. destruct (current_gateway cy) as [gw|].
  - cbn zeta. destruct (CheckRepeater _ w1) as [[e|res] w2]; cbn [snd]; [|apply endCycle_later].
    destruct (_ || _); [constructor|]. destruct (Is e ErrLoginFailed); [apply endCycle_later|].
    destruct (if retries _ then _ else _); constructor.
  - destruct (may_fall_back _ _ _); [constructor|apply endCycle_later].
Qed.

Lemma step_after p j cy c gws w : later w (step p j cy c gws w).2.
Proof.
  pose proof (step_later p j cy c gws w) as H1. destruct (current_gateway cy); eapply later_now; [eapply later_check|]; done.
Qed.

Lemma attempts_later fuel p j c gws now w : later w (attempts fuel p j c gws now w).2.
Proof.
  revert p j now w. induction fuel as [|fuel IH]; intros p j now w; cbn [attempts]; [constructor|].
  destruct (cycle j) as [cy|]; [|constructor]. destruct (_ && _); [|constructor].
  pose proof (step_after p j cy c gws w) as H1. destruct (step _ _ _ _ _ w) as [[p1 j1] w1]. cbn [snd] in H1.
  destruct (Now w1) as [now1 w2] eqn:En. eapply later_trans; [done|]. eapply later_trans; [by eapply now_later|]. apply IH.
Qed.

(** The check is made and the attempts left go down. *)
Lemma attempts_progress fuel p j c gws now w cy :
  cycle j = Some cy -> (forall w, ctx_err w = false) -> nextAt cy <= now -> retry_ok (retry_waits p) cy ->
  let '(_, j', w') := attempts (S fuel) p j c gws now w in
  (forall gw, current_gateway cy = Some gw -> later (CheckRepeater (request cy c gw) (Now w).2).2 w')
  /\ match cycle j' with Some cy' => (left (retry_waits p) cy' < left (retry_waits p) cy)%nat | None => True end.
Proof.
  intros Hc Hctx Hn Hr. cbn [attempts]. rewrite Hc, Hctx, andb_true_r. unfold time_before at 1.
  destruct (Z.ltb_spec now (nextAt cy)) as [?|_]; [lia|]. cbn [negb].
  pose proof (step_later p j cy c gws w) as Hl. pose proof (step_cfg p j cy c gws w) as Hcfg.
  pose proof (step_advance p j cy c gws w) as Ha.
  destruct (step _ _ _ _ _ w) as [[p1 j1] w1]. cbn [fst snd] in Hl, Hcfg, Ha.
  destruct (Now w1) as [now1 w2] eqn:En. pose proof (attempts_later fuel p1 j1 c gws now1 w2) as Hl2.
  assert (Hw : retry_waits p1 = retry_waits p) by (unfold retry_waits; by rewrite Hcfg).
  assert (Hdec : forall fuel p1 j1 now1 w2, retry_waits p1 = retry_waits p ->
     match cycle j1 with Some cy1 => retry_ok (retry_waits p) cy1 /\ (left (retry_waits p) cy1 < left (retry_waits p) cy)%nat
     | None => True end ->
     match cycle (attempts fuel p1 j1 c gws now1 w2).1.2 with
     | Some cy' => (left (retry_waits p) cy' < left (retry_waits p) cy)%nat | None => True end).
  { clear. intros fuel. induction fuel as [|fuel IH]; intros p1 j1 now1 w2 Hw Hj; cbn [attempts];
      destruct (cycle j1) as [cy1|] eqn:Hc; cbn [fst snd]; rewrite ?Hc; try done; [by destruct Hj|].
    destruct (_ && _); cbn [fst snd]; rewrite ?Hc; [|by destruct Hj].
    pose proof (step_cfg p1 j1 cy1 c gws w2) as Hcfg. pose proof (step_advance p1 j1 cy1 c gws w2) as Ha.
    destruct (step _ _ _ _ _ w2) as [[p3 j3] w3]. cbn [fst snd] in Hcfg, Ha. destruct (Now w3) as [now3 w4].
    apply IH; [unfold retry_waits in *; by rewrite Hcfg|]. rewrite Hw in Ha. destruct (cycle j3) as [cy3|]; [|done].
    destruct Hj as [Hj1 Hj2]. apply advance_left in Ha as [? ?]; [|done]. split; [done|lia]. }
  specialize (Hdec fuel p1 j1 now1 w2 Hw). destruct (attempts fuel p1 j1 c gws now1 w2) as [[p3 j3] w3].
  cbn [fst snd] in Hl2, Hdec. split.
  - intros gw Hgw. rewrite Hgw in Hl. eapply later_trans; [done|]. eapply later_trans; [by eapply now_later|done].
  - apply Hdec. destruct (cycle j1) as [cy1|]; [|done]. by apply advance_left in Ha.
Qed.

Lemma candidates_cons c gws : gws <> [] -> exists g, candidates c gws !! 0%nat = Some g.
Proof.
  intros Hg. destruct (candidates c gws) as [|g l] eqn:E; [|by exists g]. exfalso.
  assert (Hin : forall (l out : list string) x, x ∈ out \/ x ∈ l ->
    x ∈ foldl (fun out g => if bool_decide (g ∉ out) then out ++ [g] else out) out l).
  { clear. intros l. induction l as [|y l IH]; intros out x Hx; cbn.
    - destruct Hx as [Hx|[]%not_elem_of_nil]; done.
    - apply IH. case_bool_decide as Hy; rewrite ?elem_of_app, ?elem_of_cons in *; [|destruct (decide (x = y)) as [->|]].
      + set_solver.
      + left. by destruct (decide (y ∈ out)).
      + set_solver. }
  destruct gws as [|g gws]; [done|]. unfold candidates in E.
  pose proof (Hin (g :: gws) (foldl (fun out g0 => if negb (String.eqb g0 "") && bool_decide (g0 ∈ g :: gws)
    && bool_decide (g0 ∉ out) then out ++ [g0] else out) [] [Primary (Poll c); LastGateway c; AddedByGateway c]) g
    ltac:(right; left)) as H1.
  rewrite E in H1. by apply not_elem_of_nil in H1.
Qed.

Lemma left_fuel p cy : attempts_left p cy = left (retry_waits p) cy.
Proof. done. Qed.

(** C20: a shared repeater whose password is not refused keeps being polled. A tick
    at or after the time its job is due makes a check when it starts a cycle (and
    there is a gateway), or uses up one of the finitely many attempts the cycle
    has left; either way the job is then due again, after the tick started and
    within the longest of the intervals and waits after it ended. *)
Theorem keeps_polling (p : Poller) (c : RepeaterCredential) (gws : list string) (w : W) (j : repeaterJob) :
  clock_monotone -> (forall w, ctx_err w = false) -> positive_config p ->
  jobs p !! Pubkey c = Some j -> job_ok (retry_waits p) j -> RefusedAt (j_state j) = None ->
  (forall cy, cycle j = Some cy -> start cy <= (Now w).1) -> due j <= (Now w).1 ->
  let '(p', w') := tickRepeater p c gws w in
  exists j', jobs p' !! Pubkey c = Some j' /\ (Now w).1 < due j' <= (Now w').1 + longest p
    /\ match cycle j with
       | None => gws <> [] -> exists w1 req, later w w1 /\ r_Pubkey req = Pubkey c /\ later (CheckRepeater req w1).2 w'
       | Some cy => match cycle j' with
                    | Some cy' => (left (retry_waits p) cy' < left (retry_waits p) cy)%nat
                    | None => True
                    end
       end.
Proof.
  intros Hm Hctx Hp Hj Hok Hre Hst Hdue. unfold tickRepeater. destruct (Now w) as [now w1] eqn:En.
  cbn [fst] in Hst, Hdue. unfold get_job. rewrite Hj. unfold unrefuse. rewrite Hre.
  assert (Hwake : wake p c now j w1 = (j, w1)).
  { unfold wake, due in *. destruct (cycle j); [done|]. unfold time_before at 2.
    destruct (Z.ltb_spec now (NextCycle (j_state j))); [lia|]. by rewrite andb_false_r. }
  rewrite Hwake. pose proof (now_later _ _ _ En) as Hl1. pose proof (Hm _ _ Hl1) as Hn1. rewrite En in Hn1. cbn [fst] in Hn1.
  pose proof (longest_interval p) as [Hlo _]. pose proof Hp as [Hpi _].
  assert (exists cy, begin_cycle now c gws j = set_cycle (Some cy) j /\ nextAt cy <= now /\ start cy <= now
    /\ retry_ok (retry_waits p) cy /\ match cycle j with Some cy0 => cy = cy0 | None => cy = new_cycle now j c gws end)
    as (cy & Hb & Hna & Hs & Hr & Hcy).
  { unfold begin_cycle, due, job_ok in *. destruct (cycle j) as [cy|] eqn:Hc.
    - exists cy. split_and!; try done; [|by apply Hst]. unfold set_cycle. destruct j; cbn in *; by subst.
    - unfold time_before. destruct (Z.ltb_spec now (NextCycle (j_state j))); [lia|].
      eexists. split_and!; [done|cbn; lia|cbn; lia|apply Nat.le_0_l|done]. }
  rewrite Hb. change (cycle (set_cycle (Some cy) j)) with (Some cy). cbv iota. rewrite left_fuel.
  pose proof (attempts_due (S (left (retry_waits p) cy)) p (set_cycle (Some cy) j) c gws now w1 w Hm Hctx Hp Hl1) as Hd.
  pose proof (attempts_progress (left (retry_waits p) cy) p (set_cycle (Some cy) j) c gws now w1 cy eq_refl Hctx Hna Hr) as Hpr.
  rewrite En in Hd. cbn [fst] in Hd. specialize (Hd ltac:(lia) Hn1).
  change (cycle (set_cycle (Some cy) j)) with (Some cy) in Hd. specialize (Hd ltac:(split_and!; [done|lia|done|lia])).
  destruct (attempts _ _ _ _ _ _ w1) as [[p' j'] w']. destruct Hd as [_ Hd], Hpr as [Hpr1 Hpr2].
  exists j'. split; [cbn; by rewrite lookup_insert_eq|]. split; [done|].
  destruct (cycle j) as [cy0|]; [by subst cy0|]. intros [g Hg]%(candidates_cons c). subst cy.
  exists (Now w1).2, (request (new_cycle now j c gws) c g). split_and!; [|done|by apply Hpr1].
  eapply later_trans; [done|]. eapply later_now. constructor.
Qed.

(** ** The state of the poller *)

(** A reading has the time it was made; the structs are told apart. *)
Definition node_ok (st : nodeState) : Prop := is_Some (sample st) -> lastSuccess st <> time_zero.

Definition job_started (j : repeaterJob) : Prop := forall cy, cycle j = Some cy -> start cy <> time_zero.

Record poller_ok (p : Poller) : Prop := {
  ok_jobs : forall pk j, jobs p !! pk = Some j -> job_ok (retry_waits p) j /\ job_started j;
  ok_nodes : forall gw st, nodes p !! gw = Some st -> node_ok st;
  ok_reps : forall pk st, repeaters p !! pk = Some st -> node_ok st /\ pubkey st = pk /\ (ident st < next_ident p)%nat;
  ok_ident : forall pk pk' st st', repeaters p !! pk = Some st -> repeaters p !! pk' = Some st' ->
    ident st = ident st' -> pk = pk' }.

Definition clock_set : Prop := forall w, (Now w).1 <> time_zero.

(** A repeater's node is replaced by one that keeps the identity, or is new. *)
Lemma ok_set_repeater p p1 pk st st' :
  poller_ok p -> cfg p1 = cfg p -> jobs p1 = jobs p -> nodes p1 = nodes p -> repeaters p1 = repeaters p ->
  (repeaters p !! pk = Some st /\ next_ident p1 = next_ident p)
  \/ (ident st = next_ident p /\ next_ident p1 = S (next_ident p)) ->
  ident st' = ident st -> pubkey st' = pk -> node_ok st' ->
  poller_ok (set_repeaters (<[pk := st']> (repeaters p1)) p1).
Proof.
  intros [Hj Hn Hr Hi] Ec Ej En Er Hst Hid Hpk Hok. rewrite Er.
  assert (Hlt : (ident st < next_ident p1)%nat /\ (next_ident p <= next_ident p1)%nat).
  { destruct Hst as [[Hst ->]|[-> ->]]; [|lia]. destruct (Hr _ _ Hst) as (_ & _ & ?). lia. }
  assert (Hother : forall k s, repeaters p !! k = Some s -> k <> pk -> ident s <> ident st).
  { intros k s Hk Hne E. destruct Hst as [[Hst _]|[Hst _]].
    - apply Hne. eauto.
    - destruct (Hr _ _ Hk) as (_ & _ & ?). lia. }
  split; unfold set_repeaters, retry_waits in *; cbn; rewrite ?Ec, ?Ej, ?En; try done.
  - intros k s. rewrite lookup_insert_Some. intros [[<- <-]|[Hne Hk]]; [split_and!; [done|done|lia]|].
    destruct (Hr _ _ Hk) as (? & ? & ?). split_and!; [done|done|lia].
  - intros k k' s s'. rewrite !lookup_insert_Some. intros [[<- <-]|[Hne Hk]] [[<- <-]|[Hne' Hk']] E; try done.
    + exfalso. by apply (Hother _ _ Hk' (not_eq_sym Hne')); rewrite <-E.
    + exfalso. by apply (Hother _ _ Hk (not_eq_sym Hne)); rewrite E.
    + eauto.
Qed.

Lemma ok_set_jobs p m :
  poller_ok p -> (forall pk j, m !! pk = Some j -> job_ok (retry_waits p) j /\ job_started j) -> poller_ok (set_jobs m p).
Proof. intros [Hj Hn Hr Hi] Hm. by split. Qed.

Lemma repeater_outcome_ok cy c res o ns :
  start cy <> time_zero -> node_ok ns ->
  ident (repeater_outcome cy c res o ns) = ident ns /\ pubkey (repeater_outcome cy c res o ns) = pubkey ns
  /\ node_ok (repeater_outcome cy c res o ns).
Proof. intros Hs Hn. destruct o, res; cbn; split_and!; try done; by intros _. Qed.

Lemma endCycle_ok p j cy c res w : poller_ok p -> start cy <> time_zero -> poller_ok (endCycle p j cy c res w).1.1.
Proof.
  intros Hok Hs. unfold endCycle. destruct (Now w) as [now w1].
  destruct (verdict _ _ _ _ _ _ _) as [[[[o st] next] wk] w2].
  destruct (repeaters p !! Pubkey c) as [ns|] eqn:Hns; cbn [fst].
  - destruct (ok_reps _ Hok _ _ Hns) as (Hno & Hpk & _).
    destruct (repeater_outcome_ok cy c res o ns Hs Hno) as (? & ? & ?).
    eapply (ok_set_repeater p p _ ns); try done; [by left|congruence].
  - destruct (repeater_outcome_ok cy c res o (new_node (Pubkey c) p).1 Hs) as (? & ? & ?); [by intros []|].
    eapply (ok_set_repeater p (new_node (Pubkey c) p).2 _ (new_node (Pubkey c) p).1); try done. by right.
Qed.

Lemma advance_start ws cy new cy' : advance ws cy new (Some cy') -> start cy' = start cy.
Proof.
  intros Ha. remember (Some cy') as o eqn:Ho. destruct Ha; simplify_eq; try done; apply (answered_same gw e cy).
Qed.

Lemma step_poller_ok p j cy c gws w : poller_ok p -> start cy <> time_zero -> poller_ok (step p j cy c gws w).1.1.
Proof.
  intros Hok Hs. unfold step. destruct (Now w) as [t w1]. destruct (current_gateway cy) as [gw|].
  - cbn zeta. destruct (CheckRepeater _ w1) as [[e|res] w2]; [|by apply endCycle_ok].
    destruct (_ || _); [done|]. destruct (Is e ErrLoginFailed); [by apply endCycle_ok|].
    by destruct (if retries _ then _ else _).
  - destruct (may_fall_back _ _ _); [done|by apply endCycle_ok].
Qed.

Lemma attempts_ok fuel p j c gws now w :
  poller_ok p -> job_started j ->
  poller_ok (attempts fuel p j c gws now w).1.1 /\ job_started (attempts fuel p j c gws now w).1.2.
Proof.
  revert p j now w. induction fuel as [|fuel IH]; intros p j now w Hok Hj; [done|]. cbn [attempts].
  destruct (cycle j) as [cy|] eqn:Hc; [|done]. destruct (_ && _); [|done]. specialize (Hj _ Hc).
  pose proof (step_poller_ok p j cy c gws w Hok Hj) as H1. pose proof (step_advance p j cy c gws w) as Ha.
  destruct (step _ _ _ _ _ w) as [[p1 j1] w1]. cbn [fst snd] in H1, Ha. destruct (Now w1) as [now1 w2].
  apply IH; [done|]. intros cy1 Hc1. rewrite Hc1 in Ha. by rewrite (advance_start _ _ _ _ Ha).
Qed.

Lemma get_job_ok p c now :
  poller_ok p ->
  poller_ok (get_job p c now).2 /\ job_ok (retry_waits p) (get_job p c now).1 /\ job_started (get_job p c now).1
  /\ cfg (get_job p c now).2 = cfg p.
Proof.
  intros Hok. unfold get_job. destruct (jobs p !! Pubkey c) as [j|] eqn:Hj.
  { split; [done|]. destruct (ok_jobs _ Hok _ _ Hj). done. }
  cbn [fst snd]. split_and!; try done.
  - set (p1 := set_jobs _ p). assert (Hok1 : poller_ok p1).
    { apply ok_set_jobs; [done|]. intros pk j. rewrite lookup_insert_Some. intros [[<- <-]|[_ Hpk]]; [done|].
      by eapply ok_jobs. }
    unfold restore. destruct (LastAttemptAt c) as [t|]; [|done]. cbn [new_node ident]. destruct (repeaters _ !! _) eqn:Hr.
    + destruct Hok1 as [? ? Hr1 ?]. split; try done. intros k s Hk. destruct (Hr1 _ _ Hk) as (? & ? & ?). cbn in *.
      split_and!; [done|done|lia].
    + eapply (ok_set_repeater p1 (new_node (Pubkey c) p1).2 _ (new_node (Pubkey c) p1).1); try done; [by right|].
      unfold node_ok. cbn. unfold time_is_zero. destruct (default time_zero (LastOKAt c) =? 0) eqn:E; [|intros _; by apply Z.eqb_neq].
      rewrite andb_false_r. by intros [].
  - unfold restore. destruct (LastAttemptAt c); [|done]. cbn. by destruct (repeaters p !! _).
Qed.

Lemma tickRepeater_ok p c gws w :
  clock_set -> poller_ok p -> poller_ok (tickRepeater p c gws w).1 /\ cfg (tickRepeater p c gws w).1 = cfg p.
Proof.
  intros Hset Hok. unfold tickRepeater. pose proof (Hset w) as Hnz. destruct (Now w) as [now w1]. cbn [fst] in Hnz.
  destruct (get_job_ok p c now Hok) as (Hok1 & Hj & Hjs & Hcfg). destruct (get_job p c now) as [j p1]. cbn [fst snd] in *.
  destruct (unrefuse c now j) as [j1|] eqn:Hu; [|done].
  assert (Hc1 : cycle j1 = cycle j).
  { unfold unrefuse in Hu. destruct (RefusedAt (j_state j)); [|congruence]. destruct (negb _); [done|]. by injection Hu as <-. }
  assert (Hc2 : cycle (wake p1 c now j1 w1).1 = cycle j).
  { rewrite <-Hc1. unfold wake. destruct (_ && _); [|done]. by destruct (gridAlive _ _ _ _) as [[|[]] ?]. }
  destruct (wake p1 c now j1 w1) as [j2 w2]. cbn [fst] in Hc2.
  assert (Hw : retry_waits p1 = retry_waits p) by (unfold retry_waits; by rewrite Hcfg). rewrite <-Hw in Hj.
  assert (Hb : job_ok (retry_waits p1) (begin_cycle now c gws j2) /\ job_started (begin_cycle now c gws j2)).
  { unfold begin_cycle, job_ok, job_started in *. rewrite <-Hc2 in *. destruct (cycle j2) as [cy|] eqn:E; [by rewrite E|].
    destruct (time_before _ _); [by rewrite E|]. cbn. split; [apply Nat.le_0_l|]. by intros cy [= <-]. }
  set (j3 := begin_cycle now c gws j2) in *. set (fuel := match cycle j3 with Some cy => S (attempts_left p1 cy) | None => 0%nat end).
  destruct (attempts_loop fuel p1 j3 c gws now w2) as (_ & Hjo & Hcf); [apply Hb| |].
  { unfold fuel. destruct (cycle j3); [|done]. rewrite left_fuel. lia. }
  destruct (attempts_ok fuel p1 j3 c gws now w2 Hok1) as (Hok2 & Hjs2); [apply Hb|].
  destruct (attempts fuel p1 j3 c gws now w2) as [[p4 j4] w4]. cbn [fst snd] in *.
  split; [|cbn; congruence]. apply ok_set_jobs; [done|]. intros pk j0. rewrite lookup_insert_Some.
  intros [[<- <-]|[_ Hpk]]; [|by eapply ok_jobs]. split; [|done]. unfold retry_waits in *. by rewrite Hcf.
Qed.

Lemma tick_all_ok creds gws p w :
  clock_set -> poller_ok p ->
  poller_ok (tick_all creds gws p w).1.2 /\ cfg (tick_all creds gws p w).1.2 = cfg p.
Proof.
  intros Hset. revert p w. induction creds as [|c creds IH]; intros p w Hok; cbn [tick_all]; [done|].
  destruct (ctx_err w); [done|]. destruct (tickRepeater_ok p c gws w Hset Hok) as [H1 H2].
  destruct (tickRepeater p c gws w) as [p1 w1]. cbn [fst] in *. rewrite <-H2. by apply IH.
Qed.

Lemma RepeaterTick_ok p w : clock_set -> poller_ok p -> poller_ok (RepeaterTick p w).1.
Proof.
  intros Hset Hok. unfold RepeaterTick. destruct (RepeaterCredentials w) as [[|creds] w1]; [done|].
  destruct (Gateways w1) as [[|recs] w2]; [done|].
  destruct (tick_all_ok creds (g_Name <$> recs) p w2 Hset Hok) as [H1 _].
  destruct (tick_all creds _ p w2) as [[go p1] w3]. cbn [fst snd] in H1. destruct (negb go); [done|].
  destruct H1 as [Hj Hn Hr Hi]. split; cbn; try done.
  - intros pk j [Hk _]%map_lookup_filter_Some. by eapply Hj.
  - intros pk st [Hk _]%map_lookup_filter_Some. by eapply Hr.
  - intros pk pk' st st' [Hk _]%map_lookup_filter_Some [Hk' _]%map_lookup_filter_Some. by apply Hi.
Qed.

Lemma pollGateway_ok p gw key w : clock_set -> poller_ok p -> poller_ok (pollGateway p gw key w).1.
Proof.
  intros Hset Hok. unfold pollGateway. pose proof (Hset w) as Hnz. destruct (Now w) as [t w1]. cbn [fst] in Hnz.
  destruct (read gw key w1) as [[[nm s] o] w2].
  assert (Hgo : forall st, node_ok st -> node_ok (gateway_outcome t nm s o st)).
  { intros st Hst. unfold node_ok in *. by destruct o. }
  assert (Hset_nodes : forall p1 st, poller_ok p1 -> node_ok st -> poller_ok (set_nodes (<[gw := st]> (nodes p1)) p1)).
  { intros p1 st [Hj Hn Hr Hi] Hst. split; cbn; try done. intros k s1. rewrite lookup_insert_Some.
    intros [[_ <-]|[_ Hk]]; [done|by eapply Hn]. }
  assert (Hnew : poller_ok (new_node key p).2).
  { destruct Hok as [Hj Hn Hr Hi]. split; cbn; try done. intros pk st Hk. destruct (Hr _ _ Hk) as (? & ? & ?).
    split_and!; [done|done|lia]. }
  destruct (nodes p !! gw) as [st|] eqn:Hst; [destruct (String.eqb (pubkey st) key)|]; cbn [fst];
    apply Hset_nodes; try done; apply Hgo; try (by eapply ok_nodes); by intros [].
Qed.

Lemma commit_poller_ok p out : poller_ok p -> poller_ok (commit_adverts out p).
Proof.
  intros [Hj Hn Hr Hi].
  assert (Hm : forall st, ident (mark_sent out st) = ident st /\ pubkey (mark_sent out st) = pubkey st
    /\ (node_ok st -> node_ok (mark_sent out st))).
  { intros st. unfold mark_sent. by destruct (list_find _ out) as [[? [? ?]]|]. }
  split; cbn; try done.
  - intros pk st. rewrite lookup_fmap_Some. intros (s1 & <- & Hk). destruct (Hm s1) as (-> & -> & Ho).
    destruct (Hr _ _ Hk) as (? & ? & ?). auto.
  - intros pk pk' st st'. rewrite !lookup_fmap_Some. intros (s1 & <- & Hk) (s2 & <- & Hk').
    destruct (Hm s1) as (-> & _), (Hm s2) as (-> & _). by eapply Hi.
Qed.

(** What the two goroutines of the poller make of it: ticks, polls of gateways,
    and the second half of [pushAdverts] with what its first half collected. *)
Inductive reachable (c : Config) : Poller -> Prop :=
  | reach_new : reachable c (New c)
  | reach_poll p gw key w : reachable c p -> reachable c (pollGateway p gw key w).1
  | reach_forget p gw : reachable c p -> reachable c (forget p gw)
  | reach_tick p w : reachable c p -> reachable c (RepeaterTick p w).1
  | reach_commit p out : reachable c p -> reachable c (commit_adverts out p).

Lemma reachable_ok c p : clock_set -> reachable c p -> poller_ok p.
Proof.
  intros Hset. induction 1 as [|p gw key w _ IH|p gw _ IH|p w _ IH|p out _ IH].
  - by split.
  - by apply pollGateway_ok.
  - destruct IH as [Hj Hn Hr Hi]. split; try done. cbn. intros k st. rewrite lookup_delete_Some. intros [_ ?]. by eapply Hn.
  - by apply RepeaterTick_ok.
  - by apply commit_poller_ok.
Qed.

Lemma poll_gateways_reachable c recs gws p w : reachable c p -> reachable c (poll_gateways recs gws p w).1.2.
Proof.
  revert p w. induction gws as [|gw gws IH]; intros p w Hp; cbn [poll_gateways]; [done|].
  destruct (ctx_err w); [done|]. destruct (String.eqb _ ""); [apply IH; by constructor|].
  pose proof (reach_poll c p gw (pinned recs gw) w Hp) as H1. destruct (pollGateway _ _ _ w) as [p1 w1]. by apply IH.
Qed.

(** A cycle over the gateways is made of those steps. *)
Lemma Cycle_reachable c between p w :
  (forall p, reachable c p -> reachable c (between p)) -> reachable c p -> reachable c (Cycle between p w).1.
Proof.
  intros Hb Hp. unfold Cycle. destruct (Gateways w) as [[|recs] w1]; [done|].
  pose proof (poll_gateways_reachable c recs (f_Gateways (cfg p)) p w1 Hp) as H1.
  destruct (poll_gateways _ _ _ w1) as [[go p1] w2]. cbn [fst snd] in H1. destruct (_ || _); [done|].
  unfold pushAdverts. destruct (pending_adverts p1) as [|o out]; [done|]. cbn zeta. destruct (Now _) as [now w3].
  destruct (post p1 _ w3) as [[] w4]; [apply reach_commit|]; by apply Hb.
Qed.

(** ** A tick ends *)

(** [tickRepeater] with the loop of the code. *)
Inductive tick_run (p : Poller) (c : RepeaterCredential) (gws : list string) (w : W) : Poller * W -> Prop :=
  | tick_refused now w1 j p1 :
      Now w = (now, w1) -> get_job p c now = (j, p1) -> unrefuse c now j = None -> tick_run p c gws w (p1, w1)
  | tick_works now w1 j p1 j1 j2 w2 p3 j3 w3 :
      Now w = (now, w1) -> get_job p c now = (j, p1) -> unrefuse c now j = Some j1 ->
      wake p1 c now j1 w1 = (j2, w2) -> loop p1 (begin_cycle now c gws j2) c gws now w2 (p3, j3, w3) ->
      tick_run p c gws w (set_jobs (<[Pubkey c := j3]> (jobs p3)) p3, w3).

Lemma unrefuse_cycle c now j j' : unrefuse c now j = Some j' -> cycle j' = cycle j.
Proof.
  unfold unrefuse. destruct (RefusedAt (j_state j)); [|congruence]. destruct (negb _); [done|]. by intros [= <-].
Qed.

Lemma wake_cycle p c now j w : cycle (wake p c now j w).1 = cycle j.
Proof. unfold wake. destruct (_ && _); [|done]. by destruct (gridAlive _ _ _ _) as [[|[]] ?]. Qed.

Lemma begin_job_ok ws now c gws j : job_ok ws j -> job_ok ws (begin_cycle now c gws j).
Proof.
  unfold begin_cycle, job_ok. destruct (cycle j) as [cy|] eqn:E; [by rewrite E|].
  destruct (time_before _ _); [by rewrite E|]. intros _. apply Nat.le_0_l.
Qed.

(** Every tick over a shared repeater ends, in any state the poller reaches and
    whatever the relay and the Grid answer: the loop that makes its attempts runs
    to its exit. *)
Theorem tick_terminates (f : Config) (p : Poller) (c : RepeaterCredential) (gws : list string) (w : W) :
  clock_set -> reachable f p -> tick_run p c gws w (tickRepeater p c gws w).
Proof.
  intros Hset Hp. pose proof (reachable_ok _ _ Hset Hp) as Hok. unfold tickRepeater. destruct (Now w) as [now w1] eqn:En.
  destruct (get_job_ok p c now Hok) as (_ & Hj & _ & Hcfg). destruct (get_job p c now) as [j p1] eqn:Hgj. cbn [fst snd] in *.
  destruct (unrefuse c now j) as [j1|] eqn:Hu; [|by eapply tick_refused].
  pose proof (wake_cycle p1 c now j1 w1) as Hc. rewrite (unrefuse_cycle _ _ _ _ Hu) in Hc.
  destruct (wake p1 c now j1 w1) as [j2 w2] eqn:Hwk. cbn [fst] in Hc.
  assert (Hw : retry_waits p1 = retry_waits p) by (unfold retry_waits; by rewrite Hcfg). rewrite <-Hw in Hj.
  assert (Hb : job_ok (retry_waits p1) (begin_cycle now c gws j2)) by (apply begin_job_ok; unfold job_ok in *; by rewrite Hc).
  set (j3 := begin_cycle now c gws j2) in *. set (fuel := match cycle j3 with Some cy => S (attempts_left p1 cy) | None => 0%nat end).
  destruct (attempts_loop fuel p1 j3 c gws now w2) as (Hl & _); [done| |].
  { unfold fuel. destruct (cycle j3); [|done]. rewrite left_fuel. lia. }
  destruct (attempts fuel p1 j3 c gws now w2) as [[p4 j4] w4]. by eapply tick_works.
Qed.

(** ** The report *)

Lemma by_key_perm {A} (m : gmap string A) : by_key m ≡ₚ (map_to_list m).*2.
Proof.
  unfold by_key. rewrite (omap_Permutation _ _ _ (sort_strings_perm _)).
  assert (H1 : forall l, (forall k a, (k, a) ∈ l -> m !! k = Some a) -> omap (fun k => m !! k) l.*1 = l.*2).
  { intros l. induction l as [|[k a] l IH]; intros Hl; [done|]. cbn. rewrite (Hl k a) by left. f_equal.
    apply IH. intros k' a' Hin. apply Hl. by right. }
  rewrite H1; [done|]. intros k a Hin. by apply elem_of_map_to_list.
Qed.

Lemma elem_of_by_key {A} (m : gmap string A) a : a ∈ by_key m <-> exists k, m !! k = Some a.
Proof.
  rewrite by_key_perm, list_elem_of_fmap. split.
  - intros ([k a'] & -> & Hin%elem_of_map_to_list). eauto.
  - intros [k Hk]. exists (k, a). by rewrite elem_of_map_to_list.
Qed.

Definition attempted (st : nodeState) : Prop := time_is_zero (lastAttempt st) = false.

(** The report is the complete set: one entry for each gateway node and each
    shared repeater that was ever tried, and none for one that only ever was busy
    or paused. Every entry says when it was tried, and an entry with readings says
    when they were made: a node never reached carries none. *)
Theorem report_complete (f : Config) (p : Poller) :
  clock_set -> reachable f p ->
  report_entries p ≡ₚ entry <$> filter attempted ((map_to_list (nodes p)).*2 ++ (map_to_list (repeaters p)).*2)
  /\ Forall (fun e => is_Some (LastAttempt e) /\ (readings e <> no_sample -> is_Some (LastSuccess e))) (report_entries p).
Proof.
  intros Hset Hp. pose proof (reachable_ok _ _ Hset Hp) as [_ Hn Hr _]. unfold report_entries. split.
  - by rewrite !by_key_perm.
  - rewrite Forall_fmap, Forall_forall. intros st [Ha Hin]%list_elem_of_filter.
    assert (Hok : node_ok st).
    { apply elem_of_app in Hin as [[k Hk]%elem_of_by_key|[k Hk]%elem_of_by_key]; [by eapply Hn|by eapply Hr]. }
    unfold entry. cbn. unfold unix. rewrite Ha. split; [done|]. intros Hs.
    unfold node_ok in Hok. destruct (sample st); [|done]. specialize (Hok ltac:(done)).
    unfold time_is_zero. destruct (Z.eqb_spec (lastSuccess st) 0); done.
Qed.

(** ** Forwarded adverts *)

Lemma pending_adverts_elem p id raw :
  (id, raw) ∈ pending_adverts p <->
  exists pk st, repeaters p !! pk = Some st /\ id = ident st /\ raw = advert st /\ pending_advert st = true.
Proof.
  unfold pending_adverts. rewrite list_elem_of_fmap. split.
  - intros (st & [= -> ->] & [Hpe Hin]%list_elem_of_filter). apply list_elem_of_fmap in Hin as ([k s1] & -> & Hk%elem_of_map_to_list).
    by exists k, s1.
  - intros (pk & st & Hk & -> & -> & Hpe). exists st. split; [done|]. apply list_elem_of_filter. split; [done|].
    apply list_elem_of_fmap. exists (pk, st). split; [done|]. by apply elem_of_map_to_list.
Qed.

Lemma pending_unique p id raw raw' :
  poller_ok p -> (id, raw) ∈ pending_adverts p -> (id, raw') ∈ pending_adverts p -> raw = raw'.
Proof.
  intros Hok (pk & st & Hk & -> & -> & _)%pending_adverts_elem (pk' & st' & Hk' & E & -> & _)%pending_adverts_elem.
  pose proof (ok_ident _ Hok _ _ _ _ Hk Hk' E). congruence.
Qed.

Lemma mark_sent_find out id raw st :
  (forall raw', (id, raw') ∈ out -> raw' = raw) -> (id, raw) ∈ out -> ident st = id -> advertSent (mark_sent out st) = raw.
Proof.
  intros Hu Hin Hid. unfold mark_sent. destruct (list_find _ out) as [[i [id' raw']]|] eqn:E.
  - apply list_find_Some in E as (Hi & Hx & _). cbn in Hx. subst id' id. apply list_elem_of_lookup_2 in Hi. by apply Hu.
  - apply list_find_None in E. rewrite Forall_forall in E. by destruct (E _ Hin).
Qed.

(** Forwarding adverts. Each packet posted is a repeater's advert that differs
    from the one the Grid accepted last; and once the Grid has accepted the
    report, no advert it carried is pending again, whatever the schedule made of
    the repeaters between taking the adverts and marking them. *)
Theorem adverts_once (f : Config) (between : Poller -> Poller) (p : Poller) (w : W) :
  clock_set -> reachable f p ->
  (forall id raw, (id, raw) ∈ pending_adverts p -> exists pk st, repeaters p !! pk = Some st /\ raw = advert st
     /\ advert st <> advertSent st /\ payload_type (byte_at raw 0) = payloadAdvert)
  /\ ((post p (MeshPacket (Now w).1 ((fun o => mkPacket payloadAdvert (EncodeToString o.2)) <$> pending_adverts p)) (Now w).2).1 = true ->
      forall id raw, (id, raw) ∈ pending_adverts p -> (id, raw) ∉ pending_adverts (pushAdverts between p w).1).
Proof.
  intros Hset Hp. pose proof (reachable_ok _ _ Hset Hp) as Hok. split.
  - intros id raw (pk & st & Hk & -> & -> & Hpe)%pending_adverts_elem. exists pk, st. split_and!; [done|done| |].
    + unfold pending_advert in Hpe. apply andb_true_iff in Hpe as [_ Hne%negb_true_iff%bool_decide_eq_false]. done.
    + unfold pending_advert in Hpe. apply andb_true_iff in Hpe as [Hpe _]. apply andb_true_iff in Hpe as [_ Ht%N.eqb_eq]. done.
  - intros Hpost id raw Hin. unfold pushAdverts.
    pose proof (pending_unique p id raw) as Huniq. set (out := pending_adverts p) in *.
    assert (Hout : out <> []) by (intros E; rewrite E in Hin; by apply not_elem_of_nil in Hin).
    destruct out as [|o out'] eqn:Eo; [done|]. rewrite <-Eo in *. destruct (Now w) as [now w1]. cbn [fst snd] in Hpost.
    destruct (post p _ w1) as [ok w2]. cbn [fst] in *. subst ok. cbn [fst].
    intros (pk & st & Hk & -> & -> & Hpe)%pending_adverts_elem. cbn in Hk.
    apply lookup_fmap_Some in Hk as (s1 & <- & Hk).
    assert (Hid : ident (mark_sent out s1) = ident s1 /\ advert (mark_sent out s1) = advert s1).
    { unfold mark_sent. by destruct (list_find _ _) as [[? [? ?]]|]. }
    destruct Hid as [Hid Had]. unfold pending_advert in Hpe. apply andb_true_iff in Hpe as [_ Hne%negb_true_iff%bool_decide_eq_false].
    apply Hne. symmetry. eapply mark_sent_find; [|exact Hin|done]. intros raw' Hin'. symmetry. by eapply Huniq.
Qed.

(** ** What a cycle leaves *)

(** The repeater's node before the cycle; a new one has no readings. *)
Definition node_before (p : Poller) (pk : string) : nodeState :=
  match repeaters p !! pk with Some ns => ns | None => (new_node pk p).1 end.

Definition refused (cy : repeaterCycle) : bool :=
  match lastErr cy with Some e => Is e ErrLoginFailed | None => false end.

Lemma endCycle_eq p j cy c res w :
  let '(now, w1) := Now w in
  let '(o, st, next, wk, w2) := verdict p j cy c res now w1 in
  let '(p', j', w') := endCycle p j cy c res w in
  j' = mkJob (j_pubkey j) (set_NextCycle next st) None wk
  /\ repeaters p' !! Pubkey c = Some (repeater_outcome cy c res o (node_before p (Pubkey c)))
  /\ exists w3, w3 = SetRepeaterPollState (Pubkey c) (set_NextCycle next st) w2 /\ later w3 w'.
Proof.
  unfold endCycle, node_before. destruct (Now w) as [now w1]. destruct (verdict _ _ _ _ _ _ _) as [[[[o st] next] wk] w2].
  assert (Hl : forall w0, later w0 (if negb (bool_decide (o = outcomeSkipped)) ||
      match lastErr cy with Some e => Is e ErrNotKnown | None => false end
    then RecordRepeaterPoll (Pubkey c) (via cy) (lastErr cy) w0 else w0)).
  { intros w0. destruct (_ || _); [eapply later_record|]; constructor. }
  destruct (repeaters p !! Pubkey c); cbn; rewrite lookup_insert_eq; eauto.
Qed.

(** What an ended cycle leaves of a repeater. A reading resets the missed cycles
    and hibernation and makes its gateway the primary. A refused password is
    noted and changes nothing else of the schedule. A cycle that was on the air
    unanswered counts as missed, and the repeater hibernates after it exactly when
    it already did or has now missed [HibernateAfter] cycles, and the Grid answers
    that nothing else heard it; only then is the next cycle a day off. A cycle in
    which no gateway could try changes only when the next one is. Readings are
    replaced only by readings. *)
Theorem cycle_contract (p : Poller) (j : repeaterJob) (cy : repeaterCycle) (c : RepeaterCredential)
    (res : option RepeaterCheck) (w : W) :
  let '(now, w1) := Now w in
  let silent := (gridAlive p (Pubkey c) (hibernateWindow p) w1).1 = inr false in
  let '(p', j', _) := endCycle p j cy c res w in
  let st := j_state j in
  let st' := j_state j' in
  exists ns, repeaters p' !! Pubkey c = Some ns /\ cycle j' = None
    /\ match res with
       | Some r =>
           FailedCycles st' = 0 /\ HibernatingSince st' = None /\ Primary st' = via cy
           /\ sample ns = Some (sampleFromCheck r) /\ lastSuccess ns = start cy /\ lastAttempt ns = start cy
       | None =>
           sample ns = sample (node_before p (Pubkey c)) /\ lastSuccess ns = lastSuccess (node_before p (Pubkey c))
           /\ Primary st' = Primary st /\ Reading st' = Reading st
           /\ if refused cy then
                RefusedAt st' = Some now /\ FailedCycles st' = FailedCycles st
                /\ HibernatingSince st' = HibernatingSince st /\ lastAttempt ns = start cy
              else if sent cy then
                FailedCycles st' = FailedCycles st + 1 /\ lastAttempt ns = start cy
                /\ (is_Some (HibernatingSince st') <->
                    (is_Some (HibernatingSince st) \/ HibernateAfter (cfg p) <= FailedCycles st + 1) /\ silent)
                /\ (is_Some (HibernatingSince st') -> NextCycle st' = now + HibernateInterval (cfg p))
              else st' = set_NextCycle (NextCycle st') st /\ lastAttempt ns = lastAttempt (node_before p (Pubkey c))
       end.
Proof.
  pose proof (endCycle_eq p j cy c res w) as He. destruct (Now w) as [now w1].
  destruct (verdict p j cy c res now w1) as [[[[o st] next] wk] w2] eqn:Hv.
  destruct (endCycle p j cy c res w) as [[p' j'] w']. destruct He as (-> & Hns & _).
  eexists. split; [exact Hns|]. split; [done|]. unfold verdict in Hv.
  destruct res as [r|]; [by injection Hv as <- <- _ _ _|].
  fold (refused cy) in Hv. destruct (refused cy); [by injection Hv as <- <- _ _ _|].
  destruct (sent cy); [|injection Hv as <- <- _ _ _; by destruct (j_state j)].
  destruct (bool_decide _ || _) eqn:Hh.
  - apply orb_true_iff in Hh. rewrite bool_decide_eq_true, Z.leb_le in Hh.
    destruct (gridAlive p _ _ w1) as [a w3]. cbn [fst] in *. cbn zeta in Hv.
    destruct a as [u|[]]; cbn in Hv.
    + injection Hv as <- <- _ _ _. cbn. do 6 (split; [done|]).
      split; [split; [by intros []|by intros [_ ?]]|by intros []].
    + injection Hv as <- <- _ _ _. cbn. do 6 (split; [done|]).
      split; [split; [by intros []|by intros [_ ?]]|by intros []].
    + destruct (HibernatingSince (j_state j)) as [t|]; injection Hv as <- <- <- _ _; cbn; (do 6 (split; [done|])); split; [by split; [split; [auto|]|eauto]| done | by split; [split; [auto|]|eauto] | done].
  - injection Hv as <- <- _ _ _. cbn. apply orb_false_iff in Hh as [Hh1%bool_decide_eq_false Hh2%Z.leb_gt].
    do 6 (split; [done|]). split; [split; [by intros []|]|by intros []]. intros [[?|?] _]; [done|lia].
Qed.

(** A restart keeps a repeater's schedule and its reading. The state a cycle
    that read the repeater leaves is handed to the relay; a new poller that finds
    it with the credential, with the relay's note of a success, resumes the same
    schedule and reports the same reading as good, before it has polled anything;
    the JSON the relay kept is that of the reading. *)
Theorem restart_resumes (p : Poller) (j : repeaterJob) (cy : repeaterCycle) (c c2 : RepeaterCredential)
    (r : RepeaterCheck) (w : W) (f : Config) (later_on : Time) :
  (exists b, marshal_sample (sampleFromCheck r) = Some b /\ b <> "" /\ unmarshal_sample b = Some (sampleFromCheck r)) ->
  clock_monotone -> positive_config p -> start cy <= (Now w).1 -> 0 <= (Now w).1 ->
  let '(p', j', w') := endCycle p j cy c (Some r) w in
  Pubkey c2 = Pubkey c -> Poll c2 = j_state j' -> is_Some (LastAttemptAt c2) ->
  (exists t, LastOKAt c2 = Some t /\ t <> time_zero) -> LastError c2 = "" ->
  (exists w1, later w w1 /\ later (SetRepeaterPollState (Pubkey c) (j_state j') w1) w')
  /\ j_state (get_job (New f) c2 later_on).1 = j_state j'
  /\ exists before after, repeaters p' !! Pubkey c = Some before
       /\ repeaters (get_job (New f) c2 later_on).2 !! Pubkey c = Some after
       /\ sample before = Some (sampleFromCheck r) /\ sample after = sample before /\ outcome after = outcome before.
Proof.
  intros (b & Hb & Hne & Hun) Hm Hp Hs H0.
  pose proof (endCycle_due p j cy c (Some r) w Hm Hp Hs) as Hd. pose proof (endCycle_eq p j cy c (Some r) w) as He.
  destruct (Now w) as [now w1] eqn:En. cbn [fst] in *. cbn [verdict] in He.
  destruct (endCycle p j cy c (Some r) w) as [[p' j'] w']. destruct He as (-> & Hns & w3 & -> & Hl). destruct Hd as [_ Hd].
  intros Hpk Hpo [t Ht] (t2 & Ht2 & Hnz) Herr. split; [eexists; split; [by eapply now_later|exact Hl]|].
  cbn [j_state NextCycle set_NextCycle] in Hd, Hpo.
  match type of Hd with _ < ?x <= _ => set (next := x) in *; clearbody next end.
  assert (Hstate : j_state (get_job (New f) c2 later_on).1 = Poll c2).
  { unfold get_job. cbn [New jobs]. rewrite lookup_empty. cbn [fst new_job j_state]. rewrite Hpo. unfold time_is_zero.
    cbn [NextCycle set_NextCycle]. destruct (Z.eqb_spec next 0); [lia|done]. }
  split; [by rewrite Hstate, Hpo|]. eexists _, _. split; [exact Hns|]. unfold get_job. cbn [New jobs].
  rewrite lookup_empty. cbn [snd]. unfold restore. rewrite Ht. cbn [new_node set_jobs New repeaters].
  rewrite lookup_empty, Hpk, Ht2, Herr, Hpo. cbn. rewrite lookup_insert_eq. split; [done|]. split; [done|].
  rewrite Hb. cbn. split; [|done]. destruct b as [|a b]; [done|]. cbn. unfold time_is_zero.
  destruct (Z.eqb_spec t2 0); [done|]. cbn. by rewrite Hun.
Qed.

End Attempts.

(** ** A relay with a script *)

Module RelayPollDemo.

(** The relay answers checks from a list; the clock moves a second per reading. *)
Record World := mkWorld { ticks : nat; replies : list (Error + RepeaterCheck); grid : GridAnswer }.

Definition cred (st : RepeaterPollState) : RepeaterCredential :=
  mkCredential "ab12" "Ridge" "pw" 5 "g1" "g2" None None "" st.
Definition fresh : RepeaterPollState := mkPollState 0 None 0 None "" "".
Definition gws : list string := ["g1"; "g2"; "g3"; "g4"].

#[export] Instance demo_relay : Relay World := {|
  Now w := ((Z.of_nat (ticks w) + 1) * second, mkWorld (S (ticks w)) (replies w) (grid w));
  ctx_err _ := false;
  Gateways w := (inr ((fun g => mkGatewayRecord g "") <$> gws), w);
  RepeaterCredentials w := (inr [cred (mkPollState 1 None 0 None "" "")], w);
  CheckRepeater _ w := (match replies w with r :: _ => r | [] => inl [ErrNotKnown] end, mkWorld (ticks w) (tail (replies w)) (grid w));
  RecordRepeaterPoll _ _ _ w := w;
  SetRepeaterPollState _ _ w := w;
  get_event _ _ w := (grid w, w);
  post_stream _ _ _ _ w := (Some 202, w);
  Acquire _ w := (Some [ErrBusy], w);
  converse _ w := (fun _ => mkTurn None [] false None, None, w) |}.

(** The encoding knows one sample. *)
Definition uptime7 : Sample :=
  mkSample None (Some 7) None None None None None None None None None None None None None None None None.
#[export] Instance demo_names : RelayNames := {|
  ReasonPreempted := "preempted"; ReasonHostPaused := "host_paused"; NodePaused := "paused"; ReasonShutdown := "shutdown";
  ReasonRevoked := "revoked";
  marshal_sample _ := Some "7";
  unmarshal_sample b := if String.eqb b "7" then Some uptime7 else None |}.

Lemma demo_ticks (w w' : World) : later w w' -> (ticks w <= ticks w')%nat.
Proof. induction 1 as [|w w' _ IH|w w' r _ IH|w w' u i _ IH|w w' pk g e _ IH|w w' pk st _ IH]; cbn in *; lia. Qed.

Lemma demo_clock : clock_monotone (W := World).
Proof. intros w w' H%demo_ticks. change ((Z.of_nat (ticks w) + 1) * second <= (Z.of_nat (ticks w') + 1) * second). unfold second. lia. Qed.

Lemma demo_set : clock_set (W := World).
Proof. intros w. cbn. unfold second, time_zero. lia. Qed.

(** The gateways answer the retry that follows a silence as busy. *)
Definition silent_busy : list (Error + RepeaterCheck) :=
  concat (repeat [inl [ErrNoMeshReply]; inl [ErrBusy]] 4).
Definition config : Config :=
  cfg (New (mkConfig [] 0 0 "https://grid/" "token" 0 (Some [30 * second]) 0 0 0 "")).

Fixpoint run (n : nat) (p : Poller) (j : repeaterJob) (cy : repeaterCycle) (c : RepeaterCredential) (w : World)
    (log : list Check) : list Check * option repeaterCycle :=
  match n with
  | O => (log, Some cy)
  | S n =>
      let '(p1, j1, w1) := step p j cy c gws w in
      let log := log ++ asked cy c w in
      match cycle j1 with Some cy1 => run n p1 j1 cy1 c w1 log | None => (log, None) end
  end.

Lemma run_during n cy0 p j cy c w log :
  during (retry_waits p) cy0 log (Some cy) ->
  during (retry_waits p) cy0 (run n p j cy c w log).1 (run n p j cy c w log).2.
Proof.
  revert p j cy w log. induction n as [|n IH]; intros p j cy w log Hd; [done|]. cbn [run].
  pose proof (step_cfg p j cy c gws w) as Hc.
  pose proof (during_step (retry_waits p) cy0 log cy p j c gws w Hd eq_refl) as Hs.
  destruct (step p j cy c gws w) as [[p1 j1] w1]. cbn [fst snd] in Hc, Hs.
  assert (Hw : retry_waits p1 = retry_waits p) by (unfold retry_waits; by rewrite Hc).
  destruct (cycle j1) as [cy1|]; [|done]. rewrite <-Hw in *. by apply IH.
Qed.

Abbreviation start0 := (mkJob "ab12" fresh None 0).
Abbreviation silent_run := (run 9 (New config) start0 (new_cycle second start0 (cred fresh) gws) (cred fresh)
  (mkWorld 0 silent_busy NoAnswer) []).

Lemma airtime_witness :
  length (on_air silent_run.1) = 4%nat /\ silent_run.2 = None
  /\ (forall g, (on_air_at g silent_run.1 <= 2)%nat) /\ flood_rule silent_run.1.
Proof.
  split; [vm_compute; reflexivity|]. split; [vm_compute; reflexivity|].
  destruct (airtime [30 * second] second start0 (cred fresh) gws silent_run.1 silent_run.2) as (H1 & _ & _ & H4).
  - apply (run_during 9 (new_cycle second start0 (cred fresh) gws) (New config)). constructor.
  - split; [exact H1|exact H4].
Defined.

(** Only two of the four gateways may be on the air by the comment's bound: the
    count leaves out a gateway that was on the air once and busy when retried. *)
Lemma gateways_beyond_bound :
  exists log, during [30 * second] (new_cycle second start0 (cred fresh) gws) log None
    /\ (maxMeshTries < length (remove_dups (r_Gateway ∘ fst <$> on_air log)))%nat.
Proof.
  exists silent_run.1. split; [|vm_compute; lia].
  assert (E : silent_run.2 = None) by by vm_compute.
  pose proof (run_during 9 (new_cycle second start0 (cred fresh) gws) (New config) start0 _ (cred fresh)
    (mkWorld 0 silent_busy NoAnswer) [] (during_start _ _)) as H1.
  rewrite E in H1. exact H1.
Qed.

Abbreviation p0 := (New config).
Abbreviation w0 := (mkWorld 0 [] NoAnswer).
Abbreviation p_tried := (tickRepeater p0 (cred fresh) gws w0).1.
Definition uptime_check : RepeaterCheck :=
  mkCheck "Ridge 1" (demo_bytes [17; 0; 7]%N)
    (Some (mkStatus None (Some 7) None None None None None None None None None None None None None None None)) None.

Lemma tick_terminates_witness : tick_run p0 (cred fresh) gws w0 (tickRepeater p0 (cred fresh) gws w0).
Proof. apply (tick_terminates config p0); [apply demo_set|apply reach_new]. Defined.

(** A job whose cycle is due: the tick asks the four gateways. *)
Abbreviation due_job := (mkJob "ab12" (mkPollState 1 None 0 None "" "") None 0).
Abbreviation p_due := (set_jobs {["ab12" := due_job]} p0).
Lemma keeps_polling_witness :
  let '(p', w') := tickRepeater p_due (cred fresh) gws w0 in
  exists j', jobs p' !! "ab12" = Some j' /\ (Now w0).1 < due j' <= (Now w').1 + longest p_due
    /\ (gws <> [] -> exists w1 req, later w0 w1 /\ r_Pubkey req = "ab12" /\ later (CheckRepeater req w1).2 w').
Proof.
  apply (keeps_polling p_due (cred fresh) gws w0 due_job).
  - apply demo_clock.
  - done.
  - by vm_compute.
  - vm_compute. reflexivity.
  - exact I.
  - reflexivity.
  - intros cy [=].
  - vm_compute. discriminate.
Defined.

(** A tick that reads the repeater, and what it leaves. *)
Abbreviation w_read := (mkWorld 0 [inr uptime_check] NoAnswer).
Abbreviation p_read := (RepeaterTick p0 w_read).1.

Lemma read_reachable : reachable config p_read.
Proof. apply reach_tick, reach_new. Qed.

Lemma report_complete_witness :
  (e_Name <$> report_entries p_read) = ["Ridge 1"]
  /\ Forall (fun e => readings e <> no_sample -> is_Some (LastSuccess e)) (report_entries p_read).
Proof.
  split; [vm_compute; reflexivity|].
  destruct (report_complete config p_read demo_set read_reachable) as [_ H1].
  eapply Forall_impl; [exact H1|]. intros e [_ He]. exact He.
Defined.

(** The advert read with it goes out once. *)
Lemma adverts_once_witness :
  pending_adverts p_read = [(0%nat, demo_bytes [17; 0; 7]%N)]
  /\ (0%nat, demo_bytes [17; 0; 7]%N) ∉ pending_adverts (pushAdverts (fun p => p) p_read w0).1.
Proof.
  assert (E : pending_adverts p_read = [(0%nat, demo_bytes [17; 0; 7]%N)]) by (vm_compute; reflexivity).
  split; [exact E|]. destruct (adverts_once config (fun p => p) p_read w0 demo_set read_reachable) as [_ H1].
  apply H1; [vm_compute; reflexivity|]. rewrite E. by left.
Defined.

(** The saved state of that cycle, found by the next process. *)
Abbreviation cycle0 := (new_cycle second start0 (cred fresh) gws).
Abbreviation ended := (endCycle p0 start0 cycle0 (cred fresh) (Some uptime_check) w0).
Abbreviation kept := (mkCredential "ab12" "Ridge" "pw" 5 "g1" "g2" (Some 9) (Some 9) "" (j_state ended.1.2)).
Lemma restart_resumes_witness :
  j_state (get_job p0 kept (hour)).1 = j_state ended.1.2
  /\ (sample <$> repeaters (get_job p0 kept (hour)).2 !! "ab12") = Some (Some uptime7).
Proof.
  pose proof (restart_resumes p0 start0 cycle0 (cred fresh) kept uptime_check w0 config hour) as H1.
  destruct ended as [[p' j'] w'] eqn:E. cbn [fst snd] in *.
  destruct H1 as (_ & H1 & before & after & _ & Ha & Hb & Hc & _); try done.
  - by exists "7".
  - apply demo_clock.
  - exists 9. split; [reflexivity|discriminate].
  - split; [exact H1|]. cbn [Pubkey cred] in Ha. rewrite Ha. cbn. by rewrite Hc, Hb.
Defined.

End RelayPollDemo.
End RelayPollSpec.
