(* ===== verification/Severity.v ===== *)
(** * The unified severity scale

    [internal/hazards/severity.go] and [severity_export.go]: how each feed's own
    grading maps onto INFO .. EXTREME, and how the free text of an evacuation
    status is read. The exported functions are wrappers; the definitions carry
    their names where a normalizer calls them. *)

From Stdlib Require Import Ascii.
From S2P Require Import Prelude Float64 GoText.

Module Severity.
Import F64 Text.

Definition SevInfo : string := "INFO".
Definition SevMinor : string := "MINOR".
Definition SevModerate : string := "MODERATE".
Definition SevSevere : string := "SEVERE".
Definition SevExtreme : string := "EXTREME".

Definition severityRank (s : string) : Z :=
  if String.eqb s SevExtreme then 4
  else if String.eqb s SevSevere then 3
  else if String.eqb s SevModerate then 2
  else if String.eqb s SevMinor then 1
  else 0.

Inductive AlertSeverity := ALERT_SEVERITY_UNSPECIFIED | AS_INFO | AS_WARNING | AS_CRITICAL.

Definition fromAlertSeverity (s : AlertSeverity) : string :=
  match s with
  | AS_CRITICAL => SevSevere
  | AS_WARNING => SevModerate
  | AS_INFO => SevMinor
  | ALERT_SEVERITY_UNSPECIFIED => SevInfo
  end.

Definition fromNWSSeverity (s : string) : string :=
  if String.eqb s "Extreme" then SevExtreme
  else if String.eqb s "Severe" then SevSevere
  else if String.eqb s "Moderate" then SevModerate
  else if String.eqb s "Minor" then SevMinor
  else SevInfo.

Definition isDigits (s : string) : bool := all_bytes is_digit s && negb (String.eqb s "").

(** [closedLanes]: travel lanes, whether the list says All, other entries. *)
Definition closedLanes (list : string) : nat * bool * nat :=
  foldl (fun '(travel, all, other) tok =>
    let tok := TrimSpace tok in
    if String.eqb tok "" then (travel, all, other)
    else if EqualFold tok "all" then (travel, true, other)
    else if isDigits tok then (S travel, all, other)
    else (travel, all, S other)) (0%nat, false, 0%nat) (Split list ","%char).

(** ** Wildfires, outages and earthquakes *)

Definition containmentSeverity (percentContained : Z) : string :=
  if 100 <=? percentContained then SevMinor
  else if percentContained <? 50 then SevSevere
  else SevModerate.

Definition sizeSeverity (acres : float64) (percentContained : Z) : string :=
  if 100 <=? percentContained then SevInfo
  else if leb (of_Z 1000) acres then if percentContained <? 50 then SevExtreme else SevSevere
  else if leb (of_Z 100) acres then SevSevere
  else SevInfo.

Definition fromWildfire (acres : float64) (percentContained : Z) : string :=
  let cont := containmentSeverity percentContained in
  let size := sizeSeverity acres percentContained in
  if severityRank cont <? severityRank size then size else cont.

Definition demoteSeverity (s : string) : string :=
  if String.eqb s SevExtreme then SevSevere
  else if String.eqb s SevSevere then SevModerate
  else if String.eqb s SevModerate then SevMinor
  else SevInfo.

Definition fromPowerOutage (customersAffected : Z) (planned : bool) : string :=
  if customersAffected <=? 0 then SevMinor
  else
    let sev := if 1000 <=? customersAffected then SevSevere
               else if 100 <=? customersAffected then SevModerate
               else if 10 <=? customersAffected then SevMinor
               else SevInfo in
    if planned then demoteSeverity sev else sev.

Definition fromMagnitude (m : float64) : string :=
  if leb (of_Z 5) m then SevSevere
  else if leb (of_Z 4) m then SevModerate
  else if leb (div (of_Z 25) (of_Z 10)) m then SevMinor
  else SevInfo.

Definition fromEvacLevel (level : string) : string :=
  if String.eqb level "ORDER" then SevExtreme
  else if String.eqb level "WARNING" || String.eqb level "SHELTER_IN_PLACE" then SevSevere
  else if String.eqb level "ADVISORY" then SevModerate
  else SevInfo.

Definition pspsStages : list (string * string) := [("warning", SevSevere); ("watch", SevModerate)].

Definition lookup_stage (k : string) : option string :=
  snd <$> head (filter (fun p : string * string => p.1 = k) pspsStages).

Definition evacInactiveKeywords : list string := ["lifted"; "normal"; "all clear"; "all-clear"; "repopulat"; "no evac"].

Section Text.
Context {UL : UnicodeLower}.

Definition fromRoadImpact (impact : string) : string :=
  let s := ToLower (TrimSpace impact) in
  if String.eqb s "severe" then SevSevere
  else if String.eqb s "moderate" then SevModerate
  else if String.eqb s "light" then SevMinor
  else if String.eqb s "none" then SevInfo
  else "".

Definition fromLaneClosure (facility closureType lanesClosed : string) (totalLanes : Z) : string :=
  let closed := if Contains (ToLower facility) "ramp" then SevModerate else SevSevere in
  let t := ToLower (TrimSpace closureType) in
  if String.eqb t "full" then closed
  else if String.eqb t "one-way traffic" || String.eqb t "alternating lanes" then SevModerate
  else if String.eqb t "traffic break" then SevMinor
  else
    let '(travel, all, other) := closedLanes lanesClosed in
    if all || (0 <? totalLanes) && (totalLanes <=? Z.of_nat travel) then closed
    else if (0 <? travel)%nat then SevModerate
    else if (0 <? other)%nat then SevMinor
    else SevModerate.

Definition fromFireWeatherState (state : string) : string :=
  let s := ToLower state in
  if String.eqb s "red-flag" || String.eqb s "red_flag" then SevSevere
  else if String.eqb s "elevated" then SevModerate
  else SevInfo.

Definition normalizeEvacLevel (status : string) : string :=
  let s := ToLower (TrimSpace status) in
  if String.eqb s "" || Contains s "lifted" || Contains s "normal" || Contains s "all clear"
     || Contains s "all-clear" || Contains s "repopulat" || Contains s "no evac" then ""
  else if Contains s "order" || Contains s "mandatory" then "ORDER"
  else if Contains s "shelter" then "SHELTER_IN_PLACE"
  else if Contains s "warning" then "WARNING"
  else if Contains s "advisory" || Contains s "voluntary" then "ADVISORY"
  else "WARNING".

Definition evacStatusRecognized (status : string) : bool :=
  let s := ToLower (TrimSpace status) in
  existsb (Contains s) ["order"; "mandatory"; "shelter"; "warning"; "advisory"; "voluntary"].

Definition EvacStatusInactive (status : string) : bool :=
  let s := ToLower (TrimSpace status) in
  if String.eqb s "" then false else existsb (Contains s) evacInactiveKeywords.

Definition fromPSPSStage (stage : string) : string :=
  match lookup_stage (ToLower (TrimSpace stage)) with Some sev => sev | None => SevSevere end.

Definition pspsStageRecognized (stage : string) : bool :=
  match lookup_stage (ToLower (TrimSpace stage)) with Some _ => true | None => false end.

Definition fromChainLevelStr `{UnicodeUpper} (level : string) : string :=
  let s := ToUpper (TrimSpace level) in
  if String.eqb s "R3" then SevSevere
  else if String.eqb s "R2" then SevModerate
  else if String.eqb s "R1" then SevMinor
  else SevInfo.

(** [normFireName] of [internal/hazards/service.go]. *)
Definition normFireName (s : string) : string :=
  let s := TrimSuffix (TrimSpace (ToLower s)) " fire" in
  of_bytes (filter (fun c => (97 <=? code c) && (code c <=? 122) || is_digit (code c) = true)%N (bytes s)).

End Text.

(** ** The scale is an order *)

Lemma size_rank acres pc :
  severityRank (sizeSeverity acres pc)
  = if 100 <=? pc then 0 else if leb (of_Z 1000) acres then (if pc <? 50 then 4 else 3)
    else if leb (of_Z 100) acres then 3 else 0.
Proof. unfold sizeSeverity. by repeat case_match. Qed.

Lemma containment_rank pc :
  severityRank (containmentSeverity pc) = if 100 <=? pc then 1 else if pc <? 50 then 3 else 2.
Proof. unfold containmentSeverity. by repeat case_match. Qed.

Lemma wildfire_rank acres pc :
  severityRank (fromWildfire acres pc)
  = Z.max (severityRank (containmentSeverity pc)) (severityRank (sizeSeverity acres pc)).
Proof. unfold fromWildfire. destruct (Z.ltb_spec (severityRank (containmentSeverity pc)) (severityRank (sizeSeverity acres pc))); lia. Qed.

Lemma size_larger n acres acres' : leb acres acres' = true -> leb n acres' = false -> leb n acres = false.
Proof. intros Hle Hn. destruct (leb n acres) eqn:E; [|done]. by rewrite (leb_trans _ _ _ E Hle) in Hn. Qed.

(** A fire that is larger, or less contained, is never graded lower; and no
    fire is graded below what its containment alone says. *)
Theorem wildfire_grading acres acres' pc pc' :
  leb acres acres' = true -> pc' <= pc ->
  severityRank (fromWildfire acres pc) <= severityRank (fromWildfire acres' pc')
  /\ severityRank (containmentSeverity pc) <= severityRank (fromWildfire acres pc).
Proof.
  intros Ha Hp. rewrite !wildfire_rank. split; [|lia]. rewrite !size_rank, !containment_rank.
  pose proof (size_larger (of_Z 1000) _ _ Ha). pose proof (size_larger (of_Z 100) _ _ Ha).
  destruct (leb (of_Z 1000) acres'); destruct (leb (of_Z 100) acres');
    destruct (leb (of_Z 1000) acres); destruct (leb (of_Z 100) acres); try by specialize (H eq_refl).
  all: destruct (Z.leb_spec 100 pc), (Z.leb_spec 100 pc'), (Z.ltb_spec pc 50), (Z.ltb_spec pc' 50); lia.
Qed.

(** An outage of more customers is never graded lower; a planned one is graded
    one rank down, and one of unknown size is MINOR, planned or not. *)
Theorem outage_grading n n' planned :
  0 < n <= n' ->
  severityRank (fromPowerOutage n planned) <= severityRank (fromPowerOutage n' planned)
  /\ severityRank (fromPowerOutage n true) = Z.max 0 (severityRank (fromPowerOutage n false) - 1)
  /\ (forall m p, m <= 0 -> fromPowerOutage m p = SevMinor).
Proof.
  intros Hn.
  assert (Hrank : forall k p, 0 < k -> severityRank (fromPowerOutage k p)
    = (if p then Z.max 0 (((if 1000 <=? k then 3 else if 100 <=? k then 2 else if 10 <=? k then 1 else 0)) - 1)
       else if 1000 <=? k then 3 else if 100 <=? k then 2 else if 10 <=? k then 1 else 0)).
  { intros k p Hk. unfold fromPowerOutage. destruct (Z.leb_spec k 0); [lia|]. destruct p; by repeat case_match. }
  split_and!.
  - rewrite !Hrank by lia.
    destruct (Z.leb_spec 1000 n), (Z.leb_spec 1000 n'), (Z.leb_spec 100 n), (Z.leb_spec 100 n'),
      (Z.leb_spec 10 n), (Z.leb_spec 10 n'), planned; lia.
  - rewrite !Hrank by lia. done.
  - intros m p Hm. unfold fromPowerOutage. destruct (Z.leb_spec m 0); [done|lia].
Qed.

Section Statuses.
Context {UL : UnicodeLower}.

Lemma inactive_keywords s :
  existsb (Contains s) evacInactiveKeywords
  = Contains s "lifted" || Contains s "normal" || Contains s "all clear" || Contains s "all-clear"
    || Contains s "repopulat" || Contains s "no evac".
Proof. cbn [existsb evacInactiveKeywords]. by rewrite orb_false_r, <-!orb_assoc. Qed.

Definition evac_levels : list string := ["ORDER"; "SHELTER_IN_PLACE"; "WARNING"; "ADVISORY"].

(** What the text of an evacuation status says. The two readings of it agree: a
    status is explicitly inactive exactly when it grades to no level and is not
    blank. Any other status that is not blank grades to a level, WARNING when
    no keyword is known, and every level ranks MODERATE at least. *)
Theorem status_reading status :
  (EvacStatusInactive status = true
     <-> normalizeEvacLevel status = "" /\ ToLower (TrimSpace status) <> "")
  /\ (normalizeEvacLevel status <> "" ->
        normalizeEvacLevel status ∈ evac_levels
        /\ (evacStatusRecognized status = false -> normalizeEvacLevel status = "WARNING")
        /\ 2 <= severityRank (fromEvacLevel (normalizeEvacLevel status))).
Proof.
  unfold EvacStatusInactive, normalizeEvacLevel, evacStatusRecognized.
  set (s := ToLower (TrimSpace status)). rewrite inactive_keywords.
  destruct (String.eqb_spec s "") as [->|Hne].
  { split; [|done]. split; [done|]. by intros [_ []]. }
  cbn [orb existsb].
  destruct (_ || Contains s "no evac"); [by split|]. split; [|intros _; split_and!].
  - split; [done|]. intros [He _]. by repeat case_match.
  - repeat case_match; unfold evac_levels; set_solver.
  - intros Hrec. rewrite orb_false_r in Hrec. repeat (apply orb_false_elim in Hrec as [-> Hrec]).
    by rewrite Hrec.
  - repeat case_match; vm_compute; congruence.
Qed.

End Statuses.

Lemma wildfire_grading_witness :
  severityRank (fromWildfire (of_Z 99) 60) <= severityRank (fromWildfire (of_Z 1200) 35).
Proof. apply (wildfire_grading (of_Z 99) (of_Z 1200) 60 35); [vm_compute; reflexivity|lia]. Defined.

Lemma outage_grading_witness : severityRank (fromPowerOutage 120 true) = 1.
Proof.
  rewrite (proj1 (proj2 (outage_grading 120 1000 true ltac:(lia)))). vm_compute. reflexivity.
Defined.

Lemma status_reading_witness : EvacStatusInactive (UL := ascii_only) "  Order LIFTED " = true.
Proof. apply (proj1 (@status_reading ascii_only "  Order LIFTED ")). split; [vm_compute; reflexivity|vm_compute; discriminate]. Defined.

End Severity.
