(* ===== verification/Feeds.v ===== *)
(** * What the feed normalizers share

    [internal/ingest/ingest.go] and the helpers of the normalizers that more than
    one of them uses: an event's envelope, its geometry, the configured scope,
    URLs and times. [encoding/json]'s text of a string and of a point is a class.
    The log is left out. *)

From Stdlib Require Import Ascii.
From stdpp Require Import pretty.
From S2P Require Import Prelude Float64 Geojson GridEvent GoText Scheduler.

Module Feeds.
Import F64 Grid Text.
Import Scheduler (Prior, ByID, ForSource, PollResult, mkPollResult).

(** ** Configuration *)

Record GeoBounds := mkGeoBounds {
  MinLatitude : float64; MaxLatitude : float64; MinLongitude : float64; MaxLongitude : float64 }.
Definition Contains (b : GeoBounds) (lat lon : float64) : bool :=
  leb (MinLatitude b) lat && leb lat (MaxLatitude b) && leb (MinLongitude b) lon && leb lon (MaxLongitude b).

(** [config.HazardArea], without its scanner feeds. *)
Record HazardArea := mkHazardArea {
  ha_ID : string; ha_Name : string; ha_Bounds : GeoBounds; IncidentArea : string; ha_Zones : list string }.

Definition DefaultWildfireMarginDegrees : float64 := div one two.
Definition Margin (MarginDegrees : float64) : float64 :=
  if ltb zero MarginDegrees then MarginDegrees else DefaultWildfireMarginDegrees.

Definition grow (s : float64 * float64 * float64 * float64) (b : GeoBounds) : float64 * float64 * float64 * float64 :=
  let '(minLat, minLng, maxLat, maxLng) := s in
  (min minLat (MinLatitude b), min minLng (MinLongitude b), max maxLat (MaxLatitude b), max maxLng (MaxLongitude b)).

(** [(minLat, minLng, maxLat, maxLng)]; none without an area. *)
Definition unionBounds (areas : list HazardArea) : option (float64 * float64 * float64 * float64) :=
  match ha_Bounds <$> areas with
  | [] => None
  | b :: l => Some (foldl grow (MinLatitude b, MinLongitude b, MaxLatitude b, MaxLongitude b) l)
  end.

Definition wildfireScope (areas : list HazardArea) (MarginDegrees : float64) : option GeoBounds :=
  '(minLat, minLng, maxLat, maxLng) ← unionBounds areas;
  let m := Margin MarginDegrees in
  Some (mkGeoBounds (max (sub minLat m) (of_Z (-90))) (min (add maxLat m) (of_Z 90))
          (max (sub minLng m) (of_Z (-180))) (min (add maxLng m) (of_Z 180))).

Definition zonesMatch (areaZones recordZones : list string) : bool :=
  match areaZones, recordZones with
  | [], _ | _, [] => true
  | _, _ => existsb (fun z => bool_decide (z ∈ areaZones)) recordZones
  end.

Definition errEmptyScope (what : string) : string :=
  "ingest: no " +:+ what +:+ " configured; refusing to poll an empty scope".

(** ** Strings, numbers and times *)

(** [math.Round]: half away from zero. *)
Definition Round (x : float64) : float64 :=
  match x with
  | S754_finite s m e =>
      if 0 <=? e then x
      else
        let d := 2 ^ (- e) in
        let n := Z.pos m / d + (if d <=? 2 * (Z.pos m mod d) then 1 else 0) in
        if n =? 0 then S754_zero s else of_Z (if s then - n else n)
  | _ => x
  end.

Definition trim (v : float64) : float64 := div (Round (mul v (of_Z 100000))) (of_Z 100000).

Definition safeURL (u : string) : string :=
  let u := TrimSpace u in if HasPrefix u "https://" || HasPrefix u "http://" then u else "".

Definition nonEmpty (vals : list string) : string :=
  default "" (head (filter (fun v => TrimSpace v <> "") vals)).

Definition firstNonZeroTime (times : list Time) : Time :=
  default time_zero (head (filter (fun t => time_is_zero t = false) times)).

Definition tsProto (t : Time) : option Time := if time_is_zero t then None else Some t.

(** [math.MaxFloat64]. *)
Definition MaxFloat64 : float64 := S754_finite false 9007199254740991 971.

(** The digits of a number with a comma before each group of three. *)
Fixpoint group3 (l : list ascii) : list ascii :=
  match l with
  | [] => []
  | c :: r => c :: (if Nat.eqb (length r mod 3) 0 && negb (Nat.eqb (length r) 0) then ","%char :: group3 r else group3 r)
  end.
(** [int64] of a float truncates toward zero. *)
Definition commaNum (v : float64) : string :=
  let n := trunc (add v (div one two)) in
  (if n <? 0 then "-" else "") +:+ of_bytes (group3 (bytes (pretty (Z.abs n)))).

(** [sort.SliceStable] by a [less] function. *)
Fixpoint insert_by {A} (less : A -> A -> bool) (x : A) (l : list A) : list A :=
  match l with
  | [] => [x]
  | y :: r => if less y x then y :: insert_by less x r else x :: l
  end.
Definition SliceStable {A} (less : A -> A -> bool) (l : list A) : list A := foldr (insert_by less) [] l.

(** Rows are put in the first cluster whose first row is the same thing. *)
Fixpoint first_fit {A} (same : A -> A -> bool) (c : A) (clusters : list (list A)) : list (list A) :=
  match clusters with
  | [] => [[c]]
  | cl :: l =>
      match cl with
      | c0 :: _ => if same c0 c then (cl ++ [c]) :: l else cl :: first_fit same c l
      | [] => cl :: first_fit same c l
      end
  end.

(** A Go map of slices with the order its keys were first seen in. *)
Fixpoint add_group {A} (k : string) (c : A) (groups : list (string * list A)) : list (string * list A) :=
  match groups with
  | [] => [(k, [c])]
  | (i, l) :: g => if String.eqb i k then (i, l ++ [c]) :: g else (i, l) :: add_group k c g
  end.

(** An id made distinct by a number. *)
Definition suffixed (base : string) (i : Z) : string := base +:+ "-" +:+ pretty i.

(** ** Events *)

Definition NewEvent (id : string) (l : Layer) (sev : Severity) (st : EventStatus) (headline_ : string) : Event :=
  mkEvent id l "" sev st headline_ "" "" "" "" None [] None None None None None 0 None None.

Definition SeverityFromLabel (label : string) : Severity :=
  if String.eqb label "EXTREME" then EXTREME
  else if String.eqb label "SEVERE" then SEVERE
  else if String.eqb label "MODERATE" then MODERATE
  else if String.eqb label "MINOR" then MINOR
  else INFO.

Definition NewProvenance (sourceID sourceName attr url : string) (now : Time) : Provenance :=
  mkProvenance sourceID sourceName attr url (Some now).

Definition GetWildfire (ev : Event) : option WildfireDetail :=
  match detail ev with Some (D_Wildfire d) => Some d | _ => None end.
Definition GetEvacuation (ev : Event) : option EvacuationDetail :=
  match detail ev with Some (D_Evacuation d) => Some d | _ => None end.
Definition GetPower (ev : Event) : option PowerDetail :=
  match detail ev with Some (D_Power d) => Some d | _ => None end.

Definition set_id (x : string) (e : Event) : Event :=
  mkEvent x (layer e) (category e) (severity e) (status e) (headline e) (summary e) (description e)
    (area_label e) (canonical_url e) (geometry e) (place_ids e) (provenance e) (effective e)
    (expires e) (observed_at e) (ingested_at e) (revision e) (enhancement e) (detail e).

(** ** Geometry *)

(** The JSON of a string, and of a point with its longitude and latitude. *)
Class GeoText := { marshal_string : string -> string; point_json : float64 -> float64 -> string }.

Definition GeometryFromPoint `{GeoText} (lat lng : float64) : Geometry :=
  mkGeometry (point_json (trim lng) (trim lat)) (Some (mkBoundingBox lat lng lat lng)) (Some (mkLatLng lat lng)).

Definition quote : string := String (ascii_of_nat 34) "".

Section Geometry.
Context {JK : JsonKernel} {GT : GeoText}.

Definition GeometryFromGeoJSON (raw : string) : option Geometry :=
  g ← Geojson.Parse raw;
  let b := Geojson.Bbox g in
  let '(lat, lng) := Geojson.Centroid g in
  Some (mkGeometry raw (Some (mkBoundingBox (Geojson.bMinLat b) (Geojson.bMinLng b) (Geojson.bMaxLat b) (Geojson.bMaxLng b)))
          (Some (mkLatLng lat lng))).

Definition geometryFromTyped (geomType coords : string) : option Geometry :=
  if String.eqb geomType "" || String.eqb coords "" then None
  else
    GeometryFromGeoJSON ("{" +:+ quote +:+ "type" +:+ quote +:+ ":" +:+ marshal_string geomType +:+ "," +:+ quote
                         +:+ "coordinates" +:+ quote +:+ ":" +:+ coords +:+ "}").

End Geometry.

Definition centroid_of (g : option Geometry) : option LatLng := g ≫= g_centroid.

Definition centroidDistSq (a b : option Geometry) : float64 :=
  match centroid_of a, centroid_of b with
  | Some ca, Some cb =>
      let dLat := sub (lat ca) (lat cb) in
      let dLng := sub (lng ca) (lng cb) in
      add (mul dLat dLat) (mul dLng dLng)
  | _, _ => inf
  end.

(** The digest of a text, in hex. *)
Class Sha256 := { sha256 : string -> string }.

(** ** Upstream replies *)

(** What [HTTPDoer.Do] gives: an error, or a status and a body. *)
Inductive Response := NoReply (err : string) | Reply (status : Z) (body : string).

(** [io.LimitReader]. *)
Definition limit (n : Z) (body : string) : string :=
  if Z.of_nat (String.length body) <=? n then body else String.substring 0 (Z.to_nat n) body.

(** The body of a reply whose status is no error. *)
Definition body_of (name : string) (maxBody : Z) (r : Response) : string + string :=
  match r with
  | NoReply err => inl ("failed to execute " +:+ name +:+ " request: " +:+ err)
  | Reply status body =>
      if 400 <=? status then inl (name +:+ " API error " +:+ pretty status +:+ ": " +:+ limit 4096 body)
      else inr (limit maxBody body)
  end.

(** The error envelope ArcGIS sends with status 200. *)
Record arcgisError := mkArcgisError { Code : Z; Message : string }.

Definition msToTime (ms : Z) : Time := if ms <=? 0 then time_zero else time_of_unix 0 + ms * 1000000.

(** ** Polls *)

(** A poll's events, and the error of each source that failed. *)
Definition poll_result (events : list Event) (perSource : gmap string string) (superseded : list string) : PollResult :=
  mkPollResult events perSource [] superseded [] [] [] [] [] false.

(** ** Sorting keeps the elements *)

Lemma insert_by_perm {A} (less : A -> A -> bool) x l : insert_by less x l ≡ₚ x :: l.
Proof. induction l as [|y l IH]; cbn; [done|]. destruct (less y x); [|done]. rewrite IH. apply Permutation_swap. Qed.

Lemma SliceStable_perm {A} (less : A -> A -> bool) l : SliceStable less l ≡ₚ l.
Proof. induction l as [|x l IH]; cbn; [done|]. by rewrite insert_by_perm, IH. Qed.

(** ** Decimals *)

Lemma go_digits x : forall s, all_bytes is_digit s = true -> all_bytes is_digit (pretty_N_go x s) = true.
Proof.
  induction (N.lt_wf_0 x) as [x _ IH]. intros s Hs. destruct (decide (x = 0)%N) as [->|Hx]; [by rewrite pretty_N_go_0|].
  rewrite pretty_N_go_step by lia. apply IH; [apply N.div_lt; lia|].
  assert (all_bytes is_digit (String (pretty_N_char (x mod 10)) s) = is_digit (code (pretty_N_char (x mod 10))) && all_bytes is_digit s) as -> by done.
  rewrite Hs, andb_true_r. assert (x mod 10 < 10)%N by (apply N.mod_lt; lia). set (d := (x mod 10)%N) in *. clearbody d.
  assert (d = 0 \/ d = 1 \/ d = 2 \/ d = 3 \/ d = 4 \/ d = 5 \/ d = 6 \/ d = 7 \/ d = 8 \/ d = 9)%N as Hd by lia.
  by destruct Hd as [->|[->|[->|[->|[->|[->|[->|[->|[->| ->]]]]]]]]].
Qed.

Lemma go_nonempty x : forall s, s <> "" -> pretty_N_go x s <> "".
Proof.
  induction (N.lt_wf_0 x) as [x _ IH]. intros s Hs. destruct (decide (x = 0)%N) as [->|Hx]; [by rewrite pretty_N_go_0|].
  rewrite pretty_N_go_step by lia. apply IH; [apply N.div_lt; lia|done].
Qed.

Lemma pretty_digits n : 0 <= n -> all_bytes is_digit (pretty n) = true /\ pretty n <> "".
Proof.
  intros Hn. destruct n as [|p|p]; [split; [reflexivity|done]| |lia].
  change (pretty (Z.pos p)) with (pretty_N_go (N.pos p) ""). split; [by apply go_digits|].
  rewrite pretty_N_go_step by lia. by apply go_nonempty.
Qed.

(** ** The suffixes of an id are distinct *)

Lemma suffixed_inj base i j : suffixed base i = suffixed base j -> i = j.
Proof.
  unfold suffixed. intros H. apply (f_equal bytes) in H. rewrite !bytes_app in H. apply app_inv_head, app_inv_head in H.
  apply (f_equal of_bytes) in H. rewrite !of_bytes_bytes in H. by apply (inj pretty) in H.
Qed.

Lemma suffixed_base base i : suffixed base i <> base.
Proof.
  unfold suffixed. intros H. apply (f_equal (fun s => length (bytes s))) in H. rewrite !bytes_app, !length_app in H.
  cbn in H. lia.
Qed.

(** ** Clusters and groups *)

Lemma first_fit_perm {A} same (c : A) cls : mjoin (first_fit same c cls) ≡ₚ c :: mjoin cls.
Proof.
  induction cls as [|[|c0 r] cls IH]; cbn; [done|done|]. destruct (same _ _); cbn.
  - rewrite <-app_assoc. cbn. by rewrite <-Permutation_middle, Permutation_swap.
  - rewrite IH. by rewrite <-Permutation_middle, Permutation_swap.
Qed.

Lemma clusters_perm {A} same (l : list A) : mjoin (foldl (fun cls c => first_fit same c cls) [] l) ≡ₚ l.
Proof.
  induction l as [|c l IH] using rev_ind; [done|]. rewrite foldl_snoc, first_fit_perm, IH. by rewrite <-Permutation_cons_append.
Qed.

(** A cluster has a first row, and every row of it is the same thing. *)
Definition fits {A} (same : A -> A -> bool) (cl : list A) : Prop :=
  exists c0 r, cl = c0 :: r /\ Forall (fun c => same c0 c = true) cl.

Lemma clusters_fit {A} same (l : list A) :
  (forall a, same a a = true) -> Forall (fits same) (foldl (fun cls c => first_fit same c cls) [] l).
Proof.
  intros Hrefl. induction l as [|c l IH] using rev_ind; [constructor|]. rewrite foldl_snoc.
  induction IH as [|cl cls Hcl Hcls IH]; cbn.
  { constructor; [|done]. exists c, []. split; [done|]. by repeat constructor. }
  destruct Hcl as (c0 & r & -> & Hf). destruct (same c0 c) eqn:E.
  - constructor; [|done]. exists c0, (r ++ [c]). split; [done|]. change (c0 :: r ++ [c]) with ((c0 :: r) ++ [c]).
    apply Forall_app. split; [done|]. by repeat constructor.
  - constructor; [|done]. by exists c0, r.
Qed.

Lemma add_group_keys {A} k (c : A) groups :
  NoDup (groups.*1) -> NoDup ((add_group k c groups).*1) /\ (forall i, i ∈ (add_group k c groups).*1 <-> i = k \/ i ∈ groups.*1).
Proof.
  induction groups as [|[j l] g IH]; cbn; intros Hnd; [split; [repeat constructor; set_solver|set_solver]|].
  inversion Hnd as [|? ? Hj Hg]; subst. destruct (String.eqb_spec j k) as [->|Hne]; cbn.
  - split; [by constructor|]. intros i. rewrite !elem_of_cons. tauto.
  - destruct (IH Hg) as [H1 H2]. split.
    + constructor; [|done]. rewrite H2. tauto.
    + intros i. rewrite !elem_of_cons, H2. tauto.
Qed.

(** The rows with the key of their group. *)
Definition members {A} (groups : list (string * list A)) : list (string * A) := groups ≫= fun g => (fun c => (g.1, c)) <$> g.2.

Lemma members_add {A} k (c : A) groups : members (add_group k c groups) ≡ₚ (k, c) :: members groups.
Proof.
  unfold members. induction groups as [|[j l] g IH]; cbn; [done|]. destruct (String.eqb_spec j k) as [->|_]; cbn.
  - rewrite fmap_app, <-app_assoc. cbn. by rewrite <-Permutation_middle.
  - rewrite IH. by rewrite <-Permutation_middle.
Qed.

Lemma member_group {A} (groups : list (string * list A)) k c : (k, c) ∈ members groups <-> exists cs, (k, cs) ∈ groups /\ c ∈ cs.
Proof.
  unfold members. rewrite list_elem_of_bind. split.
  - intros ([j cs] & (c' & [= -> ->] & Hc)%list_elem_of_fmap & Hg). by exists cs.
  - intros (cs & Hg & Hc). exists (k, cs). split; [|done]. apply list_elem_of_fmap. by exists c.
Qed.

(** Rows grouped by a key. *)
Section Grouped.
Context {A : Type} (key : A -> string).

Definition keyed (n : string) (rows : list A) : list A := filter (fun r => key r = n) rows.
Definition grouped (rows : list A) : list (string * list A) := foldl (fun g r => add_group (key r) r g) [] rows.

Lemma keyed_snoc n rows r : keyed n (rows ++ [r]) = if bool_decide (key r = n) then keyed n rows ++ [r] else keyed n rows.
Proof.
  unfold keyed. rewrite filter_app. case_bool_decide.
  - by rewrite filter_cons_True.
  - rewrite filter_cons_False by done. by rewrite app_nil_r.
Qed.

Lemma add_group_keyed r rows g :
  NoDup (g.*1) -> (key r ∉ g.*1 -> keyed (key r) rows = []) ->
  Forall (fun x => x.2 = keyed x.1 rows) g -> Forall (fun x => x.2 = keyed x.1 (rows ++ [r])) (add_group (key r) r g).
Proof.
  induction g as [|[n l] g IH]; cbn; intros Hnd Hnew Hf.
  { constructor; [|done]. cbn. rewrite keyed_snoc, bool_decide_true, Hnew by set_solver. done. }
  inversion Hnd as [|? ? Hn Hg]; subst. inversion Hf as [|? ? Hl Hf']; subst. cbn in Hl.
  destruct (String.eqb_spec n (key r)) as [->|Hne].
  - constructor; [cbn; by rewrite keyed_snoc, bool_decide_true, Hl|].
    rewrite Forall_forall in Hf' |- *. intros [m k] Hm. rewrite (Hf' _ Hm). cbn. rewrite keyed_snoc, bool_decide_false; [done|].
    intros <-. apply Hn, list_elem_of_fmap. by exists (key r, k).
  - constructor; [cbn; by rewrite keyed_snoc, bool_decide_false, Hl by congruence|]. apply IH; [done| |done].
    intros Hr. apply Hnew. set_solver.
Qed.

Lemma grouped_spec rows :
  NoDup ((grouped rows).*1) /\ (forall n, n ∈ (grouped rows).*1 <-> exists r, r ∈ rows /\ key r = n)
  /\ Forall (fun x => x.2 = keyed x.1 rows) (grouped rows).
Proof.
  unfold grouped. induction rows as [|r rows (H1 & H2 & H3)] using rev_ind; [split_and!; [constructor|set_solver|done]|].
  rewrite foldl_snoc. destruct (add_group_keys (key r) r _ H1) as [K1 K2]. split_and!; [done| |].
  - intros n. rewrite K2, H2. split.
    + intros [->|(x & Hx & <-)]; [exists r; set_solver|exists x; set_solver].
    + intros (x & [Hx| ->%list_elem_of_singleton]%elem_of_app & <-); [right; by exists x|by left].
  - apply add_group_keyed; [done| |done]. rewrite H2. intros Hr. apply filter_none.
    intros x Hx Hn. apply Hr. by exists x.
Qed.

End Grouped.

(** ** Orders to sort by *)

(** A strict weak order on the elements that [P] holds of. *)
Record StrictWeak {A} (P : A -> Prop) (less : A -> A -> bool) : Prop := {
  sw_asym a b : P a -> P b -> less a b = true -> less b a = false;
  sw_ntrans a b c : P a -> P b -> P c -> less b a = false -> less c b = false -> less c a = false }.

(** First by one order, then by another. *)
Definition lex {A} (f g : A -> A -> bool) (a b : A) : bool := if f a b || f b a then f a b else g a b.

Lemma lex_weak {A} (P : A -> Prop) f g : StrictWeak P f -> StrictWeak P g -> StrictWeak P (lex (A := A) f g).
Proof.
  intros Hf Hg. split.
  - unfold lex. intros a b Ha Hb. rewrite (orb_comm (f b a)). destruct (f a b) eqn:E; cbn.
    + by rewrite (sw_asym _ _ Hf a b).
    + destruct (f b a) eqn:E'; [done|]. by apply Hg.
  - unfold lex. intros a b c Ha Hb Hc.
    pose proof (sw_ntrans _ _ Hf a b c Ha Hb Hc). pose proof (sw_ntrans _ _ Hf c b a Hc Hb Ha).
    pose proof (sw_ntrans _ _ Hf b c a Hb Hc Ha). pose proof (sw_ntrans _ _ Hf c a b Hc Ha Hb).
    pose proof (sw_ntrans _ _ Hf a c b Ha Hc Hb). pose proof (sw_ntrans _ _ Hf b a c Hb Ha Hc).
    pose proof (sw_asym _ _ Hf a b Ha Hb). pose proof (sw_asym _ _ Hf b c Hb Hc). pose proof (sw_asym _ _ Hf a c Ha Hc).
    pose proof (sw_ntrans _ _ Hg a b c Ha Hb Hc).
    destruct (f a b), (f b a), (f b c), (f c b), (f a c), (f c a); cbn; intuition congruence.
Qed.

Lemma weak_ext {A} (P : A -> Prop) f g :
  (forall a b, P a -> P b -> f a b = g a b) -> StrictWeak P f -> StrictWeak (A := A) P g.
Proof.
  intros He Hf. split.
  - intros a b Ha Hb. rewrite <-!He by done. by apply Hf.
  - intros a b c Ha Hb Hc. rewrite <-!He by done. by apply Hf.
Qed.

Lemma weak_str {A} (P : A -> Prop) (f : A -> string) : StrictWeak P (fun a b => str_ltb (f a) (f b)).
Proof.
  split.
  - intros a b _ _ H. destruct (str_ltb (f b) (f a)) eqn:E; [|done].
    by rewrite <-(str_ltb_irrefl (f a)), (str_ltb_trans _ _ _ H E).
  - intros a b c _ _ _ H1 H2. destruct (str_ltb (f c) (f a)) eqn:E; [|done].
    destruct (str_ltb (f a) (f b)) eqn:E1; [by rewrite (str_ltb_trans _ _ _ E E1) in H2|].
    rewrite (str_ltb_total _ _ H1 E1) in H2. by rewrite H2 in E.
Qed.

Lemma weak_bool {A} (P : A -> Prop) (f : A -> bool) : StrictWeak P (fun a b => negb (f a) && f b).
Proof. split; intros; repeat match goal with |- context [f ?x] => destruct (f x) | H : context [f ?x] |- _ => destruct (f x) end; done. Qed.

Lemma leb_not_ltb a b : leb a b = true -> ltb b a = false.
Proof.
  rewrite leb_spec. intros [H|H]; [by apply ltb_asym, ltb_spec|]. unfold ltb, SFltb.
  by rewrite (SFcompare_opp a b), H.
Qed.

Lemma weak_float {A} (P : A -> Prop) (f : A -> float64) :
  (forall a, P a -> is_nan (f a) = false) -> StrictWeak P (fun a b => ltb (f a) (f b)).
Proof.
  intros Hnan. split.
  - intros a b _ _. apply ltb_asym.
  - intros a b c Ha Hb Hc H1%not_ltb_leb H2%not_ltb_leb; auto. apply leb_not_ltb. by eapply leb_trans.
Qed.

Lemma insert_by_sorted {A} (P : A -> Prop) less x l :
  StrictWeak P less -> P x -> Forall P l -> StronglySorted (fun a b => less b a = false) l ->
  StronglySorted (fun a b => less b a = false) (insert_by (A := A) less x l).
Proof.
  intros Hw Hx Hs Hl. induction Hl as [|y s IH IHl Hys]; cbn; [repeat constructor|]. inversion Hs as [|? ? Hy Hs']; subst.
  destruct (less y x) eqn:E.
  - constructor; [by apply IHl|]. rewrite insert_by_perm. constructor; [|done]. by apply (sw_asym _ _ Hw).
  - constructor; [by constructor|]. constructor; [done|]. rewrite Forall_forall in Hys, Hs' |- *.
    intros z Hz. apply (sw_ntrans _ _ Hw x y z); auto.
Qed.

Lemma SliceStable_sorted {A} (P : A -> Prop) less l :
  StrictWeak P less -> Forall P l -> StronglySorted (fun a b => less b a = false) (SliceStable (A := A) less l).
Proof.
  intros Hw. induction 1 as [|x l Hx Hl IH]; cbn; [constructor|]. apply (insert_by_sorted P); try done.
  change (Forall P (SliceStable less l)). by rewrite SliceStable_perm.
Qed.

(** Rows that the order tells apart are sorted the same in whatever order they come. *)
Lemma SliceStable_unique {A} (P : A -> Prop) less l k :
  StrictWeak P less -> Forall P l -> l ≡ₚ k ->
  (forall a b, a ∈ l -> b ∈ l -> a = b \/ less a b = true \/ less b a = true) ->
  SliceStable (A := A) less l = SliceStable less k.
Proof.
  intros Hw Hl Hp Hd.
  apply (StronglySorted_unique_strong (fun a b => less b a = false)).
  - intros a b Ha Hb H1 H2. rewrite SliceStable_perm in Ha. rewrite SliceStable_perm, <-Hp in Hb.
    destruct (Hd a b Ha Hb) as [?|[?|?]]; congruence.
  - by eapply SliceStable_sorted.
  - eapply SliceStable_sorted; [done|]. by rewrite <-Hp.
  - by rewrite !SliceStable_perm.
Qed.

End Feeds.
