(* ===== verification/Network.v ===== *)
(** * The mesh feed

    [internal/ingest/network.go]: one poll merges the nodes the mesh registry
    presents with the reports of operator monitors into one event per node. The
    registry and the push endpoint are the classes [MeshRegistry] and
    [MeshPushSource], which [Registry] and [Push] implement ([Instances]). A Go map
    is iterated in the order of [map_to_list]; readings of the clock and the
    catalog of expired nodes are arguments; the text of numbers and times is a
    class. *)

From Stdlib Require Import Ascii.
From stdpp Require Import pretty.
From S2P Require Import Prelude Float64 Geo Geojson GridEvent GoText MeshFrame MeshRelay MeshRegistry Tx BurnStore PushIngest Store Mesh Scheduler Feeds.

Module Network.
Import F64 Grid Text.
Import Scheduler (Prior, PollResult, mkPollResult, MeshKeyRename, mkMeshKeyRename, rn_From, rn_To, ByID, ForSource).
Import Feeds.

(** ** Constants and configuration *)

Definition meshSourceID : string := "meshcore".
Definition meshSourceName : string := "MeshCore Mesh".
Definition meshAttribution : string := "MeshCore community mesh".
Definition meshMapURL : string := "https://map.meshcore.io".
Definition meshLocationDecimals : float64 := of_Z 10000.
Definition meshPositionEpsilonMeters : float64 := of_Z 150.
Definition meshPubKeyHex : nat := 64.
Definition meshPushNodeType : string := "repeater".
Definition expiredTTL : Duration := 10 * minute.

Definition DefaultIngestUnreachableAfter : Duration := 45 * minute.
Definition DefaultIngestTelemetryPersistInterval : Duration := 10 * minute.

Record MeshcoreBroker := mkBroker { mb_URL : string; Operator : string; OperatorURL : string }.

(** The configuration the normalizer reads. *)
Record Config := mkConfig {
  mc_Bounds : list GeoBounds; mc_Brokers : list MeshcoreBroker; NodeURL : string; RelayPresence : Duration;
  GraceFloor : Duration; Areas : list GeoBounds; UnreachableAfter : Duration; TelemetryPersistInterval : Duration }.

Definition RelayPresenceWindow (c : Config) : Duration :=
  if RelayPresence c <? 0 then 0
  else if 0 <? RelayPresence c then RelayPresence c
  else if 0 <? GraceFloor c then GraceFloor c
  else 3 * hour.
Definition UnreachableAfterOrDefault (c : Config) : Duration :=
  if UnreachableAfter c <=? 0 then DefaultIngestUnreachableAfter else UnreachableAfter c.
Definition TelemetryPersistIntervalOrDefault (c : Config) : Duration :=
  if TelemetryPersistInterval c <=? 0 then DefaultIngestTelemetryPersistInterval else TelemetryPersistInterval c.

(** ** The inputs *)

Record BrokerHealth := mkBrokerHealth { bh_URL : string; bh_Problem : string }.
Definition Delivering (b : BrokerHealth) : bool := String.eqb (bh_Problem b) "".

Class MeshRegistry (R : Type) := {
  Snapshot : R -> list Registry.NodeState * R;
  Brokers : R -> list BrokerHealth;
  DrainObservations : R -> list Registry.Observation * R;
  DrainRelays : list Relay.KnownNode -> R -> gmap string Time * R;
  ResolvePrefix : string -> R -> string * bool }.

Class MeshPushSource (P : Type) := {
  MeshReports : P -> Push.MeshSnapshot;
  ReporterIDs : P -> string -> list string;
  ReporterConfig : P -> string -> option Push.Reporter }.

(** The text of values in errors and of coordinates: [time.RFC3339], the state and
    the last error of a reporter. *)
Class Wording := {
  rfc3339 : Time -> string;
  state_text : Push.ReporterState -> string;
  reason_text : Push.Reason -> string;
  problem_text : Registry.Problem -> string }.

(** ** Helpers *)

Definition quantizeCoord (v : float64) : float64 := div (Round (mul v meshLocationDecimals)) meshLocationDecimals.

Definition isLowerHex (s : string) : bool :=
  all_bytes (fun n => (48 <=? n) && (n <=? 57) || (97 <=? n) && (n <=? 102))%N s.

Definition firstNonBlank (vals : list string) : string :=
  default "" (head (filter (fun v => TrimSpace v <> "") vals)).

Definition laterOf (a b : Time) : Time := if time_after b a then b else a.

(** [sort.Slice] by a string, and a sorted list without repetitions. *)
Definition le_on {A} (f : A -> string) (a b : A) : Prop := str_le (f a) (f b).
#[export] Instance le_on_dec {A} (f : A -> string) : RelDecision (le_on f).
Proof. intros a b. unfold le_on. apply _. Defined.
Definition sort_on {A} (f : A -> string) (l : list A) : list A := merge_sort (le_on f) l.
Definition sorted_set (l : list string) : list string := sort_strings (remove_dups l).

Definition tsTime (t : option Time) : Time := default time_zero t.

Definition inAnyBounds (lat lng : float64) (boxes : list GeoBounds) : bool :=
  existsb (fun b => Contains b lat lng) boxes.

Definition geofence (c : Config) : list GeoBounds :=
  match mc_Bounds c with [] => Areas c | l => l end.

Definition event_id (key : string) : string := meshSourceID +:+ ":" +:+ key.

Definition meshHeadline (name nodeType key : string) : string :=
  let name := if String.eqb name "" then "node " +:+ String.substring 0 8 key else name in
  if String.eqb nodeType "" then name else name +:+ " (" +:+ nodeType +:+ ")".

Fixpoint resolve_unique (prefix match_ : string) (catalog : list string) : string * bool :=
  match catalog with
  | [] => (match_, negb (String.eqb match_ ""))
  | k :: l =>
      if negb (HasPrefix k prefix) then resolve_unique prefix match_ l
      else if negb (String.eqb match_ "") then ("", false)
      else resolve_unique prefix k l
  end.
Definition resolveUnique (catalog : list string) (prefix : string) : string * bool := resolve_unique prefix "" catalog.

(** ** What is stored *)

(** A [Prior], or one that also answers from the expired nodes. *)
Record View := mkView { v_ByID : string -> option Event; v_ForSource : string -> list Event }.
Definition view_of (p : Prior) : View := mkView (ByID p) (ForSource p).

Definition withExpired (v : View) (expired : gmap string Event) : View :=
  if bool_decide (expired = ∅) then v
  else mkView (fun id => match v_ByID v id with
                         | Some ev => Some ev
                         | None => match CutPrefix id (meshSourceID +:+ ":") with
                                   | Some k => expired !! k
                                   | None => None
                                   end
                         end) (v_ForSource v).

(** The full key of a mesh event's id. *)
Definition full_key (ev : Event) : option string :=
  k ← CutPrefix (Id ev) (meshSourceID +:+ ":");
  if Nat.eqb (String.length k) meshPubKeyHex then Some k else None.

Definition node_type_of (ev : Event) : string := match GetMesh ev with Some d => node_type d | None => "" end.

Definition knownMeshNodes (v : View) : list Relay.KnownNode :=
  omap (fun ev => k ← full_key ev; Some (Relay.mkKnownNode k (node_type_of ev))) (v_ForSource v meshSourceID).
Definition knownExpired (expired : gmap string Event) : list Relay.KnownNode :=
  (fun x => Relay.mkKnownNode x.1 (node_type_of x.2)) <$> map_to_list expired.

(** ** State *)

(** [mergedNode]. *)
Record mergedNode := mkMerged {
  key : string; mqtt : option Registry.NodeState; pushed : list Push.MeshNodeReport; relayedAt : Time }.
Abbreviation Merged := (gmap string mergedNode).

(** What the normalizer remembers between ticks. *)
Record Normalizer := mkNormalizer {
  activity : gmap string Mesh.MeshActivity; expired : option (gmap string Event); expiredAt : Time;
  relaySeen : gmap string Time }.

Definition NewNetworkNormalizer : Normalizer := mkNormalizer ∅ None time_zero ∅.
Definition set_activity (a : gmap string Mesh.MeshActivity) (n : Normalizer) : Normalizer :=
  mkNormalizer a (expired n) (expiredAt n) (relaySeen n).
Definition set_relaySeen (s : gmap string Time) (n : Normalizer) : Normalizer :=
  mkNormalizer (activity n) (expired n) (expiredAt n) s.

Definition forgetMeshActivity (n : Normalizer) : Normalizer := set_activity ∅ n.

(** The catalog of expired nodes: not configured, failing, or what it lists. *)
Definition expiredNodes (catalog : option (unit + list Event)) (now : Time) (n : Normalizer)
    : gmap string Event * Normalizer :=
  match catalog with
  | None => (∅, n)
  | Some c =>
      if match expired n with Some _ => time_sub now (expiredAt n) <? expiredTTL | None => false end
      then (default ∅ (expired n), n)
      else match c with
           | inl _ => (default ∅ (expired n), n)
           | inr evs =>
               let out := list_to_map (omap (fun ev => k ← full_key ev; Some (k, ev)) (reverse evs)) in
               (out, mkNormalizer (activity n) (Some out) now (relaySeen n))
           end
  end.

(** The latest credit of each node, and those within [relayPresence]. *)
Definition later_credit (old new : option Time) : option Time :=
  match old, new with
  | o, None => o
  | None, Some t => if time_after t time_zero then Some t else None
  | Some a, Some t => Some (if time_after t a then t else a)
  end.
Definition noteRelays (c : Config) (relays : gmap string Time) (now : Time) (n : Normalizer)
    : gmap string Time * Normalizer :=
  let window := RelayPresenceWindow c in
  let kept := filter (fun x => 0 < window /\ time_sub now x.2 <= window) (merge later_credit (relaySeen n) relays) in
  (kept, set_relaySeen kept n).

(** ** Health *)

Definition brokerDelivery (brokers : list BrokerHealth) : nat * option string :=
  let deaf := filter (fun b => Delivering b = false) brokers in
  (length (filter (fun b => Delivering b = true) brokers),
   match deaf with
   | [] => None
   | _ => Some (pretty (length deaf) +:+ " of " +:+ pretty (length brokers) +:+ " MQTT brokers not delivering: "
                +:+ join "; " ((fun b => bh_URL b +:+ " " +:+ bh_Problem b) <$> deaf))
   end).

Section Network.
Context {MK : MathKernel} {GT : GeoText} {Wd : Wording} {R P : Type} {MR : MeshRegistry R} {MP : MeshPushSource P}.

Definition SourceIDs (push : option P) : list string :=
  match push with
  | None => [meshSourceID]
  | Some p =>
      foldl (fun ids id => if bool_decide (id ∈ ids) then ids else ids ++ [id]) [meshSourceID]
        (ReporterIDs p Push.MeshStream ++ ReporterIDs p Push.MeshPacketStream)
  end.

Definition health_error (h : Push.ReporterHealth) : option string :=
  match Push.h_State h with
  | Push.ReporterOK => None
  | Push.ReporterUnknown => Some "no report received yet"
  | s =>
      let err := "no report since " +:+ rfc3339 (Push.LastAcceptedAt h) +:+ " (" +:+ state_text s +:+ ")" in
      Some match Push.h_LastError h with
           | Some e => err +:+ "; last error: " +:+ reason_text e
           | None => err
           end
  end.

(** The sources with an error; a source without one is absent. *)
Definition reporterHealth (snap : Push.MeshSnapshot) : gmap string string :=
  foldl (fun out h => partial_alter (fun _ => health_error h) (Push.h_ID h) out) ∅
    (Push.sn_Reporters snap ++ Push.PacketReporters snap).

(** ** The event of a node *)

(** Higher priority first, then the reporter's id. *)
Definition report_le (a b : Push.MeshNodeReport) : Prop :=
  Push.nr_Priority b < Push.nr_Priority a
  \/ Push.nr_Priority a = Push.nr_Priority b /\ str_le (Push.nr_ReporterID a) (Push.nr_ReporterID b).
#[export] Instance report_le_dec : RelDecision report_le.
Proof. intros a b. unfold report_le. apply _. Defined.

Definition monitorHolds (c : Config) (m : mergedNode) (v : View) (now : Time) : bool :=
  if negb (Nat.eqb (String.length (key m)) meshPubKeyHex) || negb (bool_decide (is_Some (v_ByID v (event_id (key m)))))
  then false
  else existsb (fun r => negb (time_is_zero (Push.nr_LastSuccess r))
                         && (time_sub now (Push.nr_LastSuccess r) <=? UnreachableAfterOrDefault c)) (pushed m).

(** The best stamps of the reports: success, attempt. *)
Definition stamps (reports : list Push.MeshNodeReport) : Time * Time :=
  foldl (fun b r =>
    let s := if time_after (Push.nr_LastSuccess r) b.1 then Push.nr_LastSuccess r else b.1 in
    let a := if time_after (Push.nr_LastAttempt r) b.2 then Push.nr_LastAttempt r else b.2 in
    let a := if time_is_zero (Push.nr_LastAttempt r) && time_after (Push.nr_ReportedAt r) a then Push.nr_ReportedAt r else a in
    (s, a)) (time_zero, time_zero) reports.

Definition reachability (c : Config) (reports : list Push.MeshNodeReport) (now : Time) : MeshReachability :=
  let '(bestSuccess, bestAttempt) := stamps reports in
  if time_is_zero bestAttempt then MESH_REACHABILITY_UNSPECIFIED
  else if negb (time_is_zero bestSuccess) && (time_sub now bestSuccess <=? UnreachableAfterOrDefault c) then REACHABLE
  else UNREACHABLE.

(** The report whose sample is the freshest. *)
Definition best_report (reports : list Push.MeshNodeReport) : option Push.MeshNodeReport :=
  foldl (fun best r =>
    match Push.nr_Telemetry r with
    | None => best
    | Some _ =>
        match best with
        | Some b => if time_after (Push.nr_LastSuccess r) (Push.nr_LastSuccess b) then Some r else best
        | None => Some r
        end
    end) None reports.

Definition meshTelemetry (mqtt : option Registry.NodeState) (reports : list Push.MeshNodeReport)
    (stored : option MeshTelemetry) : MeshTelemetry :=
  let admin := b ← best_report reports; Push.nr_Telemetry b in
  match mqtt with
  | Some m =>
      if Registry.HasSignal m then
        mkMeshTelemetry (Some (Registry.SNR m)) (Some (Registry.RSSI m)) (Some (Z.of_nat (Registry.ns_HopCount m)))
          (Registry.Gateways m) (tsProto (Registry.LastAdvertAt m)) admin None None
      else match stored with
           | Some t =>
               match last_advert_at t with
               | Some _ => mkMeshTelemetry (snr t) (rssi t) (hop_count t) (gateways t) (last_advert_at t) admin None None
               | None => mkMeshTelemetry None None None [] None admin None None
               end
           | None => mkMeshTelemetry None None None [] None admin None None
           end
  | None =>
      match stored with
      | Some t =>
          match last_advert_at t with
          | Some _ => mkMeshTelemetry (snr t) (rssi t) (hop_count t) (gateways t) (last_advert_at t) admin None None
          | None => mkMeshTelemetry None None None [] None admin None None
          end
      | None => mkMeshTelemetry None None None [] None admin None None
      end
  end.

Definition stored_geometry (v : View) (id : string) : option Geometry := v_ByID v id ≫= geometry.

Definition stablePosition (v : View) (id : string) (lat_ lng_ : float64) : option Geometry :=
  let fresh := GeometryFromPoint (quantizeCoord lat_) (quantizeCoord lng_) in
  let prev := stored_geometry v id in
  match centroid_of prev with
  | None => Some fresh
  | Some c =>
      if ltb meshPositionEpsilonMeters (Geojson.MetersBetween (lat c) (lng c) lat_ lng_) then Some fresh else prev
  end.

Definition reporterPlaceIDs (reports : list Push.MeshNodeReport) : list string :=
  sorted_set (reports ≫= Push.nr_PlaceIDs).

(** The operators that name a node's brokers, and the first operator's page. *)
Definition note_operator (c : Config) (push : option P) (st : string * list string) (b : string) : string * list string :=
  let '(url, names) := st in
  let add := fun name => if bool_decide (name ∈ names) then names else names ++ [name] in
  let '(id, forwarder) := Push.ReporterFromPacketSource b in
  if forwarder then
    match push with
    | None => st
    | Some p =>
        match ReporterConfig p id with
        | None => st
        | Some rc => (url, add (firstNonBlank [Push.rc_Name rc; Push.rc_ID rc]))
        end
    end
  else
    match last (filter (fun mb => mb_URL mb = b) (mc_Brokers c)) with
    | None => st
    | Some mb =>
        (if String.eqb url "" && negb (String.eqb (OperatorURL mb) "") then OperatorURL mb else url,
         if String.eqb (Operator mb) "" then names else add (Operator mb))
    end.

Definition meshProvenance (c : Config) (push : option P) (brokers : list string) (now : Time) : Provenance :=
  let '(url, names) := foldl (note_operator c push) ("", []) brokers in
  NewProvenance meshSourceID meshSourceName
    (match names with [] => meshAttribution | _ => meshAttribution +:+ " via " +:+ join ", " names end)
    (if String.eqb url "" then meshMapURL else url) now.

Definition meshNodeURL (c : Config) (key : string) : string :=
  if String.eqb (NodeURL c) "" || negb (Text.Contains (NodeURL c) "{publicKey}")
     || negb (Nat.eqb (String.length key) meshPubKeyHex) || negb (isLowerHex key) then meshMapURL
  else
    let u := safeURL (ReplaceAll (NodeURL c) "{publicKey}" key) in
    if String.eqb u "" then meshMapURL else u.

Definition keepPriorAttribution (v : View) (id : string) (p : Provenance) : Provenance :=
  match v_ByID v id ≫= provenance with
  | Some prev =>
      if String.eqb (attribution prev) "" then p
      else mkProvenance (source_id p) (source_name p) (attribution prev) (source_url prev) (fetched_at p)
  | None => p
  end.

(** The identity of the event: the advert's, else the stored one; a monitor fills
    in what neither has. *)
Definition node_identity (m : mergedNode) (reports : list Push.MeshNodeReport) (stored : option MeshDetail)
    : string * string :=
  let start :=
    match mqtt m with
    | Some s => (Registry.ns_Name s, Registry.ns_Role s)
    | None => match stored with Some d => (m_name d, node_type d) | None => ("", "") end
    end in
  foldl (fun st r => (if String.eqb st.1 "" then Push.nr_Name r else st.1,
                      if String.eqb st.2 "" then meshPushNodeType else st.2)) start reports.

Definition observed (m : mergedNode) (reports : list Push.MeshNodeReport) : Time :=
  let start :=
    match mqtt m with
    | Some s => laterOf (relayedAt m) (laterOf (Registry.LastHeardAt s) (Registry.LastRelayedAt s))
    | None => relayedAt m
    end in
  foldl (fun t r =>
    if time_after (Push.nr_LastSuccess r) t then Push.nr_LastSuccess r
    else if time_is_zero (Push.nr_LastSuccess r) && time_after (Push.nr_ReportedAt r) t then Push.nr_ReportedAt r
    else t) start reports.

Definition node_geometry (m : mergedNode) (v : View) (id : string) : option Geometry :=
  match mqtt m with
  | Some s => if Registry.ns_HasLocation s then stablePosition v id (Registry.ns_Lat s) (Registry.ns_Lng s)
              else stored_geometry v id
  | None => stored_geometry v id
  end.

(** The detail block; a silent monitor's last readings ride forward. *)
Definition node_detail (c : Config) (m : mergedNode) (reports : list Push.MeshNodeReport) (stored : option MeshDetail)
    (name nodeType : string) (now : Time) (monitorSilent : bool) : MeshDetail :=
  let t := meshTelemetry (mqtt m) reports (stored ≫= telemetry) in
  if Nat.eqb (length reports) 0 && monitorSilent then
    mkMeshDetail (key m) nodeType name
      (Some (mkMeshTelemetry (snr t) (rssi t) (hop_count t) (gateways t) (last_advert_at t)
               (match admin t with Some a => Some a | None => (stored ≫= telemetry) ≫= admin end)
               (last_heard_at t) (last_relayed_at t)))
      (match stored with Some s => Grid.reachability s | None => MESH_REACHABILITY_UNSPECIFIED end)
  else mkMeshDetail (key m) nodeType name (Some t) (reachability c reports now).

Definition buildEvent (c : Config) (push : option P) (m : mergedNode) (now fetched : Time) (v : View)
    (monitorSilent : bool) : Event :=
  let reports := merge_sort report_le (pushed m) in
  let id := event_id (key m) in
  let stored := v_ByID v id ≫= GetMesh in
  let '(name, nodeType) := node_identity m reports stored in
  let brokers := match mqtt m with Some s => Registry.Brokers s | None => [] end in
  let prov := meshProvenance c push brokers fetched in
  let prov := match brokers with [] => keepPriorAttribution v id prov | _ => prov end in
  let detail := node_detail c m reports stored name nodeType now monitorSilent in
  mkEvent id MESH nodeType INFO ACTIVE (meshHeadline name nodeType (key m)) "" "" "" (meshNodeURL c (key m))
    (node_geometry m v id) (reporterPlaceIDs reports) (Some prov) None None (tsProto (observed m reports)) None 0 None
    (Some (D_Mesh detail)).

(** ** The merge *)

Definition enumerated (reports : list Push.MeshNodeReport) : gset string :=
  list_to_set (Push.NodeID <$> filter (fun r => Push.nr_Enumerates r = true
                                               /\ String.length (Push.NodeID r) = meshPubKeyHex) reports).

(** The advertised nodes in scope. *)
Definition in_scope (enum : gset string) (boxes : list GeoBounds) (nd : Registry.NodeState) : bool :=
  bool_decide (Registry.ns_PubKey nd ∈ enum)
  || Registry.ns_HasLocation nd && inAnyBounds (Registry.ns_Lat nd) (Registry.ns_Lng nd) boxes.
Definition add_node (enum : gset string) (boxes : list GeoBounds) (m : Merged) (nd : Registry.NodeState) : Merged :=
  if in_scope enum boxes nd then <[Registry.ns_PubKey nd := mkMerged (Registry.ns_PubKey nd) (Some nd) [] time_zero]> m
  else m.

Definition fullKeyCatalog (merged : Merged) (v : View) : list string :=
  sorted_set (filter (fun k => String.length k = meshPubKeyHex) (map_to_list merged).*1
              ++ omap full_key (v_ForSource v meshSourceID)).

(** The key a report is filed under. *)
Definition report_key (catalog : list string) (reg : option R) (r : Push.MeshNodeReport) : string :=
  let k := Push.NodeID r in
  if (String.length k <? meshPubKeyHex)%nat then
    let '(full, ok) := resolveUnique catalog k in
    if ok then full
    else match reg with
         | Some g => let '(full, ok) := ResolvePrefix k g in if ok then full else k
         | None => k
         end
  else k.
Definition add_report (catalog : list string) (reg : option R) (m : Merged) (r : Push.MeshNodeReport) : Merged :=
  let k := report_key catalog reg r in
  let n := default (mkMerged k None [] time_zero) (m !! k) in
  <[k := mkMerged (key n) (mqtt n) (pushed n ++ [r]) (relayedAt n)]> m.

Definition holds (c : Config) (v : View) (now : Time) (x : string * mergedNode) : Prop :=
  is_Some (mqtt x.2) \/ monitorHolds c x.2 v now = true.
#[export] Instance holds_dec c v now x : Decision (holds c v now x).
Proof. unfold holds. apply _. Defined.

(** Relay presence, key by key: a merged node is stamped, a stored one in scope
    comes back. *)
Definition revives (v : View) (enum : gset string) (boxes : list GeoBounds) (k : string) : bool :=
  match v_ByID v (event_id k) with
  | None => false
  | Some ev =>
      bool_decide (k ∈ enum)
      || match centroid_of (geometry ev) with Some c => inAnyBounds (lat c) (lng c) boxes | None => false end
  end.
Definition relay_presence (seen : gmap string Time) (v : View) (enum : gset string) (boxes : list GeoBounds) (m : Merged)
    : Merged :=
  map_imap (fun k n => Some match seen !! k with
                            | Some t => mkMerged (key n) (mqtt n) (pushed n) t
                            | None => n
                            end) m
  ∪ map_imap (fun k t => if revives v enum boxes k then Some (mkMerged k None [] t) else None) seen.

(** ** What goes with the events *)

Definition shouldPersistTelemetry (c : Config) (ev : Event) (v : View) (now : Time) : bool :=
  match GetTelemetry ev ≫= admin with
  | None => false
  | Some _ =>
      match v_ByID v (Id ev) with
      | None => false
      | Some stored =>
          match GetTelemetry stored ≫= admin with
          | None => true
          | Some prev =>
              match reported_at prev with
              | None => true
              | Some t => TelemetryPersistIntervalOrDefault c <=? time_sub now t
              end
          end
      end
  end.

(** [keys] is the order the merged map is iterated in. *)
Definition promote (keys : list string) (ev : Event) : option MeshKeyRename :=
  native ← CutPrefix (Id ev) (meshSourceID +:+ ":");
  if (meshPubKeyHex <=? String.length native)%nat then None
  else
    match list_find (fun k => String.length k = meshPubKeyHex /\ HasPrefix k native = true) keys with
    | Some (_, k) => Some (mkMeshKeyRename native k)
    | None => None
    end.
Definition promotedPrefixKeys (keys : list string) (v : View) : list MeshKeyRename :=
  sort_on rn_From (omap (promote keys) (v_ForSource v meshSourceID)).

Definition supersededIDs (l : list MeshKeyRename) : list string := (fun p => event_id (rn_From p)) <$> l.

Definition sample_of_event (now : Time) (ev : Event) : option Mesh.MeshTelemetrySample :=
  d ← GetMesh ev;
  a ← telemetry d ≫= admin;
  at_ ← reported_at a;
  if String.eqb (public_key d) "" then None
  else Some (Mesh.mkMeshTelemetrySample (public_key d) at_ now (reporter_id a) (tsTime (last_success_at a))
         (tsTime (last_attempt_at a))
         (Mesh.mkReadings (battery_volts a) (battery_percent a) (battery_percent_source a) (temperature_c a) (humidity a)
            (pressure a) (noise_floor_dbm a) (last_snr_db a) (last_rssi_dbm a) (tx_queue_len a) (uptime_seconds a)
            (airtime_ms a) (rx_airtime_ms a) (packets_sent a) (packets_received a) (sent_flood a) (sent_direct a)
            (recv_flood a) (recv_direct a) (direct_dups a) (flood_dups a) (full_events a) (recv_errors a))).
Definition meshTelemetrySamples (evs : list Event) (now : Time) : list Mesh.MeshTelemetrySample :=
  omap (sample_of_event now) evs.

(** The activity clocks of this tick, for the covered keys. *)
Definition activity_now (covered : list string) (merged : Merged) (relays : gmap string Time)
    : gmap string Mesh.MeshActivity :=
  let heard := map_imap (fun k m =>
    match mqtt m with
    | Some s => if negb (time_is_zero (Registry.ReceivedAt s)) && bool_decide (k ∈ covered)
                then Some (Mesh.mkMeshActivity k (Registry.ReceivedAt s) time_zero) else None
    | None => None
    end) merged in
  let relayed := map_imap (fun k t =>
    if bool_decide (k ∈ covered) then Some (Mesh.mkMeshActivity k time_zero t) else None) relays in
  union_with (fun h r => Some (Mesh.mkMeshActivity (Mesh.a_PubKey r) (Mesh.LastHeardAt h) (Mesh.LastRelayedAt r)))
    heard relayed.

Definition advanced (known : gmap string Mesh.MeshActivity) (k : string) (a : Mesh.MeshActivity) : option Mesh.MeshActivity :=
  let prev := default (Mesh.mkMeshActivity k time_zero time_zero) (known !! k) in
  let next := Mesh.mkMeshActivity k (laterOf (Mesh.LastHeardAt prev) (Mesh.LastHeardAt a))
                (laterOf (Mesh.LastRelayedAt prev) (Mesh.LastRelayedAt a)) in
  if (Mesh.LastHeardAt next =? Mesh.LastHeardAt prev) && (Mesh.LastRelayedAt next =? Mesh.LastRelayedAt prev)
  then None else Some next.
Definition meshActivity (merged : Merged) (v : View) (relays : gmap string Time) (n : Normalizer)
    : list Mesh.MeshActivity * Normalizer :=
  let moved := map_imap (advanced (activity n)) (activity_now (fullKeyCatalog merged v) merged relays) in
  (sort_on Mesh.a_PubKey (map_to_list moved).*2, set_activity (moved ∪ activity n) n).

Definition store_observation (o : Registry.Observation) : Mesh.MeshObservation :=
  Mesh.mkMeshObservation (Registry.o_PubKey o) (Registry.o_HeardAt o) (Registry.o_Broker o) (Registry.o_Gateway o)
    (Registry.o_SNR o) (Registry.o_RSSI o) (Z.of_nat (Registry.o_HopCount o)) (Registry.o_Path o) (Registry.o_PathNodes o).
Definition drainObservations (reg : option R) : list Mesh.MeshObservation * option R :=
  match reg with
  | None => ([], None)
  | Some g => let '(obs, g) := DrainObservations g in (store_observation <$> obs, Some g)
  end.

(** ** The poll *)

Definition errSilent : string :=
  "meshcore: no broker delivering and no reporter live; not asserting node disappearance".

Definition no_snapshot : Push.MeshSnapshot := Push.mkMeshSnapshot [] [] false false 0 [] 0.

(** From the inputs of a tick to the merged nodes: the nodes in scope, the reports
    filed on them, what holds without an advert, and relay presence. *)
Definition merge_nodes (c : Config) (reg : option R) (nodes : list Registry.NodeState) (reports : list Push.MeshNodeReport)
    (seen : gmap string Time) (v : View) (now : Time) : Merged :=
  let boxes := geofence c in
  let enum := enumerated reports in
  let merged := foldl (add_node enum boxes) ∅ nodes in
  let merged := foldl (add_report (fullKeyCatalog merged v) reg) merged reports in
  relay_presence seen v enum boxes (filter (holds c v now) merged).

(** The two outages of [Poll]: an empty scope, and no input live. *)
Definition brokers_of (reg : option R) : list BrokerHealth := match reg with Some g => Brokers g | None => [] end.
Definition snap_of (push : option P) : Push.MeshSnapshot := match push with Some p => MeshReports p | None => no_snapshot end.
Definition delivering (reg : option R) : nat := (brokerDelivery (brokers_of reg)).1.
Definition brokerErr (reg : option R) : option string := (brokerDelivery (brokers_of reg)).2.
Definition no_scope (c : Config) (reg : option R) : bool := bool_decide (is_Some reg) && Nat.eqb (length (geofence c)) 0.
Definition silent (reg : option R) (push : option P) : bool :=
  Nat.eqb (delivering reg) 0 && Nat.eqb (Push.Live (snap_of push)) 0 && Nat.eqb (Push.PacketLive (snap_of push)) 0.

(** What a tick works on: what is stored, the relay credits drained by this tick
    and those within the window, and the presented nodes. The relays drain before
    the snapshot. *)
Record Tick := mkTick {
  tk_view : View; tk_relays : gmap string Time; tk_seen : gmap string Time; tk_nodes : list Registry.NodeState }.
Definition gather (c : Config) (catalog : option (unit + list Event)) (now : Time) (prior : Prior)
    (reg : option R) (push : option P) (n : Normalizer) : Tick * option R * Normalizer :=
  let '(gone, n) := expiredNodes catalog now n in
  let v := withExpired (view_of prior) gone in
  let current := (0 <? delivering reg)%nat || (0 <? Push.PacketLive (snap_of push))%nat in
  match reg with
  | Some g =>
      let '(relays, g) := DrainRelays (knownMeshNodes v ++ knownExpired gone) g in
      let '(seen, n) := noteRelays c relays now n in
      let '(nodes, g) := if current then Snapshot g else ([], g) in
      (mkTick v relays seen nodes, Some g, n)
  | None => let '(seen, n) := noteRelays c ∅ now n in (mkTick v ∅ seen [], None, n)
  end.

Definition merged_of (c : Config) (t : Tick) (reg : option R) (push : option P) (now : Time) : Merged :=
  merge_nodes c reg (tk_nodes t) (Push.Reports (snap_of push)) (tk_seen t) (tk_view t) now.
Definition events_of (c : Config) (t : Tick) (merged : Merged) (push : option P) (now : Time) (fetched : string -> Time)
    : list Event :=
  sort_on Id ((fun m => buildEvent c push m now (fetched (key m)) (tk_view t) (Push.MonitorSilent (snap_of push)))
              <$> (map_to_list merged).*2).

Definition Poll (c : Config) (catalog : option (unit + list Event)) (now : Time) (fetched : string -> Time) (prior : Prior)
    (reg : option R) (push : option P) (n : Normalizer) : (string + PollResult) * option R * Normalizer :=
  let snap := snap_of push in
  if no_scope c reg then (inl (errEmptyScope "meshcore geofence"), reg, n)
  else if silent reg push
  then (inl (match brokerErr reg with Some e => errSilent +:+ " (" +:+ e +:+ ")" | None => errSilent end), reg, n)
  else
    let '(t, reg', n) := gather c catalog now prior reg push n in
    let merged := merged_of c t reg' push now in
    let events := events_of c t merged push now fetched in
    let promotions := promotedPrefixKeys (map_to_list merged).*1 (tk_view t) in
    let perSource := match brokerErr reg with
                     | Some e => <[meshSourceID := e]> (reporterHealth snap)
                     | None => reporterHealth snap
                     end in
    let '(obs, reg') := drainObservations reg' in
    let '(act, n) := meshActivity merged (tk_view t) (tk_relays t) n in
    (inr (mkPollResult events perSource (if Push.SuppressSweep snap then [meshSourceID] else [])
            (supersededIDs promotions) obs act (meshTelemetrySamples events now) promotions
            (Id <$> filter (fun ev => shouldPersistTelemetry c ev (tk_view t) now = true) events) true), reg', n).

End Network.

(** ** The inputs the server wires *)

(** [brokerLink], with whether its session is open. *)
Record brokerLink := mkLink { l_url : string; l_open : bool; l_startedAt : Time; l_lastMsg : Time }.

(** The registry of [client.go], with the clock of the poll. *)
Record WiredRegistry := mkWired {
  w_cfg : Registry.Config; w_now : Time; w_links : list brokerLink; w_reg : Registry.Registry }.
Definition set_reg (r : Registry.Registry) (w : WiredRegistry) : WiredRegistry := mkWired (w_cfg w) (w_now w) (w_links w) r.

Definition link_health `{Wording} (w : WiredRegistry) (l : brokerLink) : BrokerHealth :=
  mkBrokerHealth (l_url l)
    match Registry.deliveryProblem (l_open l) (l_startedAt l) (l_lastMsg l) (w_now w) (Registry.SilenceAfter (w_cfg w)) with
    | None => ""
    | Some p => problem_text p
    end.

#[export] Instance registry_source `{UnicodeLower, Wording} : MeshRegistry WiredRegistry := {|
  Snapshot w := let '(l, r) := Registry.Snapshot (w_cfg w) (w_now w) (w_reg w) in (l, set_reg r w);
  Brokers w := link_health w <$> w_links w;
  DrainObservations w := let '(l, r) := Registry.DrainObservations (w_reg w) in (l, set_reg r w);
  DrainRelays known w := let '(m, r) := Registry.DrainRelays known (w_now w) (w_reg w) in (m, set_reg r w);
  ResolvePrefix prefix w := Registry.ResolvePrefix prefix (w_reg w) |}.

(** [Registry.ReporterConfig]. *)
Definition reporter_config (r : Push.Registry) (id : string) : option Push.Reporter :=
  Push.r_cfg <$> head (filter (fun rep => Push.rc_ID (Push.r_cfg rep) = id) (Push.order r)).

(** The endpoint's registry of [pushingest], with the clock of the poll. *)
#[export] Instance push_source : MeshPushSource (Push.Registry * Time) := {|
  MeshReports p := Push.MeshReports p.1 p.2;
  ReporterIDs p stream := Push.ReporterIDs p.1 stream;
  ReporterConfig p id := reporter_config p.1 id |}.

End Network.
