(* ===== verification/NetworkSpec.v ===== *)
(** * What the mesh feed promises

    Theorems on [Network]: a broker that is out or a stale forwarder never ends a
    node (with the scheduler's tick), which nodes a poll presents and on whose word,
    whose readings an event carries, that a node that did not change keeps its
    content hash, and what is remembered between ticks. *)

From Stdlib Require Import Ascii.
From S2P Require Import Prelude Float64 Geo Geojson GridEvent EventCodec GoText MeshFrame MeshRelay MeshRegistry MeshRegistrySpec Tx BurnStore PushIngest Store StoreSpec Mesh Scheduler SchedulerSpec Feeds Network.

Module NetworkSpec.
Import F64 Grid Text Store Feeds Network.
Import Scheduler (Prior, PollResult, mkPollResult, MeshKeyRename, mkMeshKeyRename, rn_From, rn_To, Events, PerSource, SweepSuppress, Superseded, MeshTelemetryRenames, MeshObservations, pr_MeshActivity, MeshTelemetry_, ForceWrite, ByID, ForSource).

(** ** Keys and orders *)

#[export] Instance event_id_inj : Inj eq eq event_id.
Proof. intros a b H. unfold event_id in H. by do 2 apply (inj (String.append _)) in H. Qed.

Lemma CutPrefix_event_id k : CutPrefix (event_id k) (meshSourceID +:+ ":") = Some k.
Proof.
  unfold CutPrefix, event_id. change (meshSourceID +:+ ":" +:+ k) with ((meshSourceID +:+ ":") +:+ k).
  rewrite TrimPrefix_app. unfold HasPrefix.
  assert (forall p s, String.prefix p (p +:+ s) = true) as ->; [|done].
  clear. intros p s. induction p as [|x p IH]; [by destruct s|]. rewrite app_cons. cbn. by destruct (ascii_dec x x).
Qed.

Lemma event_id_inv id k : CutPrefix id (meshSourceID +:+ ":") = Some k -> id = event_id k.
Proof. by intros ->%CutPrefix_Some. Qed.

#[export] Instance le_on_trans {A} (f : A -> string) : Transitive (le_on f).
Proof. intros a b c. unfold le_on. apply transitivity. Qed.
#[export] Instance le_on_total {A} (f : A -> string) : Total (le_on f).
Proof. intros a b. unfold le_on. apply (total str_le). Qed.

Lemma sort_on_perm {A} (f : A -> string) l : sort_on f l ≡ₚ l.
Proof. apply merge_sort_Permutation. Qed.
Lemma sort_on_sorted {A} (f : A -> string) l : Sorted str_le (f <$> sort_on f l).
Proof.
  pose proof (Sorted_merge_sort (le_on f) l) as H. unfold sort_on. induction H as [|x l' Hs IH Hx]; [constructor|].
  cbn. constructor; [exact IH|]. destruct Hx; constructor. done.
Qed.

Lemma resolveUnique_eq catalog prefix : resolveUnique catalog prefix = Registry.resolve_prefix prefix "" catalog.
Proof.
  unfold resolveUnique. generalize ""%string. induction catalog as [|k l IH]; intros m; cbn.
  - by destruct (String.eqb_spec m ""), (bool_decide_reflect (m = "")).
  - destruct (HasPrefix k prefix); cbn [negb]; [|apply IH].
    destruct (String.eqb_spec m ""), (bool_decide_reflect (m = "")); try done. apply IH.
Qed.

(** ** The merge *)

Section Merge.
Context {MK : MathKernel} {GT : GeoText} {Wd : Wording} {R P : Type} {MR : MeshRegistry R} {MP : MeshPushSource P}.
Implicit Types (reg : option R) (push : option P) (c : Config) (now : Time) (k : string).

(** The reports filed under a key. *)
Definition filed (catalog : list string) reg (reports : list Push.MeshNodeReport) (k : string) : list Push.MeshNodeReport :=
  filter (fun r => report_key catalog reg r = k) reports.

Definition node_wf (enum : gset string) (boxes : list GeoBounds) (nodes : list Registry.NodeState) (k : string)
    (n : mergedNode) : Prop :=
  key n = k /\ pushed n = [] /\ relayedAt n = time_zero
  /\ exists nd, mqtt n = Some nd /\ nd ∈ nodes /\ Registry.ns_PubKey nd = k /\ in_scope enum boxes nd = true.

Lemma add_nodes_lookup enum boxes nodes k :
  (forall n, foldl (add_node enum boxes) ∅ nodes !! k = Some n -> node_wf enum boxes nodes k n)
  /\ (is_Some (foldl (add_node enum boxes) ∅ nodes !! k)
      <-> exists nd, nd ∈ nodes /\ Registry.ns_PubKey nd = k /\ in_scope enum boxes nd = true).
Proof.
  induction nodes as [|nd nodes [IHwf IHsome]] using rev_ind.
  { cbn [foldl]. rewrite lookup_empty. split; [done|]. split; [by intros [? ?]|].
    by intros (nd & ?%not_elem_of_nil & _). }
  rewrite foldl_app. cbn. unfold add_node at 1 3. destruct (in_scope enum boxes nd) eqn:Hin.
  - split.
    + intros n. destruct (decide (Registry.ns_PubKey nd = k)) as [Hk|Hk].
      * rewrite Hk, lookup_insert_eq. intros [= <-]. unfold node_wf. cbn. split_and!; [done..|].
        exists nd. split_and!; [done| |done..]. apply elem_of_app. right. by apply list_elem_of_singleton.
      * rewrite lookup_insert_ne by done. intros (? & ? & ? & x & ? & ? & ? & ?)%IHwf. split_and!; [done..|].
        exists x. split_and!; [done| |done..]. apply elem_of_app. by left.
    + destruct (decide (Registry.ns_PubKey nd = k)) as [Hk|Hk].
      * rewrite Hk, lookup_insert_eq. split; [intros _; exists nd|eauto].
        split_and!; [|done..]. apply elem_of_app. right. by apply list_elem_of_singleton.
      * rewrite lookup_insert_ne by done. rewrite IHsome. setoid_rewrite elem_of_app.
        setoid_rewrite list_elem_of_singleton. split; [intros (x & ? & ? & ?); eauto 6|].
        intros (x & [?| ->] & ? & ?); [eauto 6|done].
  - split.
    + intros n (? & ? & ? & x & ? & ? & ? & ?)%IHwf. split_and!; [done..|].
      exists x. split_and!; [done| |done..]. apply elem_of_app. by left.
    + rewrite IHsome. setoid_rewrite elem_of_app. setoid_rewrite list_elem_of_singleton.
      split; [intros (x & ? & ? & ?); eauto 6|]. intros (x & [?| ->] & ? & ?); [eauto 6|congruence].
Qed.

(** Reports are filed in order, under their key and no other. *)
Definition with_reports (k : string) (l : list Push.MeshNodeReport) (n : option mergedNode) : option mergedNode :=
  match n, l with
  | None, [] => None
  | _, _ =>
      let n := default (mkMerged k None [] time_zero) n in Some (mkMerged (key n) (mqtt n) (pushed n ++ l) (relayedAt n))
  end.
Lemma add_reports_lookup catalog reg l k (m : Merged) :
  foldl (add_report catalog reg) m l !! k = with_reports k (filed catalog reg l k) (m !! k).
Proof.
  induction l as [|r l IH] using rev_ind.
  { cbn. destruct (m !! k) as [[? ? ? ?]|]; cbn; [by rewrite app_nil_r|done]. }
  unfold filed. rewrite foldl_app, filter_app. fold (filed catalog reg l k). cbn [foldl].
  unfold add_report at 1. rewrite filter_cons, filter_nil.
  destruct (decide (report_key catalog reg r = k)) as [->|Hk].
  - rewrite lookup_insert_eq, IH. unfold with_reports. destruct (m !! k) as [n|]; cbn; [by rewrite app_assoc|].
    destruct (filed catalog reg l k); cbn; [done|]. done.
  - by rewrite lookup_insert_ne, app_nil_r by done.
Qed.

(** The three ways a node is present: an advert in scope, a monitor that reached an
    established node within the window, a relay credit within the window of a node
    that is stored in scope. *)
Definition heard (enum : gset string) (boxes : list GeoBounds) (nodes : list Registry.NodeState) (k : string) : Prop :=
  exists nd, nd ∈ nodes /\ Registry.ns_PubKey nd = k /\ in_scope enum boxes nd = true.
Definition reached c now (r : Push.MeshNodeReport) : Prop :=
  Push.nr_LastSuccess r <> time_zero /\ time_sub now (Push.nr_LastSuccess r) <= UnreachableAfterOrDefault c.
Definition held c (v : View) now (catalog : list string) reg (reports : list Push.MeshNodeReport) (k : string) : Prop :=
  String.length k = meshPubKeyHex /\ is_Some (v_ByID v (event_id k))
  /\ exists r, r ∈ reports /\ report_key catalog reg r = k /\ reached c now r.
Definition relayed (seen : gmap string Time) (v : View) (enum : gset string) (boxes : list GeoBounds) (k : string) : Prop :=
  is_Some (seen !! k) /\ revives v enum boxes k = true.

(** The keys reports are resolved against. *)
Definition catalog_of c (nodes : list Registry.NodeState) (reports : list Push.MeshNodeReport) (v : View) : list string :=
  fullKeyCatalog (foldl (add_node (enumerated reports) (geofence c)) ∅ nodes) v.

Lemma monitorHolds_spec c m v now :
  monitorHolds c m v now = true
  <-> String.length (key m) = meshPubKeyHex /\ is_Some (v_ByID v (event_id (key m)))
      /\ exists r, r ∈ pushed m /\ reached c now r.
Proof.
  unfold monitorHolds, reached. destruct (Nat.eqb_spec (String.length (key m)) meshPubKeyHex) as [Hl|Hl]; cbn [negb orb].
  2: { split; [done|]. by intros (? & _). }
  case_bool_decide as Hs; cbn [negb]; [|by split; [|intros (_ & ? & _)]].
  rewrite existsb_exists. unfold time_is_zero, time_zero. split.
  - intros (r & Hr%list_elem_of_In & [Hz Hw]%andb_prop). split_and!; [done..|]. exists r. split; [done|].
    split; [|by apply Z.leb_le]. intros H0. by rewrite H0 in Hz.
  - intros (_ & _ & r & Hr & Hz & Hw). exists r. split; [by apply list_elem_of_In|].
    apply andb_true_intro. split; [|by apply Z.leb_le]. by rewrite (proj2 (Z.eqb_neq _ _) Hz).
Qed.

(** The nodes of a tick: which they are, and what each carries. *)
Definition merged_wf (nodes : list Registry.NodeState) enum boxes (reports : list Push.MeshNodeReport) (k : string)
    (n : mergedNode) : Prop :=
  key n = k
  /\ (forall nd, mqtt n = Some nd -> nd ∈ nodes /\ Registry.ns_PubKey nd = k /\ in_scope enum boxes nd = true)
  /\ (pushed n = reports \/ pushed n = [] /\ mqtt n = None).

Section Stages.
Variables (c : Config) (reg : option R) (nodes : list Registry.NodeState) (reports : list Push.MeshNodeReport)
  (v : View) (now : Time) (k : string).
Local Abbreviation enum := (enumerated reports).
Local Abbreviation boxes := (geofence c).
Local Abbreviation catalog := (catalog_of c nodes reports v).
Local Abbreviation m1 := (foldl (add_node enum boxes) ∅ nodes).
Local Abbreviation m2 := (foldl (add_report catalog reg) m1 reports).
Local Abbreviation m3 := (filter (holds c v now) m2).

Lemma filed_lookup n :
  m2 !! k = Some n -> key n = k /\ pushed n = filed catalog reg reports k /\ mqtt n = (m1 !! k ≫= mqtt).
Proof.
  destruct (add_nodes_lookup enum boxes nodes k) as [Hwf _]. rewrite add_reports_lookup. unfold with_reports.
  destruct (m1 !! k) as [n1|].
  - cbn. intros [= <-]. cbn. destruct (Hwf n1 eq_refl) as (-> & -> & _ & x & -> & _). done.
  - destruct (filed _ _ _ _); [done|]. by intros [= <-].
Qed.

Lemma heard_lookup : is_Some (m1 !! k ≫= mqtt) <-> heard enum boxes nodes k.
Proof.
  destruct (add_nodes_lookup enum boxes nodes k) as [Hwf Hsome].
  unfold heard. rewrite <-Hsome. split; [destruct (m1 !! k); cbn; [eauto|by intros [? ?]]|].
  intros [n1 E1]. destruct (Hwf n1 E1) as (_ & _ & _ & x & Hx & _). rewrite E1. cbn. eauto.
Qed.

Lemma held_lookup : is_Some (m3 !! k) <-> heard enum boxes nodes k \/ held c v now catalog reg reports k.
Proof.
  split.
  - intros [n [Hn Hh]%map_lookup_filter_Some]. destruct (filed_lookup n Hn) as (Hk & Hp & Hm).
    destruct Hh as [Hh|(Hl & Hs & r & Hr & Hre)%monitorHolds_spec]; cbn in *.
    + left. apply heard_lookup. by rewrite <-Hm.
    + right. rewrite Hk in Hl, Hs. split_and!; [done..|]. rewrite Hp in Hr.
      apply list_elem_of_filter in Hr as [Hr1 Hr2]. eauto.
  - intros Hor. assert (Hn : is_Some (m2 !! k)).
    { rewrite add_reports_lookup. destruct Hor as [Hh|(_ & _ & r & Hr & Hf & _)].
      - apply (add_nodes_lookup enum boxes nodes k) in Hh as [n1 ->]. cbn. eauto.
      - destruct (filed catalog reg reports k) eqn:Ef; [|unfold with_reports; destruct (m1 !! k); eauto].
        exfalso. apply (not_elem_of_nil r). rewrite <-Ef. by apply list_elem_of_filter. }
    destruct Hn as [n Hn]. exists n. apply map_lookup_filter_Some. split; [done|].
    destruct (filed_lookup n Hn) as (Hk & Hp & Hm). destruct Hor as [Hh|(Hl & Hs & r & Hr & Hf & Hre)].
    + left. cbn. rewrite Hm. by apply heard_lookup.
    + right. apply monitorHolds_spec. cbn. rewrite Hk, Hp. split_and!; [done..|]. exists r.
      split; [by apply list_elem_of_filter|done].
Qed.

Lemma presence_lookup seen :
  merge_nodes c reg nodes reports seen v now !! k
  = match m3 !! k with
    | Some n => Some match seen !! k with Some t => mkMerged (key n) (mqtt n) (pushed n) t | None => n end
    | None => if revives v enum boxes k then (fun t => mkMerged k None [] t) <$> seen !! k else None
    end.
Proof.
  unfold merge_nodes, relay_presence. change (fullKeyCatalog m1 v) with catalog.
  rewrite lookup_union, !map_lookup_imap.
  by destruct (m3 !! k), (seen !! k); cbn; destruct (revives v enum boxes k).
Qed.

Lemma merge_lookup seen :
  let merged := merge_nodes c reg nodes reports seen v now in
  (forall n, merged !! k = Some n -> merged_wf nodes enum boxes (filed catalog reg reports k) k n)
  /\ (is_Some (merged !! k)
      <-> heard enum boxes nodes k \/ held c v now catalog reg reports k \/ relayed seen v enum boxes k).
Proof.
  cbv zeta. rewrite presence_lookup. unfold merged_wf. split.
  - intros n. destruct (m3 !! k) as [n3|] eqn:E3.
    + apply map_lookup_filter_Some in E3 as [E3 _]. destruct (filed_lookup n3 E3) as (Hk & Hp & Hm).
      assert (Hnd : forall nd, mqtt n3 = Some nd -> nd ∈ nodes /\ Registry.ns_PubKey nd = k /\ in_scope enum boxes nd = true).
      { rewrite Hm. intros nd Hnd. destruct (m1 !! k) as [n1|] eqn:E1; [|done].
        destruct (proj1 (add_nodes_lookup enum boxes nodes k) n1 E1) as (_ & _ & _ & x & Hx & ? & ? & ?).
        cbn in Hnd. by simplify_eq. }
      intros [= <-]. destruct (seen !! k); cbn; (split_and!; [done|exact Hnd|by left]).
    + destruct (revives v enum boxes k); [|done]. destruct (seen !! k); [|done]. intros [= <-].
      cbn. split_and!; [done|done|by right].
  - transitivity (is_Some (m3 !! k) \/ relayed seen v enum boxes k); [|rewrite held_lookup; tauto].
    unfold relayed. destruct (m3 !! k); [split; eauto|].
    destruct (revives v enum boxes k), (seen !! k); cbn; rewrite ?is_Some_alt; intuition done.
Qed.

End Stages.

(** ** The poll *)

Lemma buildEvent_Id c push m now fetched v silent_ : Id (buildEvent c push m now fetched v silent_) = event_id (key m).
Proof. unfold buildEvent. by destruct (node_identity _ _ _). Qed.
Lemma buildEvent_mesh c push m now fetched v silent_ :
  exists d, GetMesh (buildEvent c push m now fetched v silent_) = Some d /\ public_key d = key m
    /\ d = node_detail c m (merge_sort report_le (pushed m)) (v_ByID v (event_id (key m)) ≫= GetMesh)
             (m_name d) (node_type d) now silent_.
Proof.
  unfold buildEvent. destruct (node_identity _ _ _) as [name ty]. eexists. split; [reflexivity|].
  unfold node_detail. by destruct (_ && _).
Qed.

Lemma Poll_inr c expired_ now fetched prior reg push n res reg' n' :
  Poll c expired_ now fetched prior reg push n = (inr res, reg', n') ->
  no_scope c reg = false /\ silent reg push = false
  /\ exists t reg1 n1, gather c expired_ now prior reg push n = (t, reg1, n1)
    /\ let merged := merged_of c t reg1 push now in
       let events := events_of c t merged push now fetched in
       let promotions := promotedPrefixKeys (map_to_list merged).*1 (tk_view t) in
       Events res = events /\ MeshTelemetryRenames res = promotions /\ Superseded res = supersededIDs promotions
       /\ PerSource res = match brokerErr reg with
                          | Some e => <[meshSourceID := e]> (reporterHealth (snap_of push))
                          | None => reporterHealth (snap_of push)
                          end
       /\ SweepSuppress res = (if Push.SuppressSweep (snap_of push) then [meshSourceID] else [])
       /\ meshActivity merged (tk_view t) (tk_relays t) n1 = (pr_MeshActivity res, n')
       /\ MeshTelemetry_ res = meshTelemetrySamples events now.
Proof.
  unfold Poll. destruct (no_scope c reg); [done|]. destruct (silent reg push); [done|].
  destruct (gather c expired_ now prior reg push n) as [[t reg1] n1] eqn:Eg.
  destruct (drainObservations reg1) as [obs reg2]. destruct (meshActivity _ _ _ _) as [act n2] eqn:Ea.
  intros [= <- <- <-]. split_and!; [done..|]. exists t, reg1, n1. by split_and!.
Qed.

Lemma gather_view c expired_ now prior reg push n :
  tk_view (gather c expired_ now prior reg push n).1.1 = withExpired (view_of prior) (expiredNodes expired_ now n).1.
Proof.
  unfold gather. destruct (expiredNodes expired_ now n) as [gone n1]. destruct reg as [g|].
  - destruct (DrainRelays _ g) as [relays g1]. destruct (noteRelays c relays now n1) as [seen n2].
    destruct (_ || _); [by destruct (Snapshot g1)|done].
  - by destruct (noteRelays c ∅ now n1).
Qed.

(** The keys of the merged map and the ids of the events. *)
Lemma merged_key c t reg push now k m : merged_of c t reg push now !! k = Some m -> key m = k.
Proof. intros H. by destruct (proj1 (merge_lookup c reg _ _ (tk_view t) now k (tk_seen t)) m H). Qed.

Lemma events_ids c t reg push now fetched :
  Id <$> events_of c t (merged_of c t reg push now) push now fetched
  ≡ₚ event_id <$> (map_to_list (merged_of c t reg push now)).*1.
Proof.
  unfold events_of. rewrite sort_on_perm, <-!list_fmap_compose.
  apply Permutation_refl'. apply list_fmap_ext. intros i [k m] Hi%list_elem_of_lookup_2%elem_of_map_to_list.
  unfold compose. rewrite buildEvent_Id. cbn. f_equal. by eapply merged_key.
Qed.

Lemma elem_of_events c t reg push now fetched ev :
  ev ∈ events_of c t (merged_of c t reg push now) push now fetched
  <-> exists k m, merged_of c t reg push now !! k = Some m /\ key m = k
        /\ ev = buildEvent c push m now (fetched k) (tk_view t) (Push.MonitorSilent (snap_of push)).
Proof.
  unfold events_of. rewrite sort_on_perm, list_elem_of_fmap. setoid_rewrite list_elem_of_fmap. split.
  - intros (m & -> & [k m'] & -> & Hm%elem_of_map_to_list). exists k, m'. cbn.
    pose proof (merged_key _ _ _ _ _ _ _ Hm) as Hk. by rewrite Hk.
  - intros (k & m & Hm & Hk & ->). exists m. split; [by rewrite Hk|]. exists (k, m). split; [done|].
    by apply elem_of_map_to_list.
Qed.

Lemma events_are c expired_ now fetched prior reg push n res reg' n' :
  Poll c expired_ now fetched prior reg push n = (inr res, reg', n') ->
  let g := gather c expired_ now prior reg push n in
  let reports := Push.Reports (snap_of push) in let enum := enumerated reports in
  forall id, id ∈ Id <$> Events res
  <-> exists k, id = event_id k
        /\ (heard enum (geofence c) (tk_nodes g.1.1) k
            \/ held c (tk_view g.1.1) now (catalog_of c (tk_nodes g.1.1) reports (tk_view g.1.1)) g.1.2 reports k
            \/ relayed (tk_seen g.1.1) (tk_view g.1.1) enum (geofence c) k).
Proof.
  intros (_ & _ & t & reg1 & n1 & Eg & Hev & _)%Poll_inr. rewrite Eg. cbn [fst snd]. cbv zeta. rewrite Hev.
  intros id. rewrite events_ids, list_elem_of_fmap. setoid_rewrite list_elem_of_fmap.
  setoid_rewrite <-(proj2 (merge_lookup c reg1 (tk_nodes t) _ (tk_view t) now _ (tk_seen t))). split.
  - intros (k & -> & [k' m] & -> & Hm%elem_of_map_to_list). eauto.
  - intros (k & -> & [m Hm]). exists k. split; [done|]. exists (k, m). by rewrite elem_of_map_to_list.
Qed.

(** C21: which nodes a poll presents: exactly those with an advert in scope, those
    stored under a full key that a monitor reached within the window, and those
    stored in scope with a relay credit within the window; one event each, in the
    order of their ids. So a monitor never mints an event: one without an advert
    this tick is of a node that is stored already. *)
Theorem presence c expired_ now fetched prior reg push n res reg' n' :
  Poll c expired_ now fetched prior reg push n = (inr res, reg', n') ->
  let g := gather c expired_ now prior reg push n in
  let v := tk_view g.1.1 in let nodes := tk_nodes g.1.1 in
  let reports := Push.Reports (snap_of push) in let boxes := geofence c in let enum := enumerated reports in
  Sorted str_le (Id <$> Events res) /\ NoDup (Id <$> Events res)
  /\ (forall id, id ∈ Id <$> Events res
       <-> exists k, id = event_id k
             /\ (heard enum boxes nodes k \/ held c v now (catalog_of c nodes reports v) g.1.2 reports k
                 \/ relayed (tk_seen g.1.1) v enum boxes k))
  /\ (forall ev, ev ∈ Events res ->
        layer ev = MESH /\ status ev = ACTIVE
        /\ ((exists nd, nd ∈ nodes /\ Id ev = event_id (Registry.ns_PubKey nd)) \/ is_Some (v_ByID v (Id ev)))).
Proof.
  intros Hp. pose proof (events_are _ _ _ _ _ _ _ _ _ _ _ Hp) as Hids. cbv zeta in Hids.
  destruct (Poll_inr _ _ _ _ _ _ _ _ _ _ _ Hp) as (_ & _ & t & reg1 & n1 & Eg & Hev & _).
  rewrite Eg in Hids |- *. cbn [fst snd] in *. cbv zeta. split_and!; [..|exact Hids|]; rewrite Hev in *.
  - apply sort_on_sorted.
  - rewrite events_ids. apply NoDup_fmap_2; [apply _|]. apply NoDup_fst_map_to_list.
  - intros ev Hin. pose proof (proj1 (Hids (Id ev)) (list_elem_of_fmap_2 Id _ _ Hin)) as (k & Hk & Hor).
    apply elem_of_events in Hin as (k' & m & _ & _ & Hin).
    split_and!; [subst ev; unfold buildEvent; by destruct (node_identity _ _ _)..|]. rewrite Hk.
    destruct Hor as [(nd & ? & <- & _)|[(_ & ? & _)|[_ Hr]]]; [by left; eauto|by right|right].
    unfold revives in Hr. by destruct (v_ByID _ _).
Qed.

(** ** Outages *)

(** A door for mesh evidence is out: a configured broker is not delivering, a
    mesh.packet forwarder is STALE (what sets [SuppressSweep], [mesh_snapshot] of
    [PushSpec]), or no input is live at all. A monitor that is silent is no outage,
    nor is a forwarder that is DEAD or was never heard: they hold no sweep. *)
Definition outage reg push : Prop :=
  (exists b, b ∈ brokers_of reg /\ Delivering b = false) \/ Push.SuppressSweep (snap_of push) = true
  \/ silent reg push = true.

Lemma brokerErr_iff reg : is_Some (brokerErr reg) <-> exists b, b ∈ brokers_of reg /\ Delivering b = false.
Proof.
  unfold brokerErr, brokerDelivery. cbn [snd].
  destruct (filter (fun b => Delivering b = false) (brokers_of reg)) as [|b l] eqn:E.
  - split; [by intros [? ?]|]. intros (b & Hb & Hd). exfalso. apply (not_elem_of_nil b). rewrite <-E.
    by apply list_elem_of_filter.
  - split; [|eauto]. intros _. exists b. assert (b ∈ b :: l) as Hb by left. rewrite <-E in Hb.
    apply list_elem_of_filter in Hb. tauto.
Qed.

(** During an outage nothing the poll says covers the mesh source. *)
Lemma outage_not_clean c expired_ now fetched prior reg push n res reg' n' ids :
  outage reg push -> Poll c expired_ now fetched prior reg push n = (inr res, reg', n') ->
  ~ SchedulerSpec.clean ids res meshSourceID.
Proof.
  intros Ho (_ & Hs & t & reg1 & n1 & _ & _ & _ & _ & Hp & Hw & _)%Poll_inr (_ & Hnone & Hsup).
  destruct Ho as [Hb|[Hb|Hb]]; [|rewrite Hw, Hb in Hsup; apply Hsup; left|congruence].
  apply brokerErr_iff in Hb as [e He]. rewrite Hp, He, lookup_insert_eq in Hnone. discriminate.
Qed.

(** A poll that fails leaves the buffers of its inputs and what it remembers for
    the next one; it fails exactly on an empty scope or with no input live. *)
Lemma Poll_inl c expired_ now fetched prior reg push n :
  (exists e, (Poll c expired_ now fetched prior reg push n).1.1 = inl e)
  <-> no_scope c reg = true \/ silent reg push = true.
Proof.
  unfold Poll. destruct (no_scope c reg); [by split; [left|eauto]|]. destruct (silent reg push); [by split; [right|eauto]|].
  destruct (gather _ _ _ _ _ _ _) as [[t reg1] n1]. destruct (drainObservations reg1), (meshActivity _ _ _ _). cbn.
  split; [by intros [? ?]|]. by intros [?|?].
Qed.
Lemma Poll_inl_same c expired_ now fetched prior reg push n :
  no_scope c reg = true \/ silent reg push = true -> (Poll c expired_ now fetched prior reg push n).1.2 = reg
  /\ (Poll c expired_ now fetched prior reg push n).2 = n.
Proof. unfold Poll. destruct (no_scope c reg); [done|]. destruct (silent reg push); [done|]. by intros [?|?]. Qed.

(** C10: an outage never ends a node. While a configured broker is not delivering,
    a mesh.packet forwarder is STALE or no input is live, a tick of the scheduler
    leaves every stored event of the mesh it was not told about as it is, whatever
    statements fail; and with no input live the poll fails and takes nothing from
    the buffers. (A silent mesh.repeater monitor, and a forwarder that is DEAD or was
    never heard, are no such outage: while another input is live the sweep goes on.) *)
Theorem outage_keeps_nodes {JK : JsonKernel} marshal digest wildfireBuffer clock Enhance tuning has_enhancer enhancerModel
    budgetPerTick c expired_ now fetched reg push n st s rs s' id row :
  let poll := fun prior => (Poll c expired_ now fetched prior reg push n).1.1 in
  SchedulerSpec.ids_ok (SchedulerSpec.core s).1 ->
  outage reg push ->
  Scheduler.tick marshal digest wildfireBuffer clock Enhance tuning has_enhancer enhancerModel budgetPerTick
    (SourceIDs push) poll st s = (rs, s') ->
  events (SchedulerSpec.core s).1 !! id = Some row -> c_source_id row = meshSourceID ->
  (forall prior r ev, poll prior = inr r -> ev ∈ Events r -> Id ev <> id) ->
  events (SchedulerSpec.core s').1 !! id = Some row
  /\ (silent reg push = true -> forall prior,
       (exists e, poll prior = inl e) /\ (Poll c expired_ now fetched prior reg push n).1.2 = reg
       /\ (Poll c expired_ now fetched prior reg push n).2 = n).
Proof.
  intros poll Hok Ho Ht Hrow Hsrc Hnot. split.
  - eapply SchedulerSpec.tick_untouched; [exact Hok|exact Ht|exact Hrow|]. intros prior r Hr. split; [intros ev Hev; by eapply Hnot|].
    rewrite Hsrc. unfold poll in Hr. destruct (Poll _ _ _ _ prior _ _ _) as [[x reg'] n'] eqn:Ep. cbn in Hr. subst x.
    by eapply outage_not_clean.
  - intros Hs prior. split; [apply Poll_inl; by right|]. apply Poll_inl_same. by right.
Qed.

(** ** Monitors *)

Definition attempted (r : Push.MeshNodeReport) : Prop :=
  time_zero < Push.nr_LastAttempt r \/ Push.nr_LastAttempt r = time_zero /\ time_zero < Push.nr_ReportedAt r.

Local Ltac z_cases :=
  repeat match goal with
    | |- context [Z.ltb ?a ?b] => destruct (Z.ltb_spec a b)
    | |- context [Z.eqb ?a ?b] => destruct (Z.eqb_spec a b)
    end; cbn [andb].

(** The best stamps are upper bounds, reached unless they are zero. *)
Lemma stamps_spec reports :
  (forall t, time_zero < t -> t <= (stamps reports).1 <-> exists r, r ∈ reports /\ t <= Push.nr_LastSuccess r)
  /\ time_zero <= (stamps reports).1 /\ time_zero <= (stamps reports).2
  /\ ((stamps reports).2 <> time_zero <-> exists r, r ∈ reports /\ attempted r).
Proof.
  unfold time_zero. induction reports as [|r l (IH1 & IH2 & IH3 & IH4)] using rev_ind.
  { cbn. split_and!; [|done..|].
    - intros t Ht. split; [unfold time_zero; intros; exfalso; lia|]. by intros (r & ?%not_elem_of_nil & _).
    - split; [done|]. by intros (r & ?%not_elem_of_nil & _). }
  setoid_rewrite elem_of_app. setoid_rewrite list_elem_of_singleton.
  unfold stamps. rewrite foldl_app. cbn [foldl]. fold (stamps l). destruct (stamps l) as [s a]. cbn [fst snd] in *.
  unfold time_after, time_is_zero, attempted, time_zero in *. split_and!.
  - intros t Ht. specialize (IH1 t Ht). destruct (Z.ltb_spec s (Push.nr_LastSuccess r)) as [Hlt|Hge].
    + split; [intros H; exists r; auto|]. intros (x & [Hx| ->] & Hle); [|done].
      assert (t <= s) by (apply IH1; eauto). lia.
    + rewrite IH1. split; [intros (x & ? & ?); eauto|]. intros (x & [Hx| ->] & Hle); [eauto|].
      apply IH1. lia.
  - z_cases; lia.
  - z_cases; lia.
  - destruct (decide (a = 0)) as [Ha|Ha].
    + assert (Hno : ~ exists x, x ∈ l /\ (0 < Push.nr_LastAttempt x \/ Push.nr_LastAttempt x = 0 /\ 0 < Push.nr_ReportedAt x))
        by tauto.
      transitivity (0 < Push.nr_LastAttempt r \/ Push.nr_LastAttempt r = 0 /\ 0 < Push.nr_ReportedAt r).
      * subst a. z_cases; lia.
      * split; [intros H; exists r; auto|]. intros (x & [Hx| ->] & H); [|done]. destruct Hno. eauto.
    + split; [intros _; apply IH4 in Ha as (x & ? & ?); eauto|]. intros _.
      z_cases; lia.
Qed.

Definition fresh_success c now (reports : list Push.MeshNodeReport) : Prop :=
  exists r, r ∈ reports /\ time_zero < Push.nr_LastSuccess r
    /\ now - Push.nr_LastSuccess r <= UnreachableAfterOrDefault c.
Definition any_attempt (reports : list Push.MeshNodeReport) : Prop := exists r, r ∈ reports /\ attempted r.

Lemma verdict_spec c reports now :
  0 <= UnreachableAfterOrDefault c < max_int64 ->
  match reachability c reports now with
  | MESH_REACHABILITY_UNSPECIFIED => ~ any_attempt reports
  | REACHABLE => any_attempt reports /\ fresh_success c now reports
  | UNREACHABLE => any_attempt reports /\ ~ fresh_success c now reports
  end.
Proof.
  intros Hw. destruct (stamps_spec reports) as (Hs & Hs0 & _ & H). unfold reachability, any_attempt.
  assert (Hf : time_zero < (stamps reports).1 /\ now - (stamps reports).1 <= UnreachableAfterOrDefault c
    <-> fresh_success c now reports).
  { split.
    - intros [H0 Hle]. destruct (proj1 (Hs _ H0) (Z.le_refl _)) as (r & Hr & Hge).
      exists r. split_and!; [done|lia|lia].
    - intros (r & Hr & H0 & Hle). assert (Push.nr_LastSuccess r <= (stamps reports).1) by (apply Hs; eauto with lia). lia. }
  destruct (stamps reports) as [s a]. cbn [fst snd] in *.
  rewrite <-(time_sub_le_iff now s) in Hf by (unfold min_int64; lia). unfold time_is_zero, time_zero in *.
  destruct (Z.eqb_spec a 0) as [->|Ha]; [tauto|].
  destruct (Z.eqb_spec s 0) as [->|Hsz]; cbn [negb andb]; [rewrite <-Hf, <-H; split; [done|lia]|].
  destruct (Z.leb_spec (time_sub now s) (UnreachableAfterOrDefault c)); rewrite <-Hf, <-H; split; (done || lia).
Qed.

(** The verdict on a node. It is unspecified exactly when no monitor attempted
    it, reachable exactly when one did and some monitor's last success is within
    the window, unreachable otherwise; neither the order of the reports nor a
    failed attempt of one monitor changes a reachable one. *)
Theorem reachability_verdict c reports now :
  0 <= UnreachableAfterOrDefault c < max_int64 ->
  (reachability c reports now = MESH_REACHABILITY_UNSPECIFIED <-> ~ any_attempt reports)
  /\ (reachability c reports now = REACHABLE <-> any_attempt reports /\ fresh_success c now reports)
  /\ (reachability c reports now = UNREACHABLE <-> any_attempt reports /\ ~ fresh_success c now reports)
  /\ (forall l, l ≡ₚ reports -> reachability c l now = reachability c reports now)
  /\ (forall r, reachability c reports now = REACHABLE -> reachability c (reports ++ [r]) now = REACHABLE).
Proof.
  intros Hw. pose proof (fun l => verdict_spec c l now Hw) as H. split_and!.
  1-3: specialize (H reports); destruct (reachability c reports now); intuition discriminate.
  - intros l Hl. assert (Ha : any_attempt l <-> any_attempt reports) by (unfold any_attempt; by setoid_rewrite Hl).
    assert (Hf : fresh_success c now l <-> fresh_success c now reports) by (unfold fresh_success; by setoid_rewrite Hl).
    pose proof (H l) as H1. pose proof (H reports) as H2.
    destruct (reachability c l now), (reachability c reports now); tauto.
  - intros r Hr. pose proof (H reports) as H1. rewrite Hr in H1. destruct H1 as [(x & Hx & ?) (y & Hy & ?)].
    assert (Ha : any_attempt (reports ++ [r])) by (exists x; split; [apply elem_of_app; by left|done]).
    assert (Hf : fresh_success c now (reports ++ [r])) by (exists y; split; [apply elem_of_app; by left|done]).
    pose proof (H (reports ++ [r])) as H2. destruct (reachability c (reports ++ [r]) now); tauto.
Qed.

(** ** Readings *)

Lemma best_report_spec l :
  match best_report l with
  | None => forall r, r ∈ l -> Push.nr_Telemetry r = None
  | Some b => b ∈ l /\ is_Some (Push.nr_Telemetry b)
      /\ forall r, r ∈ l -> is_Some (Push.nr_Telemetry r) -> Push.nr_LastSuccess r <= Push.nr_LastSuccess b
  end.
Proof.
  induction l as [|r l IH] using rev_ind; [by intros r ?%not_elem_of_nil|].
  unfold best_report in *. rewrite foldl_app. cbn [foldl].
  destruct (Push.nr_Telemetry r) as [a|] eqn:Er; destruct (foldl _ None l) as [b|];
    try destruct (time_after _ _) eqn:Ha; rewrite ?Er; setoid_rewrite elem_of_app; setoid_rewrite list_elem_of_singleton.
  - destruct IH as (Hb & Hs & Hmax). apply time_after_spec in Ha. split_and!; [by right|done|].
    intros x [Hx| ->] Hxs; [|done]. specialize (Hmax x Hx Hxs). lia.
  - destruct IH as (Hb & Hs & Hmax). apply time_after_false in Ha. split_and!; [by left|done|].
    intros x [Hx| ->] Hxs; [auto|done].
  - split_and!; [by right|done|]. intros x [Hx| ->] Hxs; [|done]. rewrite (IH x Hx) in Hxs. by destruct Hxs.
  - destruct IH as (Hb & Hs & Hmax). split_and!; [by left|done|]. intros x [Hx| ->] Hxs; [auto|].
    rewrite Er in Hxs. by destruct Hxs.
  - intros x [Hx| ->]; auto.
Qed.

Lemma fullKeyCatalog_wf (m : Merged) v :
  NoDup (fullKeyCatalog m v) /\ (forall k, k ∈ fullKeyCatalog m v -> String.length k = meshPubKeyHex).
Proof.
  unfold fullKeyCatalog, sorted_set. split.
  - rewrite sort_strings_perm. apply NoDup_remove_dups.
  - intros k. rewrite sort_strings_perm, elem_of_remove_dups, elem_of_app. intros [[Hl _]%list_elem_of_filter|Hk]; [done|].
    apply list_elem_of_omap in Hk as (ev & _ & Hk). unfold full_key in Hk.
    destruct (CutPrefix _ _) as [k'|]; cbn in Hk; [|done].
    destruct (Nat.eqb_spec (String.length k') meshPubKeyHex) as [Hl|]; [by injection Hk as <-|done].
Qed.

(** A reported id means the key [k]: it is the key, or the one known full key that
    begins with it, or what the registry resolves it to. *)
Definition means (catalog : list string) reg (id k : string) : Prop :=
  k = id
  \/ (String.length id < meshPubKeyHex)%nat
     /\ (k ∈ catalog /\ HasPrefix k id = true /\ (forall k', k' ∈ catalog -> HasPrefix k' id = true -> k' = k)
         \/ exists g, reg = Some g /\ ResolvePrefix id g = (k, true)).

Lemma report_key_means catalog reg r :
  NoDup catalog -> (forall k, k ∈ catalog -> String.length k = meshPubKeyHex) ->
  means catalog reg (Push.NodeID r) (report_key catalog reg r).
Proof.
  intros Hnd Hlen. assert (Hne : "" ∉ catalog) by (intros H; by apply Hlen in H). unfold report_key, means.
  destruct (Nat.ltb_spec (String.length (Push.NodeID r)) meshPubKeyHex) as [Hl|]; [|by left].
  destruct (resolveUnique catalog (Push.NodeID r)) as [k ok] eqn:E. destruct ok.
  - right. split; [done|left]. rewrite resolveUnique_eq in E. by apply RegistrySpec.resolve_prefix_spec in E.
  - destruct reg as [g|]; [|by left]. destruct (ResolvePrefix _ g) as [k' ok] eqn:E'. destruct ok; [|by left].
    right. split; [done|right]. eauto.
Qed.

Lemma catalog_means c nodes reports v reg r :
  means (catalog_of c nodes reports v) reg (Push.NodeID r) (report_key (catalog_of c nodes reports v) reg r).
Proof. apply report_key_means; apply fullKeyCatalog_wf. Qed.

(** The readings of an event are its own node's: of the freshest report filed
    on it, whose id is the node's key or resolves to it and to no other known node,
    or, only while a monitor is silent, the readings stored with it. *)
Theorem telemetry_of_the_node c expired_ now fetched prior reg push n res reg' n' ev a :
  Poll c expired_ now fetched prior reg push n = (inr res, reg', n') ->
  ev ∈ Events res -> GetTelemetry ev ≫= admin = Some a ->
  let g := gather c expired_ now prior reg push n in
  let v := tk_view g.1.1 in let reports := Push.Reports (snap_of push) in
  let catalog := catalog_of c (tk_nodes g.1.1) reports v in
  (exists k r, Id ev = event_id k /\ r ∈ reports /\ means catalog g.1.2 (Push.NodeID r) k /\ Push.nr_Telemetry r = Some a
     /\ forall r', r' ∈ reports -> report_key catalog g.1.2 r' = k -> is_Some (Push.nr_Telemetry r') ->
          Push.nr_LastSuccess r' <= Push.nr_LastSuccess r)
  \/ Push.MonitorSilent (snap_of push) = true /\ (v_ByID v (Id ev) ≫= GetTelemetry) ≫= admin = Some a.
Proof.
  intros (_ & _ & t & reg1 & n1 & Eg & Hev & _)%Poll_inr. rewrite Eg, Hev. cbn [fst snd]. cbv zeta.
  intros (k & m & Hm & Hk & ->)%elem_of_events Ha. rewrite buildEvent_Id, Hk.
  destruct (proj1 (merge_lookup c reg1 (tk_nodes t) (Push.Reports (snap_of push)) (tk_view t) now k (tk_seen t)) m Hm)
    as (_ & _ & Hp).
  destruct (buildEvent_mesh c push m now (fetched k) (tk_view t) (Push.MonitorSilent (snap_of push))) as (d & Hd & _ & Hdet).
  unfold GetTelemetry in Ha. rewrite Hd in Ha. cbn in Ha. rewrite Hdet, Hk in Ha. clear Hd Hdet.
  set (l := merge_sort report_le (pushed m)) in *.
  assert (Hl : l ≡ₚ pushed m) by apply merge_sort_Permutation.
  assert (Hadm : forall st, admin (meshTelemetry (mqtt m) l st) = (best_report l ≫= Push.nr_Telemetry)).
  { intros st. unfold meshTelemetry. by repeat case_match. }
  pose proof (best_report_spec l) as Hb. unfold node_detail in Ha.
  destruct (best_report l) as [b|] eqn:Eb.
  - left. destruct Hb as (Hbl & [ab Hab] & Hmax). rewrite Hl in Hbl. setoid_rewrite Hl in Hmax.
    destruct Hp as [Hp|[Hp _]]; [|rewrite Hp in Hbl; by apply not_elem_of_nil in Hbl].
    rewrite Hp in Hbl, Hmax. unfold filed in Hbl, Hmax. setoid_rewrite list_elem_of_filter in Hmax.
    apply list_elem_of_filter in Hbl as [Hbk Hbin]. exists k, b. split_and!; [done|done| | |].
    + rewrite <-Hbk. apply catalog_means.
    + destruct (_ && _) in Ha; cbn in Ha; rewrite Hadm in Ha; cbn in Ha; rewrite Hab in Ha |- *; exact Ha.
    + intros r' Hr' Hk' Hs. by apply Hmax.
  - right. destruct (_ && _) eqn:Esil in Ha; cbn in Ha; rewrite Hadm in Ha; cbn in Ha; [|done].
    apply andb_prop in Esil as [_ Esil]. split; [done|].
    destruct (v_ByID (tk_view t) (event_id k)) as [st|]; cbn in *; [|done]. exact Ha.
Qed.

(** ** Revisions *)

Definition brokers_heard (m : mergedNode) : list string :=
  match mqtt m with Some s => Registry.Brokers s | None => [] end.

Lemma identity_kept m reports d :
  m_name d <> "" -> node_type d <> "" ->
  (forall s, mqtt m = Some s -> Registry.ns_Name s = m_name d /\ Registry.ns_Role s = node_type d) ->
  node_identity m reports (Some d) = (m_name d, node_type d).
Proof.
  intros Hn Ht Hs. unfold node_identity.
  assert (match mqtt m with Some s => (Registry.ns_Name s, Registry.ns_Role s) | None => (m_name d, node_type d) end
    = (m_name d, node_type d)) as ->.
  { destruct (mqtt m) as [s|]; [|done]. by destruct (Hs s eq_refl) as [-> ->]. }
  induction reports as [|r l IH]; [done|]. cbn [foldl fst snd].
  by rewrite (proj2 (String.eqb_neq _ _) Hn), (proj2 (String.eqb_neq _ _) Ht).
Qed.

(** The provenance of an event names the mesh, credits someone, and is the
    brokers' when the node was heard on some. *)
Lemma built_provenance c push m now fetched v silent_ :
  exists attr url, provenance (buildEvent c push m now fetched v silent_)
    = Some (mkProvenance meshSourceID meshSourceName attr url (Some fetched))
    /\ attr <> "" /\ (brokers_heard m <> [] -> attr = attribution (meshProvenance c push (brokers_heard m) fetched)
                       /\ url = source_url (meshProvenance c push (brokers_heard m) fetched))
    /\ (brokers_heard m = [] -> forall prev, v_ByID v (event_id (key m)) ≫= provenance = Some prev ->
          attribution prev <> "" -> attr = attribution prev /\ url = source_url prev).
Proof.
  assert (Hne : forall bs, exists attr url, meshProvenance c push bs fetched
    = mkProvenance meshSourceID meshSourceName attr url (Some fetched) /\ attr <> "").
  { intros bs. unfold meshProvenance. destruct (foldl _ _ bs) as [url names]. eexists _, _. split; [reflexivity|].
    by destruct names. }
  unfold buildEvent. destruct (node_identity _ _ _) as [name ty]. cbn [provenance]. fold (brokers_heard m).
  destruct (Hne (brokers_heard m)) as (attr & url & -> & Ha).
  destruct (brokers_heard m) as [|b bs]; [|by exists attr, url].
  unfold keepPriorAttribution. destruct (v_ByID v (event_id (key m)) ≫= provenance) as [prev|]; [|by exists attr, url].
  destruct (String.eqb_spec (attribution prev) "") as [Hp|Hp].
  - exists attr, url. split_and!; [done..|]. by intros _ ? [= <-].
  - exists (attribution prev), (source_url prev). split_and!; [done..|]. by intros _ ? [= <-].
Qed.

(** Nothing of what the mesh asserts about a node has changed since the event
    [ev0] built from [m0]: its advert, if any, has the same name and role, is
    within the epsilon of the stored position and came over the same brokers (or
    over none yet); the monitors' verdict is the same, or none reports and one is
    silent. *)
Record steady c (m0 m : mergedNode) (ev0 : Event) (d0 : MeshDetail) now (silent_ : bool) : Prop := {
  st_key : key m = key m0;
  st_named : m_name d0 <> "" /\ node_type d0 <> "";
  st_advert : forall s, mqtt m = Some s -> Registry.ns_Name s = m_name d0 /\ Registry.ns_Role s = node_type d0;
  st_position : forall s, mqtt m = Some s -> Registry.ns_HasLocation s = true ->
    exists p, centroid_of (geometry ev0) = Some p
      /\ ltb meshPositionEpsilonMeters (Geojson.MetersBetween (lat p) (lng p) (Registry.ns_Lat s) (Registry.ns_Lng s)) = false;
  st_brokers : brokers_heard m = [] \/ brokers_heard m = brokers_heard m0;
  st_verdict : pushed m = [] /\ silent_ = true
    \/ reachability c (merge_sort report_le (pushed m)) now = Grid.reachability d0 }.

Lemma node_detail_hashed c m reports stored name ty now silent_ :
  set_telemetry None (node_detail c m reports stored name ty now silent_)
  = mkMeshDetail (key m) ty name None
      (if Nat.eqb (length reports) 0 && silent_
       then match stored with Some s => Grid.reachability s | None => MESH_REACHABILITY_UNSPECIFIED end
       else reachability c reports now).
Proof. unfold node_detail. by destruct (_ && _). Qed.

Lemma steady_normalize c push m0 m now0 now fetched0 fetched v0 v silent0 silent_ ev0 d0 :
  normalize ev0 = normalize (buildEvent c push m0 now0 fetched0 v0 silent0) ->
  v_ByID v (event_id (key m)) = Some ev0 -> GetMesh ev0 = Some d0 ->
  steady c m0 m ev0 d0 now silent_ ->
  normalize (buildEvent c push m now fetched v silent_) = normalize ev0.
Proof.
  intros E0 Hv Hd [Hk [Hn Ht] Ha Hpos Hb Hr].
  destruct (built_provenance c push m0 now0 fetched0 v0 silent0) as (attr0 & url0 & Hp0 & Hne0 & Hb0 & _).
  destruct (built_provenance c push m now fetched v silent_) as (attr & url & Hp & _ & Hb1 & Hb2).
  pose proof (f_equal provenance E0) as Ep. cbn [normalize provenance] in Ep. rewrite Hp0 in Ep. cbn in Ep.
  destruct (provenance ev0) as [prev|] eqn:Eprev; [|done]. destruct prev as [i nm at_ ur ft]. injection Ep as -> -> -> ->.
  assert (Hsame : attr = attr0 /\ url = url0).
  { destruct (brokers_heard m) as [|b bs] eqn:Em.
    - apply (Hb2 eq_refl (mkProvenance meshSourceID meshSourceName attr0 url0 ft)); [by rewrite Hv|done].
    - destruct Hb as [Hb|Hb]; [done|]. rewrite <-Hb in Hb0. destruct Hb0 as [-> ->]; [done|].
      destruct Hb1 as [-> ->]; [done|]. unfold meshProvenance. by destruct (foldl _ _ _). }
  destruct Hsame as [-> ->].
  assert (Hgeo : node_geometry m v (event_id (key m)) = geometry ev0).
  { unfold node_geometry, stablePosition, stored_geometry. rewrite Hv. cbn [mbind option_bind].
    destruct (mqtt m) as [s|]; [|done]. destruct (Registry.ns_HasLocation s) eqn:El; [|done].
    destruct (Hpos s eq_refl El) as (p & -> & ->). done. }
  revert Hp Hp0 E0. unfold buildEvent. rewrite Hv. cbn [mbind option_bind]. rewrite Hd.
  rewrite (identity_kept m _ d0 Hn Ht Ha). destruct (node_identity m0 _ _) as [n0 t0].
  cbn [provenance]. intros [= Hp] [= Hp0] E0.
  pose proof (f_equal detail E0) as Ed. pose proof (f_equal geometry E0) as Eg. cbn [normalize detail geometry] in Ed, Eg.
  assert (Hdet : detail ev0 = Some (D_Mesh d0)) by (revert Hd; unfold GetMesh; by repeat case_match; intros [= ->]).
  assert (Hver : (if Nat.eqb (length (merge_sort report_le (pushed m))) 0 && silent_ then Grid.reachability d0
    else reachability c (merge_sort report_le (pushed m)) now) = Grid.reachability d0).
  { rewrite (Permutation_length (merge_sort_Permutation report_le (pushed m))).
    destruct Hr as [[-> ->]| ->]; [done|]. by destruct (_ && _). }
  rewrite E0. rewrite Hdet in Ed. cbn [fmap option_fmap option_map zero_detail] in Ed. rewrite node_detail_hashed in Ed.
  unfold normalize. cbn [Id layer category severity status headline description area_label canonical_url geometry
    provenance effective expires detail fmap option_fmap option_map zero_detail].
  rewrite !node_detail_hashed, Hver.
  assert (E1 : t0 = node_type d0 /\ n0 = m_name d0 /\ (if Nat.eqb (length (merge_sort report_le (pushed m0))) 0 && silent0
    then match v_ByID v0 (event_id (key m0)) ≫= GetMesh with
         | Some s => Grid.reachability s | None => MESH_REACHABILITY_UNSPECIFIED end
    else reachability c (merge_sort report_le (pushed m0)) now0) = Grid.reachability d0)
    by (destruct d0; by injection Ed).
  destruct E1 as (-> & -> & ->). rewrite Hgeo, Eg, Hk. rewrite Hk in Hp. by rewrite Hp, Hp0.
Qed.

(** A node that did not change mints no revision: when its advert, its
    operators, its position within the epsilon and the monitors' verdict are those
    of the stored event (whatever its clocks, readings, place ids and the order of
    the reports), the event built this tick has the content hash of the stored one. *)
Theorem steady_node marshal digest c push m0 m now0 now fetched0 fetched v0 v silent0 silent_ ev0 d0 :
  normalize ev0 = normalize (buildEvent c push m0 now0 fetched0 v0 silent0) ->
  v_ByID v (event_id (key m)) = Some ev0 -> GetMesh ev0 = Some d0 ->
  steady c m0 m ev0 d0 now silent_ ->
  ContentHash marshal digest (buildEvent c push m now fetched v silent_) = ContentHash marshal digest ev0.
Proof.
  intros E0 Hv Hd Hst. pose proof (steady_normalize _ push _ _ now0 now _ fetched v0 v _ _ _ _ E0 Hv Hd Hst) as Hn.
  unfold ContentHash. by rewrite Hn, (f_equal Id Hn : Id (buildEvent _ _ _ _ _ _ _) = Id ev0).
Qed.


(** ** Between ticks *)

Abbreviation Drains := (list (gmap string Time * Time)).

(** The state after some ticks, each with the credits it drained and its time. *)
Definition note_all c (ticks : Drains) n : Normalizer := foldl (fun n x => (noteRelays c x.1 x.2 n).2) n ticks.

(** [t] is the latest credit [k] got over the ticks. *)
Definition is_latest (ticks : Drains) (k : string) (t : Time) : Prop :=
  time_zero < t /\ (exists x, x ∈ ticks /\ x.1 !! k = Some t)
  /\ forall x t', x ∈ ticks -> x.1 !! k = Some t' -> t' <= t.

Lemma is_latest_unique ticks k t t' : is_latest ticks k t -> is_latest ticks k t' -> t = t'.
Proof. intros (_ & (x & Hx & Ht) & H1) (_ & (y & Hy & Ht') & H2). pose proof (H1 y t' Hy Ht'). pose proof (H2 x t Hx Ht). lia. Qed.

Lemma is_latest_snoc ticks x k t :
  is_latest (ticks ++ [x]) k t
  <-> is_latest ticks k t /\ (forall b, x.1 !! k = Some b -> b <= t)
      \/ time_zero < t /\ x.1 !! k = Some t /\ forall y t', y ∈ ticks -> y.1 !! k = Some t' -> t' <= t.
Proof.
  unfold is_latest. setoid_rewrite elem_of_app. setoid_rewrite list_elem_of_singleton. split.
  - intros (H0 & (y & [Hy| ->] & Hyt) & Hmax); [left|right]; split_and!; eauto.
  - intros [[(H0 & (y & Hy & Hyt) & Hmax) Hb]|(H0 & Hx & Hmax)]; split_and!; eauto.
    + intros z t' [Hz| ->] Ht; eauto.
    + intros z t' [Hz| ->] Ht; [eauto|]. rewrite Hx in Ht. by injection Ht as <-.
Qed.

(** What is remembered of a key: its latest credit, unless that has left the
    window at some tick. *)
Definition remembers c (ticks : Drains) n : Prop := forall k,
  (forall t, relaySeen n !! k = Some t -> is_latest ticks k t)
  /\ (relaySeen n !! k = None -> (forall y t', y ∈ ticks -> y.1 !! k = Some t' -> t' <= time_zero)
      \/ exists a y, is_latest ticks k a /\ y ∈ ticks /\ RelayPresenceWindow c < time_sub y.2 a).

Lemma noteRelays_lookup c relays now n k t :
  0 < RelayPresenceWindow c ->
  relaySeen (noteRelays c relays now n).2 !! k = Some t
  <-> later_credit (relaySeen n !! k) (relays !! k) = Some t /\ time_sub now t <= RelayPresenceWindow c.
Proof.
  intros Hw. unfold noteRelays. cbn [snd relaySeen set_relaySeen]. rewrite map_lookup_filter_Some, lookup_merge. cbn.
  unfold diag_None. destruct (relaySeen n !! k), (relays !! k); cbn; tauto.
Qed.

(** A credit that has left the window does not come back. *)
Lemma left_window c (ticks : Drains) (now a t : Time) :
  (exists y, y ∈ ticks /\ RelayPresenceWindow c < time_sub y.2 a) -> (forall y, y ∈ ticks -> y.2 <= now) ->
  time_sub now t <= RelayPresenceWindow c -> a < t.
Proof.
  intros (y & Hy & Hlt) Hle Ht. specialize (Hle y Hy). pose proof (time_sub_mono_l y.2 now a Hle).
  destruct (Z.lt_ge_cases a t) as [|Hge]; [done|]. pose proof (time_sub_mono_r now t a Hge). lia.
Qed.

Lemma credit_latest c ticks x n k t :
  remembers c ticks n -> (forall y, y ∈ ticks -> y.2 <= x.2) -> time_sub x.2 t <= RelayPresenceWindow c ->
  later_credit (relaySeen n !! k) (x.1 !! k) = Some t <-> is_latest (ticks ++ [x]) k t.
Proof.
  intros Hr Hle Hw. rewrite is_latest_snoc. destruct (Hr k) as [Hsome Hnone]. clear Hr.
  destruct (relaySeen n !! k) as [a|].
  - specialize (Hsome a eq_refl). destruct (x.1 !! k) as [b|]; cbn.
    + unfold time_after. destruct (Z.ltb_spec a b) as [Hlt|Hge]; split.
      * intros [= <-]. right. destruct Hsome as (H0 & _ & Hmax). split_and!; [lia|done|].
        intros y t' Hy Ht. specialize (Hmax y t' Hy Ht). lia.
      * intros [[Hl Hb]|(_ & ? & _)]; [|done]. pose proof (is_latest_unique _ _ _ _ Hl Hsome). specialize (Hb b eq_refl). lia.
      * intros [= <-]. left. split; [done|]. by intros ? [= <-].
      * intros [[Hl _]|(_ & [= ->] & Hmax)]; [by rewrite (is_latest_unique _ _ _ _ Hl Hsome)|].
        destruct Hsome as (_ & (y & Hy & Ht) & _). specialize (Hmax y a Hy Ht). f_equal. lia.
    + split; [intros [= <-]; by left|]. intros [[Hl _]|(_ & ? & _)]; [by rewrite (is_latest_unique _ _ _ _ Hl Hsome)|done].
  - specialize (Hnone eq_refl).
    assert (Hold : ~ is_latest ticks k t /\ forall y t', y ∈ ticks -> y.1 !! k = Some t' -> time_zero < t -> t' <= t).
    { destruct Hnone as [Hno|(a & y & Ha & Hy & Hlt)].
      - split; [|intros y t' Hy Ht H0; specialize (Hno y t' Hy Ht); lia].
        intros (H0 & (y & Hy & Ht) & _). specialize (Hno y t Hy Ht). lia.
      - pose proof (left_window c ticks x.2 a t (ex_intro _ y (conj Hy Hlt)) Hle Hw) as Hat.
        split; [intros Hl; pose proof (is_latest_unique _ _ _ _ Hl Ha); lia|].
        destruct Ha as (_ & _ & Hmax). intros z t' Hz Ht _. specialize (Hmax z t' Hz Ht). lia. }
    destruct Hold as [Hno Hmax]. destruct (x.1 !! k) as [b|]; cbn.
    + unfold time_after. destruct (Z.ltb_spec time_zero b) as [H0|H0]; split.
      * intros [= <-]. right. split_and!; [done..|]. intros y t' Hy Ht. eauto.
      * intros [[? _]|(_ & ? & _)]; done.
      * done.
      * intros [[? _]|(? & [= ->] & _)]; [done|lia].
    + split; [done|]. intros [[? _]|(_ & ? & _)]; done.
Qed.

Lemma latest_or_none ticks k :
  (exists t, is_latest ticks k t) \/ forall y t', y ∈ ticks -> y.1 !! k = Some t' -> t' <= time_zero.
Proof.
  induction ticks as [|x l IH] using rev_ind; [right; by intros y t' ?%not_elem_of_nil|].
  setoid_rewrite is_latest_snoc. setoid_rewrite elem_of_app. setoid_rewrite list_elem_of_singleton.
  destruct (x.1 !! k) as [b|] eqn:Eb.
  - destruct IH as [(t & Hl)|Hno].
    + left. destruct (Z.le_gt_cases b t).
      * exists t. left. split; [done|]. by intros ? [= <-].
      * exists b. right. destruct Hl as (H0 & _ & Hmax). split_and!; [lia|done|]. intros y t' Hy Ht.
        specialize (Hmax y t' Hy Ht). lia.
    + destruct (Z.le_gt_cases b time_zero).
      * right. intros y t' [Hy| ->] Ht; [eauto|]. rewrite Eb in Ht. by injection Ht as <-.
      * left. exists b. right. split_and!; [done..|]. intros y t' Hy Ht. specialize (Hno y t' Hy Ht). lia.
  - destruct IH as [(t & Hl)|Hno]; [left; exists t; left; by split|right].
    intros y t' [Hy| ->] Ht; [eauto|congruence].
Qed.

Lemma remembers_all c ticks :
  0 < RelayPresenceWindow c -> StronglySorted Z.le ticks.*2 -> remembers c ticks (note_all c ticks NewNetworkNormalizer).
Proof.
  intros Hw. induction ticks as [|x ticks IH] using rev_ind; intros Hs.
  { intros k. cbn. rewrite lookup_empty. split; [done|]. intros _. left. by intros y t' ?%not_elem_of_nil. }
  rewrite fmap_app in Hs. apply StronglySorted_app in Hs as (Hle & Hs & _). specialize (IH Hs).
  assert (Hle' : forall y, y ∈ ticks -> y.2 <= x.2).
  { intros y Hy. apply Hle; [by apply list_elem_of_fmap_2|]. cbn. by left. }
  unfold note_all. rewrite foldl_app. cbn [foldl]. fold (note_all c ticks NewNetworkNormalizer).
  set (n := note_all c ticks NewNetworkNormalizer) in *. intros k. split.
  - intros t [Hc Ht]%noteRelays_lookup; [|done]. by eapply credit_latest.
  - intros Hnone.
    assert (Hdrop : forall t, is_latest (ticks ++ [x]) k t -> RelayPresenceWindow c < time_sub x.2 t).
    { intros t Hl. destruct (Z.lt_ge_cases (RelayPresenceWindow c) (time_sub x.2 t)) as [|Hge]; [done|].
      assert (Hsm : relaySeen (noteRelays c x.1 x.2 n).2 !! k = Some t).
      { apply noteRelays_lookup; [done|]. split; [by eapply credit_latest|done]. }
      congruence. }
    destruct (latest_or_none (ticks ++ [x]) k) as [(t & Hl)|Hno]; [right|by left].
    exists t, x. split_and!; [done|apply elem_of_app; right; by apply list_elem_of_singleton|auto].
Qed.

(** What counts as relay presence. After any ticks, each draining some credits,
    a node is credited exactly with its latest credit, and exactly while that is
    within the window: no credit is lost while it counts, an older one never
    replaces it and one that left the window does not come back; a window that is
    switched off credits nobody. *)
Theorem relay_window c ticks x k t :
  StronglySorted Z.le (ticks ++ [x]).*2 ->
  let seen := (noteRelays c x.1 x.2 (note_all c ticks NewNetworkNormalizer)).1 in
  (0 < RelayPresenceWindow c ->
    seen !! k = Some t <-> is_latest (ticks ++ [x]) k t /\ time_sub x.2 t <= RelayPresenceWindow c)
  /\ (RelayPresenceWindow c <= 0 -> seen = ∅).
Proof.
  intros Hs. cbv zeta. rewrite fmap_app in Hs. apply StronglySorted_app in Hs as (Hle & Hs & _). split.
  - intros Hw. change ((noteRelays c x.1 x.2 (note_all c ticks NewNetworkNormalizer)).1)
      with (relaySeen (noteRelays c x.1 x.2 (note_all c ticks NewNetworkNormalizer)).2).
    rewrite noteRelays_lookup by done.
    assert (Hle' : forall y, y ∈ ticks -> y.2 <= x.2).
    { intros y Hy. apply Hle; [by apply list_elem_of_fmap_2|]. cbn. by left. }
    pose proof (credit_latest c ticks x _ k t (remembers_all c ticks Hw Hs) Hle'). tauto.
  - intros Hw. unfold noteRelays. cbn [fst]. apply map_empty. intros i. apply map_lookup_filter_None. right.
    intros y _ [? _]. lia.
Qed.

(** Every clock the normalizer holds back is in the store. *)
Definition backed n (stored : gmap string (Z * Z)) : Prop :=
  forall k a, activity n !! k = Some a -> Mesh.a_PubKey a = k /\ (Mesh.ToLower k <> "" -> Mesh.absorbed a stored).

Lemma laterOf_max a b : laterOf a b = Z.max a b.
Proof. unfold laterOf, time_after. destruct (Z.ltb_spec a b); lia. Qed.

(** The clocks of this tick. *)
Lemma heard_now covered (merged : Merged) relays k s :
  k ∈ covered -> merged !! k ≫= mqtt = Some s -> time_zero < Registry.ReceivedAt s ->
  exists a, activity_now covered merged relays !! k = Some a /\ Mesh.LastHeardAt a = Registry.ReceivedAt s.
Proof.
  intros Hk Hs H0. unfold activity_now. rewrite lookup_union_with, !map_lookup_imap.
  destruct (merged !! k) as [m|]; [|done]. cbn in Hs |- *. rewrite Hs.
  unfold time_is_zero, time_zero in *. rewrite (proj2 (Z.eqb_neq _ _)) by lia. rewrite bool_decide_true by done. cbn.
  destruct (relays !! k); cbn; [|eauto]. eauto.
Qed.
Lemma relayed_now covered (merged : Merged) relays k t :
  k ∈ covered -> relays !! k = Some t ->
  exists a, activity_now covered merged relays !! k = Some a /\ Mesh.LastRelayedAt a = t.
Proof.
  intros Hk Ht. unfold activity_now. rewrite lookup_union_with, !map_lookup_imap, Ht. cbn.
  rewrite bool_decide_true by done. destruct (merged !! k) as [m|]; cbn; [|eauto].
  destruct (mqtt m); cbn; [|eauto]. destruct (_ && _); cbn; eauto.
Qed.

(** After a tick, what is remembered of a key is at least the clocks it was given. *)
Lemma advanced_spec known k a :
  match advanced known k a with
  | Some b => Mesh.a_PubKey b = k /\ Mesh.LastHeardAt a <= Mesh.LastHeardAt b /\ Mesh.LastRelayedAt a <= Mesh.LastRelayedAt b
  | None => match known !! k with
            | Some b => Mesh.LastHeardAt a <= Mesh.LastHeardAt b /\ Mesh.LastRelayedAt a <= Mesh.LastRelayedAt b
            | None => Mesh.LastHeardAt a <= time_zero /\ Mesh.LastRelayedAt a <= time_zero
            end
  end.
Proof.
  unfold advanced. cbn [Mesh.LastHeardAt Mesh.LastRelayedAt]. rewrite !laterOf_max.
  destruct (known !! k) as [b|]; cbn [default from_option id Mesh.LastHeardAt Mesh.LastRelayedAt]; unfold time_zero;
    destruct (_ && _) eqn:E; cbn; try (split_and!; [done|lia..]); apply andb_prop in E; lia.
Qed.

Lemma advanced_none known k a :
  match known !! k with
  | Some b => Mesh.LastHeardAt a <= Mesh.LastHeardAt b /\ Mesh.LastRelayedAt a <= Mesh.LastRelayedAt b
  | None => Mesh.LastHeardAt a <= time_zero /\ Mesh.LastRelayedAt a <= time_zero
  end -> advanced known k a = None.
Proof.
  unfold advanced. cbn [Mesh.LastHeardAt Mesh.LastRelayedAt]. rewrite !laterOf_max.
  destruct (known !! k) as [b|]; cbn [default from_option id Mesh.LastHeardAt Mesh.LastRelayedAt]; unfold time_zero;
    intros H; by rewrite (proj2 (Z.eqb_eq _ _)), (proj2 (Z.eqb_eq _ _)) by lia.
Qed.

Section Activity.
Variables (merged : Merged) (v : View) (relays : gmap string Time) (n n' : Normalizer) (out : list Mesh.MeshActivity).
Hypothesis Hrun : meshActivity merged v relays n = (out, n').
Local Abbreviation clocks := (activity_now (fullKeyCatalog merged v) merged relays).
Local Abbreviation moved := (map_imap (advanced (activity n)) clocks).

Lemma activity_run : activity n' = moved ∪ activity n /\ forall a, a ∈ out <-> exists k, moved !! k = Some a.
Proof using Hrun.
  unfold meshActivity in Hrun. injection Hrun as <- <-. split; [done|]. intros a. rewrite sort_on_perm, list_elem_of_fmap.
  split.
  - intros ([k b] & -> & Hk%elem_of_map_to_list). eauto.
  - intros (k & Hk). exists (k, a). by rewrite elem_of_map_to_list.
Qed.

(** Every clock of the tick is covered by what is remembered, or is not a time. *)
Lemma covered_clock k a :
  clocks !! k = Some a ->
  match activity n' !! k with
  | Some b => Mesh.LastHeardAt a <= Mesh.LastHeardAt b /\ Mesh.LastRelayedAt a <= Mesh.LastRelayedAt b
  | None => Mesh.LastHeardAt a <= time_zero /\ Mesh.LastRelayedAt a <= time_zero
  end.
Proof using Hrun.
  intros Ha. rewrite (proj1 activity_run), lookup_union, map_lookup_imap, Ha. cbn.
  pose proof (advanced_spec (activity n) k a) as Hs. destruct (advanced (activity n) k a) as [b|].
  - destruct (activity n !! k); cbn; tauto.
  - by destruct (activity n !! k).
Qed.

Lemma resend_none : (meshActivity merged v relays n').1 = [].
Proof using Hrun.
  unfold meshActivity. cbn [fst].
  assert (map_imap (advanced (activity n')) clocks = ∅) as ->; [|done].
  apply map_eq. intros k. rewrite map_lookup_imap, lookup_empty. destruct (clocks !! k) as [a|] eqn:Ea; [|done]. cbn.
  apply advanced_none. by apply covered_clock.
Qed.

End Activity.

Lemma lower_nonempty k : k <> "" -> Mesh.ToLower k <> "".
Proof. by destruct k. Qed.

(** The activity clocks reach the store. Once the store wrote what a tick
    handed over, it holds every reception and relay of the tick's covered nodes at
    least as late, and all that the normalizer remembers as written; asked again,
    there is nothing to send. After a failed write nothing is remembered, so the
    next tick sends everything again. *)
Theorem activity_delivered (merged : Merged) v relays n n' out obs s r s' :
  meshActivity merged v relays n = (out, n') ->
  backed n (Mesh.mesh_activity (Tx.db s)) ->
  Mesh.RecordMeshTick obs out s = (r, s') ->
  let stored := Mesh.mesh_activity (Tx.db s') in
  (r = inr tt ->
    backed n' stored /\ (meshActivity merged v relays n').1 = []
    /\ forall k, k ∈ fullKeyCatalog merged v ->
         (forall st, merged !! k ≫= mqtt = Some st -> time_zero < Registry.ReceivedAt st ->
            exists w, stored !! Mesh.ToLower k = Some w /\ time_unix (Registry.ReceivedAt st) <= w.1)
         /\ (forall t, relays !! k = Some t -> time_zero < t ->
            exists w, stored !! Mesh.ToLower k = Some w /\ time_unix t <= w.2))
  /\ (forall e, r = inl e -> backed (forgetMeshActivity n') stored).
Proof.
  intros Hrun Hb Hrec stored. destruct (Mesh.activity_monotone _ _ _ _ _ Hrec) as [Hlater Hok].
  destruct (activity_run _ _ _ _ _ _ Hrun) as [Hact Hout]. split.
  2: { intros e _ k a Hk. cbn in Hk. by rewrite lookup_empty in Hk. }
  intros ->. destruct (Hok eq_refl) as [Habs _]. fold stored in Hlater, Habs.
  assert (Hbk : backed n' stored).
  { intros k a. rewrite Hact, lookup_union_Some_raw. intros [Hm|[_ Hk]].
    - pose proof Hm as Hm'. rewrite map_lookup_imap in Hm'. destruct (activity_now _ _ _ !! k) as [b|]; [|done].
      cbn in Hm'. pose proof (advanced_spec (activity n) k b) as Hs. rewrite Hm' in Hs. destruct Hs as (Hpk & _).
      split; [done|]. intros Hne. apply Habs; [apply Hout; eauto|by rewrite Hpk].
    - destruct (Hb k a Hk) as [? Ha]. split; [done|]. intros Hne. by eapply Mesh.absorbed_mono, Ha. }
  split_and!; [done|by eapply resend_none|]. intros k Hk.
  assert (Hne : Mesh.ToLower k <> "").
  { apply lower_nonempty. apply fullKeyCatalog_wf in Hk. by intros ->. }
  assert (Hc : forall a, activity_now (fullKeyCatalog merged v) merged relays !! k = Some a ->
    time_zero < Mesh.LastHeardAt a \/ time_zero < Mesh.LastRelayedAt a ->
    exists b w, stored !! Mesh.ToLower k = Some w /\ Mesh.unixOrZero (Mesh.LastHeardAt b) <= w.1
      /\ Mesh.unixOrZero (Mesh.LastRelayedAt b) <= w.2
      /\ Mesh.LastHeardAt a <= Mesh.LastHeardAt b /\ Mesh.LastRelayedAt a <= Mesh.LastRelayedAt b).
  { intros a Ha H0. pose proof (covered_clock _ _ _ _ _ _ Hrun k a Ha) as Hcl.
    destruct (activity n' !! k) as [b|] eqn:Eb; [|unfold time_zero in *; lia].
    destruct (Hbk k b Eb) as [Hpk Hab]. destruct (Hab Hne) as (w & Hc2 & ? & ?). rewrite Hpk in Hc2.
    exists b, w. tauto. }
  assert (Hu : forall t u, time_zero < t -> t <= u -> time_unix t <= Mesh.unixOrZero u).
  { intros t u Ht Hu. unfold Mesh.unixOrZero, time_is_zero, time_zero in *. rewrite (proj2 (Z.eqb_neq _ _)) by lia.
    by apply time_unix_mono. }
  split.
  - intros st Hst H0. destruct (heard_now _ merged relays k st Hk Hst H0) as (a & Ha & Hh).
    destruct (Hc a Ha) as (b & w & Hsc & H1 & _ & H2 & _); [left; by rewrite Hh|].
    exists w. split; [done|]. rewrite Hh in H2. etrans; [by apply Hu|done].
  - intros t Ht H0. destruct (relayed_now _ merged relays k t Hk Ht) as (a & Ha & Hh).
    destruct (Hc a Ha) as (b & w & Hsc & _ & H1 & _ & H2); [right; by rewrite Hh|].
    exists w. split; [done|]. rewrite Hh in H2. etrans; [by apply Hu|done].
Qed.

(** ** Promotions *)

Lemma promote_spec keys ev rn :
  promote keys ev = Some rn ->
  Id ev = event_id (rn_From rn) /\ (String.length (rn_From rn) < meshPubKeyHex)%nat
  /\ rn_To rn ∈ keys /\ String.length (rn_To rn) = meshPubKeyHex /\ HasPrefix (rn_To rn) (rn_From rn) = true.
Proof.
  unfold promote. destruct (CutPrefix (Id ev) (meshSourceID +:+ ":")) as [native|] eqn:Ec; [|done]. cbn [mbind option_bind].
  destruct (Nat.leb_spec meshPubKeyHex (String.length native)); [done|].
  destruct (list_find _ keys) as [[i k]|] eqn:Ef; [|done]. intros [= <-]. cbn.
  apply list_find_Some in Ef as (Hi & [Hl Hp] & _). split_and!; [|done|by eapply list_elem_of_lookup_2|done|done].
  by apply event_id_inv.
Qed.

(** An event is superseded on evidence only: it is stored under a prefix, the
    poll presents a node whose full key begins with that prefix, and the telemetry
    moves to that node with it; where nodes are known by full keys, a superseded
    event is not among those of the poll. *)
Theorem promotion_evidence c expired_ now fetched prior reg push n res reg' n' :
  Poll c expired_ now fetched prior reg push n = (inr res, reg', n') ->
  let t := (gather c expired_ now prior reg push n).1.1 in
  Superseded res = (fun rn => event_id (rn_From rn)) <$> MeshTelemetryRenames res
  /\ forall rn, rn ∈ MeshTelemetryRenames res ->
     (exists ev, ev ∈ ForSource prior meshSourceID /\ Id ev = event_id (rn_From rn))
     /\ HasPrefix (rn_To rn) (rn_From rn) = true /\ String.length (rn_To rn) = meshPubKeyHex
     /\ event_id (rn_To rn) ∈ Id <$> Events res
     /\ ((forall nd, nd ∈ tk_nodes t -> String.length (Registry.ns_PubKey nd) = meshPubKeyHex) ->
         (forall k at_, tk_seen t !! k = Some at_ -> String.length k = meshPubKeyHex) ->
         event_id (rn_From rn) ∉ Id <$> Events res).
Proof.
  intros (_ & _ & t & reg1 & n1 & Eg & Hev & Hren & Hsup & _)%Poll_inr. cbv zeta.
  pose proof (gather_view c expired_ now prior reg push n) as Hview. rewrite Eg in Hview |- *. cbn [fst snd] in *.
  rewrite Hsup, Hren, Hev. split; [done|]. intros rn Hrn. unfold promotedPrefixKeys in Hrn.
  rewrite sort_on_perm in Hrn. apply list_elem_of_omap in Hrn as (ev & Hin & Hp).
  apply promote_spec in Hp as (Hid & Hlt & Hto & Hlen & Hpre). split_and!; [|done|done|..].
  - exists ev. split; [|done]. rewrite Hview in Hin. unfold withExpired in Hin. by case_bool_decide.
  - rewrite events_ids. by apply list_elem_of_fmap_2.
  - intros Hnd Hseen. rewrite events_ids, list_elem_of_fmap. intros (k & <-%(inj event_id) & Hk).
    apply list_elem_of_fmap in Hk as ([k' m] & Hk & Hm%elem_of_map_to_list). cbn in Hk. subst k'.
    assert (is_Some (merged_of c t reg1 push now !! rn_From rn)) as Hs by eauto.
    apply (merge_lookup c reg1 (tk_nodes t) _ (tk_view t) now _ (tk_seen t)) in Hs
      as [(nd & Hn & Hpk & _)|[(Hl & _)|[[x Hx] _]]].
    + specialize (Hnd nd Hn). rewrite Hpk in Hnd. lia.
    + lia.
    + specialize (Hseen _ _ Hx). lia.
Qed.

(** Two full keys under one stored prefix: the registry and [resolveUnique] take
    neither, a promotion takes the one the map happens to yield first. *)
Theorem promotion_ambiguous ev p k1 k2 :
  Id ev = event_id p -> (String.length p < meshPubKeyHex)%nat -> k1 <> k2 ->
  String.length k1 = meshPubKeyHex -> String.length k2 = meshPubKeyHex ->
  HasPrefix k1 p = true -> HasPrefix k2 p = true ->
  promote [k1; k2] ev = Some (mkMeshKeyRename p k1) /\ promote [k2; k1] ev = Some (mkMeshKeyRename p k2)
  /\ resolveUnique [k1; k2] p = ("", false).
Proof.
  intros Hid Hlt Hne H1 H2 Hp1 Hp2.
  assert (Hpro : forall a b, String.length a = meshPubKeyHex -> HasPrefix a p = true ->
    promote [a; b] ev = Some (mkMeshKeyRename p a)).
  { intros a b Ha Hpa. unfold promote. rewrite Hid, CutPrefix_event_id. cbn [mbind option_bind].
    rewrite (proj2 (Nat.leb_gt _ _) Hlt). cbn [list_find]. by rewrite decide_True. }
  split_and!; [by apply Hpro..|]. unfold resolveUnique. cbn [resolve_unique]. rewrite Hp1, Hp2. cbn [negb].
  rewrite (proj2 (String.eqb_neq k1 "")); [done|]. by intros ->.
Qed.

(** A node only relay presence brings back has none of the reports filed on it:
    while no monitor is silent its event has no verdict and no readings. *)
Theorem revived_drops_reports c reg push nodes reports seen v now fetched k :
  ~ heard (enumerated reports) (geofence c) nodes k ->
  ~ held c v now (catalog_of c nodes reports v) reg reports k ->
  relayed seen v (enumerated reports) (geofence c) k ->
  exists m d, merge_nodes c reg nodes reports seen v now !! k = Some m /\ mqtt m = None /\ pushed m = []
    /\ GetMesh (buildEvent c push m now fetched v false) = Some d
    /\ Grid.reachability d = MESH_REACHABILITY_UNSPECIFIED /\ telemetry d ≫= admin = None.
Proof.
  intros Hh Hd [[t Ht] Hr].
  pose proof (held_lookup c reg nodes reports v now k) as H3. rewrite presence_lookup, Hr, Ht.
  destruct (filter _ _ !! k) as [n|]; [exfalso; destruct (proj1 H3); eauto|].
  destruct (buildEvent_mesh c push (mkMerged k None [] t) now fetched v false) as (d & Hd1 & _ & Hd2).
  exists (mkMerged k None [] t), d. split_and!; [done..| |]; rewrite Hd2; [done|]. cbn.
  unfold meshTelemetry. by repeat case_match.
Qed.

End Merge.
(** ** A concrete poll *)

Module NetworkDemo.
Import RegistrySpec.RegistryDemo.

#[local] Existing Instance ascii_only.
#[local] Existing Instance trusting.
#[local] Existing Instance StoreSpec.Demo.math.
#[local] Existing Instance StoreSpec.Demo.json.
#[local] Instance wording : Wording :=
  {| rfc3339 _ := "then"; state_text _ := "stale"; reason_text _ := "reason"; problem_text _ := "down" |}.
#[local] Instance geo_text : GeoText := {| marshal_string s := s; point_json _ _ := "{}" |}.

Definition world : GeoBounds := mkGeoBounds (of_Z (-90)) (of_Z 90) (of_Z (-180)) (of_Z 180).
Definition cfg : Config :=
  mkConfig [world] [mkBroker "tcp://broker" "Sierra Mesh" "https://mesh.example"] "https://x/{publicKey}" 0 0 [] 0 0.
Definition t0 : Time := time_of_unix 1060.

(** One broker, with the node of [RegistryDemo]; or a new process and the broker down. *)
Definition wired (up : bool) : WiredRegistry :=
  mkWired config t0 [mkLink "tcp://broker" up (time_of_unix 900) (time_of_unix 1040)]
    (if up then final else Registry.empty_registry).

(** One monitor, which reports that node by a prefix of its key. *)
Definition readings : MeshAdminTelemetry :=
  mkMeshAdminTelemetry "mon" (Some (time_of_unix 1000)) (Some (time_of_unix 990)) None (Some (of_Z 4)) None "" None None
    None None None None None 0 0 0 0 0 0 0 0 0 0 0 0 0.
Definition report (id : string) (success : Z) : Push.MeshNodeReport :=
  Push.mkMeshNodeReport "mon" 1 ["avery"] false id "Label" (time_of_unix 1000) (time_of_unix 1000) (time_of_unix 1000)
    (time_of_unix success) (Some readings).
Definition monitor : Push.reporter :=
  Push.mkReporterState (Push.mkReporter "mon" "Monitor" "" true [Push.MeshStream] (30 * minute) 0 1 [] false)
    {[Push.MeshStream]} (time_of_unix 1000) (time_of_unix 1000) None 1 ∅.
Definition endpoint (id : string) (success : Z) : Push.Registry * Time :=
  (Push.mkRegistry (Push.mkIngestConfig 0 0 [] ∅) ∅ [monitor] [] false ∅ false {["mon" := {[id := report id success]}]} false,
   t0).

Definition none_stored : Prior := Scheduler.mkPrior ∅ ∅.
Abbreviation poll up id p :=
  (Poll cfg None t0 (fun _ => t0) p (Some (wired up)) (Some (endpoint id 990)) NewNetworkNormalizer).

(** The scheduler's ticks over an empty store that knows the source: the node is
    heard; then the broker is down and the monitor reports another node. *)
Definition mesh_source : SourceRow :=
  mkSourceRow "Mesh" "" "" FEED 60 None None None None "" SOURCE_STATUS_UNSPECIFIED "expire".
Definition start : SchedulerSpec.St :=
  Tx.mkSt (mkDB ∅ [] ∅ ∅ ∅ ∅ {["meshcore" := mesh_source]}, Mesh.mkMeshDB [] ∅ ∅ ∅ ∅)
    (Scheduler.mkSMem (mkMem None 0 ∅) 0 0 [] 0) [].
Abbreviation ticked up id s :=
  (Scheduler.tick EventCodec.marshal EventCodec.digest zero SchedulerSpec.SchedDemo.clock SchedulerSpec.SchedDemo.Enhance ∅
    false "" 0 (SourceIDs (Some (endpoint id 990))) (fun prior => (poll up id prior).1.1) (Scheduler.mkPollerState 0 false) s).
Definition stored : SchedulerSpec.St := (ticked true "0a0a0a0a" start).2.
Definition after_outage : SchedulerSpec.St := (ticked false "ffffffff" stored).2.

Definition result : PollResult :=
  match (poll true "0a0a0a0a" none_stored).1.1 with
  | inr r => r
  | inl _ => mkPollResult [] ∅ [] [] [] [] [] [] [] false
  end.
Lemma polled : exists reg' n', poll true "0a0a0a0a" none_stored = (inr result, reg', n').
Proof.
  exists (poll true "0a0a0a0a" none_stored).1.2, (poll true "0a0a0a0a" none_stored).2.
  assert (H : (poll true "0a0a0a0a" none_stored).1.1 = inr result) by (unfold result; destruct (poll _ _ _).1.1 eqn:E; [vm_compute in E; discriminate E|reflexivity]).
  rewrite <-H. by destruct (poll true "0a0a0a0a" none_stored) as [[? ?] ?].
Qed.

Lemma presence_witness : Id <$> Events result = [event_id node] /\ NoDup (Id <$> Events result).
Proof.
  split; [vm_compute; reflexivity|]. destruct polled as (reg' & n' & Hp).
  exact (proj1 (proj2 (presence cfg None t0 (fun _ => t0) none_stored (Some (wired true)) (Some (endpoint "0a0a0a0a" 990))
    NewNetworkNormalizer result reg' n' Hp))).
Defined.

Lemma telemetry_of_the_node_witness :
  exists ev r, Events result = [ev] /\ GetTelemetry ev ≫= admin = Some readings
    /\ Push.NodeID r = "0a0a0a0a" /\ Push.nr_Telemetry r = Some readings.
Proof.
  destruct polled as (reg' & n' & Hp).
  destruct (Events result) as [|ev [|? ?]] eqn:Eev; [vm_compute in Eev; discriminate Eev| |vm_compute in Eev; discriminate Eev].
  assert (Ha : GetTelemetry ev ≫= admin = Some readings) by (vm_compute in Eev; injection Eev as <-; reflexivity).
  assert (Hin : ev ∈ Events result) by (rewrite Eev; left).
  destruct (telemetry_of_the_node cfg None t0 (fun _ => t0) none_stored (Some (wired true)) (Some (endpoint "0a0a0a0a" 990))
    NewNetworkNormalizer result reg' n' ev readings Hp Hin Ha) as [(k & r & _ & Hr & _ & Ht & _)|[Hs _]];
    [|vm_compute in Hs; discriminate Hs].
  exists ev, r. split; [reflexivity|split; [exact Ha|split; [|exact Ht]]].
  replace (Push.Reports (snap_of (Some (endpoint "0a0a0a0a" 990)))) with [report "0a0a0a0a" 990] in Hr
    by (vm_compute; reflexivity).
  apply list_elem_of_singleton in Hr as ->. reflexivity.
Defined.

(** The one event the store holds, and the two polls' words on it. *)
Lemma stored_row :
  (fun r => (c_status r, c_source_id r, headline (c_proto r), Id (c_proto r))) <$> events (SchedulerSpec.core stored).1 !! event_id node
  = Some (ACTIVE, meshSourceID, "Ridge (repeater)", event_id node)
  /\ (map_to_list (events (SchedulerSpec.core stored).1)).*1 = [event_id node].
Proof. split; vm_compute; reflexivity. Qed.

Lemma ids_stored : SchedulerSpec.ids_ok (SchedulerSpec.core stored).1.
Proof.
  destruct stored_row as [Hrow Hdom]. intros k x Hx.
  assert (Hk : k ∈ (map_to_list (events (SchedulerSpec.core stored).1)).*1).
  { apply list_elem_of_fmap. exists (k, x). split; [reflexivity|]. by apply elem_of_map_to_list. }
  rewrite Hdom in Hk. apply list_elem_of_singleton in Hk as ->. rewrite Hx in Hrow. by injection Hrow.
Qed.

Abbreviation quiet prior :=
  (gather cfg None t0 prior (Some (wired false)) (Some (endpoint "ffffffff" 990)) NewNetworkNormalizer).

(** The new process has heard nothing and knows no key. *)
Lemma quiet_gather prior :
  tk_nodes (quiet prior).1.1 = [] /\ tk_seen (quiet prior).1.1 = ∅
  /\ (forall g k, (quiet prior).1.2 = Some g -> ResolvePrefix "ffffffff" g <> (k, true)).
Proof. split; [reflexivity|split; [reflexivity|]]. intros g k Hg. injection Hg as <-. discriminate. Qed.

Lemma not_told prior r reg' n' ev :
  poll false "ffffffff" prior = (inr r, reg', n') -> ev ∈ Events r -> Id ev <> event_id node.
Proof.
  intros Hp Hev Hid. destruct (quiet_gather prior) as (Hnodes & Hseen & Hres).
  assert (Hin : event_id node ∈ Id <$> Events r) by (rewrite <-Hid; by apply list_elem_of_fmap_2).
  assert (Hreports : Push.Reports (snap_of (Some (endpoint "ffffffff" 990))) = [report "ffffffff" 990]) by (vm_compute; reflexivity).
  pose proof (events_are cfg None t0 (fun _ => t0) prior (Some (wired false)) (Some (endpoint "ffffffff" 990))
    NewNetworkNormalizer r reg' n' Hp (event_id node)) as Hids.
  apply Hids in Hin as (k & Hk%(inj event_id) & [(nd & Hnd & _)|[(_ & _ & x & Hx & Hkey & _)|[[t Ht] _]]]).
  - rewrite Hnodes in Hnd. by apply not_elem_of_nil in Hnd.
  - rewrite Hreports in Hx. apply list_elem_of_singleton in Hx as ->. subst k.
    pose proof (catalog_means cfg (tk_nodes (quiet prior).1.1) (Push.Reports (snap_of (Some (endpoint "ffffffff" 990))))
      (tk_view (quiet prior).1.1) (quiet prior).1.2 (report "ffffffff" 990)) as Hm.
    rewrite Hkey in Hm. destruct Hm as [Hm|(_ & [(_ & Hpre & _)|(g & Hg & Hr)])].
    + vm_compute in Hm. discriminate Hm.
    + vm_compute in Hpre. discriminate Hpre.
    + exact (Hres g node Hg Hr).
  - rewrite Hseen, lookup_empty in Ht. discriminate Ht.
Qed.

Lemma outage_keeps_nodes_witness : exists row,
  (c_status row, headline (c_proto row)) = (ACTIVE, "Ridge (repeater)")
  /\ events (SchedulerSpec.core after_outage).1 !! event_id node = Some row.
Proof.
  destruct (events (SchedulerSpec.core stored).1 !! event_id node) as [row|] eqn:E.
  2: { exfalso. destruct stored_row as [Hrow _]. rewrite E in Hrow. discriminate Hrow. }
  pose proof (proj1 stored_row) as Hrow. rewrite E in Hrow. injection Hrow as Hst Hsrc Hhead _.
  exists row. split; [rewrite Hst, Hhead; reflexivity|].
  refine (proj1 (outage_keeps_nodes EventCodec.marshal EventCodec.digest zero SchedulerSpec.SchedDemo.clock
    SchedulerSpec.SchedDemo.Enhance ∅ false "" 0 cfg None t0 (fun _ => t0) (Some (wired false))
    (Some (endpoint "ffffffff" 990)) NewNetworkNormalizer (Scheduler.mkPollerState 0 false) stored
    (ticked false "ffffffff" stored).1 after_outage (event_id node) row ids_stored _ _ E Hsrc _)).
  - left. eexists. split; [left|reflexivity].
  - unfold after_outage. apply surjective_pairing.
  - intros prior r ev Hr Hev. destruct (poll false "ffffffff" prior) as [[x reg'] n'] eqn:Ep. cbn [fst] in Hr. subst x.
    exact (not_told prior r reg' n' ev Ep Hev).
Defined.

(** The node of [RegistryDemo] as the registry presents it, and as a process that
    just restarted does: without the brokers, with its clocks moved on. *)
Definition presented (brokers : list string) (t : Time) : Registry.NodeState :=
  Registry.mkNodeState node "repeater" "Ridge" true (of_Z 38) (of_Z (-120)) brokers (of_Z 5) (-90) 0 ["observer"] t t t 0
    true.
Definition before : mergedNode := mkMerged node (Some (presented ["tcp://broker"] t0)) [report "0a0a0a0a" 990] time_zero.
Definition after : mergedNode := mkMerged node (Some (presented [] (t0 + hour))) [] (t0 + minute).
Definition built : Event :=
  buildEvent cfg (Some (endpoint "0a0a0a0a" 990)) before t0 t0 (view_of none_stored) false.
Definition known : View := mkView (fun id => if String.eqb id (event_id node) then Some built else None) (fun _ => [built]).

Lemma steady_node_witness :
  ContentHash EventCodec.marshal EventCodec.digest
    (buildEvent cfg (Some (endpoint "0a0a0a0a" 990)) after (t0 + hour) (t0 + hour) known true)
  = ContentHash EventCodec.marshal EventCodec.digest built.
Proof.
  destruct (GetMesh built) as [d|] eqn:Ed; [|vm_compute in Ed; discriminate Ed].
  apply (steady_node EventCodec.marshal EventCodec.digest cfg (Some (endpoint "0a0a0a0a" 990)) before after t0 (t0 + hour) t0
    (t0 + hour) (view_of none_stored) known false true built d).
  - reflexivity.
  - vm_compute. reflexivity.
  - exact Ed.
  - vm_compute in Ed. injection Ed as <-. split.
    + reflexivity.
    + split; discriminate.
    + intros s Hs. injection Hs as <-. split; reflexivity.
    + intros s Hs _. injection Hs as <-. exists (mkLatLng (of_Z 38) (of_Z (-120))). split; vm_compute; reflexivity.
    + left. reflexivity.
    + left. split; reflexivity.
Defined.

Lemma reachability_verdict_witness :
  reachability cfg [report "0a0a0a0a" 990] t0 = REACHABLE
  /\ reachability cfg [report "0a0a0a0a" 990] (t0 + hour) <> REACHABLE.
Proof.
  assert (Hw : 0 <= UnreachableAfterOrDefault cfg < max_int64) by (split; vm_compute; [discriminate|reflexivity]).
  assert (Ha : any_attempt [report "0a0a0a0a" 990]) by (eexists; split; [left|left; vm_compute; reflexivity]).
  destruct (reachability_verdict cfg [report "0a0a0a0a" 990] t0 Hw) as (_ & H1 & _).
  destruct (reachability_verdict cfg [report "0a0a0a0a" 990] (t0 + hour) Hw) as (_ & H2 & _).
  split.
  - apply H1. split; [exact Ha|]. eexists. split; [left|split; vm_compute; [reflexivity|discriminate]].
  - intros Hr. apply H2 in Hr as [_ (r & Hr & _ & Hle)]. apply list_elem_of_singleton in Hr as ->.
    vm_compute in Hle. by apply Hle.
Defined.

Lemma relay_window_witness :
  (noteRelays cfg ∅ (t0 + hour) (note_all cfg [({[node := t0]}, t0 + minute)] NewNetworkNormalizer)).1 !! node = Some t0.
Proof.
  apply (proj1 (relay_window cfg [({[node := t0]}, t0 + minute)] (∅, t0 + hour) node t0
    ltac:(repeat constructor; vm_compute; discriminate))); [vm_compute; reflexivity|].
  split; [|vm_compute; discriminate]. split; [vm_compute; reflexivity|]. split.
  - eexists. split; [left|]. apply lookup_singleton_eq.
  - intros x t' Hx Ht. apply elem_of_cons in Hx as [->|Hx].
    + cbn [fst] in Ht. rewrite lookup_singleton_eq in Ht. injection Ht as <-. reflexivity.
    + apply list_elem_of_singleton in Hx as ->. cbn [fst] in Ht. rewrite lookup_empty in Ht. discriminate Ht.
Defined.

Definition heard_merge : Merged := {[node := before]}.
Abbreviation no_view := (mkView (fun _ => None) (fun _ => [])).
Abbreviation mesh0 := (Tx.mkSt (Mesh.mkMeshDB [] ∅ ∅ ∅ ∅) 0 [] : Tx.St Mesh.MeshDB Z).
Abbreviation act0 := (meshActivity heard_merge no_view ∅ NewNetworkNormalizer).

Lemma activity_delivered_witness :
  exists w, Mesh.mesh_activity (Tx.db (Mesh.RecordMeshTick [] act0.1 mesh0).2) !! Mesh.ToLower node = Some w
    /\ time_unix t0 <= w.1.
Proof.
  destruct (activity_delivered heard_merge no_view ∅ NewNetworkNormalizer act0.2 act0.1 [] mesh0
    (Mesh.RecordMeshTick [] act0.1 mesh0).1 (Mesh.RecordMeshTick [] act0.1 mesh0).2 (surjective_pairing _)) as [H _].
  - intros k a Hk. cbn [NewNetworkNormalizer activity] in Hk. rewrite lookup_empty in Hk. discriminate Hk.
  - apply surjective_pairing.
  - destruct H as (_ & _ & H); [vm_compute; reflexivity|].
    apply (proj1 (H node ltac:(vm_compute; left)) (presented ["tcp://broker"] t0)).
    + unfold heard_merge. rewrite lookup_singleton_eq. reflexivity.
    + vm_compute. reflexivity.
Defined.

(** The node is stored under a prefix of its key. *)
Definition by_prefix : Prior :=
  Scheduler.mkPrior ∅ {["meshcore" := [buildEvent cfg (Some (endpoint "0a0a0a0a" 990)) (mkMerged "0a0a0a0a" None [] 0) t0 t0
                                        (view_of none_stored) false]]}.
Definition promoted : PollResult :=
  match (poll true "0a0a0a0a" by_prefix).1.1 with
  | inr r => r
  | inl _ => mkPollResult [] ∅ [] [] [] [] [] [] [] false
  end.

Lemma promotion_evidence_witness :
  MeshTelemetryRenames promoted = [mkMeshKeyRename "0a0a0a0a" node] /\ event_id node ∈ Id <$> Events promoted.
Proof.
  assert (Hren : MeshTelemetryRenames promoted = [mkMeshKeyRename "0a0a0a0a" node]) by (vm_compute; reflexivity).
  split; [exact Hren|].
  assert (Hp : exists reg' n', poll true "0a0a0a0a" by_prefix = (inr promoted, reg', n')).
  { exists (poll true "0a0a0a0a" by_prefix).1.2, (poll true "0a0a0a0a" by_prefix).2.
    assert (H : (poll true "0a0a0a0a" by_prefix).1.1 = inr promoted)
      by (unfold promoted; destruct (poll _ _ _).1.1 eqn:E; [vm_compute in E; discriminate E|reflexivity]).
    rewrite <-H. by destruct (poll true "0a0a0a0a" by_prefix) as [[? ?] ?]. }
  destruct Hp as (reg' & n' & Hp).
  destruct (promotion_evidence cfg None t0 (fun _ => t0) by_prefix (Some (wired true)) (Some (endpoint "0a0a0a0a" 990))
    NewNetworkNormalizer promoted reg' n' Hp) as [_ H].
  apply (H (mkMeshKeyRename "0a0a0a0a" node)). rewrite Hren. left.
Defined.

End NetworkDemo.
End NetworkSpec.
