(* ===== verification/Evacuation.v ===== *)
(** * The evacuation feed

    [internal/ingest/evacuation.go] over [internal/clients/caloes/client.go]: one
    poll turns the rows of the Cal OES layer into one event per zone. What the
    layer's server answers is an argument; [encoding/json] and [crypto/sha256]
    are classes. The orphan warning only writes to the log and is left out. *)

From Stdlib Require Import Ascii.
From stdpp Require Import pretty.
From S2P Require Import Prelude Float64 Geojson GridEvent GoText Scheduler Severity Feeds.

(** ** The client *)

Module Caloes.
Import F64 Text Feeds.

Definition maxBody : Z := Z.shiftl 16 20.

Record evacFeature := mkEvacFeature {
  f_ZoneID : string; f_ZoneName : string; f_County : string; f_Status : string; f_EventType : string;
  f_PublicInfo : string; f_Notes : string; f_LastUpdated : Z; f_EditDate : Z; f_Type : string; f_Coordinates : string }.
Record evacResponse := mkEvacResponse { Features : list evacFeature; Error : option arcgisError }.

(** [json.Decoder.Decode]: an error, or the response. *)
Class CaloesJson := { decode : string -> string + evacResponse }.

Record EvacZone := mkEvacZone {
  ZoneID : string; ZoneName : string; County : string; Status : string; EventType : string;
  PublicInfo : string; Notes : string; LastUpdated : Time; EditedAt : Time;
  GeometryType : string; GeometryCoords : string }.

Definition zone_of (f : evacFeature) : EvacZone :=
  mkEvacZone (f_ZoneID f) (f_ZoneName f) (f_County f) (f_Status f) (f_EventType f) (f_PublicInfo f) (f_Notes f)
    (msToTime (f_LastUpdated f)) (msToTime (f_EditDate f)) (f_Type f) (f_Coordinates f).

Definition GetActiveEvacuations `{CaloesJson} (reply : Response) : string + list EvacZone :=
  match body_of "Cal OES" maxBody reply with
  | inl e => inl e
  | inr body =>
      match decode body with
      | inl e => inl ("failed to decode Cal OES response: " +:+ e)
      | inr parsed =>
          match Error parsed with
          | Some e => inl ("Cal OES ArcGIS error " +:+ pretty (Code e) +:+ ": " +:+ Message e)
          | None => inr (zone_of <$> Features parsed)
          end
      end
  end.

(** *** Viewer links *)

Definition SourceURL : string := "https://protect.genasys.com/".
Definition countyViewers : list (string * string) :=
  [("TUOLUMNE", "https://experience.arcgis.com/experience/701c7fd899574b6ea6c1596cbbd1dcc6/page/Page?org=Tuolumne")].

Definition is_upper (n : N) : bool := (65 <=? n)%N && (n <=? 90)%N.

(** [^US-CA-X[A-Z]+-]: [more] is whether a letter was read. *)
Fixpoint letters_dash (more : bool) (l : list ascii) : bool :=
  match l with
  | [] => false
  | c :: r => if is_upper (code c) then letters_dash true r else more && N.eqb (code c) 45
  end.
Definition genasysZone (id : string) : bool :=
  match CutPrefix id "US-CA-X" with Some rest => letters_dash false (bytes rest) | None => false end.

(** [url.PathEscape]. *)
Definition path_byte (n : N) : bool :=
  is_upper n || (97 <=? n)%N && (n <=? 122)%N || is_digit n
  || bool_decide (n ∈ [45; 95; 46; 126; 36; 38; 43; 58; 61; 64]%N).
Definition hex_digit (n : N) : ascii := ascii_of_N (if (n <? 10)%N then 48 + n else 55 + n)%N.
Definition PathEscape (s : string) : string :=
  of_bytes (bytes s ≫= fun c =>
    if path_byte (code c) then [c] else ["%"%char; hex_digit (code c / 16)%N; hex_digit (code c mod 16)%N]).

Definition ZoneURL `{UnicodeUpper} (zoneID county : string) : string :=
  if genasysZone zoneID then "https://protect.genasys.com/zones/" +:+ PathEscape zoneID
  else match head (filter (fun p : string * string => p.1 = ToUpper (TrimSpace county)) countyViewers) with
       | Some p => p.2
       | None => SourceURL
       end.

End Caloes.

(** ** The normalizer *)

Module Evacuation.
Import F64 Grid Text Severity Feeds.
Import Scheduler (Prior, ByID, ForSource, PollResult).
Import Caloes (EvacZone, ZoneID, ZoneName, County, Status, EventType, PublicInfo, Notes, LastUpdated, GeometryType, GeometryCoords, CaloesJson).

Definition SourceIDs : list string := ["caloes"].

(** [evacCand]: a built event with the zone it came from. *)
Record evacCand := mkCand { z : EvacZone; ev : Event }.

Definition evacLevelRank (level : string) : Z :=
  if String.eqb level "ORDER" then 4
  else if String.eqb level "SHELTER_IN_PLACE" then 3
  else if String.eqb level "WARNING" then 2
  else if String.eqb level "ADVISORY" then 1
  else 0.

Definition GetLevel (e : Event) : string := match GetEvacuation e with Some d => level d | None => "" end.
Definition GetCounty (e : Event) : string := match GetEvacuation e with Some d => ev_county d | None => "" end.

Definition sameEvacZone (a b : EvacZone) : bool :=
  if negb (String.eqb (ZoneID a) "") || negb (String.eqb (ZoneID b) "") then String.eqb (ZoneID a) (ZoneID b)
  else if negb (String.eqb (ZoneName a) "") || negb (String.eqb (ZoneName b) "") then
    String.eqb (ZoneName a) (ZoneName b) && String.eqb (County a) (County b)
  else String.eqb (County a) (County b) && String.eqb (GeometryCoords a) (GeometryCoords b).

(** *** Collisions on an id *)

Definition cluster (c : evacCand) (clusters : list (list evacCand)) : list (list evacCand) :=
  first_fit (fun a b => sameEvacZone (z a) (z b)) c clusters.

(** The first candidate of the highest level. *)
Definition best_of (best : evacCand) (l : list evacCand) : evacCand :=
  foldl (fun best c => if evacLevelRank (GetLevel (ev best)) <? evacLevelRank (GetLevel (ev c)) then c else best) best l.
Definition collapse (cl : list evacCand) : option evacCand :=
  match cl with [] => None | c :: l => Some (best_of c l) end.

Definition centroid_lat (e : Event) : float64 := default zero (lat <$> centroid_of (geometry e)).
Definition centroid_lng (e : Event) : float64 := default zero (lng <$> centroid_of (geometry e)).
Definition winner_less (a b : Event) : bool :=
  if negb (String.eqb (GetCounty a) (GetCounty b)) then str_ltb (GetCounty a) (GetCounty b)
  else if negb (eqb (centroid_lat a) (centroid_lat b)) then ltb (centroid_lat a) (centroid_lat b)
  else ltb (centroid_lng a) (centroid_lng b).

(** The stored events of an id and of the ids that extend it. *)
Definition family (prior : Prior) (base : string) : list Event :=
  filter (fun pe => String.eqb (Id pe) base || HasPrefix (Id pe) (base +:+ "-") = true) (ForSource prior "caloes").

(** The nearest stored event of the winner's county that is not taken. *)
Definition nearer (taken : list string) (w : Event) (best : string * float64) (pe : Event) : string * float64 :=
  if bool_decide (Id pe ∈ taken) || negb (String.eqb (GetCounty pe) (GetCounty w)) then best
  else
    let d := centroidDistSq (geometry pe) (geometry w) in
    if ltb d best.2 then (Id pe, d) else best.
Definition nearest (priors : list Event) (taken : list string) (w : Event) : string :=
  (foldl (nearer taken w) ("", MaxFloat64) priors).1.

(** The first pass: the stored id each winner claims. *)
Fixpoint claim (priors : list Event) (taken : list string) (winners : list Event) : list (option string) :=
  match winners with
  | [] => []
  | w :: ws =>
      let best := nearest priors taken w in
      if String.eqb best "" then None :: claim priors taken ws else Some best :: claim priors (best :: taken) ws
  end.

(** The lowest suffix from [i] that is free. *)
Fixpoint free_suffix (fuel : nat) (taken : list string) (base id : string) (i : Z) : string :=
  match fuel with
  | O => id
  | S fuel => if bool_decide (id ∈ taken) then free_suffix fuel taken base (suffixed base i) (i + 1) else id
  end.

(** The second pass: the ids of all winners. *)
Fixpoint assign (base : string) (taken : list string) (claims : list (option string)) : list string :=
  match claims with
  | [] => []
  | Some id :: l => id :: assign base taken l
  | None :: l =>
      let id := free_suffix (S (length taken)) taken base base 2 in
      id :: assign base (id :: taken) l
  end.

Definition assignEvacContinuityIDs (prior : Prior) (base : string) (winners : list Event) : list Event :=
  let claims := claim (family prior base) [] winners in
  zip_with set_id (assign base (omap id claims) claims) winners.

Definition resolveEvacIDCollisions (prior : Prior) (id : string) (cands : list evacCand) : list Event :=
  let clusters := foldl (fun cls c => cluster c cls) [] cands in
  let winners := SliceStable winner_less (ev <$> omap collapse clusters) in
  assignEvacContinuityIDs prior id winners.

(** *** The event of a zone *)

Section Poll.
Context {UL : UnicodeLower} {UU : UnicodeUpper} {JK : JsonKernel} {GT : GeoText} {SH : Sha256} {CJ : CaloesJson}.

Definition humanEvacLevel (level : string) : string :=
  join " " ((fun w => ToUpper (String.substring 0 1 w) +:+ String.substring 1 (String.length w) w)
            <$> Fields (ToLower (ReplaceAll level "_" " "))).

Definition evacHeadline (z : EvacZone) (level : string) : string :=
  let what := ZoneName z in
  let what :=
    if negb (String.eqb what "") && negb (String.eqb (ZoneID z) "") && negb (Text.Contains what (ZoneID z))
    then what +:+ " (" +:+ ZoneID z +:+ ")"
    else if String.eqb what "" && negb (String.eqb (ZoneID z) "") then ZoneID z
    else if String.eqb what "" then nonEmpty [County z; "zone not identified by source"]
    else what in
  "Evacuation " +:+ humanEvacLevel level +:+ " — " +:+ what.

Definition evacEventID (z : EvacZone) : string :=
  if negb (String.eqb (nonEmpty [ZoneID z; ZoneName z]) "") then "evac:" +:+ nonEmpty [ZoneID z; ZoneName z]
  else "evac:zone-" +:+ String.substring 0 8 (sha256 (County z +:+ GeometryCoords z)).

Definition buildEvent (areas : list HazardArea) (now : Time) (z : EvacZone) (level : string) : Event :=
  let geom := geometryFromTyped (GeometryType z) (GeometryCoords z) in
  mkEvent (evacEventID z) EVACUATION (ToLower level) (SeverityFromLabel (fromEvacLevel level)) ACTIVE
    (evacHeadline z level) "" (nonEmpty [PublicInfo z; Notes z]) (nonEmpty [ZoneName z; County z]) "" geom
    (match geom with Some _ => [] | None => (fun a => "area:" +:+ ha_ID a) <$> areas end)
    (Some (NewProvenance "caloes" "Cal OES" "Cal OES — reference only" (Caloes.ZoneURL (ZoneID z) (County z)) now))
    None None (tsProto (firstNonZeroTime [LastUpdated z; Caloes.EditedAt z])) None 0 None
    (Some (D_Evacuation (mkEvacuationDetail (ZoneID z) level (EventType z) (County z)))).

(** The level of a row; none for a row that is explicitly inactive. *)
Definition zone_level (z : EvacZone) : option string :=
  let level := normalizeEvacLevel (Status z) in
  if String.eqb level "" then if EvacStatusInactive (Status z) then None else Some "WARNING"
  else Some level.

Definition add_zone (areas : list HazardArea) (now : Time) (groups : list (string * list evacCand)) (z : EvacZone)
    : list (string * list evacCand) :=
  match zone_level z with
  | None => groups
  | Some level => let e := buildEvent areas now z level in add_group (Id e) (mkCand z e) groups
  end.

Definition resolve_all (prior : Prior) (groups : list (string * list evacCand)) : list Event :=
  groups ≫= fun g => resolveEvacIDCollisions prior g.1 g.2.

(** [Poll]; the server's reply depends on the box that is asked for. *)
Definition Poll (areas : list HazardArea) (now : Time) (prior : Prior)
    (server : float64 * float64 * float64 * float64 -> Response) : string + PollResult :=
  match unionBounds areas with
  | None => inl (errEmptyScope "hazard areas")
  | Some box =>
      match Caloes.GetActiveEvacuations (server box) with
      | inl e => inl e
      | inr zones => inr (poll_result (resolve_all prior (foldl (add_zone areas now) [] zones)) ∅ [])
      end
  end.

End Poll.

End Evacuation.
