(* ===== verification/EvacuationSpec.v ===== *)
(** * What the evacuation feed promises

    No zone the layer lists as active is dropped or graded down, an outage never
    reads as an empty layer, and a zone keeps its id while the zones it shares a
    name with come and go. *)

From Stdlib Require Import Ascii.
From stdpp Require Import pretty.
From S2P Require Import Prelude Float64 Geojson GridEvent GoText Scheduler Severity Feeds Evacuation.

Module EvacuationSpec.
Import F64 Grid Text Severity Feeds Evacuation.
Import Scheduler (Prior, mkPrior, ForSource, PollResult, Events).
Import Caloes (EvacZone, mkEvacZone, ZoneID, ZoneName, County, Status, GeometryCoords, CaloesJson).

(** ** One zone *)

Lemma same_zone_refl a : sameEvacZone a a = true.
Proof. unfold sameEvacZone. rewrite !String.eqb_refl. by repeat case_match. Qed.

Lemma same_zone_trans a b c : sameEvacZone a b = true -> sameEvacZone a c = true -> sameEvacZone b c = true.
Proof.
  unfold sameEvacZone. destruct (String.eqb_spec (ZoneID a) ""), (String.eqb_spec (ZoneID b) ""), (String.eqb_spec (ZoneID c) ""),
    (String.eqb_spec (ZoneName a) ""), (String.eqb_spec (ZoneName b) ""), (String.eqb_spec (ZoneName c) ""); cbn;
    rewrite ?andb_true_iff, ?String.eqb_eq; intuition congruence.
Qed.

(** ** Clusters *)

Definition clusters_of (cands : list evacCand) : list (list evacCand) := foldl (fun cls c => cluster c cls) [] cands.

Lemma clusters_ok cands :
  (forall cl, cl ∈ clusters_of cands -> exists c0 r, cl = c0 :: r /\ forall c, c ∈ cl -> c ∈ cands /\ sameEvacZone (z c0) (z c) = true)
  /\ mjoin (clusters_of cands) ≡ₚ cands.
Proof.
  set (same := fun a b : evacCand => sameEvacZone (z a) (z b)).
  pose proof (clusters_perm same cands) as Hp. split; [|done]. intros cl Hcl.
  pose proof (clusters_fit same cands (fun a => same_zone_refl (z a))) as Hf. rewrite Forall_forall in Hf.
  destruct (Hf _ Hcl) as (c0 & r & -> & Hsame). exists c0, r. split; [done|]. rewrite Forall_forall in Hsame.
  intros c Hc. split; [|by apply Hsame]. rewrite <-Hp. apply list_elem_of_join. by exists (c0 :: r).
Qed.

Lemma best_of_spec l c :
  best_of c l ∈ c :: l
  /\ Forall (fun x => evacLevelRank (GetLevel (ev x)) <= evacLevelRank (GetLevel (ev (best_of c l)))) (c :: l).
Proof.
  revert c. induction l as [|x l IH]; intros c; [split; [left|by repeat constructor]|].
  change (best_of c (x :: l)) with (best_of (if evacLevelRank (GetLevel (ev c)) <? evacLevelRank (GetLevel (ev x)) then x else c) l).
  destruct (Z.ltb_spec (evacLevelRank (GetLevel (ev c))) (evacLevelRank (GetLevel (ev x)))) as [Hlt|Hge].
  - destruct (IH x) as [H1 H2]. split; [set_solver|]. inversion H2; subst. repeat constructor; [lia|done..].
  - destruct (IH c) as [H1 H2]. split; [set_solver|]. inversion H2; subst. repeat constructor; [done|lia|done].
Qed.

(** ** Ids of the winners *)

Lemma claim_length priors taken ws : length (claim priors taken ws) = length ws.
Proof. revert taken. induction ws as [|w ws IH]; intros taken; [done|]. cbn. destruct (String.eqb _ _); cbn; by rewrite IH. Qed.

Lemma assign_length base taken cs : length (assign base taken cs) = length cs.
Proof. revert taken. induction cs as [|[i|] cs IH]; intros taken; cbn; by rewrite ?IH. Qed.

Definition claimable (priors : list Event) (taken : list string) (w pe : Event) : Prop :=
  pe ∈ priors /\ Id pe ∉ taken /\ GetCounty pe = GetCounty w.

Lemma nearer_spec priors taken w acc :
  foldl (nearer taken w) acc priors = acc
  \/ exists pe, claimable priors taken w pe /\ (foldl (nearer taken w) acc priors).1 = Id pe.
Proof.
  revert acc. induction priors as [|p ps IH]; intros acc; [by left|]. cbn [foldl].
  destruct (IH (nearer taken w acc p)) as [->|(pe & [? ?] & ?)]; [|right; exists pe; split; [split; [by right|done]|done]].
  unfold nearer. case_bool_decide; [by left|]. destruct (String.eqb_spec (GetCounty p) (GetCounty w)); [|by left].
  cbn. destruct (ltb _ _); [|by left]. right. exists p. split; [split; [left|done]|done].
Qed.

Lemma nearest_spec priors taken w :
  nearest priors taken w = "" \/ exists pe, claimable priors taken w pe /\ nearest priors taken w = Id pe.
Proof. unfold nearest. destruct (nearer_spec priors taken w ("", MaxFloat64)) as [->|?]; [by left|by right]. Qed.

(** What the first pass claims is stored, in the winner's county, and claimed once. *)
Lemma claim_spec priors taken ws :
  NoDup (omap id (claim priors taken ws)) /\ (forall i, i ∈ omap id (claim priors taken ws) -> i ∉ taken)
  /\ Forall2 (fun o w => forall i, o = Some i -> exists pe, pe ∈ priors /\ Id pe = i /\ GetCounty pe = GetCounty w)
       (claim priors taken ws) ws.
Proof.
  revert taken. induction ws as [|w ws IH]; intros taken; [split_and!; [constructor|set_solver|done]|]. cbn [claim].
  destruct (String.eqb_spec (nearest priors taken w) "") as [Hn|Hn].
  { destruct (IH taken) as (H1 & H2 & H3). split_and!; [done..|]. by constructor. }
  destruct (nearest_spec priors taken w) as [?|(pe & (Hin & Ht & Hc) & Hpe)]; [done|].
  destruct (IH (nearest priors taken w :: taken)) as (H1 & H2 & H3). cbn. split_and!.
  - constructor; [|done]. intros Hi%H2. set_solver.
  - intros i [->|Hi]%elem_of_cons; [by rewrite Hpe|]. apply H2 in Hi. set_solver.
  - constructor; [|done]. intros i [= <-]. by exists pe.
Qed.

Lemma free_suffix_from fuel taken base i tested :
  NoDup tested -> (forall x, x ∈ tested -> x ∈ taken) -> (length taken < length tested + fuel)%nat ->
  (forall j, i <= j -> suffixed base j ∉ tested) -> suffixed base (i - 1) ∉ tested ->
  free_suffix fuel taken base (suffixed base (i - 1)) i ∉ taken
  /\ exists j, i - 1 <= j /\ free_suffix fuel taken base (suffixed base (i - 1)) i = suffixed base j.
Proof.
  revert i tested. induction fuel as [|fuel IH]; intros i tested Hnd Hsub Hlen Hnew Hcur.
  { exfalso. pose proof (NoDup_submseteq _ _ Hnd Hsub). apply submseteq_length in H. lia. }
  cbn [free_suffix]. case_bool_decide as Hin; [|split; [done|]; exists (i - 1); split; [lia|done]].
  replace (suffixed base i) with (suffixed base (i + 1 - 1)) by (f_equal; lia).
  destruct (IH (i + 1) (suffixed base (i - 1) :: tested)) as [H1 (j & Hj & H2)].
  - by constructor.
  - intros x [->|Hx]%elem_of_cons; auto.
  - cbn. lia.
  - intros j Hj [He%suffixed_inj|Hx]%elem_of_cons; [lia|]. by apply (Hnew j); [lia|].
  - replace (i + 1 - 1) with i by lia. intros [He%suffixed_inj|Hx]%elem_of_cons; [lia|]. by apply (Hnew i); [lia|].
  - split; [done|]. exists j. split; [lia|done].
Qed.

(** An id the second pass makes: the base or one of its suffixes. *)
Definition fresh_id (base i : string) : Prop := i = base \/ exists n, 2 <= n /\ i = suffixed base n.

Lemma free_suffix_spec taken base :
  free_suffix (S (length taken)) taken base base 2 ∉ taken
  /\ fresh_id base (free_suffix (S (length taken)) taken base base 2).
Proof.
  cbn [free_suffix]. case_bool_decide as Hin; [|split; [done|by left]].
  destruct (free_suffix_from (length taken) taken base 3 [base]) as [H1 (j & Hj & H2)].
  - repeat constructor. set_solver.
  - set_solver.
  - cbn. lia.
  - intros j _ He%list_elem_of_singleton. by apply suffixed_base in He.
  - intros He%list_elem_of_singleton. by apply suffixed_base in He.
  - change (3 - 1) with 2 in *. split; [done|]. right. exists j. split; [lia|done].
Qed.

Lemma assign_spec base taken cs :
  (forall i, i ∈ omap id cs -> i ∈ taken) -> NoDup (omap id cs) ->
  NoDup (assign base taken cs)
  /\ (forall i, i ∈ assign base taken cs -> i ∈ omap id cs \/ i ∉ taken)
  /\ Forall2 (fun i o => match o with Some j => i = j | None => fresh_id base i end) (assign base taken cs) cs.
Proof.
  revert taken. induction cs as [|[c|] cs IH]; intros taken Hsub Hnd; cbn in *; [split_and!; [constructor|set_solver|done]|..].
  - inversion Hnd; subst. destruct (IH taken) as (H1' & H2' & H3'); [set_solver|done|]. split_and!.
    + constructor; [|done]. intros [Hi|Hi]%H2'; [done|]. apply Hi, Hsub. left.
    + intros i [->|Hi]%elem_of_cons; [left; left|]. destruct (H2' i Hi); [left; by right|by right].
    + by constructor.
  - destruct (free_suffix_spec taken base) as [Hfree Hfresh]. set (x := free_suffix _ taken base base 2) in *.
    fold (free_suffix (S (length taken)) taken base base 2) in x.
    destruct (IH (x :: taken)) as (H1' & H2' & H3'); [set_solver|done|]. split_and!.
    + constructor; [|done]. intros [Hi|Hi]%H2'; [|set_solver]. by apply Hfree, Hsub.
    + intros i [->|Hi]%elem_of_cons; [by right|]. destruct (H2' i Hi); [by left|right; set_solver].
    + by constructor.
Qed.

(** ** The events of one id *)

Definition winners (cands : list evacCand) : list Event := SliceStable winner_less (ev <$> omap collapse (clusters_of cands)).

(** Each winner keeps its content and gets an id of its own: the base, a suffix
    of it, or the id of a stored event of its county. *)
Lemma resolve_ids prior base cands :
  exists ids,
    resolveEvacIDCollisions prior base cands = zip_with set_id ids (winners cands)
    /\ length ids = length (winners cands) /\ NoDup ids
    /\ Forall2 (fun i w => fresh_id base i
                  \/ exists pe, pe ∈ family prior base /\ Id pe = i /\ GetCounty pe = GetCounty w) ids (winners cands).
Proof.
  change (resolveEvacIDCollisions prior base cands) with (assignEvacContinuityIDs prior base (winners cands)).
  unfold assignEvacContinuityIDs. set (ws := winners cands). set (cs := claim (family prior base) [] ws).
  destruct (claim_spec (family prior base) [] ws) as (Hnd & _ & Hclaim). fold cs in Hnd, Hclaim.
  destruct (assign_spec base (omap id cs) cs (fun _ H => H) Hnd) as (H1 & _ & H2).
  exists (assign base (omap id cs) cs). split_and!; [done| |done|].
  - by rewrite assign_length; unfold cs; rewrite claim_length.
  - clear -H2 Hclaim. revert H2 Hclaim. generalize (assign base (omap id cs) cs) as l. generalize ws cs. clear.
    intros ws cs l H2 H. revert l H2. induction H as [|o w cs ws Ho _ IH]; intros l H2; inversion H2; subst; [constructor|].
    constructor; [|by apply IH]. destruct o as [j|]; [right; subst; by apply Ho|by left].
Qed.

Lemma winners_from cands w : w ∈ winners cands -> exists b, b ∈ cands /\ w = ev b.
Proof.
  unfold winners. rewrite SliceStable_perm. intros (b & -> & Hb)%list_elem_of_fmap.
  exists b. split; [|done]. apply list_elem_of_omap in Hb as (cl & Hcl & Hb).
  destruct (clusters_ok cands) as [Hok _]. destruct (Hok _ Hcl) as (c0 & r & -> & Hf). cbn in Hb. injection Hb as <-.
  apply Hf, best_of_spec.
Qed.

(** Every candidate has a winner of its zone that ranks as high at least. *)
Lemma winners_cover cands c :
  c ∈ cands -> exists b, b ∈ cands /\ ev b ∈ winners cands /\ sameEvacZone (z b) (z c) = true
               /\ evacLevelRank (GetLevel (ev c)) <= evacLevelRank (GetLevel (ev b)).
Proof.
  intros Hc. destruct (clusters_ok cands) as [Hok Hperm]. rewrite <-Hperm in Hc.
  apply list_elem_of_join in Hc as (cl & Hc & Hcl). destruct (Hok _ Hcl) as (c0 & r & -> & Hf).
  destruct (best_of_spec r c0) as [Hb Hrank]. rewrite Forall_forall in Hrank.
  exists (best_of c0 r). split_and!.
  - by apply Hf.
  - unfold winners. rewrite SliceStable_perm. apply list_elem_of_fmap. eexists. split; [done|].
    apply list_elem_of_omap. by exists (c0 :: r).
  - eapply same_zone_trans; apply Hf; done.
  - by apply Hrank.
Qed.

Lemma zip_set_id ids ws e :
  e ∈ zip_with set_id ids ws -> exists i w, e = set_id i w /\ w ∈ ws.
Proof. intros (n & i & w & -> & _ & Hw)%elem_of_lookup_zip_with. exists i, w. split; [done|]. by eapply list_elem_of_lookup_2. Qed.

Lemma resolve_from prior base cands e :
  e ∈ resolveEvacIDCollisions prior base cands -> exists i b, b ∈ cands /\ e = set_id i (ev b).
Proof.
  destruct (resolve_ids prior base cands) as (ids & -> & _). intros (i & w & -> & (b & Hb & ->)%winners_from)%zip_set_id.
  by exists i, b.
Qed.

Lemma resolve_covers prior base cands c :
  c ∈ cands -> exists i b, b ∈ cands /\ set_id i (ev b) ∈ resolveEvacIDCollisions prior base cands
    /\ sameEvacZone (z b) (z c) = true /\ evacLevelRank (GetLevel (ev c)) <= evacLevelRank (GetLevel (ev b)).
Proof.
  intros (b & Hb & Hw & Hz & Hr)%winners_cover. destruct (resolve_ids prior base cands) as (ids & -> & Hlen & _).
  apply list_elem_of_lookup in Hw as [n Hn]. destruct (lookup_lt_is_Some_2 ids n) as [i Hi].
  { rewrite Hlen. by apply lookup_lt_Some in Hn. }
  exists i, b. split_and!; [done| |done|done]. eapply list_elem_of_lookup_2. rewrite lookup_zip_with, Hi, Hn. done.
Qed.

(** ** A poll *)

Section Poll.
Context {UL : UnicodeLower} {UU : UnicodeUpper} {JK : JsonKernel} {GT : GeoText} {SH : Sha256} {CJ : CaloesJson}.

(** A zone's candidate. *)
Definition cand_of (areas : list HazardArea) (now : Time) (zn : EvacZone) : option (string * evacCand) :=
  l ← zone_level zn; Some (evacEventID zn, mkCand zn (buildEvent areas now zn l)).

Lemma groups_members areas now zones :
  members (foldl (add_zone areas now) [] zones) ≡ₚ omap (cand_of areas now) zones
  /\ NoDup ((foldl (add_zone areas now) [] zones).*1).
Proof.
  induction zones as [|zn zones [IH1 IH2]] using rev_ind; [split; [done|constructor]|].
  rewrite foldl_snoc, omap_app. cbn. unfold add_zone at 1 3, cand_of at 2. destruct (zone_level zn) as [l|]; cbn.
  - split; [|by apply add_group_keys]. rewrite members_add, IH1. by rewrite <-Permutation_cons_append.
  - by rewrite app_nil_r.
Qed.

Lemma zone_level_spec zn :
  (zone_level zn = None <-> EvacStatusInactive (Status zn) = true)
  /\ (forall l, zone_level zn = Some l -> l ∈ evac_levels).
Proof.
  unfold zone_level. destruct (status_reading (Status zn)) as [H1 H2].
  destruct (String.eqb_spec (normalizeEvacLevel (Status zn)) "") as [He|Hne].
  - destruct (EvacStatusInactive (Status zn)); split; try done.
    intros l [= <-]. unfold evac_levels. set_solver.
  - destruct (H2 Hne) as [Hin _]. split; [|by intros l [= <-]]. split; [done|]. by intros [? _]%H1.
Qed.

(** [e] presents the row [zn] at level [l]: it is an active event of MODERATE
    severity at least, drawn where the row is or attached to every area. *)
Definition presents (areas : list HazardArea) (now : Time) (e : Event) (zn : EvacZone) (l : string) : Prop :=
  zone_level zn = Some l /\ (exists i, e = set_id i (buildEvent areas now zn l))
  /\ 2 <= Severity_number (severity e) /\ status e = ACTIVE
  /\ (geometry e = None -> place_ids e = (fun a => "area:" +:+ ha_ID a) <$> areas).

Lemma presents_built areas now zn l i : zone_level zn = Some l -> presents areas now (set_id i (buildEvent areas now zn l)) zn l.
Proof.
  intros Hl. split_and!; [done|by exists i| |done|].
  - destruct (zone_level_spec zn) as [_ H]. specialize (H l Hl). cbn. unfold evac_levels in H. set_unfold in H.
    destruct H as [->|[->|[->|[->|[]]]]]; vm_compute; discriminate.
  - cbn. by destruct (geometryFromTyped _ _).
Qed.

(** The layer's server answered with these rows: no transport error, no error
    status, a body that decodes, and no error envelope in it. *)
Definition answered (reply : Response) (zones : list EvacZone) : Prop :=
  exists status body resp, reply = Reply status body /\ status < 400
    /\ Caloes.decode (limit Caloes.maxBody body) = inr resp /\ Caloes.Error resp = None
    /\ zones = Caloes.zone_of <$> Caloes.Features resp.

Lemma GetActiveEvacuations_answered reply zones : Caloes.GetActiveEvacuations reply = inr zones -> answered reply zones.
Proof.
  unfold Caloes.GetActiveEvacuations, body_of. destruct reply as [|status body]; [done|].
  destruct (Z.leb_spec 400 status); [done|]. destruct (Caloes.decode _) as [|resp] eqn:Hd; [done|].
  destruct (Caloes.Error resp) eqn:He; [done|]. intros [= <-]. by exists status, body, resp.
Qed.

Lemma cand_of_inv areas now (zones : list EvacZone) i c :
  (i, c) ∈ omap (cand_of areas now) zones <->
  exists l, z c ∈ zones /\ zone_level (z c) = Some l /\ ev c = buildEvent areas now (z c) l /\ i = evacEventID (z c).
Proof.
  rewrite list_elem_of_omap. unfold cand_of. split.
  - intros (zn & Hzn & H). destruct (zone_level zn) as [l|] eqn:Hl; [|done]. injection H as <- <-. by exists l.
  - intros (l & Hz & Hl & He & ->). exists (z c). split; [done|]. rewrite Hl. cbn. rewrite <-He. by destruct c.
Qed.

Lemma resolve_all_elem prior groups e :
  e ∈ resolve_all prior groups <-> exists g, g ∈ groups /\ e ∈ resolveEvacIDCollisions prior g.1 g.2.
Proof. unfold resolve_all. rewrite list_elem_of_bind. split; intros (g & ? & ?); by exists g. Qed.

(** C11: An outage of the Cal OES layer is never an empty one, and no active zone
    is lost or graded down. A poll fails exactly when no area is configured or
    the server's answer is not usable. When it succeeds, every row the server
    listed that is not explicitly inactive, blank and unknown statuses and
    unusable geometry included, is presented by an event of its zone at its
    level or a higher one; and every event presents such a row. *)
Theorem zones_kept areas now prior server :
  match Poll areas now prior server with
  | inl _ =>
      areas = [] \/ exists box e, unionBounds areas = Some box /\ Caloes.GetActiveEvacuations (server box) = inl e
  | inr r =>
      exists box zones, unionBounds areas = Some box /\ answered (server box) zones
      /\ (forall zn, zn ∈ zones -> EvacStatusInactive (Status zn) = false ->
            exists e z' l l', e ∈ Events r /\ z' ∈ zones /\ presents areas now e z' l' /\ sameEvacZone z' zn = true
              /\ zone_level zn = Some l /\ evacLevelRank l <= evacLevelRank l')
      /\ (forall e, e ∈ Events r ->
            exists z' l', z' ∈ zones /\ EvacStatusInactive (Status z') = false /\ presents areas now e z' l')
  end.
Proof.
  unfold Poll. destruct (unionBounds areas) as [box|] eqn:Hbox.
  2: { left. unfold unionBounds in Hbox. by destruct areas. }
  destruct (Caloes.GetActiveEvacuations (server box)) as [e|zones] eqn:Hget; [right; by exists box, e|].
  exists box, zones. split; [done|]. split; [by apply GetActiveEvacuations_answered|].
  destruct (groups_members areas now zones) as [Hmem _].
  set (groups := foldl (add_zone areas now) [] zones) in *.
  assert (Hin : forall i c, (exists cs, (i, cs) ∈ groups /\ c ∈ cs) <-> (i, c) ∈ omap (cand_of areas now) zones).
  { intros i c. by rewrite <-Hmem, member_group. }
  change (Events _) with (resolve_all prior groups). split.
  - intros zn Hzn Hact. destruct (zone_level zn) as [l|] eqn:Hl.
    2: { apply zone_level_spec in Hl. congruence. }
    destruct (proj2 (Hin (evacEventID zn) (mkCand zn (buildEvent areas now zn l)))) as (cs & Hg & Hc).
    { apply cand_of_inv. by exists l. }
    destruct (resolve_covers prior (evacEventID zn) cs _ Hc) as (i & b & Hb & He & Hz & Hrank).
    destruct (proj1 (cand_of_inv areas now zones (evacEventID zn) b)) as (l' & Hbz & Hbl & Hbe & _).
    { apply Hin. by exists cs. }
    exists (set_id i (ev b)), (z b), l, l'. split_and!; [|done| |done|done|].
    + apply resolve_all_elem. by exists (evacEventID zn, cs).
    + rewrite Hbe. by apply presents_built.
    + rewrite Hbe in Hrank. exact Hrank.
  - intros e ([i cs] & Hg & (j & b & Hb & ->)%resolve_from)%resolve_all_elem.
    destruct (proj1 (cand_of_inv areas now zones i b)) as (l' & Hbz & Hbl & Hbe & _).
    { apply Hin. by exists cs. }
    exists (z b), l'. split_and!; [done| |rewrite Hbe; by apply presents_built].
    destruct (EvacStatusInactive (Status (z b))) eqn:E; [|done]. apply zone_level_spec in E. congruence.
Qed.

(** ** Distinct ids *)

(** [i] is the base or extends it. *)
Definition extends (base i : string) : Prop := i = base \/ HasPrefix i (base +:+ "-") = true.

Lemma fresh_extends base i : fresh_id base i -> extends base i.
Proof.
  intros [->|(n & _ & ->)]; [by left|right]. apply HasPrefix_bytes. unfold suffixed. rewrite !bytes_app, app_assoc.
  by exists (bytes (pretty n)).
Qed.

Lemma dash_prefix b1 b2 l :
  bytes (b1 +:+ "-") `prefix_of` l -> bytes (b2 +:+ "-") `prefix_of` l -> b1 = b2
  \/ HasPrefix b2 (b1 +:+ "-") = true \/ HasPrefix b1 (b2 +:+ "-") = true.
Proof.
  rewrite !HasPrefix_bytes, !bytes_app. cbn. intros [k1 H1] [k2 H2].
  destruct (decide (length (bytes b1) = length (bytes b2))) as [He|Hne].
  - left. rewrite H1, <-!app_assoc in H2. apply app_inj_1 in H2 as [H2 _]; [|done].
    by rewrite <-(of_bytes_bytes b1), H2, of_bytes_bytes.
  - right. destruct (decide (length (bytes b1) < length (bytes b2))%nat); [left|right].
    + destruct (prefix_weak_total (bytes b1 ++ ["-"%char]) (bytes b2) l) as [?|H]; [by exists k1| |done|].
      { exists ("-"%char :: k2). by rewrite H2, <-app_assoc. }
      apply prefix_length in H as Hl. rewrite length_app in Hl. cbn in Hl.
      assert (length (bytes b2) = length (bytes b1 ++ ["-"%char])) as Heq by (rewrite length_app; cbn; lia).
      exists []. rewrite app_nil_r. symmetry. by apply prefix_length_eq; [apply prefix_length_eq in H; [by rewrite H|lia]|lia].
    + destruct (prefix_weak_total (bytes b2 ++ ["-"%char]) (bytes b1) l) as [?|H]; [by exists k2| |done|].
      { exists ("-"%char :: k1). by rewrite H1, <-app_assoc. }
      apply prefix_length in H as Hl. rewrite length_app in Hl. cbn in Hl.
      assert (length (bytes b1) = length (bytes b2 ++ ["-"%char])) as Heq by (rewrite length_app; cbn; lia).
      exists []. rewrite app_nil_r. apply prefix_length_eq in H; [by rewrite H|lia].
Qed.

Lemma extends_one b1 b2 i :
  extends b1 i -> extends b2 i -> b1 = b2 \/ HasPrefix b2 (b1 +:+ "-") = true \/ HasPrefix b1 (b2 +:+ "-") = true.
Proof.
  intros [->|H1] [->|H2]; [by left|auto..]. eapply dash_prefix; by apply HasPrefix_bytes.
Qed.

Lemma resolve_extends prior base cands :
  NoDup (Id <$> resolveEvacIDCollisions prior base cands)
  /\ Forall (extends base) (Id <$> resolveEvacIDCollisions prior base cands).
Proof.
  destruct (resolve_ids prior base cands) as (ids & -> & Hlen & Hnd & Hf).
  assert (Id <$> zip_with set_id ids (winners cands) = ids) as ->.
  { clear -Hlen. revert ids Hlen. generalize (winners cands). intros ws.
    induction ws as [|w ws IH]; intros [|i ids] Hlen; cbn in *; try done. f_equal. apply IH. lia. }
  split; [done|]. clear Hnd Hlen. induction Hf as [|i w ids ws Hi _ IH]; constructor; [|done].
  destruct Hi as [?|(pe & Hpe & <- & _)]; [by apply fresh_extends|]. unfold family in Hpe.
  apply list_elem_of_filter in Hpe as [Hpe _]. unfold extends.
  apply orb_prop in Hpe as [->%String.eqb_eq|?]; [by left|by right].
Qed.

(** The events of a poll have ids of their own, whatever is stored and however
    many rows share a zone's id, as long as no zone's id is another's followed
    by a dash. *)
Theorem ids_distinct areas now prior server r zones box :
  Poll areas now prior server = inr r ->
  unionBounds areas = Some box -> Caloes.GetActiveEvacuations (server box) = inr zones ->
  (forall z1 z2, z1 ∈ zones -> z2 ∈ zones -> HasPrefix (evacEventID z2) (evacEventID z1 +:+ "-") = false) ->
  NoDup (Id <$> Events r).
Proof.
  unfold Poll. intros Hpoll Hbox Hget Hdash. rewrite Hbox, Hget in Hpoll. injection Hpoll as <-.
  change (Events _) with (resolve_all prior (foldl (add_zone areas now) [] zones)).
  destruct (groups_members areas now zones) as [Hmem Hkeys].
  set (groups := foldl (add_zone areas now) [] zones) in *.
  assert (Hbase : forall g, g ∈ groups -> g.2 <> [] -> exists zn, zn ∈ zones /\ g.1 = evacEventID zn).
  { intros [i [|c cs]] Hg Hne; [done|].
    assert ((i, c) ∈ omap (cand_of areas now) zones) as (l & ? & _ & _ & ->)%cand_of_inv.
    { rewrite <-Hmem. apply member_group. exists (c :: cs). split; [done|left]. }
    by exists (z c). }
  clearbody groups. clear Hmem. unfold resolve_all. induction groups as [|[i cs] groups IH]; [constructor|].
  cbn [mbind list_bind]. rewrite fmap_app. cbn in Hkeys. inversion Hkeys as [|? ? Hi Hkeys']; subst.
  destruct (resolve_extends prior i cs) as [Hnd Hext]. apply NoDup_app. split_and!; [done| |].
  2: { apply IH; [done|]. intros g Hg. apply Hbase. by right. }
  intros x Hx (e & -> & He)%list_elem_of_fmap. rewrite Forall_forall in Hext. apply Hext in Hx as Hx1.
  apply list_elem_of_bind in He as ([j cs'] & He & Hg). cbn in He.
  destruct (resolve_extends prior j cs') as [_ Hext']. rewrite Forall_forall in Hext'.
  assert (extends j (Id e)) as Hx2 by (apply Hext', list_elem_of_fmap; by exists e).
  assert (Hcs : cs <> []) by (intros ->; by apply not_elem_of_nil in Hx).
  assert (Hcs' : cs' <> []) by (intros ->; by apply not_elem_of_nil in He).
  destruct (Hbase (i, cs)) as (z1 & Hz1 & Hi1); [left|done|]. destruct (Hbase (j, cs')) as (z2 & Hz2 & Hi2); [by right|done|].
  cbn in Hi1, Hi2. destruct (extends_one i j (Id e) Hx1 Hx2) as [->|[H|H]].
  - apply Hi, list_elem_of_fmap. by exists (j, cs').
  - rewrite Hi1, Hi2, Hdash in H; done.
  - rewrite Hi1, Hi2, Hdash in H; done.
Qed.

End Poll.

(** ** Continuity *)

(** [pe] is the stored event of the winner [w]: of all the stored events of its
    id and county, the one that is strictly the nearest. *)
Definition owns (fam : list Event) (w pe : Event) : Prop :=
  pe ∈ fam /\ Id pe <> "" /\ GetCounty pe = GetCounty w
  /\ ltb (centroidDistSq (geometry pe) (geometry w)) MaxFloat64 = true
  /\ forall pe', pe' ∈ fam -> GetCounty pe' = GetCounty w ->
       pe' = pe \/ ltb (centroidDistSq (geometry pe) (geometry w)) (centroidDistSq (geometry pe') (geometry w)) = true.

Lemma nearer_stays fam taken w pe l :
  owns fam w pe -> l ⊆ fam ->
  foldl (nearer taken w) (Id pe, centroidDistSq (geometry pe) (geometry w)) l = (Id pe, centroidDistSq (geometry pe) (geometry w)).
Proof.
  intros (_ & _ & _ & _ & Hmin). induction l as [|p l IH]; intros Hl; [done|]. cbn [foldl].
  assert (nearer taken w (Id pe, centroidDistSq (geometry pe) (geometry w)) p = (Id pe, centroidDistSq (geometry pe) (geometry w))) as ->.
  2: { apply IH. set_solver. }
  unfold nearer. case_bool_decide; [done|]. destruct (String.eqb_spec (GetCounty p) (GetCounty w)) as [Hc|]; [|done]. cbn.
  destruct (Hmin p) as [->|Hlt]; [set_solver|done|by rewrite ltb_irrefl|].
  by rewrite (ltb_asym _ _ Hlt).
Qed.

Lemma nearer_finds fam taken w pe l acc :
  owns fam w pe -> Id pe ∉ taken -> l ⊆ fam -> pe ∈ l ->
  ltb (centroidDistSq (geometry pe) (geometry w)) acc.2 = true ->
  (foldl (nearer taken w) acc l).1 = Id pe.
Proof.
  intros Hown Ht. pose proof Hown as (_ & _ & Hcty & _ & Hmin). revert acc.
  induction l as [|p l IH]; intros acc Hl Hin Hlt; [by apply not_elem_of_nil in Hin|]. cbn [foldl].
  assert (Hp : p = pe \/ pe ∈ l) by (by apply elem_of_cons in Hin as [->|?]; [left|right]).
  unfold nearer at 2. case_bool_decide as Hpt; cbn [orb].
  { destruct Hp as [->|?]; [done|]. apply IH; [set_solver|done..]. }
  destruct (String.eqb_spec (GetCounty p) (GetCounty w)) as [Hc|Hc]; cbn [negb].
  2: { destruct Hp as [->|?]; [done|]. apply IH; [set_solver|done..]. }
  destruct (Hmin p) as [->|Hd]; [set_solver|done| |].
  { rewrite Hlt, (nearer_stays fam) by (try done; set_solver). done. }
  assert (pe ∈ l) by (destruct Hp as [->|?]; [by rewrite ltb_irrefl in Hd|done]).
  assert (Hl' : l ⊆ fam) by set_solver. cbv zeta. case_match; apply IH; first [exact Hl'|assumption|exact Hd|idtac].
Qed.

Lemma claim_owned fam taken ws pes :
  Forall2 (owns fam) ws pes -> NoDup (Id <$> pes) -> (forall pe, pe ∈ pes -> Id pe ∉ taken) ->
  claim fam taken ws = (fun pe => Some (Id pe)) <$> pes.
Proof.
  intros Hf. revert taken. induction Hf as [|w pe ws pes Hw _ IH]; intros taken Hnd Ht; [done|]. cbn in *.
  inversion Hnd; subst.
  assert (nearest fam taken w = Id pe) as ->.
  { unfold nearest. eapply nearer_finds; [done| |done|apply Hw|apply Hw]. apply Ht. left. }
  destruct (String.eqb_spec (Id pe) "") as [He|_]; [by destruct Hw as (_ & ? & _)|].
  f_equal. apply IH; [done|]. intros pe' Hpe' [Heq|Hin]%elem_of_cons; [|by apply (Ht pe'); [by right|]].
  apply H1. rewrite <-Heq. apply list_elem_of_fmap. by exists pe'.
Qed.

(** A zone keeps its id while the zones that share its name come and go. When
    each zone still listed has a stored event that is strictly the nearest of
    its county, and no two the same one, every event takes the id of its own
    stored event: no id passes to another zone, in whatever order and company
    the rows arrive. *)
Theorem steady_ids prior base cands own :
  (forall w, w ∈ winners cands -> owns (family prior base) w (own w)) -> NoDup ((fun w => Id (own w)) <$> winners cands) ->
  resolveEvacIDCollisions prior base cands = (fun w => set_id (Id (own w)) w) <$> winners cands.
Proof.
  intros Hown Hnd.
  change (resolveEvacIDCollisions prior base cands) with (assignEvacContinuityIDs prior base (winners cands)).
  unfold assignEvacContinuityIDs. set (ws := winners cands) in *.
  rewrite (claim_owned (family prior base) [] ws (own <$> ws)).
  - generalize (omap id ((fun pe => Some (Id pe)) <$> (own <$> ws)) : list string) as taken. intros taken.
    clear. induction ws as [|w ws IH]; [done|]. cbn. f_equal. apply IH.
  - apply Forall2_fmap_r, Forall_Forall2_diag, Forall_forall. done.
  - by rewrite <-list_fmap_compose.
  - set_solver.
Qed.

(** ** Concrete polls *)

Module EvacDemo.

Definition at_ (lat_ lng_ : Z) : list float64 := [of_Z lng_; of_Z lat_].
(** Coordinates [A] and [B] are points; nothing else is geometry. *)
#[local] Instance json : JsonKernel :=
  {| unmarshal_env raw := Some ("Point", raw);
     unmarshal_floats raw := if Text.Contains raw ":A}" then Some (at_ 38 (-120))
                             else if Text.Contains raw ":B}" then Some (at_ 39 (-121)) else None;
     unmarshal_floats2 _ := None; unmarshal_raws _ := None |}.
#[local] Instance geo_text : GeoText := {| marshal_string s := s; point_json _ _ := "{}" |}.
#[local] Existing Instance ascii_only.
#[local] Instance upper : UnicodeUpper := {| unicode_upper s := s |}.
#[local] Instance digest : Sha256 := {| sha256 _ := "0123456789abcdef" |}.

Definition row (zid name county status_ coords : string) : Caloes.evacFeature :=
  Caloes.mkEvacFeature zid name county status_ "Fire" "" "Leave now." 0 1000 "Point" coords.

(** The layer's documents, by name. *)
#[local] Instance caloes : CaloesJson :=
  {| Caloes.decode body :=
       if String.eqb body "two" then
         inr (Caloes.mkEvacResponse [row "" "Zone 4" "CALAVERAS" "Evacuation Order" "A"; row "" "Zone 4" "TUOLUMNE" "???" "B"] None)
       else if String.eqb body "lifted" then
         inr (Caloes.mkEvacResponse [row "" "Zone 4" "CALAVERAS" "Order Lifted" "A"; row "" "Zone 4" "TUOLUMNE" "???" "B"] None)
       else if String.eqb body "undrawn" then
         inr (Caloes.mkEvacResponse [row "" "Zone 4" "TUOLUMNE" "???" ""] None)
       else if String.eqb body "split" then
         inr (Caloes.mkEvacResponse [row "CAL-E1" "" "CALAVERAS" "Warning" "A"; row "CAL-E1-A" "" "CALAVERAS" "Order" "B"] None)
       else inr (Caloes.mkEvacResponse [] (Some (mkArcgisError 429 "throttled"))) |}.

Definition areas : list HazardArea :=
  [mkHazardArea "ebbetts" "Ebbetts Pass" (mkGeoBounds (of_Z 38) (of_Z 39) (of_Z (-121)) (of_Z (-119))) "" []].
Definition poll (prior : Prior) (doc : string) : string + PollResult := Poll areas 0 prior (fun _ => Reply 200 doc).
Definition ids (r : string + PollResult) : option (list string) :=
  match r with inr r => Some (Id <$> Events r) | inl _ => None end.

(** What a poll leaves in the store. *)
Definition stored (r : string + PollResult) : Prior :=
  match r with inr r => mkPrior ∅ {["caloes" := Events r]} | inl _ => mkPrior ∅ ∅ end.
Definition nothing : Prior := mkPrior ∅ ∅.

Example two_zones : ids (poll nothing "two") = Some ["evac:Zone 4"; "evac:Zone 4-2"].
Proof. vm_compute. reflexivity. Qed.
Example one_lifted : ids (poll (stored (poll nothing "two")) "lifted") = Some ["evac:Zone 4-2"].
Proof. vm_compute. reflexivity. Qed.
Example throttled : ids (poll nothing "") = None.
Proof. vm_compute. reflexivity. Qed.

(** A zone whose geometry is unusable for one poll loses the id it is stored
    under to the bare one: its distance to every stored event is infinite, so
    none is claimed. *)
Theorem undrawn_zone_changes_id :
  ids (poll (stored (poll (stored (poll nothing "two")) "lifted")) "undrawn") = Some ["evac:Zone 4"].
Proof. vm_compute. reflexivity. Qed.

(** The family of a zone's id takes in the zones whose id extends it with a dash:
    the new zone CAL-E1 claims the stored id of CAL-E1-A, and the poll has two
    events of one id. *)
Theorem families_overlap :
  let before := mkPrior ∅ {["caloes" := [set_id "evac:CAL-E1-A"
                  (buildEvent areas 0 (Caloes.zone_of (row "CAL-E1-A" "" "CALAVERAS" "Order" "B")) "ORDER")]]} in
  ids (poll before "split") = Some ["evac:CAL-E1-A"; "evac:CAL-E1-A"].
Proof. vm_compute. reflexivity. Qed.

Lemma ids_distinct_witness :
  match poll (stored (poll nothing "two")) "two" with inr r => NoDup (Id <$> Events r) | inl _ => False end.
Proof.
  assert (Hok : match poll (stored (poll nothing "two")) "two" with inr _ => true | inl _ => false end = true) by (vm_compute; reflexivity).
  destruct (poll (stored (poll nothing "two")) "two") as [e|r] eqn:Hr; [discriminate Hok|].
  eapply (ids_distinct areas 0 _ _ r _ _ Hr); [reflexivity|reflexivity|].
  intros z1 z2 H1 H2. set_unfold in H1. set_unfold in H2.
  destruct H1 as (? & -> & [->|[->|[]]]), H2 as (? & -> & [->|[->|[]]]); vm_compute; reflexivity.
Defined.

Definition survivor : evacCand :=
  let zn := Caloes.zone_of (row "" "Zone 4" "TUOLUMNE" "???" "B") in mkCand zn (buildEvent areas 0 zn "WARNING").

Lemma steady_ids_witness :
  Id <$> resolveEvacIDCollisions (stored (poll nothing "two")) "evac:Zone 4" [survivor] = ["evac:Zone 4-2"].
Proof.
  rewrite (steady_ids _ _ _ (fun w => set_id "evac:Zone 4-2" w)); [reflexivity| |].
  - intros w Hw. change (winners [survivor]) with [ev survivor] in Hw. apply list_elem_of_singleton in Hw as ->.
    unfold owns. split_and!.
    + vm_compute. right. left.
    + discriminate.
    + reflexivity.
    + vm_compute. reflexivity.
    + intros pe Hpe Hc. assert (family (stored (poll nothing "two")) "evac:Zone 4"
        = [set_id "evac:Zone 4" (buildEvent areas 0 (Caloes.zone_of (row "" "Zone 4" "CALAVERAS" "Evacuation Order" "A")) "ORDER");
           set_id "evac:Zone 4-2" (ev survivor)]) as Hfam by (vm_compute; reflexivity).
      rewrite Hfam in Hpe. apply elem_of_cons in Hpe as [->|Hpe]; [discriminate Hc|].
      apply list_elem_of_singleton in Hpe as ->. left. reflexivity.
  - change (winners [survivor]) with [ev survivor]. cbn. apply NoDup_singleton.
Defined.

End EvacDemo.

End EvacuationSpec.
