(* ===== verification/Wildfire.v ===== *)
(** * The wildfire feed

    [internal/ingest/wildfire.go] over [internal/clients/calfire/client.go] and
    [internal/clients/firis/client.go]: one poll joins the CAL FIRE incidents with
    the perimeters of the FIRIS layer by name. What the servers answer and the
    readings of the clock are arguments; [encoding/json] and the layouts of
    [time.Parse] are classes. The two fetches share no state, so their order does
    not matter; the log is left out. *)

From Stdlib Require Import Ascii.
From stdpp Require Import pretty.
From S2P Require Import Prelude Float64 Geojson GridEvent GoText Scheduler Severity Feeds.

(** ** The clients *)

Module Calfire.
Import F64 Text Feeds.

Definition maxBody : Z := Z.shiftl 4 20.

Record Incident := mkIncident {
  UniqueID : string; Name : string; County : string; Location : string; Acres : float64; PercentContained : Z;
  Lat : float64; Lng : float64; Started : Time; Updated : Time; URL : string; IsActive : bool }.

Record incidentJSON := mkIncidentJSON {
  j_UniqueID : string; j_Name : string; j_County : string; j_Location : string; j_AcresBurned : option float64;
  j_PercentContained : option float64; j_Latitude : option float64; j_Longitude : option float64;
  j_Started : string; j_Updated : string; j_URL : string; j_IsActive : bool }.

(** The decoder, and the layouts with a zone and without, read as Pacific time. *)
Class CalfireJson := {
  decode : string -> string + list incidentJSON;
  parse_zoned : string -> option Time;
  parse_pacific : string -> option Time }.

Section Client.
Context {CJ : CalfireJson}.

Definition parseTime (s : string) : Time :=
  if String.eqb s "" then time_zero
  else match parse_zoned s with
       | Some t => t
       | None => default time_zero (parse_pacific s)
       end.

Definition normalize (r : incidentJSON) : Incident :=
  mkIncident (j_UniqueID r) (TrimSpace (j_Name r)) (TrimSpace (j_County r)) (TrimSpace (j_Location r))
    (default zero (j_AcresBurned r)) (match j_PercentContained r with Some x => trunc x | None => 0 end)
    (default zero (j_Latitude r)) (default zero (j_Longitude r)) (parseTime (j_Started r)) (parseTime (j_Updated r))
    (TrimSpace (j_URL r)) (j_IsActive r).

Definition GetActiveIncidents (reply : Response) : string + list Incident :=
  match body_of "CAL FIRE" maxBody reply with
  | inl e => inl e
  | inr body =>
      match decode body with
      | inl e => inl ("failed to decode CAL FIRE response: " +:+ e)
      | inr raw => inr (normalize <$> raw)
      end
  end.

End Client.
End Calfire.

Module Firis.
Import F64 Text Feeds.

Definition maxBody : Z := Z.shiftl 32 20.

Record Perimeter := mkPerimeter {
  IncidentName : string; Mission : string; IncidentNumber : string; Acres : float64; DateCurrent : Time;
  Source : string; Status : string; GeometryType : string; GeometryCoords : string }.

Record perimeterFeature := mkFeature {
  f_IncidentName : string; f_Mission : string; f_IncidentNumber : string; f_Acres : float64; f_DateCurrent : Z;
  f_Source : string; f_Status : string; f_Type : string; f_Coordinates : string }.
Record perimeterResponse := mkResponse { Features : list perimeterFeature; Error : option arcgisError }.
Record metadata := mkMetadata { DataLastEditDate : Z; m_Error : option arcgisError }.

Class FirisJson := {
  decode : string -> string + perimeterResponse;
  decode_meta : string -> string + metadata }.

Definition epochMs (ms : Z) : Time := if ms =? 0 then time_zero else time_of_unix 0 + ms * 1000000.

Definition get (url : string) (maxBytes : Z) (reply : Response) : string + string :=
  match reply with
  | Reply status _ =>
      if status =? 404 then inl ("FIRIS API error 404 (" +:+ url +:+ "): firis: not found")
      else body_of "FIRIS" maxBytes reply
  | NoReply _ => body_of "FIRIS" maxBytes reply
  end.

Definition arcgis_text (e : arcgisError) : string := "FIRIS ArcGIS error " +:+ pretty (Code e) +:+ ": " +:+ Message e.

Section Client.
Context {FJ : FirisJson}.

Definition perimeter_of (f : perimeterFeature) : Perimeter :=
  mkPerimeter (TrimSpace (f_IncidentName f)) (TrimSpace (f_Mission f)) (TrimSpace (f_IncidentNumber f)) (f_Acres f)
    (epochMs (f_DateCurrent f)) (f_Source f) (f_Status f) (f_Type f) (f_Coordinates f).

Definition GetPerimeters (url : string) (reply : Response) : string + list Perimeter :=
  match get url maxBody reply with
  | inl e => inl e
  | inr body =>
      match decode body with
      | inl e => inl ("failed to decode FIRIS response: " +:+ e)
      | inr parsed =>
          match Error parsed with
          | Some e => inl (arcgis_text e)
          | None => inr (perimeter_of <$> Features parsed)
          end
      end
  end.

Definition LastEdit (baseURL : string) (reply : Response) : string + Time :=
  match get (TrimSuffix baseURL "/query" +:+ "?f=json") (Z.shiftl 1 20) reply with
  | inl e => inl e
  | inr body =>
      match decode_meta body with
      | inl e => inl ("failed to decode FIRIS metadata: " +:+ e)
      | inr m =>
          match m_Error m with
          | Some e => inl (arcgis_text e)
          | None => if DataLastEditDate m =? 0 then inl "FIRIS metadata: no dataLastEditDate" else inr (epochMs (DataLastEditDate m))
          end
      end
  end.

End Client.
End Firis.

(** ** The normalizer *)

Module Wildfire.
Import F64 Grid Text Severity Feeds.
Import Scheduler (Prior, ByID, ForSource, PollResult).
Import Calfire (Incident, CalfireJson).
Import Firis (Perimeter, FirisJson, IncidentName, Mission, IncidentNumber, DateCurrent, Source, Status, GeometryType, GeometryCoords).

Definition SourceIDs : list string := ["calfire"; "firis"].

(** *** The perimeter cache *)

Definition maxPerimCacheAge : Duration := 6 * hour.

(** What [WildfireNormalizer] remembers between ticks. *)
Record PerimCache := mkPerimCache {
  lastPerimEdit : Time; cachedPerims : list Perimeter; lastPerimFetch : Time; havePerimCache : bool }.
Definition no_cache : PerimCache := mkPerimCache time_zero [] time_zero false.

(** One tick of the perimeter source: the answers of the metadata and of the
    feature query, and the two readings of the clock. *)
Record PerimTick := mkPerimTick { metaReply : Response; featureReply : GeoBounds -> Response; checkedAt : Time; fetchedAt : Time }.

(** [query] is the URL of the feature query in a box. *)
Definition gatedPerimeters `{FirisJson} (baseURL : string) (query : GeoBounds -> string) (b : GeoBounds) (t : PerimTick) (n : PerimCache)
    : (string + list Perimeter) * PerimCache :=
  match Firis.LastEdit baseURL (metaReply t) with
  | inl _ => (Firis.GetPerimeters (query b) (featureReply t b), n)
  | inr edit =>
      if havePerimCache n && (edit =? lastPerimEdit n) && (time_sub (checkedAt t) (lastPerimFetch n) <=? maxPerimCacheAge)
      then (inr (cachedPerims n), n)
      else match Firis.GetPerimeters (query b) (featureReply t b) with
           | inl e => (inl e, n)
           | inr [] => (inr [], n)
           | inr perims => (inr perims, mkPerimCache edit perims (fetchedAt t) true)
           end
  end.

(** *** Names *)

Definition isFlightID (tok : string) : bool :=
  match bytes tok with
  | c :: (_ :: _) as rest =>
      ((code c =? 78)%N || (code c =? 110)%N)
      && forallb (fun c => is_digit (code c) || (65 <=? code c) && (code c <=? 90) || (97 <=? code c) && (code c <=? 122))%N rest
      && existsb (fun c => is_digit (code c)) rest
  | _ => false
  end.

Definition nameFromMission (mission : string) : string :=
  let toks := Split (TrimSpace mission) "-"%char in
  if (length toks <? 3)%nat || negb (EqualFold (default "" (head toks)) "CA") then ""
  else
    let body := drop 2 toks in
    let flight := isFlightID (default "" (last body)) in
    let body := if (1 <? length body)%nat && flight then removelast body else body in
    if Nat.eqb (length body) 1 && isFlightID (default "" (head body)) then ""
    else TrimSpace (join " " body).

Definition firisName (p : Perimeter) : string :=
  let n := TrimSpace (IncidentName p) in if negb (String.eqb n "") then n else nameFromMission (Mission p).

Definition isActiveStatus (status : string) : bool := EqualFold (TrimSpace status) "Active".

(** *** One perimeter per fire *)

Record perimCandidate := mkCandidate { perim : Perimeter; geom : Geometry; c_name : string; norm : string }.

(** [0.15 * 0.15], a constant of exact value 0.0225. *)
Definition perimClusterThresholdSq : float64 := div (of_Z 225) (of_Z 10000).

Definition cand_lat (c : perimCandidate) : float64 := default zero (lat <$> g_centroid (geom c)).
Definition cand_lng (c : perimCandidate) : float64 := default zero (lng <$> g_centroid (geom c)).

Definition cand_less (a b : perimCandidate) : bool :=
  let '(ai, bi) := (IncidentNumber (perim a), IncidentNumber (perim b)) in
  if negb (Bool.eqb (String.eqb ai "") (String.eqb bi "")) then negb (String.eqb ai "")
  else if negb (String.eqb ai bi) then str_ltb ai bi
  else if negb (eqb (cand_lat a) (cand_lat b)) then ltb (cand_lat a) (cand_lat b)
  else ltb (cand_lng a) (cand_lng b).

Definition sameFire (a b : perimCandidate) : bool :=
  let '(ai, bi) := (IncidentNumber (perim a), IncidentNumber (perim b)) in
  if negb (String.eqb ai "") && negb (String.eqb bi "") then String.eqb ai bi
  else ltb (centroidDistSq (Some (geom a)) (Some (geom b))) perimClusterThresholdSq.

Definition clusterByCentroid (group : list perimCandidate) : list (list perimCandidate) :=
  foldl (fun cls c => first_fit sameFire c cls) [] (SliceStable cand_less group).

Section Perims.
Context {UL : UnicodeLower} {UU : UnicodeUpper} {JK : JsonKernel} {GT : GeoText}.

Definition sourcePriority (src : string) : Z :=
  let s := ToUpper src in
  if Text.Contains s "INTEL" then 3 else if Text.Contains s "FIRIS" then 2 else if Text.Contains s "WFIGS" then 1 else 0.

Definition perimFresher (a b : Perimeter) : bool :=
  if negb (DateCurrent a =? DateCurrent b) then time_after (DateCurrent a) (DateCurrent b)
  else if negb (Bool.eqb (isActiveStatus (Status a)) (isActiveStatus (Status b))) then isActiveStatus (Status a)
  else if negb (sourcePriority (Source a) =? sourcePriority (Source b)) then sourcePriority (Source b) <? sourcePriority (Source a)
  else ltb (Firis.Acres b) (Firis.Acres a).

Definition freshest (c : perimCandidate) (l : list perimCandidate) : perimCandidate :=
  foldl (fun best r => if perimFresher (perim r) (perim best) then r else best) c l.
Definition best_of (cluster : list perimCandidate) : option perimCandidate :=
  match cluster with [] => None | c :: l => Some (freshest c l) end.

(** The candidate of a row that is active, named and drawable. *)
Definition candidate (p : Perimeter) : option perimCandidate :=
  if negb (String.eqb (Status p) "") && negb (isActiveStatus (Status p)) then None
  else
    let name := firisName p in
    if String.eqb name "" || String.eqb (GeometryType p) "" then None
    else g ← geometryFromTyped (GeometryType p) (GeometryCoords p); Some (mkCandidate p g name (normFireName name)).

Definition dedupePerimeters (perims : list Perimeter) : list perimCandidate :=
  let rows := omap candidate perims in
  foldl (fun g r => add_group (norm r) r g) [] rows ≫= fun g => omap best_of (clusterByCentroid g.2).

End Perims.

(** *** Standalone perimeters *)

Definition bare_id (norm : string) : string := "firis:" +:+ norm.

Definition isStandaloneIDForName (id norm : string) : bool :=
  if String.eqb id (bare_id norm) then true
  else match CutPrefix id (bare_id norm +:+ "-") with
       | Some rest => negb (String.eqb rest "") && all_bytes is_digit rest
       | None => false
       end.

Definition standaloneContinuityID (prior : Prior) (norm : string) (g : Geometry) : string :=
  match filter (fun pe => isStandaloneIDForName (Id pe) norm = true) (ForSource prior "firis") with
  | [] => bare_id norm
  | p :: l =>
      Id (foldl (fun (b : Event * float64) pe =>
            let d := centroidDistSq (geometry pe) (Some g) in if ltb d b.2 then (pe, d) else b)
          (p, centroidDistSq (geometry p) (Some g)) l).1
  end.

Definition open_less (a b : perimCandidate) : bool :=
  if negb (String.eqb (norm a) (norm b)) then str_ltb (norm a) (norm b)
  else if negb (eqb (cand_lat a) (cand_lat b)) then ltb (cand_lat a) (cand_lat b)
  else ltb (cand_lng a) (cand_lng b).

(** The text [%.0f] of a float: to the nearest integer, ties to even. *)
Definition fixed0 (x : float64) : string :=
  match x with
  | S754_nan => "NaN"
  | S754_infinity s => if s then "-Inf" else "+Inf"
  | S754_zero s => if s then "-0" else "0"
  | S754_finite s m e =>
      let n := if 0 <=? e then Z.pos m * 2 ^ e
               else let d := 2 ^ (- e) in
                    let '(q, r) := (Z.pos m / d, Z.pos m mod d) in
                    q + (if 2 * r <? d then 0 else if d <? 2 * r then 1 else q mod 2) in
      (if s then "-" else "") +:+ pretty n
  end.

Definition standaloneEvent (now : Time) (id : string) (c : perimCandidate) : Event :=
  mkEvent id WILDFIRE "wildfire" (SeverityFromLabel (fromWildfire (Firis.Acres (perim c)) 0)) ACTIVE
    (c_name c +:+ " — " +:+ fixed0 (Firis.Acres (perim c)) +:+ " ac") "" "" "" "" (Some (geom c)) []
    (Some (NewProvenance "firis" "CAL FIRE / FIRIS" "CAL FIRE / FIRIS / NIFC" "" now)) None None None None 0 None
    (Some (D_Wildfire (mkWildfireDetail (Firis.Acres (perim c)) 0 "" "" true))).

(** The id of a candidate: [k] of its name came before it, [count] there are. *)
Definition standalone_id (prior : Prior) (count k : nat) (c : perimCandidate) : string :=
  if Nat.eqb count 1 then standaloneContinuityID prior (norm c) (geom c)
  else if Nat.eqb k 0 then bare_id (norm c)
  else suffixed (bare_id (norm c)) (Z.of_nat (S k)).

Definition same_name (c : perimCandidate) (l : list perimCandidate) : nat :=
  length (filter (fun x => norm x = norm c) l).

Definition open_cands (cands : list perimCandidate) (used : list string) : list perimCandidate :=
  SliceStable open_less (filter (fun c => norm c ∉ used) cands).

Definition standalonePerimeterEvents (now : Time) (cands : list perimCandidate) (used : list string) (prior : Prior) : list Event :=
  let open := open_cands cands used in
  imap (fun i c => standaloneEvent now (standalone_id prior (same_name c open) (same_name c (take i open)) c) c) open.

(** *** The poll *)

Definition index (cands : list perimCandidate) : gmap string perimCandidate * gset string :=
  foldl (fun '(byName, ambiguous) c =>
    (<[norm c := c]> byName, match byName !! norm c with Some _ => {[norm c]} ∪ ambiguous | None => ambiguous end))
    (∅, ∅) cands.

Definition inWildfireScope (b : GeoBounds) (lat lng : float64) (g : Geometry) : bool :=
  Contains b lat lng
  || match g_bbox g with
     | None => false
     | Some bb =>
         Geojson.BboxIntersects (Geojson.mkBox (min_lat bb) (min_lng bb) (max_lat bb) (max_lng bb))
           (Geojson.mkBox (MinLatitude b) (MinLongitude b) (MaxLatitude b) (MaxLongitude b))
     end.

Definition has_stored_perimeter (prior : Prior) (id : string) : option Geometry :=
  pe ← ByID prior id;
  if match GetWildfire pe with Some d => has_perimeter d | None => false end then geometry pe else None.

Section Poll.
Context {UL : UnicodeLower} {UU : UnicodeUpper} {JK : JsonKernel} {GT : GeoText} {CJ : CalfireJson} {FJ : FirisJson}.

Definition incident_id (i : Incident) : string := "calfire:" +:+ nonEmpty [Calfire.UniqueID i; normFireName (Calfire.Name i)].

(** The geometry of an incident, and the name of the perimeter it adopts. *)
Definition incident_geometry (idx : gmap string perimCandidate * gset string) (perimsUnusable : bool) (prior : Prior)
    (i : Incident) : Geometry * bool * bool :=
  let norm := normFireName (Calfire.Name i) in
  let point := GeometryFromPoint (Calfire.Lat i) (Calfire.Lng i) in
  match (if bool_decide (norm ∈ idx.2) then None else idx.1 !! norm) with
  | Some cand => (geom cand, true, true)
  | None =>
      if perimsUnusable then
        match has_stored_perimeter prior (incident_id i) with Some g => (g, true, false) | None => (point, false, false) end
      else (point, false, false)
  end.

Definition incident_event (now : Time) (g : Geometry) (hasPerimeter : bool) (i : Incident) : Event :=
  mkEvent (incident_id i) WILDFIRE "wildfire"
    (SeverityFromLabel (fromWildfire (Calfire.Acres i) (Calfire.PercentContained i))) ACTIVE
    (Calfire.Name i +:+ " — " +:+ commaNum (Calfire.Acres i) +:+ " ac, " +:+ pretty (Calfire.PercentContained i) +:+ "% contained")
    "" "" (nonEmpty [Calfire.Location i; Calfire.County i]) (safeURL (Calfire.URL i)) (Some g) []
    (Some (NewProvenance "calfire" "CAL FIRE" "CAL FIRE / FIRIS" (safeURL (Calfire.URL i)) now))
    (tsProto (Calfire.Started i)) None (tsProto (Calfire.Updated i)) None 0 None
    (Some (D_Wildfire (mkWildfireDetail (Calfire.Acres i) (Calfire.PercentContained i) (Calfire.County i) "" hasPerimeter))).

Definition add_incident (scope : GeoBounds) (idx : gmap string perimCandidate * gset string) (perimsUnusable : bool)
    (prior : Prior) (now : Time) (st : list Event * list string) (i : Incident) : list Event * list string :=
  let '(events, used) := st in
  if eqb (Calfire.Lat i) zero && eqb (Calfire.Lng i) zero then st
  else
    let '(g, hasPerimeter, adopted) := incident_geometry idx perimsUnusable prior i in
    if negb (inWildfireScope scope (Calfire.Lat i) (Calfire.Lng i) g) then st
    else
      let norm := normFireName (Calfire.Name i) in
      (events ++ [incident_event now g hasPerimeter i],
       if adopted && negb (bool_decide (norm ∈ used)) then used ++ [norm] else used).

Definition supersededStandalones (byName : gmap string perimCandidate) (used : list string) (prior : Prior) : list string :=
  sort_strings (omap (fun norm =>
    cand ← byName !! norm;
    let id := standaloneContinuityID prior norm (geom cand) in
    if bool_decide (is_Some (ByID prior id)) then Some id else None) used).

Definition per_source (ierr perr : option string) : gmap string string :=
  let m := match ierr with Some e => <["calfire" := e]> ∅ | None => ∅ end in
  match perr with Some e => <["firis" := e]> m | None => m end.

Definition err_of {A} (r : string + A) : option string := match r with inl e => Some e | inr _ => None end.
Definition rows_of {A} (r : string + list A) : list A := match r with inl _ => [] | inr l => l end.

Definition errBoth (ierr perr : string) : string := "both wildfire sources failed: calfire=" +:+ ierr +:+ " firis=" +:+ perr.

(** The perimeters are down, or the layer answers with none at all. *)
Definition perimsUnusable (perims : string + list Perimeter) : bool :=
  match perims with inl _ => true | inr l => bool_decide (dedupePerimeters l = []) end.

(** What the two answers make of the stored events. *)
Definition merge_feeds (scope : GeoBounds) (now : Time) (prior : Prior) (incidents : string + list Incident)
    (perims : string + list Perimeter) : PollResult :=
  let deduped := dedupePerimeters (rows_of perims) in
  let idx := index deduped in
  let st := foldl (add_incident scope idx (perimsUnusable perims) prior now) ([], []) (rows_of incidents) in
  let standalone := standalonePerimeterEvents now deduped st.2 prior in
  let standalone :=
    match incidents with
    | inl _ => filter (fun e => Id e ∈ Id <$> ForSource prior "firis") standalone
    | inr _ => standalone
    end in
  poll_result (st.1 ++ standalone) (per_source (err_of incidents) (err_of perims))
    (supersededStandalones idx.1 st.2 prior).

Definition join_feeds (scope : GeoBounds) (now : Time) (prior : Prior) (incidents : string + list Incident)
    (perims : string + list Perimeter) : string + PollResult :=
  match incidents, perims with
  | inl ierr, inl perr => inl (errBoth ierr perr)
  | _, _ => inr (merge_feeds scope now prior incidents perims)
  end.

Definition Poll (baseURL : string) (query : GeoBounds -> string) (areas : list HazardArea) (MarginDegrees : float64) (now : Time) (prior : Prior)
    (calfire : Response) (firis : PerimTick) (n : PerimCache) : (string + PollResult) * PerimCache :=
  match wildfireScope areas MarginDegrees with
  | None => (inl (errEmptyScope "hazard areas"), n)
  | Some scope =>
      let incidents := Calfire.GetActiveIncidents calfire in
      let '(perims, n) := gatedPerimeters baseURL query scope firis n in
      (join_feeds scope now prior incidents perims, n)
  end.

End Poll.

End Wildfire.
