(* ===== verification/WildfireSpec.v ===== *)
(** * What the wildfire feed promises

    The perimeter cache serves only what the layer still says it has; the
    perimeters of a poll do not depend on the order of the rows; an outage of one
    feed leaves the fires of the other their events; what a poll says is superseded
    is stored, replaced and not emitted. *)

From Stdlib Require Import Ascii.
From stdpp Require Import pretty.
From S2P Require Import Prelude Float64 Geojson GridEvent GoText Scheduler Severity Feeds Wildfire.

Module WildfireSpec.
Import F64 Grid Text Severity Feeds Wildfire.
Import Scheduler (Prior, mkPrior, byID, bySource, ByID, ForSource, PollResult, Events, PerSource, Superseded).
Import Calfire (Incident, CalfireJson).
Import Firis (Perimeter, FirisJson, IncidentNumber).

(** ** The perimeter cache *)

Section Cache.
Context {FJ : FirisJson}.
Variables (baseURL : string) (query : GeoBounds -> string) (b : GeoBounds).

Definition edited (t : PerimTick) : string + Time := Firis.LastEdit baseURL (metaReply t).
Definition answer (t : PerimTick) : string + list Perimeter := Firis.GetPerimeters (query b) (featureReply t b).

Definition after_ticks (ticks : list PerimTick) : PerimCache :=
  foldl (fun n t => (gatedPerimeters baseURL query b t n).2) no_cache ticks.

(** What is cached was answered at a tick of the past, and is not empty. *)
Definition cache_ok (ticks : list PerimTick) (n : PerimCache) : Prop :=
  havePerimCache n = true ->
  cachedPerims n <> []
  /\ exists t0, t0 ∈ ticks /\ answer t0 = inr (cachedPerims n) /\ edited t0 = inr (lastPerimEdit n)
       /\ fetchedAt t0 = lastPerimFetch n.

Lemma gated_ok ticks t n : cache_ok ticks n -> cache_ok (ticks ++ [t]) (gatedPerimeters baseURL query b t n).2.
Proof.
  intros Hok. unfold gatedPerimeters. fold (edited t) (answer t).
  assert (Hkeep : cache_ok (ticks ++ [t]) n).
  { intros Hh. destruct (Hok Hh) as (Hne & t0 & Hin & Ht0). split; [done|]. exists t0. split; [set_solver|done]. }
  destruct (edited t) as [|edit] eqn:He; [done|]. destruct (_ && _); [done|].
  destruct (answer t) as [|[|p ps]] eqn:Ha; [done|done|]. intros _. cbn. split; [done|].
  exists t. split; [set_solver|done].
Qed.

Lemma after_ticks_ok ticks : cache_ok ticks (after_ticks ticks).
Proof.
  induction ticks as [|t ticks IH] using rev_ind; [done|]. unfold after_ticks. rewrite foldl_snoc. by apply gated_ok.
Qed.

(** C27: The perimeters of a tick are never invented. They are what the layer
    answers now; or, only while the layer's edit stamp stands where it stood, a
    nonempty answer of a past tick fetched at most six hours ago. An error of the
    query is the tick's error: a cached set never hides it. *)
Theorem perimeters_honest ticks t :
  match (gatedPerimeters baseURL query b t (after_ticks ticks)).1 with
  | inl e => answer t = inl e
  | inr ps =>
      answer t = inr ps
      \/ ps <> [] /\ exists t0 edit, t0 ∈ ticks /\ answer t0 = inr ps
           /\ edited t0 = inr edit /\ edited t = inr edit
           /\ time_sub (checkedAt t) (fetchedAt t0) <= maxPerimCacheAge
  end.
Proof.
  pose proof (after_ticks_ok ticks) as Hok. unfold gatedPerimeters. fold (edited t) (answer t).
  destruct (edited t) as [|edit] eqn:He; cbn; [destruct (answer t); auto|].
  destruct (havePerimCache _ && _ && _) eqn:E; cbn.
  - apply andb_prop in E as [[Hh Hedit%Z.eqb_eq]%andb_prop Hage%Z.leb_le].
    destruct (Hok Hh) as (Hne & t0 & Hin & Ha & Hed & Hf). right. split; [done|]. exists t0, edit.
    rewrite Hf. split_and!; try done. by rewrite Hedit.
  - destruct (answer t) as [|[|]]; cbn; auto.
Qed.

End Cache.

(** ** The order of the rows *)

Definition real_cand (c : perimCandidate) : Prop := is_nan (cand_lat c) = false /\ is_nan (cand_lng c) = false.

Lemma str_differ a b : str_ltb a b || str_ltb b a = negb (String.eqb a b).
Proof.
  destruct (String.eqb_spec a b) as [->|Hne]; cbn; [by rewrite !str_ltb_irrefl|].
  destruct (str_ltb a b) eqn:E1; [done|]. destruct (str_ltb b a) eqn:E2; [done|]. by destruct Hne, (str_ltb_total _ _ E1 E2).
Qed.

Lemma float_differ a b : is_nan a = false -> is_nan b = false -> ltb a b || ltb b a = negb (eqb a b).
Proof.
  unfold ltb, eqb, SFltb, SFeqb. rewrite (SFcompare_opp a b). intros Ha Hb.
  destruct (SFcompare a b) as [[]|] eqn:E; cbn; try done.
  destruct a as [[]|[]| |[] ? ?], b as [[]|[]| |[] ? ?]; done.
Qed.

Lemma bool_differ p q : negb p && q || negb q && p = negb (Bool.eqb p q).
Proof. by destruct p, q. Qed.

Lemma cand_less_weak : StrictWeak real_cand cand_less.
Proof.
  apply (weak_ext _ (lex (fun a b => negb (String.eqb (IncidentNumber (perim a)) "") && String.eqb (IncidentNumber (perim b)) "")
    (lex (fun a b => str_ltb (IncidentNumber (perim a)) (IncidentNumber (perim b)))
      (lex (fun a b => ltb (cand_lat a) (cand_lat b)) (fun a b => ltb (cand_lng a) (cand_lng b)))))).
  - intros x y [Hx _] [Hy _]. unfold lex, cand_less. rewrite bool_differ, str_differ, float_differ by done.
    case_match; [|done]. destruct (String.eqb _ ""), (String.eqb _ ""); done.
  - repeat apply lex_weak.
    + apply (weak_bool _ (fun c => String.eqb (IncidentNumber (perim c)) "")).
    + apply weak_str.
    + apply weak_float. by intros c [? _].
    + apply weak_float. by intros c [_ ?].
Qed.

Abbreviation named := (keyed norm).
Abbreviation grouped := (grouped norm).

Section Order.
Context {UL : UnicodeLower} {UU : UnicodeUpper} {JK : JsonKernel} {GT : GeoText}.

(** One perimeter of each fire of a name. *)
Definition fires (group : list perimCandidate) : list perimCandidate := omap best_of (clusterByCentroid group).

Lemma dedupe_names perims :
  dedupePerimeters perims
  = (grouped (omap candidate perims)).*1 ≫= fun n => fires (named n (omap candidate perims)).
Proof.
  unfold dedupePerimeters. change (foldl _ _ _) with (grouped (omap candidate perims)).
  destruct (grouped_spec norm (omap candidate perims)) as (_ & _ & Hf). induction Hf as [|[n l] g Hl _ IH]; [done|].
  cbn in *. rewrite Hl, IH. done.
Qed.

(** Two rows of one name the sort tells apart. *)
Definition told_apart (rows : list perimCandidate) : Prop :=
  Forall real_cand rows
  /\ forall a b, a ∈ rows -> b ∈ rows -> norm a = norm b -> a = b \/ cand_less a b = true \/ cand_less b a = true.

(** The perimeters a poll keeps, one for each fire, do not depend on the order
    of the rows the layer sends, as long as no two different rows of a name
    agree in incident number and centroid. *)
Theorem dedupe_order perims perims' :
  perims ≡ₚ perims' -> told_apart (omap candidate perims) ->
  dedupePerimeters perims ≡ₚ dedupePerimeters perims'.
Proof.
  intros Hp [Hreal Hapart]. rewrite !dedupe_names.
  assert (Hrows : omap candidate perims ≡ₚ omap candidate perims') by by rewrite Hp.
  set (rows := omap candidate perims) in *. set (rows' := omap candidate perims') in *. clearbody rows rows'.
  assert (Hkeys : (grouped rows).*1 ≡ₚ (grouped rows').*1).
  { destruct (grouped_spec norm rows) as (H1 & H2 & _), (grouped_spec norm rows') as (H1' & H2' & _).
    apply NoDup_Permutation; [done..|]. intros n. rewrite H2, H2'. by setoid_rewrite Hrows. }
  rewrite Hkeys. match goal with |- ?l ≡ₚ ?k => enough (l = k) as ->; [done|] end.
  apply list_bind_ext; [|done]. intros n. unfold fires, clusterByCentroid.
  assert (SliceStable cand_less (named n rows) = SliceStable cand_less (named n rows')) as ->; [|done].
  apply (SliceStable_unique real_cand); [apply cand_less_weak| | |].
  - rewrite Forall_forall in Hreal |- *. intros x [_ Hx]%list_elem_of_filter. by apply Hreal.
  - unfold keyed. by rewrite Hrows.
  - unfold keyed. intros a c [<- Ha]%list_elem_of_filter [Hn Hc]%list_elem_of_filter. by apply Hapart.
Qed.

End Order.

(** ** The join *)

Lemma index_spec cands n :
  (index cands).1 !! n = last (named n cands) /\ (n ∈ (index cands).2 <-> (2 <= length (named n cands))%nat).
Proof.
  unfold index. induction cands as [|c cands IH] using rev_ind; [split; [done|cbn; split; [set_solver|lia]]|].
  rewrite foldl_snoc, keyed_snoc. destruct (foldl _ _ cands) as [byName ambiguous]. cbn [fst snd] in *. destruct IH as [IH1 IH2].
  destruct (bool_decide_reflect (norm c = n)) as [->|Hne].
  - rewrite lookup_insert_eq, last_snoc, length_app. cbn [length]. split; [done|]. rewrite IH1.
    destruct (last (named n cands)) as [x|] eqn:Hl.
    + assert (named n cands <> []) by (intros E; by rewrite E in Hl). destruct (named n cands); [done|]. cbn. split; [lia|set_solver].
    + apply last_None in Hl. rewrite IH2, Hl. cbn. lia.
  - rewrite lookup_insert_ne by done. split; [done|]. rewrite <-IH2.
    destruct (byName !! norm c); [|done]. set_solver.
Qed.

Lemma index_adopt cands n c :
  (if bool_decide (n ∈ (index cands).2) then None else (index cands).1 !! n) = Some c <-> named n cands = [c].
Proof.
  destruct (index_spec cands n) as [H1 H2]. rewrite H1. case_bool_decide as Ha.
  - split; [done|]. intros Hn. apply H2 in Ha. rewrite Hn in Ha. cbn in Ha. lia.
  - destruct (named n cands) as [|x [|y l]]; cbn.
    + done.
    + split; [by intros [= ->]|by intros [= ->]].
    + destruct Ha. apply H2. cbn. lia.
Qed.

Lemma named_elem n cands c : named n cands = [c] -> c ∈ cands /\ norm c = n.
Proof. intros H. assert (c ∈ named n cands) as [? ?]%list_elem_of_filter by (rewrite H; left). done. Qed.

Section Join.
Context {UL : UnicodeLower} {UU : UnicodeUpper} {JK : JsonKernel} {GT : GeoText}.
Variables (scope : GeoBounds) (now : Time) (prior : Prior) (cands : list perimCandidate) (unusable : bool).

Definition positioned (i : Incident) : Prop := eqb (Calfire.Lat i) zero && eqb (Calfire.Lng i) zero = false.
Definition fire_name (i : Incident) : string := normFireName (Calfire.Name i).

(** The geometry an incident is published with, and whether it is a perimeter. *)
Definition drawn (i : Incident) : Geometry * bool :=
  match named (fire_name i) cands with
  | [c] => (geom c, true)
  | _ =>
      match (if unusable then has_stored_perimeter prior (incident_id i) else None) with
      | Some g => (g, true)
      | None => (GeometryFromPoint (Calfire.Lat i) (Calfire.Lng i), false)
      end
  end.

Lemma incident_geometry_drawn i :
  incident_geometry (index cands) unusable prior i
  = (drawn i, match named (fire_name i) cands with [_] => true | _ => false end).
Proof.
  unfold incident_geometry, drawn, fire_name. set (n := normFireName (Calfire.Name i)).
  destruct (if bool_decide (n ∈ (index cands).2) then None else (index cands).1 !! n) as [c|] eqn:E.
  - apply index_adopt in E. by rewrite E.
  - destruct (named n cands) as [|c [|]] eqn:Hn.
    + destruct unusable; [|done]. by destruct (has_stored_perimeter _ _).
    + apply index_adopt in Hn. congruence.
    + destruct unusable; [|done]. by destruct (has_stored_perimeter _ _).
Qed.

Definition in_scope (i : Incident) : bool := inWildfireScope scope (Calfire.Lat i) (Calfire.Lng i) (drawn i).1.

Definition presented (i : Incident) : option Event :=
  if eqb (Calfire.Lat i) zero && eqb (Calfire.Lng i) zero then None
  else if in_scope i then Some (incident_event now (drawn i).1 (drawn i).2 i) else None.

(** A name is adopted when a presented incident bears it and one perimeter does. *)
Definition adopted_in (incidents : list Incident) (n : string) : Prop :=
  exists i c, i ∈ incidents /\ fire_name i = n /\ named n cands = [c]
    /\ presented i = Some (incident_event now (geom c) true i).

Lemma add_incident_spec st i :
  add_incident scope (index cands) unusable prior now st i
  = (st.1 ++ option_list (presented i),
     match presented i, named (fire_name i) cands with
     | Some _, [_] => if bool_decide (fire_name i ∈ st.2) then st.2 else st.2 ++ [fire_name i]
     | _, _ => st.2
     end).
Proof.
  destruct st as [events used]. unfold add_incident, presented. destruct (_ && _) eqn:Hz; cbn [fst snd option_list]; [by rewrite app_nil_r|].
  rewrite incident_geometry_drawn. unfold in_scope. destruct (drawn i) as [g hp] eqn:Hd. cbn [fst].
  destruct (inWildfireScope _ _ _ _); cbn [negb option_list fst snd]; [|by rewrite app_nil_r].
  f_equal. fold (fire_name i). destruct (named _ _) as [|? [|]]; cbn; try done. by case_bool_decide.
Qed.

Lemma add_incidents_spec incidents :
  let st := foldl (add_incident scope (index cands) unusable prior now) ([], []) incidents in
  st.1 = omap presented incidents /\ NoDup st.2 /\ forall n, n ∈ st.2 <-> adopted_in incidents n.
Proof.
  cbn zeta. induction incidents as [|i l (H1 & H2 & H3)] using rev_ind.
  { split_and!; [done|constructor|]. intros n. split; [by intros ?%not_elem_of_nil|]. intros (? & ? & ?%not_elem_of_nil & _). done. }
  rewrite foldl_snoc, add_incident_spec. cbn [fst snd]. rewrite H1, omap_app.
  assert (Hold : forall n, adopted_in l n -> adopted_in (l ++ [i]) n).
  { intros n (j & c & Hj & Hr). exists j, c. split; [set_solver|done]. }
  assert (Hnew : forall n, adopted_in (l ++ [i]) n ->
    adopted_in l n \/ n = fire_name i /\ exists c, named n cands = [c] /\ presented i <> None).
  { intros n (j & c & [Hj| ->%list_elem_of_singleton]%elem_of_app & Hn & Hc & Hp); [left; by exists j, c|].
    right. split; [done|]. exists c. by rewrite Hp. }
  split_and!; [cbn; by destruct (presented i)| |].
  - destruct (presented i); [|done]. destruct (named _ _) as [|? [|]]; try done. case_bool_decide; [done|].
    apply NoDup_app. split_and!; [done| |apply NoDup_singleton]. set_solver.
  - intros n. destruct (presented i) as [e|] eqn:Hp.
    2: { rewrite H3. split; [apply Hold|]. intros [?|(_ & _ & _ & ?)]%Hnew; done. }
    destruct (named (fire_name i) cands) as [|c [|]] eqn:Hn.
    1, 3: rewrite H3; split; [apply Hold|]; intros [?|(-> & x & Hx & _)]%Hnew; [done|congruence].
    assert (Hc : adopted_in (l ++ [i]) (fire_name i)).
    { exists i, c. split_and!; [set_solver|done..|]. rewrite Hp. unfold presented in Hp. destruct (_ && _); [done|].
      destruct (in_scope i); [|done]. unfold drawn in Hp. rewrite Hn in Hp. cbn in Hp. congruence. }
    case_bool_decide as Hin.
    + rewrite H3. split; [apply Hold|]. intros [?|(-> & _)]%Hnew; [done|]. by apply H3.
    + rewrite elem_of_app, H3, list_elem_of_singleton. split; [intros [?| ->]; auto|].
      intros [?|(-> & _)]%Hnew; auto.
Qed.

End Join.

(** ** The ids of standalone perimeters *)

Lemma standalone_form id n :
  isStandaloneIDForName id n = true
  <-> id = bare_id n \/ exists rest, id = bare_id n +:+ "-" +:+ rest /\ rest <> "" /\ all_bytes is_digit rest = true.
Proof.
  unfold isStandaloneIDForName. destruct (String.eqb_spec id (bare_id n)) as [->|Hne]; [split; [by left|done]|].
  assert (Hassoc : forall t, bare_id n +:+ "-" +:+ t = (bare_id n +:+ "-") +:+ t).
  { intros t. rewrite <-(of_bytes_bytes (bare_id n +:+ "-" +:+ t)), <-(of_bytes_bytes ((bare_id n +:+ "-") +:+ t)).
    by rewrite !bytes_app, app_assoc. }
  split.
  - destruct (CutPrefix id (bare_id n +:+ "-")) as [rest|] eqn:E; [|done]. apply CutPrefix_Some in E.
    intros [Hr Hd]%andb_prop. right. exists rest. rewrite Hassoc. split_and!; [done| |done]. by intros ->.
  - intros [?|(rest & -> & Hr & Hd)]; [done|]. rewrite Hassoc, CutPrefix_app, Hd. by destruct (String.eqb_spec rest "").
Qed.

Definition dashless (n : string) : Prop := "-"%char ∉ bytes n.

Lemma split_at_dash {A} (d : A) l1 l2 s1 s2 :
  d ∉ l1 -> d ∉ l2 -> (s1 = [] \/ exists t, s1 = d :: t) -> (s2 = [] \/ exists t, s2 = d :: t) ->
  l1 ++ s1 = l2 ++ s2 -> l1 = l2.
Proof.
  revert l2. induction l1 as [|a l1 IH]; intros [|c l2] H1 H2 Hs1 Hs2 He; cbn in *; try done.
  - exfalso. destruct Hs1 as [->|[t ->]]; [done|]. injection He as -> _. set_solver.
  - exfalso. destruct Hs2 as [->|[t ->]]; [done|]. injection He as -> _. set_solver.
  - injection He as -> He. f_equal. apply IH; try done; set_solver.
Qed.

(** An id is standalone for one name only. *)
Lemma standalone_one_name id n n' :
  dashless n -> dashless n' -> isStandaloneIDForName id n = true -> isStandaloneIDForName id n' = true -> n = n'.
Proof.
  intros Hn Hn' H1%standalone_form H2%standalone_form.
  assert (Hform : forall m, (id = bare_id m \/ exists rest, id = bare_id m +:+ "-" +:+ rest /\ rest <> "" /\ all_bytes is_digit rest = true) ->
    exists s, (s = [] \/ exists t, s = "-"%char :: t) /\ bytes id = bytes "firis:" ++ bytes m ++ s).
  { intros m [->|(rest & -> & _)].
    - exists []. split; [by left|]. unfold bare_id. by rewrite bytes_app, app_nil_r.
    - exists ("-"%char :: bytes rest). split; [right; by exists (bytes rest)|]. unfold bare_id. by rewrite !bytes_app, <-app_assoc. }
  destruct (Hform n H1) as (s1 & Hs1 & E1), (Hform n' H2) as (s2 & Hs2 & E2).
  rewrite E1 in E2. apply app_inv_head in E2. apply split_at_dash with (d := "-"%char) in E2; try done.
  by rewrite <-(of_bytes_bytes n), E2, of_bytes_bytes.
Qed.

Lemma bare_standalone n : isStandaloneIDForName (bare_id n) n = true.
Proof. apply standalone_form. by left. Qed.

(** A name that is stored keeps one of its stored ids. *)
Lemma continuity_stored prior n g :
  filter (fun pe => isStandaloneIDForName (Id pe) n = true) (ForSource prior "firis") <> [] ->
  exists pe, pe ∈ ForSource prior "firis" /\ isStandaloneIDForName (Id pe) n = true /\ Id pe = standaloneContinuityID prior n g.
Proof.
  unfold standaloneContinuityID. destruct (filter _ (ForSource prior "firis")) as [|p l] eqn:E; [done|]. intros _.
  assert (Hin : forall acc, acc.1 ∈ p :: l ->
    (foldl (fun (b : Event * float64) pe =>
       let d := centroidDistSq (geometry pe) (Some g) in if ltb d b.2 then (pe, d) else b) acc l).1 ∈ p :: l).
  { assert (Hsub : l ⊆ p :: l) by set_solver. revert Hsub. generalize (p :: l) as all. clear. intros all.
    induction l as [|x l IH]; intros Hsub acc Hacc; [done|]. cbn [foldl]. apply IH; [set_solver|]. cbv zeta.
    case_match; [cbn; set_solver|done]. }
  specialize (Hin (p, centroidDistSq (geometry p) (Some g)) ltac:(left)). rewrite <-E in Hin.
  apply list_elem_of_filter in Hin as [? ?]. by eexists.
Qed.

Lemma continuity_standalone prior n g : isStandaloneIDForName (standaloneContinuityID prior n g) n = true.
Proof.
  destruct (decide (filter (fun pe => isStandaloneIDForName (Id pe) n = true) (ForSource prior "firis") = [])) as [He|He].
  - unfold standaloneContinuityID. rewrite He. apply bare_standalone.
  - by destruct (continuity_stored prior n g He) as (pe & _ & ? & <-).
Qed.

Lemma standalone_id_name prior count k c : isStandaloneIDForName (standalone_id prior count k c) (norm c) = true.
Proof.
  unfold standalone_id. destruct (Nat.eqb count 1); [apply continuity_standalone|]. destruct (Nat.eqb k 0); [apply bare_standalone|].
  apply standalone_form. right. eexists. split; [done|]. destruct (pretty_digits (Z.of_nat (S k))); [lia|done].
Qed.

(** ** Where candidates come from *)

Lemma normFireName_dashless `{UnicodeLower} n : dashless (normFireName n).
Proof.
  unfold dashless, normFireName. rewrite bytes_of_bytes. intros [Hc _]%list_elem_of_filter. vm_compute in Hc. done.
Qed.

Section Standalone.
Context {UL : UnicodeLower} {UU : UnicodeUpper} {JK : JsonKernel} {GT : GeoText}.

Lemma freshest_in c l : freshest c l ∈ c :: l.
Proof.
  unfold freshest. revert c. induction l as [|x l IH]; intros c; [left|]. cbn [foldl].
  pose proof (IH (if perimFresher (perim x) (perim c) then x else c)) as H. case_match; set_solver.
Qed.

Lemma fires_from group c : c ∈ fires group -> c ∈ group.
Proof.
  unfold fires. intros (cl & Hcl & Hb)%list_elem_of_omap.
  assert (Hp : mjoin (clusterByCentroid group) ≡ₚ group) by (unfold clusterByCentroid; by rewrite clusters_perm, SliceStable_perm).
  rewrite <-Hp. apply list_elem_of_join. exists cl. split; [|done].
  destruct cl as [|x l]; [done|]. injection Hb as <-. apply freshest_in.
Qed.

Lemma dedupe_from perims c : c ∈ dedupePerimeters perims -> exists p, p ∈ perims /\ candidate p = Some c.
Proof.
  rewrite dedupe_names. intros (n & Hc & _)%list_elem_of_bind. apply fires_from in Hc. unfold keyed in Hc.
  apply list_elem_of_filter in Hc as [_ (p & ? & ?)%list_elem_of_omap]. by exists p.
Qed.

Lemma dedupe_dashless perims c : c ∈ dedupePerimeters perims -> dashless (norm c).
Proof.
  intros (p & _ & Hp)%dedupe_from. unfold candidate in Hp. destruct (_ && _); [done|]. destruct (_ || _); [done|].
  destruct (geometryFromTyped _ _); [|done]. injection Hp as <-. apply normFireName_dashless.
Qed.

(** ** The standalone events *)

Lemma open_elem cands used c : c ∈ open_cands cands used <-> c ∈ cands /\ norm c ∉ used.
Proof. unfold open_cands. rewrite SliceStable_perm, list_elem_of_filter. tauto. Qed.

Lemma standalone_lookup now cands used prior i :
  standalonePerimeterEvents now cands used prior !! i
  = (fun c => standaloneEvent now (standalone_id prior (same_name c (open_cands cands used))
                                     (same_name c (take i (open_cands cands used))) c) c) <$> open_cands cands used !! i.
Proof. unfold standalonePerimeterEvents. by rewrite list_lookup_imap. Qed.

Lemma standalone_from now cands used prior e :
  e ∈ standalonePerimeterEvents now cands used prior ->
  exists c id, c ∈ cands /\ norm c ∉ used /\ e = standaloneEvent now id c /\ isStandaloneIDForName id (norm c) = true.
Proof.
  intros [i Hi]%list_elem_of_lookup. rewrite standalone_lookup in Hi.
  destruct (open_cands cands used !! i) as [c|] eqn:Hc; [|done]. injection Hi as <-.
  apply list_elem_of_lookup_2, open_elem in Hc as [Hc Hu]. exists c. eexists. split_and!; [done..|]. apply standalone_id_name.
Qed.

Lemma standalone_covers now cands used prior c :
  c ∈ cands -> norm c ∉ used -> exists id, standaloneEvent now id c ∈ standalonePerimeterEvents now cands used prior.
Proof.
  intros Hc Hu. assert (c ∈ open_cands cands used) as [i Hi]%list_elem_of_lookup by by apply open_elem.
  eexists. eapply list_elem_of_lookup_2. rewrite standalone_lookup, Hi. done.
Qed.

Lemma same_name_take c l i j : (i <= j)%nat -> (same_name c (take i l) <= same_name c (take j l))%nat.
Proof.
  intros Hij. unfold same_name. rewrite <-(take_drop i (take j l)), take_take, Nat.min_l by done.
  rewrite filter_app, length_app. lia.
Qed.

Lemma same_name_step c l i : l !! i = Some c -> same_name c (take (S i) l) = S (same_name c (take i l)).
Proof.
  intros Hi. unfold same_name. rewrite (take_S_r _ _ _ Hi), filter_app, length_app, filter_cons_True by done. cbn. lia.
Qed.

(** The ids of the standalone perimeters of a poll are distinct. *)
Lemma standalone_ids_distinct now cands used prior :
  (forall c, c ∈ cands -> dashless (norm c)) -> NoDup (Id <$> standalonePerimeterEvents now cands used prior).
Proof.
  intros Hdash. apply NoDup_alt. intros i j x Hi Hj.
  assert (Hwlog : forall i j, (i < j)%nat ->
    (Id <$> standalonePerimeterEvents now cands used prior) !! i = Some x ->
    (Id <$> standalonePerimeterEvents now cands used prior) !! j = Some x -> False).
  2: { destruct (Nat.lt_trichotomy i j) as [?|[?|?]]; [|done|]; exfalso; eauto. }
  clear i j Hi Hj. intros i j Hij. rewrite !list_lookup_fmap, !standalone_lookup.
  set (l := open_cands cands used). destruct (l !! i) as [c|] eqn:Hc, (l !! j) as [c'|] eqn:Hc'; try done. cbn.
  intros [= H1] [= H2].
  assert (Hin : forall k y, l !! k = Some y -> dashless (norm y)).
  { intros k y Hy. apply Hdash. by apply list_elem_of_lookup_2, open_elem in Hy as [? _]. }
  assert (Hn : norm c = norm c').
  { apply (standalone_one_name x); [by eapply Hin..|rewrite <-H1|rewrite <-H2]; apply standalone_id_name. }
  assert (Hs : forall m, same_name c' m = same_name c m) by (intros m; unfold same_name; by rewrite Hn).
  pose proof (same_name_step c l i Hc) as Hk. pose proof (same_name_take c l (S i) j Hij) as Hle.
  pose proof (same_name_step c' l j Hc') as Hk'. pose proof (same_name_take c' l (S j) (length l)) as Hle'.
  rewrite firstn_all in Hle'. apply lookup_lt_Some in Hc' as Hlt. rewrite !Hs in *.
  specialize (Hle' Hlt). unfold standalone_id in H1, H2.
  destruct (Nat.eqb_spec (same_name c l) 1); [lia|]. rewrite <-Hn in H2.
  destruct (Nat.eqb_spec (same_name c (take j l)) 0); [lia|].
  destruct (Nat.eqb_spec (same_name c (take i l)) 0).
  - rewrite <-H1 in H2. by apply suffixed_base in H2.
  - rewrite <-H2 in H1. apply suffixed_inj in H1. lia.
Qed.

(** *** The ids of stored fires *)

Lemma open_named n cands : length (filter (fun c => norm c = n) (open_cands cands [])) = length (named n cands).
Proof.
  unfold open_cands, named. rewrite SliceStable_perm, list_filter_filter. f_equal. apply list_filter_iff.
  intros c. split; [tauto|]. intros ?. split; [done|apply not_elem_of_nil].
Qed.

(** Each of the candidates of a name has its place among them. *)
Lemma kth_of_name n k l :
  (k < length (filter (fun c => norm c = n) l))%nat -> exists i c, l !! i = Some c /\ norm c = n /\ same_name c (take i l) = k.
Proof.
  revert k. induction l as [|x l IH]; intros k; [cbn; lia|]. rewrite filter_cons. case_decide as Hx; cbn [length].
  - destruct k as [|k]; [intros _; by exists 0%nat, x|]. intros Hk. destruct (IH k) as (i & c & Hc & Hn & Hs); [lia|].
    exists (S i), c. split_and!; [done..|]. unfold same_name in *. cbn [take]. rewrite filter_cons_True by congruence. cbn. by rewrite Hs.
  - intros Hk. destruct (IH k Hk) as (i & c & Hc & Hn & Hs). exists (S i), c. split_and!; [done..|].
    unfold same_name in *. cbn [take]. by rewrite filter_cons_False by congruence.
Qed.

(** The id of the [k]th of several perimeters of one name. *)
Definition nth_id (n : string) (k : nat) : string := if Nat.eqb k 0 then bare_id n else suffixed (bare_id n) (Z.of_nat (S k)).

Lemma several_standalone now cands prior n k :
  (1 < length (named n cands))%nat -> (k < length (named n cands))%nat ->
  exists c, c ∈ cands /\ norm c = n /\ standaloneEvent now (nth_id n k) c ∈ standalonePerimeterEvents now cands [] prior.
Proof.
  intros H1 Hk. rewrite <-open_named in Hk. destruct (kth_of_name _ _ _ Hk) as (i & c & Hc & Hn & Hs). exists c.
  pose proof (list_elem_of_lookup_2 _ _ _ Hc) as [Hin _]%open_elem. split_and!; [done..|].
  apply list_elem_of_lookup. exists i. rewrite standalone_lookup, Hc. cbn. do 2 f_equal. unfold standalone_id.
  assert (same_name c (open_cands cands []) = length (named n cands)) as -> by (unfold same_name; by rewrite Hn, open_named).
  rewrite Hs, (proj2 (Nat.eqb_neq _ _)), Hn by lia. done.
Qed.

(** The only perimeter of a name is drawn under an id the name is stored with. *)
Lemma sole_standalone now cands prior n c :
  named n cands = [c] -> filter (fun pe => isStandaloneIDForName (Id pe) n = true) (ForSource prior "firis") <> [] ->
  exists pe, pe ∈ ForSource prior "firis" /\ isStandaloneIDForName (Id pe) n = true
    /\ standaloneEvent now (Id pe) c ∈ standalonePerimeterEvents now cands [] prior.
Proof.
  intros Hc Hfam. assert (c ∈ named n cands) as [Hn Hin]%list_elem_of_filter by (rewrite Hc; left).
  destruct (continuity_stored prior n (geom c) Hfam) as (pe & Hpe & Hnm & Hid). exists pe. split_and!; [done..|].
  assert (c ∈ open_cands cands []) as [i Hi]%list_elem_of_lookup by (apply open_elem; split; [done|apply not_elem_of_nil]).
  apply list_elem_of_lookup. exists i. rewrite standalone_lookup, Hi. cbn. do 2 f_equal. unfold standalone_id.
  assert (same_name c (open_cands cands []) = 1%nat) as -> by (unfold same_name; by rewrite Hn, open_named, Hc).
  by rewrite Hn, Hid.
Qed.

End Standalone.

(** ** A poll *)

Section Poll.
Context {UL : UnicodeLower} {UU : UnicodeUpper} {JK : JsonKernel} {GT : GeoText} {CJ : CalfireJson} {FJ : FirisJson}.

(** The names an incident took a perimeter by, and the perimeters left over. *)
Lemma merge_spec scope now prior incidents perims :
  let cands := dedupePerimeters (rows_of perims) in
  let r := merge_feeds scope now prior incidents perims in
  exists used,
    NoDup used /\ (forall n, n ∈ used <-> adopted_in scope now prior cands (perimsUnusable perims) (rows_of incidents) n)
    /\ Events r = omap (presented scope now prior cands (perimsUnusable perims)) (rows_of incidents)
        ++ match incidents with
           | inl _ => filter (fun e => Id e ∈ Id <$> ForSource prior "firis") (standalonePerimeterEvents now cands used prior)
           | inr _ => standalonePerimeterEvents now cands used prior
           end
    /\ PerSource r !! "calfire" = err_of incidents /\ PerSource r !! "firis" = err_of perims
    /\ Superseded r = supersededStandalones (index cands).1 used prior.
Proof.
  cbn zeta. destruct (add_incidents_spec scope now prior (dedupePerimeters (rows_of perims)) (perimsUnusable perims) (rows_of incidents))
    as (H1 & H2 & H3).
  exists (foldl (add_incident scope (index (dedupePerimeters (rows_of perims))) (perimsUnusable perims) prior now) ([], []) (rows_of incidents)).2.
  rewrite <-H1. split_and!; [done..| | |done]; by destruct incidents, perims.
Qed.

Lemma join_ok scope now prior incidents perims r :
  join_feeds scope now prior incidents perims = inr r -> r = merge_feeds scope now prior incidents perims.
Proof. unfold join_feeds. by destruct incidents, perims; intros [= <-]. Qed.

Lemma join_failed scope now prior incidents perims e :
  join_feeds scope now prior incidents perims = inl e -> exists e1 e2, incidents = inl e1 /\ perims = inl e2.
Proof. unfold join_feeds. destruct incidents as [e1|], perims as [e2|]; try done. by exists e1, e2. Qed.

(** No perimeter is at hand when they are unusable. *)
Lemma unusable_none perims : perimsUnusable perims = true -> dedupePerimeters (rows_of perims) = [].
Proof. destruct perims; [done|]. cbn. by intros ?%bool_decide_eq_true. Qed.

(** With CAL FIRE down. *)
Lemma merge_down scope now prior e perims :
  let r := merge_feeds scope now prior (inl e) perims in
  let cands := dedupePerimeters (rows_of perims) in
  let stored := Id <$> ForSource prior "firis" in
  (forall ev, ev ∈ Events r <-> Id ev ∈ stored /\ ev ∈ standalonePerimeterEvents now cands [] prior)
  /\ (forall n c, named n cands = [c] ->
       filter (fun pe => isStandaloneIDForName (Id pe) n = true) (ForSource prior "firis") <> [] ->
       exists pe, pe ∈ ForSource prior "firis" /\ isStandaloneIDForName (Id pe) n = true /\ standaloneEvent now (Id pe) c ∈ Events r)
  /\ (forall n k, (1 < length (named n cands))%nat -> (k < length (named n cands))%nat -> nth_id n k ∈ stored ->
       exists c, c ∈ cands /\ norm c = n /\ standaloneEvent now (nth_id n k) c ∈ Events r).
Proof.
  cbn zeta. set (r := merge_feeds _ _ _ _ _). set (cands := dedupePerimeters _).
  assert (Hex : forall ev, ev ∈ Events r <-> Id ev ∈ Id <$> ForSource prior "firis" /\ ev ∈ standalonePerimeterEvents now cands [] prior).
  { intros ev. unfold r, merge_feeds. cbn. by rewrite list_elem_of_filter. }
  split; [done|]. split.
  - intros n c Hc Hfam. destruct (sole_standalone now cands prior n c Hc Hfam) as (pe & Hpe & Hn & Hin). exists pe. split_and!; [done..|].
    apply Hex. split; [|exact Hin]. exact (list_elem_of_fmap_2 Id _ _ Hpe).
  - intros n k H1 Hk Hst. destruct (several_standalone now cands prior n k H1 Hk) as (c & Hc & Hn & Hin). exists c. split_and!; [done..|].
    apply Hex. by split.
Qed.

(** C16: An outage of one wildfire feed leaves the fires of the other their events.
    A poll fails only when no area is configured or both feeds fail; else each
    feed's error is recorded under its own source, which keeps the sweep from the
    stored fires of that source. While CAL FIRE answers, every incident that lies in
    scope has its event and every perimeter is drawn, by the incident that adopted
    it or standalone; and while the perimeters are unusable a fire stored with its
    perimeter keeps it, and stays in scope by it. While CAL FIRE does not answer,
    what is emitted is exactly the standalone fires of the perimeters at hand under
    ids that are stored: so none is minted twice, the only perimeter of a name that
    is stored is drawn under a stored id of that name, and of several perimeters of
    a name each that has a stored id by its place among them is drawn under it. *)
Theorem fires_kept baseURL query areas margin now prior calfire firis n :
  let incidents := Calfire.GetActiveIncidents calfire in
  match (Poll baseURL query areas margin now prior calfire firis n).1 with
  | inl _ =>
      areas = [] \/ exists scope e1 e2, wildfireScope areas margin = Some scope /\ incidents = inl e1
        /\ (gatedPerimeters baseURL query scope firis n).1 = inl e2
  | inr r =>
      exists scope, wildfireScope areas margin = Some scope /\
      let perims := (gatedPerimeters baseURL query scope firis n).1 in
      PerSource r !! "calfire" = err_of incidents /\ PerSource r !! "firis" = err_of perims
      /\ (forall l, incidents = inr l ->
           (forall i, i ∈ l -> positioned i -> Contains scope (Calfire.Lat i) (Calfire.Lng i) = true ->
              exists g hp, incident_event now g hp i ∈ Events r)
           /\ (forall c, c ∈ dedupePerimeters (rows_of perims) ->
                (exists i, i ∈ l /\ fire_name i = norm c /\ incident_event now (geom c) true i ∈ Events r)
                \/ exists id, standaloneEvent now id c ∈ Events r))
      /\ (forall e, incidents = inl e ->
           let cands := dedupePerimeters (rows_of perims) in
           let stored := Id <$> ForSource prior "firis" in
           (forall ev, ev ∈ Events r <-> Id ev ∈ stored /\ ev ∈ standalonePerimeterEvents now cands [] prior)
           /\ (forall n c, named n cands = [c] ->
                filter (fun pe => isStandaloneIDForName (Id pe) n = true) (ForSource prior "firis") <> [] ->
                exists pe, pe ∈ ForSource prior "firis" /\ isStandaloneIDForName (Id pe) n = true /\ standaloneEvent now (Id pe) c ∈ Events r)
           /\ (forall n k, (1 < length (named n cands))%nat -> (k < length (named n cands))%nat -> nth_id n k ∈ stored ->
                exists c, c ∈ cands /\ norm c = n /\ standaloneEvent now (nth_id n k) c ∈ Events r))
      /\ (perimsUnusable perims = true -> forall l i g, incidents = inr l -> i ∈ l -> positioned i ->
           has_stored_perimeter prior (incident_id i) = Some g ->
           inWildfireScope scope (Calfire.Lat i) (Calfire.Lng i) g = true ->
           incident_event now g true i ∈ Events r)
  end.
Proof.
  cbn zeta. unfold Poll. destruct (wildfireScope areas margin) as [scope|] eqn:Hs; cbn [fst].
  2: { left. unfold wildfireScope, unionBounds in Hs. destruct areas as [|a l]; [done|]. cbn in Hs.
       by destruct (foldl _ _ _) as [[[? ?] ?] ?]. }
  set (incidents := Calfire.GetActiveIncidents calfire). destruct (gatedPerimeters _ _ _ _ _) as [perims n'] eqn:Hg. cbn [fst].
  destruct (join_feeds _ _ _ _ _) as [e|r] eqn:Hj.
  { right. apply join_failed in Hj as (e1 & e2 & H1 & H2). exists scope, e1, e2. by rewrite Hg. }
  apply join_ok in Hj as ->. exists scope. split; [done|]. rewrite Hg. cbn [fst].
  destruct (merge_spec scope now prior incidents perims) as (used & _ & Hused & Hev & Hc & Hf & _).
  set (cands := dedupePerimeters (rows_of perims)) in *. set (r := merge_feeds scope now prior incidents perims) in *.
  assert (Hpres : forall i e, i ∈ rows_of incidents ->
    presented scope now prior cands (perimsUnusable perims) i = Some e -> e ∈ Events r).
  { intros i e Hi He. rewrite Hev. apply elem_of_app. left. apply list_elem_of_omap. by exists i. }
  split_and!; [done..| | |].
  - intros l Hl. rewrite Hl in *. cbn [rows_of] in *. split.
    + intros i Hi Hpos Hin. exists (drawn prior cands (perimsUnusable perims) i).1, (drawn prior cands (perimsUnusable perims) i).2.
      apply (Hpres i); [done|]. unfold presented. rewrite Hpos. unfold in_scope, inWildfireScope. by rewrite Hin.
    + intros c Hcand. destruct (decide (norm c ∈ used)) as [Hu|Hu].
      * left. apply Hused in Hu as (i & c' & Hi & Hn & Hnamed & Hp). exists i. split_and!; [done..|].
        assert (c ∈ named (norm c) cands) as Hc' by by apply list_elem_of_filter.
        rewrite Hnamed in Hc'. apply list_elem_of_singleton in Hc' as ->. by apply (Hpres i).
      * right. destruct (standalone_covers now cands used prior c Hcand Hu) as [id Hid]. exists id.
        rewrite Hev. apply elem_of_app. by right.
  - intros e He. unfold r. rewrite He. exact (merge_down scope now prior e perims).
  - intros Hun l i g Hl Hi Hpos Hstored Hsc. apply (Hpres i); [by rewrite Hl|]. unfold presented. rewrite Hpos.
    apply unusable_none in Hun as Hnone. fold cands in Hnone.
    assert (Hd : drawn prior cands (perimsUnusable perims) i = (g, true)).
    { unfold drawn. rewrite Hnone, Hun. cbn. by rewrite Hstored. }
    unfold in_scope. rewrite Hd. cbn [fst snd]. by rewrite Hsc.
Qed.

Lemma Poll_ok baseURL query areas margin now prior calfire firis n r :
  (Poll baseURL query areas margin now prior calfire firis n).1 = inr r ->
  exists scope, wildfireScope areas margin = Some scope
    /\ r = merge_feeds scope now prior (Calfire.GetActiveIncidents calfire) (gatedPerimeters baseURL query scope firis n).1.
Proof.
  unfold Poll. destruct (wildfireScope areas margin) as [scope|]; [|done].
  destruct (gatedPerimeters _ _ _ _ _) as [perims n'] eqn:Hg. cbn [fst]. intros ->%join_ok. exists scope. by rewrite Hg.
Qed.

(** An event of a merge is an incident's or a standalone perimeter's. *)
Lemma merge_event scope now prior incidents perims used e :
  let cands := dedupePerimeters (rows_of perims) in
  e ∈ omap (presented scope now prior cands (perimsUnusable perims)) (rows_of incidents)
      ++ match incidents with
         | inl _ => filter (fun e => Id e ∈ Id <$> ForSource prior "firis") (standalonePerimeterEvents now cands used prior)
         | inr _ => standalonePerimeterEvents now cands used prior
         end ->
  (exists i, i ∈ rows_of incidents
     /\ e = incident_event now (drawn prior cands (perimsUnusable perims) i).1 (drawn prior cands (perimsUnusable perims) i).2 i)
  \/ exists c id, c ∈ cands /\ norm c ∉ used /\ e = standaloneEvent now id c /\ isStandaloneIDForName id (norm c) = true.
Proof.
  cbn zeta. intros [(i & Hi & Hp)%list_elem_of_omap|He]%elem_of_app.
  - left. exists i. split; [done|]. unfold presented in Hp. destruct (_ && _); [done|]. destruct (in_scope _ _ _ _ _); congruence.
  - right. destruct incidents; [apply list_elem_of_filter in He as [_ He]|]; by eapply standalone_from.
Qed.

(** A fire is drawn only with a perimeter of its own. An event that says it has
    a perimeter is drawn with one the layer lists under its name: standalone,
    or adopted by a CAL FIRE incident of that name, and then no other perimeter
    bears the name; or, only while the perimeters are unusable, with the one it
    is stored with. *)
Theorem perimeter_of_the_fire baseURL query areas margin now prior calfire firis n r ev d :
  (Poll baseURL query areas margin now prior calfire firis n).1 = inr r ->
  ev ∈ Events r -> GetWildfire ev = Some d -> has_perimeter d = true ->
  exists scope, wildfireScope areas margin = Some scope /\
  let perims := (gatedPerimeters baseURL query scope firis n).1 in
  let cands := dedupePerimeters (rows_of perims) in
  (exists c, c ∈ cands /\ geometry ev = Some (geom c)
     /\ ((exists id, ev = standaloneEvent now id c)
         \/ named (norm c) cands = [c] /\ exists i, i ∈ rows_of (Calfire.GetActiveIncidents calfire)
              /\ fire_name i = norm c /\ ev = incident_event now (geom c) true i))
  \/ perimsUnusable perims = true /\ geometry ev <> None /\ has_stored_perimeter prior (Id ev) = geometry ev.
Proof.
  intros (scope & Hs & ->)%Poll_ok Hev Hd Hp. exists scope. split; [done|]. cbn zeta.
  set (incidents := Calfire.GetActiveIncidents calfire) in *. set (perims := (gatedPerimeters _ _ _ _ _).1) in *.
  destruct (merge_spec scope now prior incidents perims) as (used & _ & _ & Hev' & _). rewrite Hev' in Hev.
  apply merge_event in Hev as [(i & Hi & ->)|(c & id & Hc & _ & -> & _)]; [|left; exists c; split_and!; eauto].
  unfold drawn in *. injection Hd as <-. cbn in Hp.
  destruct (named (fire_name i) (dedupePerimeters (rows_of perims))) as [|c [|c' l]] eqn:Hn; cbn in *.
  2: { apply named_elem in Hn as Hc. destruct Hc as [Hc Hnorm]. left. exists c. rewrite Hnorm. split_and!; [done..|].
       right. split; [done|]. by exists i. }
  all: destruct (perimsUnusable perims) eqn:Hu; [|done];
    destruct (has_stored_perimeter prior (incident_id i)) as [g|] eqn:Hg; [|done]; right; by split_and!.
Qed.

Lemma calfire_not_firis i n g hp now : isStandaloneIDForName (Id (incident_event now g hp i)) n = false.
Proof.
  destruct (isStandaloneIDForName _ n) eqn:E; [|done]. apply standalone_form in E as [E|(rest & E & _)]; discriminate E.
Qed.

(** What a poll says is superseded is gone for certain: the id is stored, an
    incident of the poll adopted the very perimeter that would be emitted under
    it, and no event of the poll bears it. *)
Theorem superseded_replaced baseURL query areas margin now prior calfire firis n r id :
  (Poll baseURL query areas margin now prior calfire firis n).1 = inr r -> id ∈ Superseded r ->
  is_Some (ByID prior id) /\ id ∉ Id <$> Events r
  /\ exists scope c i, wildfireScope areas margin = Some scope
       /\ c ∈ dedupePerimeters (rows_of (gatedPerimeters baseURL query scope firis n).1)
       /\ id = standaloneContinuityID prior (norm c) (geom c)
       /\ fire_name i = norm c /\ incident_event now (geom c) true i ∈ Events r.
Proof.
  intros (scope & Hs & ->)%Poll_ok Hid.
  set (incidents := Calfire.GetActiveIncidents calfire) in *. set (perims := (gatedPerimeters _ _ _ _ _).1) in *.
  destruct (merge_spec scope now prior incidents perims) as (used & _ & Hused & Hev & _ & _ & Hsup). rewrite Hsup in Hid.
  set (cands := dedupePerimeters (rows_of perims)) in *. unfold supersededStandalones in Hid. rewrite sort_strings_perm in Hid.
  apply list_elem_of_omap in Hid as (m & Hm & Hid).
  apply Hused in Hm as Ha. destruct Ha as (i & c & Hi & Hfn & Hnamed & Hp).
  rewrite (proj1 (index_spec cands m)), Hnamed in Hid. cbn in Hid. case_bool_decide as Hst; [|done]. injection Hid as <-.
  destruct (named_elem _ _ _ Hnamed) as [Hc Hnorm]. split_and!; [done| |].
  - intros (e & He & Hin)%list_elem_of_fmap. rewrite Hev in Hin. pose proof (continuity_standalone prior m (geom c)) as Hst'.
    apply merge_event in Hin as [(j & _ & ->)|(c' & id & Hc' & Hu & -> & Hid)].
    + rewrite He, calfire_not_firis in Hst'. done.
    + cbn in He. subst id. apply Hu. rewrite <-(standalone_one_name _ _ _ (dedupe_dashless _ _ Hc) (dedupe_dashless _ _ Hc')
        ltac:(rewrite Hnorm; exact Hst') Hid), Hnorm. done.
  - exists scope, c, i. split_and!; [done..|by rewrite Hnorm|by rewrite Hnorm|]. rewrite Hev. apply elem_of_app. left.
    apply list_elem_of_omap. by exists i.
Qed.

Lemma presented_id scope now prior cands unusable i e :
  presented scope now prior cands unusable i = Some e -> exists g hp, e = incident_event now g hp i.
Proof.
  unfold presented. destruct (_ && _); [done|]. destruct (in_scope _ _ _ _ _); [|done]. intros [= <-]. eauto.
Qed.

Lemma NoDup_fmap_filter {A B} (f : A -> B) (P : A -> Prop) `{!forall x, Decision (P x)} l : NoDup (f <$> l) -> NoDup (f <$> filter P l).
Proof.
  induction l as [|x l IH]; [constructor|]. rewrite fmap_cons, filter_cons. intros [Hx Hl]%NoDup_cons.
  case_decide; [|by apply IH]. rewrite fmap_cons. constructor; [|by apply IH]. intros (y & Hy & [_ Hin]%list_elem_of_filter)%list_elem_of_fmap.
  apply Hx, list_elem_of_fmap. by exists y.
Qed.

Lemma presented_ids scope now prior cands unusable l :
  NoDup (incident_id <$> l) -> NoDup (Id <$> omap (presented scope now prior cands unusable) l).
Proof.
  induction l as [|i l IH]; cbn; [constructor|]. intros [Hi Hl]%NoDup_cons.
  destruct (presented _ _ _ _ _ i) as [e|] eqn:He; [|by apply IH]. apply presented_id in He as (g & hp & ->). cbn.
  constructor; [|by apply IH]. intros (e & He & (j & Hj & Hp)%list_elem_of_omap)%list_elem_of_fmap.
  apply presented_id in Hp as (g' & hp' & ->). apply Hi, list_elem_of_fmap. by exists j.
Qed.

(** The events of a poll have ids of their own, however many fires share a name,
    as long as the CAL FIRE incidents have. *)
Theorem fire_ids baseURL query areas margin now prior calfire firis n r :
  (Poll baseURL query areas margin now prior calfire firis n).1 = inr r ->
  NoDup (incident_id <$> rows_of (Calfire.GetActiveIncidents calfire)) ->
  NoDup (Id <$> Events r).
Proof.
  intros (scope & Hs & ->)%Poll_ok Hnd.
  set (incidents := Calfire.GetActiveIncidents calfire) in *. set (perims := (gatedPerimeters _ _ _ _ _).1) in *.
  destruct (merge_spec scope now prior incidents perims) as (used & _ & _ & Hev & _). rewrite Hev.
  set (cands := dedupePerimeters (rows_of perims)) in *. rewrite fmap_app. apply NoDup_app. split_and!.
  - by apply presented_ids.
  - intros x (e & -> & (i & _ & Hp)%list_elem_of_omap)%list_elem_of_fmap (e' & Hid & He')%list_elem_of_fmap.
    apply presented_id in Hp as (g & hp & ->).
    assert (exists c id, e' = standaloneEvent now id c /\ isStandaloneIDForName id (norm c) = true) as (c & id & -> & Hst).
    { destruct incidents; [apply list_elem_of_filter in He' as [_ He']|];
        apply standalone_from in He' as (c & id & _ & _ & ? & ?); by exists c, id. }
    change (Id (standaloneEvent now id c)) with id in Hid. rewrite <-Hid in Hst. by rewrite calfire_not_firis in Hst.
  - assert (Hall : NoDup (Id <$> standalonePerimeterEvents now cands used prior)).
    { apply standalone_ids_distinct. intros c. apply dedupe_dashless. }
    destruct incidents; [by apply NoDup_fmap_filter|done].
Qed.

End Poll.

(** ** Concrete polls *)

Module WildfireDemo.

Definition at_ (lat_ lng_ : Z) : list float64 := [of_Z lng_; of_Z lat_].
(** Coordinates [A], [B] and [C] are points; nothing else is geometry. *)
#[local] Instance json : JsonKernel :=
  {| unmarshal_env raw := Some ("Point", raw);
     unmarshal_floats raw := if Text.Contains raw ":A}" then Some (at_ 38 (-120))
                             else if Text.Contains raw ":B}" then Some (at_ 39 (-121))
                             else if Text.Contains raw ":C}" then Some (at_ 39 (-119)) else None;
     unmarshal_floats2 _ := None; unmarshal_raws _ := None |}.
#[local] Instance geo_text : GeoText := {| marshal_string s := s; point_json _ _ := "{}" |}.
#[local] Existing Instance ascii_only.
#[local] Instance upper : UnicodeUpper := {| unicode_upper s := s |}.

Definition fire (uid name : string) (lat_ lng_ : Z) : Calfire.incidentJSON :=
  Calfire.mkIncidentJSON uid name "" "" (Some (of_Z 120)) (Some (of_Z 10)) (Some (of_Z lat_)) (Some (of_Z lng_)) "" "" "" true.
Definition flight (name number coords : string) : Firis.perimeterFeature :=
  Firis.mkFeature name "" number (of_Z 100) 1000 "FIRIS" "Active" "Point" coords.

(** The documents of the two servers, by name. *)
#[local] Instance calfire_json : CalfireJson :=
  {| Calfire.decode body := if String.eqb body "creek" then inr [fire "u1" "Creek Fire" 38 (-120)]
                            else if String.eqb body "creeks" then inr [fire "u1" "Creek Fire" 38 (-120); fire "u2" "Creek" 33 (-117)]
                            else inr [];
     Calfire.parse_zoned _ := None; Calfire.parse_pacific _ := None |}.
#[local] Instance firis_json : FirisJson :=
  {| Firis.decode body :=
       if String.eqb body "one" then inr (Firis.mkResponse [flight "CREEK" "n1" "A"] None)
       else if String.eqb body "flights" then inr (Firis.mkResponse [flight "CREEK" "n1" "A"; flight "Creek" "" "A"; flight "DOVE" "n2" "B"] None)
       else if String.eqb body "three" then inr (Firis.mkResponse [flight "CREEK" "n1" "A"; flight "CREEK" "n2" "B"; flight "CREEK" "n3" "C"] None)
       else if String.eqb body "two" then inr (Firis.mkResponse [flight "CREEK" "n2" "B"; flight "CREEK" "n3" "C"] None)
       else inr (Firis.mkResponse [] (Some (mkArcgisError 429 "throttled")));
     Firis.decode_meta body := inr (Firis.mkMetadata 1 None) |}.

Definition areas : list HazardArea :=
  [mkHazardArea "ebbetts" "Ebbetts Pass" (mkGeoBounds (of_Z 38) (of_Z 39) (of_Z (-121)) (of_Z (-119))) "" []].
Definition tick (doc : string) : PerimTick := mkPerimTick (Reply 200 "meta") (fun _ => Reply 200 doc) 0 0.
Definition poll (prior : Prior) (fires perims : string) : (string + PollResult) * PerimCache :=
  Poll "https://firis/query" (fun _ => "https://firis/query") areas zero 0 prior (Reply 200 fires) (tick perims) no_cache.
Definition nothing : Prior := mkPrior ∅ ∅.
Definition stored (r : (string + PollResult) * PerimCache) : Prior :=
  match r.1 with
  | inr r => mkPrior (list_to_map ((fun e => (Id e, e)) <$> Events r)) {["firis" := filter (fun e => GetSourceId e = "firis") (Events r)]}
  | inl _ => nothing
  end.
Definition ids (r : (string + PollResult) * PerimCache) : option (list string) :=
  match r.1 with inr r => Some (Id <$> Events r) | inl _ => None end.
Definition drawn_at (r : (string + PollResult) * PerimCache) : option (list (string * option float64)) :=
  match r.1 with inr r => Some ((fun e => (Id e, lat <$> centroid_of (geometry e))) <$> Events r) | inl _ => None end.

(** Two fires of one name both take the one perimeter that bears it: the second is
    300 miles out of scope, and the perimeter of the first pulls it in. *)
Theorem one_perimeter_two_fires :
  drawn_at (poll nothing "creeks" "one") = Some [("calfire:u1", Some (of_Z 38)); ("calfire:u2", Some (of_Z 38))].
Proof. vm_compute. reflexivity. Qed.

(** When one of three perimeters of a name is gone, the ids of the other two pass
    to each other's fire. *)
Theorem three_to_two_shift :
  drawn_at (poll nothing "" "three")
  = Some [("firis:creek", Some (of_Z 38)); ("firis:creek-2", Some (of_Z 39)); ("firis:creek-3", Some (of_Z 39))]
  /\ drawn_at (poll (stored (poll nothing "" "three")) "" "two")
     = Some [("firis:creek", Some (of_Z 39)); ("firis:creek-2", Some (of_Z 39))].
Proof. vm_compute. split; reflexivity. Qed.

Example adopted : ids (poll (stored (poll nothing "" "one")) "creek" "one") = Some ["calfire:u1"].
Proof. vm_compute. reflexivity. Qed.

Lemma dedupe_order_witness :
  let rows := Firis.perimeter_of <$> [flight "CREEK" "n1" "A"; flight "DOVE" "n2" "B"; flight "CREEK" "" "A"] in
  dedupePerimeters rows ≡ₚ dedupePerimeters (reverse rows).
Proof.
  apply dedupe_order; [symmetry; apply reverse_Permutation|]. unfold told_apart.
  match goal with |- context [omap candidate ?l] => let v := eval vm_compute in (omap candidate l) in
    assert (omap candidate l = v) as -> by (vm_compute; reflexivity) end.
  split; [repeat constructor|]. intros a b Ha Hb _. set_unfold in Ha. set_unfold in Hb.
  destruct Ha as [->|[->|[->|[]]]], Hb as [->|[->|[->|[]]]]; first [by left|by right; left; vm_compute|by right; right; vm_compute].
Defined.

Abbreviation adopting := (poll (stored (poll nothing "" "one")) "creek" "one").

(** The result of a poll that succeeds. *)
Definition with_result (r : (string + PollResult) * PerimCache) (P : PollResult -> Prop) : Prop :=
  match r.1 with inr r => P r | inl _ => False end.
Definition ok (r : (string + PollResult) * PerimCache) : bool := match r.1 with inr _ => true | inl _ => false end.

Lemma with_result_intro r P : ok r = true -> (forall x, r.1 = inr x -> P x) -> with_result r P.
Proof. unfold ok, with_result. destruct r.1; [done|]. auto. Qed.

Lemma superseded_replaced_witness : with_result adopting (fun r => "firis:creek" ∉ Id <$> Events r).
Proof.
  apply with_result_intro; [vm_compute; reflexivity|]. intros r Hr.
  assert (Hs : (match adopting.1 with inr r => Superseded r | inl _ => [] end) = ["firis:creek"]) by (vm_compute; reflexivity).
  apply (superseded_replaced _ _ _ _ _ _ _ _ _ _ "firis:creek" Hr). rewrite Hr in Hs. rewrite Hs. left.
Defined.

Lemma fire_ids_witness : with_result (poll nothing "creeks" "three") (fun r => NoDup (Id <$> Events r)).
Proof.
  apply with_result_intro; [vm_compute; reflexivity|]. intros r Hr. apply (fire_ids _ _ _ _ _ _ _ _ _ _ Hr).
  change (NoDup ["calfire:u1"; "calfire:u2"]). repeat constructor; set_solver.
Defined.

Lemma perimeter_of_the_fire_witness :
  with_result adopting (fun r => exists ev c, ev ∈ Events r /\ geometry ev = Some (geom c) /\ norm c = "creek").
Proof.
  apply with_result_intro; [vm_compute; reflexivity|]. intros r Hr.
  assert (Hs : (match adopting.1 with inr r => (fun e => (Id e, has_perimeter <$> GetWildfire e)) <$> Events r | inl _ => [] end)
    = [("calfire:u1", Some true)]) by (vm_compute; reflexivity).
  rewrite Hr in Hs. destruct (Events r) as [|ev [|]] eqn:He; [discriminate Hs| |discriminate Hs].
  injection Hs as Hid Hp. destruct (GetWildfire ev) as [d|] eqn:Hd; [|discriminate Hp]. injection Hp as Hp.
  assert (Hev : ev ∈ Events r) by (rewrite He; left).
  destruct (perimeter_of_the_fire _ _ _ _ _ _ _ _ _ _ ev d Hr Hev Hd Hp) as (scope & Hscope & [(c & Hc & Hg & _)|(Hu & _)]).
  - exists ev, c. rewrite <-He. split; [exact Hev|]. split; [exact Hg|].
    injection Hscope as <-. apply (list_elem_of_fmap_2 norm) in Hc.
    match type of Hc with _ ∈ ?l => assert (l = ["creek"]) as Hl by (vm_compute; reflexivity) end.
    rewrite Hl in Hc. by apply list_elem_of_singleton in Hc.
  - exfalso. injection Hscope as <-. revert Hu. vm_compute. discriminate.
Defined.

End WildfireDemo.

End WildfireSpec.
