(* ===== verification/Power.v ===== *)
(** * The power feed

    [internal/ingest/power.go] over [internal/clients/pge/client.go]: one poll
    turns PG&E's outages and shutoffs into events, as two sources that fail apart.
    What the servers answer is an argument; one reading of the clock stands for
    those of a poll. [encoding/json], the layouts of [time.Parse], [crypto/sha256]
    and the text of times and durations are classes. The log is left out. *)

From Stdlib Require Import Ascii.
From stdpp Require Import pretty.
From S2P Require Import Prelude Float64 Geojson GridEvent GoText Scheduler Severity Feeds.

(** ** The client *)

Module Pge.
Import F64 Text Feeds.

Definition maxBody : Z := Z.shiftl 16 20.
Definition OutageMapURL : string := "https://pgealerts.alerts.pge.com/outage-tools/outage-map/".
Definition PSPSUpdatesURL : string := "https://pgealerts.alerts.pge.com/psps-updates/".

Record Outage := mkOutage {
  ID : string; Cause : string; CrewStatus : string; CustomersAffected : Z; Start : Time; LastUpdate : Time;
  EstimatedRestoration : Time; HasPolygon : bool; GeometryType : string; GeometryCoords : string }.

Record PSPSArea := mkPSPSArea {
  EventID : string; EventName : string; TimePeriod : string; Stage : string; a_Customers : Z; MedicalBaseline : Z;
  DeEnergizationStart : Time; DeEnergizationEnd : Time; AllClear : Time; a_Restoration : Time; LastUpdated : Time;
  a_Type : string; a_Coords : string }.

Record geometryJSON := mkGeometryJSON { Type_ : string; Coordinates : string }.
Record outageFeature := mkOutageFeature {
  OutageID : string; f_Cause : string; f_CrewStatus : string; Customers : Z; f_Start : Z; f_LastUpdate : Z; ETOR : Z;
  f_Geometry : geometryJSON }.
Record pspsFeature := mkPspsFeature {
  p_EventID : string; p_EventName : string; p_TimePeriod : string; p_Stage : string; TotCustAff : string; TotMBLAff : string;
  DeEngStart : string; DeEngEnd : string; p_AllClear : string; p_ETOR : string; LstUpdated : string; p_Geometry : geometryJSON }.

(** A response's features, error envelope and truncation flags, at the top level
    and in the foreign members. *)
Record envelope (F : Type) := mkEnvelope { Features : list F; Error : option arcgisError; Exceeded : bool; PropertiesExceeded : bool }.
#[global] Arguments mkEnvelope {F}. #[global] Arguments Features {F}. #[global] Arguments Error {F}.
#[global] Arguments Exceeded {F}. #[global] Arguments PropertiesExceeded {F}.
Definition truncated {F} (r : envelope F) : bool := Exceeded r || PropertiesExceeded r.

(** The decoders of the three layers, the layouts of [time.RFC3339] and of the
    stamp, [json.Marshal] of raw messages and [strconv.Quote]. *)
Class PgeJson := {
  decode_outages : string -> string + envelope outageFeature;
  decode_psps : string -> string + envelope pspsFeature;
  decode_stamp : string -> string + envelope string;
  parse_rfc3339 : string -> option Time;
  parse_stamp : string -> string + Time;
  marshal_raws : list string -> option string;
  quote_text : string -> string }.

Definition plannedCauses : list string := ["plnnd"; "planned"; "sched"].
Definition Planned `{UnicodeLower} (o : Outage) : bool :=
  let c := ToLower (TrimSpace (Cause o)) in existsb (HasPrefix c) plannedCauses.

(** [strconv.ParseInt(s, 10, 32)] of a trimmed text, 0 when it fails. *)
Definition atoi32 (s : string) : Z :=
  let s := TrimSpace s in
  let '(neg, digits) :=
    match bytes s with
    | c :: r => if N.eqb (code c) 45 then (true, r) else if N.eqb (code c) 43 then (false, r) else (false, c :: r)
    | [] => (false, [])
    end in
  if negb (forallb (fun c => is_digit (code c)) digits) || Nat.eqb (length digits) 0 then 0
  else
    let n := foldl (fun n c => n * 10 + (Z.of_N (code c) - 48)) 0 digits in
    let n := if neg : bool then - n else n in
    if (n <? - 2 ^ 31) || (2 ^ 31 - 1 <? n) then 0 else n.

Section Client.
Context {UL : UnicodeLower} {JK : JsonKernel} {PJ : PgeJson}.

(** [fetch]: the shared failure rules. *)
Definition fetch {F} (decode : string -> string + envelope F) (table : bool) (reply : Response) : string + list F :=
  match reply with
  | NoReply err => inl ("failed to execute request: " +:+ err)
  | Reply status body =>
      if 400 <=? status then inl ("API error " +:+ pretty status +:+ ": " +:+ limit 4096 body)
      else match decode (limit maxBody body) with
           | inl e => inl ("failed to decode response: " +:+ e)
           | inr r =>
               match Error r with
               | Some e => inl ("ArcGIS error " +:+ pretty (Code e) +:+ ": " +:+ Message e)
               | None =>
                   if negb table && truncated r then
                     inl "response truncated by the server's maxRecordCount (exceededTransferLimit); refusing to treat a partial set as complete"
                   else inr (Features r)
               end
           end
  end.

(** *** Geometry *)

Definition geometry_parts (g : geometryJSON) : list string :=
  if String.eqb (Coordinates g) "" then []
  else if String.eqb (Type_ g) "Polygon" then [Coordinates g]
  else if String.eqb (Type_ g) "MultiPolygon" then default [] (unmarshal_raws (Coordinates g))
  else [].

Definition combineGeometry (group : list geometryJSON) : option (string * string) :=
  match group ≫= geometry_parts with
  | [] => None
  | [p] => Some ("Polygon", p)
  | parts => coords ← marshal_raws (sort_strings parts); Some ("MultiPolygon", coords)
  end.

Definition CombineAreaGeometry (areas : list PSPSArea) : option (string * string) :=
  combineGeometry ((fun a => mkGeometryJSON (a_Type a) (a_Coords a)) <$> areas).

(** *** Outages *)

Definition id_of (f : outageFeature) : string := TrimSpace (OutageID f).

Definition outageFromFeature (f : outageFeature) : Outage :=
  mkOutage (id_of f) (TrimSpace (f_Cause f)) (TrimSpace (f_CrewStatus f)) (Customers f) (msToTime (f_Start f))
    (msToTime (f_LastUpdate f)) (msToTime (ETOR f)) false (Type_ (f_Geometry f)) (Coordinates (f_Geometry f)).

Definition with_polygon (o : Outage) (group : list outageFeature) : Outage :=
  match combineGeometry (f_Geometry <$> group) with
  | Some (t, coords) =>
      mkOutage (ID o) (Cause o) (CrewStatus o) (CustomersAffected o) (Start o) (LastUpdate o) (EstimatedRestoration o) true t coords
  | None => o
  end.

(** The polygon rows by id, in the order the ids are first seen. *)
Definition by_id (polys : list outageFeature) : list (string * list outageFeature) :=
  foldl (fun g f => if String.eqb (id_of f) "" then g else add_group (id_of f) f g) [] polys.
Definition group_of (id : string) (groups : list (string * list outageFeature)) : option (list outageFeature) :=
  snd <$> head (filter (fun g => g.1 = id) groups).

Definition point_outage (groups : list (string * list outageFeature)) (f : outageFeature) : Outage :=
  let o := outageFromFeature f in
  match group_of (ID o) groups with Some group => with_polygon o group | None => o end.

(** The outages of the point rows, and the ids seen. *)
Definition add_point (groups : list (string * list outageFeature)) (st : list Outage * list string) (f : outageFeature)
    : list Outage * list string :=
  let id := id_of f in
  if String.eqb id "" || bool_decide (id ∈ st.2) then st else (st.1 ++ [point_outage groups f], st.2 ++ [id]).

Definition coords_less (a b : outageFeature) : bool := str_ltb (Coordinates (f_Geometry a)) (Coordinates (f_Geometry b)).
Definition polygon_outage (group : list outageFeature) : option Outage :=
  let group := SliceStable coords_less group in
  f ← head group; Some (with_polygon (outageFromFeature f) group).

Definition all_unnamed (l : list outageFeature) : bool :=
  negb (Nat.eqb (length l) 0) && forallb (fun f => String.eqb (id_of f) "") l.

Definition join_layers (points polys : list outageFeature) : list Outage :=
  let groups := by_id polys in
  let '(out, seen) := foldl (add_point groups) ([], []) points in
  out ++ omap (fun g => if bool_decide (g.1 ∈ seen) then None else polygon_outage g.2) groups.

Definition errSchema (layer : string) (n : nat) : string :=
  "PG&E outage " +:+ layer +:+ ": all " +:+ pretty n +:+ " row(s) lack an OUTAGE_ID — the feed schema has probably changed".

(** The outages, and whether the polygon layer was blank ([ErrPolygonLayerBlank]). *)
Definition GetOutages (pointsReply polysReply : Response) : string + list Outage * bool :=
  match fetch decode_outages false pointsReply with
  | inl e => inl ("PG&E outage points: " +:+ e)
  | inr points =>
      match fetch decode_outages false polysReply with
      | inl e => inl ("PG&E outage polygons: " +:+ e)
      | inr polys =>
          if all_unnamed points then inl (errSchema "points" (length points))
          else if all_unnamed polys then inl (errSchema "polygons" (length polys))
          else inr (join_layers points polys, Nat.eqb (length polys) 0 && negb (Nat.eqb (length points) 0))
      end
  end.
Definition ErrPolygonLayerBlank : string := "PG&E outage polygon layer returned no rows while the point layer had outages".

(** *** Shutoffs and the stamp *)

Definition parseISO (s : string) : Time :=
  let s := TrimSpace s in if String.eqb s "" then time_zero else default time_zero (parse_rfc3339 s).

Definition area_of (f : pspsFeature) : PSPSArea :=
  mkPSPSArea (TrimSpace (p_EventID f)) (TrimSpace (p_EventName f)) (TrimSpace (p_TimePeriod f)) (TrimSpace (p_Stage f))
    (atoi32 (TotCustAff f)) (atoi32 (TotMBLAff f)) (parseISO (DeEngStart f)) (parseISO (DeEngEnd f)) (parseISO (p_AllClear f))
    (parseISO (p_ETOR f)) (parseISO (LstUpdated f)) (Type_ (p_Geometry f)) (Coordinates (p_Geometry f)).

Definition GetPSPSAreas (reply : Response) : string + list PSPSArea :=
  match fetch decode_psps false reply with
  | inl e => inl ("PG&E PSPS coverage: " +:+ e)
  | inr fs => inr (area_of <$> fs)
  end.

(** The newest stamp that parses, and its text. *)
Definition newer_stamp (st : Time * string) (row : string) : Time * string :=
  let s := TrimSpace row in
  match parse_stamp s with
  | inl _ => st
  | inr ts => if time_after ts st.1 then (ts, s) else st
  end.
Definition GetOutagesLastUpdate (reply : Response) : string + Time :=
  match fetch decode_stamp true reply with
  | inl e => inl ("PG&E outage stamp: " +:+ e)
  | inr [] => inl "PG&E outage stamp: no rows returned"
  | inr (row :: rows) =>
      let '(_, raw) := foldl newer_stamp (time_zero, "") (row :: rows) in
      let raw := if String.eqb raw "" then TrimSpace row else raw in
      match parse_stamp raw with
      | inl e => inl ("PG&E outage stamp: unparseable timestamp " +:+ quote_text raw +:+ ": " +:+ e)
      | inr ts => inr ts
      end
  end.

End Client.
End Pge.

(** ** The normalizer *)

Module Power.
Import F64 Grid Text Severity Feeds.
Import Scheduler (Prior, ByID, PollResult).
Import Pge (Outage, PSPSArea, PgeJson, EventID, EventName, TimePeriod, Stage, DeEnergizationStart, HasPolygon).

Definition powerSourceOutages : string := "pge".
Definition powerSourcePSPS : string := "psps".
Definition SourceIDs : list string := [powerSourceOutages; powerSourcePSPS].
Definition pgeSourceName : string := "PG&E".
Definition pspsSourceName : string := "PG&E PSPS".
Definition pgeAttribution : string := "Pacific Gas and Electric".
Definition powerCatUnplanned : string := "unplanned".
Definition powerCatPlanned : string := "planned".
Definition powerCatPSPS : string := "psps".

Definition DefaultPowerOutageStaleAfter : Duration := hour.
Definition OutageStale (OutageStaleAfter : Duration) : Duration :=
  if negb (OutageStaleAfter =? 0) then OutageStaleAfter else DefaultPowerOutageStaleAfter.

(** The text of a stamp, of an age rounded to minutes, of a duration and of a time. *)
Class PowerText := {
  rfc3339_text : Time -> string; age_text : Duration -> string; duration_text : Duration -> string; time_text : Time -> string }.

(** *** Headlines *)

Definition customersPhrase (n : Z) : string :=
  if n <=? 0 then "customer count not reported"
  else if n =? 1 then "1 customer"
  else commaNum (of_Z n) +:+ " customers".

Definition powerCauses : list (string * string) :=
  [("PLNND SHUTDOWN", "planned shutdown"); ("PATROLLING", "crew patrolling the line");
   ("AWAITING INVESTIGATION", "cause under investigation"); ("REPLCE TXFMR", "transformer replacement");
   ("EMERG REPAIRS", "emergency repairs"); ("THRD PARTY", "third-party damage"); ("LGHTNING", "lightning");
   ("REPAIR WIRE DWN", "downed wire"); ("BRKN POLE", "broken pole"); ("BRKN POLE EQUIPMNT", "broken pole equipment");
   ("BRKN UG EQUIPMNT", "broken underground equipment"); ("DAMGE UG CABLE", "damaged underground cable");
   ("CAR POLE", "vehicle struck a pole"); ("FOREIGN OBJ", "foreign object on the line"); ("TREE CONTACT", "tree contact");
   ("FIRE", "fire"); ("WEATHER", "weather"); ("ANIMAL", "animal contact"); ("VEHICLE", "vehicle accident");
   ("EQUIPMENT", "equipment failure"); ("NO ACCESS", "crew unable to access")].

(** *** Groups of shutoff rows *)

Definition severityRank (label : string) : Z := Severity_number (SeverityFromLabel label).

Definition area_less (a b : PSPSArea) : bool :=
  if negb (DeEnergizationStart a =? DeEnergizationStart b) then time_before (DeEnergizationStart a) (DeEnergizationStart b)
  else str_ltb (Pge.a_Coords a) (Pge.a_Coords b).

Definition set_stage (s : string) (a : PSPSArea) : PSPSArea :=
  Pge.mkPSPSArea (EventID a) (EventName a) (TimePeriod a) s (Pge.a_Customers a) (Pge.MedicalBaseline a)
    (DeEnergizationStart a) (Pge.DeEnergizationEnd a) (Pge.AllClear a) (Pge.a_Restoration a) (Pge.LastUpdated a)
    (Pge.a_Type a) (Pge.a_Coords a).
Definition no_area : PSPSArea := Pge.mkPSPSArea "" "" "" "" 0 0 0 0 0 0 0 "" "".

Definition pspsStatus (a : PSPSArea) (now : Time) : EventStatus :=
  if negb (time_is_zero (DeEnergizationStart a)) && time_after (DeEnergizationStart a) now then SCHEDULED else ACTIVE.

Section Poll.
Context {UL : UnicodeLower} {UU : UnicodeUpper} {JK : JsonKernel} {GT : GeoText} {SH : Sha256} {PJ : PgeJson} {PT : PowerText}.

Definition humanPowerCause (c : string) : string :=
  let c := TrimSpace c in
  if String.eqb c "" then ""
  else match head (filter (fun p : string * string => p.1 = ToUpper c) powerCauses) with
       | Some p => p.2
       | None => ToLower c
       end.

Definition powerOutageHeadline (o : Outage) (planned : bool) : string :=
  let head_ := (if planned then "Planned outage" else "Power outage") +:+ " — " +:+ customersPhrase (Pge.CustomersAffected o) in
  let c := humanPowerCause (Pge.Cause o) in
  if negb (String.eqb c "") && negb planned then head_ +:+ " (" +:+ c +:+ ")" else head_.

Definition pspsHeadline (a : PSPSArea) : string :=
  let stage := TrimSpace (Stage a) in
  let stage := if String.eqb stage "" then "Notice" else stage in
  let head_ := "PSPS " +:+ stage +:+ " — " +:+ customersPhrase (Pge.a_Customers a) in
  if 0 <? Pge.MedicalBaseline a then head_ +:+ ", " +:+ commaNum (of_Z (Pge.MedicalBaseline a)) +:+ " medical baseline" else head_.

(** *** Geometry *)

(** [attachGeometry]: the geometry, or the places of every configured area. *)
Definition attachGeometry (areas : list HazardArea) (geomType coords : string) : option Geometry * list string :=
  match (if negb (String.eqb geomType "") && negb (String.eqb coords "") then geometryFromTyped geomType coords else None) with
  | Some g => (Some g, [])
  | None => (None, (fun a => "area:" +:+ ha_ID a) <$> areas)
  end.

Definition priorFootprint (prior : Prior) (id : string) : option Geometry :=
  prev ← ByID prior id;
  g ← geometry prev;
  if String.eqb (g_geojson g) "" then None
  else
    '(t, _) ← unmarshal_env (g_geojson g);
    if String.eqb t "Polygon" || String.eqb t "MultiPolygon" then Some g else None.

Definition attachOutageGeometry (areas : list HazardArea) (prior : Prior) (polygonLayerBlank : bool) (id : string) (o : Outage)
    : option Geometry * list string :=
  match (if negb (HasPolygon o) && polygonLayerBlank then priorFootprint prior id else None) with
  | Some prev => (Some prev, [])
  | None => attachGeometry areas (Pge.GeometryType o) (Pge.GeometryCoords o)
  end.

(** *** Events *)

Definition buildOutageEvent (areas : list HazardArea) (now : Time) (prior : Prior) (polygonLayerBlank : bool) (o : Outage) : Event :=
  let planned := Pge.Planned o in
  let id := "pge:" +:+ Pge.ID o in
  let '(g, places) := attachOutageGeometry areas prior polygonLayerBlank id o in
  mkEvent id POWER (if planned then powerCatPlanned else powerCatUnplanned)
    (SeverityFromLabel (fromPowerOutage (Pge.CustomersAffected o) planned)) ACTIVE (powerOutageHeadline o planned)
    "" "" "" Pge.OutageMapURL g places
    (Some (NewProvenance powerSourceOutages pgeSourceName pgeAttribution Pge.OutageMapURL now))
    (tsProto (Pge.Start o)) None (if time_is_zero (Pge.LastUpdate o) then tsProto (Pge.Start o) else tsProto (Pge.LastUpdate o))
    None 0 None
    (Some (D_Power (mkPowerDetail (Pge.ID o) (Pge.Cause o) (Pge.CustomersAffected o) (Pge.CrewStatus o)
       (tsProto (Pge.EstimatedRestoration o)) "" "" "" "" 0 None None None))).

Definition PSPSGroupKey (a : PSPSArea) : string :=
  let event := nonEmpty [EventID a; EventName a] in
  if negb (String.eqb event "") && negb (String.eqb (TimePeriod a) "") then event +:+ ":" +:+ TimePeriod a
  else if negb (String.eqb event "") then event
  else if negb (String.eqb (TimePeriod a) "") then TimePeriod a
  else "window-" +:+ String.substring 0 8 (sha256 (time_text (DeEnergizationStart a))).

Definition escalate (rep a : PSPSArea) : PSPSArea :=
  if severityRank (fromPSPSStage (Stage rep)) <? severityRank (fromPSPSStage (Stage a)) then set_stage (Stage a) rep else rep.
Definition PSPSRepresentative (group : list PSPSArea) : PSPSArea :=
  match SliceStable area_less group with [] => no_area | rep :: l => foldl escalate rep l end.

Definition buildPSPSEvent (areas : list HazardArea) (now : Time) (key : string) (group : list PSPSArea) : Event :=
  let a := PSPSRepresentative group in
  let '(g, places) :=
    match Pge.CombineAreaGeometry group with
    | Some (t, coords) => attachGeometry areas t coords
    | None => attachGeometry areas "" ""
    end in
  mkEvent ("psps:" +:+ key) POWER powerCatPSPS (SeverityFromLabel (fromPSPSStage (Stage a))) (pspsStatus a now) (pspsHeadline a)
    "" "" "" Pge.PSPSUpdatesURL g places
    (Some (NewProvenance powerSourcePSPS pspsSourceName pgeAttribution Pge.PSPSUpdatesURL now))
    (tsProto (DeEnergizationStart a)) None (tsProto (Pge.LastUpdated a)) None 0 None
    (Some (D_Power (mkPowerDetail "" "" (Pge.a_Customers a) "" (tsProto (Pge.a_Restoration a)) (EventID a) (EventName a)
       (TimePeriod a) (Stage a) (Pge.MedicalBaseline a) (tsProto (DeEnergizationStart a)) (tsProto (Pge.DeEnergizationEnd a))
       (tsProto (Pge.AllClear a))))).

Definition buildPSPSEvents (areas : list HazardArea) (now : Time) (rows : list PSPSArea) : list Event :=
  (fun g => buildPSPSEvent areas now g.1 g.2) <$> foldl (fun g a => add_group (PSPSGroupKey a) a g) [] rows.

(** *** The poll *)

Definition freshnessError (OutageStaleAfter : Duration) (now : Time) (stampReply : Response) : option string :=
  let maxAge := OutageStale OutageStaleAfter in
  if maxAge <=? 0 then None
  else match Pge.GetOutagesLastUpdate stampReply with
       | inl _ => None
       | inr stamp =>
           let age := time_sub now stamp in
           if maxAge <? age then
             Some ("PG&E outage feed is frozen: upstream ETL stamp " +:+ rfc3339_text stamp +:+ " is " +:+ age_text age
                   +:+ " old (max " +:+ duration_text maxAge +:+ ")")
           else None
       end.

(** What the four queries answer, the first two and the last in a box. *)
Record Replies := mkReplies { points : Response; polygons : Response; stamp : Response; coverage : Response }.

Definition errBothPGE (oerr perr : string) : string := "ingest: both PG&E feeds failed: outages: " +:+ oerr +:+ "; psps: " +:+ perr.

(** The health of the outage source and its events. *)
Definition outage_side (areas : list HazardArea) (OutageStaleAfter : Duration) (now : Time) (prior : Prior) (r : Replies)
    : option string * list Event :=
  match Pge.GetOutages (points r) (polygons r) with
  | inl e => (Some e, [])
  | inr (outages, blank) =>
      (match freshnessError OutageStaleAfter now (stamp r) with
       | Some e => Some e
       | None => if blank then Some Pge.ErrPolygonLayerBlank else None
       end,
       buildOutageEvent areas now prior blank <$> outages)
  end.

Definition psps_side (areas : list HazardArea) (now : Time) (r : Replies) : option string * list Event :=
  match Pge.GetPSPSAreas (coverage r) with
  | inl e => (Some e, [])
  | inr rows => (None, buildPSPSEvents areas now rows)
  end.

Definition power_sources (oerr perr : option string) : gmap string string :=
  let m := match oerr with Some e => <[powerSourceOutages := e]> ∅ | None => ∅ end in
  match perr with Some e => <[powerSourcePSPS := e]> m | None => m end.

Definition Poll (areas : list HazardArea) (OutageStaleAfter : Duration) (now : Time) (prior : Prior)
    (server : float64 * float64 * float64 * float64 -> Replies) : string + PollResult :=
  match unionBounds areas with
  | None => inl (errEmptyScope "hazard areas")
  | Some box =>
      let r := server box in
      let '(oerr, outages) := outage_side areas OutageStaleAfter now prior r in
      let '(perr, shutoffs) := psps_side areas now r in
      match Pge.GetOutages (points r) (polygons r), perr with
      | inl oe, Some pe => inl (errBothPGE oe pe)
      | _, _ => inr (poll_result (outages ++ shutoffs) (power_sources oerr perr) [])
      end
  end.

End Poll.

End Power.
