(* ===== verification/PowerSpec.v ===== *)
(** * What the power feed promises

    Every outage and shutoff PG&E lists has its event; a source is reported healthy
    only when its answer is the whole current set; a blank polygon layer changes
    no footprint; a shutoff is never summarised as less urgent than its worst
    row; the order of the rows does not show. *)

From Stdlib Require Import Ascii.
From stdpp Require Import pretty.
From S2P Require Import Prelude Float64 Geojson GridEvent GoText Scheduler Severity Feeds Power.

Module PowerSpec.
Import F64 Grid Text Severity Feeds Power.
Import Scheduler (Prior, mkPrior, ByID, PollResult, Events, PerSource).
Import Pge (Outage, PSPSArea, outageFeature, PgeJson, Stage, DeEnergizationStart, HasPolygon, id_of, by_id, fetch).

Section Client.
Context {UL : UnicodeLower} {JK : JsonKernel} {PJ : PgeJson}.

(** The server answered a query in full: no transport error, no error status, a
    body that decodes, no error envelope, not truncated. *)
Definition answered {F} (decode : string -> string + Pge.envelope F) (reply : Response) (l : list F) : Prop :=
  exists status body r, reply = Reply status body /\ status < 400 /\ decode (limit Pge.maxBody body) = inr r
    /\ Pge.Error r = None /\ Pge.truncated r = false /\ l = Pge.Features r.

Lemma fetch_answered {F} (decode : string -> string + Pge.envelope F) reply l :
  fetch decode false reply = inr l -> answered decode reply l.
Proof.
  unfold fetch. destruct reply as [|status body]; [done|]. destruct (Z.leb_spec 400 status); [done|].
  destruct (decode _) as [|r] eqn:Hd; [done|]. destruct (Pge.Error r) eqn:He; [done|]. cbn.
  destruct (Pge.truncated r) eqn:Ht; [done|]. intros [= <-]. by exists status, body, r.
Qed.

(** ** The polygon rows of an id *)

Definition has_id (f : outageFeature) : Prop := id_of f <> "".
#[local] Instance has_id_dec f : Decision (has_id f).
Proof. unfold has_id. apply _. Defined.

Lemma by_id_grouped polys : by_id polys = grouped id_of (filter has_id polys).
Proof.
  unfold by_id, grouped. generalize (@nil (string * list outageFeature)) as g. induction polys as [|f l IH]; intros g; [done|].
  cbn [foldl]. rewrite filter_cons. unfold has_id at 1. destruct (String.eqb_spec (id_of f) "") as [He|Hne].
  - rewrite decide_False by (by intros []). apply IH.
  - rewrite decide_True by done. apply IH.
Qed.

Definition rows_of_id (id : string) (polys : list outageFeature) : list outageFeature := keyed id_of id (filter has_id polys).

Lemma by_id_spec polys :
  NoDup ((by_id polys).*1) /\ (forall id, id ∈ (by_id polys).*1 <-> exists f, f ∈ polys /\ id_of f = id /\ id <> "")
  /\ forall id l, (id, l) ∈ by_id polys -> l = rows_of_id id polys.
Proof.
  rewrite by_id_grouped. destruct (grouped_spec id_of (filter has_id polys)) as (H1 & H2 & H3). split_and!; [done| |].
  - intros id. rewrite H2. split.
    + intros (f & [Hf Hin]%list_elem_of_filter & <-). by exists f.
    + intros (f & Hf & <- & Hne). exists f. split; [|done]. by apply list_elem_of_filter.
  - intros id l Hin. rewrite Forall_forall in H3. by apply H3 in Hin.
Qed.

Lemma group_of_spec id polys :
  Pge.group_of id (by_id polys) = if bool_decide (id ∈ (by_id polys).*1) then Some (rows_of_id id polys) else None.
Proof.
  unfold Pge.group_of. destruct (by_id_spec polys) as (_ & _ & Hg). case_bool_decide as Hin.
  - destruct (filter (fun g => g.1 = id) (by_id polys)) as [|[j l] r] eqn:E; cbn.
    + exfalso. apply list_elem_of_fmap in Hin as (x & -> & Hx).
      assert (x ∈ filter (fun g : string * list outageFeature => g.1 = x.1) (by_id polys)) as H by by apply list_elem_of_filter.
      rewrite E in H. by apply not_elem_of_nil in H.
    + assert ((j, l) ∈ filter (fun g : string * list outageFeature => g.1 = id) (by_id polys)) as [Hj Hl]%list_elem_of_filter by (rewrite E; left).
      cbn in Hj. subst j. by rewrite (Hg _ _ Hl).
  - rewrite filter_none; [done|]. intros x Hx <-. apply Hin, list_elem_of_fmap. by exists x.
Qed.

(** ** Ids of the outages *)

Lemma with_polygon_ID o group : Pge.ID (Pge.with_polygon o group) = Pge.ID o.
Proof. unfold Pge.with_polygon. by destruct (Pge.combineGeometry _) as [[]|]. Qed.

Lemma point_outage_ID groups f : Pge.ID (Pge.point_outage groups f) = id_of f.
Proof. unfold Pge.point_outage. destruct (Pge.group_of _ _); [apply with_polygon_ID|done]. Qed.

Lemma polygon_outage_ID polys id l :
  (id, l) ∈ by_id polys -> exists o, Pge.polygon_outage l = Some o /\ Pge.ID o = id.
Proof.
  intros Hin. destruct (by_id_spec polys) as (_ & Hkeys & Hg). apply Hg in Hin as Hl.
  assert (id ∈ (by_id polys).*1) as (f & Hf & Hid & Hne)%Hkeys by (apply list_elem_of_fmap; by exists (id, l)).
  unfold Pge.polygon_outage. destruct (SliceStable Pge.coords_less l) as [|x r] eqn:E.
  - exfalso. assert (f ∈ SliceStable Pge.coords_less l) as H.
    { rewrite SliceStable_perm, Hl. unfold rows_of_id, keyed. rewrite !list_elem_of_filter. unfold has_id. by rewrite Hid. }
    rewrite E in H. by apply not_elem_of_nil in H.
  - cbn. eexists. split; [done|]. rewrite with_polygon_ID. cbn.
    assert (x ∈ SliceStable Pge.coords_less l) as Hx by (rewrite E; left). rewrite SliceStable_perm, Hl in Hx.
    unfold rows_of_id, keyed in Hx. by apply list_elem_of_filter in Hx as [? _].
Qed.

Lemma add_points_spec groups points :
  let st := foldl (Pge.add_point groups) ([], []) points in
  Pge.ID <$> st.1 = st.2 /\ NoDup st.2 /\ forall id, id ∈ st.2 <-> exists f, f ∈ points /\ id_of f = id /\ id <> "".
Proof.
  cbn zeta. induction points as [|f l (H1 & H2 & H3)] using rev_ind; [split_and!; [done|constructor|set_solver]|].
  rewrite foldl_snoc. set (st := foldl (Pge.add_point groups) ([], []) l) in *. clearbody st. unfold Pge.add_point at 1 2 3 4.
  destruct (String.eqb_spec (id_of f) "") as [He|Hne]; cbn [orb].
  - split_and!; [done..|]. intros id. rewrite H3. split; intros (x & Hx & Hid & Hn); exists x; split_and!; try done; [set_solver|].
    apply elem_of_app in Hx as [?| ->%list_elem_of_singleton]; [done|congruence].
  - case_bool_decide as Hin.
    + split_and!; [done..|]. intros id. rewrite H3. split; intros (x & Hx & Hid & Hn); [exists x; set_solver|].
      apply elem_of_app in Hx as [?| ->%list_elem_of_singleton]; [by exists x|]. apply H3. by rewrite <-Hid.
    + cbn [fst snd]. rewrite fmap_app, H1. cbn. rewrite point_outage_ID. split_and!; [done| |].
      * apply NoDup_app. split_and!; [done| |apply NoDup_singleton]. intros x Hx ->%list_elem_of_singleton. done.
      * intros id. rewrite elem_of_app, H3, list_elem_of_singleton. split.
        -- intros [(x & ? & ? & ?)| ->]; [exists x|exists f]; set_solver.
        -- intros (x & [Hx| ->%list_elem_of_singleton]%elem_of_app & <- & Hn); [left; by exists x|by right].
Qed.

(** The outages of the polygon rows no point row has the id of. *)
Lemma polygon_only polys (seen : list string) :
  let l := omap (fun g => if bool_decide (g.1 ∈ seen) then None else Pge.polygon_outage g.2) (by_id polys) in
  NoDup (Pge.ID <$> l)
  /\ forall id, id ∈ Pge.ID <$> l <-> (exists f, f ∈ polys /\ id_of f = id /\ id <> "") /\ id ∉ seen.
Proof.
  cbn zeta. destruct (by_id_spec polys) as (Hnd & Hkeys & _).
  assert (Hids : Pge.ID <$> omap (fun g => if bool_decide (g.1 ∈ seen) then None else Pge.polygon_outage g.2) (by_id polys)
                 = filter (fun id => id ∉ seen) ((by_id polys).*1)).
  { assert (Hsub : forall g, g ∈ by_id polys -> exists o, Pge.polygon_outage g.2 = Some o /\ Pge.ID o = g.1).
    { intros [id l] Hin. by eapply polygon_outage_ID. }
    clear Hnd Hkeys. induction (by_id polys) as [|[id l] gs IH]; [done|]. cbn [omap list_omap]. rewrite fmap_cons. cbn [fst snd].
    rewrite filter_cons. destruct (Hsub (id, l) ltac:(left)) as (o & Ho & Hid). cbn in Ho, Hid. case_bool_decide as Hs.
    - rewrite decide_False by (by intros []). apply IH. intros g Hg. apply Hsub. by right.
    - rewrite decide_True by done. rewrite Ho. cbn. rewrite Hid. f_equal. apply IH. intros g Hg. apply Hsub. by right. }
  rewrite Hids. split; [by apply NoDup_filter|]. intros id. rewrite list_elem_of_filter, Hkeys. tauto.
Qed.

(** The outages of both layers: one for each id of a row. *)
Lemma join_spec points polys :
  NoDup (Pge.ID <$> Pge.join_layers points polys)
  /\ forall id, id ∈ Pge.ID <$> Pge.join_layers points polys <-> id <> "" /\ exists f, f ∈ points ++ polys /\ id_of f = id.
Proof.
  unfold Pge.join_layers. destruct (add_points_spec (by_id polys) points) as (H1 & H2 & H3).
  destruct (foldl (Pge.add_point (by_id polys)) ([], []) points) as [out seen]. cbn [fst snd] in *.
  destruct (polygon_only polys seen) as (Q1 & Q2). rewrite fmap_app, H1. split_and!.
  - apply NoDup_app. split_and!; [done| |done]. intros id Hs Hid. by apply Q2 in Hid as [_ ?].
  - intros id. rewrite elem_of_app, Q2, H3. setoid_rewrite elem_of_app. split.
    + intros [(f & ? & ? & ?)|((f & ? & ? & ?) & _)]; split; try done; exists f; tauto.
    + intros (Hne & f & [Hf|Hf] & Hid); subst id; [left; by exists f|]. destruct (decide (id_of f ∈ seen)) as [Hs|Hs]; [left; by apply (proj1 (H3 _)) in Hs|].
      right. split; [by exists f|by rewrite <-H3].
Qed.

(** The outages are the whole answer of both layers. When [GetOutages] succeeds,
    both queries were answered in full; each id that a row of either layer has
    is one outage's, and no other is; and rows without an id were not all a
    layer had. *)
Theorem outages_complete pointsReply polysReply outages blank :
  Pge.GetOutages pointsReply polysReply = inr (outages, blank) ->
  exists points polys,
    answered Pge.decode_outages pointsReply points /\ answered Pge.decode_outages polysReply polys
    /\ NoDup (Pge.ID <$> outages)
    /\ (forall id, id ∈ Pge.ID <$> outages <-> id <> "" /\ exists f, f ∈ points ++ polys /\ id_of f = id)
    /\ (points <> [] -> exists f, f ∈ points /\ id_of f <> "") /\ (polys <> [] -> exists f, f ∈ polys /\ id_of f <> "")
    /\ (blank = true <-> polys = [] /\ points <> []).
Proof.
  unfold Pge.GetOutages. destruct (fetch _ _ pointsReply) as [|points] eqn:Hp; [done|].
  destruct (fetch _ _ polysReply) as [|polys] eqn:Hq; [done|].
  destruct (Pge.all_unnamed points) eqn:Up; [done|]. destruct (Pge.all_unnamed polys) eqn:Uq; [done|]. intros [= <- <-].
  exists points, polys. split; [by apply fetch_answered|]. split; [by apply fetch_answered|].
  assert (Hnamed : forall l, Pge.all_unnamed l = false -> l <> [] -> exists f, f ∈ l /\ id_of f <> "").
  { intros l Hl Hne. unfold Pge.all_unnamed in Hl. destruct l as [|x l]; [done|]. cbn [length Nat.eqb negb andb] in Hl.
    destruct (existsb (fun f => negb (String.eqb (id_of f) "")) (x :: l)) eqn:E.
    - apply existsb_exists in E as (f & Hf & Hid). exists f. rewrite list_elem_of_In. split; [done|]. intros He. by rewrite He in Hid.
    - assert (forallb (fun f => String.eqb (id_of f) "") (x :: l) = true) as Hall; [|congruence].
      apply forallb_forall. intros f Hf. destruct (String.eqb (id_of f) "") eqn:Ef; [done|]. rewrite <-E.
      apply existsb_exists. exists f. by rewrite Ef. }
  destruct (join_spec points polys) as [Hnd Hids]. split_and!; [done|done| | |].
  - by apply Hnamed.
  - by apply Hnamed.
  - destruct polys, points; cbn; split; intuition congruence.
Qed.

(** Without a polygon row no outage has a polygon. *)
Lemma blank_no_polygon pr qr os o : Pge.GetOutages pr qr = inr (os, true) -> o ∈ os -> HasPolygon o = false.
Proof.
  unfold Pge.GetOutages. destruct (fetch _ _ pr) as [|points]; [done|]. destruct (fetch _ _ qr) as [|polys]; [done|].
  destruct (Pge.all_unnamed points); [done|]. destruct (Pge.all_unnamed polys); [done|]. intros [= <- Hb]. destruct polys; [|done].
  assert (Hout : forall l st, Forall (fun o => HasPolygon o = false) st.1 ->
    Forall (fun o => HasPolygon o = false) (foldl (Pge.add_point []) st l).1).
  { induction l as [|f l IH]; intros st Hst; [done|]. cbn [foldl]. apply IH. unfold Pge.add_point.
    destruct (_ || _); [done|]. cbn. apply Forall_app. split; [done|]. by repeat constructor. }
  unfold Pge.join_layers. cbn [by_id foldl omap list_omap]. specialize (Hout points ([], []) ltac:(constructor)).
  destruct (foldl (Pge.add_point []) ([], []) points) as [out seen]. cbn [fst] in Hout. rewrite app_nil_r, Forall_forall in *. apply Hout.
Qed.

(** ** The order of the polygon rows *)

Lemma combine_perm g g' : g ≡ₚ g' -> Pge.combineGeometry g = Pge.combineGeometry g'.
Proof.
  intros Hp. unfold Pge.combineGeometry.
  assert (H : g ≫= Pge.geometry_parts ≡ₚ g' ≫= Pge.geometry_parts) by by rewrite Hp.
  set (l := g ≫= Pge.geometry_parts) in *. set (k := g' ≫= Pge.geometry_parts) in *. clearbody l k.
  assert (Hs : sort_strings l = sort_strings k).
  { symmetry. apply sort_strings_unique; [|apply sort_strings_sorted]. by rewrite sort_strings_perm. }
  apply Permutation_length in H as Hl.
  destruct l as [|x [|x' l]], k as [|y [|y' k]]; try done; [|by rewrite Hs].
  apply Permutation_singleton_r in H. by injection H as ->.
Qed.

Lemma with_polygon_perm o g g' : g ≡ₚ g' -> Pge.with_polygon o g = Pge.with_polygon o g'.
Proof. intros Hp. unfold Pge.with_polygon. rewrite (combine_perm (Pge.f_Geometry <$> g) (Pge.f_Geometry <$> g')); [done|by rewrite Hp]. Qed.

Lemma by_id_map polys : by_id polys = (fun id => (id, rows_of_id id polys)) <$> (by_id polys).*1.
Proof.
  destruct (by_id_spec polys) as (_ & _ & Hg). rewrite <-list_fmap_compose. rewrite <-(list_fmap_id (by_id polys)) at 1.
  apply list_fmap_ext. intros i [id l] Hi. apply list_elem_of_lookup_2, Hg in Hi as ->. done.
Qed.

Lemma polygon_only_keys polys (seen : list string) :
  omap (fun g => if bool_decide (g.1 ∈ seen) then None else Pge.polygon_outage g.2) (by_id polys)
  = omap (fun id => if bool_decide (id ∈ seen) then None else Pge.polygon_outage (rows_of_id id polys)) ((by_id polys).*1).
Proof.
  rewrite by_id_map at 1. induction (by_id polys).*1 as [|id ids IH]; [done|]. cbn. by rewrite IH.
Qed.

Lemma coords_less_weak : StrictWeak (fun _ => True) Pge.coords_less.
Proof. apply (weak_str _ (fun f => Pge.Coordinates (Pge.f_Geometry f))). Qed.

(** The outages do not depend on the order of the polygon rows, as long as the
    rows of an id differ in their coordinates: neither the footprint that is
    joined from them nor, for an outage only they list, its attributes. *)
Theorem polygon_order points polys polys' :
  polys ≡ₚ polys' ->
  (forall a b, a ∈ polys -> b ∈ polys -> id_of a = id_of b ->
     a = b \/ Pge.Coordinates (Pge.f_Geometry a) <> Pge.Coordinates (Pge.f_Geometry b)) ->
  Pge.join_layers points polys ≡ₚ Pge.join_layers points polys'.
Proof.
  intros Hp Hd. unfold Pge.join_layers.
  assert (Hrows : forall id, rows_of_id id polys ≡ₚ rows_of_id id polys') by (intros id; unfold rows_of_id, keyed; by rewrite Hp).
  assert (Hkeys : (by_id polys).*1 ≡ₚ (by_id polys').*1).
  { destruct (by_id_spec polys) as (H1 & H2 & _), (by_id_spec polys') as (H1' & H2' & _).
    apply NoDup_Permutation; [done..|]. intros id. rewrite H2, H2'. by setoid_rewrite Hp. }
  assert (Hpoint : forall f, Pge.point_outage (by_id polys) f = Pge.point_outage (by_id polys') f).
  { intros f. unfold Pge.point_outage. rewrite !group_of_spec.
    rewrite (bool_decide_ext _ (Pge.ID (Pge.outageFromFeature f) ∈ (by_id polys').*1)) by by rewrite Hkeys.
    case_bool_decide; [|done]. by apply with_polygon_perm. }
  assert (Hpoly : forall id, Pge.polygon_outage (rows_of_id id polys) = Pge.polygon_outage (rows_of_id id polys')).
  { intros id. unfold Pge.polygon_outage.
    rewrite (SliceStable_unique (fun _ => True) Pge.coords_less (rows_of_id id polys) (rows_of_id id polys')); [done| | | |].
    - apply coords_less_weak.
    - by apply Forall_true.
    - done.
    - intros a b Ha Hb. unfold rows_of_id, keyed in Ha, Hb. rewrite !list_elem_of_filter in Ha, Hb.
      destruct Ha as (<- & _ & Ha), Hb as (Hid & _ & Hb). destruct (Hd a b Ha Hb) as [?|Hne]; [done|by left|right].
      unfold Pge.coords_less. destruct (str_ltb _ _) eqn:E1; [by left|right].
      destruct (str_ltb (Pge.Coordinates (Pge.f_Geometry b)) _) eqn:E2; [done|]. by destruct Hne, (str_ltb_total _ _ E1 E2). }
  assert (Hst : foldl (Pge.add_point (by_id polys)) ([], []) points = foldl (Pge.add_point (by_id polys')) ([], []) points).
  { generalize (@nil Outage, @nil string). induction points as [|f l IH]; intros st; [done|]. cbn [foldl]. rewrite IH.
    f_equal. unfold Pge.add_point. by rewrite Hpoint. }
  rewrite Hst. clear Hst. destruct (foldl (Pge.add_point (by_id polys')) ([], []) points) as [out seen].
  apply Permutation_app_head. rewrite !polygon_only_keys, <-Hkeys.
  match goal with |- ?l ≡ₚ ?k => enough (l = k) as ->; [done|] end. clear Hkeys Hpoint.
  induction (by_id polys).*1 as [|id ids IH]; [done|]. cbn [omap list_omap]. by rewrite Hpoly, IH.
Qed.

End Client.

Section Poll.
Context {UL : UnicodeLower} {UU : UnicodeUpper} {JK : JsonKernel} {GT : GeoText} {SH : Sha256} {PJ : PgeJson} {PT : PowerText}.

(** ** The row that speaks for a shutoff *)

Lemma area_less_weak : StrictWeak (fun _ => True) area_less.
Proof.
  apply (weak_ext _ (lex (fun a b => DeEnergizationStart a <? DeEnergizationStart b) (fun a b => str_ltb (Pge.a_Coords a) (Pge.a_Coords b)))).
  - intros a b _ _. unfold lex, area_less, time_before.
    destruct (Z.eqb_spec (DeEnergizationStart a) (DeEnergizationStart b)) as [He|Hne]; cbn [negb].
    + rewrite He, Z.ltb_irrefl. reflexivity.
    + destruct (Z.ltb_spec (DeEnergizationStart a) (DeEnergizationStart b)), (Z.ltb_spec (DeEnergizationStart b) (DeEnergizationStart a)); cbn; lia || reflexivity.
  - apply lex_weak; [|apply (weak_str _ Pge.a_Coords)]. split; intros; rewrite ?Z.ltb_lt, ?Z.ltb_ge in *; lia.
Qed.

Definition stage_rank (a : PSPSArea) : Z := severityRank (fromPSPSStage (Stage a)).

Lemma escalate_spec rep l :
  let r := foldl escalate rep l in
  DeEnergizationStart r = DeEnergizationStart rep /\ (exists b, b ∈ rep :: l /\ Stage r = Stage b)
  /\ forall b, b ∈ rep :: l -> stage_rank b <= stage_rank r.
Proof.
  cbn zeta. revert rep. induction l as [|a l IH]; intros rep.
  { split_and!; [done|by exists rep; set_solver|]. intros b ->%list_elem_of_singleton. cbn. lia. }
  cbn [foldl]. destruct (IH (escalate rep a)) as (H1 & (b & Hb & Hs) & H3). clear IH.
  assert (He : DeEnergizationStart (escalate rep a) = DeEnergizationStart rep
    /\ (Stage (escalate rep a) = Stage rep \/ Stage (escalate rep a) = Stage a)
    /\ stage_rank rep <= stage_rank (escalate rep a) /\ stage_rank a <= stage_rank (escalate rep a)).
  { unfold escalate, stage_rank. destruct (Z.ltb_spec (severityRank (fromPSPSStage (Stage rep))) (severityRank (fromPSPSStage (Stage a)))); cbn;
      split_and!; auto; lia. }
  destruct He as (E1 & E2 & E3 & E4). split_and!; [by rewrite H1| |].
  - apply elem_of_cons in Hb as [->|Hb]; [|exists b; set_solver].
    destruct E2 as [E2|E2]; [exists rep|exists a]; (split; [set_solver|congruence]).
  - intros c Hc. apply elem_of_cons in Hc as [->|Hc]; [transitivity (stage_rank (escalate rep a)); [done|apply H3; left]|].
    apply elem_of_cons in Hc as [->|Hc]; [transitivity (stage_rank (escalate rep a)); [done|apply H3; left]|].
    apply H3. by right.
Qed.

(** The row starts no later than any, with the worst stage of all. *)
Lemma representative_spec group a :
  a ∈ group ->
  let r := PSPSRepresentative group in
  (exists b, b ∈ group /\ DeEnergizationStart r = DeEnergizationStart b) /\ (exists b, b ∈ group /\ Stage r = Stage b)
  /\ DeEnergizationStart r <= DeEnergizationStart a /\ stage_rank a <= stage_rank r.
Proof.
  intros Ha. cbn zeta. unfold PSPSRepresentative.
  pose proof (SliceStable_sorted (fun _ => True) area_less group area_less_weak ltac:(by apply Forall_true)) as Hs.
  pose proof (SliceStable_perm area_less group) as Hp.
  destruct (SliceStable area_less group) as [|rep l].
  { exfalso. rewrite <-Hp in Ha. by apply not_elem_of_nil in Ha. }
  destruct (escalate_spec rep l) as (H1 & (b & Hb & Hst) & H3). rewrite <-Hp in Ha.
  split_and!.
  - exists rep. split; [|done]. rewrite <-Hp. left.
  - exists b. by rewrite <-Hp.
  - rewrite H1. inversion Hs as [|? ? _ Hle]; subst. apply elem_of_cons in Ha as [->|Ha]; [done|].
    rewrite Forall_forall in Hle. apply Hle in Ha. unfold area_less, time_before in Ha.
    destruct (Z.eqb_spec (DeEnergizationStart a) (DeEnergizationStart rep)); cbn [negb] in Ha; [lia|].
    by apply Z.ltb_ge in Ha.
  - by apply H3.
Qed.

Lemma buildPSPSEvent_fields areas now key group :
  let a := PSPSRepresentative group in
  let ev := buildPSPSEvent areas now key group in
  Id ev = "psps:" +:+ key /\ severity ev = SeverityFromLabel (fromPSPSStage (Stage a)) /\ status ev = pspsStatus a now.
Proof. cbn zeta. unfold buildPSPSEvent. by destruct (match Pge.CombineAreaGeometry group with Some _ => _ | None => _ end). Qed.

Lemma buildPSPSEvents_spec areas now rows :
  buildPSPSEvents areas now rows = (fun g => buildPSPSEvent areas now g.1 g.2) <$> grouped PSPSGroupKey rows.
Proof. done. Qed.

(** The events of the shutoffs, one for each key. *)
Lemma psps_ids areas now rows :
  NoDup (Id <$> buildPSPSEvents areas now rows)
  /\ (forall a, a ∈ rows -> exists ev, ev ∈ buildPSPSEvents areas now rows /\ Id ev = "psps:" +:+ PSPSGroupKey a
        /\ ev = buildPSPSEvent areas now (PSPSGroupKey a) (keyed PSPSGroupKey (PSPSGroupKey a) rows))
  /\ forall ev, ev ∈ buildPSPSEvents areas now rows -> exists a, a ∈ rows /\ Id ev = "psps:" +:+ PSPSGroupKey a
        /\ ev = buildPSPSEvent areas now (PSPSGroupKey a) (keyed PSPSGroupKey (PSPSGroupKey a) rows).
Proof.
  rewrite buildPSPSEvents_spec. destruct (grouped_spec PSPSGroupKey rows) as (Hnd & Hkeys & Hg). rewrite Forall_forall in Hg.
  assert (Hids : Id <$> ((fun g => buildPSPSEvent areas now g.1 g.2) <$> grouped PSPSGroupKey rows)
                 = (fun k => "psps:" +:+ k) <$> (grouped PSPSGroupKey rows).*1).
  { rewrite <-!list_fmap_compose. apply list_fmap_ext. intros i [k l] _. cbn. apply buildPSPSEvent_fields. }
  split_and!.
  - rewrite Hids. apply NoDup_fmap_2; [|done]. intros k k' Hk. by apply (inj (String.append "psps:")).
  - intros a Ha. assert (PSPSGroupKey a ∈ (grouped PSPSGroupKey rows).*1) as Hin by (apply Hkeys; by exists a).
    apply list_elem_of_fmap in Hin as ([k l] & Hk & Hin). cbn in Hk. subst k. apply Hg in Hin as Hl. cbn in Hl. subst l.
    exists (buildPSPSEvent areas now (PSPSGroupKey a) (keyed PSPSGroupKey (PSPSGroupKey a) rows)).
    split; [|split; [apply buildPSPSEvent_fields|done]].
    apply list_elem_of_fmap. by exists (PSPSGroupKey a, keyed PSPSGroupKey (PSPSGroupKey a) rows).
  - intros ev ([k l] & -> & Hin)%list_elem_of_fmap. cbn. apply Hg in Hin as Hl. cbn in Hl. subst l.
    assert (k ∈ (grouped PSPSGroupKey rows).*1) as (a & Ha & <-)%Hkeys by (apply list_elem_of_fmap; by exists (k, keyed PSPSGroupKey k rows)).
    exists a. split_and!; [done|apply buildPSPSEvent_fields|done].
Qed.

(** A shutoff is never summarised as less urgent than its worst row. The event
    of a row's key is at least as severe as the row's stage, and active when the
    row is; and it makes nothing up: its severity is some row's of the key, and
    so is its status. *)
Theorem shutoff_urgency areas now rows a :
  0 <= now -> a ∈ rows ->
  exists ev, ev ∈ buildPSPSEvents areas now rows /\ Id ev = "psps:" +:+ PSPSGroupKey a
    /\ Severity_number (SeverityFromLabel (fromPSPSStage (Stage a))) <= Severity_number (severity ev)
    /\ (pspsStatus a now = ACTIVE -> status ev = ACTIVE)
    /\ exists b c, b ∈ rows /\ c ∈ rows /\ PSPSGroupKey b = PSPSGroupKey a /\ PSPSGroupKey c = PSPSGroupKey a
         /\ severity ev = SeverityFromLabel (fromPSPSStage (Stage b)) /\ status ev = pspsStatus c now.
Proof.
  intros Hnow Ha. destruct (psps_ids areas now rows) as (_ & Hev & _). destruct (Hev a Ha) as (ev & Hin & Hid & He).
  exists ev. split; [done|]. split; [done|]. clear Hev Hin Hid.
  destruct (buildPSPSEvent_fields areas now (PSPSGroupKey a) (keyed PSPSGroupKey (PSPSGroupKey a) rows)) as (_ & Hsev & Hst).
  rewrite <-He in Hsev, Hst. destruct (representative_spec (keyed PSPSGroupKey (PSPSGroupKey a) rows) a) as ((c & Hc & Hcs) & (b & Hb & Hbs) & Hle & Hrank).
  { by apply list_elem_of_filter. }
  rewrite Hsev, Hst. split; [exact Hrank|]. split.
  - unfold pspsStatus, time_is_zero, time_after, time_before. revert Hle. generalize (DeEnergizationStart (PSPSRepresentative (keyed PSPSGroupKey (PSPSGroupKey a) rows))).
    intros s Hle. destruct (Z.eqb_spec s 0), (Z.ltb_spec now s), (Z.eqb_spec (DeEnergizationStart a) 0), (Z.ltb_spec now (DeEnergizationStart a)); cbn; try done.
    all: lia.
  - apply list_elem_of_filter in Hb as [Hb ?], Hc as [Hc ?]. exists b, c. split_and!; try done.
    + by rewrite Hbs.
    + unfold pspsStatus. by rewrite Hcs.
Qed.


(** ** One poll *)

Lemma attach_drawn areas t c : let r := attachGeometry areas t c in r.1 = None -> r.2 = (fun a => "area:" +:+ ha_ID a) <$> areas.
Proof.
  cbn zeta. unfold attachGeometry. destruct (if _ && _ then _ else _) as [g|]; cbn; [done|]. by intros _.
Qed.

(** On the map, or attached to every configured area. *)
Definition placed (areas : list HazardArea) (ev : Event) : Prop :=
  geometry ev = None -> place_ids ev = (fun a => "area:" +:+ ha_ID a) <$> areas.

Lemma outage_event areas now prior blank o :
  let ev := buildOutageEvent areas now prior blank o in
  Id ev = "pge:" +:+ Pge.ID o /\ status ev = ACTIVE
  /\ severity ev = SeverityFromLabel (fromPowerOutage (Pge.CustomersAffected o) (Pge.Planned o))
  /\ geometry ev = (attachOutageGeometry areas prior blank ("pge:" +:+ Pge.ID o) o).1 /\ placed areas ev.
Proof.
  cbn zeta. unfold placed, buildOutageEvent.
  assert (Ha : (attachOutageGeometry areas prior blank ("pge:" +:+ Pge.ID o) o).1 = None ->
    (attachOutageGeometry areas prior blank ("pge:" +:+ Pge.ID o) o).2 = (fun a => "area:" +:+ ha_ID a) <$> areas).
  { unfold attachOutageGeometry. destruct (if _ && _ then _ else _); cbn; [done|]. apply attach_drawn. }
  by destruct (attachOutageGeometry areas prior blank ("pge:" +:+ Pge.ID o) o) as [g places].
Qed.

Lemma psps_event_placed areas now key group : placed areas (buildPSPSEvent areas now key group).
Proof.
  unfold placed, buildPSPSEvent. destruct (Pge.CombineAreaGeometry group) as [[t c]|].
  - pose proof (attach_drawn areas t c) as Ha. by destruct (attachGeometry areas t c).
  - pose proof (attach_drawn areas "" "") as Ha. by destruct (attachGeometry areas "" "").
Qed.

Lemma union_none areas : unionBounds areas = None -> areas = [].
Proof. by destruct areas. Qed.

Lemma sources_pge oerr perr : power_sources oerr perr !! "pge" = oerr.
Proof. unfold power_sources. by destruct oerr, perr. Qed.

Lemma sources_psps oerr perr : power_sources oerr perr !! "psps" = perr.
Proof. unfold power_sources. by destruct oerr, perr. Qed.

(** A poll, side by side. *)
Lemma poll_sides areas stale now prior server :
  match Poll areas stale now prior server with
  | inl _ => areas = [] \/ exists box oe pe, unionBounds areas = Some box
      /\ Pge.GetOutages (points (server box)) (polygons (server box)) = inl oe /\ Pge.GetPSPSAreas (coverage (server box)) = inl pe
  | inr r => exists box, unionBounds areas = Some box
      /\ r = poll_result ((outage_side areas stale now prior (server box)).2 ++ (psps_side areas now (server box)).2)
               (power_sources (outage_side areas stale now prior (server box)).1 (psps_side areas now (server box)).1) []
  end.
Proof.
  unfold Poll. destruct (unionBounds areas) as [box|] eqn:Hb; [|left; by apply union_none].
  unfold outage_side, psps_side. destruct (Pge.GetOutages _ _) as [oe|[os blank]] eqn:Ho, (Pge.GetPSPSAreas _) as [pe|rows] eqn:Hp.
  - right. by exists box, oe, pe.
  - exists box. split; [done|]. by rewrite Ho, Hp.
  - exists box. split; [done|]. by rewrite Ho, Hp.
  - exists box. split; [done|]. by rewrite Ho, Hp.
Qed.

Lemma outage_ids pr qr outages blank : Pge.GetOutages pr qr = inr (outages, blank) -> NoDup (Pge.ID <$> outages).
Proof.
  unfold Pge.GetOutages. destruct (fetch _ _ pr) as [|points]; [done|]. destruct (fetch _ _ qr) as [|polys]; [done|].
  destruct (Pge.all_unnamed points); [done|]. destruct (Pge.all_unnamed polys); [done|]. intros [= <- _]. apply join_spec.
Qed.

(** Neither layer's outage costs the other its events. A poll fails only when no
    area is configured or both feeds fail. Else every outage and every shutoff
    row of the feeds that answered has its event, drawn or attached to every
    configured area; no two events share an id; and a feed is recorded healthy
    only when it answered, and the outages only when besides their polygon layer
    was not blank and their stamp not frozen, so nothing is swept on an answer
    that is not the whole current set. *)
Theorem power_kept areas stale now prior server :
  match Poll areas stale now prior server with
  | inl _ => areas = [] \/ exists box oe pe, unionBounds areas = Some box
      /\ Pge.GetOutages (points (server box)) (polygons (server box)) = inl oe /\ Pge.GetPSPSAreas (coverage (server box)) = inl pe
  | inr r => exists box, unionBounds areas = Some box /\
      let outages := Pge.GetOutages (points (server box)) (polygons (server box)) in
      let shutoffs := Pge.GetPSPSAreas (coverage (server box)) in
      (forall os blank o, outages = inr (os, blank) -> o ∈ os -> exists ev, ev ∈ Events r /\ Id ev = "pge:" +:+ Pge.ID o
         /\ status ev = ACTIVE /\ severity ev = SeverityFromLabel (fromPowerOutage (Pge.CustomersAffected o) (Pge.Planned o)))
      /\ (forall rows a, shutoffs = inr rows -> a ∈ rows -> exists ev, ev ∈ Events r /\ Id ev = "psps:" +:+ PSPSGroupKey a)
      /\ Forall (placed areas) (Events r) /\ NoDup (Id <$> Events r)
      /\ (PerSource r !! "pge" = None <-> exists os, outages = inr (os, false) /\ freshnessError stale now (stamp (server box)) = None)
      /\ (PerSource r !! "psps" = None <-> exists rows, shutoffs = inr rows)
  end.
Proof.
  pose proof (poll_sides areas stale now prior server) as Hs. destruct (Poll areas stale now prior server) as [e|r]; [done|].
  destruct Hs as (box & Hb & ->). exists box. split; [done|]. cbn zeta. unfold outage_side, psps_side. cbn [Events PerSource poll_result].
  rewrite sources_pge, sources_psps.
  set (outages := Pge.GetOutages (points (server box)) (polygons (server box))) in *.
  set (shutoffs := Pge.GetPSPSAreas (coverage (server box))) in *.
  assert (Hids : forall os blank, outages = inr (os, blank) -> NoDup (Pge.ID <$> os)) by (intros os blank; apply outage_ids).
  clearbody outages shutoffs. split_and!.
  - intros os blank o -> Ho. exists (buildOutageEvent areas now prior blank o).
    destruct (outage_event areas now prior blank o) as (H1 & H2 & H3 & _). split_and!; try done.
    apply elem_of_app. left. cbn. apply list_elem_of_fmap. by exists o.
  - intros rows a -> Ha. destruct (psps_ids areas now rows) as (_ & Hev & _). destruct (Hev a Ha) as (ev & Hin & Hid & _).
    exists ev. split; [|done]. apply elem_of_app. by right.
  - apply Forall_app. split.
    + destruct outages as [|[os blank]]; [constructor|]. apply Forall_forall. intros ev (o & -> & _)%list_elem_of_fmap. apply outage_event.
    + destruct shutoffs as [|rows]; [constructor|]. apply Forall_forall. intros ev Hev. cbn in Hev.
      apply (psps_ids areas now rows) in Hev as (a & _ & _ & ->). apply psps_event_placed.
  - rewrite fmap_app. apply NoDup_app. split_and!.
    + destruct outages as [|[os blank]]; [constructor|]. cbn. rewrite <-list_fmap_compose.
      assert (Id ∘ buildOutageEvent areas now prior blank <$> os = (fun k => "pge:" +:+ k) <$> (Pge.ID <$> os)) as ->.
      { rewrite <-list_fmap_compose. apply list_fmap_ext. intros i o _. apply outage_event. }
      apply NoDup_fmap_2; [intros k k' Hk; by apply (inj (String.append "pge:"))|].
      by eapply Hids.
    + intros id Hid Hid'. apply list_elem_of_fmap in Hid as (ev & -> & Hev), Hid' as (ev' & He & Hev').
      destruct outages as [|[os blank]]; [by apply not_elem_of_nil in Hev|].
      apply list_elem_of_fmap in Hev as (o & -> & _). destruct (outage_event areas now prior blank o) as (Hi & _).
      destruct shutoffs as [|rows]; [by apply not_elem_of_nil in Hev'|]. cbn in Hev'.
      apply (psps_ids areas now rows) in Hev' as (a & _ & Hi' & _). rewrite Hi, Hi' in He. discriminate He.
    + destruct shutoffs as [|rows]; [constructor|]. apply psps_ids.
  - destruct outages as [|[os blank]]; cbn; [split; [done|by intros (? & ? & _)]|].
    destruct (freshnessError stale now (stamp (server box))); [split; [done|by intros (? & _ & ?)]|].
    destruct blank; split; try done; [by intros (? & [= ?] & _)|]. intros _. by exists os.
  - destruct shutoffs as [|rows]; cbn; split; try done; [by intros (? & ?)|]. intros _. by exists rows.
Qed.

(** A blank polygon layer keeps the footprints. While the polygon layer has no
    row and the point layer has some, a stored outage that is listed again keeps
    the footprint it is stored with, and the source is recorded failed, so no
    outage is swept either. *)
Theorem blank_layer_keeps areas stale now prior server box os o g :
  unionBounds areas = Some box -> Pge.GetOutages (points (server box)) (polygons (server box)) = inr (os, true) ->
  o ∈ os -> priorFootprint prior ("pge:" +:+ Pge.ID o) = Some g ->
  match Poll areas stale now prior server with
  | inl _ => False
  | inr r => PerSource r !! "pge" <> None
      /\ exists ev, ev ∈ Events r /\ Id ev = "pge:" +:+ Pge.ID o /\ geometry ev = Some g
  end.
Proof.
  intros Hb Ho Hin Hg. pose proof (poll_sides areas stale now prior server) as Hs. destruct (Poll areas stale now prior server) as [e|r].
  { destruct Hs as [->|(box' & oe & pe & Hb' & Ho' & _)]; [done|]. rewrite Hb in Hb'. injection Hb' as <-. by rewrite Ho in Ho'. }
  destruct Hs as (box' & Hb' & ->). rewrite Hb in Hb'. injection Hb' as <-. cbn [Events PerSource poll_result].
  rewrite sources_pge. unfold outage_side. rewrite Ho. cbn [fst snd]. split; [by destruct (freshnessError _ _ _)|].
  exists (buildOutageEvent areas now prior true o). destruct (outage_event areas now prior true o) as (H1 & _ & _ & H4 & _).
  split; [apply elem_of_app; left; apply list_elem_of_fmap; by exists o|]. split; [exact H1|]. rewrite H4.
  unfold attachOutageGeometry. rewrite (blank_no_polygon _ _ _ _ Ho Hin). cbn [negb andb]. by rewrite Hg.
Qed.

End Poll.

(** ** A concrete server *)

Module PowerDemo.

#[local] Instance json : JsonKernel :=
  {| unmarshal_env raw := Some ("Polygon", raw); unmarshal_floats _ := None; unmarshal_floats2 _ := None; unmarshal_raws _ := None |}.
#[local] Instance geo_text : GeoText := {| marshal_string s := s; point_json _ _ := "{}" |}.
#[local] Existing Instance ascii_only.
#[local] Instance upper : UnicodeUpper := {| unicode_upper s := s |}.
#[local] Instance digest : Sha256 := {| sha256 _ := "0123456789abcdef" |}.
#[local] Instance texts : PowerText :=
  {| rfc3339_text _ := "t"; age_text _ := "3h"; duration_text _ := "2h"; time_text _ := "t" |}.

Definition outage (id coords : string) (customers : Z) : outageFeature :=
  Pge.mkOutageFeature id "TREE CONTACT" "" customers 1000 0 0 (Pge.mkGeometryJSON "Polygon" coords).
Definition shutoff (event stage start : string) : Pge.pspsFeature :=
  Pge.mkPspsFeature event "" "" stage " 1200 " "" start "" "" "" "" (Pge.mkGeometryJSON "" "").
Definition whole {F} (l : list F) : Pge.envelope F := Pge.mkEnvelope l None false false.

(** The documents of the server, by name. *)
#[local] Instance pge_json : PgeJson :=
  {| Pge.decode_outages body :=
       if String.eqb body "points" then inr (whole [outage "7" "" 40; outage " 7 " "" 3; outage "" "" 1])
       else if String.eqb body "polygons" then inr (whole [outage "7" "B" 0; outage "8" "C" 0; outage "7" "A" 0])
       else if String.eqb body "none" then inr (whole [])
       else inr (Pge.mkEnvelope [outage "7" "" 40] None false true);
     Pge.decode_psps body := inr (whole [shutoff "e1" "Watch" "2"; shutoff "e1" "Warning" "5"; shutoff "e1" "Watch" "4"]);
     Pge.decode_stamp body := inr (whole [body]);
     Pge.parse_rfc3339 s := if String.eqb s "2" then Some 2 else if String.eqb s "4" then Some 4 else if String.eqb s "5" then Some 5 else None;
     Pge.parse_stamp s := if String.eqb s "fresh" then inr (9 * hour) else inr hour;
     Pge.marshal_raws l := Some (foldr String.append "" l);
     Pge.quote_text s := s |}.

Definition areas : list HazardArea :=
  [mkHazardArea "ebbetts" "Ebbetts Pass" (mkGeoBounds (of_Z 38) (of_Z 39) (of_Z (-121)) (of_Z (-119))) "" []].
Definition server (p q s : string) (box : float64 * float64 * float64 * float64) : Replies :=
  mkReplies (Reply 200 p) (Reply 200 q) (Reply 200 s) (Reply 200 "coverage").
Definition footprint : Geometry := mkGeometry "drawn" None None.
Definition stored : Event :=
  mkEvent "pge:7" POWER "" INFO ACTIVE "" "" "" "" "" (Some footprint) [] None None None None None 0 None None.
Definition prior : Prior := mkPrior {["pge:7" := stored]} ∅.
Definition poll (p q s : string) : string + PollResult := Poll areas 0 (10 * hour) prior (server p q s).
Definition seen (r : string + PollResult) : option (list (string * EventStatus) * option string) :=
  match r with inr r => Some ((fun e => (Id e, status e)) <$> Events r, PerSource r !! "pge") | inl _ => None end.

Example both_layers : seen (poll "points" "polygons" "fresh") = Some ([("pge:7", ACTIVE); ("pge:8", ACTIVE); ("psps:e1", ACTIVE)], None).
Proof. vm_compute. reflexivity. Qed.
Example truncated_points : seen (poll "more" "polygons" "fresh")
  = Some ([("psps:e1", ACTIVE)], Some "PG&E outage points: response truncated by the server's maxRecordCount (exceededTransferLimit); refusing to treat a partial set as complete").
Proof. vm_compute. reflexivity. Qed.
Example frozen_stamp : seen (poll "points" "polygons" "old")
  = Some ([("pge:7", ACTIVE); ("pge:8", ACTIVE); ("psps:e1", ACTIVE)], Some "PG&E outage feed is frozen: upstream ETL stamp t is 3h old (max 2h)").
Proof. vm_compute. reflexivity. Qed.

Lemma outages_complete_witness :
  match Pge.GetOutages (Reply 200 "points") (Reply 200 "polygons") with
  | inr (outages, blank) => "8" ∈ Pge.ID <$> outages /\ NoDup (Pge.ID <$> outages)
  | inl _ => False
  end.
Proof.
  destruct (Pge.GetOutages (Reply 200 "points") (Reply 200 "polygons")) as [e|[os b]] eqn:E; [vm_compute in E; discriminate|].
  destruct (outages_complete _ _ _ _ E) as (ps & qs & _ & (s & body & r & Hr & _ & Hd & _ & _ & ->) & Hnd & Hids & _).
  split; [|exact Hnd]. apply Hids. injection Hr as <- <-. vm_compute in Hd. injection Hd as <-.
  split; [discriminate|]. exists (outage "8" "C" 0). split; [apply elem_of_app; right; right; left|reflexivity].
Defined.

Lemma polygon_order_witness :
  let polys := [outage "7" "B" 0; outage "8" "C" 0; outage "7" "A" 0] in
  Pge.join_layers [outage "7" "" 40] polys ≡ₚ Pge.join_layers [outage "7" "" 40] (reverse polys).
Proof.
  apply polygon_order; [symmetry; apply reverse_Permutation|]. intros a b Ha Hb _. set_unfold in Ha. set_unfold in Hb.
  destruct Ha as [->|[->|[->|[]]]], Hb as [->|[->|[->|[]]]]; first [by left|right; discriminate].
Defined.

Lemma shutoff_urgency_witness :
  let rows := Pge.area_of <$> [shutoff "e1" "Watch" "2"; shutoff "e1" "Warning" "5"] in
  exists ev, ev ∈ buildPSPSEvents areas 3 rows /\ Id ev = "psps:e1" /\ 3 <= Severity_number (severity ev).
Proof.
  destruct (shutoff_urgency areas 3 (Pge.area_of <$> [shutoff "e1" "Watch" "2"; shutoff "e1" "Warning" "5"]) (Pge.area_of (shutoff "e1" "Warning" "5")))
    as (ev & Hin & Hid & Hsev & _); [lia|right; left|].
  exists ev. split; [exact Hin|]. split; [exact Hid|]. refine (Z.le_trans _ _ _ _ Hsev). vm_compute. discriminate.
Defined.

Lemma blank_layer_keeps_witness :
  match poll "points" "none" "fresh" with
  | inl _ => False
  | inr r => PerSource r !! "pge" <> None /\ exists ev, ev ∈ Events r /\ Id ev = "pge:7" /\ geometry ev = Some footprint
  end.
Proof.
  destruct (unionBounds areas) as [box|] eqn:Hb; [|discriminate Hb].
  destruct (Pge.GetOutages (Reply 200 "points") (Reply 200 "none")) as [e|[os b]] eqn:E; [vm_compute in E; discriminate|].
  assert (b = true) as -> by (vm_compute in E; injection E; intros; congruence).
  assert (exists o, o ∈ os /\ Pge.ID o = "7") as (o & Ho & Hid).
  { vm_compute in E. injection E as <-. eexists. split; [left|reflexivity]. }
  pose proof (blank_layer_keeps areas 0 (10 * hour) prior (server "points" "none" "fresh") box os o footprint Hb E Ho) as Hk.
  rewrite Hid in Hk. apply Hk. vm_compute. reflexivity.
Defined.

End PowerDemo.

End PowerSpec.
