(* ===== verification/Cache.v ===== *)
(** * The in-memory cache

    [internal/cache/cache.go]. Every method runs under the cache's lock, so a
    method is one step; [Get] takes the lock twice, so it is given the two states
    it may meet. The clock is an argument and [encoding/json] a class; the
    cleanup's ticker and the log are left out. Theorems: an entry is served for its
    refresh interval, kept as a fallback for twice that whatever else runs, and
    gone at the next cleanup; and what an interleaved [Set] does to [Get]. *)

From S2P Require Import Prelude.

(** [json.Marshal] and [json.Unmarshal] at a type. *)
Class Json (A : Type) := { marshal : A -> option string; unmarshal : string -> string + A }.

Module Cache.

Record CacheEntry := mkCacheEntry {
  Key : string; Data : string; CreatedAt : Time; ExpiresAt : Time; RefreshInterval : Duration; Source : string }.

Abbreviation Cache := (gmap string CacheEntry).
Definition NewCache : Cache := ∅.

(** [d * 2] of an int64. *)
Definition double (d : Duration) : Duration := (d * 2 + 2 ^ 63) mod 2 ^ 64 - 2 ^ 63.

Definition new_entry (now : Time) (key data : string) (refreshInterval : Duration) (source : string) : CacheEntry :=
  mkCacheEntry key data now (time_add now refreshInterval) refreshInterval source.

(** The cache and the error. *)
Definition Set_ `{Json A} (now : Time) (key : string) (data : A) (refreshInterval : Duration) (source : string) (c : Cache)
    : Cache * option string :=
  match marshal data with
  | None => (c, Some "failed to marshal data for cache")
  | Some jsonData => (<[key := new_entry now key jsonData refreshInterval source]> c, None)
  end.

Definition expired (now : Time) (e : CacheEntry) : bool := time_after now (ExpiresAt e).
Definition very_stale (now : Time) (e : CacheEntry) : bool :=
  time_after now (time_add (CreatedAt e) (double (RefreshInterval e))).

Definition IsStale (now : Time) (key : string) (c : Cache) : bool :=
  match c !! key with None => true | Some e => expired now e end.
Definition IsVeryStale (now : Time) (key : string) (c : Cache) : bool :=
  match c !! key with None => true | Some e => very_stale now e end.

(** [Get]: an error, nothing, or the data; [c'] is the cache when the entry that
    was read from [c] is tested. *)
Definition Get `{Json A} (now : Time) (key : string) (c c' : Cache) : string + option A :=
  match c !! key with
  | None => inr None
  | Some entry =>
      if IsStale now key c' then inr None
      else match unmarshal (Data entry) with
           | inl e => inl ("failed to unmarshal cached data: " +:+ e)
           | inr a => inr (Some a)
           end
  end.

(** [GetWithMetadata] with a place for the data: the entry, even a stale one,
    and the data or the error. *)
Definition GetWithMetadata `{Json A} (key : string) (c : Cache) : option (CacheEntry * (string + A)) :=
  entry ← c !! key;
  Some (entry, match unmarshal (Data entry) with
               | inl e => inl ("failed to unmarshal cached data: " +:+ e)
               | inr a => inr a
               end).

Definition Delete (key : string) (c : Cache) : Cache := delete key c.
Definition Clear (c : Cache) : Cache := ∅.
Definition Keys (c : Cache) : list string := (map_to_list c).*1.

Record CacheStats := mkCacheStats {
  TotalEntries : nat; FreshEntries : nat; StaleEntries : nat; OldestEntry : Time; NewestEntry : Time }.

Definition count_entry (now : Time) (st : CacheStats) (e : CacheEntry) : CacheStats :=
  let '(fresh, stale) := if expired now e then (FreshEntries st, S (StaleEntries st)) else (S (FreshEntries st), StaleEntries st) in
  mkCacheStats (TotalEntries st) fresh stale
    (if time_is_zero (OldestEntry st) || time_before (CreatedAt e) (OldestEntry st) then CreatedAt e else OldestEntry st)
    (if time_after (CreatedAt e) (NewestEntry st) then CreatedAt e else NewestEntry st).
Definition stats_of (now : Time) (entries : list CacheEntry) : CacheStats :=
  foldl (count_entry now) (mkCacheStats (length entries) 0 0 time_zero time_zero) entries.
Definition Stats (now : Time) (c : Cache) : CacheStats := stats_of now (map_to_list c).*2.

Definition CleanupStale (now : Time) (c : Cache) : Cache * nat :=
  (filter (fun x => very_stale now x.2 = false) c, size (filter (fun x => very_stale now x.2 = true) c)).

Definition Backdate (key : string) (d : Duration) (c : Cache) : Cache :=
  alter (fun e => mkCacheEntry (Key e) (Data e) (CreatedAt e - d) (ExpiresAt e - d) (RefreshInterval e) (Source e)) key c.

(** ** Enhanced alerts *)

Definition alert_key (contentHash : string) : string := "enhanced_alert:" +:+ contentHash.
Definition SetEnhancedAlert `{Json A} (now : Time) (contentHash : string) (enhanced : A) (ttl : Duration) (c : Cache)
    : Cache * option string := Set_ now (alert_key contentHash) enhanced ttl "enhanced_alert" c.
Definition GetEnhancedAlert `{Json A} (now : Time) (contentHash : string) (c c' : Cache) : string + option A :=
  Get now (alert_key contentHash) c c'.
Definition IsEnhancedAlertCached (now : Time) (contentHash : string) (c : Cache) : bool :=
  negb (IsStale now (alert_key contentHash) c).

(** ** Steps *)

(** What the service does to the cache; a [Set] whose data did not marshal is
    no step. *)
Inductive op := OSet (now : Time) (key data : string) (interval : Duration) (source : string) | ODelete (key : string) | OClear
  | OCleanup (now : Time).

Definition step (c : Cache) (o : op) : Cache :=
  match o with
  | OSet now key data interval source => <[key := new_entry now key data interval source]> c
  | ODelete key => delete key c
  | OClear => ∅
  | OCleanup now => (CleanupStale now c).1
  end.
Definition steps (c : Cache) (l : list op) : Cache := foldl step c l.

(** The steps that leave a key's entry to time: no write of the key, and no
    cleanup past [limit]. *)
Definition spares (key : string) (limit : Time) (o : op) : Prop :=
  match o with
  | OSet _ k _ _ _ | ODelete k => k <> key
  | OClear => False
  | OCleanup now => now <= limit
  end.

Lemma double_exact d : 0 <= d -> 2 * d <= max_int64 -> double d = 2 * d.
Proof. unfold double, max_int64. intros H1 H2. rewrite Z.mod_small; lia. Qed.

Lemma cleanup_lookup now c key :
  (CleanupStale now c).1 !! key = e ← c !! key; if very_stale now e then None else Some e.
Proof.
  unfold CleanupStale. cbn [fst]. rewrite map_lookup_filter. destruct (c !! key) as [e|]; cbn; [|done].
  by destruct (very_stale now e).
Qed.

Lemma spared_step key limit c o e :
  c !! key = Some e -> time_add (CreatedAt e) (double (RefreshInterval e)) = limit -> spares key limit o ->
  step c o !! key = Some e.
Proof.
  intros He Hl Hs. destruct o as [now k data i src|k| |now]; cbn [step spares] in *.
  - by rewrite lookup_insert_ne.
  - by rewrite lookup_delete_ne.
  - done.
  - rewrite cleanup_lookup, He. cbn. unfold very_stale, time_after. rewrite Hl.
    destruct (Z.ltb_spec limit now); [lia|done].
Qed.

Lemma spared_steps key limit c l e :
  c !! key = Some e -> time_add (CreatedAt e) (double (RefreshInterval e)) = limit -> Forall (spares key limit) l ->
  steps c l !! key = Some e.
Proof.
  intros He Hl Hs. unfold steps. revert c He. induction Hs as [|o l Ho Hs IH]; intros c He; cbn; [done|].
  apply IH. by apply (spared_step key limit).
Qed.

(** How long an entry lives. For its refresh interval after a [Set] the data is
    served; after that it is not, but whatever happens to other keys it stays
    at hand as a fallback for twice the interval, through any cleanup; the first
    cleanup after that drops it. *)
Theorem entry_lifetime `{Json A} (c : Cache) key (data : A) text interval source now l now' :
  marshal data = Some text -> unmarshal text = inr data -> 0 <= interval -> 2 * interval <= max_int64 ->
  Forall (spares key (now + 2 * interval)) l ->
  let c' := steps (Set_ now key data interval source c).1 l in
  (forall c'', c'' !! key = c' !! key -> Get now' key c' c'' = inr (if now' <=? now + interval then Some data else None))
  /\ GetWithMetadata key c' = Some (new_entry now key text interval source, inr data)
  /\ (IsVeryStale now' key c' = true <-> now + 2 * interval < now')
  /\ (CleanupStale now' c').1 !! key = if now' <=? now + 2 * interval then Some (new_entry now key text interval source) else None.
Proof.
  intros Hm Hu Hi Hi2 Hl. cbn zeta. unfold Set_. rewrite Hm. cbn [fst].
  pose proof (double_exact interval Hi Hi2) as Hd.
  set (e := new_entry now key text interval source).
  assert (Hlim : time_add (CreatedAt e) (double (RefreshInterval e)) = now + 2 * interval) by (cbn; rewrite Hd; unfold time_add; lia).
  pose proof (spared_steps key _ (<[key := e]> c) l e (lookup_insert_eq _ _ _) Hlim Hl) as He.
  set (c' := steps (<[key := e]> c) l) in *. clearbody c'.
  assert (Hv : forall t, very_stale t e = (now + 2 * interval <? t)) by (intros t; unfold very_stale; rewrite Hlim; done).
  split_and!.
  - intros c'' Hc. unfold Get, IsStale. rewrite Hc, He. cbn [expired e new_entry ExpiresAt Data]. rewrite Hu.
    unfold expired, time_after, time_add. cbn [ExpiresAt new_entry e]. unfold time_add.
    destruct (Z.ltb_spec (now + interval) now'), (Z.leb_spec now' (now + interval)); lia || done.
  - unfold GetWithMetadata. rewrite He. cbn. by rewrite Hu.
  - unfold IsVeryStale. rewrite He, Hv. apply Z.ltb_lt.
  - rewrite cleanup_lookup, He. cbn. rewrite Hv.
    destruct (Z.ltb_spec (now + 2 * interval) now'), (Z.leb_spec now' (now + 2 * interval)); lia || done.
Qed.

(** A [Set] between the two locks of [Get] makes it return the entry that had
    expired: the one it read, judged by the age of the new one. *)
Theorem get_interleaved `{Json A} (c : Cache) key (old new : A) told tnew interval now :
  marshal old = Some told -> unmarshal told = inr old -> marshal new = Some tnew -> 0 <= interval ->
  let stale := (Set_ (now - interval - 1) key old interval "s" c).1 in
  let fresh := (Set_ now key new interval "s" stale).1 in
  Get now key stale stale = inr (@None A) /\ Get now key stale fresh = inr (Some old).
Proof.
  intros Hm Hu Hn Hi. cbn zeta. unfold Set_. rewrite Hm, Hn. cbn [fst]. unfold Get, IsStale.
  rewrite !lookup_insert_eq. unfold expired, time_after, time_add. cbn [ExpiresAt new_entry Data]. unfold time_add. rewrite Hu.
  destruct (Z.ltb_spec (now - interval - 1 + interval) now), (Z.ltb_spec (now + interval) now); lia || done.
Qed.

#[local] Instance plain_text : Json string := {| marshal s := Some s; unmarshal s := inr s |}.

Lemma entry_lifetime_witness :
  let c := steps (Set_ 100 "k" "v" 10 "s" NewCache).1 [OSet 105 "other" "w" 1 "s"; OCleanup 119; ODelete "other"] in
  (forall c'', c'' !! "k" = c !! "k" -> Get 110 "k" c c'' = inr (Some "v")) /\ (CleanupStale 121 c).1 !! "k" = None.
Proof.
  split.
  - apply (entry_lifetime NewCache "k" "v" "v" 10 "s" 100 [OSet 105 "other" "w" 1 "s"; OCleanup 119; ODelete "other"] 110);
      [done|done|lia|vm_compute; discriminate|repeat constructor; cbn; lia || done].
  - apply (entry_lifetime NewCache "k" "v" "v" 10 "s" 100 [OSet 105 "other" "w" 1 "s"; OCleanup 119; ODelete "other"] 121);
      [done|done|lia|vm_compute; discriminate|repeat constructor; cbn; lia || done].
Defined.

End Cache.
