(* ===== verification/Hazards.v ===== *)
(** * The condition layers

    [internal/hazards]: the map features of the road, chain-control, fire-weather
    and message-sign layers, and [buildLayer], which runs a layer's builder behind
    the cache and decides what is served when a source fails. The roads and
    weather services, the Caltrans feeds and the sign client are arguments, in the
    shape of the interfaces the package declares; [time.Format] is a class; the log
    is left out. *)

From Stdlib Require Import Ascii.
From stdpp Require Import pretty.
From S2P Require Import Prelude Float64 GoText Severity Feeds Cache.

Module Hazards.
Import F64 Text Severity Feeds.
Import Cache (CacheEntry, CreatedAt, ExpiresAt, Source).

(** ** Layers *)

Definition LayerRoadIncident : string := "road_incident".
Definition LayerRoadSegment : string := "road_segment".
Definition LayerChainControl : string := "chain_control".
Definition LayerWeatherAlert : string := "weather_alert".
Definition LayerFireWeather : string := "fire_weather".
Definition LayerEarthquake : string := "earthquake".
Definition LayerWildfire : string := "wildfire".
Definition LayerEvacuation : string := "evacuation".
Definition LayerMesh : string := "mesh_node".
Definition LayerMeshLink : string := "mesh_link".
Definition LayerPower : string := "power".
Definition LayerBurnStatus : string := "burn_status".
Definition LayerMessageSign : string := "message_sign".

(** ** Features *)

(** Coordinates, longitude first. *)
Inductive Coords := CPoint (p : list float64) | CLine (l : list (list float64)).
Record Geometry := mkGeometry { gType : string; Coordinates : Coords }.

Record SourceRef := mkSourceRef { src_ID : string; src_Name : string; src_Attribution : string }.
Record RoadProps := mkRoadProps {
  RoadID : string; Congestion : string; DelayMinutes : option Z; DurationMinutes : option Z; DistanceKm : option Z }.
Record ChainControlProps := mkChainControlProps { cp_Level : string; cp_Highway : string; cp_Direction : string }.
Record ForecastSummary := mkForecastSummary {
  fs_Source : string; fs_IssuedAt : string; fs_HorizonHours : Z; fs_PeakWindGustKmh : Z; fs_PeakWindGustAt : string;
  fs_MinHumidityPercent : Z }.
Record FireWeatherProps := mkFireWeatherProps {
  State : string; SourceEvent : string; fp_Zones : list string; Forecast_ : option ForecastSummary }.
Record MessageSignProps := mkMessageSignProps {
  SignID : string; mp_District : Z; mp_Route : string; mp_Direction : string; mp_InService : bool; mp_Pages : list (list string) }.

(** [Properties], the members that these layers set. *)
Record Properties := mkProperties {
  pID : string; pLayer : string; Kind : string; Category : string; pSeverity : string; SeverityRank : Z; Headline : string;
  Description : string; Status : string; Effective : string; Expires : string; AreaLabel : string; pSource : SourceRef;
  Road : option RoadProps; ChainControl : option ChainControlProps; FireWeather : option FireWeatherProps;
  MessageSign_ : option MessageSignProps }.
Record Feature := mkFeature { fGeometry : option Geometry; fProperties : Properties }.

Definition setSeverity (s : string) (p : Properties) : Properties :=
  mkProperties (pID p) (pLayer p) (Kind p) (Category p) s (severityRank s) (Headline p) (Description p) (Status p) (Effective p)
    (Expires p) (AreaLabel p) (pSource p) (Road p) (ChainControl p) (FireWeather p) (MessageSign_ p).

Definition lonLat (lat_ lng_ : float64) : list float64 := [trim lng_; trim lat_].
Definition PointGeom (lat_ lng_ : float64) : Geometry := mkGeometry "Point" (CPoint (lonLat lat_ lng_)).
Definition LineStringGeom (points : list (float64 * float64)) : option Geometry :=
  if (length points <? 2)%nat then None
  else Some (mkGeometry "LineString" (CLine ((fun p => lonLat p.1 p.2) <$> points))).

(** ** What the builders read *)

(** [caltrans.ChainControlData]: coordinates are latitude, longitude. *)
Record ChainControlData := mkChainControlData {
  Highway : string; Direction : string; Level : string; LocationName : string; c_Coordinates : option (float64 * float64);
  EffectiveTime : string; c_Description : string; MessageID : string; c_Source : string; Unrecognized : bool; Closed : bool }.
(** [ParseChainControlsDetailed]: an error, or controls and whether they are partial. *)
Inductive ChainReply := ChainFailed (err : string) | ChainControls (controls : list ChainControlData) (partial : bool).

Inductive RoadStatus := ROAD_STATUS_UNSPECIFIED | OPEN | CLOSED | RESTRICTED | MAINTENANCE.
Inductive CongestionLevel := CONGESTION_LEVEL_UNSPECIFIED | CL_CLEAR | CL_LIGHT | CL_MODERATE | CL_HEAVY | CL_SEVERE.
Definition RoadStatus_name (s : RoadStatus) : string :=
  match s with ROAD_STATUS_UNSPECIFIED => "ROAD_STATUS_UNSPECIFIED" | OPEN => "OPEN" | CLOSED => "CLOSED" | RESTRICTED => "RESTRICTED"
  | MAINTENANCE => "MAINTENANCE" end.
Definition CongestionLevel_name (l : CongestionLevel) : string :=
  match l with CONGESTION_LEVEL_UNSPECIFIED => "CONGESTION_LEVEL_UNSPECIFIED" | CL_CLEAR => "CLEAR" | CL_LIGHT => "LIGHT"
  | CL_MODERATE => "MODERATE" | CL_HEAVY => "HEAVY" | CL_SEVERE => "SEVERE" end.
(** [api.Road], the fields the layer reads. *)
Record ApiRoad := mkApiRoad {
  rd_Id : string; rd_Status : RoadStatus; rd_StatusExplanation : string; rd_DurationMinutes : Z; rd_DistanceKm : Z;
  rd_CongestionLevel : CongestionLevel; rd_DelayMinutes : Z; rd_Polyline : list (float64 * float64) }.

Inductive FireWeatherState := FIRE_WEATHER_STATE_UNSPECIFIED | NORMAL | ELEVATED | RED_FLAG.
Definition FireWeatherState_name (s : FireWeatherState) : string :=
  match s with FIRE_WEATHER_STATE_UNSPECIFIED => "FIRE_WEATHER_STATE_UNSPECIFIED" | NORMAL => "NORMAL" | ELEVATED => "ELEVATED"
  | RED_FLAG => "RED_FLAG" end.
(** [api.FireWeather]: the times are Unix seconds. *)
Record ApiFireWeather := mkApiFireWeather {
  fw_State : FireWeatherState; fw_SourceEvent : string; fw_Headline : string; fw_SenderName : string;
  fw_Effective : option Z; fw_Expires : option Z; fw_Zones : list string }.
(** [nws.Forecast], without the hourly points. *)
Record Forecast := mkForecast {
  fc_Source : string; IssuedAt : Time; HorizonHours : Z; PeakGustKmh : float64; PeakGustAt : Time; MinHumidityPct : float64;
  HasMinHumidity : bool }.

(** [config.MonitoredRoad] and [config.WeatherLocation]: points are latitude,
    longitude. *)
Record MonitoredRoad := mkMonitoredRoad {
  mr_Name : string; mr_Section : string; mr_ID : string; Origin : float64 * float64; Destination : float64 * float64 }.
Record WeatherLocation := mkWeatherLocation { wl_ID : string; wl_Name : string; wl_Coordinates : float64 * float64 }.

(** *** Message signs *)

Inductive Display := DisplayUnknown | DisplayBlank | DisplayOnePage | DisplayTwoPage.
(** [cwwp2.MessageSign], the fields the layer reads; a position is latitude, longitude. *)
Record MessageSign := mkMessageSign {
  sg_ID : string; sg_Name : string; sg_Route : string; sg_Direction : string; Position : option (float64 * float64);
  InService : bool; sg_Display : Display; Phase1 : list string; Phase2 : list string; MessageSince : Time }.

Definition joinLines (p : list string) : string := join " " (filter (fun l => l <> "") p).
Definition hasText (p : list string) : bool := negb (String.eqb (joinLines p) "").
Definition notReported : string := "Not Reported".
Definition parseDisplay `{UnicodeLower} (raw : string) (p1 p2 : list string) : Display :=
  if existsb (fun l => String.eqb l notReported) (p1 ++ p2) then DisplayUnknown
  else
    let raw := TrimSpace raw in
    if EqualFold raw "Blank" && negb (hasText p1) && negb (hasText p2) then DisplayBlank
    else if EqualFold raw "1 Page (Normal)" && hasText p1 && negb (hasText p2) then DisplayOnePage
    else if EqualFold raw "2 Pages (Extended)" && hasText p1 && hasText p2 then DisplayTwoPage
    else DisplayUnknown.
Definition Pages (s : MessageSign) : list (list string) :=
  match sg_Display s with DisplayOnePage => [Phase1 s] | DisplayTwoPage => [Phase1 s; Phase2 s] | _ => [] end.
Definition Text_ (s : MessageSign) : string := join " / " (filter (fun t => t <> "") (joinLines <$> Pages s)).

(** ** Texts *)

Class HazardText := { rfc3339 : Time -> string }.

Definition rfc3339Time `{HazardText} (t : Time) : string := if time_is_zero t then "" else rfc3339 t.
Definition tsToRFC3339 `{HazardText} (ts : option Z) : string :=
  match ts with Some secs => if secs =? 0 then "" else rfc3339 (time_of_unix secs) | None => "" end.

(** [%.5f]: five decimals, ties to even. *)
Definition fixed5 (x : float64) : string :=
  match x with
  | S754_nan => "NaN"
  | S754_infinity s => if s then "-Inf" else "+Inf"
  | S754_zero s => if s then "-0.00000" else "0.00000"
  | S754_finite s m e =>
      let n := if 0 <=? e then Z.pos m * 2 ^ e * 100000
               else let d := 2 ^ (- e) in
                    let '(q, r) := (Z.pos m * 100000 / d, (Z.pos m * 100000) mod d) in
                    q + (if 2 * r <? d then 0 else if d <? 2 * r then 1 else q mod 2) in
      (if s then "-" else "") +:+ pretty (n / 100000) +:+ "." +:+ String.substring 1 5 (pretty (n mod 100000 + 100000))
  end.
Definition coords5 (lat_ lng_ : float64) : string := fixed5 lat_ +:+ "," +:+ fixed5 lng_.
Definition int32_of (x : float64) : Z := trunc (Round x).

(** [signNumberRe]: leading digits, a dash, and the spaces around it. *)
Definition re_space (n : N) : bool := bool_decide (n ∈ [9; 10; 12; 13; 32]%N).
Fixpoint skip_while (p : N -> bool) (l : list ascii) : list ascii :=
  match l with c :: r => if p (code c) then skip_while p r else l | [] => [] end.
Definition strip_sign_number (s : string) : string :=
  match bytes s with
  | c :: r =>
      if is_digit (code c) then
        match skip_while re_space (skip_while is_digit r) with
        | d :: r => if N.eqb (code d) 45 then of_bytes (skip_while re_space r) else s
        | [] => s
        end
      else s
  | [] => s
  end.

(** ** The builders *)

(** The features, and whether the layer failed or is only partial. *)
Inductive buildError := Hard (err : string) | partialData.
Definition Built : Type := list Feature * option buildError.

Definition roadSeverity (rd : ApiRoad) : string :=
  match rd_Status rd with
  | CLOSED => SevSevere
  | RESTRICTED | MAINTENANCE => SevModerate
  | _ => match rd_CongestionLevel rd with
         | CL_SEVERE | CL_HEAVY => SevModerate
         | CL_MODERATE => SevMinor
         | _ => SevInfo
         end
  end.

Section Builders.
Context {UL : UnicodeLower} {UU : UnicodeUpper} {HT : HazardText}.

Definition chain_feature (c : ChainControlData) (lat_ lng_ : float64) : Feature :=
  let attribution := if String.eqb (c_Source c) "" then "quickmap.dot.ca.gov" else c_Source c in
  let category := if Closed c then "closed" else ToLower (Level c) in
  let headline := if Closed c then TrimSpace (Highway c +:+ " road closed")
                  else TrimSpace (Highway c +:+ " chain control " +:+ Level c) in
  let p := mkProperties ("cc:" +:+ nonEmpty [MessageID c; LocationName c; coords5 lat_ lng_]) (ToUpper LayerChainControl)
             "Chain control" category "" 0 headline (c_Description c) "" (EffectiveTime c) "" (LocationName c)
             (mkSourceRef "caltrans" "Caltrans" attribution) None
             (Some (mkChainControlProps (Level c) (Highway c) (Direction c))) None None in
  let p := setSeverity (fromChainLevelStr (Level c)) p in
  mkFeature (Some (PointGeom lat_ lng_)) (if Closed c then setSeverity SevMinor p else p).

(** The features so far, and whether a control in the area could not be read or
    one could not be placed. *)
Definition add_control (area : HazardArea) (st : list Feature * bool) (c : ChainControlData) : list Feature * bool :=
  match c_Coordinates c with
  | None => (st.1, true)
  | Some (lat_, lng_) =>
      if negb (Contains (ha_Bounds area) lat_ lng_) then st
      else if Unrecognized c then (st.1, true)
      else (st.1 ++ [chain_feature c lat_ lng_], st.2)
  end.

Definition chainControls (reply : ChainReply) (area : HazardArea) : Built :=
  match reply with
  | ChainFailed e => ([], Some (Hard e))
  | ChainControls controls partial =>
      let '(out, degraded) := foldl (add_control area) ([], partial) controls in
      (out, if degraded then Some partialData else None)
  end.

Definition segment_geometry (mr : MonitoredRoad) (rd : option ApiRoad) : option Geometry :=
  let straight := LineStringGeom [Origin mr; Destination mr] in
  match rd with
  | Some rd => if (2 <=? length (rd_Polyline rd))%nat then LineStringGeom (rd_Polyline rd) else straight
  | None => straight
  end.

Definition segment_feature (mr : MonitoredRoad) (rd : option ApiRoad) : Feature :=
  let headline := TrimSpace (mr_Name mr +:+ " — " +:+ mr_Section mr) in
  let make desc status_ road :=
    mkProperties ("road:" +:+ mr_ID mr) (ToUpper LayerRoadSegment) "Road segment" "" "" 0 headline desc status_ "" "" (mr_Section mr)
      (mkSourceRef "google" "Google Routes + Caltrans" "Google · quickmap.dot.ca.gov") (Some road) None None None in
  let '(p, sev) :=
    match rd with
    | Some rd => (make (rd_StatusExplanation rd) (TrimPrefix (RoadStatus_name (rd_Status rd)) "ROAD_STATUS_")
                    (mkRoadProps (mr_ID mr) (TrimPrefix (CongestionLevel_name (rd_CongestionLevel rd)) "CONGESTION_LEVEL_")
                       (Some (rd_DelayMinutes rd)) (Some (rd_DurationMinutes rd)) (Some (rd_DistanceKm rd))), roadSeverity rd)
    | None => (make "" "" (mkRoadProps (mr_ID mr) "" None None None), SevInfo)
    end in
  mkFeature (segment_geometry mr rd) (setSeverity sev p).

Definition segment_in (area : HazardArea) (mr : MonitoredRoad) : bool :=
  String.eqb (mr_ID mr) (ha_ID area) || Contains (ha_Bounds area) (Origin mr).1 (Origin mr).2
  || Contains (ha_Bounds area) (Destination mr).1 (Destination mr).2.

(** [byID] holds the last road of an id. *)
Definition road_of (roads : list ApiRoad) (id : string) : option ApiRoad := last (filter (fun rd => rd_Id rd = id) roads).

Definition roadSegments (monitored : list MonitoredRoad) (reply : string + list ApiRoad) (area : HazardArea) : Built :=
  match reply with
  | inl e => ([], Some (Hard e))
  | inr roads => ((fun mr => segment_feature mr (road_of roads (mr_ID mr))) <$> filter (fun mr => segment_in area mr = true) monitored, None)
  end.

Definition forecastPointFeature (loc : WeatherLocation) (f : Forecast) : Feature :=
  let gust := int32_of (PeakGustKmh f) in
  let summary := mkForecastSummary (fc_Source f) (rfc3339Time (IssuedAt f)) (HorizonHours f) gust (rfc3339Time (PeakGustAt f))
                   (if HasMinHumidity f then int32_of (MinHumidityPct f) else 0) in
  let p := mkProperties ("fw:forecast:" +:+ wl_ID loc) (ToUpper LayerFireWeather) "Fire-weather forecast" "" "" 0
             (wl_Name loc +:+ " forecast — peak gust " +:+ pretty gust +:+ " km/h") "" "" "" "" (wl_Name loc)
             (mkSourceRef "nws" "National Weather Service" "NOAA / National Weather Service") None None
             (Some (mkFireWeatherProps "" "" [] (Some summary))) None in
  mkFeature (Some (PointGeom (wl_Coordinates loc).1 (wl_Coordinates loc).2)) (setSeverity SevInfo p).

Definition fire_state (s : FireWeatherState) : string :=
  ReplaceAll (ToLower (TrimPrefix (FireWeatherState_name s) "FIRE_WEATHER_STATE_")) "_" "-".

Definition banner (fw : ApiFireWeather) : Feature :=
  let state := fire_state (fw_State fw) in
  let p := mkProperties "fw:region" (ToUpper LayerFireWeather) "Fire weather" state "" 0
             (nonEmpty [fw_Headline fw; "Fire weather: " +:+ state]) "" "" (tsToRFC3339 (fw_Effective fw)) (tsToRFC3339 (fw_Expires fw)) ""
             (mkSourceRef "nws" (nonEmpty [fw_SenderName fw; "National Weather Service"]) "NOAA / National Weather Service") None None
             (Some (mkFireWeatherProps state (fw_SourceEvent fw) (fw_Zones fw) None)) None in
  mkFeature None (setSeverity (fromFireWeatherState state) p).

Definition fireWeather (locations : list WeatherLocation) (reply : string + option ApiFireWeather) (forecasts : gmap string Forecast)
    (area : HazardArea) : Built :=
  match reply with
  | inl e => ([], Some (Hard e))
  | inr fw =>
      let region := match fw with
                    | Some fw => if zonesMatch (ha_Zones area) (fw_Zones fw) then [banner fw] else []
                    | None => []
                    end in
      let points := omap (fun loc => if Contains (ha_Bounds area) (wl_Coordinates loc).1 (wl_Coordinates loc).2
                                     then forecastPointFeature loc <$> forecasts !! wl_ID loc else None) locations in
      (region ++ points, None)
  end.

Definition messageSignFeature (district : Z) (sg : MessageSign) (lat_ lng_ : float64) (uniqueID : bool) : Feature :=
  let key := if negb uniqueID || String.eqb (sg_ID sg) "" || EqualFold (sg_ID sg) "N/A" then coords5 lat_ lng_ else sg_ID sg in
  let '(category, headline) :=
    match sg_Display sg with
    | DisplayBlank => ("blank", "Sign is blank")
    | DisplayUnknown => if InService sg then ("unknown", "Sign message unknown") else ("unknown", "Sign out of service")
    | _ => ("message", Text_ sg)
    end in
  let p := mkProperties ("cms:" +:+ pretty district +:+ ":" +:+ key) (ToUpper LayerMessageSign) "Message sign" category "" 0 headline
             "" "" (rfc3339Time (MessageSince sg)) "" (strip_sign_number (sg_Name sg))
             (mkSourceRef "caltrans" "Caltrans" "cwwp2.dot.ca.gov") None None None
             (Some (mkMessageSignProps (sg_ID sg) district (sg_Route sg) (sg_Direction sg) (InService sg) (Pages sg))) in
  mkFeature (Some (PointGeom lat_ lng_)) (setSeverity SevInfo p).

(** The signs of one district: the features, and whether one could not be placed. *)
Definition add_sign (area : HazardArea) (district : Z) (signs : list MessageSign) (st : list Feature * bool) (sg : MessageSign)
    : list Feature * bool :=
  match Position sg with
  | None => (st.1, true)
  | Some (lat_, lng_) =>
      if negb (Contains (ha_Bounds area) lat_ lng_) then st
      else (st.1 ++ [messageSignFeature district sg lat_ lng_ (Nat.eqb (length (filter (fun x => sg_ID x = sg_ID sg) signs)) 1)], st.2)
  end.
Fixpoint sign_districts (area : HazardArea) (source : Z -> string + list MessageSign) (st : list Feature * bool) (districts : list Z)
    : string + list Feature * bool :=
  match districts with
  | [] => inr st
  | d :: l =>
      match source d with
      | inl e => inl ("cwwp2 message signs: " +:+ e)
      | inr signs => sign_districts area source (foldl (add_sign area d signs) st signs) l
      end
  end.
Definition messageSigns (source : option (Z -> string + list MessageSign)) (districts : list Z) (area : HazardArea) : Built :=
  match source, districts with
  | None, _ | _, [] =>
      ([], Some (Hard "message signs: no CWWP2 districts configured (roads.caltransFeeds.cwwp2.messageSignDistricts)"))
  | Some source, _ =>
      match sign_districts area source ([], false) districts with
      | inl e => ([], Some (Hard e))
      | inr (out, unplaced) => (out, if unplaced : bool then Some partialData else None)
      end
  end.

End Builders.

(** ** One layer *)

Record layerMetadata := mkLayerMetadata { lm_attribution : string; lm_sourceURL : string }.
Definition layerMeta (layer : string) : layerMetadata :=
  if String.eqb layer LayerEvacuation
  then mkLayerMetadata "Cal OES / California County Governments — reference only" "https://protect.genasys.com/"
  else mkLayerMetadata "" "".

Record layerResult := mkLayerResult {
  features : list Feature; lr_status : string; meta : layerMetadata; lastSourceUpdate : Time }.
Definition finalize (meta : layerMetadata) (features : list Feature) (status : string) (lastUpdate : Time) : layerResult :=
  mkLayerResult features status meta lastUpdate.

Definition layerTTL (layer : string) : Duration :=
  if bool_decide (layer ∈ [LayerEarthquake; LayerWildfire; LayerChainControl; LayerFireWeather; LayerMessageSign]) then 5 * minute
  else if String.eqb layer LayerEvacuation then 2 * minute
  else 0.
Definition cacheEmptyResults (layer : string) : bool := negb (String.eqb layer LayerEvacuation).

Definition cache_key (areaID layer : string) : string := "hazard:" +:+ areaID +:+ ":" +:+ layer.
Definition cleanSource (layer : string) : string := "hazard:" +:+ layer.
Definition partialSource (layer : string) : string := "hazard:" +:+ layer +:+ ":partial".

(** The clock when the cache is looked at, when the builder has answered, and
    when the cache is written. *)
Record Clock := mkClock { looked : Time; answered_ : Time; written : Time }.

Section Layers.
Context {JF : Json (list Feature)}.

(** The decoded entry of a layer, whatever its age. *)
Definition held (key : string) (c : option Cache.Cache) : option (CacheEntry * list Feature) :=
  c ← c;
  '(entry, r) ← Cache.GetWithMetadata key c;
  match r with inr fs => Some (entry, fs) | inl _ => None end.
Definition keep (now : Time) (key : string) (fs : list Feature) (ttl : Duration) (source : string) (c : option Cache.Cache)
    : option Cache.Cache := (fun c => (Cache.Set_ now key fs ttl source c).1) <$> c.

Definition buildLayer (t : Clock) (areaID layer : string) (build : Built) (c : option Cache.Cache) : layerResult * option Cache.Cache :=
  let meta := layerMeta layer in
  let ttl := layerTTL layer in
  let key := cache_key areaID layer in
  let hit := if 0 <? ttl then (e ← held key c; if time_before (looked t) (ExpiresAt e.1) then Some e else None) else None in
  match hit with
  | Some (entry, cached) =>
      (if String.eqb (Source entry) (partialSource layer) then finalize meta cached "STALE" (CreatedAt entry)
       else finalize meta cached "OK" time_zero, c)
  | None =>
      match build with
      | (fs, Some partialData) =>
          (finalize meta fs "STALE" (answered_ t),
           if (0 <? ttl) && (0 <? length fs)%nat then keep (written t) key fs ttl (partialSource layer) c else c)
      | (_, Some (Hard _)) =>
          (match (if 0 <? ttl then (e ← held key c; if (0 <? length e.2)%nat then Some e else None) else None) with
           | Some (entry, stale) => finalize meta stale "STALE" (CreatedAt entry)
           | None => finalize meta [] "UNAVAILABLE" time_zero
           end, c)
      | (fs, None) =>
          (finalize meta fs "OK" time_zero,
           if (0 <? ttl) && ((0 <? length fs)%nat || cacheEmptyResults layer) then keep (written t) key fs ttl (cleanSource layer) c else c)
      end
  end.

End Layers.

(** ** The service *)

(** The configuration and what the upstreams answer a request. *)
Record Config := mkConfig { MonitoredRoads : list MonitoredRoad; Locations : list WeatherLocation; signDistricts : list Z }.
Record Upstream := mkUpstream {
  up_chain : ChainReply; up_roads : string + list ApiRoad; up_weather : string + option ApiFireWeather;
  up_forecasts : gmap string Forecast; up_signs : option (Z -> string + list MessageSign) }.

Section Service.
Context {UL : UnicodeLower} {UU : UnicodeUpper} {HT : HazardText} {JF : Json (list Feature)}.

Definition layerRegistry (cfg : Config) (up : Upstream) : list (string * (HazardArea -> Built)) :=
  [(LayerChainControl, chainControls (up_chain up)); (LayerFireWeather, fireWeather (Locations cfg) (up_weather up) (up_forecasts up));
   (LayerMessageSign, messageSigns (up_signs up) (signDistricts cfg)); (LayerRoadSegment, roadSegments (MonitoredRoads cfg) (up_roads up))].

Definition builder_of (cfg : Config) (up : Upstream) (layer : string) : option (HazardArea -> Built) :=
  snd <$> head (filter (fun e => e.1 = layer) (layerRegistry cfg up)).

(** Nothing for an unknown layer. *)
Definition BuildLayer (cfg : Config) (up : Upstream) (t : Clock) (area : HazardArea) (layer : string) (c : option Cache.Cache)
    : option layerResult * option Cache.Cache :=
  match builder_of cfg up layer with
  | None => (None, c)
  | Some build => let '(r, c) := buildLayer t (ha_ID area) layer (build area) c in (Some r, c)
  end.

End Service.

(** [DegradeStoreStatus]. *)
Definition DegradeStoreStatus (status : string) (hasData : bool) (lastUpdate : Time) : string * Time :=
  if String.eqb status "OK" then ("OK", time_zero)
  else if String.eqb status "STALE" then ("STALE", lastUpdate)
  else if hasData then ("STALE", lastUpdate)
  else ("UNAVAILABLE", time_zero).

End Hazards.
