(* ===== verification/HazardsSpec.v ===== *)
(** * What the condition layers promise

    An error never becomes a zero: whatever the sources and the cache went
    through, a layer that is served OK is a builder's own clean answer, of this
    moment or of less than its lifetime ago; a stale one says so and is never
    empty where a source failed; and the builder is asked at most once in a
    lifetime. The chain-control layer is OK only when every control was read and
    placed. *)

From S2P Require Import Prelude Float64 GoText Severity Feeds Cache Hazards.

Module HazardsSpec.
Import F64 Text Severity Feeds Hazards.
Import Cache (CacheEntry, CreatedAt, ExpiresAt, Source, Data).

(** What [json] gives back is what was marshalled. *)
Class RoundTrip {A} (J : Json A) : Prop := { round_trip : forall (a : A) s, marshal a = Some s -> unmarshal s = inr a }.

(** ** The history of a service *)

(** A request for a layer, with what its builder would answer, or what others do
    to the cache. *)
Inductive request := Serve (t : Clock) (areaID layer : string) (build : Built) | Other (o : Cache.op).

(** Others write no hazard key. *)
Definition foreign (r : request) : Prop :=
  match r with
  | Other (Cache.OSet _ key _ _ _) => HasPrefix key "hazard:" = false
  | _ => True
  end.

Definition known (layer : string) : Prop :=
  layer ∈ [LayerChainControl; LayerFireWeather; LayerMessageSign; LayerRoadSegment; LayerEvacuation; LayerEarthquake; LayerWildfire].
Definition known_layer (r : request) : Prop := match r with Serve _ _ layer _ => known layer | Other _ => True end.

(** What a request may be served, after the requests [l]. *)
Inductive served (l : list request) (t : Clock) (a ly : string) : Built -> layerResult -> Prop :=
  | clean_now fs : served l t a ly (fs, None) (mkLayerResult fs "OK" (layerMeta ly) time_zero)
  | clean_recent build t' fs' : Serve t' a ly (fs', None) ∈ l -> looked t < written t' + layerTTL ly ->
      served l t a ly build (mkLayerResult fs' "OK" (layerMeta ly) time_zero)
  | partial_now fs : served l t a ly (fs, Some partialData) (mkLayerResult fs "STALE" (layerMeta ly) (answered_ t))
  | partial_recent build t' fs' : Serve t' a ly (fs', Some partialData) ∈ l -> fs' <> [] -> looked t < written t' + layerTTL ly ->
      served l t a ly build (mkLayerResult fs' "STALE" (layerMeta ly) (written t'))
  | failed_kept fs e t' fs' err' : Serve t' a ly (fs', err') ∈ l -> fs' <> [] ->
      served l t a ly (fs, Some (Hard e)) (mkLayerResult fs' "STALE" (layerMeta ly) (written t'))
  | failed fs e : served l t a ly (fs, Some (Hard e)) (mkLayerResult [] "UNAVAILABLE" (layerMeta ly) time_zero).

(** *** Keys *)

Lemma known_no_colon layer : known layer -> Ascii.ascii_of_nat 58 ∉ bytes layer.
Proof.
  unfold known. set_unfold. intros H. apply (bool_decide_eq_false_1 (Ascii.ascii_of_nat 58 ∈ bytes layer)).
  decompose [or] H; subst; try done; vm_compute; reflexivity.
Qed.

Lemma app_last_sep {A} (c : A) l l' k k' : c ∉ k -> c ∉ k' -> l ++ c :: k = l' ++ c :: k' -> l = l' /\ k = k'.
Proof.
  intros Hk Hk'. revert l'. induction l as [|x l IH]; intros [|y l']; cbn.
  - by intros [= ->].
  - intros [= -> Heq]. exfalso. apply Hk. rewrite Heq. apply elem_of_app. right. left.
  - intros [= -> Heq]. exfalso. apply Hk'. rewrite <-Heq. apply elem_of_app. right. left.
  - intros [= -> Heq]. destruct (IH l' Heq) as [-> ->]. done.
Qed.

Lemma cache_key_inj a l a' l' :
  known l -> known l' ->
  cache_key a l = cache_key a' l' -> a = a' /\ l = l'.
Proof.
  intros Hl%known_no_colon Hl'%known_no_colon Heq. apply (f_equal bytes) in Heq. unfold cache_key in Heq.
  rewrite !bytes_app in Heq. apply app_inv_head in Heq.
  change (bytes ":") with [Ascii.ascii_of_nat 58] in Heq. cbn [app] in Heq.
  apply app_last_sep in Heq as [Ha Hb]; [|done|done].
  apply (f_equal of_bytes) in Ha, Hb. by rewrite !of_bytes_bytes in Ha, Hb.
Qed.

Lemma cache_key_prefix a l : HasPrefix (cache_key a l) "hazard:" = true.
Proof. unfold HasPrefix, cache_key. cbn. by destruct (a +:+ ":" +:+ l). Qed.

Lemma sources_differ layer : String.eqb (cleanSource layer) (partialSource layer) = false.
Proof.
  apply String.eqb_neq. unfold cleanSource, partialSource. intros H. apply (f_equal (fun s => length (bytes s))) in H.
  rewrite !bytes_app, !length_app in H. cbn in H. lia.
Qed.

Section Layers.
Context {JF : Json (list Feature)} {RT : RoundTrip JF}.

Definition handle (c : option Cache.Cache) (r : request) : option Cache.Cache :=
  match r with
  | Serve t areaID layer build => (buildLayer t areaID layer build c).2
  | Other o => (fun c => Cache.step c o) <$> c
  end.
Definition run (c : option Cache.Cache) (l : list request) : option Cache.Cache := foldl handle c l.

(** An entry of a layer's key holds the answer of one past request for it: a clean
    one, or a partial one that is not empty, tagged so. *)
Definition written_by (l : list request) (areaID layer : string) (e : CacheEntry) : Prop :=
  exists t fs err, Serve t areaID layer (fs, err) ∈ l /\ 0 < layerTTL layer
    /\ unmarshal (Data e) = inr fs /\ CreatedAt e = written t /\ ExpiresAt e = written t + layerTTL layer
    /\ (err = None /\ Source e = cleanSource layer \/ err = Some partialData /\ fs <> [] /\ Source e = partialSource layer).

Definition honest_cache (l : list request) (c : option Cache.Cache) : Prop :=
  forall areaID layer e m, c = Some m -> m !! cache_key areaID layer = Some e -> known layer ->
    written_by l areaID layer e.

(** *** One request *)

Lemma keep_lookup now key fs ttl src c m' k e :
  keep now key fs ttl src c = Some m' -> m' !! k = Some e ->
  (exists m, c = Some m /\ m !! k = Some e)
  \/ k = key /\ exists s, marshal fs = Some s /\ e = Cache.new_entry now key s ttl src.
Proof.
  unfold keep, Cache.Set_. destruct c as [m|]; [|done]. cbn. intros [= <-]. destruct (marshal fs) as [s|]; cbn.
  - destruct (decide (k = key)) as [->|Hne].
    + rewrite lookup_insert_eq. intros [= <-]. right. split; [done|]. by exists s.
    + rewrite lookup_insert_ne by done. left. by exists m.
  - left. by exists m.
Qed.

Lemma written_by_mono l r a ly e : written_by l a ly e -> written_by (l ++ [r]) a ly e.
Proof. intros (t & fs & err & Hin & H). exists t, fs, err. split; [|done]. apply elem_of_app. by left. Qed.

Lemma handle_honest l c r :
  foreign r -> known_layer r -> honest_cache l c -> honest_cache (l ++ [r]) (handle c r).
Proof using All.
  intros Hf Hk Hh a ly e m Hm He Hly. destruct r as [t a' ly' [fs err]|o]; cbn [handle] in Hm.
  - assert (Hnew : forall src, keep (written t) (cache_key a' ly') fs (layerTTL ly') src c = Some m -> 0 < layerTTL ly' ->
      (err = None /\ src = cleanSource ly' \/ err = Some partialData /\ fs <> [] /\ src = partialSource ly') ->
      written_by (l ++ [Serve t a' ly' (fs, err)]) a ly e).
    { intros src Hkeep Httl Hsrc. destruct (keep_lookup _ _ _ _ _ _ _ _ _ Hkeep He) as [(m0 & -> & Hm0)|(Hkey & s & Hs & ->)].
      - apply written_by_mono. by apply (Hh a ly e m0).
      - apply cache_key_inj in Hkey as [-> ->]; [|exact Hly|exact Hk]. exists t, fs, err. split_and!; try done.
        + apply elem_of_app. right. left.
        + cbn. by apply round_trip. }
    assert (Hold : c = Some m -> written_by (l ++ [Serve t a' ly' (fs, err)]) a ly e)
      by (intros ->; apply written_by_mono; by apply (Hh a ly e m)).
    unfold buildLayer in Hm. destruct (if 0 <? layerTTL ly' then _ else _) as [[entry cached]|] eqn:Eh.
    { clear Eh. destruct (String.eqb _ _) in Hm; exact (Hold Hm). }
    clear Eh. destruct err as [[x|]|]; cbn [snd] in Hm.
    + clear Hnew. exact (Hold Hm).
    + destruct (Z.ltb_spec 0 (layerTTL ly')) as [Httl|]; cbn [andb] in Hm; [|exact (Hold Hm)].
      destruct (Nat.ltb_spec 0 (length fs)); [|exact (Hold Hm)]. apply (Hnew _ Hm Httl). right.
      split_and!; try done. intros ->. cbn in *. lia.
    + destruct (Z.ltb_spec 0 (layerTTL ly')) as [Httl|]; cbn [andb] in Hm; [|exact (Hold Hm)].
      destruct (_ || _); [|exact (Hold Hm)]. apply (Hnew _ Hm Httl). by left.
  - destruct c as [m0|]; [|done]. cbn in Hm. injection Hm as <-. apply written_by_mono.
    apply (Hh a ly e m0); try done. destruct o as [now k d i s|k| |now]; cbn [Cache.step] in He.
    + rewrite lookup_insert_ne in He; [done|]. intros ->. cbn in Hf. by rewrite cache_key_prefix in Hf.
    + by apply lookup_delete_Some in He as [_ ?].
    + by rewrite lookup_empty in He.
    + rewrite Cache.cleanup_lookup in He. destruct (m0 !! _) as [e0|]; cbn in He; [|done].
      destruct (Cache.very_stale now e0); congruence.
Qed.

Lemma run_honest l : Forall foreign l -> Forall known_layer l -> honest_cache l (run (Some Cache.NewCache) l).
Proof using All.
  induction l as [|r l IH] using rev_ind; intros Hf Hk.
  - intros a ly e m [= <-] He. unfold Cache.NewCache in He. by rewrite lookup_empty in He.
  - apply Forall_app in Hf as [Hf Hf'], Hk as [Hk Hk']. inversion Hf'; inversion Hk'; subst. unfold run. rewrite foldl_snoc.
    by apply handle_honest; [| |apply IH].
Qed.

Lemma held_written l c a ly e fs :
  honest_cache l c -> known ly -> held (cache_key a ly) c = Some (e, fs) ->
  exists t err, Serve t a ly (fs, err) ∈ l /\ CreatedAt e = written t /\ ExpiresAt e = written t + layerTTL ly
    /\ (err = None /\ Source e = cleanSource ly \/ err = Some partialData /\ fs <> [] /\ Source e = partialSource ly).
Proof.
  intros Hh Hk. unfold held. destruct c as [m|]; [|done]. cbn. unfold Cache.GetWithMetadata.
  destruct (m !! cache_key a ly) as [e0|] eqn:He; [|done]. cbn. destruct (Hh a ly e0 m eq_refl He Hk) as (t & fs0 & err & Hin & _ & Hu & Hc).
  rewrite Hu. intros [= -> ->]. by exists t, err.
Qed.

(** C17: What a layer is served as is honest, after any history of requests and of
    what else happens to the cache. OK means a builder's own clean answer, of now
    or of a request less than the layer's lifetime ago; STALE means a partial
    answer, or one kept from an earlier request, which is then not empty and
    dated to it; UNAVAILABLE means that the builder failed and nothing is served.
    An error never becomes a zero: when a builder fails, nothing is served
    OK but an answer it gave itself, cleanly and recently. *)
Theorem layer_honest l t a ly build :
  Forall foreign l -> Forall known_layer l -> known ly ->
  served l t a ly build (buildLayer t a ly build (run (Some Cache.NewCache) l)).1.
Proof using All.
  intros Hf Hk Hly. pose proof (run_honest l Hf Hk) as Hh. set (c := run (Some Cache.NewCache) l) in *. clearbody c.
  destruct build as [fs err]. unfold buildLayer. destruct (if 0 <? layerTTL ly then _ else _) as [[e cached]|] eqn:Eh.
  - destruct (0 <? layerTTL ly); [|done]. destruct (held _ c) as [[e0 fs0]|] eqn:Hheld; [|done]. cbn in Eh.
    destruct (time_before (looked t) (ExpiresAt e0)) eqn:Hfresh; [|done]. injection Eh as -> ->. unfold time_before in Hfresh. apply Z.ltb_lt in Hfresh.
    destruct (held_written l c a ly e cached Hh Hly Hheld) as (t' & err' & Hin & Hc & Hx & [[-> Hs]|(-> & Hne & Hs)]); rewrite Hs; cbn [fst].
    + rewrite sources_differ. apply (clean_recent _ _ _ _ _ t'); [done|lia].
    + rewrite String.eqb_refl, Hc. apply partial_recent; [done|done|lia].
  - clear Eh. destruct err as [[x|]|]; cbn [fst]; [|apply partial_now|apply clean_now].
    destruct (if 0 <? layerTTL ly then _ else _) as [[e stale]|] eqn:Es; [|apply failed].
    destruct (0 <? layerTTL ly); [|done]. destruct (held _ c) as [[e0 fs0]|] eqn:Hheld; [|done]. cbn in Es.
    destruct fs0 as [|f fs0]; [done|]. injection Es as -> <-.
    destruct (held_written l c a ly e (f :: fs0) Hh Hly Hheld) as (t' & err' & Hin & Hc & _). rewrite Hc.
    by apply (failed_kept _ _ _ _ _ _ _ _ err').
Qed.

(** ** One fetch in a lifetime *)

Lemma TTL_bounds ly : 0 <= layerTTL ly /\ 2 * layerTTL ly <= max_int64.
Proof. unfold layerTTL. repeat case_match; vm_compute; split; congruence. Qed.

(** What happens while an entry written at [t0] is fresh. *)
Definition calm (key : string) (t0 ttl : Duration) (r : request) : Prop :=
  match r with
  | Serve t _ _ _ => looked t < t0 + ttl
  | Other o => Cache.spares key (t0 + 2 * ttl) o
  end.

Lemma calm_handle c a ly r data src t0 :
  let key := cache_key a ly in let e := Cache.new_entry t0 key data (layerTTL ly) src in
  known ly -> known_layer r -> 0 < layerTTL ly -> is_Some (held key (Some c)) -> calm key t0 (layerTTL ly) r -> c !! key = Some e ->
  exists c', handle (Some c) r = Some c' /\ c' !! key = Some e.
Proof.
  cbn zeta. intros Hly Hk Httl [[e0 fs0] Hheld] Hc He. pose proof Hheld as Hheld'. unfold held in Hheld'. cbn in Hheld'. unfold Cache.GetWithMetadata in Hheld'.
  rewrite He in Hheld'. cbn in Hheld'. destruct (unmarshal data) as [|x] eqn:Hu; [done|]. injection Hheld' as <- <-.
  destruct r as [t a' ly' [fs err]|o]; cbn [handle].
  - assert (Hother : forall src', cache_key a' ly' <> cache_key a ly ->
      exists c', keep (written t) (cache_key a' ly') fs (layerTTL ly') src' (Some c) = Some c' /\ c' !! cache_key a ly = Some (Cache.new_entry t0 (cache_key a ly) data (layerTTL ly) src)).
    { intros src' Hne. unfold keep, Cache.Set_. cbn. destruct (marshal fs); eexists; (split; [reflexivity|]); [|done].
      cbn. by rewrite lookup_insert_ne. }
    destruct (decide (cache_key a' ly' = cache_key a ly)) as [Heq|Hne].
    + apply cache_key_inj in Heq as [-> ->]; [|exact Hk|exact Hly]. exists c. split; [|done]. unfold buildLayer. destruct (Z.ltb_spec 0 (layerTTL ly)); [|lia].
      rewrite Hheld. cbn. unfold time_before, time_add. cbn in Hc. destruct (Z.ltb_spec (looked t) (t0 + layerTTL ly)); [|lia]. reflexivity.
    + unfold buildLayer. destruct (if 0 <? layerTTL ly' then _ else _) as [[entry cached]|]; [destruct (String.eqb _ _); by exists c|].
      destruct err as [[x'|]|]; cbn [snd]; [by exists c|..].
      * destruct (_ && _); [by apply Hother|by exists c].
      * destruct (_ && _); [by apply Hother|by exists c].
  - exists (Cache.step c o). split; [done|]. apply (Cache.spared_step _ (t0 + 2 * layerTTL ly)); [done| |done].
    cbn. destruct (TTL_bounds ly). rewrite Cache.double_exact by lia. unfold time_add. lia.
Qed.

Lemma calm_run l c a ly data src t0 :
  let key := cache_key a ly in let e := Cache.new_entry t0 key data (layerTTL ly) src in
  known ly -> Forall known_layer l -> 0 < layerTTL ly -> is_Some (held key (Some c)) -> Forall (calm key t0 (layerTTL ly)) l -> c !! key = Some e ->
  exists c', run (Some c) l = Some c' /\ c' !! key = Some e.
Proof.
  cbn zeta. intros Hly Hk Httl Hheld Hc. revert c Hheld. induction l as [|r l IH]; intros c Hheld He; [by exists c|].
  inversion Hk; inversion Hc; subst. unfold run. cbn [foldl].
  destruct (calm_handle c a ly r data src t0) as (c' & Hc' & He'); try done. rewrite Hc'.
  apply IH; try done. unfold held in *. cbn in *. unfold Cache.GetWithMetadata in *. by rewrite He in Hheld; rewrite He'.
Qed.

(** The answers that are kept for the layer's lifetime. *)
Definition worth_keeping (ly : string) (b : Built) : Prop :=
  match b.2 with
  | None => b.1 <> [] \/ cacheEmptyResults ly = true
  | Some partialData => b.1 <> []
  | Some (Hard _) => False
  end.

(** The sources are asked once in a lifetime. After an answer that is worth
    keeping, whatever other requests come and go, a request for the layer that
    comes before its lifetime is over is answered with the same features and
    the same honesty, whatever the builder would say now: it is not asked. *)
Theorem fetched_once c t a ly build data l t' build' :
  let key := cache_key a ly in
  known ly -> 0 < layerTTL ly -> held key (Some c) = None -> worth_keeping ly build -> marshal build.1 = Some data ->
  Forall known_layer l -> Forall (calm key (written t) (layerTTL ly)) l -> looked t' < written t + layerTTL ly ->
  let first := buildLayer t a ly build (Some c) in
  let r := buildLayer t' a ly build' (run first.2 l) in
  features r.1 = build.1 /\ features first.1 = build.1 /\ lr_status r.1 = lr_status first.1
  /\ r.2 = run first.2 l /\ (lr_status r.1 = "STALE" -> lastSourceUpdate r.1 = written t).
Proof using All.
  cbn zeta. intros Hly Httl Hmiss Hw Hm Hk Hc Ht. destruct build as [fs err]. cbn [fst] in *.
  pose (src := match err with None => cleanSource ly | Some _ => partialSource ly end).
  assert (Hfirst : buildLayer t a ly (fs, err) (Some c)
    = (mkLayerResult fs (match err with None => "OK" | Some _ => "STALE" end) (layerMeta ly) (match err with None => time_zero | Some _ => answered_ t end),
       Some (<[cache_key a ly := Cache.new_entry (written t) (cache_key a ly) data (layerTTL ly) src]> c))).
  { unfold buildLayer. destruct (Z.ltb_spec 0 (layerTTL ly)); [|lia]. rewrite Hmiss. cbn [mbind option_bind].
    unfold worth_keeping in Hw. cbn [fst snd] in Hw. destruct err as [[x|]|]; [done|..]; cbn [andb].
    - destruct (Nat.ltb_spec 0 (length fs)); [|destruct fs; [done|cbn in *; lia]]. unfold keep, Cache.Set_. by rewrite Hm.
    - replace ((0 <? length fs)%nat || cacheEmptyResults ly) with true.
      + unfold keep, Cache.Set_. by rewrite Hm.
      + destruct Hw as [Hw| ->]; [by destruct fs|by rewrite orb_true_r]. }
  rewrite Hfirst. cbn [fst snd]. set (c1 := <[cache_key a ly := _]> c).
  assert (Hc1 : c1 !! cache_key a ly = Some (Cache.new_entry (written t) (cache_key a ly) data (layerTTL ly) src)) by apply lookup_insert_eq.
  destruct (calm_run l c1 a ly data src (written t)) as (c' & Hrun & He); try done.
  { unfold held. cbn. unfold Cache.GetWithMetadata. rewrite Hc1. cbn. by rewrite (round_trip _ _ Hm). }
  rewrite Hrun. assert (Hheld : held (cache_key a ly) (Some c') = Some (Cache.new_entry (written t) (cache_key a ly) data (layerTTL ly) src, fs)).
  { unfold held. cbn. unfold Cache.GetWithMetadata. rewrite He. cbn. by rewrite (round_trip _ _ Hm). }
  unfold buildLayer. destruct (Z.ltb_spec 0 (layerTTL ly)); [|lia]. rewrite Hheld. cbn [mbind option_bind fst].
  unfold time_before. cbn [ExpiresAt Cache.new_entry]. unfold time_add. destruct (Z.ltb_spec (looked t') (written t + layerTTL ly)); [|lia].
  cbn [Source Cache.new_entry]. unfold src. unfold worth_keeping in Hw. cbn [fst snd] in Hw. destruct err as [[x|]|]; [done|..].
  - rewrite String.eqb_refl. by split_and!.
  - rewrite sources_differ. by split_and!.
Qed.

End Layers.

(** ** Chain controls *)

Section Controls.
Context {UL : UnicodeLower} {UU : UnicodeUpper} {HT : HazardText}.

(** A control that lies in the area. *)
Definition control_in (area : HazardArea) (c : ChainControlData) : bool :=
  match c_Coordinates c with Some (lat_, lng_) => Contains (ha_Bounds area) lat_ lng_ | None => false end.

Lemma add_controls_spec area partial controls :
  let st := foldl (add_control area) ([], partial) controls in
  st.1 = omap (fun c => match c_Coordinates c with
                        | Some (lat_, lng_) => if control_in area c && negb (Unrecognized c) then Some (chain_feature c lat_ lng_) else None
                        | None => None
                        end) controls
  /\ (st.2 = false <-> partial = false /\ forall c, c ∈ controls -> is_Some (c_Coordinates c) /\ (control_in area c = true -> Unrecognized c = false)).
Proof.
  cbn zeta. induction controls as [|c l [H1 H2]] using rev_ind.
  { split; [done|]. cbn. split; [|by intros [? _]]. intros ?. split; [done|]. by intros c ?%not_elem_of_nil. }
  rewrite foldl_snoc, omap_app. cbn [omap list_omap].
  assert (Hall : forall P : ChainControlData -> Prop, (forall x, x ∈ l ++ [c] -> P x) <-> (forall x, x ∈ l -> P x) /\ P c).
  { intros P. setoid_rewrite elem_of_app. setoid_rewrite list_elem_of_singleton. naive_solver. }
  rewrite Hall. set (st := foldl (add_control area) ([], partial) l) in *. clearbody st. unfold add_control.
  destruct (c_Coordinates c) as [[la ln]|] eqn:Ec; cbn [fst snd].
  - assert (Hc : control_in area c = Contains (ha_Bounds area) la ln) by (unfold control_in; by rewrite Ec). rewrite Hc.
    destruct (Contains (ha_Bounds area) la ln); cbn [negb andb].
    + destruct (Unrecognized c); cbn [negb fst snd]; rewrite H1.
      * rewrite app_nil_r. split; [done|]. split; [done|]. intros (_ & _ & _ & Hu). by specialize (Hu eq_refl).
      * split; [done|]. rewrite H2. split; [intros (? & ?); split_and!; eauto|tauto].
    + rewrite H1, app_nil_r. split; [done|]. rewrite H2. split; [intros (? & ?); split_and!; eauto; done|tauto].
  - rewrite H1, app_nil_r. split; [done|]. split; [done|]. intros (_ & _ & [? ?] & _). done.
Qed.

(** The chain-control layer claims no more than it knows. It is complete and
    clean only when the feed was whole, every control of it has a place, and
    every control in the area could be read; and every control in the area that
    could be read has its feature, whatever else is wrong. *)
Theorem controls_complete reply area :
  let out := (chainControls reply area).1 in
  let err := (chainControls reply area).2 in
  match reply with
  | ChainFailed e => err = Some (Hard e) /\ out = []
  | ChainControls controls partial =>
      (forall c la ln, c ∈ controls -> c_Coordinates c = Some (la, ln) -> Contains (ha_Bounds area) la ln = true ->
         Unrecognized c = false -> chain_feature c la ln ∈ out)
      /\ (forall f, f ∈ out -> exists c la ln, c ∈ controls /\ c_Coordinates c = Some (la, ln) /\ f = chain_feature c la ln
            /\ Contains (ha_Bounds area) la ln = true /\ Unrecognized c = false)
      /\ (err = None \/ err = Some partialData)
      /\ (err = None <-> partial = false /\ forall c, c ∈ controls ->
            is_Some (c_Coordinates c) /\ (control_in area c = true -> Unrecognized c = false))
  end.
Proof.
  cbn zeta. unfold chainControls. destruct reply as [e|controls partial]; [done|].
  destruct (add_controls_spec area partial controls) as [H1 H2]. destruct (foldl _ _ controls) as [o degraded]. cbn [fst snd] in *.
  subst o. split_and!.
  - intros c la ln Hc Hco Hin Hu. apply list_elem_of_omap. exists c. split; [done|]. unfold control_in. rewrite Hco, Hin, Hu. done.
  - intros f (c & Hc & Hf)%list_elem_of_omap. unfold control_in in Hf. destruct (c_Coordinates c) as [[la ln]|] eqn:Hco; [|done].
    destruct (Contains (ha_Bounds area) la ln) eqn:Hin; [|done]. destruct (Unrecognized c) eqn:Hu; [done|]. injection Hf as <-.
    by exists c, la, ln.
  - destruct degraded; [by right|by left].
  - rewrite <-H2. by destruct degraded.
Qed.

End Controls.

(** ** A concrete service *)

Module HazardsDemo.

#[local] Instance Coords_eq_dec : EqDecision Coords.
Proof. solve_decision. Defined.
#[local] Instance Geom_eq_dec : EqDecision Hazards.Geometry.
Proof. solve_decision. Defined.
#[local] Instance SourceRef_eq_dec : EqDecision SourceRef.
Proof. solve_decision. Defined.
#[local] Instance RoadProps_eq_dec : EqDecision RoadProps.
Proof. solve_decision. Defined.
#[local] Instance ChainControlProps_eq_dec : EqDecision ChainControlProps.
Proof. solve_decision. Defined.
#[local] Instance ForecastSummary_eq_dec : EqDecision ForecastSummary.
Proof. solve_decision. Defined.
#[local] Instance FireWeatherProps_eq_dec : EqDecision FireWeatherProps.
Proof. solve_decision. Defined.
#[local] Instance MessageSignProps_eq_dec : EqDecision MessageSignProps.
Proof. solve_decision. Defined.
#[local] Instance Properties_eq_dec : EqDecision Properties.
Proof. solve_decision. Defined.
#[local] Instance Feature_eq_dec : EqDecision Feature.
Proof. solve_decision. Defined.

#[local] Existing Instance ascii_only.
#[local] Instance upper : UnicodeUpper := {| unicode_upper s := s |}.
#[local] Instance texts : HazardText := {| rfc3339 _ := "t" |}.

Definition area : HazardArea :=
  mkHazardArea "ebbetts" "Ebbetts Pass" (mkGeoBounds (of_Z 38) (of_Z 39) (of_Z (-121)) (of_Z (-119))) "" [].
Definition control (lvl : string) (pos : option (float64 * float64)) (bad : bool) : ChainControlData :=
  mkChainControlData "Highway 4" "Eastbound" lvl "Camp Connell" pos "" "" "m1" "" bad false.
Definition here : option (float64 * float64) := Some (of_Z 38, of_Z (-120)).
Definition r2 : list Feature := (chainControls (ChainControls [control "R2" here false] false) area).1.

(** Texts for the empty list and for [r2]; nothing else marshals. *)
#[local] Instance json : Json (list Feature) :=
  {| marshal fs := if decide (fs = []) then Some "[]" else if decide (fs = r2) then Some "[r2]" else None;
     unmarshal s := if String.eqb s "[]" then inr [] else if String.eqb s "[r2]" then inr r2 else inl "syntax" |}.
#[local] Instance json_round_trip : RoundTrip json.
Proof.
  split. intros a s. cbn. destruct (decide (a = [])) as [->|]; [by intros [= <-]|].
  destruct (decide (a = r2)) as [->|]; [by intros [= <-]|done].
Defined.

Definition at_ (t : Time) : Clock := mkClock t t t.
Definition ask (t : Time) (b : Built) : request := Serve (at_ t) "ebbetts" LayerChainControl b.
Definition down : Built := ([], Some (Hard "timeout")).
Definition show (r : layerResult) : nat * string * Time := (length (features r), lr_status r, lastSourceUpdate r).
Definition after (l : list request) (t : Time) (b : Built) : nat * string * Time :=
  show (buildLayer (at_ t) "ebbetts" LayerChainControl b (run (Some Cache.NewCache) l)).1.

(** A cached control outlives the failure of the feed; a cached empty does not
    become its answer, and neither does an entry that the cleanup dropped. *)
Example fresh_hit : after [ask 1 (r2, None)] (4 * minute) down = (1%nat, "OK", 0).
Proof. vm_compute. reflexivity. Qed.
Example kept_stale : after [ask 1 (r2, None)] (6 * minute) down = (1%nat, "STALE", 1).
Proof. vm_compute. reflexivity. Qed.
Example empty_is_not_kept : after [ask 1 ([], None)] (6 * minute) down = (0%nat, "UNAVAILABLE", 0).
Proof. vm_compute. reflexivity. Qed.
Example cleaned_up : after [ask 1 (r2, None); Other (Cache.OCleanup (11 * minute))] (11 * minute) down = (0%nat, "UNAVAILABLE", 0).
Proof. vm_compute. reflexivity. Qed.
Example partial_stays : after [ask 1 (r2, Some partialData)] (4 * minute) ([], None) = (1%nat, "STALE", 1).
Proof. vm_compute. reflexivity. Qed.
Example unplaced_is_partial : chainControls (ChainControls [control "R2" here false; control "R3" None false] false) area = (r2, Some partialData).
Proof. vm_compute. reflexivity. Qed.

Lemma layer_honest_witness :
  served [ask 1 (r2, None)] (at_ (6 * minute)) "ebbetts" LayerChainControl down
    (buildLayer (at_ (6 * minute)) "ebbetts" LayerChainControl down (run (Some Cache.NewCache) [ask 1 (r2, None)])).1.
Proof. apply layer_honest; [by repeat constructor|repeat constructor; unfold known; cbn; left|unfold known; left]. Defined.

Lemma fetched_once_witness :
  let first := buildLayer (at_ 1) "ebbetts" LayerChainControl (r2, None) (Some Cache.NewCache) in
  features (buildLayer (at_ (4 * minute)) "ebbetts" LayerChainControl down (run first.2 [ask minute down])).1 = r2.
Proof.
  apply (fetched_once Cache.NewCache (at_ 1) "ebbetts" LayerChainControl (r2, None) "[r2]" [ask minute down] (at_ (4 * minute)) down).
  - unfold known. left.
  - vm_compute. reflexivity.
  - vm_compute. reflexivity.
  - by left.
  - cbn [marshal json fst]. by destruct (decide (r2 = [])) as [E|_]; [discriminate E|]; destruct (decide (r2 = r2)).
  - repeat constructor; unfold known; left.
  - repeat constructor; vm_compute; reflexivity.
  - vm_compute. reflexivity.
Defined.

End HazardsDemo.

End HazardsSpec.
