(* ===== verification/Summary.v ===== *)
(** * The place summary

    [internal/gridapi/summary.go], over the store's queries and the condition
    layers, with the source health of [maplayers.go]. The store is the monad of
    [Tx]; the condition layers are a builder that keeps a state of its own
    ([Hazards.BuildLayer] with its cache is one). The three builders run at the
    same time in the code; they touch different cache entries, and here they
    run in turn. The clock is an argument. *)

From Stdlib Require Import Ascii.
From S2P Require Import Prelude Float64 Geojson GridEvent GoText Tx Store Sources Places Query Feeds Evacuation Hazards.

Module Summary.
Import F64 Grid Text Store Sources Places Feeds.
Import Evacuation (GetLevel).
Import Query (TokenCodec, eventCursor, EventQuery, mkEventQuery, QueryEvents, set_token).
Import Hazards (Feature, fProperties, pID, pSeverity, SeverityRank, Headline, pLayer, FireWeather, State, DegradeStoreStatus).
Open Scope tx_scope.

(** ** Names *)

Definition Severity_name (s : Severity) : string :=
  match s with INFO => "INFO" | MINOR => "MINOR" | MODERATE => "MODERATE" | SEVERE => "SEVERE" | EXTREME => "EXTREME" end.
Definition Layer_name (l : Layer) : string :=
  match l with
  | LAYER_UNSPECIFIED => "LAYER_UNSPECIFIED" | WILDFIRE => "WILDFIRE" | EVACUATION => "EVACUATION" | WEATHER_ALERT => "WEATHER_ALERT"
  | FIRE_WEATHER => "FIRE_WEATHER" | EARTHQUAKE => "EARTHQUAKE" | ROAD_INCIDENT => "ROAD_INCIDENT" | POWER => "POWER"
  | GAUGE => "GAUGE" | AIR_QUALITY => "AIR_QUALITY" | MESH => "MESH" | ANNOUNCEMENT => "ANNOUNCEMENT" | BURN_STATUS => "BURN_STATUS"
  end.
Definition SourceStatus_name (s : SourceStatus) : string :=
  match s with SOURCE_STATUS_UNSPECIFIED => "SOURCE_STATUS_UNSPECIFIED" | OK => "OK" | STALE => "STALE" | UNAVAILABLE => "UNAVAILABLE" end.

(** ** Source health *)

Definition eventLayers : list (string * Layer) :=
  [(Hazards.LayerWildfire, WILDFIRE); (Hazards.LayerEvacuation, EVACUATION); (Hazards.LayerWeatherAlert, WEATHER_ALERT);
   (Hazards.LayerEarthquake, EARTHQUAKE); (Hazards.LayerRoadIncident, ROAD_INCIDENT); (Hazards.LayerMesh, MESH);
   (Hazards.LayerPower, POWER)].
Definition burnLineSourceID : string := "burnline".
Definition calfireBurnSourceID : string := "calfire-burn".
Definition layerSources : list (string * list string) :=
  [(Hazards.LayerWildfire, ["calfire"; "firis"]); (Hazards.LayerEvacuation, ["caloes"]); (Hazards.LayerWeatherAlert, ["nws"]);
   (Hazards.LayerEarthquake, ["usgs"]); (Hazards.LayerRoadIncident, ["chp"; "caltrans"]); (Hazards.LayerMesh, ["meshcore"]);
   (Hazards.LayerMeshLink, ["meshcore"]); (Hazards.LayerPower, ["pge"; "psps"]);
   (Hazards.LayerBurnStatus, [burnLineSourceID; calfireBurnSourceID])].
Definition lookup_layer {A} (l : list (string * A)) (layer : string) : option A := snd <$> head (filter (fun x => x.1 = layer) l).
Definition layerSourceIDs (layer : string) : list string := default [] (lookup_layer layerSources layer).

(** [byID] of the registry rows. *)
Definition source_by_id (sources : list Source) (id : string) : option Source := last (filter (fun s => so_id s = id) sources).

(** A row that is missing or was never polled counts as down. *)
Definition status_of (src : option Source) : SourceStatus :=
  match src with
  | None => UNAVAILABLE
  | Some s => match so_status s with SOURCE_STATUS_UNSPECIFIED => UNAVAILABLE | st => st end
  end.

Definition later_success (t : Time) (src : option Source) : Time :=
  match src ≫= so_last_success_at with Some ts => if time_after ts t then ts else t | None => t end.

Definition LayerSourceStatus (sources : list Source) (layer : string) : string * Time :=
  let ids := layerSourceIDs layer in
  match ids with
  | [] => ("UNAVAILABLE", time_zero)
  | _ =>
      let rows := source_by_id sources <$> ids in
      let okCount := length (filter (fun r => status_of r = OK) rows) in
      let downCount := length (filter (fun r => status_of r = UNAVAILABLE) rows) in
      let lastSuccess := foldl later_success time_zero rows in
      if Nat.eqb okCount (length ids) then ("OK", time_zero)
      else if Nat.eqb downCount (length ids) then ("UNAVAILABLE", lastSuccess)
      else ("STALE", lastSuccess)
  end.

Definition storeLayerEnum (layer : string) : Layer :=
  match lookup_layer eventLayers layer with
  | Some l => l
  | None => if String.eqb layer Hazards.LayerBurnStatus then BURN_STATUS else LAYER_UNSPECIFIED
  end.

(** ** The mode *)

Definition ModeQuiet : string := "QUIET".
Definition ModeWatch : string := "WATCH".
Definition ModeActive : string := "ACTIVE".

Record ModeInputs := mkModeInputs {
  ActiveEvacLevels : list string; EvacUnavailable : bool; MaxActiveSeverity : Severity; MaxWildfireSeverity : Severity;
  FireWeatherState : string; AnyLayerUnavailable : bool }.

Definition at_least (s : Severity) (x : Severity) : bool := Severity_number s <=? Severity_number x.

Definition ComputeMode `{UnicodeLower} (i : ModeInputs) : string :=
  if existsb (fun lvl => negb (String.eqb lvl "ADVISORY")) (ActiveEvacLevels i) then ModeActive
  else if at_least EXTREME (MaxActiveSeverity i) then ModeActive
  else if at_least SEVERE (MaxWildfireSeverity i) then ModeActive
  else if at_least SEVERE (MaxActiveSeverity i) then ModeWatch
  else if existsb (fun lvl => String.eqb lvl "ADVISORY") (ActiveEvacLevels i) then ModeWatch
  else if String.eqb (ToLower (FireWeatherState i)) "elevated" || String.eqb (ToLower (FireWeatherState i)) "red-flag" then ModeWatch
  else if EvacUnavailable i then ModeWatch
  else if AnyLayerUnavailable i && at_least MODERATE (MaxActiveSeverity i) then ModeWatch
  else ModeQuiet.

(** ** Rollups *)

Definition isPlannedRoadwork (ev : Event) : bool := bool_decide (layer ev = ROAD_INCIDENT) && bool_decide (status ev = SCHEDULED).
Definition withoutPlannedRoadwork (evs : list Event) : list Event := filter (fun ev => isPlannedRoadwork ev = false) evs.

(** The events the top-level rollup counts. *)
Definition counted (ev : Event) : bool :=
  negb (bool_decide (layer ev = MESH) || bool_decide (layer ev = BURN_STATUS)
        || bool_decide (layer ev = POWER) && bool_decide (severity ev = INFO) || isPlannedRoadwork ev).
Definition hazard_events (evs : list Event) : list Event := filter (fun ev => counted ev = true) evs.

Record SummaryTopEvent := mkSummaryTopEvent {
  te_Id : string; te_Layer : string; te_Severity : string; te_SeverityRank : Z; te_Headline : string; te_Source : string }.

(** [GetObservedAt().AsTime()]: a nil timestamp is the Unix epoch. *)
Definition observed (ev : Event) : Time := default (time_of_unix 0) (observed_at ev).
Definition more_urgent (a b : Event) : bool :=
  if negb (bool_decide (severity a = severity b)) then Severity_number (severity b) <? Severity_number (severity a)
  else time_after (observed a) (observed b).
Definition top_event (ev : Event) : SummaryTopEvent :=
  mkSummaryTopEvent (Id ev) (Layer_name (layer ev)) (Severity_name (severity ev)) (Severity_number (severity ev)) (headline ev)
    (GetSourceId ev).
Definition topEventsFrom (evs : list Event) (n : nat) : list SummaryTopEvent := top_event <$> take n (SliceStable more_urgent evs).

Record SummaryStats := mkSummaryStats {
  HighestSeverity : string; HighestSeverityRank : Z; SeverityCounts : gmap string Z; TotalActive : Z;
  ActiveEvacuations : option Z; EvacuationStatus : string; TopEvents : list SummaryTopEvent; EvacuationSourceUrl : string }.

(** The highest severity, its rank and the counts. *)
Definition tally (st : string * Z * gmap string Z) (ev : Event) : string * Z * gmap string Z :=
  let '(highest, rank, counts) := st in
  let name := Severity_name (severity ev) in
  let counts := <[name := default 0 (counts !! name) + 1]> counts in
  if rank <=? Severity_number (severity ev) then (name, Severity_number (severity ev), counts) else (highest, rank, counts).

Record mergedItem := mkItem {
  it_id : string; it_severity : string; it_rank : Z; it_headline : string; isCondition : bool; it_layer : string }.
Definition eventItems (evs : list Event) : list mergedItem :=
  (fun ev => mkItem (Id ev) (Severity_name (severity ev)) (Severity_number (severity ev)) (headline ev) false (Layer_name (layer ev))) <$> evs.
Definition featureItems `{UnicodeUpper} (fs : list Feature) : list mergedItem :=
  (fun f => let p := fProperties f in mkItem (pID p) (pSeverity p) (SeverityRank p) (Headline p) true (ToUpper (pLayer p))) <$> fs.

Record SummaryDomainHeadline := mkSummaryDomainHeadline {
  dh_Id : string; dh_Severity : string; dh_Headline : string; dh_Kind : string; dh_Layer : string }.
Record SummaryDomain := mkSummaryDomain {
  Domain : string; sd_Status : string; sd_HighestSeverity : string; ActiveCount : Z; Headlines : list SummaryDomainHeadline }.

Definition status_rank (s : string) : nat := if String.eqb s "OK" then 0 else if String.eqb s "STALE" then 1 else 2.
Definition worstStatus (statuses : list string) : string :=
  match foldl (fun worst s => if (worst <? status_rank s)%nat then status_rank s else worst) 0%nat statuses with
  | O => "OK" | S O => "STALE" | _ => "UNAVAILABLE"
  end.

Definition active_item (it : mergedItem) : bool := negb (isCondition it && (it_rank it <=? Severity_number INFO)).
Definition headline_of (it : mergedItem) : SummaryDomainHeadline :=
  mkSummaryDomainHeadline (it_id it) (it_severity it) (it_headline it) (if isCondition it then "CONDITION" else "EVENT") (it_layer it).
Definition top_rank (st : Z * string) (it : mergedItem) : Z * string := if st.1 <? it_rank it then (it_rank it, it_severity it) else st.
Definition buildDomain (name : string) (statuses : list string) (items : list mergedItem) : SummaryDomain :=
  let active := filter (fun it => active_item it = true) items in
  mkSummaryDomain name (worstStatus statuses) (foldl top_rank (-1, Severity_name INFO) active).2 (Z.of_nat (length active))
    (headline_of <$> take 3 (SliceStable (fun a b => it_rank b <? it_rank a) active)).

(** ** Conditions *)

Definition fire_rank (s : string) : nat := if String.eqb s "red-flag" then 2 else if String.eqb s "elevated" then 1 else 0.
Definition escalate_state (state : string) (f : Feature) : string :=
  match FireWeather (fProperties f) with
  | Some fw =>
      if String.eqb (State fw) "" then state
      else if String.eqb state "" || (fire_rank state <? fire_rank (State fw))%nat then State fw else state
  | None => state
  end.
Definition fireWeatherState (fs : list Feature) : string := foldl escalate_state "" fs.

Record conditionResult := mkCondition { c_features : list Feature; cond_status : string }.

(** [hazardsBuilder]: the features and status of a layer, nothing for an
    unknown one; [W] is the builder's own state. *)
Definition hazardsBuilder (W : Type) : Type := HazardArea -> string -> W -> option (list Feature * string) * W.

Definition buildCondition {W} (hb : option (hazardsBuilder W)) (area : HazardArea) (layer : string) (w : W) : conditionResult * W :=
  match hb with
  | None => (mkCondition [] "UNAVAILABLE", w)
  | Some hb =>
      match hb area layer w with
      | (None, w) => (mkCondition [] "UNAVAILABLE", w)
      | (Some (fs, st), w) => (mkCondition fs st, w)
      end
  end.

Record Conditions := mkConditions { condChain : conditionResult; condSegment : conditionResult; condFireWx : conditionResult }.
Definition fetch_conditions {W} (hb : option (hazardsBuilder W)) (area : HazardArea) (covered : bool) (w : W) : Conditions * W :=
  let '(chain, w) := buildCondition hb area Hazards.LayerChainControl w in
  let '(segment, w) := buildCondition hb area Hazards.LayerRoadSegment w in
  let '(fire, w) := if covered then buildCondition hb area Hazards.LayerFireWeather w else (mkCondition [] "OK", w) in
  (mkConditions chain segment fire, w).

(** *** The area of a place *)

Definition box_of (b : GeoBounds) : Geojson.Box := Geojson.mkBox (MinLatitude b) (MinLongitude b) (MaxLatitude b) (MaxLongitude b).

(** The synthesized area, the zones seen, and whether an area intersects. *)
Definition inherit (st : HazardArea * bool) (a : HazardArea) : HazardArea * bool :=
  let '(area, covered) := st in
  if Geojson.BboxIntersects (box_of (ha_Bounds a)) (box_of (ha_Bounds area)) then
    (mkHazardArea (ha_ID area) (ha_Name area) (ha_Bounds area)
       (if String.eqb (IncidentArea area) "" then IncidentArea a else IncidentArea area)
       (foldl (fun zs z => if bool_decide (z ∈ zs) then zs else zs ++ [z]) (ha_Zones area) (ha_Zones a)), true)
  else (area, covered).

Definition place_bounds (p : Place) : GeoBounds :=
  match p_geometry p ≫= g_bbox with
  | Some b => mkGeoBounds (min_lat b) (max_lat b) (min_lng b) (max_lng b)
  | None => mkGeoBounds zero zero zero zero
  end.

Definition resolveHazardArea (areas : list HazardArea) (p : Place) : HazardArea * bool :=
  match (if bool_decide (p_kind p = AREA) then head (filter (fun a => ha_ID a = p_slug p) areas) else None) with
  | Some a => (a, true)
  | None => foldl inherit (mkHazardArea (p_slug p) (p_name p) (place_bounds p) "" [], false) areas
  end.

(** ** The summary *)

Record SummarySourceHealth := mkSummarySourceHealth { sh_Id : string; sh_Status : string; sh_LastSuccessAt : option Time }.
Definition summarySourceIDs : list string := layerSources ≫= snd.
Definition sourceRows (sources : list Source) : list SummarySourceHealth :=
  (fun s => mkSummarySourceHealth (so_id s) (SourceStatus_name (status_of (Some s))) (so_last_success_at s))
    <$> filter (fun s => so_id s ∈ summarySourceIDs) sources.

Record PlaceSummary := mkPlaceSummary {
  ps_Place : string; PlaceId : string; PlaceName : string; GeneratedAt : Time; Mode : string; Summary_ : SummaryStats;
  Domains : list SummaryDomain; ps_Sources : list SummarySourceHealth }.

(** The status codes of the read API. *)
Inductive Code := NotFound | InvalidArgument | Unavailable | Internal.

(** The configuration the summary reads. *)
Record Config := mkConfig { Areas : list HazardArea; BurnCounties : list string; MeshcoreEnabled : bool }.

Section Summarize.
Context {UL : UnicodeLower} {UU : UnicodeUpper}.

Definition of_layer (l : Layer) (evs : list Event) : list Event := filter (fun ev => layer ev = l) evs.

(** [eventLayerStatus]. *)
Definition eventLayerStatus (sources : list Source) (evs : list Event) (layer : string) : string :=
  let '(st, last) := LayerSourceStatus sources layer in
  (DegradeStoreStatus st (0 <? length (of_layer (storeLayerEnum layer) evs))%nat last).1.

Definition active_evacuations (evs : list Event) : Z :=
  Z.of_nat (length (filter (fun ev => layer ev = EVACUATION /\ status ev = ACTIVE) evs)).

Definition summary_stats (sources : list Source) (evs : list Event) : SummaryStats :=
  let hazardEvents := hazard_events evs in
  let '(highest, rank, counts) := foldl tally (Severity_name INFO, 0, ∅) hazardEvents in
  let evacStatus := eventLayerStatus sources evs Hazards.LayerEvacuation in
  mkSummaryStats highest rank counts (Z.of_nat (length hazardEvents))
    (if String.eqb evacStatus "OK" || String.eqb evacStatus "STALE" then Some (active_evacuations evs) else None)
    evacStatus (topEventsFrom hazardEvents 5) Caloes.SourceURL.

Definition summary_domains (cfg : Config) (sources : list Source) (evs : list Event) (conds : Conditions) : list SummaryDomain :=
  let st := eventLayerStatus sources evs in
  let items l := eventItems (of_layer l evs) in
  [buildDomain "fire" [st Hazards.LayerWildfire; cond_status (condFireWx conds)]
     (items WILDFIRE ++ featureItems (c_features (condFireWx conds)));
   buildDomain "evacuation" [st Hazards.LayerEvacuation] (items EVACUATION);
   buildDomain "weather" [st Hazards.LayerWeatherAlert] (items WEATHER_ALERT);
   buildDomain "roads" [st Hazards.LayerRoadIncident; cond_status (condChain conds); cond_status (condSegment conds)]
     (eventItems (withoutPlannedRoadwork (of_layer ROAD_INCIDENT evs))
      ++ featureItems (c_features (condChain conds) ++ c_features (condSegment conds)));
   buildDomain "seismic" [st Hazards.LayerEarthquake] (items EARTHQUAKE);
   buildDomain "power" [st Hazards.LayerPower] (items POWER)]
  ++ (if (0 <? length (BurnCounties cfg))%nat then [buildDomain "burn" [st Hazards.LayerBurnStatus] (items BURN_STATUS)] else [])
  ++ (if MeshcoreEnabled cfg then [buildDomain "comms" [st Hazards.LayerMesh] (items MESH)] else []).

Definition is_unavailable (s : string) : bool := String.eqb s "UNAVAILABLE".
Definition anyUnavailable (cfg : Config) (sources : list Source) (evs : list Event) (conds : Conditions) : bool :=
  is_unavailable (cond_status (condChain conds)) || is_unavailable (cond_status (condSegment conds))
  || is_unavailable (cond_status (condFireWx conds))
  || existsb (fun x => negb (String.eqb x.1 Hazards.LayerMesh && negb (MeshcoreEnabled cfg))
                       && is_unavailable (eventLayerStatus sources evs x.1)) eventLayers.

Definition max_severity (a b : Severity) : Severity := if Severity_number a <? Severity_number b then b else a.

(** The inputs of the mode, from the active hazard events. *)
Definition signal (i : ModeInputs) (ev : Event) : ModeInputs :=
  if negb (bool_decide (status ev = ACTIVE)) then i
  else
    mkModeInputs (if bool_decide (layer ev = EVACUATION) then ActiveEvacLevels i ++ [GetLevel ev] else ActiveEvacLevels i)
      (EvacUnavailable i) (max_severity (MaxActiveSeverity i) (severity ev))
      (if bool_decide (layer ev = WILDFIRE) then max_severity (MaxWildfireSeverity i) (severity ev) else MaxWildfireSeverity i)
      (FireWeatherState i) (AnyLayerUnavailable i).

Definition mode_inputs (cfg : Config) (sources : list Source) (evs : list Event) (conds : Conditions) : ModeInputs :=
  foldl signal
    (mkModeInputs [] (is_unavailable (eventLayerStatus sources evs Hazards.LayerEvacuation)) INFO INFO
       (fireWeatherState (c_features (condFireWx conds))) (anyUnavailable cfg sources evs conds))
    (hazard_events evs).

Definition summarize (cfg : Config) (now : Time) (p : Place) (evs : list Event) (sources : list Source) (conds : Conditions)
    : PlaceSummary :=
  mkPlaceSummary (p_slug p) (p_id p) (p_name p) now (ComputeMode (mode_inputs cfg sources evs conds)) (summary_stats sources evs)
    (summary_domains cfg sources evs conds) (sourceRows sources).

(** *** Over the store *)

Context `{TokenCodec eventCursor}.

(** All pages of a query; [fuel] bounds their number. *)
Fixpoint drain (fuel : nat) (q : EventQuery) : M (list Event) :=
  match fuel with
  | O => Tx.fail "out of fuel"
  | S fuel =>
      r <-- QueryEvents q ;;
      if bool_decide (r.2 = "") then Tx.ret r.1
      else rest <-- drain fuel (set_token r.2 q) ;; Tx.ret (r.1 ++ rest)
  end.

Definition live_query (placeID : string) (layers : list Layer) : EventQuery :=
  mkEventQuery placeID layers [ACTIVE; SCHEDULED] INFO time_zero 200 "".

Definition buildPlaceSummary {W} (fuel : nat) (cfg : Config) (now : Time) (hb : option (hazardsBuilder W)) (placeKey : string) (w : W)
    : M (PlaceSummary * W) :=
  p <-- GetPlace placeKey ;;
  evs <-- drain fuel (live_query (p_id p) []) ;;
  sources <-- ListSources ;;
  let '(area, covered) := resolveHazardArea (Areas cfg) p in
  let '(conds, w) := fetch_conditions hb area covered w in
  Tx.ret (summarize cfg now p evs sources conds, w).

(** [GetPlaceSummary] of the gRPC server: its status code on an error. *)
Definition GetPlaceSummary {W} (fuel : nat) (cfg : Config) (now : Time) (hb : option (hazardsBuilder W)) (placeKey : string) (w : W)
    (s : Tx.St DB Mem) : Code + PlaceSummary * W :=
  match (buildPlaceSummary fuel cfg now hb placeKey w s).1 with
  | inl e => inl (if bool_decide (e = ErrNotFound) then NotFound else Internal)
  | inr r => inr r
  end.

End Summarize.
End Summary.
