(* ===== verification/SummarySpec.v ===== *)
(** * What the place summary promises

    When a place is quiet and when it is not, as a condition on the stored events
    and the sources' health; when the number of evacuations is left out and what a
    number means; that no domain claims to be whole while a source of it is not; what
    the rollups count. *)

From S2P Require Import Prelude Float64 Geojson GridEvent GoText Tx Store Sources Places Query Feeds Evacuation Hazards Summary.

Module SummarySpec.
Import F64 Grid Text Store Sources Places Feeds Summary.
Import Hazards (Feature).
Import Evacuation (GetLevel).

(** ** Source health *)

(** A source that is healthy, and one that is down: its row is missing, was never
    polled, or says so. *)
Definition healthy (sources : list Source) (id : string) : Prop := exists row, source_by_id sources id = Some row /\ so_status row = OK.
Definition down (sources : list Source) (id : string) : Prop :=
  forall row, source_by_id sources id = Some row -> so_status row ∈ [SOURCE_STATUS_UNSPECIFIED; UNAVAILABLE].

Lemma healthy_status sources id : status_of (source_by_id sources id) = OK <-> healthy sources id.
Proof.
  unfold healthy, status_of. destruct (source_by_id sources id) as [row|]; [|split; [done|by intros (? & ? & _)]]. split.
  - intros Hs. exists row. by destruct (so_status row).
  - by intros (? & [= <-] & ->).
Qed.

Lemma down_status sources id : status_of (source_by_id sources id) = UNAVAILABLE <-> down sources id.
Proof.
  unfold down, status_of. destruct (source_by_id sources id) as [row|]; [|split; [by intros _ ?|done]]. split.
  - intros Hs ? [= <-]. destruct (so_status row); set_solver.
  - intros Hd. specialize (Hd row eq_refl). by destruct (so_status row); [|set_solver..|].
Qed.

Lemma filter_length_all {A} (P : A -> Prop) `{!forall x, Decision (P x)} (l : list A) :
  length (filter P l) = length l <-> forall x, x ∈ l -> P x.
Proof.
  induction l as [|x l IH]; [split; [by intros _ x ?%not_elem_of_nil|done]|]. rewrite filter_cons. cbn [length].
  pose proof (length_filter P l). case_decide as Hx; cbn [length].
  - rewrite Nat.succ_inj_wd, IH. split; [intros H' y [->|?]%elem_of_cons; auto|intros H' y ?; apply H'; by right].
  - split; [lia|]. intros H'. destruct Hx. apply H'. left.
Qed.

Lemma LayerSourceStatus_spec sources layer :
  let ids := layerSourceIDs layer in
  (((LayerSourceStatus sources layer).1 = "OK") <-> ids <> [] /\ forall id, id ∈ ids -> healthy sources id)
  /\ ((LayerSourceStatus sources layer).1 = "UNAVAILABLE" <-> forall id, id ∈ ids -> down sources id)
  /\ (LayerSourceStatus sources layer).1 ∈ ["OK"; "STALE"; "UNAVAILABLE"].
Proof.
  cbn zeta. unfold LayerSourceStatus. destruct (layerSourceIDs layer) as [|i ids]; cbn [fst].
  { split_and!; [split; [done|by intros [? _]]|split; [by intros _ id ?%not_elem_of_nil|done]|set_solver]. }
  set (L := i :: ids). set (rows := source_by_id sources <$> L).
  assert (Hlen : length L = length rows) by (unfold rows; by rewrite length_fmap).
  assert (Hall : forall st, Nat.eqb (length (filter (fun r => status_of r = st) rows)) (length L) = true <-> forall id, id ∈ L -> status_of (source_by_id sources id) = st).
  { intros st. rewrite Hlen, Nat.eqb_eq, filter_length_all. unfold rows. split.
    - intros Hr id Hid. apply Hr, list_elem_of_fmap. by exists id.
    - intros Hr x (id & -> & Hid)%list_elem_of_fmap. by apply Hr. }
  pose proof (Hall OK) as H1. pose proof (Hall UNAVAILABLE) as H2. setoid_rewrite <-healthy_status. setoid_rewrite <-down_status.
  assert (Hi : i ∈ L) by left.
  destruct (Nat.eqb (length (filter (fun r => status_of r = OK) rows)) (length L)); cbn [fst].
  { assert (Hok : forall id, id ∈ L -> status_of (source_by_id sources id) = OK) by (by apply H1).
    split_and!; [done|split; [done|intros Hd; specialize (Hd i Hi); specialize (Hok i Hi); congruence]|set_solver]. }
  destruct (Nat.eqb (length (filter (fun r => status_of r = UNAVAILABLE) rows)) (length L)); cbn [fst].
  - split_and!; [split; [done|intros [_ Hd]; apply H1 in Hd; done]|split; [intros _; by apply H2|done]|set_solver].
  - split_and!; [split; [done|intros [_ Hd]; apply H1 in Hd; done]|split; [done|intros Hd; apply H2 in Hd; done]|set_solver].
Qed.

(** What is served of a layer's health: OK when every source is, UNAVAILABLE when
    all are down and nothing is stored. *)
Lemma eventLayerStatus_spec sources evs layer :
  let st := eventLayerStatus sources evs layer in
  let ids := layerSourceIDs layer in
  (st = "OK" <-> ids <> [] /\ forall id, id ∈ ids -> healthy sources id)
  /\ (st = "UNAVAILABLE" <-> (forall id, id ∈ ids -> down sources id) /\ of_layer (storeLayerEnum layer) evs = [])
  /\ st ∈ ["OK"; "STALE"; "UNAVAILABLE"].
Proof.
  cbn zeta. unfold eventLayerStatus. destruct (LayerSourceStatus_spec sources layer) as (H1 & H2 & H3).
  destruct (LayerSourceStatus sources layer) as [st last]. cbn [fst] in *. rewrite <-H1, <-H2. clear H1 H2.
  set (L := of_layer _ evs). assert (HL : (0 <? length L)%nat = true <-> L <> []) by (rewrite Nat.ltb_lt; destruct L; cbn; split; [lia|done|done|lia]).
  set_unfold in H3. destruct H3 as [->|[->|[->|[]]]].
  - change (Hazards.DegradeStoreStatus "OK" _ last) with ("OK", time_zero). cbn [fst].
    split_and!; [done|split; [done|by intros [? _]]|set_solver].
  - change (Hazards.DegradeStoreStatus "STALE" _ last) with ("STALE", last). cbn [fst].
    split_and!; [done|split; [done|by intros [? _]]|set_solver].
  - change (Hazards.DegradeStoreStatus "UNAVAILABLE" (0 <? length L)%nat last) with (if (0 <? length L)%nat then ("STALE", last) else ("UNAVAILABLE", time_zero)).
    destruct (0 <? length L)%nat; cbn [fst]; (split_and!; [done| |set_solver]).
    + split; [done|]. intros [_ He]. by apply HL in He.
    + split; [|done]. intros _. split; [done|]. destruct L; [done|]. by discriminate (proj2 HL).
Qed.

(** ** The mode *)

(** An event that counts at the top of the summary, now. *)
Definition live_hazard (ev : Event) : Prop := counted ev = true /\ status ev = ACTIVE.

Lemma max_severity_number a b : Severity_number (max_severity a b) = Z.max (Severity_number a) (Severity_number b).
Proof. unfold max_severity. destruct (Z.ltb_spec (Severity_number a) (Severity_number b)); lia. Qed.

(** Forgets what the other events of the list say. *)
Local Ltac others := match goal with |- (_ \/ ?E) <-> (_ \/ (_ \/ ?E)) => generalize E; intros ? end.

Lemma signal_spec i l :
  let r := foldl signal i l in
  (forall lvl, lvl ∈ ActiveEvacLevels r <-> lvl ∈ ActiveEvacLevels i \/ exists ev, ev ∈ l /\ status ev = ACTIVE /\ layer ev = EVACUATION /\ GetLevel ev = lvl)
  /\ (forall s, 0 < Severity_number s -> at_least s (MaxActiveSeverity r) = true <-> at_least s (MaxActiveSeverity i) = true
        \/ exists ev, ev ∈ l /\ status ev = ACTIVE /\ at_least s (severity ev) = true)
  /\ (forall s, 0 < Severity_number s -> at_least s (MaxWildfireSeverity r) = true <-> at_least s (MaxWildfireSeverity i) = true
        \/ exists ev, ev ∈ l /\ status ev = ACTIVE /\ layer ev = WILDFIRE /\ at_least s (severity ev) = true)
  /\ EvacUnavailable r = EvacUnavailable i /\ FireWeatherState r = FireWeatherState i /\ AnyLayerUnavailable r = AnyLayerUnavailable i.
Proof.
  cbn zeta. revert i. induction l as [|ev l IH]; intros i; cbn [foldl].
  { split_and!; try done; intros; split; try tauto; intros [?|(? & ?%not_elem_of_nil & _)]; done. }
  assert (Hmax : forall s a b, at_least s (max_severity a b) = true <-> at_least s a = true \/ at_least s b = true).
  { intros s a b. unfold at_least. rewrite max_severity_number, !Z.leb_le. lia. }
  destruct (IH (signal i ev)) as (H1 & H2 & H3 & -> & -> & ->). clear IH.
  assert (Hcons : forall P : Event -> Prop, (exists x, x ∈ ev :: l /\ P x) <-> P ev \/ exists x, x ∈ l /\ P x).
  { intros P. setoid_rewrite elem_of_cons. naive_solver. }
  unfold signal in *. destruct (bool_decide_reflect (status ev = ACTIVE)) as [Ha|Ha]; cbn [negb] in *.
  - split_and!; try done.
    + intros lvl. rewrite H1, Hcons. others. cbn [ActiveEvacLevels].
      destruct (bool_decide_reflect (layer ev = EVACUATION)); [rewrite elem_of_app, list_elem_of_singleton|]; intuition congruence.
    + intros s Hs. rewrite H2, Hcons by done. others. cbn [MaxActiveSeverity]. rewrite Hmax. intuition congruence.
    + intros s Hs. rewrite H3, Hcons by done. others. cbn [MaxWildfireSeverity].
      destruct (bool_decide_reflect (layer ev = WILDFIRE)); [rewrite Hmax|]; intuition congruence.
  - split_and!; try done.
    + intros lvl. rewrite H1, Hcons. others. intuition congruence.
    + intros s Hs. rewrite H2, Hcons by done. others. intuition congruence.
    + intros s Hs. rewrite H3, Hcons by done. others. intuition congruence.
Qed.

Lemma hazard_elem evs (P : Event -> Prop) :
  (exists ev, ev ∈ hazard_events evs /\ status ev = ACTIVE /\ P ev) <-> exists ev, ev ∈ evs /\ live_hazard ev /\ P ev.
Proof. unfold hazard_events, live_hazard. setoid_rewrite list_elem_of_filter. naive_solver. Qed.

(** An event of a layer that the mode looks at: not ambient state. *)
Definition hazard_layer (ev : Event) : Prop := layer ev <> MESH /\ layer ev <> BURN_STATUS.

Lemma live_hazard_spec ev :
  live_hazard ev <-> status ev = ACTIVE /\ hazard_layer ev /\ (layer ev = POWER -> severity ev <> INFO).
Proof.
  unfold live_hazard, counted, hazard_layer, isPlannedRoadwork.
  rewrite negb_true_iff, !orb_false_iff, !andb_false_iff, !bool_decide_eq_false. split.
  - intros ((((Hm & Hb) & Hp) & _) & Ha). split_and!; try assumption. tauto.
  - intros (Ha & (Hm & Hb) & Hp). split; [|assumption]. split_and!; try assumption.
    + destruct (decide (layer ev = POWER)); [right; auto|by left].
    + right. rewrite Ha. discriminate.
Qed.

Section Mode.
Context {UL : UnicodeLower} {UU : UnicodeUpper}.

(** A Fire Weather Watch or a Red Flag Warning. *)
Definition fire_alarm (conds : Conditions) : Prop :=
  let state := ToLower (fireWeatherState (c_features (condFireWx conds))) in state = "elevated" \/ state = "red-flag".

(** Nothing is known of evacuations: the source is down and no zone is stored. *)
Definition evacuations_unknown (sources : list Source) (evs : list Event) : Prop :=
  down sources "caloes" /\ of_layer EVACUATION evs = [].

(** A layer the picture lacks. *)
Definition dark_layer (cfg : Config) (sources : list Source) (evs : list Event) (conds : Conditions) : Prop :=
  cond_status (condChain conds) = "UNAVAILABLE" \/ cond_status (condSegment conds) = "UNAVAILABLE"
  \/ cond_status (condFireWx conds) = "UNAVAILABLE"
  \/ exists name l, (name, l) ∈ eventLayers /\ (l = MESH -> MeshcoreEnabled cfg = true)
        /\ (forall id, id ∈ layerSourceIDs name -> down sources id) /\ of_layer l evs = [].

Lemma is_unavailable_spec st : is_unavailable st = true <-> st = "UNAVAILABLE".
Proof. apply String.eqb_eq. Qed.

Lemma anyUnavailable_spec cfg sources evs conds : anyUnavailable cfg sources evs conds = true <-> dark_layer cfg sources evs conds.
Proof.
  unfold anyUnavailable, dark_layer. rewrite !orb_true_iff, !is_unavailable_spec, existsb_exists.
  assert (Hl : (exists x, In x eventLayers /\ negb (String.eqb x.1 Hazards.LayerMesh && negb (MeshcoreEnabled cfg))
                  && is_unavailable (eventLayerStatus sources evs x.1) = true)
    <-> exists name l, (name, l) ∈ eventLayers /\ (l = MESH -> MeshcoreEnabled cfg = true)
        /\ (forall id, id ∈ layerSourceIDs name -> down sources id) /\ of_layer l evs = []).
  { assert (He : forall name l, (name, l) ∈ eventLayers ->
      negb (String.eqb name Hazards.LayerMesh && negb (MeshcoreEnabled cfg)) && is_unavailable (eventLayerStatus sources evs name) = true
      <-> (l = MESH -> MeshcoreEnabled cfg = true) /\ (forall id, id ∈ layerSourceIDs name -> down sources id) /\ of_layer l evs = []).
    { intros name l Hin. rewrite andb_true_iff, is_unavailable_spec. destruct (eventLayerStatus_spec sources evs name) as (_ & -> & _).
      assert (storeLayerEnum name = l /\ (String.eqb name Hazards.LayerMesh = true <-> l = MESH)) as [-> Hm].
      { unfold eventLayers in Hin. set_unfold in Hin. decompose [or] Hin; try done; simplify_eq; by split. }
      destruct (String.eqb name Hazards.LayerMesh), (MeshcoreEnabled cfg); cbn; naive_solver. }
    split.
    - intros ([name l] & Hin%list_elem_of_In & Hx). exists name, l. split; [done|]. by apply He.
    - intros (name & l & Hin & Hx). exists (name, l). rewrite <-list_elem_of_In. split; [done|]. by apply (He name l). }
  rewrite Hl. tauto.
Qed.

Lemma evac_unknown_spec sources evs :
  eventLayerStatus sources evs Hazards.LayerEvacuation = "UNAVAILABLE" <-> evacuations_unknown sources evs.
Proof.
  destruct (eventLayerStatus_spec sources evs Hazards.LayerEvacuation) as (_ & -> & _). unfold evacuations_unknown.
  change (layerSourceIDs Hazards.LayerEvacuation) with ["caloes"]. change (storeLayerEnum Hazards.LayerEvacuation) with EVACUATION.
  setoid_rewrite list_elem_of_singleton. naive_solver.
Qed.

(** What the inputs of the mode stand for. *)
Lemma mode_inputs_spec cfg sources evs conds :
  let r := mode_inputs cfg sources evs conds in
  (forall P : string -> bool, existsb P (ActiveEvacLevels r) = true
     <-> exists ev, ev ∈ evs /\ status ev = ACTIVE /\ layer ev = EVACUATION /\ P (GetLevel ev) = true)
  /\ (forall s, 0 < Severity_number s -> at_least s (MaxActiveSeverity r) = true
       <-> exists ev, ev ∈ evs /\ status ev = ACTIVE /\ hazard_layer ev /\ Severity_number s <= Severity_number (severity ev))
  /\ (at_least SEVERE (MaxWildfireSeverity r) = true
       <-> exists ev, ev ∈ evs /\ status ev = ACTIVE /\ layer ev = WILDFIRE /\ 3 <= Severity_number (severity ev))
  /\ (EvacUnavailable r = true <-> evacuations_unknown sources evs)
  /\ (AnyLayerUnavailable r = true <-> dark_layer cfg sources evs conds)
  /\ (String.eqb (ToLower (FireWeatherState r)) "elevated" || String.eqb (ToLower (FireWeatherState r)) "red-flag" = true <-> fire_alarm conds).
Proof.
  cbn zeta. unfold mode_inputs. set (i := mkModeInputs _ _ _ _ _ _).
  destruct (signal_spec i (hazard_events evs)) as (H1 & H2 & H3 & -> & -> & ->). set (r := foldl signal i (hazard_events evs)) in *. clearbody r.
  split_and!.
  - intros P. rewrite existsb_exists. setoid_rewrite <-list_elem_of_In. setoid_rewrite H1. cbn [ActiveEvacLevels i].
    setoid_rewrite (hazard_elem evs (fun ev => layer ev = EVACUATION /\ GetLevel ev = _)). setoid_rewrite live_hazard_spec. unfold hazard_layer. split.
    + intros (lvl & [?%not_elem_of_nil|(ev & Hin & (Ha & _) & Hl & <-)] & HP); [done|]. by exists ev.
    + intros (ev & Hin & Ha & Hl & HP). exists (GetLevel ev). split; [|done]. right. exists ev. rewrite Hl. by split_and!.
  - intros s Hs. rewrite H2 by done. cbn [MaxActiveSeverity i].
    rewrite (hazard_elem evs (fun ev => at_least s (severity ev) = true)). setoid_rewrite live_hazard_spec. unfold at_least. setoid_rewrite Z.leb_le. split.
    + intros [?|(ev & Hin & (Ha & Hl & _) & Hsv)]; [cbn in *; lia|]. by exists ev.
    + intros (ev & Hin & Ha & Hl & Hsv). right. exists ev. split_and!; try done. intros _ He. rewrite He in Hsv. cbn in Hsv. lia.
  - rewrite H3 by done. cbn [MaxWildfireSeverity i].
    rewrite (hazard_elem evs (fun ev => layer ev = WILDFIRE /\ at_least SEVERE (severity ev) = true)). setoid_rewrite live_hazard_spec.
    unfold at_least, hazard_layer. setoid_rewrite Z.leb_le. split.
    + intros [?|(ev & Hin & (Ha & _) & Hl & Hsv)]; [done|]. by exists ev.
    + intros (ev & Hin & Ha & Hl & Hsv). right. exists ev. rewrite Hl. by split_and!.
  - cbn [EvacUnavailable i]. by rewrite is_unavailable_spec, evac_unknown_spec.
  - cbn [AnyLayerUnavailable i]. apply anyUnavailable_spec.
  - cbn [FireWeatherState i]. by rewrite orb_true_iff, !String.eqb_eq.
Qed.

(** C22: What the mode says. It is ACTIVE exactly when some active event is an
    evacuation above an advisory, or EXTREME, or a wildfire of SEVERE or more; it
    is QUIET exactly when no active event is an evacuation or SEVERE, no fire
    weather is announced, something is known of evacuations, and no layer is dark
    while an active event is MODERATE; it is WATCH otherwise. Ambient state and
    what is only scheduled never move it. *)
Theorem mode_spec cfg now p evs sources conds :
  let m := Mode (summarize cfg now p evs sources conds) in
  (m = ModeActive <-> exists ev, ev ∈ evs /\ status ev = ACTIVE
      /\ (layer ev = EVACUATION /\ GetLevel ev <> "ADVISORY"
          \/ hazard_layer ev /\ severity ev = EXTREME
          \/ layer ev = WILDFIRE /\ 3 <= Severity_number (severity ev)))
  /\ (m = ModeQuiet <->
        (forall ev, ev ∈ evs -> status ev = ACTIVE -> layer ev <> EVACUATION /\ (hazard_layer ev -> Severity_number (severity ev) < 3))
        /\ ~ fire_alarm conds /\ ~ evacuations_unknown sources evs
        /\ (dark_layer cfg sources evs conds ->
             forall ev, ev ∈ evs -> status ev = ACTIVE -> hazard_layer ev -> Severity_number (severity ev) < 2))
  /\ m ∈ [ModeQuiet; ModeWatch; ModeActive].
Proof.
  cbn zeta. unfold summarize. cbn [Mode].
  destruct (mode_inputs_spec cfg sources evs conds) as (Hlv & Hms & Hws & He & Hd & Hf). set (r := mode_inputs cfg sources evs conds) in *. clearbody r.
  pose proof (Hlv (fun lvl => negb (String.eqb lvl "ADVISORY"))) as L1. pose proof (Hlv (fun lvl => String.eqb lvl "ADVISORY")) as L2.
  pose proof (Hms EXTREME ltac:(done)) as S4. pose proof (Hms SEVERE ltac:(done)) as S3. pose proof (Hms MODERATE ltac:(done)) as S2.
  clear Hlv Hms. unfold ComputeMode.
  assert (Hext : forall ev, severity ev = EXTREME <-> 4 <= Severity_number (severity ev)) by (intros ev; destruct (severity ev); cbn; split; done || lia).
  assert (HA : (exists ev, ev ∈ evs /\ status ev = ACTIVE
      /\ (layer ev = EVACUATION /\ GetLevel ev <> "ADVISORY" \/ hazard_layer ev /\ severity ev = EXTREME
          \/ layer ev = WILDFIRE /\ 3 <= Severity_number (severity ev)))
    <-> existsb (fun lvl => negb (String.eqb lvl "ADVISORY")) (ActiveEvacLevels r) = true \/ at_least EXTREME (MaxActiveSeverity r) = true
        \/ at_least SEVERE (MaxWildfireSeverity r) = true).
  { rewrite L1, S4, Hws. setoid_rewrite Hext. setoid_rewrite negb_true_iff. setoid_rewrite String.eqb_neq. cbn [Severity_number]. clear. naive_solver. }
  assert (HN : (forall ev, ev ∈ evs -> status ev = ACTIVE -> layer ev <> EVACUATION /\ (hazard_layer ev -> Severity_number (severity ev) < 3))
    <-> existsb (fun lvl => negb (String.eqb lvl "ADVISORY")) (ActiveEvacLevels r) = false
        /\ existsb (fun lvl => String.eqb lvl "ADVISORY") (ActiveEvacLevels r) = false /\ at_least SEVERE (MaxActiveSeverity r) = false).
  { rewrite <-!not_true_iff_false, L1, L2, S3. cbn [Severity_number]. clear. split.
    - intros H. split_and!; intros (ev & Hin & Ha & Hx); destruct (H ev Hin Ha) as [Hn Hs]; [tauto|tauto|]. destruct Hx as [Hh Hx]. specialize (Hs Hh). lia.
    - intros (N1 & N2 & N3) ev Hin Ha. split.
      + intros Hl. destruct (String.eqb (GetLevel ev) "ADVISORY") eqn:E; [apply N2|apply N1]; exists ev; by rewrite E.
      + intros Hh. destruct (Z.ltb_spec (Severity_number (severity ev)) 3); [done|]. destruct N3. by exists ev. }
  assert (HD : (forall ev, ev ∈ evs -> status ev = ACTIVE -> hazard_layer ev -> Severity_number (severity ev) < 2)
    <-> at_least MODERATE (MaxActiveSeverity r) = false).
  { rewrite <-not_true_iff_false, S2. cbn [Severity_number]. clear. split.
    - intros H (ev & Hin & Ha & Hh & Hx). specialize (H ev Hin Ha Hh). lia.
    - intros N ev Hin Ha Hh. destruct (Z.ltb_spec (Severity_number (severity ev)) 2); [done|]. destruct N. by exists ev. }
  assert (HE : at_least EXTREME (MaxActiveSeverity r) = true -> at_least SEVERE (MaxActiveSeverity r) = true) by (unfold at_least; rewrite !Z.leb_le; cbn; lia).
  assert (HW : at_least SEVERE (MaxWildfireSeverity r) = true -> at_least SEVERE (MaxActiveSeverity r) = true).
  { rewrite Hws, S3. intros (ev & ? & ? & Hl & ?). exists ev. split_and!; try done; unfold hazard_layer; by rewrite Hl. }
  rewrite HA, HN, HD, <-Hf, <-He, <-Hd. clear HA HN HD Hf He Hd L1 L2 S4 S3 S2 Hws Hext.
  destruct (existsb (fun lvl => negb _) _), (existsb _ _), (at_least EXTREME _), (at_least SEVERE (MaxWildfireSeverity r)), (at_least SEVERE (MaxActiveSeverity r));
    try (specialize (HE eq_refl); discriminate HE); try (specialize (HW eq_refl); discriminate HW); clear HE HW;
    destruct (_ || _), (EvacUnavailable r), (AnyLayerUnavailable r), (at_least MODERATE _); cbn;
    (split_and!; [split; [discriminate || tauto|]; intuition discriminate|split; [discriminate || intuition discriminate|]; intuition discriminate|set_solver]).
Qed.

(** A place of which an evacuation is unknown is never quiet. *)
Lemma unknown_not_quiet cfg now p evs sources conds :
  evacuations_unknown sources evs -> Mode (summarize cfg now p evs sources conds) <> ModeQuiet.
Proof.
  destruct (mode_inputs_spec cfg sources evs conds) as (_ & _ & _ & He & _). intros Hu. apply He in Hu.
  unfold summarize. cbn [Mode]. unfold ComputeMode. rewrite Hu. by repeat case_match.
Qed.

(** C12: What the number of evacuations says. It is left out (null, UNAVAILABLE)
    exactly when the evacuation source is down and no zone is stored, and the place
    is then never quiet; any number served is that of the stored active zones. The
    status beside it tells two kinds of number apart: OK exactly when the source is
    healthy, STALE when it is not and there is still something to go by. So a 0
    served as OK comes from a healthy source. A 0 may also be served as STALE, by a
    source that is failing but not given up or whose stored zones are all lifted:
    this is against what grid.proto says of a 0, and [stale_zero] of [SummaryStore]
    shows one in a place that reads QUIET. *)
Theorem evacuation_count cfg now p evs sources conds :
  let s := summarize cfg now p evs sources conds in
  let n := ActiveEvacuations (Summary_ s) in
  let st := EvacuationStatus (Summary_ s) in
  (n = None <-> evacuations_unknown sources evs)
  /\ (n = None <-> st = "UNAVAILABLE")
  /\ (n = None -> Mode s <> ModeQuiet)
  /\ (forall k, n = Some k -> k = Z.of_nat (length (filter (fun ev => layer ev = EVACUATION /\ status ev = ACTIVE) evs)))
  /\ (st = "OK" <-> healthy sources "caloes")
  /\ (st = "STALE" <-> ~ healthy sources "caloes" /\ ~ evacuations_unknown sources evs)
  /\ (n = Some 0 -> st = "STALE" ->
        ~ down sources "caloes" \/ exists ev, ev ∈ evs /\ layer ev = EVACUATION /\ status ev <> ACTIVE).
Proof.
  cbn zeta.
  destruct (eventLayerStatus_spec sources evs Hazards.LayerEvacuation) as (Hok & _ & Hst).
  pose proof (evac_unknown_spec sources evs) as Hun. change (layerSourceIDs Hazards.LayerEvacuation) with ["caloes"] in Hok.
  assert (Hh : eventLayerStatus sources evs Hazards.LayerEvacuation = "OK" <-> healthy sources "caloes").
  { rewrite Hok. setoid_rewrite list_elem_of_singleton. naive_solver. }
  pose proof (unknown_not_quiet cfg now p evs sources conds) as Hq.
  assert (Hsum : Summary_ (summarize cfg now p evs sources conds) = summary_stats sources evs) by done.
  rewrite Hsum. unfold summary_stats. destruct (foldl tally _ _) as [[? ?] ?]. cbn [ActiveEvacuations EvacuationStatus].
  set (st := eventLayerStatus sources evs Hazards.LayerEvacuation) in *. clearbody st.
  assert (Hn : (if String.eqb st "OK" || String.eqb st "STALE" then Some (active_evacuations evs) else None) = None <-> st = "UNAVAILABLE").
  { set_unfold in Hst. by destruct Hst as [->|[->|[->|[]]]]. }
  rewrite Hn. split_and!; [done|done|by rewrite Hun|intros k; by destruct (_ || _); intros [= <-]|done| |].
  - rewrite <-Hh, <-Hun. set_unfold in Hst. destruct Hst as [->|[->|[->|[]]]]; naive_solver.
  - intros H0 Hs. rewrite Hs in H0. injection H0 as Hz. destruct (decide (status_of (source_by_id sources "caloes") = UNAVAILABLE)) as [Hd|Hd];
      [right|left; by rewrite <-down_status].
    assert (Hk : ~ evacuations_unknown sources evs) by (rewrite <-Hun, Hs; done).
    destruct (of_layer EVACUATION evs) as [|ev l] eqn:E; [by destruct Hk; split; [apply down_status|]|].
    assert (ev ∈ of_layer EVACUATION evs) as [Hl Hin]%list_elem_of_filter by (rewrite E; left). exists ev. split_and!; [done..|].
    intros Ha. unfold active_evacuations in Hz. assert (ev ∈ filter (fun ev => layer ev = EVACUATION /\ status ev = ACTIVE) evs) as Hf by by apply list_elem_of_filter.
    destruct (filter _ evs); [by apply not_elem_of_nil in Hf|]. cbn in Hz. lia.
Qed.

(** *** Domains *)

Lemma worstStatus_spec statuses :
  (worstStatus statuses = "OK" <-> forall st, st ∈ statuses -> st = "OK")
  /\ (worstStatus statuses = "STALE" -> forall st, st ∈ statuses -> st = "OK" \/ st = "STALE").
Proof.
  assert (Hmax : forall w l n, (foldl (fun worst s => if (worst <? status_rank s)%nat then status_rank s else worst) w l <= n)%nat
    <-> (w <= n)%nat /\ forall st, st ∈ l -> (status_rank st <= n)%nat).
  { intros w l n. revert w. induction l as [|st l IH]; intros w; cbn [foldl].
    - split; [intros ?; split; [done|]; by intros st ?%not_elem_of_nil|tauto].
    - rewrite IH. setoid_rewrite elem_of_cons. destruct (Nat.ltb_spec w (status_rank st)); split; intros (Hw & Hl).
      + split; [lia|]. intros x [->|?]; auto.
      + split; [apply Hl; by left|]. auto.
      + split; [lia|]. intros x [->|?]; [lia|auto].
      + split; [done|]. auto. }
  assert (Hr : forall st, (status_rank st <= 0)%nat <-> st = "OK").
  { intros st. unfold status_rank. destruct (String.eqb_spec st "OK") as [->|]; [split; done|]. destruct (String.eqb st "STALE"); split; done || lia. }
  assert (Hr1 : forall st, (status_rank st <= 1)%nat <-> st = "OK" \/ st = "STALE").
  { intros st. unfold status_rank. destruct (String.eqb_spec st "OK") as [->|]; [split; auto|]. destruct (String.eqb_spec st "STALE") as [->|]; split; auto; [lia|].
    intros [?|?]; done. }
  unfold worstStatus. pose proof (Hmax 0%nat statuses 0%nat) as H0. pose proof (Hmax 0%nat statuses 1%nat) as H1.
  destruct (foldl _ 0%nat statuses) as [|[|n]].
  - split; [split; [|done]; intros _ st Hst; by apply Hr, H0|done].
  - split; [split; [done|]|].
    + intros Hall. exfalso. assert (1 <= 0)%nat; [|lia]. apply H0. split; [lia|]. intros st Hst. by apply Hr, Hall.
    + intros _ st Hst. by apply Hr1, H1.
  - split; [split; [done|]|done].
    intros Hall. exfalso. assert (S (S n) <= 0)%nat; [|lia]. apply H0. split; [lia|]. intros st Hst. by apply Hr, Hall.
Qed.

(** The sources behind a domain, and its condition layers. *)
Definition domain_sources (name : string) : list string :=
  default [] (lookup_layer [("fire", ["calfire"; "firis"]); ("evacuation", ["caloes"]); ("weather", ["nws"]); ("roads", ["chp"; "caltrans"]);
    ("seismic", ["usgs"]); ("power", ["pge"; "psps"]); ("burn", ["burnline"; "calfire-burn"]); ("comms", ["meshcore"])] name).
Definition domain_conditions (name : string) (conds : Conditions) : list conditionResult :=
  if String.eqb name "fire" then [condFireWx conds] else if String.eqb name "roads" then [condChain conds; condSegment conds] else [].

Lemma OK_sources sources evs layer ids :
  layerSourceIDs layer = ids -> ids <> [] -> eventLayerStatus sources evs layer = "OK" <-> forall id, id ∈ ids -> healthy sources id.
Proof. intros <- Hne. destruct (eventLayerStatus_spec sources evs layer) as (-> & _). tauto. Qed.

(** No domain claims to be whole while a part of it is not. A domain of the
    summary is OK exactly when every source behind it is healthy and each of its
    condition layers is OK; it is in the summary unless it is burn without a
    county or comms without the mesh. *)
Theorem domains_honest cfg now p evs sources conds :
  let ds := Domains (summarize cfg now p evs sources conds) in
  Domain <$> ds = ["fire"; "evacuation"; "weather"; "roads"; "seismic"; "power"]
     ++ (if (0 <? length (BurnCounties cfg))%nat then ["burn"] else []) ++ (if MeshcoreEnabled cfg then ["comms"] else [])
  /\ forall d, d ∈ ds -> sd_Status d = "OK"
       <-> (forall id, id ∈ domain_sources (Domain d) -> healthy sources id)
           /\ (forall c, c ∈ domain_conditions (Domain d) conds -> cond_status c = "OK").
Proof.
  cbn zeta. unfold summarize. cbn [Domains]. unfold summary_domains. split.
  { destruct (0 <? length (BurnCounties cfg))%nat, (MeshcoreEnabled cfg); reflexivity. }
  intros d Hd.
  assert (Hcase : (exists name layer items, d = buildDomain name [eventLayerStatus sources evs layer] items
                     /\ domain_sources name = layerSourceIDs layer /\ layerSourceIDs layer <> [] /\ domain_conditions name conds = [])
    \/ (exists items, d = buildDomain "fire" [eventLayerStatus sources evs Hazards.LayerWildfire; cond_status (condFireWx conds)] items)
    \/ (exists items, d = buildDomain "roads" [eventLayerStatus sources evs Hazards.LayerRoadIncident; cond_status (condChain conds); cond_status (condSegment conds)] items)).
  { rewrite !elem_of_app in Hd. destruct Hd as [Hd|[Hd|Hd]].
    - repeat (apply elem_of_cons in Hd as [->|Hd]); [..|by apply not_elem_of_nil in Hd]; eauto 10.
      all: left; eexists _, _, _; split; [reflexivity|]; split_and!; reflexivity || discriminate.
    - destruct (0 <? _)%nat; [|by apply not_elem_of_nil in Hd]. apply list_elem_of_singleton in Hd as ->.
      left; eexists _, _, _; split; [reflexivity|]; split_and!; reflexivity || discriminate.
    - destruct (MeshcoreEnabled cfg); [|by apply not_elem_of_nil in Hd]. apply list_elem_of_singleton in Hd as ->.
      left; eexists _, _, _; split; [reflexivity|]; split_and!; reflexivity || discriminate. }
  destruct Hcase as [(name & layer & items & -> & Hs & Hne & Hc)|[(items & ->)|(items & ->)]]; cbn [sd_Status Domain buildDomain];
    rewrite (proj1 (worstStatus_spec _)).
  - rewrite Hs, Hc, <-(OK_sources sources evs layer _ eq_refl Hne). setoid_rewrite list_elem_of_singleton. split.
    + intros H. split; [by apply H|]. by intros c ?%not_elem_of_nil.
    + by intros [H _] st ->.
  - change (domain_sources "fire") with ["calfire"; "firis"]. change (domain_conditions "fire" conds) with [condFireWx conds].
    rewrite <-(OK_sources sources evs Hazards.LayerWildfire) by done. setoid_rewrite elem_of_cons. setoid_rewrite list_elem_of_singleton. split.
    + intros H. split; [auto|]. intros c [->|?%not_elem_of_nil]; [auto|done].
    + intros [H1 H2] st [->| ->]; auto.
  - change (domain_sources "roads") with ["chp"; "caltrans"]. change (domain_conditions "roads" conds) with [condChain conds; condSegment conds].
    rewrite <-(OK_sources sources evs Hazards.LayerRoadIncident) by done. setoid_rewrite elem_of_cons. setoid_rewrite elem_of_cons.
    setoid_rewrite list_elem_of_singleton. split.
    + intros H. split; [auto|]. intros c [->|[->|?%not_elem_of_nil]]; auto; done.
    + intros [H1 H2] st [->|[->| ->]]; auto.
Qed.

End Mode.

(** ** The rollup *)

Lemma Severity_name_inj a b : Severity_name a = Severity_name b -> a = b.
Proof. by destruct a, b. Qed.

Lemma Severity_number_inj a b : Severity_number a = Severity_number b -> a = b.
Proof. by destruct a, b. Qed.

Definition count_of (s : Severity) (l : list Event) : nat := length (filter (fun ev => severity ev = s) l).

Lemma tally_spec l :
  let '(highest, rank, counts) := foldl tally (Severity_name INFO, 0, ∅) l in
  (forall s, counts !! Severity_name s = if Nat.eqb (count_of s l) 0 then None else Some (Z.of_nat (count_of s l)))
  /\ exists s, highest = Severity_name s /\ rank = Severity_number s /\ (forall ev, ev ∈ l -> Severity_number (severity ev) <= rank)
       /\ (l = [] /\ s = INFO \/ exists ev, ev ∈ l /\ severity ev = s).
Proof.
  induction l as [|ev l IH] using rev_ind; cbn.
  { split; [done|]. exists INFO. split_and!; [done|done|by intros ev ?%not_elem_of_nil|by left]. }
  rewrite foldl_snoc. destruct (foldl tally _ l) as [[highest rank] counts]. destruct IH as (Hc & s & -> & -> & Hmax & Hs).
  unfold tally.
  assert (Hcounts : forall s0, <[Severity_name (severity ev) := default 0 (counts !! Severity_name (severity ev)) + 1]> counts !! Severity_name s0
    = if Nat.eqb (count_of s0 (l ++ [ev])) 0 then None else Some (Z.of_nat (count_of s0 (l ++ [ev])))).
  { intros s0. unfold count_of. rewrite filter_app, length_app, filter_cons. destruct (decide (severity ev = s0)) as [<-|Hne].
    - rewrite lookup_insert_eq, Hc. cbn [filter list_filter length]. unfold count_of.
      destruct (length (filter (fun e => severity e = severity ev) l)) as [|n]; cbn -[Z.of_nat]; f_equal; lia.
    - rewrite lookup_insert_ne by (by intros ?%Severity_name_inj). rewrite Hc. cbn [filter list_filter length]. by rewrite Nat.add_0_r. }
  destruct (Z.leb_spec (Severity_number s) (Severity_number (severity ev))); (split; [exact Hcounts|]).
  - exists (severity ev). split_and!; try done.
    + intros x [Hx| ->%list_elem_of_singleton]%elem_of_app; [|done]. specialize (Hmax x Hx). lia.
    + right. exists ev. split; [|done]. apply elem_of_app. right. left.
  - exists s. split_and!; try done.
    + intros x [Hx| ->%list_elem_of_singleton]%elem_of_app; [auto|lia].
    + right. destruct Hs as [[-> ->]|(x & Hx & <-)]; [exfalso; pose proof (Hmax ev); destruct (severity ev); cbn in *; lia|].
      exists x. split; [|done]. apply elem_of_app. by left.
Qed.

Lemma more_urgent_weak : StrictWeak (fun _ => True) more_urgent.
Proof.
  apply (weak_ext _ (lex (fun a b => Severity_number (severity b) <? Severity_number (severity a)) (fun a b => observed b <? observed a))).
  - intros a b _ _. unfold lex, more_urgent, time_after. destruct (bool_decide_reflect (severity a = severity b)) as [->|Hne]; cbn [negb].
    + by rewrite Z.ltb_irrefl.
    + destruct (Z.ltb_spec (Severity_number (severity b)) (Severity_number (severity a))),
        (Z.ltb_spec (Severity_number (severity a)) (Severity_number (severity b))); cbn; try done.
      destruct Hne. apply Severity_number_inj. lia.
  - apply lex_weak; split; intros; rewrite ?Z.ltb_lt, ?Z.ltb_ge in *; lia.
Qed.

(** What the top of the summary counts: every live event but ambient state,
    single-customer outages and planned roadwork, each severity's number, the
    highest of them, and the five that none left out is more urgent than. *)
Theorem rollup_contract sources evs :
  let st := summary_stats sources evs in
  let l := hazard_events evs in
  TotalActive st = Z.of_nat (length l)
  /\ (forall s, SeverityCounts st !! Severity_name s = if Nat.eqb (count_of s l) 0 then None else Some (Z.of_nat (count_of s l)))
  /\ (exists s, HighestSeverity st = Severity_name s /\ HighestSeverityRank st = Severity_number s
        /\ (forall ev, ev ∈ l -> Severity_number (severity ev) <= Severity_number s)
        /\ (l = [] /\ s = INFO \/ exists ev, ev ∈ l /\ severity ev = s))
  /\ exists top rest, TopEvents st = top_event <$> top /\ top ++ rest ≡ₚ l /\ length top = (5 `min` length l)%nat
       /\ forall x y, x ∈ top -> y ∈ rest -> more_urgent y x = false.
Proof.
  cbn zeta. unfold summary_stats. pose proof (tally_spec (hazard_events evs)) as Ht.
  destruct (foldl tally _ (hazard_events evs)) as [[highest rank] counts]. destruct Ht as (Hc & s & -> & -> & Hmax & Hs).
  cbn [TotalActive SeverityCounts HighestSeverity HighestSeverityRank TopEvents]. split_and!; [done|done|by exists s|].
  unfold topEventsFrom. set (sorted := SliceStable more_urgent (hazard_events evs)).
  assert (Hp : sorted ≡ₚ hazard_events evs) by apply SliceStable_perm.
  exists (take 5 sorted), (drop 5 sorted). rewrite take_drop. split_and!; [done|done|by rewrite length_take, Hp|].
  assert (Hsorted : StronglySorted (fun a b => more_urgent b a = false) sorted)
    by (apply (SliceStable_sorted (fun _ => True)); [apply more_urgent_weak|by apply Forall_true]).
  rewrite <-(take_drop 5 sorted) in Hsorted. apply StronglySorted_app in Hsorted as (H1 & _). auto.
Qed.

End SummarySpec.
