(* ===== verification/SummaryStore.v ===== *)
(** * The place summary, over the store

    Draining the pages of a query gives its rows, and the summary the server
    returns is that of the rows stored for the place; a demo of both. *)

From S2P Require Import Prelude Float64 Geojson GridEvent GoText Tx Store Sources Places Query Feeds Evacuation Hazards Summary SummarySpec.

Module SummaryStore.
Import F64 Grid Text Store Sources Places Feeds Summary SummarySpec.
Import Query (TokenCodec, eventCursor, representable, event_rows, event_key, event_before, QueryEvents, follow, set_token).

Section Store.
Context {UL : UnicodeLower} {UU : UnicodeUpper} `{TokenCodec eventCursor}.

Lemma walk_same {R K} (key : R -> K) (before : K -> K -> bool) n tables rows cur :
  (forall a, before a a = false) ->
  (forall a b c, before a b = true -> before b c = true -> before a c = true) ->
  (forall a b, before a b = false -> before b a = false -> a = b) ->
  (0 < n)%nat -> Query.keyed_rows key rows -> Forall (fun t => t = rows) tables ->
  (Query.walk key before n tables cur).2 = true -> (Query.walk key before n tables cur).1 = Query.after key before cur rows.
Proof.
  intros Hirr Htr Htot Hn Hk Hall. revert cur. induction Hall as [|t tables -> Hall IH]; intros cur; cbn; [done|].
  pose proof (Query.page_spec key before n cur rows Hn) as Hp. destruct (Query.page key before n cur rows) as [l [k|]].
  - destruct Hp as (rest & Ha & (z & Hz & ->) & _). specialize (IH (Some (key z))).
    destruct (Query.walk key before n tables (Some (key z))) as [more fin]. cbn [fst snd] in *. intros Hf. rewrite IH by done.
    by rewrite (Query.after_next key before Hirr Htr Htot rows cur l rest z Hk Ha Hz).
  - destruct Hp as (rest & Ha & ->). rewrite app_nil_r in Ha. by cbn.
Qed.

(** The rows of a query, in the order of the list. *)
Definition all_rows (q : Query.EventQuery) (d : DB) : list Event :=
  (fun x => c_proto x.2) <$> Query.after event_key event_before None (event_rows q d).

(** Draining the pages is following the tokens through a store that stays. *)
Lemma drain_follow fuel q s evs s' :
  drain fuel q s = (inr evs, s') ->
  Tx.db s' = Tx.db s /\ exists ss, Forall (fun x => Tx.db x = Tx.db s) ss
    /\ follow (fun tok => QueryEvents (set_token tok q)) (Query.q_PageToken q) ss = Some (evs, true).
Proof.
  revert q s evs s'. induction fuel as [|fuel IH]; intros q s evs s'; cbn [drain]; [done|].
  intros ([l next] & s1 & Hq & Hrest)%Tx.bind_inr. cbn [fst snd] in Hrest.
  assert (Hdb : Tx.db s1 = Tx.db s).
  { unfold QueryEvents in Hq. destruct (Query.cursor_of _); [|done]. by apply Tx.query_frame in Hq as [? _]. }
  assert (Hset : set_token (Query.q_PageToken q) q = q) by by destruct q.
  case_bool_decide as Hn.
  - injection Hrest as <- <-. split; [done|]. exists [s]. split; [by repeat constructor|]. cbn. rewrite Hset, Hq. cbn.
    by rewrite bool_decide_true.
  - apply Tx.bind_inr in Hrest as (rest & s2 & Hd & [= <- <-]). destruct (IH _ _ _ _ Hd) as (Hdb2 & ss & Hss & Hf).
    split; [by rewrite Hdb2|]. exists (s :: ss). split.
    { constructor; [done|]. eapply Forall_impl; [exact Hss|]. cbn. by intros x ->. }
    cbn. rewrite Hset, Hq. cbn. rewrite bool_decide_false by done. cbn [Query.q_PageToken set_token] in Hf.
    assert (Hreq : follow (fun tok => QueryEvents (set_token tok (set_token next q))) next ss = follow (fun tok => QueryEvents (set_token tok q)) next ss).
    { clear. generalize next at 2 3. induction ss as [|s ss IH]; intros tok; cbn; [done|].
      replace (set_token tok (set_token next q)) with (set_token tok q) by by destruct q.
      destruct (QueryEvents _ s).1 as [|[l nx]]; [done|]. case_bool_decide; [done|]. by rewrite IH. }
    rewrite Hreq in Hf. by rewrite Hf.
Qed.

Lemma drain_all fuel q s evs s' :
  Query.q_PageToken q = "" -> (forall x, x ∈ event_rows q (Tx.db s) -> representable (event_key x)) ->
  drain fuel q s = (inr evs, s') -> evs = all_rows q (Tx.db s) /\ Tx.db s' = Tx.db s.
Proof.
  intros Ht Hrep Hd. apply drain_follow in Hd as (Hdb & ss & Hss & Hf). split; [|done]. rewrite Ht in Hf.
  destruct Query.event_before_order as (Hirr & Htr & Htot).
  pose proof (Query.follow_walk event_key event_before (event_rows q) (fun x => c_proto x.2) (Z.to_nat (Query.clampPageSize (Query.q_PageSize q)))
    (fun tok => QueryEvents (set_token tok q)) (Query.QueryEvents_page q) (Query.clampPageSize_pos _) ss "" None eq_refl) as Hw.
  destruct (Hw ltac:(intros x Hx y Hy; rewrite Forall_forall in Hss; apply Hrep; by rewrite <-(Hss x Hx)) _ _ Hf) as [-> Hfin].
  unfold all_rows. f_equal. apply walk_same; try done.
  - apply Query.clampPageSize_pos.
  - apply Query.event_rows_keyed.
  - apply Forall_fmap. eapply Forall_impl; [exact Hss|]. intros x Hx. cbn. by rewrite Hx.
Qed.

(** On a store that answers, a drain with a page for every row ends. *)
Lemma drain_total fuel q s cur :
  Tx.plan s = [] -> Query.cursor_of (Query.q_PageToken q) = Some cur ->
  (forall x, x ∈ event_rows q (Tx.db s) -> representable (event_key x)) ->
  (length (Query.after event_key event_before cur (event_rows q (Tx.db s))) < fuel)%nat ->
  exists evs, drain fuel q s = (inr evs, s).
Proof.
  intros Hpl. revert q cur. destruct Query.event_before_order as (Hirr & Htr & Htot).
  induction fuel as [|fuel IH]; intros q cur Hcur Hrep Hlen; [lia|]. cbn [drain].
  assert (Hq : QueryEvents q s = QueryEvents (set_token (Query.q_PageToken q) q) s) by by destruct q.
  unfold Tx.bind at 1. rewrite Hq, (Query.QueryEvents_page q _ cur Hcur), Tx.query_noFaults by done.
  pose proof (Query.page_spec event_key event_before _ cur (event_rows q (Tx.db s)) (Query.clampPageSize_pos (Query.q_PageSize q))) as Hp.
  destruct (Query.page _ _ _ cur _) as [l [k|]]; cbn [fst snd Query.token_of].
  - destruct Hp as (rest & Ha & (z & Hz & ->) & _). rewrite bool_decide_false by apply Query.token_nonempty.
    assert (Hin : z ∈ Query.after event_key event_before cur (event_rows q (Tx.db s))).
    { rewrite Ha. apply elem_of_app. left. by apply last_Some_elem_of. }
    destruct (IH (set_token (Query.encodeToken (event_key z)) q) (Some (event_key z))) as [evs Hd].
    + unfold Query.cursor_of. cbn [Query.q_PageToken set_token]. rewrite bool_decide_false by apply Query.token_nonempty.
      rewrite Query.token_roundtrip; [done|]. apply Hrep. by apply Query.elem_of_after in Hin as [? _].
    + exact Hrep.
    + change (event_rows (set_token _ q) (Tx.db s)) with (event_rows q (Tx.db s)).
      rewrite (Query.after_next event_key event_before Hirr Htr Htot _ cur l rest z (Query.event_rows_keyed _ _) Ha Hz).
      rewrite Ha, length_app in Hlen. destruct l; [done|]. cbn in Hlen. lia.
    + exists (((fun x => c_proto x.2) <$> l) ++ evs). unfold Tx.bind. by rewrite Hd.
  - rewrite bool_decide_true by done. by eexists.
Qed.

(** Only a missing row is "not found". *)
Lemma query_error {A} (f : DB -> A) (s : Tx.St DB Mem) e s' : Tx.query f s = (inl e, s') -> e <> ErrNotFound.
Proof. unfold Tx.query, Tx.bind, Tx.stmt. by destruct (Tx.plan s) as [|[] ?]; intros [= <-]. Qed.

Lemma drain_error fuel q s e s' : drain fuel q s = (inl e, s') -> e <> ErrNotFound.
Proof.
  revert q s e s'. induction fuel as [|fuel IH]; intros q s e s'; cbn [drain]; [by intros [= <-]|]. unfold Tx.bind.
  destruct (QueryEvents q s) as [[e1|out] s1] eqn:E.
  - intros [= <- <-]. unfold QueryEvents in E. destruct (Query.cursor_of _); [by eapply query_error|by injection E as <-].
  - destruct (bool_decide (out.2 = "")); [done|]. destruct (drain fuel _ s1) as [[e1|more] s2] eqn:E'; [|done].
    intros [= <- <-]. by eapply IH.
Qed.

(** The rows the summary of a place is about: its events that are active or
    scheduled. *)
Definition live_rows (placeID : string) (d : DB) : list (string * EventRow) :=
  filter (fun x => Query.at_place d placeID x.1 = true /\ c_status x.2 ∈ [ACTIVE; SCHEDULED]) (map_to_list (events d)).

Lemma live_query_rows placeID d : event_rows (live_query placeID []) d = live_rows placeID d.
Proof.
  unfold event_rows, live_rows. apply list_filter_iff. intros x. unfold Query.selected. cbn.
  by rewrite !andb_true_r, andb_true_iff, bool_decide_eq_true.
Qed.

(** C28: The summary served is that of the place's live events. Whatever fails
    on the way, a summary that is returned is the one [summarize] makes of the
    active and scheduled events stored for the place, each of them once, of the
    registry's rows and of the conditions built for the place's area; NotFound is
    said of a place that is not stored, and of no other; and a store that answers
    serves every place that is, in as many pages as it takes. *)
Theorem summary_of_store {W} fuel cfg now (hb : option (hazardsBuilder W)) key w s :
  (forall p x, find_place (Tx.db s) key = Some p -> x ∈ live_rows (p_id p) (Tx.db s) -> representable (event_key x)) ->
  let d := Tx.db s in
  let r := GetPlaceSummary fuel cfg now hb key w s in
  (forall sum w', r = inr (sum, w') -> exists p evs conds, find_place d key = Some p
      /\ evs ≡ₚ (fun x => c_proto x.2) <$> live_rows (p_id p) d
      /\ fetch_conditions hb (resolveHazardArea (Areas cfg) p).1 (resolveHazardArea (Areas cfg) p).2 w = (conds, w')
      /\ sum = summarize cfg now p evs (source_of <$> by_id (sources d)) conds)
  /\ (r = inl NotFound -> find_place d key = None)
  /\ (Tx.plan s = [] -> forall p, find_place d key = Some p -> (length (live_rows (p_id p) d) < fuel)%nat -> exists out, r = inr out)
  /\ (Tx.plan s = [] -> find_place d key = None -> r = inl NotFound).
Proof.
  intros Hrep. cbn zeta. unfold GetPlaceSummary. split; [|split; [|split]].
  - intros sum w' Hr. destruct (buildPlaceSummary fuel cfg now hb key w s) as [[e|out] s'] eqn:Hb; cbn [fst] in Hr; [done|].
    injection Hr as ->. unfold buildPlaceSummary in Hb.
    apply Tx.bind_inr in Hb as (p & s1 & Hp & Hb). apply Tx.bind_inr in Hp as (fp & s0 & Hq & Hp).
    apply Tx.query_inr in Hq as (-> & Hd & _). destruct (find_place (Tx.db s) key) as [p'|] eqn:Hfp; [|done]. injection Hp as <- <-.
    apply Tx.bind_inr in Hb as (evs & s2 & Hdr & Hb).
    apply drain_all in Hdr as (-> & Hd2); [|done|rewrite live_query_rows, Hd; intros x; by apply Hrep].
    apply Tx.bind_inr in Hb as (srcs & s3 & Hs & Hb). apply Tx.query_inr in Hs as (-> & Hd3 & _). rewrite Hd2, Hd in Hb.
    destruct (resolveHazardArea (Areas cfg) p') as [area covered] eqn:Hra.
    destruct (fetch_conditions hb area covered w) as [conds w1] eqn:Hf. injection Hb as <- <- <-.
    exists p', (all_rows (live_query (p_id p') []) (Tx.db s)), conds. rewrite Hra. split_and!; [done| |done|reflexivity].
    unfold all_rows. by rewrite (Query.after_perm _ _ None), live_query_rows.
  - intros Hr. destruct (buildPlaceSummary fuel cfg now hb key w s) as [[e|out] s'] eqn:Hb; cbn [fst] in Hr; [|done].
    destruct (bool_decide_reflect (e = ErrNotFound)) as [->|]; [|done]. clear Hr.
    unfold buildPlaceSummary, GetPlace in Hb. unfold Tx.bind in Hb.
    destruct (Tx.query _ s) as [[e1|fp] s1] eqn:E1; [injection Hb as -> _; by apply query_error in E1|].
    apply Tx.query_inr in E1 as (-> & _). destruct (find_place (Tx.db s) key) as [p|]; [|done]. cbn [Tx.ret] in Hb.
    destruct (drain _ _ _) as [[e1|evs] s2] eqn:E2; [injection Hb as -> _; by apply drain_error in E2|].
    destruct (ListSources s2) as [[e1|srcs] s3] eqn:E3; [injection Hb as -> _; by apply query_error in E3|].
    by destruct (resolveHazardArea _ _), (fetch_conditions _ _ _ _).
  - intros Hpl p Hfp Hlen.
    destruct (drain_total fuel (live_query (p_id p) []) s None Hpl eq_refl) as [evs Hd].
    + intros x. rewrite live_query_rows. by apply Hrep.
    + by rewrite (Query.after_perm _ _ None), live_query_rows.
    + unfold buildPlaceSummary, GetPlace, Tx.bind. rewrite Tx.query_noFaults by done. rewrite Hfp. cbn [Tx.ret].
      rewrite Hd. unfold ListSources. rewrite Tx.query_noFaults by done.
      destruct (resolveHazardArea _ _), (fetch_conditions _ _ _ _). by eexists.
  - intros Hpl Hfp. unfold buildPlaceSummary, GetPlace, Tx.bind. rewrite Tx.query_noFaults by done. rewrite Hfp. cbn [Tx.fail fst].
    by rewrite bool_decide_true.
Qed.

End Store.

(** ** A store *)

Module SummaryDemo.

#[local] Existing Instance ascii_only.
#[local] Existing Instance Query.event_codec.
#[local] Instance upper : UnicodeUpper := {| unicode_upper s := s |}.

Definition ebbetts : Place := mkPlace "corridor:ebbetts" CORRIDOR "Ebbetts Pass" "ebbetts" None "".
Definition source (st : SourceStatus) : SourceRow := mkSourceRow "" "" "" FEED 300 None None (Some 100) (Some 900) "" st "".
Definition registry (evac : SourceStatus) : gmap string SourceRow :=
  <["caloes" := source evac]>
    (list_to_map ((fun id => (id, source OK)) <$> ["calfire"; "firis"; "nws"; "usgs"; "chp"; "caltrans"; "pge"; "psps"])).

(** Two fires at the place and one elsewhere. *)
Definition with_health (evac : SourceStatus) (evs : gmap string EventRow) : Tx.St DB Mem :=
  Tx.mkSt (mkDB evs [] {[ ("a", "corridor:ebbetts"); ("b", "corridor:ebbetts") ]} ∅ ∅ {[ "corridor:ebbetts" := ebbetts ]} (registry evac))
    (mkMem None 0 ∅) [].
Definition fires : gmap string EventRow := {[ "a" := Query.ev_row "a" 5; "b" := Query.ev_row "b" 7; "c" := Query.ev_row "c" 5 ]}.

(** Condition layers that answer, with nothing on them. *)
Definition empty_layers : hazardsBuilder unit := fun _ _ w => (Some ([], "OK"), w).
Definition config : Config := mkConfig [] [] false.
Definition served (key : string) (s : Tx.St DB Mem) : Code + PlaceSummary * unit :=
  GetPlaceSummary 4 config 1000 (Some empty_layers) key tt s.

(** The two fires of the place are counted, and no evacuation is. *)
Example two_fires :
  match served "ebbetts" (with_health OK fires) with
  | inr (sum, _) => (Mode sum, TotalActive (Summary_ sum), te_Id <$> TopEvents (Summary_ sum), ActiveEvacuations (Summary_ sum))
                    = ("QUIET", 2, ["b"; "a"], Some 0)
  | inl _ => False
  end.
Proof. vm_compute. reflexivity. Qed.

Lemma summary_of_store_witness :
  (exists out, served "ebbetts" (with_health OK fires) = inr out) /\ served "alpine" (with_health OK fires) = inl NotFound.
Proof.
  pose proof (fun key => summary_of_store 4 config 1000 (Some empty_layers) key tt (with_health OK fires)
    (fun _ _ _ _ => I : representable (event_key _))) as Hs. split.
  - apply (proj1 (proj2 (proj2 (Hs "ebbetts"))) eq_refl ebbetts); [vm_compute; reflexivity|vm_compute; lia].
  - apply (proj2 (proj2 (proj2 (Hs "alpine"))) eq_refl). vm_compute. reflexivity.
Defined.

(** A zero that no healthy fetch stands behind: the evacuation source is failing,
    nothing is stored, and the place is quiet with a count of 0. *)
Theorem stale_zero :
  match served "ebbetts" (with_health STALE ∅) with
  | inr (sum, _) => (Mode sum, ActiveEvacuations (Summary_ sum), EvacuationStatus (Summary_ sum)) = ("QUIET", Some 0, "STALE")
  | inl _ => False
  end.
Proof. vm_compute. reflexivity. Qed.

(** The same store once the source is given up: an unknown number, and WATCH. *)
Example down_unknown :
  match served "ebbetts" (with_health UNAVAILABLE ∅) with
  | inr (sum, _) => (Mode sum, ActiveEvacuations (Summary_ sum), EvacuationStatus (Summary_ sum)) = ("WATCH", None, "UNAVAILABLE")
  | inl _ => False
  end.
Proof. vm_compute. reflexivity. Qed.

End SummaryDemo.
End SummaryStore.
