(* ===== verification/ReadApi.v ===== *)
(** * The read API

    [internal/gridapi/grpc.go], [events.go], [mesh_activity.go], [places.go]: the
    requests for events, histories, places and sources, over the store and the
    mesh tables together, with the validators of their conditional requests. A
    handler is a function of the request and the state that may stop early, with
    a status code or "not modified". What the etag plugin does, SHA-256, the time
    layout, [strconv.ParseFloat] and the geocoder are classes or arguments. The
    wording of errors is left out. *)

From Stdlib Require Import Ascii.
From stdpp Require Import pretty.
From S2P Require Import Prelude Float64 Geojson GridEvent GoText Tx Store Sources Places Mesh Query Feeds Evacuation Hazards Summary Scheduler.

Module ReadApi.
Import F64 Grid Text Store Sources Places.
Import Query (TokenCodec, eventCursor, historyCursor, EventQuery, mkEventQuery, HistoryQuery, mkHistoryQuery, EventRevision, mkEventRevision, er_event, er_revision, er_observed_at, er_ingested_at, QueryEvents, QueryHistory, EventHistory, DefaultPageSize).
Import Mesh (MeshDB, MeshActivity, LastHeardAt, LastRelayedAt, MeshActivityFor, unixOrZero).
Import Scheduler (SM, SMem, onStore, onMesh).
Import Summary (Code, NotFound, InvalidArgument, Unavailable, Internal, Layer_name, Severity_name).

(** ** Handlers *)

Abbreviation St := (Tx.St (DB * MeshDB) SMem).

(** A handler ends early with a status, or with 304. *)
Inductive Stop := Status (c : Code) | NotModified.
Definition H (A : Type) : Type := St -> (Stop + A) * St.
Definition hret {A} (a : A) : H A := fun s => (inr a, s).
Definition stop {A} (x : Stop) : H A := fun s => (inl x, s).
Definition hbind {A B} (m : H A) (f : A -> H B) : H B := fun s =>
  match m s with (inl x, s') => (inl x, s') | (inr a, s') => f a s' end.

Declare Scope handler_scope.
Delimit Scope handler_scope with handler.
Notation "x <~ m ;; k" := (hbind m (fun x => k)) (at level 60, m at next level, right associativity) : handler_scope.
Notation "m ;;; k" := (hbind m (fun _ => k)) (at level 60, right associativity) : handler_scope.
Open Scope handler_scope.

(** A read of the store, with the status its error becomes. *)
Definition lift {A} (onerr : Tx.error -> Stop) (m : SM A) : H A := fun s =>
  match m s with (inl e, s') => (inl (onerr e), s') | (inr a, s') => (inr a, s') end.
Definition internalErr (e : Tx.error) : Stop := Status Internal.
Definition notFoundOr (e : Tx.error) : Stop := if bool_decide (e = ErrNotFound) then Status NotFound else Status Internal.
Definition isBadToken (e : Tx.error) : bool := Contains e "invalid page token".
Definition tokenOrInternal (e : Tx.error) : Stop := if isBadToken e then Status InvalidArgument else Status Internal.
(** A parameter that did not parse. *)
Definition need {A} (o : option A) : H A := match o with Some a => hret a | None => stop (Status InvalidArgument) end.

(** ** Parameters *)

Definition EventStatus_name (s : EventStatus) : string :=
  match s with
  | EVENT_STATUS_UNSPECIFIED => "EVENT_STATUS_UNSPECIFIED" | SCHEDULED => "SCHEDULED" | ACTIVE => "ACTIVE" | RESOLVED => "RESOLVED"
  | EXPIRED => "EXPIRED"
  end.
Definition PlaceKind_name (k : PlaceKind) : string :=
  match k with
  | PLACE_KIND_UNSPECIFIED => "PLACE_KIND_UNSPECIFIED" | AREA => "AREA" | COUNTY => "COUNTY" | TOWN => "TOWN" | EVAC_ZONE => "EVAC_ZONE"
  | CORRIDOR => "CORRIDOR" | SITE => "SITE"
  end.
Definition all_layers : list Layer :=
  [LAYER_UNSPECIFIED; WILDFIRE; EVACUATION; WEATHER_ALERT; FIRE_WEATHER; EARTHQUAKE; ROAD_INCIDENT; POWER; GAUGE; AIR_QUALITY; MESH;
   ANNOUNCEMENT; BURN_STATUS].
Definition all_statuses : list EventStatus := [EVENT_STATUS_UNSPECIFIED; SCHEDULED; ACTIVE; RESOLVED; EXPIRED].
Definition all_severities : list Severity := [INFO; MINOR; MODERATE; SEVERE; EXTREME].
Definition all_kinds : list PlaceKind := [PLACE_KIND_UNSPECIFIED; AREA; COUNTY; TOWN; EVAC_ZONE; CORRIDOR; SITE].

(** The value of a name: the generated maps from enum names. *)
Definition value_of {E} (name : E -> string) (all : list E) (key : string) : option E := head (filter (fun e => name e = key) all).

Definition layerAlias (key : string) : string :=
  if String.eqb key "NETWORK" then "MESH" else if String.eqb key "MESH_NODE" then "MESH" else key.

(** Repeated parameters, each a comma-separated list. *)
Definition pieces (vals : list string) : list string :=
  filter (fun v => v <> "") (TrimSpace <$> (vals ≫= fun raw => Split raw ","%char)).

Class TimeParse := { parse_rfc3339 : string -> option Time }.
Class FloatParse := { ParseFloat : string -> option float64 }.

Section Parsing.
Context {UU : UnicodeUpper}.

Definition parseLayers (vals : list string) : option (list Layer) :=
  mapM (fun v => l ← value_of Layer_name all_layers (layerAlias (ToUpper v));
                 if bool_decide (l = LAYER_UNSPECIFIED) then None else Some l) (pieces vals).
Definition parseStatuses (vals : list string) : option (list EventStatus) :=
  mapM (fun v => st ← value_of EventStatus_name all_statuses (ToUpper v);
                 if bool_decide (st = EVENT_STATUS_UNSPECIFIED) then None else Some st) (pieces vals).
Definition parseSeverity (v : string) : option Severity := value_of Severity_name all_severities (ToUpper (TrimSpace v)).
Definition parseKind (v : string) : option PlaceKind :=
  k ← value_of PlaceKind_name all_kinds (ToUpper (TrimSpace v));
  if bool_decide (k = PLACE_KIND_UNSPECIFIED) then None else Some k.
Definition parsePageSize (n : Z) : option Z := if n <? 0 then None else Some n.

(** [parseRFC3339]; a parameter that is not given is the zero time. *)
Definition parse_time `{TimeParse} (v : string) : option Time := if String.eqb v "" then Some time_zero else parse_rfc3339 v.
Definition parse_min (v : string) : option Severity := if String.eqb v "" then Some INFO else parseSeverity v.

End Parsing.

(** ** Bodies *)

(** [stripEventsIO]: without the prompt and the answer of the model. *)
Definition strip_enhancement (e : Enhancement) : Enhancement := mkEnhancement (e_model e) (enhanced_at e) (e_fields e) "" "".
Definition strip_event (ev : Event) : Event := set_enhancement (strip_enhancement <$> enhancement ev) ev.
Definition stripEventsIO (keep : bool) (evs : list Event) : list Event := if keep then evs else strip_event <$> evs.
Definition strip_revision (r : EventRevision) : EventRevision :=
  mkEventRevision (er_revision r) (er_observed_at r) (er_ingested_at r) (strip_event (er_event r)).
Definition stripRevisionsIO (keep : bool) (revs : list EventRevision) : list EventRevision := if keep then revs else strip_revision <$> revs.

Definition meshActivityPrefix : string := "meshcore:".
(** Keys are hex: [Mesh.ToLower]. *)
Definition meshActivityKey (ev : Event) : string :=
  if bool_decide (layer ev = MESH) then match GetMesh ev with Some d => Mesh.ToLower (public_key d) | None => "" end else "".

(** One event's clocks: a zero one leaves what is there. *)
Definition stamp_activity (a : MeshActivity) (t : MeshTelemetry) : MeshTelemetry :=
  mkMeshTelemetry (snr t) (rssi t) (hop_count t) (gateways t) (last_advert_at t) (admin t)
    (if time_is_zero (LastHeardAt a) then last_heard_at t else Some (LastHeardAt a))
    (if time_is_zero (LastRelayedAt a) then last_relayed_at t else Some (LastRelayedAt a)).
Definition no_telemetry : MeshTelemetry := mkMeshTelemetry None None None [] None None None None.
Definition apply_activity (act : gmap string MeshActivity) (ev : Event) : Event :=
  match act !! meshActivityKey ev with
  | None => ev
  | Some a =>
      match detail ev with
      | Some (D_Mesh d) => set_detail (Some (D_Mesh (set_telemetry (Some (stamp_activity a (default no_telemetry (telemetry d)))) d))) ev
      | _ => ev
      end
  end.
Definition applyMeshActivity (act : gmap string MeshActivity) (evs : list Event) : list Event := apply_activity act <$> evs.

(** An activity read that fails leaves the events as they are. *)
Definition overlayMeshActivity (evs : list Event) : H (list Event) := fun s =>
  let keys := filter (fun k => k <> "") (meshActivityKey <$> evs) in
  match keys with
  | [] => (inr evs, s)
  | _ => match onMesh (MeshActivityFor keys) s with
         | (inl _, s') => (inr evs, s')
         | (inr act, s') => (inr (applyMeshActivity act evs), s')
         end
  end.

Definition layersIncludeMesh (layers : list Layer) : bool := Nat.eqb (length layers) 0 || bool_decide (MESH ∈ layers).
Definition meshActivityTag (a : option MeshActivity) : string :=
  let clock f := pretty (match a with Some a => unixOrZero (f a) | None => 0 end) in
  clock LastHeardAt +:+ "." +:+ clock LastRelayedAt.

(** ** Validators *)

(** The etag plugin: a weak tag, and whether the request's If-None-Match names
    a tag. A request that names one tag names no other, and one that names none
    matches none. [short_hash]: the hex of the first eight bytes of SHA-256. *)
Class Etag := {
  Weak : string -> string;
  Guard : string -> string -> bool;
  short_hash : string -> string;
  Weak_inj : forall a b, Weak a = Weak b -> a = b;
  Guard_own : forall a b, Guard (Weak a) (Weak b) = true <-> a = b;
  Guard_none : forall a, Guard "" (Weak a) = false }.

Definition guard `{Etag} (inm tag : string) : H unit := if Guard inm tag then stop NotModified else hret tt.

Definition nul : string := String Ascii.zero "".
Definition weakListTag `{Etag} (version : string) (parts : list string) : string :=
  Weak (version +:+ "-" +:+ short_hash (join nul parts)).
Definition FormatBool (b : bool) : string := if b then "true" else "false".

(** ** Requests and answers *)

Record ListEventsRequest := mkListEventsRequest {
  le_place : string; le_layer : list string; le_status : list string; le_severity_min : string; le_since : string; le_page_size : Z;
  le_page_token : string; le_enhancement_io : bool }.
Record EventList := mkEventList { Events : list Event; el_next : string }.
Record GetEventRequest := mkGetEventRequest { ge_id : string; ge_enhancement_io : bool }.
Record GetEventHistoryRequest := mkGetEventHistoryRequest { gh_id : string; gh_page_size : Z; gh_page_token : string; gh_enhancement_io : bool }.
Record ListHistoryRequest := mkListHistoryRequest {
  lh_place : string; lh_layer : list string; lh_from : string; lh_to : string; lh_page_size : Z; lh_page_token : string;
  lh_enhancement_io : bool }.
Record EventRevisionList := mkEventRevisionList { Revisions : list EventRevision; rl_next : string }.

(** An answer comes with its validator. *)
Record Answer (A : Type) := mkAnswer { tag_of : string; body_of : A }.
Arguments mkAnswer {A} _ _.
Arguments tag_of {A} _.
Arguments body_of {A} _.

(** A conditional read: the validator, and what the body needs, is read first;
    a request that names it skips the body. *)
Definition conditional `{Etag} {T A} (prepare : H (string * T)) (body : T -> H A) (inm : string) : H (Answer A) :=
  t <~ prepare ;;
  guard inm t.1 ;;;
  b <~ body t.2 ;;
  hret (mkAnswer t.1 b).

Section Server.
Context {UU : UnicodeUpper} {TP : TimeParse} {ET : Etag} `{TokenCodec eventCursor} `{TokenCodec historyCursor}.
(** The nonce of this process. *)
Variable placesVersion : string.

Definition resolvePlaceID (key : string) : H string :=
  if String.eqb key "" then hret ""
  else p <~ lift notFoundOr (onStore (GetPlace key)) ;; hret (p_id p).

(** *** [ListEvents] *)

Definition events_query (req : ListEventsRequest) : H EventQuery :=
  placeID <~ resolvePlaceID (le_place req) ;;
  layers <~ need (parseLayers (le_layer req)) ;;
  statuses <~ need (parseStatuses (le_status req)) ;;
  minSeverity <~ need (parse_min (le_severity_min req)) ;;
  since <~ need (parse_time (le_since req)) ;;
  pageSize <~ need (parsePageSize (le_page_size req)) ;;
  hret (mkEventQuery placeID layers statuses minSeverity since pageSize (le_page_token req)).

Definition events_tag (req : ListEventsRequest) (eq : EventQuery) : H string :=
  dv <~ lift internalErr (onStore DataVersion) ;;
  rv <~ lift internalErr (onStore (RefreshVersion (Query.q_Layers eq))) ;;
  mv <~ lift internalErr (onMesh Tx.get_mem) ;;
  let version := placesVersion +:+ "." +:+ pretty dv +:+ ".r" +:+ pretty rv
                 +:+ (if layersIncludeMesh (Query.q_Layers eq) then ".m" +:+ pretty mv else "") in
  hret (weakListTag version
    [le_place req; join "," (le_layer req); join "," (le_status req); le_severity_min req; le_since req; pretty (le_page_size req);
     le_page_token req; FormatBool (le_enhancement_io req)]).

Definition events_body (req : ListEventsRequest) (eq : EventQuery) : H EventList :=
  r <~ lift tokenOrInternal (onStore (QueryEvents eq)) ;;
  evs <~ overlayMeshActivity (stripEventsIO (le_enhancement_io req) r.1) ;;
  hret (mkEventList evs r.2).

Definition list_prepare (req : ListEventsRequest) : H (string * EventQuery) :=
  eq <~ events_query req ;; tag <~ events_tag req eq ;; hret (tag, eq).
Definition ListEvents (inm : string) (req : ListEventsRequest) : H (Answer EventList) :=
  conditional (list_prepare req) (events_body req) inm.

(** *** [GetEvent] *)

(** The activity of a mesh id; a failed read is none. *)
Definition event_activity (id : string) : H (option (gmap string MeshActivity)) := fun s =>
  match CutPrefix id meshActivityPrefix with
  | None => (inr None, s)
  | Some native => match onMesh (MeshActivityFor [native]) s with (inl _, s') => (inr (Some ∅), s') | (inr act, s') => (inr (Some act), s') end
  end.

Definition event_tag (req : GetEventRequest) : H (string * gmap string MeshActivity) :=
  st <~ lift internalErr (onStore (EventVersion (ge_id req))) ;;
  match st with
  | None => stop (Status NotFound)
  | Some st =>
      act <~ event_activity (ge_id req) ;;
      let base := placesVersion +:+ ":" +:+ ge_id req +:+ ":" +:+ pretty (st_Revision st) +:+ "." +:+ pretty (st_Refreshes st) +:+ ":"
                  +:+ FormatBool (ge_enhancement_io req) in
      let suffix := match act with
                    | Some act => ":" +:+ meshActivityTag (act !! Mesh.ToLower (TrimPrefix (ge_id req) meshActivityPrefix))
                    | None => ""
                    end in
      hret (Weak (base +:+ suffix), default ∅ act)
  end.

Definition event_body (req : GetEventRequest) (act : gmap string MeshActivity) : H Event :=
  ev <~ lift notFoundOr (onStore (Store.GetEvent (ge_id req))) ;;
  hret (apply_activity act (if ge_enhancement_io req then ev else strip_event ev)).

Definition GetEvent (inm : string) (req : GetEventRequest) : H (Answer Event) := conditional (event_tag req) (event_body req) inm.

(** *** [GetEventHistory] *)

Definition event_history_tag (req : GetEventHistoryRequest) : H string :=
  st <~ lift internalErr (onStore (EventVersion (gh_id req))) ;;
  match st with
  | None => stop (Status NotFound)
  | Some st =>
      hret (Weak (placesVersion +:+ ":" +:+ gh_id req +:+ ":" +:+ pretty (st_Revision st) +:+ ":" +:+ pretty (gh_page_size req) +:+ ":"
                  +:+ gh_page_token req +:+ ":" +:+ FormatBool (gh_enhancement_io req)))
  end.

Definition event_history_prepare (req : GetEventHistoryRequest) : H (string * Z) :=
  pageSize <~ need (parsePageSize (gh_page_size req)) ;; tag <~ event_history_tag req ;; hret (tag, pageSize).
Definition event_history_body (req : GetEventHistoryRequest) (pageSize : Z) : H EventRevisionList :=
  r <~ lift tokenOrInternal (onStore (EventHistory (gh_id req) pageSize (gh_page_token req))) ;;
  hret (mkEventRevisionList (stripRevisionsIO (gh_enhancement_io req) r.1) r.2).

Definition GetEventHistory (inm : string) (req : GetEventHistoryRequest) : H (Answer EventRevisionList) :=
  conditional (event_history_prepare req) (event_history_body req) inm.

(** *** [ListHistory] *)

Definition history_query (req : ListHistoryRequest) : H HistoryQuery :=
  placeID <~ resolvePlaceID (lh_place req) ;;
  layers <~ need (parseLayers (lh_layer req)) ;;
  from <~ need (parse_time (lh_from req)) ;;
  to <~ need (parse_time (lh_to req)) ;;
  pageSize <~ need (parsePageSize (lh_page_size req)) ;;
  hret (mkHistoryQuery placeID layers from to pageSize (lh_page_token req)).

Definition history_tag (req : ListHistoryRequest) (hq : HistoryQuery) : H string :=
  dv <~ lift internalErr (onStore DataVersion) ;;
  rv <~ lift internalErr (onStore (RefreshVersion (Query.hq_Layers hq))) ;;
  let version := placesVersion +:+ "." +:+ pretty dv +:+ (if String.eqb (Query.hq_PlaceID hq) "" then "" else ".r" +:+ pretty rv) in
  hret (weakListTag version
    [lh_place req; join "," (lh_layer req); lh_from req; lh_to req; pretty (lh_page_size req); lh_page_token req;
     FormatBool (lh_enhancement_io req)]).

Definition history_prepare (req : ListHistoryRequest) : H (string * HistoryQuery) :=
  hq <~ history_query req ;; tag <~ history_tag req hq ;; hret (tag, hq).
Definition history_body (req : ListHistoryRequest) (hq : HistoryQuery) : H EventRevisionList :=
  r <~ lift tokenOrInternal (onStore (QueryHistory hq)) ;;
  hret (mkEventRevisionList (stripRevisionsIO (lh_enhancement_io req) r.1) r.2).

Definition ListHistory (inm : string) (req : ListHistoryRequest) : H (Answer EventRevisionList) :=
  conditional (history_prepare req) (history_body req) inm.

(** *** Places and sources *)

Definition ListPlaces (inm kind q : string) : H (Answer (list Place)) :=
  k <~ need (if String.eqb kind "" then Some PLACE_KIND_UNSPECIFIED else parseKind kind) ;;
  conditional (hret (weakListTag placesVersion ["kind=" +:+ kind; "q=" +:+ q], tt))
    (fun _ => lift internalErr (onStore (Places.ListPlaces k q))) inm.

Definition GetPlace (inm key : string) : H (Answer Place) :=
  conditional (p <~ lift notFoundOr (onStore (Places.GetPlace key)) ;; hret (Weak (placesVersion +:+ ":" +:+ p_id p), p)) hret inm.

Definition ListSources : H (list Source) := lift internalErr (onStore Sources.ListSources).

(** What the geocoder says of an address. *)
Inductive GeocodeReply := NoMatch | GeocodeFailed | Matched (lat_ lng_ : float64) (address : string).
Record ResolveQuery := mkResolveQuery { rq_Lat : float64; rq_Lng : float64; MatchedAddress : string }.

Definition coordinate `{FloatParse} (text : string) (bound : Z) : option float64 :=
  x ← ParseFloat text;
  if is_nan x || ltb x (of_Z (- bound)) || ltb (of_Z bound) x then None else Some x.

Definition ResolvePlace `{MathKernel} `{JsonKernel} `{FloatParse} (townRadius : float64) (geocode : string -> GeocodeReply)
    (lat_ lng_ address : string) : H (ResolveQuery * list Place) :=
  q <~ (if (negb (String.eqb lat_ "") || negb (String.eqb lng_ "")) && negb (String.eqb address "") then stop (Status InvalidArgument)
        else if negb (String.eqb lat_ "") || negb (String.eqb lng_ "") then
          if String.eqb lat_ "" || String.eqb lng_ "" then stop (Status InvalidArgument)
          else lat_ <~ need (coordinate lat_ 90) ;; lng_ <~ need (coordinate lng_ 180) ;; hret (mkResolveQuery lat_ lng_ "")
        else if negb (String.eqb address "") then
          match geocode address with
          | NoMatch => stop (Status NotFound)
          | GeocodeFailed => stop (Status Unavailable)
          | Matched lat_ lng_ matched => hret (mkResolveQuery lat_ lng_ matched)
          end
        else stop (Status InvalidArgument)) ;;
  places <~ lift internalErr (onStore (PlacesContaining townRadius (rq_Lat q) (rq_Lng q))) ;;
  hret (q, places).

End Server.
End ReadApi.
