(* ===== verification/ReadApiSpec.v ===== *)
(** * Validators that never go stale

    A conditional request that is answered "not modified" would have been answered
    with the body the client holds, whatever was written in between: for the event
    list (unless a failed read left the clocks of mesh nodes out of that body), one
    event, one event's history and the archive. *)

From stdpp Require Import pretty.
From S2P Require Import Prelude Float64 Geo Geojson GridEvent GoText EventCodec Tx Store StoreSpec Sources Places Mesh Query Feeds Evacuation Hazards Summary Scheduler ReadApi.

Module ReadApiSpec.
Import F64 Grid Text Store StoreSpec Places ReadApi.
Import Query (TokenCodec, eventCursor, historyCursor, event_rows, history_rows, event_key, event_before, history_key, history_before).
Import Mesh (MeshDB, mesh_activity).
Import Scheduler (SM, SMem, m_store, m_mesh, onStore, onMesh).

(** ** What an unchanged version keeps *)

Section Kept.
Context {MK : MathKernel} {JK : JsonKernel}.
Variable marshal : Event -> option string.
Variable digest : string -> string.
Hypothesis collision_free : forall e1 e2, ContentHash marshal digest e1 = ContentHash marshal digest e2 -> normalize e1 = normalize e2.
Abbreviation DbOk := (DbOk marshal digest).
Abbreviation moves := (moves marshal digest).
Abbreviation effect := (effect marshal digest).

(** What the reads of some layers see of a row. *)
Definition row_kept (P : Layer -> Prop) (d d' : DB) (id : string) (r r' : EventRow) : Prop :=
  c_layer r' = c_layer r
  /\ (P (c_layer r) ->
        c_severity r' = c_severity r /\ c_status r' = c_status r /\ c_observed_at r' = c_observed_at r /\ c_proto r' = c_proto r
        /\ forall p, (id, p) ∈ event_places d' <-> (id, p) ∈ event_places d).
Definition kept (P : Layer -> Prop) (d d' : DB) : Prop := forall id,
  match events d !! id, events d' !! id with
  | None, None => True
  | Some r, Some r' => row_kept P d d' id r r'
  | _, _ => False
  end.

Lemma row_kept_refl P d id r : row_kept P d d id r r.
Proof. by split. Qed.

Lemma kept_refl P d : kept P d d.
Proof. intros id. destruct (events d !! id); [apply row_kept_refl|done]. Qed.

Lemma kept_trans P d1 d2 d3 : kept P d1 d2 -> kept P d2 d3 -> kept P d1 d3.
Proof.
  intros H1 H2 id. specialize (H1 id). specialize (H2 id).
  destruct (events d1 !! id) as [r1|], (events d2 !! id) as [r2|], (events d3 !! id) as [r3|]; try done.
  destruct H1 as [L1 K1], H2 as [L2 K2]. split; [congruence|]. intros Hc. destruct (K1 Hc) as (A1 & A2 & A3 & A4 & A5).
  destruct (K2 ltac:(congruence)) as (B1 & B2 & B3 & B4 & B5). split_and!; [congruence..|]. intros p. by rewrite B5, A5.
Qed.

Lemma kept_sym P d d' : kept P d d' -> kept P d' d.
Proof.
  intros H id. specialize (H id). destruct (events d !! id) as [r|], (events d' !! id) as [r'|]; try done.
  destruct H as [L K]. split; [done|]. intros Hc. destruct (K ltac:(congruence)) as (A1 & A2 & A3 & A4 & A5). split_and!; [done..|].
  intros p. by rewrite A5.
Qed.

(** The rows of [d'] are those of [d] but for one whose layer is not read. *)
Lemma kept_insert P d d' id r r' :
  events d !! id = Some r -> events d' = <[id := r']> (events d) -> c_layer r' = c_layer r -> ~ P (c_layer r) ->
  (forall k p, k <> id -> (k, p) ∈ event_places d' <-> (k, p) ∈ event_places d) -> kept P d d'.
Proof.
  intros Hr Hev Hl Hn Hp k. rewrite Hev. destruct (decide (k = id)) as [->|Hk].
  - rewrite lookup_insert_eq, Hr. split; [done|]. tauto.
  - rewrite lookup_insert_ne by done. destruct (events d !! k); [|done]. split; [done|]. intros _. split_and!; [done..|]. intros p. by apply Hp.
Qed.

Lemma effect_kept k d d' P :
  DbOk d -> effect k d d' -> length (event_revisions d') = length (event_revisions d) ->
  (forall l, k = KRefresh l -> ~ P l) -> kept P d d'.
Proof using collision_free.
  intros Hok He Hlen Hk.
  inversion He as [now ev rev ? ? _ _ _ (ids & b & _ & _ & _ & _ & Hre & _)|ev r ? ? Hr Hh (ids & Hev & _ & Hpl & _)
    |now to obs id0 r ev ? ? _ _ _ _ _ Hre|? ? Hev _ Hpl| |]; subst; [| | | |intros id; exact (kept_refl P d id)|intros id; exact (kept_refl P d id)].
  - rewrite Hre, length_app in Hlen. cbn in Hlen. lia.
  - pose proof (ok_row _ _ _ Hok _ _ Hr) as Hrow.
    destruct (refresh_content marshal digest collision_free d ev r (unionSorted (place_ids ev) ids) Hrow Hh) as [Hl _].
    eapply kept_insert; [exact Hr|exact Hev|done| |].
    + rewrite (row_layer _ _ _ _ _ Hrow), <-Hl. by apply Hk.
    + intros k p Hne. destruct Hpl as [-> |[-> _]]; [|done]. rewrite elem_of_replaced. tauto.
  - rewrite Hre, length_app in Hlen. cbn in Hlen. lia.
  - intros id. destruct (Hev id) as [->|(t & r & -> & ->)].
    + destruct (events d !! id); [|done]. split; [done|]. intros _. by rewrite Hpl.
    + split; [done|]. intros _. by rewrite Hpl.
Qed.

Lemma moves_kept x y layers :
  rtc moves x y -> DbOk x.1 -> small y.1 -> length (event_revisions y.1) = length (event_revisions x.1) ->
  refresh_sum y.2 layers = refresh_sum x.2 layers -> kept (covers layers) x.1 y.1.
Proof using collision_free.
  induction 1 as [|x y z (k & He & Hb) Hyz IH]; intros Hx Hz Hlen Hsum; [apply kept_refl|].
  pose proof (moves_length _ _ _ _ Hyz) as H1. pose proof (effect_length _ _ _ _ _ He) as H2.
  pose proof (moves_sum_mono _ _ _ _ layers Hyz) as H3.
  assert (H4 : refresh_sum x.2 layers <= refresh_sum y.2 layers).
  { apply (moves_sum_mono marshal digest x y). apply rtc_once. by exists k. }
  assert (Hsx : small x.1) by (unfold small in *; lia).
  eapply kept_trans; [eapply effect_kept; [done|exact He|lia|]|apply IH; [by eapply effect_ok|done|lia|lia]].
  intros l -> Hc. rewrite Hb in H3, H4. cbn in H3, H4. rewrite refresh_sum_bump, decide_True in H3 by done. lia.
Qed.

(** Without new revisions no row changes its layer. *)
Lemma moves_kept_layers x y :
  rtc moves x y -> DbOk x.1 -> small y.1 -> length (event_revisions y.1) = length (event_revisions x.1) -> kept (fun _ => False) x.1 y.1.
Proof using collision_free.
  induction 1 as [|x y z (k & He & Hb) Hyz IH]; intros Hx Hz Hlen; [apply kept_refl|].
  pose proof (moves_length _ _ _ _ Hyz) as H1. pose proof (effect_length _ _ _ _ _ He) as H2.
  assert (Hsx : small x.1) by (unfold small in *; lia).
  eapply kept_trans; [eapply effect_kept; [done|exact He|lia|tauto]|apply IH; [by eapply effect_ok|done|lia]].
Qed.

(** Revisions are only appended. *)
Lemma moves_revisions x y : rtc moves x y -> event_revisions x.1 `prefix_of` event_revisions y.1.
Proof.
  induction 1 as [|x y z (k & He & _) _ IH]; [done|]. etrans; [|exact IH].
  inversion He as [? ? ? ? ? ? ? ? (? & ? & _ & _ & _ & _ & Hr & _)|? ? ? ? ? ? (? & _ & Hr & _)|? ? ? ? ? ? ? ? ? ? ? ? ? Hr|? ? ? Hr| |]; subst;
    rewrite ?Hr; try done; by apply prefix_app_r.
Qed.

End Kept.

(** ** Pages of unchanged rows *)

Section Pages.
Context {R K A : Type}.
Variable key : R -> K.
Variable before : K -> K -> bool.
Variable out : R -> A.
Hypothesis before_irrefl : forall a, before a a = false.
Hypothesis before_trans : forall a b c, before a b = true -> before b c = true -> before a c = true.
Hypothesis before_total : forall a b, before a b = false -> before b a = false -> a = b.

Definition shown (x : R) : K * A := (key x, out x).

Lemma filter_shown k (l : list R) :
  shown <$> filter (fun x => before k (key x) = true) l = filter (fun x : K * A => before k x.1 = true) (shown <$> l).
Proof.
  induction l as [|x l IH]; [done|]. rewrite fmap_cons, !filter_cons. change ((shown x).1) with (key x).
  destruct (decide _); [by rewrite fmap_cons, IH|exact IH].
Qed.

Lemma after_ext cur rows1 rows2 :
  Query.keyed_rows key rows1 -> Query.keyed_rows key rows2 -> shown <$> rows1 ≡ₚ shown <$> rows2 ->
  shown <$> Query.after key before cur rows1 = shown <$> Query.after key before cur rows2.
Proof using before_irrefl before_trans before_total.
  intros Hk1 Hk2 Hp.
  assert (Hsort : forall rows, Query.keyed_rows key rows ->
    StronglySorted (fun a b : K * A => before a.1 b.1 = true) (shown <$> Query.after key before cur rows)).
  { intros rows Hk. pose proof (Query.after_strict key before before_irrefl before_trans before_total cur rows Hk) as Hs.
    revert Hs. unfold Query.strictly. induction (Query.after key before cur rows) as [|x l IH]; cbn; intros Hs; [constructor|].
    apply StronglySorted_inv in Hs as [Hs Hx]. constructor; [by apply IH|]. apply Forall_fmap. by apply Forall_fmap in Hx. }
  assert (Hperm : forall rows, shown <$> Query.after key before cur rows
    ≡ₚ match cur with None => shown <$> rows | Some k => filter (fun x : K * A => before k x.1 = true) (shown <$> rows) end).
  { intros rows. rewrite Query.after_perm. destruct cur as [k|]; [|done]. by rewrite filter_shown. }
  refine (StronglySorted_unique_strong _ _ _ _ (Hsort _ Hk1) (Hsort _ Hk2) _).
  - intros a b _ _ H1 H2. pose proof (before_trans _ _ _ H1 H2) as H3. rewrite before_irrefl in H3. discriminate H3.
  - rewrite !Hperm. destruct cur; by rewrite Hp.
Qed.

Lemma page_ext n cur rows1 rows2 :
  Query.keyed_rows key rows1 -> Query.keyed_rows key rows2 -> shown <$> rows1 ≡ₚ shown <$> rows2 ->
  let p := Query.page key before n cur in out <$> (p rows1).1 = out <$> (p rows2).1 /\ (p rows1).2 = (p rows2).2.
Proof using before_irrefl before_trans before_total.
  intros Hk1 Hk2 Hp. pose proof (after_ext cur rows1 rows2 Hk1 Hk2 Hp) as He. cbn zeta.
  assert (Hpage : forall rows, (out <$> (Query.page key before n cur rows).1, (Query.page key before n cur rows).2)
    = let P := take (n + 1) (shown <$> Query.after key before cur rows) in
      if (n <? length P)%nat then (snd <$> take n P, fst <$> last (take n P)) else (snd <$> P, None)).
  { intros rows. unfold Query.page. cbn zeta. rewrite <-fmap_take, length_fmap. destruct (n <? _)%nat; cbn [fst snd].
    - by rewrite <-fmap_take, fmap_last, <-list_fmap_compose, <-option_fmap_compose.
    - by rewrite <-list_fmap_compose. }
  pose proof (Hpage rows1) as H1. rewrite He, <-Hpage in H1. by injection H1.
Qed.
End Pages.

Section Rows.
Variables (layers : list Layer) (d d' : DB).
Hypothesis Hkept : kept (covers layers) d d'.

Lemma covers_in l : covers layers l <-> Query.in_layers layers l = true.
Proof. unfold covers, Query.in_layers. rewrite orb_true_iff, Nat.eqb_eq, bool_decide_eq_true, length_zero_iff_nil. done. Qed.

Lemma kept_pair q x :
  Query.q_Layers q = layers -> x ∈ event_rows q d ->
  exists y, y ∈ event_rows q d' /\ shown event_key (fun x : string * EventRow => c_proto x.2) y = shown event_key (fun x : string * EventRow => c_proto x.2) x.
Proof using Hkept.
  intros Hq. destruct x as [id r]. unfold event_rows. rewrite list_elem_of_filter, elem_of_map_to_list. intros [Hs Hr].
  specialize (Hkept id). rewrite Hr in Hkept. destruct (events d' !! id) as [r'|] eqn:Hr'; [|done]. destruct Hkept as [Hl Hc].
  unfold Query.selected in Hs. cbn [fst snd] in Hs. rewrite !andb_true_iff, Hq in Hs. destruct Hs as ((((Hp & Hst) & Hla) & Hsv) & Hsi).
  destruct (Hc (proj2 (covers_in _) Hla)) as (A1 & A2 & A3 & A4 & A5).
  exists (id, r'). rewrite list_elem_of_filter, elem_of_map_to_list. unfold shown, event_key. cbn [fst snd]. rewrite A1, A3, A4.
  split; [|done]. split; [|done]. unfold Query.selected. cbn [fst snd]. rewrite A1, A2, A3, Hl, Hq, !andb_true_iff. split_and!; try done.
  unfold Query.at_place in *. rewrite orb_true_iff, !bool_decide_eq_true in *. rewrite A5. exact Hp.
Qed.
End Rows.

Lemma event_rows_ext layers d d' q :
  kept (covers layers) d d' -> Query.q_Layers q = layers ->
  shown event_key (fun x : string * EventRow => c_proto x.2) <$> event_rows q d ≡ₚ shown event_key (fun x : string * EventRow => c_proto x.2) <$> event_rows q d'.
Proof.
  intros Hk Hq.
  assert (Hnd : forall d, NoDup (shown event_key (fun x : string * EventRow => c_proto x.2) <$> event_rows q d)).
  { intros d0. apply (NoDup_fmap_1 fst). rewrite <-list_fmap_compose. apply Query.event_rows_keyed. }
  apply NoDup_Permutation; [apply Hnd..|]. intros p. rewrite !list_elem_of_fmap. split; intros (x & -> & Hx).
  - destruct (kept_pair layers d d' Hk q x Hq Hx) as (y & Hy & He). by exists y.
  - destruct (kept_pair layers d' d (kept_sym _ _ _ Hk) q x Hq Hx) as (y & Hy & He). by exists y.
Qed.

(** ** The world between two requests *)

(** A write of the store or of the mesh tables, with the faults it meets. *)
Inductive write := OnStore (o : op) | OnTick (obs : list Mesh.MeshObservation) (act : list Mesh.MeshActivity).

Section World.
Context {MK : MathKernel} {JK : JsonKernel}.
Variable marshal : Event -> option string.
Variable digest : string -> string.
Variable wildfireBuffer : float64.
Hypothesis collision_free : forall e1 e2, ContentHash marshal digest e1 = ContentHash marshal digest e2 -> normalize e1 = normalize e2.

Definition perform (o : write) : SM unit :=
  match o with
  | OnStore o => onStore (run_op marshal digest wildfireBuffer o)
  | OnTick obs act => onMesh (Mesh.RecordMeshTick obs act)
  end.
Definition advance (s : St) (x : write * list bool) : St := (perform x.1 (Tx.mkSt (Tx.db s) (Tx.mem s) x.2)).2.
Definition later (l : list (write * list bool)) (s : St) : St := foldl advance s l.

(** The same state, with the faults its next statements meet, and with a store
    that answers. *)
Definition under (faults : list bool) (s : St) : St := Tx.mkSt (Tx.db s) (Tx.mem s) faults.
Definition answering (s : St) : St := under [] s.

Definition view_of (s : St) : DB * gmap Layer Z := ((Tx.db s).1, refreshVersions (m_store (Tx.mem s))).

Lemma later_moves l s : rtc (moves marshal digest) (view_of s) (view_of (later l s)).
Proof.
  revert s. induction l as [|[o faults] l IH]; intros s; [done|]. etrans; [|apply IH]. clear IH.
  unfold advance. cbn [fst snd]. destruct o as [o|obs act]; cbn [perform].
  - unfold onStore, Tx.zoom. cbn [Tx.db Tx.mem Tx.plan].
    pose proof (run_op_moves marshal digest wildfireBuffer o
      (Tx.mkSt (Tx.lget Tx.fst_lens (Tx.db s)) (Tx.lget Scheduler.store_mem (Tx.mem s)) faults)) as Hm.
    destruct (run_op _ _ _ _ _) as [r s1]. exact Hm.
  - unfold onMesh, Tx.zoom. cbn [Tx.db Tx.mem Tx.plan]. by destruct (Mesh.RecordMeshTick _ _ _) as [r s1].
Qed.

Lemma later_ok l s :
  StoreSpec.DbOk marshal digest (Tx.db s).1 -> small (Tx.db (later l s)).1 -> StoreSpec.DbOk marshal digest (Tx.db (later l s)).1.
Proof using collision_free. apply (moves_ok _ _ collision_free _ _ (later_moves l s)). Qed.

(** The activity's version counts its writes. *)
Lemma tick_version obs act s r s' :
  Mesh.RecordMeshTick obs act s = (r, s') ->
  Tx.mem s <= Tx.mem s' /\ (Tx.mem s' = Tx.mem s -> mesh_activity (Tx.db s') = mesh_activity (Tx.db s)).
Proof.
  assert (Hk : forall (I : MeshDB -> Z -> Prop), (forall d c d' c', I d c -> I d' c' -> I d c') -> (forall d c x, I d c -> I (Mesh.set_observations x d) c) ->
      (act = [] \/ forall d c x, I d c -> I (Mesh.set_activity x d) c) ->
      Tx.keeps (Tx.inTx (Tx.bind (Mesh.insertMeshObservations obs) (fun _ => Mesh.upsertMeshActivity act))) I).
  { intros I Hroll Ho Ha. apply Tx.keeps_inTx; [exact Hroll|]. unfold Mesh.insertMeshObservations, Mesh.upsertMeshActivity, Mesh.prepare.
    apply Tx.keeps_bind; [|intros _].
    - apply Tx.keeps_bind; [destruct (Nat.eqb _ _); [eauto with grid|by apply Tx.keeps_exec]|]. intros _.
      apply Tx.keeps_foreach. intros o. apply Tx.keeps_exec. intros d c. apply Ho.
    - destruct Ha as [->|Ha]; [apply Tx.keeps_bind; [apply Tx.keeps_ret|intros _; apply Tx.keeps_ret]|].
      apply Tx.keeps_bind; [destruct (Nat.eqb _ _); [eauto with grid|by apply Tx.keeps_exec]|]. intros _.
      apply Tx.keeps_foreach. intros a. destruct (bool_decide _); [eauto with grid|]. apply Tx.keeps_exec. intros d c. apply Ha. }
  unfold Mesh.RecordMeshTick. destruct (_ && _); [intros [= <- <-]; split; [lia|done]|].
  unfold Tx.bind at 1. destruct (Tx.inTx _ s) as [r1 s1] eqn:E.
  assert (Hm : Tx.mem s1 = Tx.mem s) by (eapply (Hk (fun _ c => c = Tx.mem s)); [done|done|by right|done|exact E]).
  destruct r1 as [e|[]].
  - intros [= <- <-]. rewrite Hm. split; [lia|]. intros _. by apply Tx.inTx_err in E as ->.
  - destruct act as [|a act]; cbn [length Nat.eqb].
    + intros [= <- <-]. rewrite Hm. split; [lia|]. intros _.
      by eapply (Hk (fun d _ => mesh_activity d = mesh_activity (Tx.db s))); [done|done|by left|done|exact E].
    + intros [= <- <-]. cbn. rewrite Hm. lia.
Qed.

Lemma later_activity l s :
  m_mesh (Tx.mem s) <= m_mesh (Tx.mem (later l s))
  /\ (m_mesh (Tx.mem (later l s)) = m_mesh (Tx.mem s) -> mesh_activity (Tx.db (later l s)).2 = mesh_activity (Tx.db s).2).
Proof.
  revert s. induction l as [|[o faults] l IH]; intros s; [split; [cbn; lia|done]|]. cbn [later foldl].
  change (foldl advance (advance s (o, faults)) l) with (later l (advance s (o, faults))). destruct (IH (advance s (o, faults))) as [H1 H2]. clear IH.
  assert (Ha : m_mesh (Tx.mem s) <= m_mesh (Tx.mem (advance s (o, faults)))
    /\ (m_mesh (Tx.mem (advance s (o, faults))) = m_mesh (Tx.mem s) ->
        mesh_activity (Tx.db (advance s (o, faults))).2 = mesh_activity (Tx.db s).2)).
  { unfold advance. cbn [fst snd]. destruct o as [o|obs act]; cbn [perform].
    - unfold onStore, Tx.zoom. cbn [Tx.db Tx.mem Tx.plan]. destruct (run_op _ _ _ _ _) as [r s1]. cbn. split; [lia|done].
    - unfold onMesh, Tx.zoom. cbn [Tx.db Tx.mem Tx.plan]. destruct (Mesh.RecordMeshTick obs act _) as [r s1] eqn:E.
      apply tick_version in E. exact E. }
  destruct Ha as [H3 H4]. split; [lia|]. intros He. rewrite H2, H4; [done|lia..].
Qed.

End World.

(** ** Reads of a store that answers *)

Lemma onStore_query {A} (f : DB -> A) (s : St) : Tx.plan s = [] -> onStore (Tx.query f) s = (inr (f (Tx.db s).1), s).
Proof. intros Hp. unfold onStore, Tx.zoom. rewrite Tx.query_noFaults by exact Hp. by destruct s as [[] [] ?]. Qed.

Lemma onMesh_same {A} (m : Mesh.M A) (s : St) r :
  (forall t : Tx.St MeshDB Z, Tx.db t = (Tx.db s).2 -> Tx.plan t = [] -> m t = (r, t)) -> Tx.plan s = [] -> onMesh m s = (r, s).
Proof. intros Hm Hp. unfold onMesh, Tx.zoom. rewrite Hm by done. by destruct s as [[] [] ?]. Qed.

(** What the activity read returns. *)
Fixpoint activity_in (bs : list (list string)) (out : gmap string Mesh.MeshActivity) (t : gmap string (Z * Z)) : gmap string Mesh.MeshActivity :=
  match bs with
  | [] => out
  | b :: bs => activity_in bs (map_imap (fun pk v => Some (Mesh.activity_of (pk, v))) (filter (fun x : string * (Z * Z) => x.1 ∈ b) t) ∪ out) t
  end.

Lemma read_chunks_answers bs out (t : Tx.St MeshDB Z) :
  Tx.plan t = [] -> Mesh.read_chunks bs out t = (inr (activity_in bs out (mesh_activity (Tx.db t))), t).
Proof.
  intros Hp. revert out. induction bs as [|b bs IH]; intros out; [done|]. cbn [Mesh.read_chunks activity_in].
  unfold Tx.bind. rewrite Tx.query_noFaults by exact Hp. apply IH.
Qed.

Definition activity_for (keys : list string) (t : gmap string (Z * Z)) : gmap string Mesh.MeshActivity :=
  let keys := remove_dups (filter (fun pk => pk <> "") (Mesh.ToLower <$> keys)) in
  activity_in (Mesh.chunks_of Mesh.meshActivityReadChunk (length keys) keys) ∅ t.

Lemma activity_answers keys (s : St) :
  Tx.plan s = [] -> onMesh (Mesh.MeshActivityFor keys) s = (inr (activity_for keys (mesh_activity (Tx.db s).2)), s).
Proof. intros Hp. apply onMesh_same; [|done]. intros t Ht Htp. unfold Mesh.MeshActivityFor. rewrite read_chunks_answers, Ht by done. done. Qed.

(** ** Reads that meet faults *)

(** What a read returns when it returns, it returns of a store that answers. *)
Definition steady {D C E A} (m : Tx.St D C -> (E + A) * Tx.St D C) : Prop := forall s a s',
  m s = (inr a, s') ->
  Tx.db s' = Tx.db s /\ Tx.mem s' = Tx.mem s /\ Tx.plan s' `suffix_of` Tx.plan s
  /\ m (Tx.mkSt (Tx.db s) (Tx.mem s) []) = (inr a, Tx.mkSt (Tx.db s) (Tx.mem s) []).

Lemma steady_query {D C A} (f : D -> A) : steady (Tx.query (C := C) f).
Proof.
  intros [d c plan] a s' Hq. pose proof (Tx.query_inr _ _ _ _ Hq) as (-> & Hd & Hm). split_and!; [done..| |exact (Tx.query_noFaults f (Tx.mkSt d c []) eq_refl)].
  revert Hq. unfold Tx.query, Tx.bind, Tx.stmt. cbn. destruct plan as [|[] plan]; intros [= <-]; [done|]. by exists [false].
Qed.
Lemma steady_ret {D C A} (a : A) : steady (Tx.ret (D := D) (C := C) a).
Proof. by intros s x s' [= <- <-]. Qed.
Lemma steady_fail {D C A} e : steady (Tx.fail (D := D) (C := C) (A := A) e).
Proof. done. Qed.
Lemma steady_get_mem {D C} : steady (Tx.get_mem (D := D) (C := C)).
Proof. by intros s x s' [= <- <-]. Qed.
Lemma steady_bind {D C A B} (m : Tx.M D C A) (f : A -> Tx.M D C B) : steady m -> (forall a, steady (f a)) -> steady (Tx.bind m f).
Proof.
  intros Hm Hf s b s' (a & s1 & H1 & H2)%Tx.bind_inr. apply Hm in H1 as (Hd & Hc & Hp & Hr). apply Hf in H2 as (Hd2 & Hc2 & Hp2 & Hr2).
  split_and!; [congruence..|by etrans|]. unfold Tx.bind. rewrite Hr. by rewrite Hd, Hc in Hr2.
Qed.
Lemma steady_onStore {A} (m : Store.M A) : steady m -> steady (onStore m).
Proof.
  intros Hm [[d d2] c plan] a s'. unfold onStore, Tx.zoom. cbn [Tx.db Tx.mem Tx.plan Tx.lget Tx.fst_lens fst].
  destruct (m _) as [r [d1 c1 plan1]] eqn:E. intros [= -> <-]. apply Hm in E as (Hd & Hc & Hp & Hr). cbn in *. subst d1 c1.
  rewrite Hr. by destruct c.
Qed.
Lemma steady_onMesh {A} (m : Mesh.M A) : steady m -> steady (onMesh m).
Proof.
  intros Hm [[d d2] c plan] a s'. unfold onMesh, Tx.zoom. cbn [Tx.db Tx.mem Tx.plan Tx.lget Tx.snd_lens snd].
  destruct (m _) as [r [d1 c1 plan1]] eqn:E. intros [= -> <-]. apply Hm in E as (Hd & Hc & Hp & Hr). cbn in *. subst d1 c1.
  rewrite Hr. by destruct c.
Qed.
Lemma steady_hret {A} (a : A) : steady (hret a).
Proof. by intros s x s' [= <- <-]. Qed.
Lemma steady_need {A} (o : option A) : steady (need o).
Proof. destruct o; [apply steady_hret|done]. Qed.
Lemma steady_hbind {A B} (m : H A) (f : A -> H B) : steady m -> (forall a, steady (f a)) -> steady (hbind m f).
Proof.
  intros Hm Hf s b s'. unfold hbind. destruct (m s) as [[x|a] s1] eqn:E; [done|]. intros H2.
  apply Hm in E as (Hd & Hc & Hp & Hr). apply Hf in H2 as (Hd2 & Hc2 & Hp2 & Hr2).
  split_and!; [congruence..|by etrans|]. rewrite Hr. by rewrite Hd, Hc in Hr2.
Qed.
Lemma steady_lift {A} onerr (m : SM A) : steady m -> steady (lift onerr m).
Proof. intros Hm s a s'. unfold lift. destruct (m s) as [[e|b] s1] eqn:E; [done|]. intros [= -> ->]. by apply Hm in E as (-> & -> & ? & ->). Qed.

#[local] Hint Resolve steady_query steady_ret steady_fail steady_get_mem steady_bind steady_onStore steady_onMesh steady_hret steady_need
  steady_hbind steady_lift : steady.

Lemma steady_resolve key : steady (resolvePlaceID key).
Proof.
  unfold resolvePlaceID. destruct (String.eqb key ""); [apply steady_hret|]. apply steady_hbind; [|auto with steady].
  apply steady_lift, steady_onStore, steady_bind; [auto with steady|]. intros []; auto with steady.
Qed.
Lemma steady_chunks bs out : steady (Mesh.read_chunks bs out).
Proof. revert out. induction bs as [|b bs IH]; intros out; cbn [Mesh.read_chunks]; auto with steady. Qed.
Lemma steady_events `{TokenCodec eventCursor} q : steady (Query.QueryEvents q).
Proof. unfold Query.QueryEvents. destruct (Query.cursor_of _); auto with steady. Qed.

(** A read of the activity fails only of a fault. *)
Lemma chunks_fault bs out (s : Tx.St MeshDB Z) e s' : Mesh.read_chunks bs out s = (inl e, s') -> true ∈ Tx.plan s.
Proof.
  revert out s. induction bs as [|b bs IH]; intros out s; [done|]. cbn [Mesh.read_chunks]. unfold Tx.bind at 1.
  unfold Tx.query, Tx.bind, Tx.stmt. destruct (Tx.plan s) as [|[] plan] eqn:E; cbn; [|intros _; by left|].
  - intros Hr. apply IH in Hr. by rewrite E in Hr.
  - intros Hr. apply IH in Hr. by right.
Qed.

(** *** The event list *)

Section Bodies.
Context `{TokenCodec eventCursor} `{TokenCodec historyCursor}.

Lemma overlay_answers evs (s s' : St) :
  Tx.plan s = [] -> Tx.plan s' = [] ->
  (filter (fun k => k <> "") (meshActivityKey <$> evs) = [] \/ mesh_activity (Tx.db s').2 = mesh_activity (Tx.db s).2) ->
  exists evs', overlayMeshActivity evs s = (inr evs', s) /\ overlayMeshActivity evs s' = (inr evs', s').
Proof.
  intros Hp Hp' Hk. unfold overlayMeshActivity. destruct (filter _ _) as [|k ks]; [by exists evs|]. destruct Hk as [?|Hk]; [done|].
  rewrite !activity_answers by done. rewrite Hk. by eexists.
Qed.

(** No key is read of events that are not of the mesh. *)
Lemma no_mesh_keys evs : (forall ev, ev ∈ evs -> layer ev <> MESH) -> filter (fun k => k <> "") (meshActivityKey <$> evs) = [].
Proof.
  intros Hn. induction evs as [|ev evs IH]; [done|]. rewrite fmap_cons, filter_cons.
  assert (meshActivityKey ev = "") as -> by (unfold meshActivityKey; by rewrite bool_decide_false by (apply Hn; left)).
  rewrite decide_False by (intros Hd; by apply Hd). apply IH. intros x Hx. apply Hn. by right.
Qed.

Lemma strip_layer keep evs ev : ev ∈ stripEventsIO keep evs -> exists ev', ev' ∈ evs /\ layer ev' = layer ev.
Proof.
  unfold stripEventsIO. destruct keep; [by exists ev|]. intros (ev' & -> & Hin)%list_elem_of_fmap. by exists ev'.
Qed.

Lemma events_body_ext marshal digest req q (s s' : St) :
  Tx.plan s = [] -> Tx.plan s' = [] -> StoreSpec.DbOk marshal digest (Tx.db s).1 -> kept (covers (Query.q_Layers q)) (Tx.db s).1 (Tx.db s').1 ->
  (layersIncludeMesh (Query.q_Layers q) = true -> mesh_activity (Tx.db s').2 = mesh_activity (Tx.db s).2) ->
  (events_body req q s).1 = (events_body req q s').1.
Proof.
  intros Hp Hp' Hok Hk Hm. unfold events_body, hbind, lift, Query.QueryEvents.
  destruct (Query.cursor_of (Query.q_PageToken q)) as [cur|]; [|done].
  rewrite !onStore_query by done.
  destruct Query.event_before_order as (Hirr & Htr & Htot).
  set (n := Z.to_nat _). set (out := fun x : string * EventRow => c_proto x.2).
  destruct (page_ext event_key event_before out Hirr Htr Htot n cur (event_rows q (Tx.db s).1) (event_rows q (Tx.db s').1)
    (Query.event_rows_keyed _ _) (Query.event_rows_keyed _ _) (event_rows_ext _ _ _ q Hk eq_refl)) as [Hl1 Hn1].
  pose proof (Query.page_spec event_key event_before n cur (event_rows q (Tx.db s).1) (Query.clampPageSize_pos _)) as Hpage.
  destruct (Query.page event_key event_before n cur (event_rows q (Tx.db s).1)) as [l next] eqn:E1.
  destruct (Query.page event_key event_before n cur (event_rows q (Tx.db s').1)) as [l' next'] eqn:E2. cbn [fst snd] in *. rewrite <-Hl1, <-Hn1.
  destruct (overlay_answers (stripEventsIO (le_enhancement_io req) (out <$> l)) s s' Hp Hp') as (evs & -> & ->); [|done].
  destruct (layersIncludeMesh (Query.q_Layers q)) eqn:Em; [right; auto|left]. apply no_mesh_keys. intros ev Hev.
  apply strip_layer in Hev as (ev' & Hin & <-). apply list_elem_of_fmap in Hin as ([id row] & -> & Hin). intros Hl.
  assert (Hsel : (id, row) ∈ event_rows q (Tx.db s).1).
  { assert (Hafter : (id, row) ∈ Query.after event_key event_before cur (event_rows q (Tx.db s).1)); [|by apply Query.elem_of_after in Hafter as [? _]].
    destruct next; [destruct Hpage as (rest & -> & _)|destruct Hpage as (rest & -> & _)]; apply elem_of_app; by left. }
  unfold event_rows in Hsel. apply list_elem_of_filter in Hsel as [Hs Hr%elem_of_map_to_list]. unfold Query.selected in Hs. cbn [fst snd] in Hs.
  rewrite !andb_true_iff in Hs. destruct Hs as ((((_ & _) & Hla) & _) & _).
  rewrite (row_layer _ _ _ _ _ (ok_row _ _ _ Hok _ _ Hr)) in Hla. unfold out in Hl. cbn [snd] in Hl. rewrite Hl in Hla.
  unfold layersIncludeMesh in Em. unfold Query.in_layers in Hla. by rewrite Em in Hla.
Qed.

(** The body without the overlay of the mesh clocks. *)
Definition bare_body (req : ListEventsRequest) (q : Query.EventQuery) : H EventList :=
  r <~ lift tokenOrInternal (onStore (Query.QueryEvents q)) ;;
  hret (mkEventList (stripEventsIO (le_enhancement_io req) r.1) r.2).

(** A body is the full one, or, when a read failed, the one without the clocks. *)
Lemma body_under_faults req q f (s : St) body :
  (events_body req q (under f s)).1 = inr body ->
  exists full, (events_body req q (answering s)).1 = inr full
    /\ (body = full \/ true ∈ f /\ (bare_body req q (answering s)).1 = inr body).
Proof.
  unfold events_body, bare_body, hbind, lift. destruct (onStore (Query.QueryEvents q) (under f s)) as [[e|r] s'] eqn:E; [done|].
  apply (steady_onStore _ (steady_events q)) in E as (Hd & Hm & Hp & Hr). cbn [under Tx.db Tx.mem Tx.plan] in Hd, Hm, Hp, Hr.
  change (Tx.mkSt (Tx.db s) (Tx.mem s) []) with (answering s) in Hr. rewrite Hr. clear Hr.
  unfold overlayMeshActivity. destruct (filter _ _) as [|k ks]; [intros [= <-]; by eexists; split; [|left]|].
  rewrite (activity_answers (k :: ks) (answering s)) by done. cbn [hret fst]. intros Hb. eexists. split; [reflexivity|]. revert Hb.
  destruct (onMesh _ s') as [[e|act] s''] eqn:E; intros [= <-].
  - right. split; [|done]. revert E. unfold onMesh, Tx.zoom. destruct (Mesh.MeshActivityFor _ _) as [r1 s1] eqn:E. intros [= -> _].
    apply chunks_fault in E. cbn in E. destruct Hp as [k0 ->]. apply elem_of_app. by right.
  - left. apply (steady_onMesh _ (steady_chunks _ _)) in E as (_ & _ & _ & Hr). rewrite Hd, Hm in Hr.
    change (Tx.mkSt (Tx.db s) (Tx.mem s) []) with (answering s) in Hr.
    assert (Ha := activity_answers (k :: ks) (answering s) eq_refl). unfold Mesh.MeshActivityFor in Ha. cbn zeta in Ha, Hr.
    rewrite Ha in Hr. injection Hr as <-. done.
Qed.

Lemma bare_body_ext req q (s s' : St) :
  kept (covers (Query.q_Layers q)) (Tx.db s).1 (Tx.db s').1 -> (bare_body req q (answering s)).1 = (bare_body req q (answering s')).1.
Proof.
  intros Hk. unfold bare_body, hbind, lift, Query.QueryEvents. destruct (Query.cursor_of (Query.q_PageToken q)) as [cur|]; [|done].
  rewrite !onStore_query by done. destruct Query.event_before_order as (Hirr & Htr & Htot).
  set (n := Z.to_nat _). set (out := fun x : string * EventRow => c_proto x.2).
  destruct (page_ext event_key event_before out Hirr Htr Htot n cur (event_rows q (Tx.db s).1) (event_rows q (Tx.db s').1)
    (Query.event_rows_keyed _ _) (Query.event_rows_keyed _ _) (event_rows_ext _ _ _ q Hk eq_refl)) as [Hl Hn].
  cbn [answering under Tx.db] in *.
  destruct (Query.page event_key event_before n cur (event_rows q (Tx.db s).1)) as [l next].
  destruct (Query.page event_key event_before n cur (event_rows q (Tx.db s').1)) as [l' next']. cbn [fst snd hret] in *. by rewrite Hl, Hn.
Qed.

End Bodies.

(** ** Tags *)

Lemma pretty_chars (z : Z) : all_bytes (fun n => is_digit n || N.eqb n 45) (pretty z) = true.
Proof.
  assert (Hd : forall n, 0 <= n -> all_bytes (fun n => is_digit n || N.eqb n 45) (pretty n) = true).
  { intros n Hn. pose proof (proj1 (Feeds.pretty_digits n Hn)) as Hp. revert Hp. unfold all_bytes. rewrite !forallb_forall.
    intros Hp c Hc. by rewrite Hp. }
  destruct z as [|p|p]; [by apply Hd|by apply Hd|]. change (pretty (Z.neg p)) with ("-" +:+ pretty (Z.pos p)).
  specialize (Hd (Z.pos p) ltac:(lia)). unfold all_bytes in *. exact Hd.
Qed.

(** Two numbers before a separator. *)
Lemma pretty_sep (a b : Z) c x y :
  is_digit (code c) = false -> code c <> 45%N ->
  pretty a +:+ String c x = pretty b +:+ String c y -> a = b /\ x = y.
Proof.
  intros Hc Hd He.
  assert (Hsep : forall s t, all_bytes (fun n => is_digit n || N.eqb n 45) s = true ->
    all_bytes (fun n => is_digit n || N.eqb n 45) t = true -> s +:+ String c x = t +:+ String c y -> s = t /\ x = y).
  { assert (Hn : forall s, all_bytes (fun n => is_digit n || N.eqb n 45) (String c s) = false).
    { intros s. unfold all_bytes. cbn. rewrite Hc. destruct (N.eqb_spec (code c) 45) as [Hx|]; [|done].
      by destruct Hd. }
    induction s as [|a' s IH]; intros [|b' t] Hs Ht; cbn; intros [=]; subst; [done|by rewrite Hn in Ht|by rewrite Hn in Hs|].
    unfold all_bytes in Hs, Ht. cbn in Hs, Ht. apply andb_true_iff in Hs as [_ Hs], Ht as [_ Ht].
    destruct (IH t Hs Ht) as [-> ->]; [assumption|done]. }
  destruct (Hsep _ _ (pretty_chars a) (pretty_chars b) He) as [Hab ->]. split; [by apply (inj pretty)|done].
Qed.

Lemma string_app_assoc (x y z : string) : x +:+ (y +:+ z) = (x +:+ y) +:+ z.
Proof. induction x as [|c x IH]; [done|]. change (String c (x +:+ (y +:+ z)) = String c ((x +:+ y) +:+ z)). by rewrite IH. Qed.

Lemma app_cancel_l s x y : s +:+ x = s +:+ y -> x = y.
Proof. induction s as [|c s IH]; cbn; [done|]. intros [=]. auto. Qed.

Lemma app_cancel_r s x y : x +:+ s = y +:+ s -> x = y.
Proof.
  intros He. apply (f_equal bytes) in He. rewrite !bytes_app in He. apply app_inv_tail in He.
  apply (f_equal of_bytes) in He. by rewrite !of_bytes_bytes in He.
Qed.

(** *** A handler that is told apart from 304 only by its guard *)

Definition plain {A} (m : H A) : Prop := forall s, (m s).1 <> inl NotModified.

Lemma plain_bind {A B} (m : H A) (f : A -> H B) : plain m -> (forall a, plain (f a)) -> plain (hbind m f).
Proof. intros Hm Hf s. unfold hbind. specialize (Hm s). destruct (m s) as [[x|a] s1]; [cbn in *; congruence|apply Hf]. Qed.
Lemma plain_ret {A} (a : A) : plain (hret a).
Proof. by intros s. Qed.
Lemma plain_lift {A} onerr (m : SM A) : (forall e, onerr e <> NotModified) -> plain (lift onerr m).
Proof. intros Ho s. unfold lift. destruct (m s) as [[e|a] s1]; cbn; [|done]. intros [=]. by eapply Ho. Qed.
Lemma plain_need {A} (o : option A) : plain (need o).
Proof. by destruct o. Qed.
Lemma internal_status e : internalErr e <> NotModified.
Proof. done. Qed.
Lemma notFound_status e : notFoundOr e <> NotModified.
Proof. unfold notFoundOr. by destruct (bool_decide _). Qed.
Lemma token_status e : tokenOrInternal e <> NotModified.
Proof. unfold tokenOrInternal. by destruct (isBadToken e). Qed.

Lemma conditional_304 `{Etag} {T A} (prepare : H (string * T)) (body : T -> H A) inm s :
  plain prepare -> (forall t, plain (body t)) -> (conditional prepare body inm s).1 = inl NotModified ->
  exists tag t s', prepare s = (inr (tag, t), s') /\ Guard inm tag = true.
Proof.
  intros Hp Hb. unfold conditional, hbind at 1. specialize (Hp s). destruct (prepare s) as [[x|[tag t]] s1]; cbn [fst] in *; [congruence|].
  unfold hbind at 1, guard. cbn [fst]. destruct (Guard inm tag) eqn:Hg; [intros _; by exists tag, t, s1|]. cbn [hret].
  intros Hx. exfalso. revert Hx. apply (plain_bind _ _ (Hb t)). intros b. apply plain_ret.
Qed.

Lemma conditional_200 `{Etag} {T A} (prepare : H (string * T)) (body : T -> H A) inm s tag t b s1 :
  prepare s = (inr (tag, t), s1) -> Guard inm tag = false -> (body t s1).1 = inr b ->
  (conditional prepare body inm s).1 = inr (mkAnswer tag b).
Proof.
  intros Hp Hg Hb. unfold conditional, hbind, guard. rewrite Hp. cbn [fst snd]. rewrite Hg. cbn [hret].
  destruct (body t s1) as [[x|b'] s2]; cbn in *; congruence.
Qed.

(** ** The event list and the archive *)

(** The id a place parameter stands for. *)
Definition place_of (key : string) (d : DB) : option string := if String.eqb key "" then Some "" else p_id <$> find_place d key.

Section Lists.
Context {MK : MathKernel} {JK : JsonKernel} {UU : UnicodeUpper} {TP : TimeParse} {ET : Etag} `{TokenCodec eventCursor} `{TokenCodec historyCursor}.
Variable marshal : Event -> option string.
Variable digest : string -> string.
Variable wildfireBuffer : float64.
Hypothesis collision_free : forall e1 e2, ContentHash marshal digest e1 = ContentHash marshal digest e2 -> normalize e1 = normalize e2.
Variable nonce : string.
Abbreviation later := (later marshal digest wildfireBuffer).

Lemma resolve_answers key (s : St) :
  Tx.plan s = [] -> resolvePlaceID key s = (match place_of key (Tx.db s).1 with Some id => inr id | None => inl (Status Summary.NotFound) end, s).
Proof.
  intros Hp. unfold resolvePlaceID, place_of. destruct (String.eqb key ""); [done|].
  unfold hbind, lift, Places.GetPlace.
  assert (Hg : onStore (Tx.bind (Tx.query (fun d => find_place d key)) (fun p => match p with None => Tx.fail ErrNotFound | Some p => Tx.ret p end)) s
    = (match find_place (Tx.db s).1 key with Some p => inr p | None => inl ErrNotFound end, s)).
  { unfold onStore, Tx.zoom, Tx.bind. rewrite Tx.query_noFaults by exact Hp. cbn [Tx.db Tx.lget Tx.fst_lens].
    destruct (find_place _ key); by destruct s as [[] [] ?]. }
  rewrite Hg. by destruct (find_place (Tx.db s).1 key).
Qed.

Definition parse_list (req : ListEventsRequest) (placeID : string) : option Query.EventQuery :=
  layers ← parseLayers (le_layer req); statuses ← parseStatuses (le_status req); min ← parse_min (le_severity_min req);
  since ← parse_time (le_since req); n ← parsePageSize (le_page_size req);
  Some (Query.mkEventQuery placeID layers statuses min since n (le_page_token req)).

Definition list_version (q : Query.EventQuery) (s : St) : string :=
  nonce +:+ "." +:+ pretty (Z.of_nat (length (event_revisions (Tx.db s).1))) +:+ ".r"
  +:+ pretty (refresh_sum (refreshVersions (m_store (Tx.mem s))) (Query.q_Layers q))
  +:+ (if layersIncludeMesh (Query.q_Layers q) then ".m" +:+ pretty (m_mesh (Tx.mem s)) else "").
Definition list_parts (req : ListEventsRequest) : list string :=
  [le_place req; join "," (le_layer req); join "," (le_status req); le_severity_min req; le_since req; pretty (le_page_size req);
   le_page_token req; FormatBool (le_enhancement_io req)].

Lemma list_prepare_answers req (s : St) tag q s' :
  Tx.plan s = [] -> list_prepare nonce req s = (inr (tag, q), s') ->
  s' = s /\ (exists id, place_of (le_place req) (Tx.db s).1 = Some id /\ parse_list req id = Some q)
  /\ tag = weakListTag (list_version q s) (list_parts req).
Proof.
  intros Hp. unfold list_prepare, events_query, hbind at 1. unfold hbind at 1. rewrite resolve_answers by done.
  destruct (place_of (le_place req) (Tx.db s).1) as [id|]; [|done].
  unfold hbind, need, parse_list. destruct (parseLayers _) as [layers|]; [|done]. destruct (parseStatuses _) as [sts|]; [|done].
  destruct (parse_min _) as [mn|]; [|done]. destruct (parse_time _) as [since|]; [|done]. destruct (parsePageSize _) as [n|]; [|done].
  cbn [hret]. unfold events_tag, hbind, lift. unfold DataVersion. rewrite onStore_query by done.
  unfold onStore at 1, RefreshVersion, Tx.zoom at 1, Tx.bind at 1. cbn [Tx.get_mem Tx.ret].
  intros [= <- <- <-]. split; [by destruct s as [[] [] ?]|]. split; [by exists id|reflexivity].
Qed.

Lemma list_version_inj q (s s' : St) :
  list_version q s' = list_version q s ->
  length (event_revisions (Tx.db s').1) = length (event_revisions (Tx.db s).1)
  /\ refresh_sum (refreshVersions (m_store (Tx.mem s'))) (Query.q_Layers q) = refresh_sum (refreshVersions (m_store (Tx.mem s))) (Query.q_Layers q)
  /\ (layersIncludeMesh (Query.q_Layers q) = true -> m_mesh (Tx.mem s') = m_mesh (Tx.mem s)).
Proof.
  unfold list_version. intros Hv%app_cancel_l. cbn in Hv. injection Hv as Hv.
  apply pretty_sep in Hv as [Hlen Hv]; [|done|done]. apply Nat2Z.inj in Hlen. split; [done|]. cbn in Hv. injection Hv as Hv.
  destruct (layersIncludeMesh _).
  - cbn in Hv. apply pretty_sep in Hv as [Hr Hv]; [|done|done]. cbn in Hv. injection Hv as Hv. apply (inj pretty) in Hv. by split.
  - apply app_cancel_r, (inj pretty) in Hv. by split.
Qed.

Lemma weakListTag_inj v v' parts : weakListTag v parts = weakListTag v' parts -> v = v'.
Proof. unfold weakListTag. intros Hw%Weak_inj. by apply app_cancel_r in Hw. Qed.

Lemma later_app l1 l2 s : later (l1 ++ l2) s = later l2 (later l1 s).
Proof. unfold ReadApiSpec.later. by rewrite foldl_app. Qed.

(** Between two states of equal version everything was equal. *)
Lemma version_between q s l1 l2 :
  let s1 := later l1 s in let s2 := later l2 s1 in
  StoreSpec.DbOk marshal digest (Tx.db s).1 -> small (Tx.db s2).1 -> list_version q s2 = list_version q s ->
  StoreSpec.DbOk marshal digest (Tx.db s1).1 /\ kept (covers (Query.q_Layers q)) (Tx.db s1).1 (Tx.db s2).1
  /\ (layersIncludeMesh (Query.q_Layers q) = true -> mesh_activity (Tx.db s2).2 = mesh_activity (Tx.db s1).2).
Proof using collision_free.
  cbn zeta. set (s1 := later l1 s). set (s2 := later l2 s1). intros Hok Hs Hv. apply list_version_inj in Hv as (Hlen & Hr & Hm).
  pose proof (later_moves marshal digest wildfireBuffer l1 s) as M1. pose proof (later_moves marshal digest wildfireBuffer l2 s1) as M2.
  pose proof (moves_length _ _ _ _ M1) as L1. pose proof (moves_length _ _ _ _ M2) as L2.
  pose proof (moves_sum_mono _ _ _ _ (Query.q_Layers q) M1) as R1. pose proof (moves_sum_mono _ _ _ _ (Query.q_Layers q) M2) as R2.
  destruct (later_activity marshal digest wildfireBuffer l1 s) as [A1 _]. destruct (later_activity marshal digest wildfireBuffer l2 s1) as [A2 A3].
  fold s1 in M1, A1, L1, R1. fold s2 in M2, A2, A3, L2, R2. unfold view_of in *. cbn [fst snd] in *.
  assert (Hok1 : StoreSpec.DbOk marshal digest (Tx.db s1).1).
  { eapply (moves_ok _ _ collision_free _ _ M1); [exact Hok|]. unfold small in *. cbn [fst]. lia. }
  split; [exact Hok1|]. split.
  - eapply (moves_kept _ _ collision_free _ _ _ M2); [exact Hok1|exact Hs|cbn; lia|cbn; lia].
  - intros Hl. apply A3. specialize (Hm Hl). lia.
Qed.

Lemma list_plain req : plain (list_prepare nonce req) /\ forall q, plain (events_body req q).
Proof.
  assert (Hr : forall key, plain (resolvePlaceID key)).
  { intros key. unfold resolvePlaceID. destruct (String.eqb key ""); [apply plain_ret|]. apply plain_bind; [apply plain_lift, notFound_status|].
    intros p. apply plain_ret. }
  split.
  - unfold list_prepare, events_query, events_tag. repeat (apply plain_bind; [|intros ?]); repeat (apply plain_bind; [|intros ?]);
      auto using plain_need, plain_ret, plain_lift, internal_status.
  - intros q. unfold events_body. apply plain_bind; [apply plain_lift, token_status|]. intros r. apply plain_bind; [|intros ?; apply plain_ret].
    intros s. unfold overlayMeshActivity. destruct (filter _ _); [done|]. by destruct (onMesh _ s) as [[|] ?].
Qed.

Lemma list_prepare_steady req : steady (list_prepare nonce req).
Proof.
  unfold list_prepare, events_query, events_tag, DataVersion, RefreshVersion.
  apply steady_hbind; [apply steady_hbind; [apply steady_resolve|]|]; eauto 20 with steady.
Qed.

(** C4: A conditional request for the event list is answered "not modified" only
    while the list is what it was. A client is given a validator, read at one
    moment, and a body, read after some writes, and names the validator in a
    later request, for a place that is still the same, after more writes of the
    store and the mesh tables; any statement of the writes and of the three reads
    may fail. When the request is
    answered 304, a server whose reads succeed would answer it in full under that
    validator, and with the body the client holds. The one exception is said too:
    a body whose activity read failed, which is the same list without the clocks of
    its mesh nodes. *)
Theorem list_not_stale req s l1 l2 f0 f1 f2 tag q body :
  let s1 := later l1 s in let s2 := later l2 s1 in
  StoreSpec.DbOk marshal digest (Tx.db s).1 -> small (Tx.db s2).1 ->
  place_of (le_place req) (Tx.db s2).1 = place_of (le_place req) (Tx.db s).1 ->
  (list_prepare nonce req (under f0 s)).1 = inr (tag, q) -> (events_body req q (under f1 s1)).1 = inr body ->
  (ListEvents nonce tag req (under f2 s2)).1 = inl NotModified ->
  exists full, (ListEvents nonce "" req (answering s2)).1 = inr (mkAnswer tag full)
    /\ (body = full \/ true ∈ f1 /\ (bare_body req q (answering s2)).1 = inr body).
Proof using collision_free.
  cbn zeta. set (s1 := later l1 s). set (s2 := later l2 s1). intros Hok Hs Hpl Hprep Hbody H304.
  destruct (list_plain req) as [P1 P2]. apply (conditional_304 _ _ _ _ P1 P2) in H304 as (tag2 & q2 & s2' & Hprep2 & Hg).
  destruct (list_prepare nonce req (under f0 s)) as [r s'] eqn:Hp1. cbn in Hprep. subst r.
  apply list_prepare_steady in Hp1 as (_ & _ & _ & Hp1). apply list_prepare_answers in Hp1 as (_ & (id & Hid & Hq) & Htag); [|done].
  apply list_prepare_steady in Hprep2 as (_ & _ & _ & Hprep2).
  pose proof Hprep2 as Hp2. apply list_prepare_answers in Hp2 as (_ & (id2 & Hid2 & Hq2) & Htag2); [|done].
  cbn [under Tx.db] in Hid, Hid2. assert (id2 = id) as -> by congruence. assert (q2 = q) as -> by congruence.
  subst tag tag2. unfold weakListTag in Hg. apply Guard_own, app_cancel_r in Hg.
  destruct (version_between q s l1 l2 Hok Hs (eq_sym Hg)) as (Hok1 & Hk & Hact). fold s1 s2 in Hok1, Hk, Hact.
  apply body_under_faults in Hbody as (full & Hfull & Hbody). exists full. split.
  - match goal with |- _ = inr (mkAnswer ?t _) => replace t with (weakListTag (list_version q (answering s2)) (list_parts req)) by by f_equal end.
    eapply conditional_200; [exact Hprep2|apply Guard_none|]. rewrite <-Hfull. symmetry.
    by eapply (events_body_ext marshal digest req q (answering s1) (answering s2)).
  - destruct Hbody as [->|[Hf Hb]]; [by left|right]. split; [done|]. by rewrite <-(bare_body_ext req q s1 s2 Hk).
Qed.

(** *** The archive *)

Definition parse_history (req : ListHistoryRequest) (placeID : string) : option Query.HistoryQuery :=
  layers ← parseLayers (lh_layer req); from ← parse_time (lh_from req); to ← parse_time (lh_to req); n ← parsePageSize (lh_page_size req);
  Some (Query.mkHistoryQuery placeID layers from to n (lh_page_token req)).
Definition history_version (q : Query.HistoryQuery) (s : St) : string :=
  nonce +:+ "." +:+ pretty (Z.of_nat (length (event_revisions (Tx.db s).1)))
  +:+ (if String.eqb (Query.hq_PlaceID q) "" then ""
       else ".r" +:+ pretty (refresh_sum (refreshVersions (m_store (Tx.mem s))) (Query.hq_Layers q))).
Definition history_parts (req : ListHistoryRequest) : list string :=
  [lh_place req; join "," (lh_layer req); lh_from req; lh_to req; pretty (lh_page_size req); lh_page_token req;
   FormatBool (lh_enhancement_io req)].

Lemma history_prepare_answers req (s : St) tag q s' :
  Tx.plan s = [] -> history_prepare nonce req s = (inr (tag, q), s') ->
  s' = s /\ (exists id, place_of (lh_place req) (Tx.db s).1 = Some id /\ parse_history req id = Some q)
  /\ tag = weakListTag (history_version q s) (history_parts req).
Proof.
  intros Hp. unfold history_prepare, history_query, hbind at 1. unfold hbind at 1. rewrite resolve_answers by done.
  destruct (place_of (lh_place req) (Tx.db s).1) as [id|]; [|done].
  unfold hbind, need, parse_history. destruct (parseLayers _) as [layers|]; [|done].
  destruct (parse_time (lh_from req)) as [from|]; [|done]. destruct (parse_time (lh_to req)) as [to|]; [|done].
  destruct (parsePageSize _) as [n|]; [|done].
  cbn [hret]. unfold history_tag, hbind, lift. unfold DataVersion. rewrite onStore_query by done.
  unfold onStore at 1, RefreshVersion, Tx.zoom at 1, Tx.bind at 1. cbn [Tx.get_mem Tx.ret].
  intros [= <- <- <-]. split; [by destruct s as [[] [] ?]|]. split; [by exists id|reflexivity].
Qed.

Lemma history_version_inj q (s s' : St) :
  history_version q s' = history_version q s ->
  length (event_revisions (Tx.db s').1) = length (event_revisions (Tx.db s).1)
  /\ (Query.hq_PlaceID q <> "" ->
      refresh_sum (refreshVersions (m_store (Tx.mem s'))) (Query.hq_Layers q) = refresh_sum (refreshVersions (m_store (Tx.mem s))) (Query.hq_Layers q)).
Proof.
  unfold history_version. intros Hv%app_cancel_l. cbn in Hv. injection Hv as Hv.
  destruct (String.eqb_spec (Query.hq_PlaceID q) "") as [Hn|Hn].
  - apply (app_cancel_r ""), (inj pretty), Nat2Z.inj in Hv. by split.
  - apply pretty_sep in Hv as [Hlen Hv]; [|done|done]. apply Nat2Z.inj in Hlen. split; [done|]. intros _.
    cbn in Hv. injection Hv as Hv. by apply (inj pretty) in Hv.
Qed.

Lemma history_rows_ext q d d' :
  event_revisions d' = event_revisions d -> kept (fun _ => False) d d' ->
  (Query.hq_PlaceID q <> "" -> kept (covers (Query.hq_Layers q)) d d') -> history_rows q d' = history_rows q d.
Proof.
  intros Hr Hl Hp. unfold history_rows. rewrite Hr. apply list_filter_iff. intros r.
  assert (Query.history_selected q d' r = Query.history_selected q d r) as ->; [|done]. unfold Query.history_selected.
  specialize (Hl (r_event_id r)).
  destruct (events d !! r_event_id r) as [row|] eqn:E, (events d' !! r_event_id r) as [row'|] eqn:E'; try done. destruct Hl as [Hl _].
  rewrite Hl. destruct (Query.in_layers (Query.hq_Layers q) (c_layer row)) eqn:Hin; [|by rewrite !andb_false_r].
  assert (Query.at_place d' (Query.hq_PlaceID q) (r_event_id r) = Query.at_place d (Query.hq_PlaceID q) (r_event_id r)) as ->; [|done].
  unfold Query.at_place. destruct (bool_decide_reflect (Query.hq_PlaceID q = "")) as [|Hne]; [done|]. cbn [orb].
  specialize (Hp Hne (r_event_id r)). rewrite E, E' in Hp. destruct Hp as [_ Hp].
  destruct (Hp (proj2 (covers_in _ _) Hin)) as (_ & _ & _ & _ & Ha). apply bool_decide_ext. apply Ha.
Qed.

Lemma history_body_ext req q (s s' : St) :
  Tx.plan s = [] -> Tx.plan s' = [] -> history_rows q (Tx.db s').1 = history_rows q (Tx.db s).1 ->
  (history_body req q s).1 = (history_body req q s').1.
Proof.
  intros Hp Hp' Hr. unfold history_body, hbind, lift, Query.QueryHistory.
  destruct (Query.cursor_of (Query.hq_PageToken q)) as [cur|]; [|done].
  rewrite !onStore_query by done. rewrite Hr. by destruct (Query.page _ _ _ _ _).
Qed.

Lemma history_plain req : plain (history_prepare nonce req) /\ forall q, plain (history_body req q).
Proof.
  assert (Hr : forall key, plain (resolvePlaceID key)).
  { intros key. unfold resolvePlaceID. destruct (String.eqb key ""); [apply plain_ret|]. apply plain_bind; [apply plain_lift, notFound_status|].
    intros p. apply plain_ret. }
  split.
  - unfold history_prepare, history_query, history_tag. repeat (apply plain_bind; [|intros ?]); repeat (apply plain_bind; [|intros ?]);
      auto using plain_need, plain_ret, plain_lift, internal_status.
  - intros q. unfold history_body. apply plain_bind; [apply plain_lift, token_status|]. intros r. apply plain_ret.
Qed.

(** Nor is one for the archive, although its validator leaves out the refresh
    version where no place is asked for: a 304 stands for the page of revisions
    the client holds. *)
Theorem archive_not_stale req s l1 l2 tag q body :
  let s1 := later l1 s in let s2 := later l2 s1 in
  StoreSpec.DbOk marshal digest (Tx.db s).1 -> small (Tx.db s2).1 ->
  place_of (lh_place req) (Tx.db s2).1 = place_of (lh_place req) (Tx.db s).1 ->
  (history_prepare nonce req (answering s)).1 = inr (tag, q) -> (history_body req q (answering s1)).1 = inr body ->
  (ListHistory nonce tag req (answering s2)).1 = inl NotModified ->
  (ListHistory nonce "" req (answering s2)).1 = inr (mkAnswer tag body).
Proof using collision_free.
  cbn zeta. set (s1 := later l1 s). set (s2 := later l2 s1). intros Hok Hs Hpl Hprep Hbody H304.
  destruct (history_plain req) as [P1 P2]. apply (conditional_304 _ _ _ _ P1 P2) in H304 as (tag2 & q2 & s2' & Hprep2 & Hg).
  destruct (history_prepare nonce req (answering s)) as [r s'] eqn:Hp1. cbn in Hprep. subst r.
  apply history_prepare_answers in Hp1 as (-> & (id & Hid & Hq) & Htag); [|done].
  pose proof Hprep2 as Hp2. apply history_prepare_answers in Hp2 as (-> & (id2 & Hid2 & Hq2) & Htag2); [|done].
  cbn [answering under Tx.db] in Hid, Hid2. assert (id2 = id) as -> by congruence. assert (q2 = q) as -> by congruence.
  subst tag tag2. unfold weakListTag in Hg. apply Guard_own, app_cancel_r in Hg.
  replace (history_version q (answering s)) with (history_version q (answering s2)) by by symmetry.
  eapply conditional_200; [exact Hprep2|apply Guard_none|]. rewrite <-Hbody. symmetry. apply history_body_ext; [done..|].
  apply eq_sym, history_version_inj in Hg as (Hlen & Hr). cbn [answering under Tx.db Tx.mem] in Hlen, Hr.
  pose proof (later_moves marshal digest wildfireBuffer l1 s) as M1. pose proof (later_moves marshal digest wildfireBuffer l2 s1) as M2.
  fold s1 in M1. fold s2 in M2. unfold view_of in M1, M2.
  pose proof (moves_length _ _ _ _ M1) as L1. pose proof (moves_length _ _ _ _ M2) as L2. cbn [fst] in L1, L2.
  assert (Hok1 : StoreSpec.DbOk marshal digest (Tx.db s1).1).
  { eapply (moves_ok _ _ collision_free _ _ M1); [exact Hok|]. unfold small in *. cbn [fst]. lia. }
  apply history_rows_ext; cbn [answering under Tx.db].
  - symmetry. apply (prefix_length_eq _ _ (moves_revisions _ _ _ _ M2)). cbn [fst]. lia.
  - eapply (moves_kept_layers _ _ collision_free _ _ M2); [exact Hok1|exact Hs|cbn; lia].
  - intros Hne. specialize (Hr Hne).
    pose proof (moves_sum_mono _ _ _ _ (Query.hq_Layers q) M1) as R1. pose proof (moves_sum_mono _ _ _ _ (Query.hq_Layers q) M2) as R2.
    cbn [snd] in R1, R2. eapply (moves_kept _ _ collision_free _ _ _ M2); [exact Hok1|exact Hs|cbn; lia|cbn; lia].
Qed.

End Lists.
End ReadApiSpec.
