(* ===== verification/ReadApiEvent.v ===== *)
(** * Validators of one event and of its history

    The stamp of an event and the clocks of its node name its body, and its revision
    its history: a conditional request for either is never answered with a stale
    304, whatever was written in between. *)

From stdpp Require Import pretty.
From S2P Require Import Prelude Float64 Geo Geojson GridEvent GoText EventCodec Tx Store StoreSpec Mesh Query Feeds Evacuation Hazards Summary Scheduler ReadApi ReadApiSpec.

Module ReadApiEvent.
Import F64 Grid Text Store StoreSpec ReadApi ReadApiSpec.
Import Query (TokenCodec, eventCursor, historyCursor).
Import Mesh (MeshDB, MeshActivity, mesh_activity, activity_of, unixOrZero, timeOrZero, LastHeardAt, LastRelayedAt).
Import Scheduler (SM, SMem, m_store, m_mesh, onStore, onMesh).

(** ** The clocks of a node *)

Lemma unix_or_zero h : unixOrZero (timeOrZero h) = Z.max h 0.
Proof.
  unfold timeOrZero. destruct (Z.leb_spec h 0); [cbn; lia|]. unfold unixOrZero.
  assert (time_is_zero (time_of_unix h) = false) as ->; [unfold time_is_zero, time_of_unix, epoch_seconds, second; lia|].
  rewrite time_unix_of_unix. lia.
Qed.

Lemma clock_inj h h' : unixOrZero (timeOrZero h) = unixOrZero (timeOrZero h') -> timeOrZero h = timeOrZero h'.
Proof. rewrite !unix_or_zero. unfold timeOrZero. intros He. destruct (Z.leb_spec h 0), (Z.leb_spec h' 0); [done|lia|lia|f_equal; lia]. Qed.

(** Each row of the activity table says when its node was heard or relayed. *)
Definition clocked (t : gmap string (Z * Z)) : Prop := forall k c, t !! k = Some c -> 0 < c.1 \/ 0 < c.2.
Definition marks (w : write) : Prop :=
  match w with OnStore _ => True | OnTick _ act => forall a, a ∈ act -> 0 < unixOrZero (LastHeardAt a) \/ 0 < unixOrZero (LastRelayedAt a) end.

Lemma merge_clocked t a :
  clocked t -> 0 < unixOrZero (LastHeardAt a) \/ 0 < unixOrZero (LastRelayedAt a) -> clocked (Mesh.merge_activity t a).
Proof.
  intros Ht Ha k c. unfold Mesh.merge_activity. destruct (decide (k = Mesh.ToLower (Mesh.a_PubKey a))) as [->|Hk].
  - rewrite lookup_insert_eq. intros [= <-]. destruct (t !! _); cbn; lia.
  - rewrite lookup_insert_ne by done. apply Ht.
Qed.

Lemma keeps_foreach_in {D C A} (f : A -> Tx.M D C unit) l I : (forall a, a ∈ l -> Tx.keeps (f a) I) -> Tx.keeps (Tx.foreach f l) I.
Proof.
  induction l as [|a l IH]; intros Hf; [apply Tx.keeps_ret|]. apply Tx.keeps_bind; [apply Hf; by left|]. intros _. apply IH.
  intros b Hb. apply Hf. by right.
Qed.

Lemma tick_clocked obs act (s : Tx.St MeshDB Z) r s' :
  Mesh.RecordMeshTick obs act s = (r, s') -> (forall a, a ∈ act -> 0 < unixOrZero (LastHeardAt a) \/ 0 < unixOrZero (LastRelayedAt a)) ->
  clocked (mesh_activity (Tx.db s)) -> clocked (mesh_activity (Tx.db s')).
Proof.
  intros He Hact Hs. revert He. unfold Mesh.RecordMeshTick. destruct (_ && _); [by intros [= <- <-]|].
  eapply (Tx.keeps_bind _ _ (fun d _ => clocked (mesh_activity d))); [| |exact Hs].
  - apply Tx.keeps_inTx; [done|]. unfold Mesh.insertMeshObservations, Mesh.upsertMeshActivity, Mesh.prepare.
    apply Tx.keeps_bind; [|intros _]; (apply Tx.keeps_bind; [destruct (Nat.eqb _ _); [eauto with grid|by apply Tx.keeps_exec]|]); intros _.
    + apply Tx.keeps_foreach. intros o. by apply Tx.keeps_exec.
    + apply keeps_foreach_in. intros a Ha. destruct (bool_decide _); [eauto with grid|]. apply Tx.keeps_exec. intros d _ Hd.
      by apply merge_clocked; [|apply Hact].
  - intros _. destruct (Nat.eqb _ _); [eauto with grid|]. by apply Tx.keeps_put_mem.
Qed.

Section World.
Context {MK : MathKernel} {JK : JsonKernel}.
Variable marshal : Event -> option string.
Variable digest : string -> string.
Variable wildfireBuffer : float64.

Lemma later_clocked l s :
  (forall w, w ∈ l -> marks w.1) -> clocked (mesh_activity (Tx.db s).2) -> clocked (mesh_activity (Tx.db (later marshal digest wildfireBuffer l s)).2).
Proof.
  revert s. induction l as [|[o faults] l IH]; intros s Hm Hs; [done|]. apply IH; [intros w Hw; apply Hm; by right|].
  specialize (Hm (o, faults) ltac:(by left)). unfold advance. cbn [fst snd] in *. destruct o as [o|obs act]; cbn [perform].
  - unfold onStore, Tx.zoom. cbn [Tx.db Tx.mem Tx.plan]. by destruct (run_op _ _ _ _ _) as [r s1].
  - unfold onMesh, Tx.zoom. cbn [Tx.db Tx.mem Tx.plan]. destruct (Mesh.RecordMeshTick obs act _) as [r s1] eqn:E. cbn.
    eapply tick_clocked in E; [exact E|exact Hm|exact Hs].
Qed.
End World.

(** The activity of one key. *)
Lemma activity_of_one n t k :
  activity_for [n] t !! k = if decide (k = Mesh.ToLower n /\ k <> "") then (fun c => activity_of (k, c)) <$> t !! k else None.
Proof.
  unfold activity_for. cbn [fmap list_fmap]. rewrite filter_cons. destruct (decide (Mesh.ToLower n <> "")) as [Hn|Hn].
  - rewrite filter_nil. assert (remove_dups [Mesh.ToLower n] = [Mesh.ToLower n]) as -> by (unfold remove_dups; by destruct (decide_rel _ _ _) as [?%elem_of_nil|]).
    change (Mesh.chunks_of _ _ _) with [[Mesh.ToLower n]]. cbn [activity_in]. rewrite map_union_empty.
    rewrite map_lookup_imap, map_lookup_filter.
    destruct (decide (k = Mesh.ToLower n)) as [->|Hk].
    + rewrite decide_True by done. destruct (t !! _) as [c|]; [|done]. cbn. rewrite option_guard_True by (by left). done.
    + rewrite decide_False by tauto. destruct (t !! k) as [c|]; [|done]. cbn. rewrite option_guard_False; [done|].
      rewrite list_elem_of_singleton. done.
  - rewrite decide_False by (intros [-> ?]; done). done.
Qed.

(** Equal clocks, and an entry for both or none: the same overlay. *)
Lemma overlay_ext n t t' ev :
  clocked t -> clocked t' ->
  meshActivityTag (activity_for [n] t !! Mesh.ToLower n) = meshActivityTag (activity_for [n] t' !! Mesh.ToLower n) ->
  apply_activity (activity_for [n] t) ev = apply_activity (activity_for [n] t') ev.
Proof.
  intros Ht Ht'. unfold apply_activity. rewrite !activity_of_one. intros Htag.
  destruct (decide (meshActivityKey ev = Mesh.ToLower n /\ meshActivityKey ev <> "")) as [[Hk Hne]|]; [|done].
  rewrite Hk in *. rewrite !decide_True in Htag by done. revert Htag. unfold meshActivityTag.
  destruct (t !! Mesh.ToLower n) as [c|] eqn:E, (t' !! Mesh.ToLower n) as [c'|] eqn:E'; cbn [fmap option_fmap option_map]; [| | |done];
    intros Htag; apply pretty_sep in Htag as [Hh Hr]; [|done|done| |done|done| |done|done]; apply (inj pretty) in Hr;
    unfold activity_of in *; cbn [fst snd LastHeardAt LastRelayedAt] in *.
  - by rewrite (clock_inj _ _ Hh), (clock_inj _ _ Hr).
  - exfalso. specialize (Ht _ _ E). rewrite unix_or_zero in Hh, Hr. lia.
  - exfalso. specialize (Ht' _ _ E'). rewrite unix_or_zero in Hh, Hr. lia.
Qed.

(** ** One event *)

Section Events.
Context {MK : MathKernel} {JK : JsonKernel} {ET : Etag} `{TokenCodec historyCursor}.
Variable marshal : Event -> option string.
Variable digest : string -> string.
Variable wildfireBuffer : float64.
Hypothesis collision_free : forall e1 e2, ContentHash marshal digest e1 = ContentHash marshal digest e2 -> normalize e1 = normalize e2.
Variable nonce : string.
Abbreviation later := (later marshal digest wildfireBuffer).

(** A row of equal stamp before and after had that stamp and body in between. *)
Lemma row_between id s l1 l2 row row2 :
  let s1 := later l1 s in let s2 := later l2 s1 in
  StoreSpec.DbOk marshal digest (Tx.db s).1 -> small (Tx.db s2).1 ->
  events (Tx.db s).1 !! id = Some row -> events (Tx.db s2).1 !! id = Some row2 -> c_revision row2 = c_revision row ->
  exists row1, events (Tx.db s1).1 !! id = Some row1 /\ c_revision row1 = c_revision row2
    /\ StoreSpec.DbOk marshal digest (Tx.db s1).1 /\ StoreSpec.DbOk marshal digest (Tx.db s2).1
    /\ event_revisions (Tx.db s1).1 `prefix_of` event_revisions (Tx.db s2).1
    /\ (c_refreshes row2 = c_refreshes row -> c_proto row1 = c_proto row2).
Proof using collision_free.
  cbn zeta. set (s1 := later l1 s). set (s2 := later l2 s1). intros Hok Hs Hr Hr2 Hv.
  pose proof (later_moves marshal digest wildfireBuffer l1 s) as M1. pose proof (later_moves marshal digest wildfireBuffer l2 s1) as M2.
  fold s1 in M1. fold s2 in M2. pose proof (moves_length _ _ _ _ M2) as L2. unfold view_of in *. cbn [fst] in L2.
  assert (Hs1 : small (Tx.db s1).1) by (unfold small in *; lia).
  pose proof (moves_ok _ _ collision_free _ _ M1 Hok Hs1) as Hok1. pose proof (moves_ok _ _ collision_free _ _ M2 Hok1 Hs) as Hok2.
  destruct (moves_advances _ _ collision_free _ _ id row M1 Hok Hs1 Hr) as (row1 & Hr1 & A1).
  destruct (moves_advances _ _ collision_free _ _ id row1 M2 Hok1 Hs Hr1) as (row2' & Hr2' & A2). cbn [fst] in *.
  assert (row2' = row2) as -> by congruence. destruct A1 as (? & ? & _), A2 as (? & ? & Hp).
  exists row1. split_and!; [done|lia|done|done|exact (moves_revisions _ _ _ _ M2)|]. intros Hf. apply Hp. unfold stamp_of. f_equal; lia.
Qed.

Lemma version_answers id (s : St) :
  Tx.plan s = [] -> onStore (EventVersion id) s = (inr (stamp_of <$> events (Tx.db s).1 !! id), s).
Proof. intros Hp. unfold EventVersion. by rewrite onStore_query. Qed.

Definition native_of (id : string) : option string := CutPrefix id meshActivityPrefix.

Definition event_validator (req : GetEventRequest) (row : EventRow) (t : gmap string (Z * Z)) : string :=
  nonce +:+ ":" +:+ ge_id req +:+ ":" +:+ pretty (c_revision row) +:+ "." +:+ pretty (c_refreshes row) +:+ ":" +:+ FormatBool (ge_enhancement_io req)
  +:+ match native_of (ge_id req) with Some n => ":" +:+ meshActivityTag (activity_for [n] t !! Mesh.ToLower n) | None => "" end.

Lemma event_tag_answers req (s : St) tag act s' :
  Tx.plan s = [] -> event_tag nonce req s = (inr (tag, act), s') ->
  s' = s /\ exists row, events (Tx.db s).1 !! ge_id req = Some row
    /\ tag = Weak (event_validator req row (mesh_activity (Tx.db s).2))
    /\ act = match native_of (ge_id req) with Some n => activity_for [n] (mesh_activity (Tx.db s).2) | None => ∅ end.
Proof.
  intros Hp. unfold event_tag, hbind at 1, lift. rewrite version_answers by done.
  destruct (events (Tx.db s).1 !! ge_id req) as [row|]; [|done]. cbn [fmap option_fmap option_map].
  unfold hbind, event_activity, event_validator, native_of. destruct (CutPrefix (ge_id req) meshActivityPrefix) as [n|] eqn:E.
  - rewrite activity_answers by done. apply CutPrefix_Some in E as ->. rewrite TrimPrefix_app. cbn [hret].
    intros [= <- <- <-]. split; [done|]. exists row. split; [done|]. split; [|done]. f_equal. by rewrite <-!string_app_assoc.
  - intros [= <- <- <-]. split; [done|]. exists row. split; [done|]. split; [|done]. f_equal. by rewrite <-!string_app_assoc.
Qed.

Lemma event_validator_inj req row row' t t' :
  event_validator req row t = event_validator req row' t' ->
  c_revision row = c_revision row' /\ c_refreshes row = c_refreshes row'
  /\ forall n, native_of (ge_id req) = Some n ->
       meshActivityTag (activity_for [n] t !! Mesh.ToLower n) = meshActivityTag (activity_for [n] t' !! Mesh.ToLower n).
Proof.
  unfold event_validator. intros Hv. do 4 apply app_cancel_l in Hv. apply pretty_sep in Hv as [Hr Hv]; [|done|done].
  apply (pretty_sep (c_refreshes row) (c_refreshes row')) in Hv as [Hf Hv]; [|done|done]. split_and!; [done|done|].
  intros n Hn. rewrite !Hn in Hv. apply (app_cancel_l (FormatBool (ge_enhancement_io req))), (app_cancel_l ":") in Hv. exact Hv.
Qed.

Lemma event_body_answers req act (s : St) row :
  Tx.plan s = [] -> events (Tx.db s).1 !! ge_id req = Some row ->
  event_body req act s
  = (inr (apply_activity act (if ge_enhancement_io req then c_proto row else strip_event (c_proto row))), s).
Proof.
  intros Hp Hr. unfold event_body, hbind, lift, Store.GetEvent, onStore, Tx.zoom, Tx.bind.
  rewrite Tx.query_noFaults by exact Hp. cbn [Tx.db Tx.lget Tx.fst_lens]. rewrite Hr. cbn. by destruct s as [[] [] ?].
Qed.

Lemma event_plain req : plain (event_tag nonce req) /\ forall act, plain (event_body req act).
Proof.
  split.
  - unfold event_tag. apply plain_bind; [apply plain_lift, internal_status|]. intros [st|]; [|by intros s]. apply plain_bind; [|intros; apply plain_ret].
    intros s. unfold event_activity. destruct (CutPrefix _ _); [|done]. by destruct (onMesh _ s) as [[|] ?].
  - intros act. unfold event_body. apply plain_bind; [apply plain_lift, notFound_status|]. intros; apply plain_ret.
Qed.

(** C5: A conditional request for one event is never answered with a stale 304,
    although the activity clocks of a mesh node live outside its stored body and
    in-place refreshes leave its revision alone: a 304 stands for the body the
    client was given, whatever was written between its validator and its body and
    up to the later request, as long as each activity write marks when a node was
    heard or relayed. *)
Theorem event_not_stale req s l1 l2 tag act body :
  let s1 := later l1 s in let s2 := later l2 s1 in
  StoreSpec.DbOk marshal digest (Tx.db s).1 -> small (Tx.db s2).1 ->
  clocked (mesh_activity (Tx.db s).2) -> (forall w, w ∈ l1 ++ l2 -> marks w.1) ->
  (event_tag nonce req (answering s)).1 = inr (tag, act) -> (event_body req act (answering s1)).1 = inr body ->
  (GetEvent nonce tag req (answering s2)).1 = inl NotModified ->
  (GetEvent nonce "" req (answering s2)).1 = inr (mkAnswer tag body).
Proof using collision_free.
  cbn zeta. set (s1 := later l1 s). set (s2 := later l2 s1). intros Hok Hs Hc Hm Htag Hbody H304.
  destruct (event_plain req) as [P1 P2]. apply (conditional_304 _ _ _ _ P1 P2) in H304 as (tag2 & act2 & s2' & Hp2 & Hg).
  destruct (event_tag nonce req (answering s)) as [r s'] eqn:Hp1. cbn in Htag. subst r.
  apply event_tag_answers in Hp1 as (_ & row & Hr & -> & ->); [|done]. pose proof Hp2 as Hp.
  apply event_tag_answers in Hp as (-> & row2 & Hr2 & -> & ->); [|done]. cbn [answering under Tx.db] in *.
  apply Guard_own in Hg. pose proof Hg as Hv. apply event_validator_inj in Hv as (Hrev & Href & Hact).
  destruct (row_between (ge_id req) s l1 l2 row row2 Hok Hs Hr Hr2) as (row1 & Hr1 & _ & _ & _ & _ & Hproto); [done|].
  fold s1 in Hr1. rewrite (event_body_answers _ _ _ row1) in Hbody by done. injection Hbody as <-.
  rewrite Hg. eapply conditional_200; [exact Hp2|apply Guard_none|]. rewrite (event_body_answers _ _ _ row2) by done. cbn [fst snd].
  rewrite Hproto by done. f_equal. destruct (native_of (ge_id req)) as [n|]; [|done]. symmetry.
  assert (Hc2 : clocked (mesh_activity (Tx.db s2).2)).
  { apply later_clocked; [intros w Hw; apply Hm, elem_of_app; by right|]. apply later_clocked; [intros w Hw; apply Hm, elem_of_app; by left|done]. }
  apply overlay_ext; [done|done|by apply Hact].
Qed.

(** ** Its history *)

Lemma event_history_answers req (s : St) tag n s' :
  Tx.plan s = [] -> event_history_prepare nonce req s = (inr (tag, n), s') ->
  s' = s /\ parsePageSize (gh_page_size req) = Some n /\ exists row, events (Tx.db s).1 !! gh_id req = Some row
    /\ tag = Weak (nonce +:+ ":" +:+ gh_id req +:+ ":" +:+ pretty (c_revision row) +:+ ":" +:+ pretty (gh_page_size req) +:+ ":"
                  +:+ gh_page_token req +:+ ":" +:+ FormatBool (gh_enhancement_io req)).
Proof.
  intros Hp. unfold event_history_prepare, hbind, need. destruct (parsePageSize _) as [m|]; [|done]. cbn [hret].
  unfold event_history_tag, hbind, lift. rewrite version_answers by done.
  destruct (events (Tx.db s).1 !! gh_id req) as [row|]; [|done]. intros [= <- <- <-]. split_and!; [done|done|]. by exists row.
Qed.

Lemma event_history_plain req : plain (event_history_prepare nonce req) /\ forall n, plain (event_history_body req n).
Proof.
  split.
  - unfold event_history_prepare, event_history_tag. apply plain_bind; [apply plain_need|]. intros n. apply plain_bind; [|intros; apply plain_ret].
    apply plain_bind; [apply plain_lift, internal_status|]. by intros [st|] s.
  - intros n. unfold event_history_body. apply plain_bind; [apply plain_lift, token_status|]. intros; apply plain_ret.
Qed.

(** The revisions of an event of equal revision number. *)
Lemma revisions_between id (d1 d2 : DB) row1 row2 :
  StoreSpec.DbOk marshal digest d1 -> StoreSpec.DbOk marshal digest d2 -> event_revisions d1 `prefix_of` event_revisions d2 ->
  events d1 !! id = Some row1 -> events d2 !! id = Some row2 -> c_revision row1 = c_revision row2 ->
  filter (fun r => r_event_id r = id) (event_revisions d1) = filter (fun r => r_event_id r = id) (event_revisions d2).
Proof.
  intros Hok1 Hok2 [l Hl] Hr1 Hr2 Hv. pose proof (ok_history _ _ _ Hok1 _ _ Hr1) as H1. pose proof (ok_history _ _ _ Hok2 _ _ Hr2) as H2.
  unfold revs in H1, H2. apply (f_equal length) in H1, H2. rewrite length_fmap, length_seqZ in H1, H2.
  apply prefix_length_eq; [|lia]. rewrite Hl, filter_app. by apply prefix_app_r.
Qed.

(** Nor is one for an event's history: its revision alone names every page. *)
Theorem event_history_not_stale req s l1 l2 tag n body :
  let s1 := later l1 s in let s2 := later l2 s1 in
  StoreSpec.DbOk marshal digest (Tx.db s).1 -> small (Tx.db s2).1 ->
  (event_history_prepare nonce req (answering s)).1 = inr (tag, n) -> (event_history_body req n (answering s1)).1 = inr body ->
  (GetEventHistory nonce tag req (answering s2)).1 = inl NotModified ->
  (GetEventHistory nonce "" req (answering s2)).1 = inr (mkAnswer tag body).
Proof using collision_free.
  cbn zeta. set (s1 := later l1 s). set (s2 := later l2 s1). intros Hok Hs Htag Hbody H304.
  destruct (event_history_plain req) as [P1 P2]. apply (conditional_304 _ _ _ _ P1 P2) in H304 as (tag2 & n2 & s2' & Hp2 & Hg).
  destruct (event_history_prepare nonce req (answering s)) as [r s'] eqn:Hp1. cbn in Htag. subst r.
  apply event_history_answers in Hp1 as (_ & Hn & row & Hr & ->); [|done]. pose proof Hp2 as Hp.
  apply event_history_answers in Hp as (-> & Hn2 & row2 & Hr2 & ->); [|done]. cbn [answering under Tx.db] in *.
  assert (n2 = n) as -> by congruence. apply Guard_own in Hg. rewrite Hg.
  do 4 apply app_cancel_l in Hg. apply pretty_sep in Hg as [Hrev _]; [|done|done].
  destruct (row_between (gh_id req) s l1 l2 row row2 Hok Hs Hr Hr2) as (row1 & Hr1 & Hv & Hok1 & Hok2 & Hpre & _); [done|].
  fold s1 in Hr1, Hok1, Hpre. fold s2 in Hok2, Hpre.
  eapply conditional_200; [exact Hp2|apply Guard_none|]. rewrite <-Hbody.
  unfold event_history_body, hbind, lift, Query.EventHistory. destruct (Query.cursor_of (gh_page_token req)) as [cur|]; [|done].
  rewrite !onStore_query by done. cbn [answering under Tx.db].
  rewrite (revisions_between (gh_id req) _ _ row1 row2 Hok1 Hok2 Hpre Hr1 Hr2 Hv). by destruct (Query.page _ _ _ _ _).
Qed.
End Events.
End ReadApiEvent.
