(* ===== verification/ReadApiDemo.v ===== *)
(** * Requests and writes interleaved

    Concrete requests of the read API against a store with a crash and a mesh node:
    each not-stale theorem applied where writes, some of them failing, fall between
    a client's two requests, and the one body that outlives what it stands for. *)

From stdpp Require Import pretty.
From S2P Require Import Prelude Float64 Geo Geojson GridEvent GoText EventCodec Tx Store StoreSpec Places Mesh Query Feeds Evacuation Hazards Summary Scheduler ReadApi ReadApiSpec ReadApiEvent.

Module ReadApiDemo.
Import F64 Grid Text Store StoreSpec ReadApi ReadApiSpec ReadApiEvent.
Import Mesh (MeshDB, mkMeshDB, mesh_activity, mkMeshActivity).
Import Scheduler (SMem, mkSMem).

#[local] Existing Instances Query.event_codec Query.history_codec Demo.math Demo.json ascii_only.
#[local] Instance upper : UnicodeUpper := {| unicode_upper s := s |}.
#[local] Instance no_times : TimeParse := {| parse_rfc3339 _ := None |}.
#[local] Program Instance tags : Etag := {|
  Weak s := "W" +:+ s;
  Guard inm tag := negb (String.eqb inm "") && String.eqb inm tag;
  short_hash s := s |}.
Next Obligation. intros a b. by intros [=]. Qed.
Next Obligation.
  intros a b. change (negb (String.eqb ("W" +:+ a) "") && String.eqb ("W" +:+ a) ("W" +:+ b) = true <-> a = b). change (String.eqb ("W" +:+ a) "") with false. cbn [negb andb]. rewrite String.eqb_eq.
  split; [by intros [=]|by intros ->].
Qed.
Next Obligation. done. Qed.

(** A crash, and a node heard at 50. *)
Definition node : Event :=
  mkEvent "meshcore:ab" MESH "mesh_node" INFO ACTIVE "Node" "" "" "" "" None [] (Some (mkProvenance "meshcore" "MeshCore" "" "" None))
    None None None None 0 None (Some (D_Mesh (mkMeshDetail "AB" "repeater" "Node" None MESH_REACHABILITY_UNSPECIFIED))).
Definition crash (head : string) : Event := Demo.crash ACTIVE head [].
Definition registry : gmap string SourceRow := <["meshcore" := Demo.chp]> {[ "chp" := Demo.chp ]}.
Definition heard (at_ : Z) : list Mesh.MeshActivity := [mkMeshActivity "AB" (time_of_unix at_) time_zero].

Definition s0 : St := Tx.mkSt (mkDB ∅ [] ∅ ∅ ∅ ∅ registry, mkMeshDB [] ∅ ∅ ∅ ∅) (mkSMem (mkMem None 0 ∅) 0 0 [] 0) [].
Abbreviation after := (later EventCodec.marshal EventCodec.digest zero).
Definition loaded : list (write * list bool) :=
  [(OnStore (OpUpsert 1 (crash "Crash")), []); (OnStore (OpUpsert 1 node), []); (OnTick [] (heard 50), [])].
Definition s : St := after loaded s0.

(** A write that fails, and one of the layer that is not asked for; then a node
    heard again, and the crash seen again as it is. *)
Definition between : list (write * list bool) :=
  [(OnStore (OpUpsert 2 (crash "Road closed")), [true]); (OnStore (OpUpsert 2 (crash "Crash")), [])].
Definition ticks : list (write * list bool) := [(OnTick [] (heard 70), [])].
Abbreviation s1 := (after between s).
Abbreviation s2 := (after ticks s1).

Lemma ok : DbOk EventCodec.marshal EventCodec.digest (Tx.db s).1.
Proof.
  unfold s. apply (later_ok _ _ zero Demo.collision_free loaded s0); [apply DbOk_empty|]. vm_compute. reflexivity.
Qed.

(** What a first request is given. *)
Definition first_of {T} (x : Stop + string * T) (t : T) : string * T := match x with inr x => x | inl _ => ("", t) end.
Definition body_or {A} (a : A) (x : Stop + A) : A := match x with inr b => b | inl _ => a end.

(** *** The event list *)

Definition roads : ListEventsRequest := mkListEventsRequest "" ["road_incident"] [] "" "" 10 "" false.
Definition roads_first := first_of (list_prepare "n" roads (under [false] s)).1 (Query.mkEventQuery "" [] [] INFO 0 0 "").
Definition roads_body := body_or (mkEventList [] "") (events_body roads roads_first.2 (under [false] s1)).1.

Lemma list_not_stale_witness :
  (ListEvents "n" roads_first.1 roads (under [false; true] s2)).1 = inl NotModified
  /\ exists full, (ListEvents "n" "" roads (answering s2)).1 = inr (mkAnswer roads_first.1 full)
     /\ (roads_body = full \/ true ∈ [false] /\ (bare_body roads roads_first.2 (answering s2)).1 = inr roads_body).
Proof.
  assert (H304 : (ListEvents "n" roads_first.1 roads (under [false; true] s2)).1 = inl NotModified) by (vm_compute; reflexivity).
  split; [exact H304|].
  apply (list_not_stale EventCodec.marshal EventCodec.digest zero Demo.collision_free "n" roads s between ticks [false] [false] [false; true]
    roads_first.1 roads_first.2 roads_body ok);
    [vm_compute; reflexivity|vm_compute; reflexivity|vm_compute; reflexivity|vm_compute; reflexivity|exact H304].
Defined.

(** *** The archive *)

Definition archive : ListHistoryRequest := mkListHistoryRequest "" [] "" "" 10 "" false.
Definition archive_first := first_of (history_prepare "n" archive (answering s)).1 (Query.mkHistoryQuery "" [] 0 0 0 "").
Definition archive_body := body_or (mkEventRevisionList [] "") (history_body archive archive_first.2 (answering s1)).1.

Lemma archive_not_stale_witness :
  length (Revisions archive_body) = 2%nat
  /\ (ListHistory "n" "" archive (answering s2)).1 = inr (mkAnswer archive_first.1 archive_body).
Proof.
  split; [vm_compute; reflexivity|]. 
  apply (archive_not_stale EventCodec.marshal EventCodec.digest zero Demo.collision_free "n" archive s between ticks archive_first.1 archive_first.2
    archive_body ok);
    [vm_compute; reflexivity|vm_compute; reflexivity|vm_compute; reflexivity|vm_compute; reflexivity|vm_compute; reflexivity].
Defined.

(** *** One event *)

Definition ab : GetEventRequest := mkGetEventRequest "meshcore:ab" false.
Definition ab_first := first_of (event_tag "n" ab (answering s)).1 ∅.
Definition ab_body := body_or node (event_body ab ab_first.2 (answering s1)).1.
Abbreviation quiet := [(OnTick [] (heard 40), @nil bool); (OnTick [] (heard 60), [true])].

(** The node is reported heard earlier than it is known to be, and a later report
    is lost: the validator stands. *)
Lemma event_not_stale_witness :
  (GetEvent "n" "" ab (answering (after quiet s1))).1 = inr (mkAnswer ab_first.1 ab_body)
  /\ ab_first.1 = "Wn:meshcore:ab:1.0:false:50.0".
Proof.
  split; [|vm_compute; reflexivity].
  apply (event_not_stale EventCodec.marshal EventCodec.digest zero Demo.collision_free "n" ab s between quiet ab_first.1 ab_first.2 ab_body ok).
  - vm_compute. reflexivity.
  - apply later_clocked; [|done]. intros w [->|[->|[->|[]%elem_of_nil]%elem_of_cons]%elem_of_cons]%elem_of_cons; [done|done|].
    intros a ->%list_elem_of_singleton. left. vm_compute. reflexivity.
  - intros w [->|[->|[->|[->|[]%elem_of_nil]%elem_of_cons]%elem_of_cons]%elem_of_cons]%elem_of_cons; [done|done| |];
      intros a ->%list_elem_of_singleton; left; vm_compute; reflexivity.
  - vm_compute. reflexivity.
  - vm_compute. reflexivity.
  - vm_compute. reflexivity.
Defined.

(** *** An event's history *)

Definition story : GetEventHistoryRequest := mkGetEventHistoryRequest "chp:1" 10 "" false.
Definition story_first := first_of (event_history_prepare "n" story (answering s)).1 0.
Definition story_body := body_or (mkEventRevisionList [] "") (event_history_body story story_first.2 (answering s1)).1.

Lemma event_history_not_stale_witness :
  (GetEventHistory "n" "" story (answering s2)).1 = inr (mkAnswer story_first.1 story_body) /\ length (Revisions story_body) = 1%nat.
Proof.
  split; [|vm_compute; reflexivity].
  apply (event_history_not_stale EventCodec.marshal EventCodec.digest zero Demo.collision_free "n" story s between ticks story_first.1 story_first.2
    story_body ok); vm_compute; reflexivity.
Defined.

(** *** A degraded body *)

Definition nodes : ListEventsRequest := mkListEventsRequest "" ["mesh"] [] "" "" 10 "" false.
(** The clocks a list shows. *)
Definition clocks (x : Stop + Answer EventList) : option (string * list (option Time)) :=
  match x with
  | inr a => Some (tag_of a, (fun ev => d ← GetMesh ev; t ← telemetry d; last_heard_at t) <$> Events (body_of a))
  | inl _ => None
  end.

(** The activity read fails while a list is served: the body lacks the clocks, and
    its validator is that of the body with the clocks, so that the client's next
    requests are answered "not modified" although the full answer differs. *)
Theorem degraded_body_kept :
  let tag := (first_of (list_prepare "n" nodes (answering s)).1 roads_first.2).1 in
  clocks (ListEvents "n" "" nodes (under [false; false; true] s)).1 = Some (tag, [None])
  /\ (ListEvents "n" tag nodes (answering s)).1 = inl NotModified
  /\ clocks (ListEvents "n" "" nodes (answering s)).1 = Some (tag, [Some (time_of_unix 50)]).
Proof. vm_compute. done. Qed.

End ReadApiDemo.
