(* ===== verification/BurnStatus.v ===== *)
(** * The burn status feed

    [internal/ingest/burn_status.go] over [internal/clients/calfireburn/client.go],
    the burn lines of [internal/config/config.go] and the place index of
    [cmd/server/main.go]: one event for each configured county, of what the staged
    readings of its burn lines and CAL FIRE's page say. [html.Parse], the layouts
    of [time.Parse] and the text of times are classes; what the page's server
    answers is an argument, and one reading of the clock stands for those of a
    poll. *)

From Stdlib Require Import Ascii.
From stdpp Require Import pretty.
From S2P Require Import Prelude Float64 Geojson GridEvent GoText Tx Store Places Scheduler BurnStore PushIngest Feeds Power Network.

(** ** The CAL FIRE page *)

Module Calfireburn.
Import Text Feeds.

Definition maxBody : Z := Z.shiftl 5 20.

(** A node of a parsed page: an element with its name, a text, another node. *)
Inductive Node := Element (data : string) (children : list Node) | TextNode (data : string) | OtherNode (children : list Node).

(** [html.Parse], and [time.ParseInLocation] in Pacific time. *)
Class PageText := { parse_html : string -> string + Node; parse_pacific : string -> string -> option Time }.

Inductive Status := StatusUnknown | StatusBurningSuspended | StatusPermitRequired | StatusNoPermitRequired.
Record CountyStatus := mkCountyStatus { County : string; cs_Status : Status; RawStatus : string; Effective : Time; Area : string }.

(** The text of a node, as it is written. *)
Fixpoint raw_text (n : Node) : string :=
  match n with
  | TextNode t => t
  | Element _ l | OtherNode l => foldr (fun c t => raw_text c +:+ t) "" l
  end.
Definition textOf (n : Node) : string := TrimSpace (join " " (Fields (raw_text n))).

Definition cells_of (l : list Node) : list string :=
  l ≫= fun c => match c with
                | Element d _ => if bool_decide (d ∈ ["td"; "th"]) then [textOf c] else []
                | _ => []
                end.
(** Each row's cells; a row is not searched for rows. *)
Fixpoint tableRows (n : Node) : list (list string) :=
  match n with
  | TextNode _ => []
  | OtherNode l => foldr (fun c rows => tableRows c ++ rows) [] l
  | Element d l =>
      if String.eqb d "tr" then match cells_of l with [] => [] | cells => [cells] end
      else foldr (fun c rows => tableRows c ++ rows) [] l
  end.

Definition effectiveLayouts : list string := ["January 2, 2006 3:04 PM"; "January 2, 2006 3:04PM"; "January 2, 2006"].

(** [strings.Replace] of the first match. *)
Fixpoint replace_once (old new l : list ascii) : list ascii :=
  match strip Ascii.eqb old l with
  | Some rest => new ++ rest
  | None => match l with [] => [] | c :: l => c :: replace_once old new l end
  end.
Definition ReplaceFirst (s old new : string) : string := of_bytes (replace_once (bytes old) (bytes new) (bytes s)).

Section Client.
Context {UL : UnicodeLower} {PT : PageText}.

Definition parseStatus (s : string) : Status :=
  let t := ToLower (join " " (Fields s)) in
  if Text.Contains t "suspend" then StatusBurningSuspended
  else if Text.Contains t "no permit" then StatusNoPermitRequired
  else if Text.Contains t "permit" then StatusPermitRequired
  else StatusUnknown.

Definition parseEffective (s : string) : Time :=
  let t := TrimPrefix (TrimSpace s) "Effective" in
  let t := TrimSpace (TrimPrefix (TrimSpace t) ",") in
  let t := join " " (Fields (ReplaceFirst t " at " " ")) in
  default time_zero (head (omap (fun layout => parse_pacific layout t) effectiveLayouts)).

Definition county_name (cell : string) : string := TrimSpace (TrimSpace (TrimSuffix (TrimSpace cell) "County")).

(** One row into the table; a later row of a county wins. *)
Definition add_row (out : gmap string CountyStatus) (cells : list string) : gmap string CountyStatus :=
  match cells with
  | c0 :: c1 :: rest =>
      let county := county_name c0 in
      if String.eqb county "" || EqualFold county "County" then out
      else <[ToLower county := mkCountyStatus county (parseStatus c1) (TrimSpace c1)
               (match rest with c2 :: _ => parseEffective c2 | _ => time_zero end)
               (match rest with _ :: c3 :: _ => TrimSpace c3 | _ => "" end)]> out
  | _ => out
  end.

Definition GetBurnStatus (reply : Response) : string + gmap string CountyStatus :=
  match reply with
  | NoReply err => inl ("calfireburn: fetch: " +:+ err)
  | Reply status body =>
      if negb (status =? 200) then
        if status =? 403 then inl "calfireburn: 403 forbidden (bot protection; see package doc)"
        else inl ("calfireburn: unexpected status " +:+ pretty status)
      else
        match parse_html (limit maxBody body) with
        | inl e => inl ("calfireburn: parse html: " +:+ e)
        | inr doc =>
            match tableRows doc with
            | [] => inl "calfireburn: no data rows found (page layout changed?)"
            | rows =>
                let out := foldl add_row ∅ rows in
                if bool_decide (out = ∅) then inl "calfireburn: table had rows but no counties parsed" else inr out
            end
        end
  end.

End Client.
End Calfireburn.

(** ** The normalizer *)

Module BurnStatus.
Import Grid Text Feeds.
Import Burn (BurnReading).
Import Calfireburn (PageText, CountyStatus, cs_Status, Effective, Area, StatusUnknown, StatusBurningSuspended, StatusPermitRequired, StatusNoPermitRequired).
Import Scheduler (Prior, ByID, PollResult, mkPollResult).
Import Power (PowerText, age_text, duration_text).
Import Network (Wording, health_error).

(** *** Configuration *)

Definition DefaultBurnDayStaleAfter : Duration := 36 * hour.
Record BurnCounty := mkBurnCounty { c_Place : string; c_Name : string }.
Record BurnLine := mkBurnLine { l_ID : string; l_Name : string; l_Phone : string; l_Counties : list string; Enabled : bool }.
Record BurnConfig := mkBurnConfig { Counties : list BurnCounty; Lines : list BurnLine; BurnDayStaleAfter : Duration }.

Definition Dialed (l : BurnLine) : bool := Enabled l && negb (String.eqb (l_Phone l) "") && negb (String.eqb (l_ID l) "").
Definition LinesForCounty (b : BurnConfig) (place : string) : list BurnLine :=
  filter (fun l => existsb (fun c => EqualFold c place) (l_Counties l) = true) (Lines b).
Definition EnabledLines (b : BurnConfig) : list BurnLine := filter (fun l => Dialed l = true) (Lines b).
Definition BurnDayStale (b : BurnConfig) : Duration :=
  if negb (BurnDayStaleAfter b =? 0) then BurnDayStaleAfter b else DefaultBurnDayStaleAfter.

Definition burnLineSourceID : string := "burnline".
Definition burnLineSourceName : string := "County Burn Line".
Definition burnLineAttribution : string := "County air district burn information line".
Definition calfireBurnSourceID : string := "calfire-burn".
Definition calfireBurnName : string := "CAL FIRE Burn Permits".
Definition calfireBurnAttrib : string := "CAL FIRE".
Definition calfireBurnStatusURL : string := "https://burnpermit.fire.ca.gov/current-burn-status".

Section Poll.
Context {UL : UnicodeLower} {PW : PowerText} {Wd : Wording}.
Variable cfg : BurnConfig.

Definition SourceIDs (push : option Push.Registry) : list string :=
  [calfireBurnSourceID] ++ (if (0 <? length (EnabledLines cfg))%nat then [burnLineSourceID] else [])
  ++ match push with Some r => Push.ReporterIDs r Push.BurnStream | None => [] end.

Definition reporterHealth (push : option Push.Registry) (now : Time) : list (string * option string) :=
  match push with
  | Some r => (fun h => (Push.h_ID h, health_error h)) <$> Push.Health r Push.BurnStream now
  | None => []
  end.

(** *** The two facets *)

Definition freshnessError (now observed : Time) : option string :=
  if BurnDayStale cfg <=? 0 then None
  else if time_is_zero observed then Some "burn-day reading has no timestamp"
  else
    let age := time_sub now observed in
    if BurnDayStale cfg <? age then
      Some ("burn-day reading is stale (" +:+ age_text age +:+ " old, limit " +:+ duration_text (BurnDayStale cfg) +:+ ")")
    else None.

(** The readings that can be used, by line, and the errors of the dialed lines. *)
Definition judge_line (staged : gmap string BurnReading) (now : Time) (acc : gmap string BurnReading * list string) (l : BurnLine)
    : gmap string BurnReading * list string :=
  match staged !! ToLower (l_ID l) with
  | None => (acc.1, if Dialed l then acc.2 ++ [l_ID l +:+ ": no reading has been pushed"] else acc.2)
  | Some r =>
      match freshnessError now (Burn.ObservedAt r) with
      | Some e => (acc.1, if Dialed l then acc.2 ++ [l_ID l +:+ ": " +:+ e] else acc.2)
      | None => (<[l_ID l := r]> acc.1, acc.2)
      end
  end.
Definition judge (staged : gmap string BurnReading) (now : Time) : gmap string BurnReading * list string :=
  foldl (judge_line staged now) (∅, []) (Lines cfg).

Definition burnDayProto (status : string) : BurnDay :=
  let s := ToLower (TrimSpace status) in
  if String.eqb s "green" then BURN_DAY_YES
  else if String.eqb s "red" then BURN_DAY_NO
  else if String.eqb s "orange" then BURN_DAY_MARGINAL
  else BURN_DAY_UNKNOWN.

Definition calfireStatusProto (s : Calfireburn.Status) : CalfireBurnStatus :=
  match s with
  | StatusBurningSuspended => CALFIRE_BURNING_SUSPENDED
  | StatusPermitRequired => CALFIRE_PERMIT_REQUIRED
  | StatusNoPermitRequired => CALFIRE_NO_PERMIT_REQUIRED
  | StatusUnknown => CALFIRE_BURN_STATUS_UNKNOWN
  end.

(** The lines of a county into one answer: [yes], [marginal] and [missing] are the
    flags of the loop. *)
Fixpoint merge_from (yes marginal missing : bool) (usable : gmap string BurnReading) (lines : list BurnLine) : BurnDay :=
  match lines with
  | [] => if marginal then BURN_DAY_MARGINAL else if yes && negb missing then BURN_DAY_YES else BURN_DAY_UNKNOWN
  | l :: lines =>
      match usable !! l_ID l with
      | None => merge_from yes marginal (missing || Dialed l) usable lines
      | Some r =>
          match burnDayProto (Burn.Status r) with
          | BURN_DAY_NO => BURN_DAY_NO
          | BURN_DAY_MARGINAL => merge_from yes true missing usable lines
          | BURN_DAY_YES => merge_from true marginal missing usable lines
          | BURN_DAY_UNKNOWN => merge_from yes marginal (missing || Dialed l) usable lines
          end
      end
  end.
Definition mergeBurnDays (lines : list BurnLine) (usable : gmap string BurnReading) : BurnDay := merge_from false false false usable lines.

Definition derivePermission (day : BurnDay) (calfire : CalfireBurnStatus) : BurnPermission :=
  if bool_decide (day = BURN_DAY_NO) || bool_decide (calfire = CALFIRE_BURNING_SUSPENDED) then BURN_PERMISSION_PROHIBITED
  else
    let calfireOK := bool_decide (calfire = CALFIRE_PERMIT_REQUIRED) || bool_decide (calfire = CALFIRE_NO_PERMIT_REQUIRED) in
    if bool_decide (day = BURN_DAY_YES) && calfireOK then BURN_PERMISSION_ALLOWED else BURN_PERMISSION_UNKNOWN.

(** *** The event of a county *)

Definition burnEventID (c : BurnCounty) : string := "burn:" +:+ c_Place c.
Definition countyKey (c : BurnCounty) : string := TrimSuffix (ToLower (c_Place c)) "-county".

Definition burnHeadline (c : BurnCounty) (day : BurnDay) (calfire : CalfireBurnStatus) : string :=
  c_Name c +:+ " — "
  +:+ join "; "
        [match day with
         | BURN_DAY_YES => "burn day" | BURN_DAY_NO => "no-burn day" | BURN_DAY_MARGINAL => "restricted burn day"
         | BURN_DAY_UNKNOWN => "burn day unknown"
         end;
         match calfire with
         | CALFIRE_BURNING_SUSPENDED => "CAL FIRE burning suspended" | CALFIRE_PERMIT_REQUIRED => "CAL FIRE permit required"
         | CALFIRE_NO_PERMIT_REQUIRED => "CAL FIRE permit not required" | CALFIRE_BURN_STATUS_UNKNOWN => "CAL FIRE status unknown"
         end].

Definition line_reading (usable : gmap string BurnReading) (l : BurnLine) : BurnLineReading :=
  match usable !! l_ID l with
  | Some r => mkBurnLineReading (l_ID l) (l_Name l) (l_Phone l) (burnDayProto (Burn.Status r))
                (Some (mkBurnObservation (Burn.Message r) (Burn.Transcript r) (Burn.Confidence r) (tsProto (Burn.ObservedAt r))))
  | None => mkBurnLineReading (l_ID l) (l_Name l) (l_Phone l) BURN_DAY_UNKNOWN None
  end.

(** What CAL FIRE says of a county: status, area, since when, seen when. *)
Record CalfireFacet := mkFacet { f_status : CalfireBurnStatus; f_area : string; f_effective : option Time; f_observed_at : option Time }.
Definition no_facet : CalfireFacet := mkFacet CALFIRE_BURN_STATUS_UNKNOWN "" None None.
Definition fetched_facet (c : BurnCounty) (rows : option (gmap string CountyStatus)) (now : Time) : CalfireFacet :=
  match rows ≫= fun rows => rows !! countyKey c with
  | Some row => mkFacet (calfireStatusProto (cs_Status row)) (Area row) (tsProto (Effective row)) (tsProto now)
  | None => no_facet
  end.
(** A status that is unknown is carried from the stored event. *)
Definition calfire_facet (c : BurnCounty) (rows : option (gmap string CountyStatus)) (prior : Prior) (now : Time) : CalfireFacet :=
  let f := fetched_facet c rows now in
  if bool_decide (f_status f = CALFIRE_BURN_STATUS_UNKNOWN) then
    match ByID prior (burnEventID c) ≫= GetBurnStatus with
    | Some pd =>
        if bool_decide (calfire_status pd = CALFIRE_BURN_STATUS_UNKNOWN) then f
        else mkFacet (calfire_status pd) (calfire_area pd) (calfire_effective pd) (calfire_observed_at pd)
    | None => f
    end
  else f.

Definition countyIsDialed (lines : list BurnLine) : bool := existsb Dialed lines.

Definition burn_detail (c : BurnCounty) (usable : gmap string BurnReading) (f : CalfireFacet) : BurnStatusDetail :=
  let lines := LinesForCounty cfg (c_Place c) in
  let day := mergeBurnDays lines usable in
  mkBurnStatusDetail day (f_status f) (derivePermission day (f_status f)) (f_effective f) (f_area f) (line_reading usable <$> lines)
    (f_observed_at f).

Definition burn_event (c : BurnCounty) (usable : gmap string BurnReading) (f : CalfireFacet) (ids : list string) (now : Time) : Event :=
  let d := burn_detail c usable f in
  mkEvent (burnEventID c) BURN_STATUS "burn_status" INFO ACTIVE (burnHeadline c (burn_day d) (calfire_status d)) "" "" (c_Name c)
    calfireBurnStatusURL None ids
    (Some (if countyIsDialed (LinesForCounty cfg (c_Place c))
           then NewProvenance burnLineSourceID burnLineSourceName burnLineAttribution "" now
           else NewProvenance calfireBurnSourceID calfireBurnName calfireBurnAttrib calfireBurnStatusURL now))
    None None (tsProto now) None 0 None (Some (D_BurnStatus d)).

(** [PlaceIDsForCounty] is the argument [places]. *)
Definition buildEvent (places : string -> string + list string) (c : BurnCounty) (rows : option (gmap string CountyStatus))
    (usable : gmap string BurnReading) (now : Time) (prior : Prior) : string + Event :=
  match places (c_Place c) with
  | inl e => inl ("burn status: place ids for " +:+ c_Place c +:+ ": " +:+ e)
  | inr ids => inr (burn_event c usable (calfire_facet c rows prior now) ids now)
  end.

Fixpoint build_all (build : BurnCounty -> string + Event) (counties : list BurnCounty) : string + list Event :=
  match counties with
  | [] => inr []
  | c :: cs => match build c with
               | inl e => inl e
               | inr ev => match build_all build cs with inl e => inl e | inr evs => inr (ev :: evs) end
               end
  end.

(** *** The poll *)

Definition set_error (m : gmap string string) (x : string * option string) : gmap string string := partial_alter (fun _ => x.2) x.1 m.

Definition Poll (places : string -> string + list string) (calfire : string + gmap string CountyStatus)
    (readings : string + gmap string BurnReading) (push : option Push.Registry) (prior : Prior) (now : Time) : string + PollResult :=
  match Counties cfg with
  | [] => inl (errEmptyScope "burn counties")
  | counties =>
      match readings with
      | inl e => inl ("burn status: read staged readings: " +:+ e)
      | inr staged =>
          let '(usable, lineErrs) := judge staged now in
          let lineErrs := sort_strings lineErrs in
          let expected := length (EnabledLines cfg) in
          let perSource : gmap string string := match calfire with inl e => {[ calfireBurnSourceID := e ]} | inr _ => ∅ end in
          let perSource := if (0 <? length lineErrs)%nat then <[burnLineSourceID := "burn line: " +:+ join "; " lineErrs]> perSource else perSource in
          let finish rows :=
            match build_all (fun c => buildEvent places c rows usable now prior) counties with
            | inl e => inl e
            | inr events =>
                inr (mkPollResult events (foldl set_error perSource (reporterHealth push now)) [] [] [] [] [] [] (Id <$> events) false)
            end in
          match calfire with
          | inl e =>
              if (0 <? expected)%nat && Nat.eqb (length lineErrs) expected then
                inl ("burn status: all sources failed (calfire: " +:+ e +:+ "; " +:+ join "; " lineErrs +:+ ")")
              else if Nat.eqb expected 0 then inl e
              else finish None
          | inr rows => finish (Some rows)
          end
      end
  end.

End Poll.

(** *** The place index *)

Section Index.
Context {MK : MathKernel} {JK : JsonKernel}.

Definition parsed (g : option Geometry) : option Geojson.Geom :=
  g ≫= fun g => if String.eqb (g_geojson g) "" then None else Geojson.Parse (g_geojson g).

Definition of_county (county : Place) (shape : option Geojson.Geom) (p : Place) : bool :=
  if String.eqb (p_id p) (p_id county) then false
  else if String.eqb (parent_id p) (p_id county) then true
  else if bool_decide (p_kind p = AREA) then
    match shape, parsed (p_geometry p) with Some a, Some b => Geojson.Intersects a b | _, _ => false end
  else false.

Definition PlaceIDsForCounty (countySlug : string) : Store.M (list string) :=
  Tx.bind (Places.GetPlace countySlug) (fun county =>
  Tx.bind (Places.ListPlaces PLACE_KIND_UNSPECIFIED "") (fun all =>
  Tx.ret (sort_strings (p_id county :: (p_id <$> filter (fun p => of_county county (parsed (p_geometry county)) p = true) all))))).
End Index.

End BurnStatus.
