(* ===== verification/BurnStatusSpec.v ===== *)
(** * Burn status: what may be burned on the strength of what

    ALLOWED is the answer of every authority that was asked and of none that was
    not heard, PROHIBITED that of one that says no, and a marginal day is UNKNOWN;
    what a poll does when a source fails; and that only a change of an answer makes
    a revision. *)

From Stdlib Require Import Ascii.
From stdpp Require Import pretty.
From S2P Require Import Prelude Float64 Geojson GridEvent GoText Tx Store Places Scheduler BurnStore PushIngest Feeds Power Network BurnStatus.

Module BurnStatusSpec.
Import Grid Text Feeds BurnStatus.
Import Burn (BurnReading).
Import Calfireburn (PageText, CountyStatus, cs_Status, Effective, Area, StatusUnknown, StatusBurningSuspended, add_row, GetBurnStatus, tableRows, county_name).
Import Scheduler (Prior, ByID, PollResult, mkPollResult, Events, PerSource, ForceWrite).
Import Power (PowerText, age_text, duration_text).
Import Network (Wording, health_error).

Section Spec.
Context {UL : UnicodeLower} {PW : PowerText} {Wd : Wording}.
Variable cfg : BurnConfig.

(** ** The readings *)

(** The reading of a line that can be used. *)
Definition fresh (staged : gmap string BurnReading) (now : Time) (id : string) : option BurnReading :=
  r ← staged !! ToLower id; match freshnessError cfg now (Burn.ObservedAt r) with None => Some r | Some _ => None end.
Definition told (staged : gmap string BurnReading) (now : Time) (l : BurnLine) (d : BurnDay) : Prop :=
  exists r, fresh staged now (l_ID l) = Some r /\ burnDayProto (Burn.Status r) = d.

Lemma judge_from staged now lines acc :
  (forall l, l ∈ lines -> (foldl (judge_line cfg staged now) acc lines).1 !! l_ID l = default (acc.1 !! l_ID l) (Some <$> fresh staged now (l_ID l)))
  /\ (forall id, (forall l, l ∈ lines -> l_ID l <> id) -> (foldl (judge_line cfg staged now) acc lines).1 !! id = acc.1 !! id)
  /\ length (foldl (judge_line cfg staged now) acc lines).2
     = (length acc.2 + length (filter (fun l => Dialed l = true /\ fresh staged now (l_ID l) = None) lines))%nat.
Proof.
  revert acc. induction lines as [|l lines IH]; intros acc.
  { split_and!; [by intros l ?%elem_of_nil|done|cbn; lia]. }
  cbn [foldl]. destruct (IH (judge_line cfg staged now acc l)) as (I1 & I2 & I3).
  assert (Hu : (judge_line cfg staged now acc l).1 !! l_ID l = default (acc.1 !! l_ID l) (Some <$> fresh staged now (l_ID l))
    /\ (forall id, l_ID l <> id -> (judge_line cfg staged now acc l).1 !! id = acc.1 !! id)
    /\ length (judge_line cfg staged now acc l).2
       = (length acc.2 + if bool_decide (Dialed l = true /\ fresh staged now (l_ID l) = None) then 1 else 0)%nat).
  { unfold judge_line, fresh. destruct (staged !! ToLower (l_ID l)) as [r|]; cbn [mbind option_bind].
    - destruct (freshnessError _ _ _); cbn [fst snd fmap option_fmap option_map default].
      + split_and!; [done|done|]. destruct (Dialed l); [rewrite length_app, bool_decide_true by done; done|rewrite bool_decide_false by naive_solver; lia].
      + split_and!; [by rewrite lookup_insert_eq|intros id Hne; by rewrite lookup_insert_ne|rewrite bool_decide_false by naive_solver; lia].
    - cbn [fst snd fmap option_fmap option_map default]. split_and!; [done|done|].
      destruct (Dialed l); [rewrite length_app, bool_decide_true by done; done|rewrite bool_decide_false by naive_solver; lia]. }
  destruct Hu as (U1 & U2 & U3). split_and!.
  - intros k [->|Hk]%elem_of_cons; [|rewrite I1 by done; destruct (decide (l_ID l = l_ID k)) as [He|Hne]].
    + destruct (decide (l_ID l ∈ l_ID <$> lines)) as [(k & He & Hk)%list_elem_of_fmap|Hn].
      * rewrite He, I1 by done. rewrite <-He, U1. by destruct (fresh _ _ _).
      * rewrite I2; [exact U1|]. intros k Hk He. apply Hn, list_elem_of_fmap. by exists k.
    + rewrite <-He, U1. by destruct (fresh _ _ _).
    + by rewrite U2.
  - intros id Hn. rewrite I2, U2; [done|apply Hn; by left|]. intros k Hk. apply Hn. by right.
  - rewrite I3, U3, filter_cons. case_bool_decide; [rewrite decide_True by done|rewrite decide_False by done]; cbn; lia.
Qed.

Lemma judge_usable staged now l : l ∈ Lines cfg -> (judge cfg staged now).1 !! l_ID l = fresh staged now (l_ID l).
Proof. intros Hl. unfold judge. rewrite (proj1 (judge_from staged now _ _)) by done. cbn. rewrite lookup_empty. by destruct (fresh _ _ _). Qed.

Lemma judge_errors staged now :
  length (judge cfg staged now).2 = length (filter (fun l => Dialed l = true /\ fresh staged now (l_ID l) = None) (Lines cfg)).
Proof. apply (proj2 (proj2 (judge_from staged now (Lines cfg) (∅, [])))). Qed.

(** ** The lines of a county *)

Definition answer (usable : gmap string BurnReading) (l : BurnLine) : BurnDay :=
  match usable !! l_ID l with Some r => burnDayProto (Burn.Status r) | None => BURN_DAY_UNKNOWN end.

Lemma merge_cons y m g u l lines :
  merge_from y m g u (l :: lines) = match answer u l with
    | BURN_DAY_NO => BURN_DAY_NO
    | BURN_DAY_MARGINAL => merge_from y true g u lines
    | BURN_DAY_YES => merge_from true m g u lines
    | BURN_DAY_UNKNOWN => merge_from y m (g || Dialed l) u lines
    end.
Proof. cbn [merge_from]. unfold answer. by destruct (u !! l_ID l). Qed.

(** The loop in closed form. *)
Definition on (usable : gmap string BurnReading) (d : BurnDay) (l : BurnLine) : bool := bool_decide (answer usable l = d).
Definition missing (usable : gmap string BurnReading) (l : BurnLine) : bool := Dialed l && on usable BURN_DAY_UNKNOWN l.

Lemma merge_closed y m g u lines :
  merge_from y m g u lines
  = if existsb (on u BURN_DAY_NO) lines then BURN_DAY_NO
    else if m || existsb (on u BURN_DAY_MARGINAL) lines then BURN_DAY_MARGINAL
    else if (y || existsb (on u BURN_DAY_YES) lines) && negb (g || existsb (missing u) lines) then BURN_DAY_YES
    else BURN_DAY_UNKNOWN.
Proof.
  revert y m g. induction lines as [|l lines IH]; intros y m g; [by destruct y, m, g|]. rewrite merge_cons. cbn [existsb].
  assert (Ho : forall d, on u d l = bool_decide (answer u l = d)) by done. unfold missing at 1. rewrite !Ho.
  destruct (answer u l); rewrite ?IH, ?bool_decide_true by done; rewrite ?bool_decide_false by done;
    cbn [orb]; rewrite ?orb_true_r, ?andb_false_r, ?andb_true_r; cbn [orb]; rewrite ?orb_assoc; done.
Qed.

Definition says (usable : gmap string BurnReading) (l : BurnLine) (d : BurnDay) : Prop :=
  exists r, usable !! l_ID l = Some r /\ burnDayProto (Burn.Status r) = d.

Lemma says_answer u l d : d <> BURN_DAY_UNKNOWN -> says u l d <-> answer u l = d.
Proof. intros Hd. unfold says, answer. destruct (u !! l_ID l) as [r|]; naive_solver. Qed.

Lemma exists_on u d lines : existsb (on u d) lines = true <-> exists l, l ∈ lines /\ answer u l = d.
Proof.
  rewrite existsb_exists. unfold on. split; intros (l & Hl & He); exists l.
  - split; [by apply list_elem_of_In|by apply bool_decide_eq_true in He].
  - split; [by apply list_elem_of_In|by apply bool_decide_eq_true].
Qed.

Lemma not_exists_on u d lines : existsb (on u d) lines = false <-> forall l, l ∈ lines -> answer u l <> d.
Proof. rewrite <-not_true_iff_false, exists_on. naive_solver. Qed.

Lemma none_missing u lines : existsb (missing u) lines = false <-> forall l, l ∈ lines -> Dialed l = true -> answer u l <> BURN_DAY_UNKNOWN.
Proof.
  rewrite <-not_true_iff_false, existsb_exists. unfold missing, on. split.
  - intros Hn l Hl Hd Ha. apply Hn. exists l. rewrite Hd, bool_decide_true by done. split; [by apply list_elem_of_In|done].
  - intros Ha (l & Hl & [Hd He%bool_decide_eq_true]%andb_true_iff). apply (Ha l); [by apply list_elem_of_In|done..].
Qed.

(** When a county's lines come to no, and to yes. *)
Lemma merge_no u lines : mergeBurnDays lines u = BURN_DAY_NO <-> exists l, l ∈ lines /\ answer u l = BURN_DAY_NO.
Proof.
  unfold mergeBurnDays. rewrite merge_closed, <-exists_on. destruct (existsb (on u BURN_DAY_NO) lines); [done|]. cbn [orb].
  by destruct (existsb (on u BURN_DAY_MARGINAL) lines), (existsb (on u BURN_DAY_YES) lines), (existsb (missing u) lines).
Qed.

Lemma merge_yes u lines :
  mergeBurnDays lines u = BURN_DAY_YES
  <-> (exists l, l ∈ lines /\ answer u l = BURN_DAY_YES)
      /\ forall l, l ∈ lines -> answer u l <> BURN_DAY_NO /\ answer u l <> BURN_DAY_MARGINAL /\ (Dialed l = true -> answer u l = BURN_DAY_YES).
Proof.
  unfold mergeBurnDays. rewrite merge_closed. cbn [orb]. split.
  - destruct (existsb (on u BURN_DAY_NO) lines) eqn:E1; [done|]. destruct (existsb (on u BURN_DAY_MARGINAL) lines) eqn:E2; [done|].
    destruct (existsb (on u BURN_DAY_YES) lines) eqn:E3; [|done]. destruct (existsb (missing u) lines) eqn:E4; [done|]. intros _.
    split; [by apply exists_on|]. intros l Hl. split_and!; [by apply (proj1 (not_exists_on _ _ _) E1)|by apply (proj1 (not_exists_on _ _ _) E2)|].
    intros Hd. pose proof (proj1 (not_exists_on _ _ _) E1 l Hl). pose proof (proj1 (not_exists_on _ _ _) E2 l Hl).
    pose proof (proj1 (none_missing _ _) E4 l Hl Hd). by destruct (answer u l).
  - intros [Hy Ha]. rewrite (proj2 (not_exists_on u BURN_DAY_NO lines)) by (intros l Hl; apply (Ha l Hl)).
    rewrite (proj2 (not_exists_on u BURN_DAY_MARGINAL lines)) by (intros l Hl; apply (Ha l Hl)).
    rewrite (proj2 (exists_on u BURN_DAY_YES lines)) by done. rewrite (proj2 (none_missing u lines)); [done|].
    intros l Hl Hd. by rewrite (proj2 (proj2 (Ha l Hl)) Hd).
Qed.

Lemma merge_marginal u lines :
  mergeBurnDays lines u = BURN_DAY_MARGINAL
  <-> (exists l, l ∈ lines /\ answer u l = BURN_DAY_MARGINAL) /\ forall l, l ∈ lines -> answer u l <> BURN_DAY_NO.
Proof.
  unfold mergeBurnDays. rewrite merge_closed, <-exists_on, <-not_exists_on. cbn [orb].
  destruct (existsb (on u BURN_DAY_NO) lines); [by split; [|intros [_ ?]]|].
  destruct (existsb (on u BURN_DAY_MARGINAL) lines); [done|]. split; [|by intros [? _]]. by repeat case_match.
Qed.

Lemma permission_spec day st :
  (derivePermission day st = BURN_PERMISSION_ALLOWED <->
     day = BURN_DAY_YES /\ (st = CALFIRE_PERMIT_REQUIRED \/ st = CALFIRE_NO_PERMIT_REQUIRED))
  /\ (derivePermission day st = BURN_PERMISSION_PROHIBITED <-> day = BURN_DAY_NO \/ st = CALFIRE_BURNING_SUSPENDED).
Proof. by destruct day, st; cbn; naive_solver. Qed.

(** ** The poll *)

Lemma build_all_spec (build : BurnCounty -> string + Event) cs :
  match build_all build cs with
  | inr evs => Forall2 (fun c ev => build c = inr ev) cs evs
  | inl e => exists c, c ∈ cs /\ build c = inl e
  end.
Proof.
  induction cs as [|c cs IH]; cbn; [constructor|]. destruct (build c) as [e|ev] eqn:E; [exists c; split; [by left|done]|].
  destruct (build_all build cs) as [e|evs]; [|by constructor]. destruct IH as (c' & ? & ?). exists c'. split; [by right|done].
Qed.

Variables (places : string -> string + list string) (calfire : string + gmap string CountyStatus)
  (push : option Push.Registry) (prior : Prior) (now : Time).
Definition rows_of : option (gmap string CountyStatus) := match calfire with inl _ => None | inr rows => Some rows end.
Definition facet (c : BurnCounty) : CalfireFacet := calfire_facet c rows_of prior now.

(** The errors of the two sources. *)
Definition base_errors (staged : gmap string BurnReading) : gmap string string :=
  let errs := sort_strings (judge cfg staged now).2 in
  let m : gmap string string := match calfire with inl e => {[ calfireBurnSourceID := e ]} | inr _ => ∅ end in
  if (0 <? length errs)%nat then <[burnLineSourceID := "burn line: " +:+ join "; " errs]> m else m.

(** A poll that succeeds: its events are those of the counties. *)
Lemma poll_events readings res :
  Poll cfg places calfire readings push prior now = inr res ->
  exists staged, readings = inr staged
  /\ Forall2 (fun c ev => exists ids, places (c_Place c) = inr ids /\ ev = burn_event cfg c (judge cfg staged now).1 (facet c) ids now)
       (Counties cfg) (Events res)
  /\ ForceWrite res = Id <$> Events res
  /\ PerSource res = foldl set_error (base_errors staged) (reporterHealth push now).
Proof.
  unfold Poll. destruct (Counties cfg) as [|c0 cs]; [done|]. destruct readings as [e|staged]; [done|]. intros H. exists staged. split; [done|].
  unfold base_errors. destruct (judge cfg staged now) as [usable errs]. cbn [fst snd].
  set (per := if (0 <? _)%nat then _ else _) in H.
  assert (Hf : match build_all (fun c => buildEvent cfg places c rows_of usable now prior) (c0 :: cs) with
    | inl e => inl e
    | inr events => inr (mkPollResult events (foldl set_error per (reporterHealth push now)) [] [] [] [] [] [] (Id <$> events) false)
    end = inr res).
  { unfold rows_of. destruct calfire as [e|rows]; [|exact H]. destruct (_ && _); [done|]. destruct (Nat.eqb _ 0); [done|exact H]. }
  clear H. pose proof (build_all_spec (fun c => buildEvent cfg places c rows_of usable now prior) (c0 :: cs)) as Hb.
  destruct (build_all _ _) as [|evs]; [done|]. injection Hf as <-. cbn [Events ForceWrite PerSource]. split; [|by split].
  eapply Forall2_impl; [exact Hb|]. intros c ev. cbn beta. unfold buildEvent. destruct (places (c_Place c)) as [|ids]; [done|]. intros [= <-].
  by exists ids.
Qed.

Lemma lines_config c l : l ∈ LinesForCounty cfg (c_Place c) -> l ∈ Lines cfg.
Proof. unfold LinesForCounty. by intros [_ ?]%list_elem_of_filter. Qed.

Lemma says_told staged l d : l ∈ Lines cfg -> says (judge cfg staged now).1 l d <-> told staged now l d.
Proof. intros Hl. unfold says, told. by rewrite judge_usable. Qed.

Lemma poll_event staged res i c :
  Poll cfg places calfire (inr staged) push prior now = inr res -> Counties cfg !! i = Some c ->
  exists ids, places (c_Place c) = inr ids /\ Events res !! i = Some (burn_event cfg c (judge cfg staged now).1 (facet c) ids now).
Proof.
  intros H Hc. apply poll_events in H as (? & [= <-] & Hev & _). destruct (Forall2_lookup_l _ _ _ _ _ Hev Hc) as (ev & Hi & ids & Hp & ->).
  by exists ids.
Qed.

(** C13: Someone acts on this holding a match. The event of a county says ALLOWED
    exactly when some line that speaks for it was read in time and says yes, none
    says no or restricted, every line that is dialed for it was read in time and
    says yes, and CAL FIRE asks for a permit or none; it says PROHIBITED exactly
    when a line says no or CAL FIRE has suspended burning. A marginal day is a line
    that says restricted while none says no; it is PROHIBITED only by a suspension
    and UNKNOWN otherwise, where grid.proto counts it among what prohibits. *)
Theorem allowed_heard staged res i c :
  let lines := LinesForCounty cfg (c_Place c) in
  Poll cfg places calfire (inr staged) push prior now = inr res -> Counties cfg !! i = Some c ->
  exists ev d, Events res !! i = Some ev /\ Id ev = burnEventID c /\ Grid.GetBurnStatus ev = Some d /\ calfire_status d = f_status (facet c)
  /\ (permission d = BURN_PERMISSION_ALLOWED <->
        (exists l, l ∈ lines /\ told staged now l BURN_DAY_YES)
        /\ (forall l, l ∈ lines ->
              ~ told staged now l BURN_DAY_NO /\ ~ told staged now l BURN_DAY_MARGINAL /\ (Dialed l = true -> told staged now l BURN_DAY_YES))
        /\ (f_status (facet c) = CALFIRE_PERMIT_REQUIRED \/ f_status (facet c) = CALFIRE_NO_PERMIT_REQUIRED))
  /\ (permission d = BURN_PERMISSION_PROHIBITED <->
        (exists l, l ∈ lines /\ told staged now l BURN_DAY_NO) \/ f_status (facet c) = CALFIRE_BURNING_SUSPENDED)
  /\ (burn_day d = BURN_DAY_MARGINAL <->
        (exists l, l ∈ lines /\ told staged now l BURN_DAY_MARGINAL) /\ forall l, l ∈ lines -> ~ told staged now l BURN_DAY_NO)
  /\ (burn_day d = BURN_DAY_MARGINAL -> f_status (facet c) <> CALFIRE_BURNING_SUSPENDED -> permission d = BURN_PERMISSION_UNKNOWN).
Proof.
  intros lines H Hc. destruct (poll_event _ _ _ _ H Hc) as (ids & _ & Hi).
  eexists _, _. split; [exact Hi|]. split; [done|]. split; [reflexivity|]. split; [reflexivity|].
  unfold burn_detail. cbn [permission burn_day]. fold lines.
  set (u := (judge cfg staged now).1). set (day := mergeBurnDays lines u).
  destruct (permission_spec day (f_status (facet c))) as [-> ->].
  assert (Ht : forall d, d <> BURN_DAY_UNKNOWN -> forall l, l ∈ lines -> answer u l = d <-> told staged now l d).
  { intros d Hd l Hl. rewrite <-says_answer by done. apply says_told. by eapply lines_config. }
  assert (He : forall d, d <> BURN_DAY_UNKNOWN -> (exists l, l ∈ lines /\ answer u l = d) <-> exists l, l ∈ lines /\ told staged now l d).
  { intros d Hd. split; intros (l & Hl & Ha); exists l; (split; [done|]); by apply Ht. }
  split_and!; [| | |by intros ->; destruct (f_status (facet c))].
  - assert (Ha : (forall l, l ∈ lines -> answer u l <> BURN_DAY_NO /\ answer u l <> BURN_DAY_MARGINAL /\ (Dialed l = true -> answer u l = BURN_DAY_YES))
      <-> forall l, l ∈ lines -> ~ told staged now l BURN_DAY_NO /\ ~ told staged now l BURN_DAY_MARGINAL /\ (Dialed l = true -> told staged now l BURN_DAY_YES)).
    { split; intros Ha l Hl; specialize (Ha l Hl); by rewrite !Ht in *. }
    unfold day. rewrite merge_yes, He, Ha by done. tauto.
  - unfold day. by rewrite merge_no, He.
  - assert (Ha : (forall l, l ∈ lines -> answer u l <> BURN_DAY_NO) <-> forall l, l ∈ lines -> ~ told staged now l BURN_DAY_NO).
    { split; intros Ha l Hl; specialize (Ha l Hl); by rewrite !Ht in *. }
    unfold day. by rewrite merge_marginal, He, Ha.
Qed.

(** ** A source that fails *)

Definition unheard (staged : gmap string BurnReading) (l : BurnLine) : Prop := Dialed l = true /\ fresh staged now (l_ID l) = None.

Lemma heard_none staged :
  length (judge cfg staged now).2 = length (EnabledLines cfg) <-> forall l, l ∈ Lines cfg -> Dialed l = true -> fresh staged now (l_ID l) = None.
Proof.
  rewrite judge_errors. unfold EnabledLines. induction (Lines cfg) as [|l lines IH]; [split; [by intros _ l ?%elem_of_nil|done]|].
  assert (Hle : (length (filter (fun l => Dialed l = true /\ fresh staged now (l_ID l) = None) lines) <= length (filter (fun l => Dialed l = true) lines))%nat).
  { clear IH. induction lines as [|k lines IH]; [done|]. rewrite !filter_cons. destruct (decide _) as [[Hd Hn]|Hn].
    - rewrite decide_True by done. rewrite !length_cons. lia.
    - destruct (decide _); rewrite ?length_cons; lia. }
  rewrite !filter_cons. destruct (decide _) as [[Hd Hf]|Hn].
  - rewrite decide_True by done. rewrite !length_cons. split.
    + intros [= He] k [->|Hk]%elem_of_cons; [done|]. by apply IH.
    + intros Ha. f_equal. apply IH. intros k Hk. apply Ha. by right.
  - destruct (decide (Dialed l = true)) as [Hd|Hd].
    + rewrite length_cons. split; [lia|]. intros Ha. exfalso. apply Hn. split; [done|]. apply Ha; [by left|done].
    + rewrite IH. split; intros Ha k; [intros [->|Hk]%elem_of_cons Hdk; [done|by apply Ha]|intros Hk; apply Ha; by right].
Qed.

Lemma set_errors_other (m : gmap string string) l k : k ∉ l.*1 -> foldl set_error m l !! k = m !! k.
Proof.
  revert m. induction l as [|[i e] l IH]; intros m Hk; [done|]. cbn in *. rewrite not_elem_of_cons in Hk. destruct Hk as [Hne Hk].
  rewrite IH by done. unfold set_error. by rewrite lookup_partial_alter_ne.
Qed.

Lemma reporter_names : (reporterHealth push now).*1 = match push with Some r => Push.ReporterIDs r Push.BurnStream | None => [] end.
Proof.
  unfold reporterHealth, Push.Health, Push.ReporterIDs. destruct push as [r|]; [|done]. rewrite <-!list_fmap_compose. done.
Qed.

(** A poll fails only where its events would say nothing: no county is
    configured, the staged readings cannot be read, or CAL FIRE's page fails while
    no dialed line was heard in time, or a county's places cannot be looked up.
    Otherwise each county has its event; a page that failed degrades its own
    source and leaves the stored status in place, and the burn-line source is
    degraded exactly when a dialed line was not heard in time. *)
Theorem burn_kept readings :
  ((exists e, Poll cfg places calfire readings push prior now = inl e) <->
     Counties cfg = [] \/ (exists e, readings = inl e)
     \/ (rows_of = None /\ forall staged, readings = inr staged -> forall l, l ∈ Lines cfg -> Dialed l = true -> fresh staged now (l_ID l) = None)
     \/ exists c e, c ∈ Counties cfg /\ places (c_Place c) = inl e)
  /\ forall staged res, readings = inr staged -> Poll cfg places calfire readings push prior now = inr res ->
       (Id <$> Events res) = (burnEventID <$> Counties cfg)
       /\ ((forall r, push = Some r -> calfireBurnSourceID ∉ Push.ReporterIDs r Push.BurnStream /\ burnLineSourceID ∉ Push.ReporterIDs r Push.BurnStream) ->
           PerSource res !! calfireBurnSourceID = match calfire with inl e => Some e | inr _ => None end
           /\ (is_Some (PerSource res !! burnLineSourceID) <-> exists l, l ∈ Lines cfg /\ unheard staged l))
       /\ (rows_of = None -> forall c pd, ByID prior (burnEventID c) ≫= Grid.GetBurnStatus = Some pd -> f_status (facet c) = calfire_status pd).
Proof.
  split.
  - unfold Poll. destruct (Counties cfg) as [|c0 cs] eqn:Hcs; [naive_solver|]. destruct readings as [e|staged]; [naive_solver|].
    destruct (judge cfg staged now) as [usable errs] eqn:Hj. pose proof (heard_none staged) as Hn. rewrite Hj in Hn. cbn [snd] in Hn.
    set (per := if (0 <? _)%nat then _ else _). rewrite (Permutation_length (sort_strings_perm errs)).
    assert (Hfin : forall rows, (exists e, match build_all (fun c => buildEvent cfg places c rows usable now prior) (c0 :: cs) with
      | inl e => inl e
      | inr events => inr (mkPollResult events (foldl set_error per (reporterHealth push now)) [] [] [] [] [] [] (Id <$> events) false)
      end = inl e) <-> exists c e, c ∈ c0 :: cs /\ places (c_Place c) = inl e).
    { intros rows. pose proof (build_all_spec (fun c => buildEvent cfg places c rows usable now prior) (c0 :: cs)) as Hb.
      destruct (build_all _ _) as [e|evs].
      - split; [|by eexists]. intros _. destruct Hb as (c & Hc & Hb). unfold buildEvent in Hb. destruct (places (c_Place c)) as [e'|] eqn:E; [|done]. by exists c, e'.
      - split; [naive_solver|]. intros (c & e & Hc & Hp). exfalso. apply list_elem_of_lookup in Hc as [i Hi].
        destruct (Forall2_lookup_l _ _ _ _ _ Hb Hi) as (ev & _ & He). unfold buildEvent in He. by rewrite Hp in He. }
    unfold rows_of. destruct calfire as [e|rows]; [|rewrite Hfin; split; [intros Hx; by do 3 right|by intros [?|[[??]|[[??]|?]]]]].
    destruct ((0 <? _)%nat && _) eqn:E1.
    + apply andb_true_iff in E1 as [_ E1%Nat.eqb_eq]. split; [|by eexists]. intros _. right. right. left. split; [done|]. intros ? [= <-]. by apply Hn.
    + destruct (Nat.eqb_spec (length (EnabledLines cfg)) 0) as [E2|E2].
      * split; [|by eexists]. intros _. right. right. left. split; [done|]. intros ? [= <-] l Hl Hd. exfalso.
        apply nil_length_inv in E2. assert (Hin : l ∈ EnabledLines cfg) by (apply list_elem_of_filter; by split). rewrite E2 in Hin. by apply elem_of_nil in Hin.
      * rewrite Hfin. split; [intros Hx; by do 3 right|]. intros [?|[[??]|[[_ Ha]|?]]]; [done|done| |done]. exfalso.
        apply andb_false_iff in E1 as [E1%Nat.ltb_ge|E1%Nat.eqb_neq]; [lia|]. apply E1, Hn. by apply Ha.
  - intros staged res -> H. split; [|split].
    + destruct (poll_events _ _ H) as (? & _ & Hev & _). clear H. induction Hev as [|c ev cs evs (ids & _ & ->) _ IH]; [done|].
      rewrite !fmap_cons. f_equal. exact IH.
    + intros Hnames. destruct (poll_events _ _ H) as (? & [= <-] & _ & _ & ->).
      assert (Hout : calfireBurnSourceID ∉ (reporterHealth push now).*1 /\ burnLineSourceID ∉ (reporterHealth push now).*1).
      { rewrite reporter_names. destruct push as [r|]; [by apply Hnames|]. split; apply not_elem_of_nil. }
      rewrite !set_errors_other by apply Hout. unfold base_errors. rewrite (Permutation_length (sort_strings_perm _)), judge_errors. split.
      * destruct (0 <? _)%nat; [rewrite lookup_insert_ne by done|]; by destruct calfire; simplify_map_eq.
      * destruct (Nat.ltb_spec 0 (length (filter (fun l => Dialed l = true /\ fresh staged now (l_ID l) = None) (Lines cfg)))) as [Hl|Hl].
        -- rewrite lookup_insert_eq. split; [intros _|by eexists]. destruct (filter _ _) as [|l ls] eqn:E; [cbn in Hl; lia|].
           assert (Hin : l ∈ l :: ls) by left. rewrite <-E in Hin. apply list_elem_of_filter in Hin as [Hu Hin]. by exists l.
        -- split; [by destruct calfire; intros [? Hx]; simplify_map_eq|]. intros (l & Hin & Hu). exfalso.
           assert (Hf : l ∈ filter (fun l => Dialed l = true /\ fresh staged now (l_ID l) = None) (Lines cfg)) by by apply list_elem_of_filter.
           destruct (filter _ _); [by apply elem_of_nil in Hf|cbn in Hl; lia].
    + intros Hr c pd Hp. unfold facet, calfire_facet, fetched_facet. rewrite Hr. cbn [mbind option_bind f_status no_facet].
      rewrite bool_decide_true by done. rewrite Hp. by case_bool_decide.
Qed.

(** ** Revisions *)

Lemma merge_answers u u' lines y m g :
  (forall l, l ∈ lines -> answer u l = answer u' l) -> merge_from y m g u lines = merge_from y m g u' lines.
Proof.
  revert y m g. induction lines as [|l lines IH]; intros y m g Ha; [done|]. rewrite !merge_cons, (Ha l) by by left.
  assert (Hr : forall y m g, merge_from y m g u lines = merge_from y m g u' lines).
  { intros ? ? ?. apply IH. intros k Hk. apply Ha. by right. }
  destruct (answer u' l); [apply Hr|apply Hr|done|apply Hr].
Qed.

Lemma reading_answer u l : bl_burn_day (line_reading u l) = answer u l.
Proof. unfold line_reading, answer. by destruct (u !! l_ID l). Qed.

(** A line as the content hash sees it. *)
Definition quiet_reading (l : BurnLineReading) : BurnLineReading := mkBurnLineReading (bl_id l) (bl_name l) (phone l) (bl_burn_day l) None.

Lemma readings_equal u u' (lines : list BurnLine) :
  map quiet_reading (line_reading u <$> lines) = map quiet_reading (line_reading u' <$> lines) <-> forall l, l ∈ lines -> answer u l = answer u' l.
Proof.
  induction lines as [|l lines IH]; [split; [by intros _ l ?%elem_of_nil|done]|]. rewrite !fmap_cons. cbn [map]. split.
  - intros Hl. injection Hl as _ _ _ Hd Hl. intros k [->|Hk]%elem_of_cons; [by rewrite !reading_answer in Hd|by apply IH].
  - intros Ha. f_equal; [|apply IH; intros k Hk; apply Ha; by right]. unfold quiet_reading. rewrite !reading_answer, (Ha l) by by left.
    unfold line_reading. by destruct (u !! l_ID l), (u' !! l_ID l).
Qed.

(** What the content hash covers of an event is its answers. *)
Lemma normalize_answers c u u' f f' ids ids' now1 now2 :
  Store.normalize (burn_event cfg c u f ids now1) = Store.normalize (burn_event cfg c u' f' ids' now2)
  <-> (forall l, l ∈ LinesForCounty cfg (c_Place c) -> answer u l = answer u' l)
      /\ f_status f = f_status f' /\ f_area f = f_area f' /\ f_effective f = f_effective f'.
Proof.
  rewrite <-readings_equal. split.
  - intros H. apply (f_equal detail) in H. unfold Store.normalize in H. cbn [detail burn_event fmap option_fmap option_map Store.zero_detail burn_detail] in H.
    injection H as _ Hs _ He Ha Hl. by split_and!.
  - intros (Hl & Hs & Ha & He). unfold Store.normalize, burn_event, burn_detail.
    cbn [detail fmap option_fmap option_map Store.zero_detail burn_day calfire_status permission calfire_effective calfire_area burn_lines
      Id layer category severity status headline description area_label canonical_url geometry provenance effective expires].
    fold quiet_reading. rewrite Hl, Hs, Ha, He. unfold mergeBurnDays. rewrite (merge_answers u u') by (by apply readings_equal).
    by destruct (countyIsDialed _).
Qed.
End Spec.

(** C29: The history of a county records the changes of its answers and nothing
    else: the events of two polls have the same content, so that no revision is
    made, exactly when each of its lines answers the same (what was not heard in
    time answers unknown) and CAL FIRE's status, area and date are the same. A
    newer reading, another wording of it, a later page, other places, another
    stamp change nothing. *)
Theorem burn_revises `{UnicodeLower} `{PowerText} `{Wording} cfg places calfire staged push prior now res places' calfire' staged' push' prior' now' res' i c ev ev' :
  Poll cfg places calfire (inr staged) push prior now = inr res ->
  Poll cfg places' calfire' (inr staged') push' prior' now' = inr res' ->
  Counties cfg !! i = Some c -> Events res !! i = Some ev -> Events res' !! i = Some ev' ->
  let told_day staged now l := default BURN_DAY_UNKNOWN ((fun r => burnDayProto (Burn.Status r)) <$> fresh cfg staged now (l_ID l)) in
  let f := facet calfire prior now c in let f' := facet calfire' prior' now' c in
  Store.normalize ev = Store.normalize ev'
  <-> (forall l, l ∈ LinesForCounty cfg (c_Place c) -> told_day staged now l = told_day staged' now' l)
      /\ f_status f = f_status f' /\ f_area f = f_area f' /\ f_effective f = f_effective f'.
Proof.
  intros P1 P2 Hc He He'. cbn zeta. destruct (poll_event _ _ _ _ _ _ _ _ _ _ P1 Hc) as (ids & _ & Hi). destruct (poll_event _ _ _ _ _ _ _ _ _ _ P2 Hc) as (ids' & _ & Hi').
  rewrite He in Hi. injection Hi as ->. rewrite He' in Hi'. injection Hi' as ->. rewrite normalize_answers.
  assert (Ha : forall staged now l, l ∈ LinesForCounty cfg (c_Place c) -> answer (judge cfg staged now).1 l
    = default BURN_DAY_UNKNOWN ((fun r => burnDayProto (Burn.Status r)) <$> fresh cfg staged now (l_ID l))).
  { intros sg nw l Hl. unfold answer. rewrite judge_usable by (by eapply lines_config). by destruct (fresh _ _ _ _). }
  split; intros (Hl & Hr); (split; [|exact Hr]); intros l Hin; specialize (Hl l Hin); by rewrite !Ha in * by done.
Qed.

(** ** The page *)

Lemma last_row `{UnicodeLower} `{PageText} rows pre post c0 c1 rest out :
  rows = pre ++ (c0 :: c1 :: rest) :: post ->
  county_name c0 <> "" -> EqualFold (county_name c0) "County" = false ->
  (forall d0 cells, (d0 :: cells) ∈ post -> ToLower (county_name d0) <> ToLower (county_name c0)) ->
  exists row, foldl add_row out rows !! ToLower (county_name c0) = Some row /\ cs_Status row = Calfireburn.parseStatus c1.
Proof.
  intros -> Hne Hf Hpost. rewrite foldl_app. cbn [foldl]. set (m := add_row (foldl add_row out pre) _).
  assert (Hm : exists row, m !! ToLower (county_name c0) = Some row /\ cs_Status row = Calfireburn.parseStatus c1).
  { unfold m, add_row. destruct (String.eqb_spec (county_name c0) ""); [done|]. rewrite Hf. cbn [orb]. rewrite lookup_insert_eq. by eexists. }
  clearbody m. revert m Hm. induction post as [|cells post IH]; intros m Hm; [done|]. cbn [foldl]. apply IH.
  { intros d0 ds Hin. apply (Hpost d0 ds). by right. }
  destruct Hm as (row & Hr & Hs). exists row. split; [|done]. unfold add_row. destruct cells as [|d0 [|d1 ds]]; [done|done|].
  destruct (_ || _); [done|]. rewrite lookup_insert_ne; [done|]. apply (Hpost d0 (d1 :: ds)). by left.
Qed.

(** A suspension on CAL FIRE's page is a prohibition, whatever the lines say. If
    the page parses to a table in which the last row of a county says, in any
    case and spacing, that burning is suspended, then the event of that county
    says PROHIBITED; and a page without a table row is an error, never a table
    without suspensions. *)
Theorem suspension_prohibits `{UnicodeLower} `{PowerText} `{Wording} `{PageText} cfg places body doc pre post c0 c1 rest staged push prior now res i c :
  Calfireburn.parse_html (limit Calfireburn.maxBody body) = inr doc ->
  (tableRows doc = [] -> exists e, GetBurnStatus (Reply 200 body) = inl e)
  /\ (tableRows doc = pre ++ (c0 :: c1 :: rest) :: post ->
      county_name c0 <> "" -> EqualFold (county_name c0) "County" = false ->
      (forall d0 cells, (d0 :: cells) ∈ post -> ToLower (county_name d0) <> ToLower (county_name c0)) ->
      Text.Contains (ToLower (join " " (Fields c1))) "suspend" = true ->
      Poll cfg places (GetBurnStatus (Reply 200 body)) (inr staged) push prior now = inr res ->
      Counties cfg !! i = Some c -> countyKey c = ToLower (county_name c0) ->
      exists ev d, Events res !! i = Some ev /\ Grid.GetBurnStatus ev = Some d /\ permission d = BURN_PERMISSION_PROHIBITED).
Proof.
  intros Hdoc. split.
  - intros Hrows. unfold GetBurnStatus. cbn. rewrite Hdoc, Hrows. by eexists.
  - intros Hrows Hne Hf Hpost Hsus Hpoll Hc Hkey.
    destruct (last_row _ pre post c0 c1 rest ∅ Hrows Hne Hf Hpost) as (row & Hrow & Hst).
    assert (Hget : GetBurnStatus (Reply 200 body) = inr (foldl add_row ∅ (tableRows doc))).
    { unfold GetBurnStatus. cbn [negb Z.eqb]. change (200 =? 200)%Z with true. cbn [negb]. rewrite Hdoc.
      destruct (tableRows doc) as [|r rs] eqn:E; [by destruct pre|]. rewrite bool_decide_false; [done|].
      intros Hempty. rewrite Hempty in Hrow. by rewrite lookup_empty in Hrow. }
    rewrite Hget in Hpoll. destruct (poll_event _ _ _ _ _ _ _ _ _ _ Hpoll Hc) as (ids & _ & Hi).
    eexists _, _. split; [exact Hi|]. split; [reflexivity|]. cbn [permission burn_detail]. unfold burn_detail. cbn [permission].
    apply permission_spec. right. unfold facet, rows_of, calfire_facet, fetched_facet.
    cbn [mbind option_bind]. rewrite Hkey, Hrow. unfold Calfireburn.parseStatus in Hst. rewrite Hsus in Hst. by rewrite Hst.
Qed.

(** ** Two counties *)

Module BurnDemo.
Import Calfireburn (Element, TextNode, Node).

#[local] Existing Instance ascii_only.
#[local] Instance words : Wording := {| Network.rfc3339 _ := "then"; Network.state_text _ := "STALE"; Network.reason_text _ := ""; Network.problem_text _ := "" |}.
#[local] Instance texts : PowerText :=
  {| Power.rfc3339_text _ := ""; Power.age_text _ := "long"; Power.duration_text _ := "limit"; Power.time_text _ := "" |}.

(** A line that is dialed for both counties, and one that is only published. *)
Definition apcd : BurnLine := mkBurnLine "Calaveras-APCD" "APCD" "209" ["calaveras-county"; "Alpine-County"] true.
Definition other : BurnLine := mkBurnLine "other" "Other" "" ["alpine-county"] false.
Definition calaveras : BurnCounty := mkBurnCounty "calaveras-county" "Calaveras County".
Definition alpine : BurnCounty := mkBurnCounty "alpine-county" "Alpine County".
Definition config : BurnConfig := mkBurnConfig [calaveras; alpine] [apcd; other] 0.

Definition reading (at_ : Time) (status : string) : Burn.BurnReading := Burn.mkBurnReading "calaveras-apcd" status "Today" "" 90 at_ at_ "r".
Definition now : Time := 1000 * hour.
Definition staged (hours : Z) (status : string) : gmap string Burn.BurnReading := {[ "calaveras-apcd" := reading (hours * hour) status ]}.
Definition nobody : Prior := Scheduler.mkPrior ∅ ∅.
Definition where_ (place : string) : string + list string := inr ["county:" +:+ place].

(** A page whose table has a header and two counties. *)
Definition row (cells : list string) : Node := Element "tr" ((fun t => Element "td" [TextNode t]) <$> cells).
Definition page : Node :=
  Element "html" [Element "table" [row ["County"; "Status"]; row [" Calaveras County"; "Permit  Required"; "Effective, May 1, 2026"; "All SRA"];
                                   row ["Alpine"; "Burning SUSPENDED"]]].
#[local] Instance parser : PageText := {| Calfireburn.parse_html _ := inr page; Calfireburn.parse_pacific _ _ := None |}.
Definition fetched := GetBurnStatus (Reply 200 "").

Definition permissions (x : string + PollResult) : list (option (BurnDay * BurnPermission)) :=
  match x with inr res => (fun ev => (fun d => (burn_day d, permission d)) <$> Grid.GetBurnStatus ev) <$> Events res | inl _ => [] end.

Example answers :
  permissions (Poll config where_ fetched (inr (staged 990 " Green ")) None nobody now)
    = [Some (BURN_DAY_YES, BURN_PERMISSION_ALLOWED); Some (BURN_DAY_YES, BURN_PERMISSION_PROHIBITED)]
  /\ permissions (Poll config where_ fetched (inr (staged 900 "green")) None nobody now)
    = [Some (BURN_DAY_UNKNOWN, BURN_PERMISSION_UNKNOWN); Some (BURN_DAY_UNKNOWN, BURN_PERMISSION_PROHIBITED)].
Proof. by vm_compute. Qed.

Abbreviation poll hours status := (Poll config where_ fetched (inr (staged hours status)) None nobody now).
Definition result (x : string + PollResult) : PollResult :=
  match x with inr res => res | inl _ => mkPollResult [] ∅ [] [] [] [] [] [] [] false end.

Lemma allowed_heard_witness :
  exists ev d, Events (result (poll 990 "green")) !! 0%nat = Some ev /\ Grid.GetBurnStatus ev = Some d
  /\ (permission d = BURN_PERMISSION_ALLOWED -> told config (staged 990 "green") now apcd BURN_DAY_YES).
Proof.
  assert (Hp : poll 990 "green" = inr (result (poll 990 "green"))) by (vm_compute; reflexivity).
  destruct (allowed_heard config where_ fetched None nobody now (staged 990 "green") (result (poll 990 "green")) 0 calaveras Hp eq_refl)
    as (ev & d & Hev & _ & Hd & _ & Ha & _).
  exists ev, d. split; [exact Hev|]. split; [exact Hd|]. intros Hp'. apply (proj1 Ha Hp'); [|reflexivity].
  apply list_elem_of_filter. split; [vm_compute; reflexivity|]. left.
Defined.

(** A later reading with the same answer has the same content. *)
Lemma burn_revises_witness :
  Store.normalize <$> (Events (result (poll 990 "green")) !! 0%nat) = Store.normalize <$> (Events (result (poll 995 "GREEN")) !! 0%nat).
Proof.
  assert (H1 : poll 990 "green" = inr (result (poll 990 "green"))) by (vm_compute; reflexivity).
  assert (H2 : poll 995 "GREEN" = inr (result (poll 995 "GREEN"))) by (vm_compute; reflexivity).
  destruct (Events (result (poll 990 "green")) !! 0%nat) as [ev|] eqn:E1; [|vm_compute in E1; discriminate E1].
  destruct (Events (result (poll 995 "GREEN")) !! 0%nat) as [ev'|] eqn:E2; [|vm_compute in E2; discriminate E2].
  cbn [fmap option_fmap option_map]. f_equal.
  apply (burn_revises config where_ fetched (staged 990 "green") None nobody now _ where_ fetched (staged 995 "GREEN") None nobody now _
    0 calaveras ev ev' H1 H2 eq_refl E1 E2).
  split; [|by split_and!]. intros l [_ [->|[->|[]%elem_of_nil]%elem_of_cons]%elem_of_cons]%list_elem_of_filter; vm_compute; reflexivity.
Defined.

Lemma suspension_prohibits_witness :
  exists ev d, Events (result (poll 990 "green")) !! 1%nat = Some ev /\ Grid.GetBurnStatus ev = Some d /\ permission d = BURN_PERMISSION_PROHIBITED.
Proof.
  assert (Hp : poll 990 "green" = inr (result (poll 990 "green"))) by (vm_compute; reflexivity).
  refine (proj2 (suspension_prohibits config where_ "" page (take 2 (tableRows page)) [] "Alpine" "Burning SUSPENDED" [] (staged 990 "green") None nobody now _ 1 alpine eq_refl)
    _ _ _ _ _ Hp eq_refl _).
  - vm_compute. reflexivity.
  - vm_compute. discriminate.
  - vm_compute. reflexivity.
  - intros d0 cells Hin. destruct (not_elem_of_nil _ Hin).
  - vm_compute. reflexivity.
  - vm_compute. reflexivity.
Defined.

End BurnDemo.
End BurnStatusSpec.
