(* ===== verification/Closures.v ===== *)
(** * The lane closure feed

    [internal/ingest/lane_closure.go] over [internal/clients/cwwp2/client.go] and
    [laneclosure.go]: one poll turns the planned closure windows of some Caltrans
    districts into events. What the portal answers is a function of the address.
    [encoding/json], [strconv.ParseFloat], the layouts of [time.Parse] and the text
    of times are classes; one reading of the clock stands for those of a poll. *)

From Stdlib Require Import Ascii.
From stdpp Require Import pretty.
From S2P Require Import Prelude Float64 Geojson GridEvent GoText Scheduler Severity Feeds Power RelayPoll.

(** ** The portal *)

Module Cwwp2.
Import F64 Text Feeds.
Import Power (PowerText, rfc3339_text, age_text, duration_text).
Import RelayPoll (wrap).

Definition DefaultBaseURL : string := "https://cwwp2.dot.ca.gov/data".
Definition maxBody : Z := Z.shiftl 16 20.
Definition ErrEmptyFeed : string := "cwwp2: feed contains no records".
Definition ErrStaleFeed : string := "cwwp2: feed is stale".
Definition ErrNoRecordTime : string := "cwwp2: no parseable record timestamp".

Record Client := mkClient { BaseURL : string; StaleAfter : Duration }.

Record Location := mkLocation {
  District_ : string; Name : string; NearbyPlace : string; County : string; Route : string; Direction : string; Postmile : string;
  Latitude : float64; Longitude : float64; ElevationFt : float64; HasPosition : bool; FreeFormDesc : string }.

Record LaneClosure := mkLaneClosure {
  ID : string; District : Z; ClosureID : string; LogNumber : string; RecordedAt : Time;
  FlowDirection : string; Begin : Location; End_ : Location;
  RequestedAt : Time; Start : Time; EndTime : Time; EndIndefinite : bool;
  Facility : string; ClosureType : string; WorkType : string; Duration_ : string; EstimatedDelay : Z; LanesClosed : string;
  TotalLanes : Z; CHINReportable : bool;
  SetUpAt : Time; PickedUpAt : Time; CancelledAt : Time; SetUp : bool; PickedUp : bool; Cancelled : bool;
  Unrecognized : string }.

(** *** The file *)

Record Stamp := mkStamp { s_Date : string; s_Time : string; s_Epoch : string }.
(** One row as it is decoded; a radio code keeps its members raw, in the order the
    decoder ranges over them. *)
Record lcsRow := mkLcsRow {
  r_Index : string; r_Record : Stamp; r_Flow : string; r_Begin : gmap string string; r_End : gmap string string;
  r_ClosureID : string; r_LogNumber : string; r_Request : Stamp; r_Start : Stamp; r_EndStamp : Stamp; r_EndIndefinite : string;
  r_Facility : string; TypeOfClosure : string; TypeOfWork : string; DurationOfClosure : string; r_Delay : string;
  r_LanesClosed : string; TotalExistingLanes : string; IsCHINReportable : string;
  Code1097 : list (string * string); Code1098 : list (string * string); Code1022 : list (string * string) }.

(** The decoders of a file, of a raw string and of a raw object of strings; the
    value of [strconv.ParseFloat], whatever its error; [time.ParseInLocation] of the
    portal's layout in Pacific time. *)
Class PortalText := {
  decode_lcs : string -> string + list lcsRow;
  unmarshal_string : string -> option string;
  unmarshal_strings : string -> option (list (string * string));
  float_value : string -> float64;
  parse_pacific_local : string -> option Time }.

(** The address of a district's feed; the path has the bare number, the file a
    padded one. *)
Definition two_digits (n : Z) : string := if (0 <=? n) && (n <? 10) then "0" +:+ pretty n else pretty n.
Fixpoint trim_slashes (l : list ascii) : list ascii :=
  match l with
  | [] => []
  | c :: l => match trim_slashes l with
              | [] => if bool_decide (c = "/"%char) then [] else [c]
              | l => c :: l
              end
  end.
Definition FeedURL (c : Client) (district : Z) (feed prefix : string) : string :=
  let base := of_bytes (trim_slashes (bytes (BaseURL c))) in
  let base := if String.eqb base "" then DefaultBaseURL else base in
  base +:+ "/d" +:+ pretty district +:+ "/" +:+ feed +:+ "/" +:+ prefix +:+ "StatusD" +:+ two_digits district +:+ ".json".

Definition get (http : string -> Response) (url : string) : string + string :=
  match http url with
  | NoReply err => inl ("cwwp2: GET " +:+ url +:+ ": " +:+ err)
  | Reply status body =>
      if negb (status =? 200) then inl ("cwwp2: GET " +:+ url +:+ ": HTTP " +:+ pretty status)
      else inr (limit maxBody body)
  end.

(** [strconv.Atoi]: 0 for what is no number, the nearest [int] for what is out of
    range; with it whether there was an error. *)
Definition Atoi (s : string) : Z * bool :=
  let '(neg, digits) :=
    match bytes s with
    | c :: r => if N.eqb (code c) 45 then (true, r) else if N.eqb (code c) 43 then (false, r) else (false, c :: r)
    | [] => (false, [])
    end in
  if negb (forallb (fun c => is_digit (code c)) digits) || Nat.eqb (length digits) 0 then (0, false)
  else
    let n := foldl (fun n c => n * 10 + (Z.of_N (code c) - 48)) 0 digits in
    let n := if neg : bool then - n else n in
    if n <? min_int64 then (min_int64, false) else if max_int64 <? n then (max_int64, false) else (n, true).

Section Portal.
Context {UL : UnicodeLower} {PW : PowerText} {PT : PortalText}.

Definition checkFresh (c : Client) (now newest : Time) (rows : nat) : option string :=
  if (StaleAfter c <=? 0) || Nat.eqb rows 0 then None
  else if time_is_zero newest then Some ErrNoRecordTime
  else
    let age := time_sub now newest in
    if StaleAfter c <? age then
      Some (ErrStaleFeed +:+ ": newest record " +:+ rfc3339_text newest +:+ " is " +:+ age_text age +:+ " old (limit "
            +:+ duration_text (StaleAfter c) +:+ ")")
    else None.

Definition parseLocal (date clock : string) : Time :=
  let '(date, clock) := (TrimSpace date, TrimSpace clock) in
  if String.eqb date "" then time_zero
  else
    let clock := if String.eqb clock "" then "00:00:00" else clock in
    default time_zero (parse_pacific_local (date +:+ " " +:+ clock)).

(** [time.Unix] counts in an [int64] from the year one. *)
Definition parseEpoch (s : string) : Time :=
  let '(n, ok) := Atoi (TrimSpace s) in
  if negb ok || (n <=? 0) then time_zero else wrap 64 (n + epoch_seconds) * second.

Definition parseFloat (s : string) : float64 := float_value (TrimSpace s).
Definition parseBool (s : string) : bool := EqualFold (TrimSpace s) "true".

Definition newLocation (district name nearby lat lng elev dir county route pmPrefix pm freeForm : string) : Location :=
  let '(latitude, longitude) := (parseFloat lat, parseFloat lng) in
  mkLocation (TrimSpace district) (TrimSpace name) (TrimSpace nearby) (TrimSpace county) (TrimSpace route) (TrimSpace dir)
    (TrimSpace pmPrefix +:+ TrimSpace pm) latitude longitude (parseFloat elev)
    (negb (F64.eqb latitude zero) && negb (F64.eqb longitude zero)) (TrimSpace freeForm).

(** *** Radio codes *)

Record lcsCode := mkCode { Is : string; c_Date : string; c_Time : string; Ep : string }.

Definition code_time (c : lcsCode) (x : string * string) : lcsCode :=
  let '(k, v) := x in
  if HasSuffix k "Date" then mkCode (Is c) v (c_Time c) (Ep c)
  else if HasSuffix k "Time" then mkCode (Is c) (c_Date c) v (Ep c)
  else if HasSuffix k "Epoch" then mkCode (Is c) (c_Date c) (c_Time c) v
  else c.
Definition code_member (c : lcsCode) (x : string * string) : lcsCode :=
  let '(k, v) := x in
  if HasPrefix k "isCode" then match unmarshal_string v with Some s => mkCode s (c_Date c) (c_Time c) (Ep c) | None => c end
  else match unmarshal_strings v with Some ts => foldl code_time c ts | None => c end.
Definition code_of (members : list (string * string)) : lcsCode := foldl code_member (mkCode "" "" "" "") members.

(** The flag, and whether it can be read. *)
Definition called (c : lcsCode) : bool * bool :=
  let s := ToLower (TrimSpace (Is c)) in
  if String.eqb s "true" then (true, true) else if String.eqb s "false" then (false, true) else (false, false).

Definition pickTime (epoch date clock : string) : Time :=
  let t := parseEpoch epoch in if negb (time_is_zero t) then t else parseLocal date clock.
Definition code_at (c : lcsCode) : Time := pickTime (Ep c) (c_Date c) (c_Time c).
Definition stamp_time (s : Stamp) : Time := pickTime (s_Epoch s) (s_Date s) (s_Time s).

(** *** Windows *)

Definition endpointLocation (prefix : string) (m : gmap string string) : Location :=
  let g k := default "" (m !! (prefix +:+ k)) in
  newLocation (g "District") (g "LocationName") (g "NearbyPlace") (g "Latitude") (g "Longitude") (g "Elevation") (g "Direction")
    (g "County") (g "Route") (g "PostmilePrefix") (g "Postmile") (g "FreeFormDescription").

Definition unrecognizedReason (lc : LaneClosure) (codesOK : list bool) : string :=
  match filter (fun x => x.2 = false) (zip ["10-97"; "10-98"; "10-22"] codesOK) with
  | (c, _) :: _ => "unreadable " +:+ c +:+ " flag"
  | [] =>
      if String.eqb (ID lc) "" then "no index"
      else if time_is_zero (Start lc) then "no start time"
      else if negb (EndIndefinite lc) && time_is_zero (EndTime lc) then "no end time"
      else if negb (HasPosition (Begin lc)) && negb (HasPosition (End_ lc)) then "no position"
      else ""
  end.

Definition set_unrecognized (reason : string) (l : LaneClosure) : LaneClosure :=
  mkLaneClosure (ID l) (District l) (ClosureID l) (LogNumber l) (RecordedAt l) (FlowDirection l) (Begin l) (End_ l) (RequestedAt l)
    (Start l) (EndTime l) (EndIndefinite l) (Facility l) (ClosureType l) (WorkType l) (Duration_ l) (EstimatedDelay l)
    (LanesClosed l) (TotalLanes l) (CHINReportable l) (SetUpAt l) (PickedUpAt l) (CancelledAt l) (SetUp l) (PickedUp l)
    (Cancelled l) reason.
Definition set_district (d : Z) (l : LaneClosure) : LaneClosure :=
  mkLaneClosure (ID l) d (ClosureID l) (LogNumber l) (RecordedAt l) (FlowDirection l) (Begin l) (End_ l) (RequestedAt l)
    (Start l) (EndTime l) (EndIndefinite l) (Facility l) (ClosureType l) (WorkType l) (Duration_ l) (EstimatedDelay l)
    (LanesClosed l) (TotalLanes l) (CHINReportable l) (SetUpAt l) (PickedUpAt l) (CancelledAt l) (SetUp l) (PickedUp l)
    (Cancelled l) (Unrecognized l).

Definition window_of (r : lcsRow) : LaneClosure :=
  let '(up, picked, cancelled) := (code_of (Code1097 r), code_of (Code1098 r), code_of (Code1022 r)) in
  let indefinite := parseBool (r_EndIndefinite r) in
  let when c := if (called c).1 then code_at c else time_zero in
  let lc :=
    mkLaneClosure (TrimSpace (r_Index r)) 0 (TrimSpace (r_ClosureID r)) (TrimSpace (r_LogNumber r)) (stamp_time (r_Record r))
      (TrimSpace (r_Flow r)) (endpointLocation "begin" (r_Begin r)) (endpointLocation "end" (r_End r)) (stamp_time (r_Request r))
      (stamp_time (r_Start r)) (if indefinite then time_zero else stamp_time (r_EndStamp r)) indefinite
      (TrimSpace (r_Facility r)) (TrimSpace (TypeOfClosure r)) (TrimSpace (TypeOfWork r)) (TrimSpace (DurationOfClosure r))
      (Atoi (TrimSpace (r_Delay r))).1 (TrimSpace (r_LanesClosed r)) (Atoi (TrimSpace (TotalExistingLanes r))).1
      (parseBool (IsCHINReportable r)) (when up) (when picked) (when cancelled) (called up).1 (called picked).1 (called cancelled).1 "" in
  set_unrecognized (unrecognizedReason lc [(called up).2; (called picked).2; (called cancelled).2]) lc.

Definition ParseLaneClosures (body : string) : string + list LaneClosure :=
  match decode_lcs body with
  | inl e => inl ("cwwp2: decode lane closures: " +:+ e)
  | inr rows => inr (window_of <$> rows)
  end.

Definition newest_record (l : list LaneClosure) : Time :=
  foldl (fun t lc => if time_after (RecordedAt lc) t then RecordedAt lc else t) time_zero l.

Definition LaneClosures (c : Client) (http : string -> Response) (now : Time) (district : Z) : string + list LaneClosure :=
  match get http (FeedURL c district "lcs" "lcs") with
  | inl e => inl e
  | inr body =>
      match ParseLaneClosures body with
      | inl e => inl ("district " +:+ pretty district +:+ ": " +:+ e)
      | inr [] => inl ("district " +:+ pretty district +:+ " lane closures: " +:+ ErrEmptyFeed)
      | inr closures =>
          match checkFresh c now (newest_record closures) (length closures) with
          | Some e => inl ("district " +:+ pretty district +:+ " lane closures: " +:+ e)
          | None => inr (set_district district <$> closures)
          end
      end
  end.

End Portal.

(** *** Phases *)

Inductive Phase := PhaseScheduled | PhaseActive | PhaseCompleted | PhaseCancelled.
#[export] Instance Phase_eq_dec : EqDecision Phase.
Proof. solve_decision. Defined.

Definition DefaultOverrunGrace : Duration := 12 * hour.

Definition PhaseAt (l : LaneClosure) (now : Time) (overrunGrace : Duration) : Phase :=
  let grace := if overrunGrace <=? 0 then DefaultOverrunGrace else overrunGrace in
  let planned := negb (EndIndefinite l) && negb (time_is_zero (EndTime l)) in
  if Cancelled l then PhaseCancelled
  else if PickedUp l then PhaseCompleted
  else if SetUp l && planned && negb (time_before now (time_add (EndTime l) grace)) then PhaseCompleted
  else if SetUp l then PhaseActive
  else if planned && negb (time_before now (EndTime l)) then PhaseCompleted
  else PhaseScheduled.

End Cwwp2.

(** ** The normalizer *)

Module Closures.
Import F64 Grid Text Feeds.
Import Scheduler (Prior, ForSource, PollResult).
Import Power (PowerText).
Import RelayPoll (wrap).
Import Cwwp2.

Definition laneClosureSourceID : string := "caltrans".
Definition laneClosureSourceName : string := "Caltrans".
Definition laneClosureAttribution : string := "cwwp2.dot.ca.gov".

(** What the normalizer is made of, with the boxes of the incident areas. *)
Record LaneClosureNormalizer := mkNormalizer { areas : list GeoBounds; client : Client; districts : list Z; grace : Duration }.

Definition SourceIDs : list string := [laneClosureSourceID].

Definition endpoints (lc : LaneClosure) : list Location := filter (fun ep => HasPosition ep = true) [Begin lc; End_ lc].

(** Whether an endpoint is in an area, and whether the row has one at all. *)
Definition inIncidentAreas (lc : LaneClosure) (areas : list GeoBounds) : bool * bool :=
  (existsb (fun ep => existsb (fun a => Contains a (Latitude ep) (Longitude ep)) areas) (endpoints lc),
   negb (Nat.eqb (length (endpoints lc)) 0)).

Definition laneClosureEventID (lc : LaneClosure) : string :=
  "caltrans:d" +:+ pretty (District lc) +:+ "-" +:+ ReplaceAll (ID lc) ":" "".

Definition latLng (l : Location) : option LatLng := if HasPosition l then Some (mkLatLng (Latitude l) (Longitude l)) else None.

Definition endpointName (l : Location) : string :=
  let name := if String.eqb (Name l) "" then FreeFormDesc l else Name l in
  ReplaceAll (ReplaceAll (join " " (Fields name)) "( " "(") " )" ")".

Definition closureRoute (lc : LaneClosure) : string :=
  if String.eqb (Route (Begin lc)) "" then Route (End_ lc) else Route (Begin lc).

Definition routeLabel (route : string) : string :=
  match CutPrefix route "SR-", CutPrefix route "US-" with
  | Some n, _ => "Hwy " +:+ n
  | None, Some n => "US " +:+ n
  | None, None => route
  end.

Definition shoulder_tokens (lanes : string) : list string := filter (fun t => t <> "") (TrimSpace <$> Split lanes ","%char).

Definition isLaneNumber (s : string) : bool := all_bytes is_digit s && negb (String.eqb s "").
Definition plural (n : Z) (one many : string) : string := if n =? 1 then one else many.
Definition firstNonEmpty (ss : list string) : string := default "" (head (filter (fun s => s <> "") ss)).

Definition laneNames : list (string * string) :=
  [("all", "all lanes"); ("rshoulder", "right shoulder"); ("lshoulder", "left shoulder"); ("rt turn ln", "right-turn lane");
   ("lt turn ln", "left-turn lane"); ("median", "median"); ("auxiliary", "auxiliary lane"); ("bike lane", "bike lane");
   ("sidewalk", "sidewalk"); ("center turn", "center turn lane")].
Definition lane_name (k : string) : option string := snd <$> head (filter (fun x => x.1 = k) laneNames).

Section Texts.
Context {UL : UnicodeLower} {UU : UnicodeUpper}.

Definition bareName (name : string) : string :=
  let lower := ToLower name in
  match head (filter (fun p => HasPrefix lower p = true) ["from "; "to "; "at "]) with
  | Some p => TrimSpace (String.substring (String.length p) (String.length name - String.length p) name)
  | None => name
  end.

Definition directionLabel (flow : string) : string :=
  let s := ToLower (TrimSpace flow) in
  if String.eqb s "east" then "eastbound" else if String.eqb s "west" then "westbound"
  else if String.eqb s "north" then "northbound" else if String.eqb s "south" then "southbound" else "".

Definition shoulderOnly (lanes : string) : bool :=
  let toks := shoulder_tokens lanes in
  forallb (fun t => Text.Contains (ToLower t) "shoulder") toks && negb (Nat.eqb (length toks) 0).

Definition closurePhrase (lc : LaneClosure) : string :=
  let t := ToLower (TrimSpace (ClosureType lc)) in
  let phrase :=
    if String.eqb t "full" then "full closure"
    else if String.eqb t "one-way traffic" then "one-way traffic control"
    else if String.eqb t "alternating lanes" then "alternating lane closure"
    else if String.eqb t "moving" then "moving lane closure"
    else if String.eqb t "traffic break" then "traffic break"
    else if String.eqb t "lane" || String.eqb t "" then
      if shoulderOnly (LanesClosed lc) then "shoulder closure" else "lane closure"
    else ToLower (ClosureType lc) +:+ " closure" in
  let f := ToLower (TrimSpace (Facility lc)) in
  if String.eqb f "on ramp" then "on-ramp " +:+ phrase
  else if String.eqb f "off ramp" then "off-ramp " +:+ phrase
  else phrase.

(** The first byte in upper case. *)
Definition capitalize (h : string) : string :=
  match h with String c r => ToUpper (String c "") +:+ r | EmptyString => "" end.

Definition laneClosureHeadline (lc : LaneClosure) : string :=
  let h := join " " (filter (fun p => p <> "") [routeLabel (closureRoute lc); directionLabel (FlowDirection lc); closurePhrase lc]) in
  capitalize (if String.eqb (WorkType lc) "" then h else h +:+ " (" +:+ WorkType lc +:+ ")").

Definition laneClosureAreaLabel (lc : LaneClosure) : string :=
  let '(from, to) := (bareName (endpointName (Begin lc)), bareName (endpointName (End_ lc))) in
  let where_ :=
    if String.eqb from "" && String.eqb to "" then ""
    else if String.eqb from "" || String.eqb to "" || EqualFold from to then "at " +:+ firstNonEmpty [from; to]
    else "from " +:+ from +:+ " to " +:+ to in
  let label := TrimSpace (routeLabel (closureRoute lc) +:+ " " +:+ where_) in
  let near := NearbyPlace (Begin lc) in
  if negb (String.eqb near "") && negb (Text.Contains (ToLower label) (ToLower near)) then label +:+ ", near " +:+ near else label.

Definition human_lane (tok : string) : string :=
  if isLaneNumber tok then "lane " +:+ tok else default tok (lane_name (ToLower tok)).
Definition humanLanes (list : string) : string :=
  join ", " (human_lane <$> filter (fun t => t <> "") (TrimSpace <$> Split list ","%char)).

Definition laneClosureDescription (lc : LaneClosure) : string :=
  let lanes := humanLanes (LanesClosed lc) in
  let closed :=
    if String.eqb lanes "" then ""
    else "Closed: " +:+ lanes
         +:+ (if 0 <? TotalLanes lc then " (of " +:+ pretty (TotalLanes lc) +:+ " " +:+ plural (TotalLanes lc) "lane" "lanes" +:+ ")" else "")
         +:+ "." in
  if 0 <? EstimatedDelay lc then
    closed +:+ (if String.eqb closed "" then "" else " ") +:+ "Estimated delay: " +:+ pretty (EstimatedDelay lc) +:+ " min."
  else closed.

End Texts.

(** *** The event of a window *)

Section Poll.
Context {UL : UnicodeLower} {UU : UnicodeUpper} {GT : GeoText} {MK : MathKernel} {PW : PowerText} {PT : PortalText}.

Definition closure_detail (lc : LaneClosure) : LaneClosureDetail :=
  mkLaneClosureDetail (ID lc) (wrap 32 (District lc)) (ClosureID lc) (LogNumber lc) (closureRoute lc) (FlowDirection lc) (Facility lc)
    (ClosureType lc) (WorkType lc) (LanesClosed lc) (wrap 32 (TotalLanes lc)) (wrap 32 (EstimatedDelay lc)) (Duration_ lc)
    (tsProto (Start lc)) (if EndIndefinite lc then None else tsProto (EndTime lc)) (EndIndefinite lc) (tsProto (SetUpAt lc))
    (endpointName (Begin lc)) (endpointName (End_ lc)) (latLng (Begin lc)) (latLng (End_ lc)).

Definition event_location (lc : LaneClosure) : Location := if HasPosition (Begin lc) then Begin lc else End_ lc.

Definition buildLaneClosureEvent (lc : LaneClosure) (st : EventStatus) (now : Time) : Event :=
  let sev := Severity.fromLaneClosure (Facility lc) (ClosureType lc) (LanesClosed lc) (TotalLanes lc) in
  let at_ := event_location lc in
  mkEvent (laneClosureEventID lc) ROAD_INCIDENT "closure" (Feeds.SeverityFromLabel sev) st (laneClosureHeadline lc) ""
    (laneClosureDescription lc) (laneClosureAreaLabel lc) "" (Some (GeometryFromPoint (Latitude at_) (Longitude at_))) []
    (Some (NewProvenance laneClosureSourceID laneClosureSourceName laneClosureAttribution "" now))
    (if bool_decide (st = ACTIVE) && negb (time_is_zero (SetUpAt lc)) then tsProto (SetUpAt lc) else tsProto (Start lc))
    None (tsProto (RecordedAt lc)) None 0 None
    (Some (D_RoadIncident (mkRoadIncidentDetail (ClosureID lc) "" "" ∅ (Some (closure_detail lc))))).

(** *** The move off the older feed *)

Definition legacyAdoptMeters : float64 := of_Z 250.

Definition alnum_byte (n : N) : bool := is_digit n || ((65 <=? n) && (n <=? 90) || (97 <=? n) && (n <=? 122))%N.
Definition lower_hex_byte (n : N) : bool := is_digit n || ((97 <=? n) && (n <=? 102))%N.
(** [legacyClosureIDRe]: the closure id and the log number of an older id. *)
Definition legacyClosureID (id : string) : option (string * string) :=
  rest ← CutPrefix id "caltrans:";
  match Split rest "-"%char with
  | [a; b; h] =>
      if all_bytes alnum_byte a && negb (String.eqb a "") && all_bytes alnum_byte b && negb (String.eqb b "")
         && all_bytes lower_hex_byte h && Nat.eqb (String.length h) 6
      then Some (a, b) else None
  | _ => None
  end.

Record legacy := mkLegacy { o_id : string; o_closureID : string; o_logNumber : string; o_lat : float64; o_lng : float64 }.
Definition legacy_of (ev : Event) : option legacy :=
  m ← legacyClosureID (Id ev); c ← centroid_of (geometry ev); Some (mkLegacy (Id ev) m.1 m.2 (lat c) (lng c)).

Fixpoint trim_zeros (l : list ascii) : list ascii :=
  match l with c :: r => if N.eqb (code c) 48 then trim_zeros r else l | [] => [] end.
Definition bare_number (s : string) : string :=
  let t := of_bytes (trim_zeros (bytes (TrimSpace s))) in if String.eqb t "" then "0" else t.
Definition sameLogNumber (a b : string) : bool := EqualFold (bare_number a) (bare_number b).

Definition nearestEndpointMeters (lc : LaneClosure) (lat lng : float64) : float64 :=
  let best := foldl (fun best ep => let d := Geojson.MetersBetween lat lng (Latitude ep) (Longitude ep) in
                                    if ltb best zero || ltb d best then d else best) (of_Z (-1)) (endpoints lc) in
  if ltb best zero then of_Z 251 else best.

(** Whether an event of the poll is what an older one tracked. *)
Definition tracks (windows : gmap string LaneClosure) (old : legacy) (ev : Event) : bool :=
  match windows !! Id ev with
  | Some lc =>
      bool_decide (status ev = ACTIVE) && EqualFold (ClosureID lc) (o_closureID old) && sameLogNumber (LogNumber lc) (o_logNumber old)
      && negb (ltb legacyAdoptMeters (nearestEndpointMeters lc (o_lat old) (o_lng old)))
  | None => false
  end.

(** The positions of the events an older one may be, and how often the event with
    an id is claimed. *)
Definition candidates (events : list Event) (windows : gmap string LaneClosure) (olds : list legacy) (id : string) : list nat :=
  filter (fun old => o_id old = id) olds ≫= fun old =>
    fst <$> filter (fun x => tracks windows old x.2 = true) (imap pair events).
Definition claims (events : list Event) (windows : gmap string LaneClosure) (olds : list legacy) (id : string) : nat :=
  length (olds ≫= fun old => filter (fun ev => Id ev = id /\ tracks windows old ev = true) events).

(** The events are shared: one that was given an older id already has it. *)
Definition adopt_one (cands : string -> list nat) (count : string -> nat) (events : list Event) (old : legacy) : list Event :=
  match cands (o_id old) with
  | [i] => match events !! i with
           | Some ev => if Nat.eqb (count (Id ev)) 1 then <[i := set_id (o_id old) ev]> events else events
           | None => events
           end
  | _ => events
  end.

Definition adoptLegacyClosureIDs (events : list Event) (windows : gmap string LaneClosure) (prior : Prior) : list Event :=
  let olds := omap legacy_of (ForSource prior laneClosureSourceID) in
  foldl (adopt_one (candidates events windows olds) (claims events windows olds)) events olds.

(** *** The poll *)

Definition unreadable (lc : LaneClosure) : string :=
  "d" +:+ pretty (District lc) +:+ " " +:+ ID lc +:+ " (" +:+ Route (Begin lc) +:+ " " +:+ Name (Begin lc) +:+ "): " +:+ Unrecognized lc.

Definition status_of (p : Phase) : option EventStatus :=
  match p with PhaseScheduled => Some SCHEDULED | PhaseActive => Some ACTIVE | PhaseCompleted | PhaseCancelled => None end.

(** The events so far, their windows, the rows that could not be read. *)
Definition Acc : Type := list Event * gmap string LaneClosure * list string.
Definition add_window (n : LaneClosureNormalizer) (now : Time) (acc : Acc) (lc : LaneClosure) : Acc :=
  let '(events, windows, unrecognized) := acc in
  let '(inside, placeable) := inIncidentAreas lc (areas n) in
  if negb (String.eqb (Unrecognized lc) "") then
    (events, windows, if inside || negb placeable then unrecognized ++ [unreadable lc] else unrecognized)
  else if negb inside then acc
  else
    match status_of (PhaseAt lc now (grace n)) with
    | None => acc
    | Some st =>
        let ev := buildLaneClosureEvent lc st now in
        match windows !! Id ev with
        | Some _ => acc
        | None => (events ++ [ev], <[Id ev := lc]> windows, unrecognized)
        end
    end.

Definition newline : string := String (ascii_of_nat 10) "".

(** The districts that failed, and the rows of those that did not. *)
Definition failures {A B} (l : list (A + B)) : list A := omap (fun r => match r with inl e => Some e | inr _ => None end) l.
Definition answers {A B} (l : list (A + B)) : list B := omap (fun r => match r with inl _ => None | inr x => Some x end) l.

Definition Poll (n : LaneClosureNormalizer) (http : string -> Response) (prior : Prior) (now : Time) : string + PollResult :=
  if Nat.eqb (length (areas n)) 0 then inl (errEmptyScope "incident areas")
  else if Nat.eqb (length (districts n)) 0 then inl (errEmptyScope "lane-closure districts")
  else
    let got := LaneClosures (client n) http now <$> districts n in
    let errs := failures got in
    if Nat.eqb (length (answers got)) 0 then inl ("all lane-closure districts failed: " +:+ join newline errs)
    else
      let '(events, windows, unrecognized) := foldl (add_window n now) ([], ∅, []) (concat (answers got)) in
      let events := adoptLegacyClosureIDs events windows prior in
      let errs :=
        if (0 <? length unrecognized)%nat then
          errs ++ [pretty (length unrecognized) +:+ " unreadable lane-closure row(s) in scope: " +:+ join "; " (sort_strings unrecognized)]
        else errs in
      inr (poll_result events
             (if (0 <? length errs)%nat then {[ laneClosureSourceID := "partial lane-closure coverage: " +:+ join newline errs ]} else ∅) []).

End Poll.
End Closures.
