(* ===== verification/ClosuresSpec.v ===== *)
(** * What the lane closure feed keeps

    A window that is planned or in place has its event, a file that drifted is
    never read as closures that ended, and an event of the older feed passes its
    id to the one window it tracks. *)

From Stdlib Require Import Ascii.
From stdpp Require Import pretty.
From S2P Require Import Prelude Float64 Geojson GridEvent GoText Scheduler Severity Feeds Power Closures.

Module ClosuresSpec.
Import F64 Grid Text Feeds Cwwp2 Closures.
Import Scheduler (Prior, mkPrior, ForSource, PollResult, Events, PerSource).
Import Power (PowerText).

Definition closure_of (ev : Event) : option LaneClosureDetail :=
  match detail ev with Some (D_RoadIncident d) => closure d | _ => None end.

(** ** Lists of one *)

Lemma NoDup_singleton_iff {A} (l : list A) x : NoDup l -> l = [x] <-> x ∈ l /\ forall y, y ∈ l -> y = x.
Proof.
  intros Hn. split; [intros ->; setoid_rewrite list_elem_of_singleton; tauto|]. intros [Hx Hy].
  destruct l as [|a [|b l]]; [by apply not_elem_of_nil in Hx|by f_equal; apply Hy, list_elem_of_here|].
  apply NoDup_cons in Hn as [Ha _]. destruct Ha. rewrite (Hy a), <-(Hy b); repeat constructor.
Qed.

Lemma length_one {A} (l : list A) : length l = 1%nat <-> exists x, l = [x].
Proof. destruct l as [|x [|y l]]; cbn; naive_solver. Qed.

Lemma NoDup_key {A B} (f : A -> B) l x y : NoDup (f <$> l) -> x ∈ l -> y ∈ l -> f x = f y -> x = y.
Proof.
  induction l as [|a l IH]; [by intros _ ?%not_elem_of_nil|]. rewrite fmap_cons, NoDup_cons. intros [Ha Hn].
  intros [-> |Hx]%elem_of_cons [-> |Hy]%elem_of_cons E; [done| | |by apply IH]; destruct Ha; apply list_elem_of_fmap; eauto.
Qed.

Lemma filter_key_singleton {A} (f : A -> string) x l : NoDup (f <$> l) -> x ∈ l -> filter (fun y => f y = f x) l = [x].
Proof.
  intros Hn Hx. apply NoDup_singleton_iff; [by apply NoDup_filter, (NoDup_fmap_1 f)|]. setoid_rewrite list_elem_of_filter.
  split; [done|]. intros y [E Hy]. by apply (NoDup_key f l).
Qed.

Lemma imap_pair_fst {A} (l : list A) : fst <$> imap pair l = seq 0 (length l).
Proof. rewrite fmap_imap, <-(list_fmap_id (seq 0 (length l))). exact (imap_seq_0 l id). Qed.

Lemma positions_nodup {A} (P : A -> bool) (l : list A) : NoDup (fst <$> filter (fun x : nat * A => P x.2 = true) (imap pair l)).
Proof.
  eapply sublist_NoDup; [|apply fmap_sublist, sublist_filter]. rewrite imap_pair_fst. apply NoDup_seq.
Qed.

Lemma elem_of_positions {A} (P : A -> bool) (l : list A) i :
  i ∈ fst <$> filter (fun x : nat * A => P x.2 = true) (imap pair l) <-> exists a, l !! i = Some a /\ P a = true.
Proof.
  rewrite list_elem_of_fmap. setoid_rewrite list_elem_of_filter. setoid_rewrite elem_of_lookup_imap. split.
  - intros ([j a] & -> & Hp & k & b & [= <- <-] & Hl). by exists a.
  - intros (a & Hl & Hp). exists (i, a). repeat split; [done|]. by exists i, a.
Qed.

Section Closures.
Context {UL : UnicodeLower} {UU : UnicodeUpper} {GT : GeoText} {MK : MathKernel} {PW : PowerText} {PT : PortalText}.
Variables (n : LaneClosureNormalizer) (http : string -> Response) (prior : Prior) (now : Time).

(** ** Rows and windows *)

Definition file (d : Z) : string + list LaneClosure := LaneClosures (client n) http now d.
(** A row of a district that answered. *)
Definition listed (lc : LaneClosure) : Prop := exists d rows, d ∈ districts n /\ file d = inr rows /\ lc ∈ rows.
Definition in_scope (lc : LaneClosure) : Prop :=
  exists ep a, ep ∈ [Begin lc; End_ lc] /\ HasPosition ep = true /\ a ∈ areas n /\ Contains a (Latitude ep) (Longitude ep) = true.
Definition unplaced (lc : LaneClosure) : Prop := HasPosition (Begin lc) = false /\ HasPosition (End_ lc) = false.
Definition overrun : Duration := if grace n <=? 0 then DefaultOverrunGrace else grace n.
(** Called off, picked up, or past the planned end: at once when no crew set it up,
    past the grace when one did. *)
Definition over (lc : LaneClosure) : Prop :=
  Cancelled lc = true \/ PickedUp lc = true
  \/ EndIndefinite lc = false /\ EndTime lc <> 0 /\ EndTime lc + (if SetUp lc then overrun else 0) <= now.
(** What could not be read and is in scope, or has no endpoint that passes [HasPosition]. *)
Definition doubtful (lc : LaneClosure) : Prop := Unrecognized lc <> "" /\ (in_scope lc \/ unplaced lc).
Definition current (lc : LaneClosure) : Prop := Unrecognized lc = "" /\ in_scope lc /\ ~ over lc.
Definition status_now (lc : LaneClosure) : EventStatus := if SetUp lc then ACTIVE else SCHEDULED.

Lemma in_endpoints lc ep : ep ∈ endpoints lc <-> ep ∈ [Begin lc; End_ lc] /\ HasPosition ep = true.
Proof. unfold endpoints. rewrite list_elem_of_filter. tauto. Qed.

Lemma scope_spec lc : (inIncidentAreas lc (areas n)).1 = true <-> in_scope lc.
Proof.
  unfold inIncidentAreas, in_scope. cbn [fst]. rewrite existsb_exists. setoid_rewrite existsb_exists.
  setoid_rewrite <-list_elem_of_In. setoid_rewrite in_endpoints. naive_solver.
Qed.

Lemma placeable_spec lc : (inIncidentAreas lc (areas n)).2 = false <-> unplaced lc.
Proof.
  unfold inIncidentAreas, unplaced, endpoints. cbn [snd]. rewrite !filter_cons, filter_nil.
  destruct (HasPosition (Begin lc)), (HasPosition (End_ lc)); cbn; naive_solver.
Qed.

Lemma phase_status lc st : status_of (PhaseAt lc now (grace n)) = Some st <-> ~ over lc /\ st = status_now lc.
Proof.
  unfold PhaseAt, over, status_now, overrun, time_before, time_add, time_is_zero.
  destruct (Cancelled lc); [split; [discriminate|]; intros [H _]; by destruct H; left|].
  destruct (PickedUp lc); [split; [discriminate|]; intros [H _]; destruct H; by right; left|].
  destruct (SetUp lc), (EndIndefinite lc); destruct (Z.eqb_spec (EndTime lc) 0) as [E|E]; cbn [negb andb].
  all: try (split; [intros [= <-]; split; [|reflexivity]; intros [?|[?|(?&?&?)]]; congruence | by intros [_ ->]]).
  all: match goal with |- context [negb (now <? ?t)] => destruct (Z.ltb_spec now t) end; cbn [negb status_of].
  all: try (split; [intros [= <-]; split; [|reflexivity]; intros [?|[?|(?&?&?)]]; [congruence..|lia] | by intros [_ ->]]).
  all: split; [discriminate|intros [Hn _]; destruct Hn; right; right; repeat split; [done|lia]].
Qed.

(** ** The fold *)

(** The kept rows are current and have different ids, and every current row has
    the id of one; the events are theirs, and the rows in doubt are counted. *)
Definition built (lc : LaneClosure) : Event := buildLaneClosureEvent lc (status_now lc) now.
Record Folded (rows kept : list LaneClosure) (acc : Acc) : Prop := {
  fd_events : acc.1.1 = built <$> kept;
  fd_windows : forall id lc, acc.1.2 !! id = Some lc <-> lc ∈ kept /\ laneClosureEventID lc = id;
  fd_nodup : NoDup (laneClosureEventID <$> kept);
  fd_kept : forall lc, lc ∈ kept -> lc ∈ rows /\ current lc;
  fd_current : forall lc, lc ∈ rows -> current lc -> exists lc', lc' ∈ kept /\ laneClosureEventID lc' = laneClosureEventID lc;
  fd_doubt : acc.2 <> [] <-> exists lc, lc ∈ rows /\ doubtful lc }.

Lemma folded_nil : Folded [] [] ([], ∅, []).
Proof.
  split; cbn; try done.
  - intros id lc. split; [done|]. intros [H _]. by apply not_elem_of_nil in H.
  - apply NoDup_nil. done.
  - intros lc H. by apply not_elem_of_nil in H.
  - intros lc H. by apply not_elem_of_nil in H.
  - split; [done|]. intros (lc & H & _). by apply not_elem_of_nil in H.
Qed.

(** A row that changes neither events nor windows. *)
Lemma folded_skip rows kept events windows u u' lc :
  Folded rows kept (events, windows, u) ->
  (current lc -> exists lc', lc' ∈ kept /\ laneClosureEventID lc' = laneClosureEventID lc) ->
  (u' <> [] <-> u <> [] \/ doubtful lc) -> Folded (rows ++ [lc]) kept (events, windows, u').
Proof.
  intros [He Hw Hn Hk Hc Hd] Hlc Hu. cbn [fst snd] in *. split; cbn [fst snd]; try done.
  - intros x Hx. destruct (Hk x Hx). split; [apply elem_of_app; by left|done].
  - intros x [Hx|Hx%list_elem_of_singleton]%elem_of_app Hcur; [by apply Hc|]. subst. by apply Hlc.
  - rewrite Hu, Hd. setoid_rewrite elem_of_app. setoid_rewrite list_elem_of_singleton. naive_solver.
Qed.

Lemma folded_step rows kept acc lc : Folded rows kept acc -> exists kept', Folded (rows ++ [lc]) kept' (add_window n now acc lc).
Proof.
  intros HF. destruct acc as [[events windows] u]. unfold add_window.
  destruct (inIncidentAreas lc (areas n)) as [inside placeable] eqn:Ein.
  assert (Hin : inside = true <-> in_scope lc) by (rewrite <-scope_spec, Ein; done).
  assert (Hpl : placeable = false <-> unplaced lc) by (rewrite <-placeable_spec, Ein; done).
  destruct (String.eqb_spec (Unrecognized lc) "") as [Er|Er]; cbn [negb].
  - assert (Hnd : ~ doubtful lc) by (intros [? _]; done).
    destruct inside; cbn [negb].
    + destruct (status_of (PhaseAt lc now (grace n))) as [st|] eqn:Es.
      * apply phase_status in Es as [Hov ->]. assert (Hcur : current lc) by (split; [done|split; [by apply Hin|done]]).
        change (Id (buildLaneClosureEvent lc (status_now lc) now)) with (laneClosureEventID lc).
        destruct (windows !! laneClosureEventID lc) as [lc0|] eqn:Ew.
        -- exists kept. eapply folded_skip; [done| |tauto]. intros _. exists lc0. by apply HF in Ew.
        -- exists (kept ++ [lc]). destruct HF as [He Hw Hn Hk Hc Hd]. cbn [fst snd] in *.
           assert (Hnew : laneClosureEventID lc ∉ laneClosureEventID <$> kept).
           { intros (x & Hid & Hx)%list_elem_of_fmap. assert (windows !! laneClosureEventID lc = Some x) by by apply Hw. congruence. }
           split; cbn [fst snd].
           ++ rewrite fmap_app, He. done.
           ++ intros id x. rewrite elem_of_app, list_elem_of_singleton, lookup_insert_Some, Hw. split.
              ** intros [[<- <-]|[Hne [Hx Hi]]]; [by split; [right|]|by split; [left|]].
              ** intros [[Hx| ->] Hi]; [right|by left]. split; [|done]. intros <-. apply Hnew. apply list_elem_of_fmap. by exists x.
           ++ rewrite fmap_app. apply NoDup_app. split_and!; [done| |apply NoDup_singleton].
              intros x Hx Hx'%list_elem_of_singleton. by subst.
           ++ intros x [Hx|Hx%list_elem_of_singleton]%elem_of_app; rewrite elem_of_app; [destruct (Hk x Hx); tauto|].
              subst. split; [|done]. right. by apply list_elem_of_singleton.
           ++ intros x [Hx|Hx%list_elem_of_singleton]%elem_of_app Hx'.
              ** destruct (Hc x Hx Hx') as (y & ? & ?). exists y. rewrite elem_of_app. tauto.
              ** subst. exists lc. rewrite elem_of_app, list_elem_of_singleton. tauto.
           ++ rewrite Hd. setoid_rewrite elem_of_app. setoid_rewrite list_elem_of_singleton. naive_solver.
      * exists kept. eapply folded_skip; [done| |tauto]. intros (_ & _ & Hov). exfalso.
        assert (status_of (PhaseAt lc now (grace n)) = Some (status_now lc)) by by apply phase_status. congruence.
    + exists kept. eapply folded_skip; [done| |tauto]. intros (_ & Hs%Hin & _). done.
  - exists kept. eapply folded_skip; [done|by intros [? _]|].
    assert (Hd : doubtful lc <-> inside || negb placeable = true).
    { unfold doubtful. rewrite <-Hin, <-Hpl, orb_true_iff, negb_true_iff. tauto. }
    rewrite Hd. destruct (inside || negb placeable); [|by split; [left|intros [|]]].
    split; [by right|]. intros _ E. by destruct u.
Qed.

Lemma folded rows : exists kept, Folded rows kept (foldl (add_window n now) ([], ∅, []) rows).
Proof.
  induction rows as [|lc rows [kept IH]] using rev_ind; [exists []; apply folded_nil|].
  rewrite foldl_app. cbn. by eapply folded_step.
Qed.

(** ** Adoption *)

Section Adoption.
Variables (events : list Event) (windows : gmap string LaneClosure) (olds : list legacy).
Hypothesis ids_differ : NoDup (Id <$> events).
Hypothesis olds_differ : NoDup (o_id <$> olds).

(** An older event and a window's event are each the other's only match. *)
Definition wins (o : legacy) (i : nat) : Prop :=
  o ∈ olds /\ exists ev, events !! i = Some ev /\ tracks windows o ev = true
  /\ (forall j ev', events !! j = Some ev' -> tracks windows o ev' = true -> j = i)
  /\ (forall o', o' ∈ olds -> tracks windows o' ev = true -> o' = o).

Lemma only_candidate o i : o ∈ olds -> candidates events windows olds (o_id o) = [i] <->
  exists ev, events !! i = Some ev /\ tracks windows o ev = true /\ forall j ev', events !! j = Some ev' -> tracks windows o ev' = true -> j = i.
Proof using olds_differ.
  intros Ho. unfold candidates. rewrite (filter_key_singleton o_id) by done. cbn [mbind list_bind]. rewrite app_nil_r.
  rewrite NoDup_singleton_iff by apply positions_nodup. setoid_rewrite (elem_of_positions (fun ev => tracks windows o ev)). naive_solver.
Qed.

Lemma only_claim ev : ev ∈ events -> claims events windows olds (Id ev) = 1%nat <->
  exists o, o ∈ olds /\ tracks windows o ev = true /\ forall o', o' ∈ olds -> tracks windows o' ev = true -> o' = o.
Proof using ids_differ olds_differ.
  intros Hev. unfold claims.
  assert (Hc : length (olds ≫= fun old => filter (fun ev' => Id ev' = Id ev /\ tracks windows old ev' = true) events)
    = length (filter (fun o => tracks windows o ev = true) olds)).
  { clear olds_differ. induction olds as [|o l IH]; [done|]. cbn [mbind list_bind]. rewrite length_app, IH, filter_cons.
    assert (Hf : filter (fun ev' => Id ev' = Id ev /\ tracks windows o ev' = true) events = if tracks windows o ev then [ev] else []).
    { rewrite (list_filter_iff _ (fun ev' => tracks windows o ev' = true /\ Id ev' = Id ev)) by tauto.
      rewrite <-list_filter_filter, (filter_key_singleton Id) by done. rewrite filter_cons, filter_nil.
      case_decide as E; [by rewrite E|]. by apply not_true_is_false in E as ->. }
    rewrite Hf. case_decide as E; [by rewrite E|]. by apply not_true_is_false in E as ->. }
  rewrite Hc, length_one. apply (NoDup_fmap_1 o_id) in olds_differ.
  setoid_rewrite (NoDup_singleton_iff _ _ (NoDup_filter _ _ olds_differ)). setoid_rewrite list_elem_of_filter.
  split; intros (o & Ho & Hu); exists o; naive_solver.
Qed.

Lemma wins_iff o i ev : events !! i = Some ev -> o ∈ olds ->
  wins o i <-> candidates events windows olds (o_id o) = [i] /\ claims events windows olds (Id ev) = 1%nat.
Proof using ids_differ olds_differ.
  intros Hi Ho. rewrite only_candidate, only_claim by (done || by eapply list_elem_of_lookup_2). split.
  - intros (_ & ev' & Hi' & Ht & Hu & Hv). rewrite Hi in Hi'. injection Hi' as <-. split; [by exists ev|by exists o].
  - intros [(ev' & Hi' & Ht & Hu) (o' & Ho' & Ht' & Hv)]. rewrite Hi in Hi'. injection Hi' as <-. split; [done|].
    exists ev. split_and!; try done. intros x Hx Hxt. rewrite (Hv o) by done. by apply Hv.
Qed.

Lemma wins_unique o o' i : wins o i -> wins o' i -> o = o'.
Proof using Type.
  intros (Ho & ev & Hi & Ht & _) (_ & ev' & Hi' & _ & _ & Hu). rewrite Hi in Hi'. injection Hi' as <-. by apply Hu.
Qed.

Lemma wins_or_not i ev : events !! i = Some ev -> (exists o, wins o i) \/ forall o, ~ wins o i.
Proof using ids_differ olds_differ.
  intros Hi.
  destruct (decide (Exists (fun o => candidates events windows olds (o_id o) = [i] /\ claims events windows olds (Id ev) = 1%nat) olds)) as [He|He].
  - left. apply Exists_exists in He as (o & Ho & Hw). exists o. by apply (wins_iff _ _ ev).
  - right. intros o Hw. apply He, Exists_exists. exists o. pose proof Hw as [Ho _]. split; [done|]. by apply (wins_iff _ _ ev).
Qed.

(** After the older events of [seen], each event has the id of the one that wins
    it, or its own. *)
Definition adopted (seen : list legacy) (events' : list Event) : Prop :=
  forall i ev, events !! i = Some ev ->
    (forall o, o ∈ seen -> wins o i -> events' !! i = Some (set_id (o_id o) ev))
    /\ ((forall o, o ∈ seen -> ~ wins o i) -> events' !! i = Some ev).

Lemma adopt_step seen o events' : NoDup (seen ++ [o]) -> (forall x, x ∈ seen ++ [o] -> x ∈ olds) -> length events' = length events ->
  adopted seen events' ->
  let events'' := adopt_one (candidates events windows olds) (claims events windows olds) events' o in
  length events'' = length events /\ adopted (seen ++ [o]) events''.
Proof using ids_differ olds_differ.
  intros Hn Hsub Hlen IH. assert (Ho : o ∈ olds) by (apply Hsub, elem_of_app; right; by apply list_elem_of_singleton).
  assert (Hseen : forall x, x ∈ seen -> x <> o).
  { intros x Hx ->. apply NoDup_app in Hn as (_ & Hd & _). by apply (Hd o Hx), list_elem_of_singleton. }
  assert (Hstep : (exists i ev, wins o i /\ events !! i = Some ev
                    /\ adopt_one (candidates events windows olds) (claims events windows olds) events' o = <[i := set_id (o_id o) ev]> events')
                  \/ (forall i, ~ wins o i) /\ adopt_one (candidates events windows olds) (claims events windows olds) events' o = events').
  { unfold adopt_one. destruct (candidates events windows olds (o_id o)) as [|i [|j l]] eqn:Hc.
    1, 3: right; split; [|done]; intros k Hw; pose proof Hw as (Hx & ev & Hk & Hr); destruct (proj1 (wins_iff o k ev Hk Ho) Hw); congruence.
    pose proof Hc as Hc'. apply only_candidate in Hc' as (ev & Hi & Ht & Hu); [|done].
    destruct (IH i ev Hi) as [IH1 IH2].
    assert (Hnone : forall x, x ∈ seen -> ~ wins x i).
    { intros x Hx (_ & ev' & Hi' & _ & _ & Hv). rewrite Hi in Hi'. injection Hi' as <-. apply (Hseen x Hx). symmetry. by apply Hv. }
    rewrite (IH2 Hnone). destruct (Nat.eqb_spec (claims events windows olds (Id ev)) 1) as [E|E].
    - left. exists i, ev. split; [|done]. by apply (wins_iff _ _ ev).
    - right. split; [|done]. intros k Hw. pose proof Hw as (Hx & ev' & Hk & Ht' & Hr).
      assert (k = i) as -> by by eapply Hu. rewrite Hi in Hk. injection Hk as <-. by destruct (proj1 (wins_iff o i ev Hi Ho) Hw). }
  destruct Hstep as [(i & ev & Hw & Hi & ->)|[Hno ->]]; cbn zeta.
  - split; [by rewrite length_insert|]. intros k evk Hk. destruct (IH k evk Hk) as [IH1 IH2].
    destruct (decide (k = i)) as [-> |Hne].
    + rewrite Hi in Hk. injection Hk as <-. rewrite list_lookup_insert_eq by (rewrite Hlen; by eapply lookup_lt_Some). split.
      * intros x _ Hx. by rewrite (wins_unique x o i).
      * intros Hno. destruct (Hno o); [|done]. apply elem_of_app. right. by apply list_elem_of_singleton.
    + rewrite list_lookup_insert_ne by done. split.
      * intros x [Hx| ->%list_elem_of_singleton]%elem_of_app Hxw; [by apply IH1|]. destruct Hne.
        destruct Hw as (_ & ? & Hi' & ? & Hu & _). destruct Hxw as (_ & ? & Hk' & ? & _ & _). by eapply Hu.
      * intros Hno. apply IH2. intros x Hx. apply Hno, elem_of_app. by left.
  - split; [done|]. intros k evk Hk. destruct (IH k evk Hk) as [IH1 IH2]. split.
    + intros x [Hx| ->%list_elem_of_singleton]%elem_of_app Hxw; [by apply IH1|by destruct (Hno k)].
    + intros Hnone. apply IH2. intros x Hx. apply Hnone, elem_of_app. by left.
Qed.

Lemma adopt_spec seen rest : olds = seen ++ rest ->
  let events' := foldl (adopt_one (candidates events windows olds) (claims events windows olds)) events seen in
  length events' = length events /\ adopted seen events'.
Proof using ids_differ olds_differ.
  pose proof (NoDup_fmap_1 _ _ olds_differ) as Hn. revert rest.
  induction seen as [|o seen IH] using rev_ind; intros rest E; cbn zeta.
  - split; [done|]. intros i ev Hi. split; [by intros o ?%not_elem_of_nil|done].
  - rewrite <-app_assoc in E. destruct (IH _ E) as [Hl Ha]. rewrite foldl_app. cbn [foldl]. apply adopt_step; [| |done|done].
    + rewrite E, app_assoc in Hn. by apply NoDup_app in Hn as (? & _).
    + intros x Hx. rewrite E, app_assoc. apply elem_of_app. by left.
Qed.

End Adoption.
(** ** The poll *)

(** Adoption changes ids and nothing else. *)
Lemma adopt_ids_only events windows : Forall2 (fun ev ev' => ev' = set_id (Id ev') ev) events (adoptLegacyClosureIDs events windows prior).
Proof.
  unfold adoptLegacyClosureIDs. generalize (omap legacy_of (ForSource prior laneClosureSourceID)) at 3 as seen.
  generalize (candidates events windows (omap legacy_of (ForSource prior laneClosureSourceID))) as cands.
  generalize (claims events windows (omap legacy_of (ForSource prior laneClosureSourceID))) as count. intros count cands seen.
  induction seen as [|o seen IH] using rev_ind.
  - cbn. apply Forall2_same_length_lookup. split; [done|]. intros i x y Hx Hy. rewrite Hx in Hy. injection Hy as <-. by destruct x.
  - rewrite foldl_app. cbn [foldl]. unfold adopt_one at 1. destruct (cands (o_id o)) as [|i [|]]; try done.
    destruct (foldl _ events seen !! i) as [ev|] eqn:Hi; [|done]. destruct (Nat.eqb _ 1); [|done].
    destruct (Forall2_lookup_r _ _ _ _ _ IH Hi) as (ev0 & H0 & E).
    assert (Hr : set_id (o_id o) ev = set_id (Id (set_id (o_id o) ev)) ev0) by by rewrite E.
    pose proof (Forall2_insert _ _ _ _ _ i IH Hr) as IH'. by rewrite (list_insert_id events i ev0 H0) in IH'.
Qed.

Lemma listed_rows lc : listed lc <-> lc ∈ concat (answers (file <$> districts n)).
Proof.
  unfold listed, answers. rewrite list_elem_of_In, in_concat. setoid_rewrite <-list_elem_of_In.
  setoid_rewrite list_elem_of_omap. setoid_rewrite list_elem_of_fmap. split.
  - intros (d & rows & Hd & Hf & Hr). exists rows. split; [|done]. exists (inr rows). split; [by exists d|done].
  - intros (rows & ([e|rows'] & (d & E & Hd) & Hs) & Hr); [done|]. injection Hs as ->. by exists d, rows.
Qed.

Lemma some_failed : failures (file <$> districts n) <> [] <-> exists d e, d ∈ districts n /\ file d = inl e.
Proof.
  unfold failures. induction (districts n) as [|d l IH]; [split; [done|by intros (d & e & ?%not_elem_of_nil & _)]|].
  cbn [fmap list_fmap omap list_omap]. setoid_rewrite elem_of_cons. destruct (file d) as [e|rows] eqn:E.
  - split; [|done]. intros _. exists d, e. split; [by left|done].
  - rewrite IH. split; [naive_solver|]. intros (x & e & [-> |Hx] & Ee); [congruence|eauto].
Qed.

Lemma all_failed : answers (file <$> districts n) = [] <-> forall d, d ∈ districts n -> exists e, file d = inl e.
Proof.
  unfold answers. induction (districts n) as [|d l IH]; [split; [by intros _ d ?%not_elem_of_nil|done]|].
  cbn [fmap list_fmap omap list_omap]. setoid_rewrite elem_of_cons. destruct (file d) as [e|rows] eqn:E.
  - rewrite IH. split; [intros H x [-> |Hx]; [by exists e|by apply H]|auto].
  - split; [done|]. intros H. destruct (H d) as [e Ee]; [by left|congruence].
Qed.

Definition olds : list legacy := omap legacy_of (ForSource prior laneClosureSourceID).

Lemma poll_ok res : Poll n http prior now = inr res -> exists kept windows u,
  Folded (concat (answers (file <$> districts n))) kept (built <$> kept, windows, u)
  /\ Events res = adoptLegacyClosureIDs (built <$> kept) windows prior
  /\ (is_Some (PerSource res !! laneClosureSourceID) <-> failures (file <$> districts n) <> [] \/ u <> []).
Proof.
  unfold Poll. destruct (Nat.eqb _ 0); [done|]. destruct (Nat.eqb _ 0); [done|]. fold file. destruct (Nat.eqb _ 0); [done|].
  destruct (folded (concat (answers (file <$> districts n)))) as [kept HF].
  destruct (foldl _ _ _) as [[events windows] u]. pose proof (fd_events _ _ _ HF) as He. cbn [fst] in He. subst events.
  intros [= <-]. exists kept, windows, u. split; [done|]. split; [done|]. cbn [PerSource poll_result].
  destruct u as [|x u]; [change (length (@nil string)) with 0%nat|]; cbn [length Nat.ltb Nat.leb].
  - destruct (failures _) as [|e errs]; cbn [length Nat.ltb Nat.leb].
    + rewrite lookup_empty. split; [by intros [? ?]|by intros [?|?]].
    + rewrite lookup_singleton_eq. split; [by left|eauto].
  - rewrite length_app, Nat.add_comm. cbn [length Nat.add Nat.ltb Nat.leb]. rewrite lookup_singleton_eq. split; [by right|eauto].
Qed.

Lemma degraded_iff res : Poll n http prior now = inr res ->
  is_Some (PerSource res !! laneClosureSourceID) <->
  (exists d e, d ∈ districts n /\ file d = inl e) \/ exists lc, listed lc /\ doubtful lc.
Proof.
  intros H. destruct (poll_ok res H) as (kept & windows & u & HF & _ & ->). rewrite some_failed.
  pose proof (fd_doubt _ _ _ HF) as Hu. cbn [snd] in Hu. rewrite Hu. by setoid_rewrite listed_rows.
Qed.

(** C30: No window that is in scope and not over is lost. A poll fails only when no
    area or no district is configured or every district failed. It degrades the source
    exactly when a district failed or a row that cannot be read has an endpoint inside
    an area, or no endpoint whose position passes [HasPosition]. That is not every row
    that cannot be placed, as the comment on Poll has it: a coordinate that is NaN or
    out of range passes [HasPosition], so an unreadable row with one degrades nothing
    ([nan_placed]). Otherwise every window that is in scope and not over (called off,
    picked up, past its planned end, with the grace when a crew set it up) has an
    event of its id's first row, in place exactly when the crew said so, and every
    event is such a window. *)
Theorem closures_kept :
  ((exists e, Poll n http prior now = inl e) <->
     areas n = [] \/ districts n = [] \/ forall d, d ∈ districts n -> exists e, file d = inl e)
  /\ forall res, Poll n http prior now = inr res ->
       (is_Some (PerSource res !! laneClosureSourceID) <->
          (exists d e, d ∈ districts n /\ file d = inl e)
          \/ exists lc, listed lc /\ Unrecognized lc <> "" /\ (in_scope lc \/ unplaced lc))
       /\ (forall lc, listed lc -> current lc ->
            exists lc' ev, ev ∈ Events res /\ listed lc' /\ current lc' /\ laneClosureEventID lc' = laneClosureEventID lc
              /\ closure_of ev = Some (closure_detail lc') /\ status ev = status_now lc')
       /\ (forall ev, ev ∈ Events res -> exists lc, listed lc /\ current lc /\ closure_of ev = Some (closure_detail lc) /\ status ev = status_now lc).
Proof.
  split.
  - unfold Poll. change (LaneClosures (client n) http now) with file. rewrite <-all_failed, <-!length_zero_iff_nil.
    destruct (Nat.eqb_spec (length (areas n)) 0); [naive_solver|]. destruct (Nat.eqb_spec (length (districts n)) 0); [naive_solver|].
    destruct (Nat.eqb_spec (length (answers (file <$> districts n))) 0); [naive_solver|].
    destruct (foldl _ _ _) as [[? ?] ?]. split; [by intros [? ?]|tauto].
  - intros res H. split; [by apply degraded_iff|]. destruct (poll_ok res H) as (kept & windows & u & HF & He & _).
    pose proof (adopt_ids_only (built <$> kept) windows) as Hids. rewrite <-He in Hids. split.
    + intros lc Hl Hc. apply listed_rows in Hl. destruct (fd_current _ _ _ HF lc Hl Hc) as (lc' & Hk & Hid). destruct (fd_kept _ _ _ HF lc' Hk) as [Hr Hc'].
      apply list_elem_of_lookup in Hk as [i Hi]. destruct (Forall2_lookup_l _ _ _ i (built lc') Hids) as (ev & Hev & E); [by rewrite list_lookup_fmap, Hi|].
      exists lc', ev. split_and!; [by eapply list_elem_of_lookup_2|by apply listed_rows|done|done|by rewrite E..].
    + intros ev Hev. apply list_elem_of_lookup in Hev as [i Hi]. destruct (Forall2_lookup_r _ _ _ i ev Hids Hi) as (ev0 & H0 & E).
      rewrite list_lookup_fmap in H0. destruct (kept !! i) as [lc|] eqn:Hk; [|done]. injection H0 as <-.
      destruct (fd_kept _ _ _ HF lc) as [Hr Hc]; [by eapply list_elem_of_lookup_2|]. exists lc. split_and!; [by apply listed_rows|done|by rewrite E..].
Qed.

(** ** The older ids *)

(** Whether a crew's window is what an older event tracked, and whether each is the
    other's only match. *)
Definition matches (o : legacy) (lc : LaneClosure) : bool :=
  SetUp lc && EqualFold (ClosureID lc) (o_closureID o) && sameLogNumber (LogNumber lc) (o_logNumber o)
  && negb (ltb legacyAdoptMeters (nearestEndpointMeters lc (o_lat o) (o_lng o))).
Definition only_match (kept : list LaneClosure) (o : legacy) (lc : LaneClosure) : Prop :=
  o ∈ olds /\ matches o lc = true
  /\ (forall lc', lc' ∈ kept -> matches o lc' = true -> lc' = lc) /\ (forall o', o' ∈ olds -> matches o' lc = true -> o' = o).

Lemma tracks_matches windows (kept : list LaneClosure) o lc :
  (forall id lc, windows !! id = Some lc <-> lc ∈ kept /\ laneClosureEventID lc = id) -> lc ∈ kept ->
  tracks windows o (built lc) = matches o lc.
Proof.
  intros Hw Hk. unfold tracks, matches. change (Id (built lc)) with (laneClosureEventID lc).
  rewrite (proj2 (Hw (laneClosureEventID lc) lc) (conj Hk eq_refl)).
  change (status (built lc)) with (status_now lc). unfold status_now. by destruct (SetUp lc).
Qed.

Lemma wins_matches windows (kept : list LaneClosure) o i lc :
  (forall id lc, windows !! id = Some lc <-> lc ∈ kept /\ laneClosureEventID lc = id) -> NoDup (laneClosureEventID <$> kept) ->
  kept !! i = Some lc -> wins (built <$> kept) windows olds o i <-> only_match kept o lc.
Proof.
  intros Hw Hn Hi. pose proof (list_elem_of_lookup_2 _ _ _ Hi) as Hk.
  assert (Ht : forall o lc, lc ∈ kept -> tracks windows o (built lc) = matches o lc) by (intros; by eapply tracks_matches).
  unfold wins, only_match. rewrite list_lookup_fmap, Hi. split.
  - intros (Ho & ev & [= <-] & Hm & Hu & Hv). rewrite Ht in Hm by done. split_and!; [done|done| |].
    + intros lc' [j Hj]%list_elem_of_lookup Hm'. assert (j = i) as ->; [|congruence].
      apply (Hu j (built lc')); [by rewrite list_lookup_fmap, Hj|]. rewrite Ht; [done|by eapply list_elem_of_lookup_2].
    + intros o' Ho' Hm'. apply Hv; [done|]. by rewrite Ht.
  - intros (Ho & Hm & Hu & Hv). split; [done|]. exists (built lc). rewrite Ht by done. split_and!; [done|done| |].
    + intros j ev' Hj Hm'. rewrite list_lookup_fmap in Hj. destruct (kept !! j) as [lc'|] eqn:Hj'; [|done]. injection Hj as <-.
      rewrite Ht in Hm' by (by eapply list_elem_of_lookup_2). rewrite (Hu lc') in Hj' by (done || by eapply list_elem_of_lookup_2).
      apply (NoDup_fmap_1 laneClosureEventID) in Hn. by eapply NoDup_lookup.
    + intros o' Ho' Hm'. apply Hv; [done|]. by rewrite <-Ht.
Qed.

Lemma olds_ids : NoDup (Id <$> ForSource prior laneClosureSourceID) -> NoDup (o_id <$> olds).
Proof.
  unfold olds. induction (ForSource prior laneClosureSourceID) as [|ev l IH]; [done|]. cbn [fmap list_fmap omap list_omap].
  rewrite NoDup_cons. intros [Hn Hl]. destruct (legacy_of ev) as [o|] eqn:Ho; [|by apply IH]. cbn [fmap list_fmap].
  apply NoDup_cons. split; [|by apply IH]. intros (x & E & (y & Hy & Hx)%list_elem_of_omap)%list_elem_of_fmap. destruct Hn.
  assert (Hid : forall ev o, legacy_of ev = Some o -> o_id o = Id ev).
  { intros e p. unfold legacy_of. destruct (legacyClosureID (Id e)); [|done]. cbn. destruct (centroid_of _); [|done]. by intros [= <-]. }
  apply list_elem_of_fmap. exists y. split; [|done]. by rewrite <-(Hid _ _ Ho), <-(Hid _ _ Hx).
Qed.

Lemma old_form o : o ∈ olds -> legacyClosureID (o_id o) <> None.
Proof.
  intros (ev & _ & Ho)%list_elem_of_omap. unfold legacy_of in Ho. destruct (legacyClosureID (Id ev)) eqn:E; [|done]. cbn in Ho.
  destruct (centroid_of _); [|done]. injection Ho as <-. cbn. by rewrite E.
Qed.

Lemma event_ids rows kept windows u :
  Folded rows kept (built <$> kept, windows, u) -> NoDup (Id <$> ForSource prior laneClosureSourceID) ->
  let events := adoptLegacyClosureIDs (built <$> kept) windows prior in
  length events = length kept
  /\ forall i lc, kept !! i = Some lc -> exists id, events !! i = Some (set_id id (built lc))
       /\ (forall o, only_match kept o lc -> id = o_id o) /\ ((forall o, ~ only_match kept o lc) -> id = laneClosureEventID lc)
       /\ (id = laneClosureEventID lc \/ exists o, wins (built <$> kept) windows olds o i /\ id = o_id o).
Proof.
  intros HF Hprior events. pose proof (fd_nodup _ _ _ HF) as Hn. pose proof (fd_windows _ _ _ HF) as Hw. cbn [fst snd] in Hw.
  assert (Hbuilt : NoDup (Id <$> (built <$> kept))) by (rewrite <-list_fmap_compose; exact Hn).
  destruct (adopt_spec (built <$> kept) windows olds Hbuilt (olds_ids Hprior) olds []) as [Hlen Ha]; [by rewrite app_nil_r|].
  change (foldl _ _ olds) with events in Hlen, Ha. split; [by rewrite Hlen, length_fmap|].
  intros i lc Hi. assert (Hb : (built <$> kept) !! i = Some (built lc)) by by rewrite list_lookup_fmap, Hi.
  destruct (Ha i _ Hb) as [Ha1 Ha2]. pose proof (fun o => wins_matches windows kept o i lc Hw Hn Hi) as Hm.
  destruct (wins_or_not (built <$> kept) windows olds Hbuilt (olds_ids Hprior) i _ Hb) as [[o Ho]|Hno].
  - exists (o_id o). rewrite (Ha1 o) by (done || apply Ho). split_and!; [done| | |right; by exists o].
    + intros o' Ho'%Hm. f_equal. by eapply wins_unique.
    + intros Hno. destruct (Hno o). by apply Hm.
  - exists (laneClosureEventID lc). rewrite Ha2 by (intros; apply Hno). split_and!; [done| |done|by left].
    intros o Ho%Hm. by destruct (Hno o).
Qed.

(** The change of feed resolves nothing that is still in place. The events of a
    poll are one for each current window, in order; a window a crew set up takes
    the id of the older event that tracked the same closure (its closure id and log
    number, an end within 250 m) exactly when each is the other's only match, and
    has its own id otherwise; no two events have one id. *)
Theorem legacy_adopted res :
  NoDup (Id <$> ForSource prior laneClosureSourceID) -> Poll n http prior now = inr res ->
  exists kept, (forall lc, lc ∈ kept -> listed lc /\ current lc) /\ NoDup (laneClosureEventID <$> kept)
  /\ (forall lc, listed lc -> current lc -> exists lc', lc' ∈ kept /\ laneClosureEventID lc' = laneClosureEventID lc)
  /\ length (Events res) = length kept
  /\ (forall i lc, kept !! i = Some lc -> exists id, Events res !! i = Some (set_id id (built lc))
        /\ (forall o, only_match kept o lc -> id = o_id o)
        /\ ((forall o, ~ only_match kept o lc) -> id = laneClosureEventID lc))
  /\ ((forall lc, lc ∈ kept -> legacyClosureID (laneClosureEventID lc) = None) -> NoDup (Id <$> Events res)).
Proof.
  intros Hprior H. destruct (poll_ok res H) as (kept & windows & u & HF & He & _). exists kept.
  destruct (event_ids _ _ _ _ HF Hprior) as [Hlen Hid]. rewrite <-He in Hlen, Hid. pose proof (fd_nodup _ _ _ HF) as Hn.
  split_and!; [|done| | | |].
  - intros lc Hk. destruct (fd_kept _ _ _ HF lc Hk) as [Hr Hc]. split; [by apply listed_rows|done].
  - intros lc Hl%listed_rows Hc. by apply (fd_current _ _ _ HF).
  - exact Hlen.
  - intros i lc Hi. destruct (Hid i lc Hi) as (id & ? & ? & ? & _). by exists id.
  - intros Hform. apply NoDup_alt. intros i j x Hi Hj.
    assert (Hlook : forall i, (Id <$> Events res) !! i = Some x -> exists lc, kept !! i = Some lc
      /\ (x = laneClosureEventID lc \/ exists o, wins (built <$> kept) windows olds o i /\ x = o_id o)).
    { intros k Hk. rewrite list_lookup_fmap in Hk. destruct (Events res !! k) as [ev|] eqn:Ek; [|done]. injection Hk as <-.
      assert (Hlt : (k < length kept)%nat) by (rewrite <-Hlen; by eapply lookup_lt_Some).
      apply lookup_lt_is_Some in Hlt as [lc Hk]. exists lc. split; [done|]. destruct (Hid k lc Hk) as (id & E & _ & _ & Hd).
      rewrite Ek in E. by injection E as ->. }
    destruct (Hlook i Hi) as (lc & Hl & Hx), (Hlook j Hj) as (lc' & Hl' & Hx').
    assert (Hmix : forall lc k o, lc ∈ kept -> wins (built <$> kept) windows olds o k -> laneClosureEventID lc <> o_id o).
    { intros l k o Hk [Ho _] E. apply (old_form o Ho). rewrite <-E. by apply Hform. }
    destruct Hx as [->|(o & Ho & ->)], Hx' as [E|(o' & Ho' & E)].
    + apply (NoDup_lookup (laneClosureEventID <$> kept) i j (laneClosureEventID lc)); [done| |]; rewrite list_lookup_fmap; [by rewrite Hl|by rewrite Hl'; cbn; f_equal].
    + by destruct (Hmix lc j o'); [eapply list_elem_of_lookup_2| |].
    + by destruct (Hmix lc' i o); [eapply list_elem_of_lookup_2| |].
    + assert (o = o') as <-.
      { apply (NoDup_key o_id olds); [by apply olds_ids|apply Ho|apply Ho'|done]. }
      destruct Ho as (_ & e1 & H1 & T1 & U1 & _), Ho' as (_ & e2 & H2 & T2 & U2 & _). by eapply U2.
Qed.

(** ** Files that drifted *)

Lemma newest_one_of l t0 : foldl (fun t lc => if time_after (RecordedAt lc) t then RecordedAt lc else t) t0 l = t0
  \/ exists lc, lc ∈ l /\ foldl (fun t lc => if time_after (RecordedAt lc) t then RecordedAt lc else t) t0 l = RecordedAt lc.
Proof.
  revert t0. induction l as [|lc l IH]; intros t0; cbn [foldl]; [by left|].
  destruct (IH (if time_after (RecordedAt lc) t0 then RecordedAt lc else t0)) as [-> |(x & Hx & ->)].
  - destruct (time_after _ _); [|by left]. right. exists lc. split; [by left|done].
  - right. exists x. split; [by right|done].
Qed.

Lemma unread_flag r c : c ∈ [Code1097 r; Code1098 r; Code1022 r] -> (called (code_of c)).2 = false -> Unrecognized (window_of r) <> "".
Proof.
  intros Hc Hf.
  change (Unrecognized (window_of r)) with (unrecognizedReason (set_unrecognized "" (window_of r))
    [(called (code_of (Code1097 r))).2; (called (code_of (Code1098 r))).2; (called (code_of (Code1022 r))).2]).
  generalize (set_unrecognized "" (window_of r)). intros lc. unfold unrecognizedReason. cbn [zip zip_with].
  repeat match goal with |- context [filter _ (_ :: _)] => rewrite filter_cons end. rewrite filter_nil. cbn [snd].
  repeat case_decide; try discriminate.
  apply elem_of_cons in Hc as [-> |[-> |[-> | ?%not_elem_of_nil]%elem_of_cons]%elem_of_cons]; done.
Qed.

Lemma file_ok d body rows closures :
  http (FeedURL (client n) d "lcs" "lcs") = Reply 200 body -> decode_lcs (limit Cwwp2.maxBody body) = inr rows -> file d = inr closures ->
  rows <> [] /\ closures = set_district d <$> (window_of <$> rows)
  /\ checkFresh (client n) now (newest_record (window_of <$> rows)) (length (window_of <$> rows)) = None.
Proof.
  intros Hh Hd. unfold file, LaneClosures, get. rewrite Hh. change (negb (200 =? 200)) with false. cbn iota. unfold ParseLaneClosures. rewrite Hd.
  destruct rows as [|r rows]; [done|]. change (window_of <$> r :: rows) with (window_of r :: (window_of <$> rows)) at 1. cbn iota.
  change (window_of r :: (window_of <$> rows)) with (window_of <$> r :: rows). destruct (checkFresh _ _ _ _); [done|]. by intros [= <-].
Qed.

(** C23: Drift is loud. If a district's file decodes to no row, carries no stamp that is
    recent, or has a row that may be in scope with a radio code that does not say
    true or false, then the poll fails or degrades the source, so that nothing that
    is missing from it is read as closures that ended. *)
Theorem drift_is_loud d body rows res :
  d ∈ districts n -> http (FeedURL (client n) d "lcs" "lcs") = Reply 200 body -> decode_lcs (limit Cwwp2.maxBody body) = inr rows ->
  rows = []
  \/ 0 < StaleAfter (client n) /\ (forall r, r ∈ rows -> stamp_time (r_Record r) = 0 \/ StaleAfter (client n) < time_sub now (stamp_time (r_Record r)))
  \/ (exists r c, r ∈ rows /\ c ∈ [Code1097 r; Code1098 r; Code1022 r] /\ (called (code_of c)).2 = false
        /\ (in_scope (window_of r) \/ unplaced (window_of r))) ->
  Poll n http prior now = inr res -> is_Some (PerSource res !! laneClosureSourceID).
Proof.
  intros Hd Hhttp Hdec Hdrift H. apply (degraded_iff res H).
  destruct (file d) as [e|closures] eqn:E; [left; by exists d, e|]. right. destruct (file_ok d body rows closures Hhttp Hdec E) as (Hne & -> & Hfresh).
  destruct Hdrift as [Hnil|[[Hs Hstamps]|(r & c & Hr & Hc & Hf & Hpl)]]; [done| |].
  - exfalso. unfold checkFresh in Hfresh. rewrite (proj2 (Z.leb_gt _ _) Hs), length_fmap in Hfresh.
    destruct rows as [|r0 rows]; [done|]. cbn [length Nat.eqb orb] in Hfresh. unfold time_is_zero in Hfresh.
    destruct (Z.eqb_spec (newest_record (window_of <$> r0 :: rows)) 0) as [E0|E0]; [done|].
    destruct (newest_one_of (window_of <$> r0 :: rows) time_zero) as [E1|(lc & (r & -> & Hr)%list_elem_of_fmap & E1)]; [done|].
    unfold newest_record in Hfresh, E0. rewrite E1 in Hfresh, E0. change (RecordedAt (window_of r)) with (stamp_time (r_Record r)) in Hfresh, E0.
    destruct (Hstamps r Hr) as [Hz|Hlt]; [done|]. by rewrite (proj2 (Z.ltb_lt _ _) Hlt) in Hfresh.
  - exists (set_district d (window_of r)). split.
    + exists d, (set_district d <$> (window_of <$> rows)). split_and!; [done..|]. by do 2 apply list_elem_of_fmap_2.
    + split; [exact (unread_flag r c Hc Hf)|exact Hpl].
Qed.

End Closures.
(** ** A mountain road *)

Module ClosuresDemo.

#[local] Existing Instance ascii_only.
#[local] Instance upper : UnicodeUpper := {| unicode_upper s := s |}.
#[local] Instance geo_text : GeoText := {| marshal_string s := s; point_json _ _ := "{}" |}.
#[local] Instance flat : MathKernel := {| Sin x := x; Cos _ := one; Asin x := x; Acos x := x; Atan2 x _ := x |}.
#[local] Instance texts : PowerText :=
  {| Power.rfc3339_text _ := "then"; Power.age_text _ := "long"; Power.duration_text _ := "limit"; Power.time_text _ := "" |}.

Definition at_place (prefix lat : string) : gmap string string := <[prefix +:+ "Latitude" := lat]> {[prefix +:+ "Longitude" := "-120"]}.
Definition code_ (flag : string) : list (string * string) := [("isCode1097", flag); ("code1097Timestamp", "")].
(** A window of closure C4QB with its flag for a crew on scene. *)
Definition row (log index lat flag : string) : lcsRow :=
  mkLcsRow index (mkStamp "" "" "1999990") "East" (at_place "begin" lat) ∅ "C4QB" log (mkStamp "" "" "") (mkStamp "" "" "1990000")
    (mkStamp "" "" "2003600") "false" "Conventional Hwy" "One-Way Traffic" "Tree Work" "Standard" "10" "1" "2" "true"
    (code_ flag) (code_ "False") (code_ "false").

Definition first_day := row "0004" "C4QB-0004-2026-10-02-07:01:00" "38" "true".
Definition second_day := row "0004" "C4QB-0004-2026-10-03-07:01:00" "38" "true".
Definition tomorrow := row "0005" "C4QB-0005-2026-10-04-07:01:00" "39" "false".
Definition renamed := row "0006" "C4QB-0006-2026-10-04-07:01:00" "39" "".
Definition nowhere := row "0007" "C4QB-0007-2026-10-04-07:01:00" "NaN" "".

#[local] Instance portal : PortalText :=
  {| decode_lcs b := if String.eqb b "two" then inr [first_day; tomorrow] else if String.eqb b "overlap" then inr [first_day; second_day; tomorrow]
                     else if String.eqb b "drift" then inr [first_day; renamed] else if String.eqb b "nan" then inr [first_day; nowhere] else inr [];
     unmarshal_string v := Some v;
     unmarshal_strings _ := None;
     float_value s := if String.eqb s "38" then of_Z 38 else if String.eqb s "39" then of_Z 39 else if String.eqb s "-120" then of_Z (-120)
                      else if String.eqb s "NaN" then SpecFloat.S754_nan else zero;
     parse_pacific_local _ := None |}.

Definition box : GeoBounds := {| MinLatitude := of_Z 37; MaxLatitude := of_Z 40; MinLongitude := of_Z (-121); MaxLongitude := of_Z (-119) |}.
Definition district : LaneClosureNormalizer := mkNormalizer [box] (mkClient "https://portal/" hour) [10] 0.
Definition now : Time := time_of_unix 2000000.
Definition server (body : string) (url : string) : Response :=
  if String.eqb url "https://portal/d10/lcs/lcsStatusD10.json" then Reply 200 body else Reply 500 "".

(** The event of the older feed. *)
Definition older : Event := set_id "caltrans:C4QB-4-0a1b2c" (buildLaneClosureEvent (set_district 10 (window_of first_day)) ACTIVE now).
Definition prior : Prior := mkPrior ∅ {["caltrans" := [older]]}.

Definition shown (x : string + PollResult) : list (string * EventStatus * string) * list string :=
  match x with
  | inr res => ((fun ev => (Id ev, status ev, headline ev)) <$> Events res, (map_to_list (PerSource res)).*2)
  | inl e => ([], [e])
  end.

Example polls :
  shown (Poll district (server "two") prior now)
    = ([("caltrans:C4QB-4-0a1b2c", ACTIVE, "Eastbound one-way traffic control (Tree Work)");
        ("caltrans:d10-C4QB-0005-2026-10-04-070100", SCHEDULED, "Eastbound one-way traffic control (Tree Work)")], [])
  /\ shown (Poll district (server "drift") prior now)
    = ([("caltrans:C4QB-4-0a1b2c", ACTIVE, "Eastbound one-way traffic control (Tree Work)")],
       ["partial lane-closure coverage: 1 unreadable lane-closure row(s) in scope: d10 C4QB-0006-2026-10-04-07:01:00 ( ): unreadable 10-97 flag"]).
Proof. by vm_compute. Qed.

(** The adoption is not stable: when the next day's window of the same log is set up
    at the same place while the first is still in place, the match is no longer
    unique, and the older event is missing from a healthy poll. *)
Example adoption_lost :
  (shown (Poll district (server "overlap") prior now)).1.*1.*1
    = ["caltrans:d10-C4QB-0004-2026-10-02-070100"; "caltrans:d10-C4QB-0004-2026-10-03-070100"; "caltrans:d10-C4QB-0005-2026-10-04-070100"]
  /\ (shown (Poll district (server "overlap") prior now)).2 = [].
Proof. by vm_compute. Qed.

(** A row whose position is no number counts as placed outside every area, so that
    its unreadable flag degrades nothing. *)
Example nan_placed : HasPosition (Begin (window_of nowhere)) = true /\ (shown (Poll district (server "nan") prior now)).2 = [].
Proof. by vm_compute. Qed.

Abbreviation poll body := (Poll district (server body) prior now).
Definition result (x : string + PollResult) : PollResult := match x with inr res => res | inl _ => poll_result [] ∅ [] end.

Lemma legacy_adopted_witness : exists kept, length kept = 2%nat /\ forall lc, lc ∈ kept -> current district now lc.
Proof.
  assert (Hp : poll "two" = inr (result (poll "two"))) by (vm_compute; reflexivity).
  assert (Hn : NoDup (Id <$> ForSource prior laneClosureSourceID)) by (apply NoDup_singleton).
  destruct (legacy_adopted district (server "two") prior now (result (poll "two")) Hn Hp) as (kept & Hk & _ & _ & Hl & _).
  exists kept. split; [rewrite <-Hl; vm_compute; reflexivity|]. intros lc Hlc. apply (Hk lc Hlc).
Defined.

Lemma drift_is_loud_witness : is_Some (PerSource (result (poll "drift")) !! laneClosureSourceID).
Proof.
  assert (Hp : poll "drift" = inr (result (poll "drift"))) by (vm_compute; reflexivity).
  apply (drift_is_loud district (server "drift") prior now 10 "drift" [first_day; renamed] _).
  - left.
  - vm_compute. reflexivity.
  - vm_compute. reflexivity.
  - right. right. exists renamed, (code_ ""). split_and!; [right; left|left|vm_compute; reflexivity|].
    left. exists (Begin (window_of renamed)), box. split_and!; [left|vm_compute; reflexivity|left|vm_compute; reflexivity].
  - exact Hp.
Defined.

Lemma closures_kept_witness :
  exists lc ev, ev ∈ Events (result (poll "two")) /\ current district now lc /\ closure_of ev = Some (closure_detail lc)
    /\ laneClosureEventID lc = "caltrans:d10-C4QB-0004-2026-10-02-070100".
Proof.
  assert (Hp : poll "two" = inr (result (poll "two"))) by (vm_compute; reflexivity).
  destruct (closures_kept district (server "two") prior now) as [_ Hk]. destruct (Hk _ Hp) as (_ & Hk1 & _).
  destruct (Hk1 (set_district 10 (window_of first_day))) as (lc' & ev & Hev & _ & Hcur & Hid & Hd & _).
  - exists 10, (set_district 10 <$> (window_of <$> [first_day; tomorrow])). split; [left|]. split; [vm_compute; reflexivity|left].
  - split; [vm_compute; reflexivity|]. split.
    + exists (Begin (window_of first_day)), box. split_and!; [left|vm_compute; reflexivity|left|vm_compute; reflexivity].
    + intros [H|[H|(_ & _ & H)]]; [vm_compute in H; discriminate H..|]. vm_compute in H. by apply H.
  - exists lc', ev. split; [exact Hev|]. split; [exact Hcur|]. split; [exact Hd|]. rewrite Hid. vm_compute. reflexivity.
Defined.

End ClosuresDemo.
End ClosuresSpec.
