(* ===== verification/WeatherAlerts.v ===== *)
(** * The weather alert feed

    [internal/ingest/weather_alert.go] over the alert half of
    [internal/services/weather_nws.go] and [weather.go] and over
    [internal/clients/nws/client.go], [headline.go] and [fireweather.go]: the
    alerts of the configured zones, fetched at most once in a refresh interval
    through the shared cache. What the server answers is a function of the zones it
    is asked for. [encoding/json] and the layout of RFC 3339 are classes; one
    reading of the clock stands for those of a call. The log is left out. *)

From Stdlib Require Import Ascii.
From stdpp Require Import pretty.
From S2P Require Import Prelude Float64 GridEvent GoText Scheduler Severity Feeds Cache Hazards.

(** ** The client *)

Module Nws.
Import Text Feeds.

Record Alert := mkAlert {
  ID : string; Event : string; Severity : string; Certainty : string; Urgency : string; Headline : string; NWSHeadline : string;
  Description : string; Instruction : string; SenderName : string; AreaDesc : string;
  Effective : Time; Expires : Time; Onset : Time; Ends : Time; Zones : list string }.

Definition Begins (a : Alert) : Time := if negb (time_is_zero (Onset a)) then Onset a else Effective a.
Definition EndsAt (a : Alert) : Time := if negb (time_is_zero (Ends a)) then Ends a else Expires a.

Record alertProperties := mkAlertProperties {
  p_ID : string; p_Event : string; p_Severity : string; p_Certainty : string; p_Urgency : string; p_Headline : string;
  p_Description : string; p_Instruction : string; p_SenderName : string; p_AreaDesc : string;
  p_Effective : string; p_Expires : string; p_Onset : string; p_Ends : string; UGC : list string;
  Parameters : gmap string (list string) }.

(** The decoder of a collection of alerts, and the layout. *)
Class NwsJson := { decode_alerts : string -> string + list alertProperties; parse_rfc3339 : string -> option Time }.

Definition firstParam (params : gmap string (list string)) (key : string) : string :=
  match params !! key with Some (v :: _) => TrimSpace v | _ => "" end.

Section Client.
Context {UU : UnicodeUpper} {NJ : NwsJson}.

Definition parseTime (s : string) : Time := if String.eqb s "" then time_zero else default time_zero (parse_rfc3339 s).

Definition alert_of (p : alertProperties) : Alert :=
  mkAlert (p_ID p) (p_Event p) (p_Severity p) (p_Certainty p) (p_Urgency p) (p_Headline p) (firstParam (Parameters p) "NWSheadline")
    (p_Description p) (p_Instruction p) (p_SenderName p) (p_AreaDesc p) (parseTime (p_Effective p)) (parseTime (p_Expires p))
    (parseTime (p_Onset p)) (parseTime (p_Ends p)) (UGC p).
Definition toAlerts (l : list alertProperties) : list Alert := alert_of <$> l.

Definition clean_zone (part : string) : string := ToUpper (TrimSpace part).
Definition add_zone (out : list string) (part : string) : list string :=
  let zc := clean_zone part in if String.eqb zc "" || bool_decide (zc ∈ out) then out else out ++ [zc].
Definition cleanZones (zones : list string) : list string := foldl add_zone [] (zones ≫= fun z => Split z ","%char).

(** [server] is what the API answers for a list of zones; without a zone it is
    not asked. *)
Definition GetActiveZoneAlerts (server : list string -> Response) (zones : list string) : string + list Alert :=
  match cleanZones zones with
  | [] => inr []
  | zones =>
      match server zones with
      | NoReply err => inl ("failed to execute NWS request: " +:+ err)
      | Reply status body =>
          if 400 <=? status then inl ("NWS API error " +:+ pretty status +:+ ": " +:+ body)
          else match decode_alerts body with
               | inl e => inl ("failed to decode NWS response: " +:+ e)
               | inr l => inr (toAlerts l)
               end
      end
  end.

End Client.

(** *** The headline *)

Definition timingPrefixes : list string :=
  ["REMAINS IN EFFECT"; "NOW IN EFFECT"; "IS IN EFFECT"; "IN EFFECT"; "HAS BEEN EXTENDED"; "HAS BEEN CANCELLED"; "HAS BEEN CANCELED";
   "HAS EXPIRED"; "IS CANCELLED"; "IS CANCELED"; "CANCELLED"; "CANCELED"; "EXTENDED"].
Definition maxReasonLen : nat := 96.
Definition keepUpper : list string :=
  ["MPH"; "KT"; "KTS"; "RH"; "AQI"; "UV"; "AM"; "PM"; "PST"; "PDT"; "MST"; "MDT"; "UTC"; "NWS"; "CWA"; "F"; "C"].

(** [regexp]: white space, a word character, letters whatever their case. *)
Definition re_space (c : ascii) : bool := bool_decide (code c ∈ [9; 10; 12; 13; 32]%N).
Definition re_word (c : ascii) : bool :=
  let n := code c in is_digit n || N.eqb n 95 || ((65 <=? n) && (n <=? 90) || (97 <=? n) && (n <=? 122))%N.
Fixpoint drop_spaces (l : list ascii) : list ascii := match l with c :: r => if re_space c then drop_spaces r else l | [] => [] end.
(** White space, one at least. *)
Definition spaces (l : list ascii) : option (list ascii) :=
  match l with c :: r => if re_space c then Some (drop_spaces r) else None | [] => None end.
Definition folded (w : list ascii) (l : list ascii) : option (list ascii) :=
  strip (fun a b => N.eqb (lower_byte (code a)) (lower_byte (code b))) w l.
Definition first_word (ws : list string) (l : list ascii) : option (list ascii) := head (omap (fun w => folded (bytes w) l) ws).
(** A word of some, then white space; without it the rest is read as it stands. *)
Definition optional_word (ws : list string) (l : list ascii) : list ascii := default l (first_word ws l ≫= spaces).

(** Whether [zoneTail] matches here: " FOR [THE] [FIRE] ZONES", then anything on the
    line. *)
Definition zone_tail_here (l : list ascii) : bool :=
  match (l ← spaces l; l ← first_word ["FOR"; "IN"] l; spaces l) with
  | Some l =>
      match folded (bytes "ZONE") (optional_word ["FIRE"; "FORECAST"; "COASTAL"; "MARINE"] (optional_word ["THE"] l)) with
      | Some l =>
          let rest := default l (folded (bytes "S") l) in
          match rest with c :: _ => negb (re_word c) | [] => true end && forallb (fun c => negb (N.eqb (code c) 10)) rest
      | None => false
      end
  | None => false
  end.
Fixpoint cut_zone_tail (l : list ascii) : list ascii :=
  match l with [] => [] | c :: r => if zone_tail_here l then [] else c :: cut_zone_tail r end.

(** [strings.Trim] of a set of bytes, and what follows the first match. *)
Fixpoint trim_left (p : ascii -> bool) (l : list ascii) : list ascii := match l with c :: r => if p c then trim_left p r else l | [] => [] end.
Definition Trim (s cutset : string) : string :=
  let p c := bool_decide (c ∈ bytes cutset) in of_bytes (reverse (trim_left p (reverse (trim_left p (bytes s))))).
Fixpoint after_match (sep l : list ascii) : option (list ascii) :=
  match strip Ascii.eqb sep l with
  | Some rest => Some rest
  | None => match l with [] => None | _ :: l => after_match sep l end
  end.

Section Headline.
Context {UL : UnicodeLower} {UU : UnicodeUpper}.

Definition unshout_word (f : string) : string :=
  if bool_decide (Trim f ".,;:()" ∈ keepUpper) || existsb (fun c => is_digit (code c)) (bytes f) then f else ToLower f.
Definition unshout (s : string) : string := join " " (unshout_word <$> Fields s).

(** What follows the product's name: past the timing clause, if there is one. *)
Definition after_timing (rest : string) : option string :=
  if existsb (HasPrefix rest) timingPrefixes then (fun l => TrimSpace (of_bytes l)) <$> after_match (bytes " FOR ") (bytes rest)
  else Some rest.

Definition headlineReason (nwsHeadline event : string) : string :=
  let rest := TrimSpace (ToUpper nwsHeadline) in
  if String.eqb rest "" then ""
  else
    let rest := TrimSpace (TrimSuffix (TrimPrefix rest "...") "...") in
    let e := ToUpper (TrimSpace event) in
    let rest := if negb (String.eqb e "") && HasPrefix rest e then TrimSpace (TrimPrefix rest e) else rest in
    match after_timing rest with
    | None => ""
    | Some rest =>
        let rest := Trim (TrimSpace (of_bytes (cut_zone_tail (bytes (TrimPrefix rest "FOR "))))) " .,;" in
        if String.eqb rest "" || (maxReasonLen <? String.length rest)%nat then "" else unshout rest
    end.

Definition ShortHeadline (a : Alert) : string :=
  let event := TrimSpace (Event a) in
  let reason := headlineReason (NWSHeadline a) event in
  if negb (String.eqb event "") && negb (String.eqb reason "") then event +:+ " — " +:+ reason
  else if negb (String.eqb event "") then event
  else TrimSpace (Headline a).

(** *** Fire weather *)

Definition FireWeatherNormal : string := "normal".
Definition FireWeatherElevated : string := "elevated".
Definition FireWeatherRedFlag : string := "red-flag".
Definition eventRedFlagWarning : string := "Red Flag Warning".
Definition eventFireWeatherWatch : string := "Fire Weather Watch".

Record FireWeather := mkFireWeather {
  f_State : string; f_SourceEvent : string; f_Headline : string; f_SenderName : string; f_Effective : Time; f_Expires : Time;
  f_Zones : list string }.

Definition alertIntersectsZones (a : Alert) (zones : list string) : bool :=
  existsb (fun z => bool_decide (ToUpper (TrimSpace z) ∈ zones)) (Zones a).
Definition fireWeatherFromAlert (state : string) (a : Alert) : FireWeather :=
  mkFireWeather state (Event a) (ShortHeadline a) (SenderName a) (Begins a) (EndsAt a) (Zones a).

(** The first warning in effect, the first that is to come, the first watch. *)
Definition note_alert (zones : list string) (now : Time) (st : option Alert * option Alert * option Alert) (a : Alert)
    : option Alert * option Alert * option Alert :=
  let '(redFlag, pending, watch) := st in
  if negb (Nat.eqb (length zones) 0) && negb (alertIntersectsZones a zones) then st
  else if String.eqb (Event a) eventRedFlagWarning then
    if negb (time_is_zero (Begins a)) && time_after (Begins a) now
    then (redFlag, Some (default a pending), watch)
    else (Some (default a redFlag), pending, watch)
  else if String.eqb (Event a) eventFireWeatherWatch then (redFlag, pending, Some (default a watch))
  else st.

Definition ClassifyFireWeather (alerts : list Alert) (zones : list string) (now : Time) : FireWeather :=
  match foldl (note_alert (cleanZones zones) now) (None, None, None) alerts with
  | (Some a, _, _) => fireWeatherFromAlert FireWeatherRedFlag a
  | (None, Some a, _) => fireWeatherFromAlert FireWeatherElevated a
  | (None, None, Some a) => fireWeatherFromAlert FireWeatherElevated a
  | (None, None, None) => mkFireWeather FireWeatherNormal "" "" "" time_zero time_zero []
  end.

End Headline.
End Nws.

(** ** The service and the normalizer *)

Module WeatherAlerts.
Import Grid Text Feeds Nws.
Import Scheduler (Prior, PollResult).
Import Cache (CreatedAt).
Import Hazards (ApiFireWeather, mkApiFireWeather, FIRE_WEATHER_STATE_UNSPECIFIED, NORMAL, ELEVATED, RED_FLAG).

Definition nwsAlertsCacheKey : string := "nws:alerts".
Definition nwsAttribution : string := "NOAA / National Weather Service".
Definition nwsSourceName : string := "National Weather Service".

(** What the service reads of its configuration, and its client if it has one. *)
Record WeatherService := mkWeatherService { NWSZones : list string; RefreshInterval : Duration; nwsClient : option (list string -> Response) }.

Definition NWSAlertID (a : Alert) : string :=
  if negb (String.eqb (ID a) "") then ID a else "nws_" +:+ Event a +:+ "_" +:+ pretty (time_unix (Effective a)).

Section Service.
Context {UL : UnicodeLower} {UU : UnicodeUpper} {NJ : NwsJson} {JA : Json (list Alert)}.
Variable s : WeatherService.

Definition fetchNWSAlerts (now : Time) (c : Cache.Cache) : Cache.Cache * (string + list Alert) :=
  match nwsClient s, NWSZones s with
  | None, _ | _, [] => (c, inr [])
  | Some server, zones =>
      match Cache.Get now nwsAlertsCacheKey c c with
      | inr (Some cached) => (c, inr cached)
      | _ =>
          match GetActiveZoneAlerts server zones with
          | inl e => (c, inl ("failed to fetch NWS zone alerts: " +:+ e))
          | inr alerts => ((Cache.Set_ now nwsAlertsCacheKey alerts (RefreshInterval s) "nws_alerts" c).1, inr alerts)
          end
      end
  end.

Definition getNWSAlerts (now : Time) (c : Cache.Cache) : Cache.Cache * list Alert :=
  match fetchNWSAlerts now c with
  | (c, inr alerts) => (c, alerts)
  | (c, inl _) =>
      (c, match Cache.GetWithMetadata nwsAlertsCacheKey c with
          | Some (_, r) => if Cache.IsVeryStale now nwsAlertsCacheKey c then [] else match r with inr l => l | inl _ => [] end
          | None => []
          end)
  end.

(** The alerts, when they were fetched, the error. *)
Definition RawNWSAlerts (now : Time) (c : Cache.Cache) : Cache.Cache * (list Alert * Time * option string) :=
  match Cache.GetWithMetadata nwsAlertsCacheKey c, Cache.IsStale now nwsAlertsCacheKey c with
  | Some (entry, inr cached), false => (c, (cached, CreatedAt entry, None))
  | _, _ =>
      match fetchNWSAlerts now c with
      | (c, inr fresh) => (c, (fresh, now, None))
      | (c, inl err) =>
          match Cache.GetWithMetadata nwsAlertsCacheKey c, Cache.IsVeryStale now nwsAlertsCacheKey c with
          | Some (entry, inr stale), false => (c, (stale, CreatedAt entry, Some err))
          | _, _ => (c, ([], time_zero, Some err))
          end
      end
  end.

Definition mapFireWeatherState (st : string) : Hazards.FireWeatherState :=
  if String.eqb st FireWeatherNormal then NORMAL
  else if String.eqb st FireWeatherElevated then ELEVATED
  else if String.eqb st FireWeatherRedFlag then RED_FLAG
  else FIRE_WEATHER_STATE_UNSPECIFIED.

Definition computeRegionFireWeather (now : Time) (c : Cache.Cache) : Cache.Cache * ApiFireWeather :=
  let '(c, alerts) := getNWSAlerts now c in
  let fw := ClassifyFireWeather alerts (NWSZones s) now in
  let stamp t := if time_is_zero t then None else Some (time_unix t) in
  (c, mkApiFireWeather (mapFireWeatherState (f_State fw)) (f_SourceEvent fw) (f_Headline fw) (f_SenderName fw)
        (stamp (f_Effective fw)) (stamp (f_Expires fw)) (f_Zones fw)).

(** *** The normalizer *)

Definition SourceIDs : list string := ["nws"].

Definition alert_event (areas : list HazardArea) (now : Time) (a : Alert) : Grid.Event :=
  let begins := Begins a in
  let st := if negb (time_is_zero begins) && time_after begins now then SCHEDULED else ACTIVE in
  mkEvent ("wx:" +:+ NWSAlertID a) WEATHER_ALERT (Nws.Event a) (Feeds.SeverityFromLabel (Severity.fromNWSSeverity (Nws.Severity a))) st
    (ShortHeadline a) "" (Description a) "" "" None
    ((fun area => "area:" +:+ ha_ID area) <$> filter (fun area => zonesMatch (ha_Zones area) (Zones a) = true) areas)
    (Some (NewProvenance "nws" (nonEmpty [SenderName a; nwsSourceName]) nwsAttribution "" now))
    (tsProto begins) (tsProto (EndsAt a)) None None 0 None
    (Some (D_WeatherAlert (mkWeatherAlertDetail (Nws.Severity a) (Certainty a) (Urgency a) (Instruction a) (AreaDesc a) (Zones a)))).

Definition Poll (areas : list HazardArea) (now : Time) (c : Cache.Cache) : Cache.Cache * (string + PollResult) :=
  match NWSZones s with
  | [] => (c, inl (errEmptyScope "nws zones"))
  | _ =>
      let '(c, (alerts, _, err)) := RawNWSAlerts now c in
      let events := alert_event areas now <$> alerts in
      (c, match err with
          | Some e => if Nat.eqb (length alerts) 0 then inl e else inr (poll_result events {[ "nws" := e ]} [])
          | None => inr (poll_result events ∅ [])
          end)
  end.

End Service.
End WeatherAlerts.
