(* ===== verification/WeatherAlertsSpec.v ===== *)
(** * What the weather alert feed promises

    Over any history of polls, readings by others and cleanups, a poll's events are
    the whole of one answer of the server, of less than a refresh interval ago when
    the source is healthy and of less than two when the poll says that it is not; a
    red flag is reported exactly when a warning for the zones has begun. *)

From Stdlib Require Import Ascii.
From stdpp Require Import pretty.
From S2P Require Import Prelude Float64 GridEvent GoText Scheduler Severity Feeds Cache Hazards HazardsSpec WeatherAlerts.

Module WeatherAlertsSpec.
Import Grid Text Feeds Nws WeatherAlerts.
Import Scheduler (PollResult, Events, PerSource).
Import HazardsSpec (RoundTrip, round_trip).
Import Cache (CacheEntry, CreatedAt, ExpiresAt, Data).

Section Alerts.
Context {UL : UnicodeLower} {UU : UnicodeUpper} {NJ : NwsJson} {JA : Json (list Alert)} {RT : RoundTrip JA}.
Variables (zones : list string) (refresh : Duration) (areas : list HazardArea).

Definition asking (server : list string -> Response) : WeatherService := mkWeatherService zones refresh (Some server).

(** ** Histories *)

(** A poll, a reading of the alerts by another consumer, and what others do to the
    cache. *)
Inductive request := Tick (now : Time) (server : list string -> Response) | Ask (now : Time) (server : list string -> Response)
  | Other (o : Cache.op).
Definition foreign (r : request) : Prop := match r with Other (Cache.OSet _ k _ _ _) => k <> nwsAlertsCacheKey | _ => True end.

Definition handle (c : Cache.Cache) (r : request) : Cache.Cache :=
  match r with
  | Tick now server => (Poll (asking server) areas now c).1
  | Ask now server => (getNWSAlerts (asking server) now c).1
  | Other o => Cache.step c o
  end.
Definition run (l : list request) : Cache.Cache := foldl handle ∅ l.

(** The server answered a request of the history with these alerts. *)
Definition answered (l : list request) (t : Time) (alerts : list Alert) : Prop :=
  exists server, (Tick t server ∈ l \/ Ask t server ∈ l) /\ GetActiveZoneAlerts server zones = inr alerts.

Definition honest_entry (l : list request) (e : CacheEntry) : Prop :=
  exists t alerts, answered l t alerts /\ marshal alerts = Some (Data e)
    /\ e = Cache.new_entry t nwsAlertsCacheKey (Data e) refresh "nws_alerts".
Definition honest (l : list request) (c : Cache.Cache) : Prop := forall e, c !! nwsAlertsCacheKey = Some e -> honest_entry l e.

Lemma honest_more l l' e : honest_entry l e -> honest_entry (l ++ l') e.
Proof.
  intros (t & alerts & (server & Hin & Ha) & Hm & He). exists t, alerts. split; [|done]. exists server. split; [|done].
  rewrite !elem_of_app. tauto.
Qed.

(** A fetch leaves the cache or writes what the server just said. *)
Lemma fetch_cases server now c : zones <> [] ->
  let '(c', r) := fetchNWSAlerts (asking server) now c in
  (c' = c /\ ((exists e, r = inl e /\ exists e', GetActiveZoneAlerts server zones = inl e')
              \/ exists cached, r = inr cached /\ Cache.Get now nwsAlertsCacheKey c c = inr (Some cached)
              \/ r = inr cached /\ GetActiveZoneAlerts server zones = inr cached))
  \/ exists alerts data, r = inr alerts /\ GetActiveZoneAlerts server zones = inr alerts /\ marshal alerts = Some data
       /\ c' = <[nwsAlertsCacheKey := Cache.new_entry now nwsAlertsCacheKey data refresh "nws_alerts"]> c.
Proof.
  intros Hz. unfold fetchNWSAlerts. cbn [nwsClient NWSZones asking RefreshInterval]. destruct zones as [|z zs] eqn:Ez; [done|]. rewrite <-Ez in *.
  destruct (Cache.Get now nwsAlertsCacheKey c c) as [e|[cached|]] eqn:Hg; [| left; split; [done|]; right; exists cached; by left|].
  all: destruct (GetActiveZoneAlerts server zones) as [e'|alerts] eqn:Ha; [left; split; [done|]; left; eexists; split; [done|by eexists]|].
  all: unfold Cache.Set_; destruct (marshal alerts) as [data|] eqn:Hm; cbn [fst];
    [right; exists alerts, data; done|left; split; [done|]; right; exists alerts; by right].
Qed.

Lemma fetch_honest server now c l r : zones <> [] -> r = Tick now server \/ r = Ask now server -> honest l c ->
  honest (l ++ [r]) (fetchNWSAlerts (asking server) now c).1.
Proof.
  intros Hz Hr Hh. pose proof (fetch_cases server now c Hz) as Hf. destruct (fetchNWSAlerts (asking server) now c) as [c' x].
  destruct Hf as [[-> _]|(alerts & data & _ & Ha & Hm & ->)]; cbn [fst]; intros e He; [by apply honest_more, Hh|].
  rewrite lookup_insert_eq in He. injection He as <-. exists now, alerts. split; [|done]. exists server. split; [|done].
  rewrite !elem_of_app, !list_elem_of_singleton. destruct Hr as [-> | ->]; auto.
Qed.

Lemma raw_cache server now c : (RawNWSAlerts (asking server) now c).1 = c \/ (RawNWSAlerts (asking server) now c).1 = (fetchNWSAlerts (asking server) now c).1.
Proof.
  unfold RawNWSAlerts. destruct (Cache.GetWithMetadata nwsAlertsCacheKey c) as [[entry [e|cached]]|], (Cache.IsStale now nwsAlertsCacheKey c).
  all: try (by left).
  all: right; destruct (fetchNWSAlerts (asking server) now c) as [c' [e'|fresh]]; cbn [fst]; [|done].
  all: by destruct (Cache.GetWithMetadata nwsAlertsCacheKey c') as [[? [?|?]]|], (Cache.IsVeryStale now nwsAlertsCacheKey c').
Qed.

Lemma poll_cache server now c : zones <> [] -> (Poll (asking server) areas now c).1 = (RawNWSAlerts (asking server) now c).1.
Proof.
  intros Hz. unfold Poll. change (NWSZones (asking server)) with zones. destruct zones as [|z zs] eqn:Ez; [done|]. rewrite <-Ez in *.
  by destruct (RawNWSAlerts (asking server) now c) as [c' [[alerts t] err]].
Qed.

Lemma get_cache server now c : (getNWSAlerts (asking server) now c).1 = (fetchNWSAlerts (asking server) now c).1.
Proof. unfold getNWSAlerts. by destruct (fetchNWSAlerts (asking server) now c) as [c' [?|?]]. Qed.

Lemma honest_step l r c : zones <> [] -> foreign r -> honest l c -> honest (l ++ [r]) (handle c r).
Proof.
  intros Hz Hf Hh. destruct r as [now server|now server|o]; cbn [handle foreign] in *.
  - rewrite poll_cache by done. destruct (raw_cache server now c) as [-> | ->]; [intros e He; by apply honest_more, Hh|].
    apply fetch_honest; auto.
  - rewrite get_cache. apply fetch_honest; auto.
  - intros e He. apply honest_more, Hh. destruct o as [now k d i src|k| |now]; cbn [Cache.step] in He.
    + by rewrite lookup_insert_ne in He.
    + by apply lookup_delete_Some in He as [_ ?].
    + by rewrite lookup_empty in He.
    + rewrite Cache.cleanup_lookup in He. destruct (c !! nwsAlertsCacheKey) as [e0|]; cbn in He; [|done]. by destruct (Cache.very_stale _ _).
Qed.

Lemma history_honest l : zones <> [] -> Forall foreign l -> honest l (run l).
Proof.
  intros Hz. induction l as [|r l IH] using rev_ind; intros Hl; [intros e He; change (run []) with (∅ : Cache.Cache) in He; by rewrite lookup_empty in He|].
  apply Forall_app in Hl as [Hl Hr]. unfold run. rewrite foldl_app. apply honest_step; [done|by inversion Hr|by apply IH].
Qed.

(** ** One poll *)

(** The list in the cache was an answer, at the time its entry says. *)
Lemma entry_alerts l c e cached : honest l c -> c !! nwsAlertsCacheKey = Some e -> unmarshal (Data e) = inr cached ->
  exists t, answered l t cached /\ e = Cache.new_entry t nwsAlertsCacheKey (Data e) refresh "nws_alerts".
Proof using RT.
  intros Hh He Hu. destruct (Hh e He) as (t & alerts & Ha & Hm & Hne). exists t. split; [|done].
  rewrite (round_trip alerts _ Hm) in Hu. by injection Hu as ->.
Qed.

Lemma fresh_entry now c e : c !! nwsAlertsCacheKey = Some e -> Cache.IsStale now nwsAlertsCacheKey c = false -> now <= ExpiresAt e.
Proof. intros He. unfold Cache.IsStale, Cache.expired, time_after. rewrite He. apply Z.ltb_ge. Qed.

Lemma kept_entry now c e : c !! nwsAlertsCacheKey = Some e -> Cache.IsVeryStale now nwsAlertsCacheKey c = false ->
  now <= CreatedAt e + Cache.double (Cache.RefreshInterval e).
Proof. intros He. unfold Cache.IsVeryStale, Cache.very_stale, time_after, time_add. rewrite He. apply Z.ltb_ge. Qed.

Lemma metadata c r : Cache.GetWithMetadata nwsAlertsCacheKey c = Some r ->
  c !! nwsAlertsCacheKey = Some r.1 /\ forall cached, r.2 = inr cached -> unmarshal (Data r.1) = inr cached.
Proof.
  unfold Cache.GetWithMetadata. destruct (c !! nwsAlertsCacheKey) as [e|]; [|done]. cbn. intros [= <-]. cbn. split; [done|].
  intros cached. destruct (unmarshal (Data e)); [done|]. by intros [= ->].
Qed.

Lemma answered_more l l' t alerts : answered l t alerts -> answered (l ++ l') t alerts.
Proof. intros (server & Hin & Ha). exists server. split; [|done]. rewrite !elem_of_app. tauto. Qed.

Lemma answered_now l now server alerts : GetActiveZoneAlerts server zones = inr alerts -> answered (l ++ [Tick now server]) now alerts.
Proof. intros Ha. exists server. split; [|done]. left. apply elem_of_app. right. by apply list_elem_of_singleton. Qed.

Lemma fetch_answer l c server now : zones <> [] -> 0 <= refresh -> honest l c ->
  match fetchNWSAlerts (asking server) now c with
  | (c', inl _) => c' = c /\ exists e, GetActiveZoneAlerts server zones = inl e
  | (_, inr alerts) => exists t, answered (l ++ [Tick now server]) t alerts /\ now <= t + refresh
  end.
Proof using RT.
  intros Hz Hr Hh. pose proof (fetch_cases server now c Hz) as Hf. destruct (fetchNWSAlerts (asking server) now c) as [c' x].
  destruct Hf as [[-> [(e & -> & He)|(cached & [[-> Hg]|[-> Ha]])]]|(alerts & data & -> & Ha & _)].
  - done.
  - unfold Cache.Get in Hg. destruct (c !! nwsAlertsCacheKey) as [e|] eqn:He; [|done].
    destruct (Cache.IsStale now nwsAlertsCacheKey c) eqn:Hs; [done|]. destruct (unmarshal (Data e)) as [|a] eqn:Hu; [done|]. injection Hg as ->.
    destruct (entry_alerts l c e cached Hh He Hu) as (t & Ha & Hne). exists t. split; [by apply answered_more|].
    pose proof (fresh_entry now c e He Hs) as Hx. by rewrite Hne in Hx.
  - exists now. split; [by apply answered_now|lia].
  - exists now. split; [by apply answered_now|lia].
Qed.

(** What a consumer of the raw alerts is given. *)
Lemma raw_answer l server now : zones <> [] -> 0 <= refresh -> 2 * refresh <= max_int64 -> honest l (run l) ->
  match (RawNWSAlerts (asking server) now (run l)).2 with
  | (alerts, _, None) => exists t, answered (l ++ [Tick now server]) t alerts /\ now <= t + refresh
  | (alerts, _, Some _) => (exists e, GetActiveZoneAlerts server zones = inl e)
      /\ (alerts = [] \/ exists t, answered (l ++ [Tick now server]) t alerts /\ now <= t + 2 * refresh)
  end.
Proof using RT.
  intros Hz Hr Hr2 Hh. pose proof (fetch_answer l (run l) server now Hz Hr Hh) as Hf. unfold RawNWSAlerts.
  assert (Hentry : forall entry cached, Cache.GetWithMetadata nwsAlertsCacheKey (run l) = Some (entry, inr cached) ->
    exists t, answered (l ++ [Tick now server]) t cached /\ (Cache.IsStale now nwsAlertsCacheKey (run l) = false -> now <= t + refresh)
      /\ (Cache.IsVeryStale now nwsAlertsCacheKey (run l) = false -> now <= t + 2 * refresh)).
  { intros entry cached [He Hu]%metadata. cbn [fst snd] in He, Hu. destruct (entry_alerts l _ _ cached Hh He (Hu _ eq_refl)) as (t & Ha & Hne).
    exists t. split; [by apply answered_more|]. split; intros Hs.
    - pose proof (fresh_entry now _ _ He Hs) as Hx. by rewrite Hne in Hx.
    - pose proof (kept_entry now _ _ He Hs) as Hx. rewrite Hne in Hx. cbn in Hx. by rewrite Cache.double_exact in Hx. }
  assert (Hslow : match (match fetchNWSAlerts (asking server) now (run l) with
      | (c, inr fresh) => (c, (fresh, now, None))
      | (c, inl err) =>
          match Cache.GetWithMetadata nwsAlertsCacheKey c, Cache.IsVeryStale now nwsAlertsCacheKey c with
          | Some (entry, inr stale), false => (c, (stale, CreatedAt entry, Some err))
          | _, _ => (c, ([], time_zero, Some err))
          end
      end).2 with
    | (alerts, _, None) => exists t, answered (l ++ [Tick now server]) t alerts /\ now <= t + refresh
    | (alerts, _, Some _) => (exists e, GetActiveZoneAlerts server zones = inl e)
        /\ (alerts = [] \/ exists t, answered (l ++ [Tick now server]) t alerts /\ now <= t + 2 * refresh)
    end).
  { destruct (fetchNWSAlerts (asking server) now (run l)) as [c [err|fresh]]; [|exact Hf]. destruct Hf as [-> He].
    destruct (Cache.GetWithMetadata nwsAlertsCacheKey (run l)) as [[entry [e|stale]]|] eqn:Hg; [by split; [|left]| |by split; [|left]].
    destruct (Cache.IsVeryStale now nwsAlertsCacheKey (run l)) eqn:Hv; [by split; [|left]|]. split; [done|right].
    destruct (Hentry entry stale eq_refl) as (t & Ha & _ & Ht). exists t. split; [done|by apply Ht]. }
  destruct (Cache.GetWithMetadata nwsAlertsCacheKey (run l)) as [[entry [e|cached]]|] eqn:Hg; [exact Hslow| |exact Hslow].
  destruct (Cache.IsStale now nwsAlertsCacheKey (run l)) eqn:Hs; [exact Hslow|].
  destruct (Hentry entry cached eq_refl) as (t & Ha & Ht & _). exists t. split; [done|by apply Ht].
Qed.

(** C31: No alert expires because the service could not refresh it. Over any history,
    a poll fails only when the server failed now; otherwise its events are all of
    those of one answer of the server: of at most a refresh interval ago when the
    source is healthy, and when the server failed now, of at most two, with the
    source degraded so that nothing is swept. *)
Theorem alerts_honest l now server :
  cleanZones zones <> [] -> 0 <= refresh -> 2 * refresh <= max_int64 -> Forall foreign l ->
  match (Poll (asking server) areas now (run l)).2 with
  | inl _ => exists e, GetActiveZoneAlerts server zones = inl e
  | inr res => exists t alerts, answered (l ++ [Tick now server]) t alerts /\ Events res = (alert_event areas now <$> alerts)
      /\ (PerSource res = ∅ /\ now <= t + refresh
          \/ is_Some (PerSource res !! "nws") /\ (exists e, GetActiveZoneAlerts server zones = inl e) /\ now <= t + 2 * refresh)
  end.
Proof using RT.
  intros Hc Hr Hr2 Hl. assert (Hz : zones <> []) by by intros E; rewrite E in Hc.
  pose proof (raw_answer l server now Hz Hr Hr2 (history_honest l Hz Hl)) as Hraw.
  unfold Poll. change (NWSZones (asking server)) with zones. destruct zones as [|z zs] eqn:Ez; [done|]. rewrite <-Ez in *. clear Ez.
  destruct (RawNWSAlerts (asking server) now (run l)) as [c [[alerts t0] [err|]]]; cbn [snd] in *.
  - destruct Hraw as [He [-> |(t & Ha & Ht)]]; [done|]. destruct (Nat.eqb (length alerts) 0); [done|].
    exists t, alerts. split; [done|]. split; [done|]. right. split_and!; [|done..]. cbn [PerSource poll_result]. rewrite lookup_singleton_eq. eauto.
  - destruct Hraw as (t & Ha & Ht). exists t, alerts. split; [done|]. split; [done|]. by left.
Qed.

End Alerts.
(** ** Fire weather *)

Section FireWeather.
Context {UL : UnicodeLower} {UU : UnicodeUpper}.
Variables (zones : list string) (now : Time).

Definition of_zones (a : Alert) : Prop :=
  cleanZones zones = [] \/ exists z, z ∈ Zones a /\ ToUpper (TrimSpace z) ∈ cleanZones zones.
Definition begun (a : Alert) : Prop := Begins a = 0 \/ Begins a <= now.
Definition warning (a : Alert) : Prop := of_zones a /\ Event a = eventRedFlagWarning.
Definition watch (a : Alert) : Prop := of_zones a /\ Event a = eventFireWeatherWatch.

Lemma in_zones a : negb (Nat.eqb (length (cleanZones zones)) 0) && negb (alertIntersectsZones a (cleanZones zones)) = false <-> of_zones a.
Proof.
  unfold of_zones. rewrite andb_false_iff, !negb_false_iff, Nat.eqb_eq, length_zero_iff_nil. unfold alertIntersectsZones.
  rewrite existsb_exists. setoid_rewrite <-list_elem_of_In. setoid_rewrite bool_decide_eq_true. reflexivity.
Qed.

(** A slot of the loop: an alert it saw of the kind, if it saw one. *)
Definition slot (P : Alert -> Prop) (seen : list Alert) (o : option Alert) : Prop :=
  match o with Some a => a ∈ seen /\ P a | None => forall a, a ∈ seen -> ~ P a end.

Lemma slot_keep P seen o a : ~ P a -> slot P seen o -> slot P (seen ++ [a]) o.
Proof.
  intros Hn. destruct o as [b|]; cbn; [intros [? ?]; rewrite elem_of_app; tauto|].
  intros H x [Hx| ->%list_elem_of_singleton]%elem_of_app; [by apply H|done].
Qed.

Lemma slot_take P seen o a : P a -> slot P seen o -> slot P (seen ++ [a]) (Some (default a o)).
Proof.
  intros Ha. destruct o as [b|]; cbn; rewrite elem_of_app, ?list_elem_of_singleton; tauto.
Qed.

Definition held (seen : list Alert) (st : option Alert * option Alert * option Alert) : Prop :=
  slot (fun a => warning a /\ begun a) seen st.1.1 /\ slot (fun a => warning a /\ ~ begun a) seen st.1.2 /\ slot watch seen st.2.

Lemma begun_test a : negb (time_is_zero (Begins a)) && time_after (Begins a) now = false <-> begun a.
Proof.
  unfold begun, time_is_zero, time_after. rewrite andb_false_iff, negb_false_iff, Z.eqb_eq, Z.ltb_ge. reflexivity.
Qed.

Lemma held_step seen st a : held seen st -> held (seen ++ [a]) (note_alert (cleanZones zones) now st a).
Proof.
  destruct st as [[r p] w]. unfold held, note_alert. cbn [fst snd]. intros (Hr & Hp & Hw).
  destruct (_ && _) eqn:Ez.
  { assert (Hz : ~ of_zones a) by (intros Hz%in_zones; congruence). cbn [fst snd].
    split_and!; apply slot_keep; try done; unfold warning, watch; tauto. }
  apply in_zones in Ez. destruct (String.eqb_spec (Event a) eventRedFlagWarning) as [E|E].
  - assert (Hnw : ~ watch a) by (unfold watch; rewrite E; by intros [_ ?]). assert (Ha : warning a) by done.
    destruct (negb _ && _) eqn:Eb; cbn [fst snd].
    + assert (Hb : ~ begun a) by (intros Hb%begun_test; congruence).
      split_and!; [apply slot_keep; tauto|by apply slot_take|by apply slot_keep].
    + apply begun_test in Eb. split_and!; [by apply slot_take|apply slot_keep; tauto|by apply slot_keep].
  - assert (Hnr : ~ warning a) by by intros [_ ?].
    destruct (String.eqb_spec (Event a) eventFireWeatherWatch) as [Ew|Ew]; cbn [fst snd].
    + split_and!; [apply slot_keep; tauto|apply slot_keep; tauto|by apply slot_take].
    + split_and!; apply slot_keep; try done; unfold watch; tauto.
Qed.

Lemma held_all alerts : held alerts (foldl (note_alert (cleanZones zones) now) (None, None, None) alerts).
Proof.
  induction alerts as [|a l IH] using rev_ind; [repeat split; by intros ? ?%not_elem_of_nil|]. rewrite foldl_app. by apply held_step.
Qed.

(** C24: A red flag is never reported that has not begun, nor passed over. The state is
    red-flag exactly when a Red Flag Warning for one of the zones has begun,
    elevated exactly when none has but one is to come or a Fire Weather Watch is
    out, normal when there is neither; the alert that is quoted is one of these. *)
Theorem red_flag_confirmed alerts :
  let fw := ClassifyFireWeather alerts zones now in
  (f_State fw = FireWeatherRedFlag <-> exists a, a ∈ alerts /\ warning a /\ begun a)
  /\ (f_State fw = FireWeatherElevated <->
        (forall a, a ∈ alerts -> ~ (warning a /\ begun a)) /\ exists a, a ∈ alerts /\ (warning a \/ watch a))
  /\ (f_State fw = FireWeatherNormal <-> forall a, a ∈ alerts -> ~ warning a /\ ~ watch a)
  /\ (f_State fw <> FireWeatherNormal -> exists a, a ∈ alerts /\ (warning a \/ watch a) /\ f_SourceEvent fw = Event a /\ f_Zones fw = Zones a).
Proof.
  pose proof (held_all alerts) as Hh. unfold ClassifyFireWeather. destruct (foldl _ _ _) as [[r p] w]. destruct Hh as (Hr & Hp & Hw). cbn [fst snd] in *.
  assert (Hb : forall a, begun a \/ ~ begun a) by (intros a; unfold begun; lia).
  destruct r as [a|].
  { destruct Hr as (Hin & Ha & Hb'). cbn. split_and!; [split; [eauto|done]|split; [done|]|split; [done|]|eauto 6].
    - intros [Hn _]. by destruct (Hn a Hin).
    - intros Hn. by destruct (Hn a Hin). }
  cbn [slot] in Hr. destruct p as [a|].
  { destruct Hp as (Hin & Ha & Hb'). cbn. split_and!; [split; [done|]|split; [eauto|done]|split; [done|]|eauto 6].
    - intros (x & Hx & Hy). by destruct (Hr x Hx).
    - intros Hn. by destruct (Hn a Hin). }
  cbn [slot] in Hp. assert (Hnone : forall a, a ∈ alerts -> ~ warning a).
  { intros a Hin Ha. destruct (Hb a); [by apply (Hr a Hin)|by apply (Hp a Hin)]. }
  destruct w as [a|].
  { destruct Hw as (Hin & Ha). cbn. split_and!; [split; [done|]|split; [eauto|done]|split; [done|]|eauto 6].
    - intros (x & Hx & Hy). by destruct (Hr x Hx).
    - intros Hn. by destruct (Hn a Hin). }
  cbn [slot] in Hw. cbn. split_and!; [split; [done|]|split; [done|]|split; [|done]|done].
  - intros (x & Hx & Hy). by destruct (Hr x Hx).
  - intros (_ & x & Hx & [Hy|Hy]); [by destruct (Hnone x Hx)|by destruct (Hw x Hx)].
  - intros _ a Ha. split; [by apply Hnone|by apply Hw].
Qed.

End FireWeather.
(** ** A dry week *)

Module AlertsDemo.

#[local] Existing Instance ascii_only.
#[local] Instance upper : UnicodeUpper := {| unicode_upper s := s |}.
#[local] Instance texts : Hazards.HazardText := {| Hazards.rfc3339 _ := "t" |}.
#[local] Instance Alert_eq_dec : EqDecision Alert.
Proof. solve_decision. Defined.

Definition thursday : Time := time_of_unix 1000000.
Definition product (event headline : string) (onset : Time) : alertProperties :=
  mkAlertProperties "urn:1" event "Severe" "Likely" "Expected" "Fire Weather Watch issued August 11 at 9:57AM PDT" "..." "" "NWS Sacramento CA"
    "Foothills" "" "" (if decide (onset = thursday) then "thu" else "") "" ["CAZ064"] {["NWSheadline" := [headline]]}.
Definition fire_watch := product "Fire Weather Watch"
  "FIRE WEATHER WATCH IN EFFECT FROM LATE WEDNESDAY NIGHT THROUGH THURSDAY EVENING FOR THUNDERSTORMS AND STRONG OUTFLOW WINDS FOR FIRE ZONES 130,132" thursday.
#[local] Instance nws : NwsJson :=
  {| decode_alerts b := if String.eqb b "watch" then inr [fire_watch] else inr []; parse_rfc3339 s := if String.eqb s "thu" then Some thursday else None |}.
Definition the_list : list Alert := [alert_of fire_watch].
#[local] Instance json : Json (list Alert) :=
  {| marshal l := if decide (l = the_list) then Some "watch" else None;
     unmarshal s := if String.eqb s "watch" then inr the_list else inl "syntax" |}.
#[local] Instance json_round_trip : RoundTrip json.
Proof. split. intros a s. cbn. destruct (decide (a = the_list)) as [-> |]; [by intros [= <-]|done]. Defined.

Definition up (_ : list string) : Response := Reply 200 "watch".
Definition down (_ : list string) : Response := NoReply "timeout".
Definition area : HazardArea := mkHazardArea "ebbetts" "Ebbetts Pass" (mkGeoBounds F64.zero F64.zero F64.zero F64.zero) "" ["CAZ064"].
Definition zones : list string := ["caz064"; "CAZ065"].
Definition interval : Duration := 10 * minute.
Definition start : Time := time_of_unix 900000.

Abbreviation poll_after hist t server := ((Poll (asking zones interval server) [area] t (run zones interval [area] hist)).2).
Definition shown (x : string + PollResult) : list (string * EventStatus * list string) * list string :=
  match x with
  | inr res => ((fun ev => (headline ev, status ev, place_ids ev)) <$> Events res, (map_to_list (PerSource res)).*1)
  | inl e => ([], [e])
  end.

Example headline_lifted : ShortHeadline (alert_of fire_watch) = "Fire Weather Watch — thunderstorms and strong outflow winds".
Proof. by vm_compute. Qed.

Example stale_then_gone :
  shown (poll_after [Tick start up] (start + 5 * minute) down) = ([("Fire Weather Watch — thunderstorms and strong outflow winds", SCHEDULED, ["area:ebbetts"])], [])
  /\ shown (poll_after [Tick start up] (start + 15 * minute) down)
    = ([("Fire Weather Watch — thunderstorms and strong outflow winds", SCHEDULED, ["area:ebbetts"])], ["nws"])
  /\ shown (poll_after [Tick start up] (start + 25 * minute) down) = ([], ["failed to fetch NWS zone alerts: failed to execute NWS request: timeout"]).
Proof. by vm_compute. Qed.

(** Where the alerts cannot be had at all, the region's fire weather reads normal,
    and the condition layer shows the banner without an error. *)
Example outage_reads_normal :
  let fw := (computeRegionFireWeather (asking zones interval down) start ∅).2 in
  Hazards.fw_State fw = Hazards.NORMAL
  /\ ((fun f => Hazards.Category (Hazards.fProperties f)) <$> (Hazards.fireWeather [] (inr (Some fw)) ∅ area).1, (Hazards.fireWeather [] (inr (Some fw)) ∅ area).2)
     = (["normal"], None).
Proof. by vm_compute. Qed.

(** Zones that are all blank pass the test of the scope, and a healthy poll without
    events follows although no server was asked. *)
Example blank_zones : (Poll (mkWeatherService [" "] interval (Some down)) [area] start ∅).2 = inr (poll_result [] ∅ []).
Proof. by vm_compute. Qed.

Lemma alerts_honest_witness : exists res, poll_after [Tick start up] (start + 15 * minute) down = inr res /\ is_Some (PerSource res !! "nws").
Proof.
  assert (Hp : exists res, poll_after [Tick start up] (start + 15 * minute) down = inr res).
  { eexists. vm_compute. reflexivity. }
  destruct Hp as [res Hp]. exists res. split; [exact Hp|].
  assert (Hc : cleanZones zones <> []) by (vm_compute; discriminate).
  assert (H1 : 0 <= interval) by (vm_compute; discriminate).
  assert (H2 : 2 * interval <= max_int64) by (vm_compute; discriminate).
  assert (Hl : Forall foreign [Tick start up]) by (repeat constructor).
  pose proof (alerts_honest zones interval [area] [Tick start up] (start + 15 * minute) down Hc H1 H2 Hl) as H. rewrite Hp in H.
  destruct H as (t & alerts & (server & [Hin|Hin] & _) & _ & [[He _]|[He _]]); [|exact He| |exact He].
  all: exfalso; assert (Hn : poll_after [Tick start up] (start + 15 * minute) down = inr res -> PerSource res <> ∅);
    [intros E; vm_compute in E; injection E as <-; vm_compute; discriminate|by apply (Hn Hp)].
Defined.

End AlertsDemo.
End WeatherAlertsSpec.
