(* ===== verification/WeatherService.v ===== *)
(** * The weather service

    [internal/services/weather.go] with the projections of [weather_nws.go], over
    [internal/clients/weather/client.go]: current conditions by location, the
    region's fire weather and the list of alerts, each through the shared cache.
    What OpenWeatherMap answers is an argument, by location; one reading of the
    clock stands for those of a request. [encoding/json] is a class. *)

From Stdlib Require Import Ascii SpecFloat.
From stdpp Require Import pretty.
From S2P Require Import Prelude Float64 GridEvent GoText Severity Feeds Cache Hazards RelayPoll WeatherAlerts.

(** ** The API's messages *)

Module WeatherApi.
Import Severity.

Inductive AlertSource := ALERT_SOURCE_UNSPECIFIED | NWS | OPENWEATHERMAP.
#[export] Instance AlertSource_eq_dec : EqDecision AlertSource.
Proof. solve_decision. Defined.

Record WeatherAlert := mkWeatherAlert {
  wa_Id : string; wa_SenderName : string; wa_Event : string; wa_Description : string; wa_Tags : list string; wa_Headline : string;
  wa_Summary : string; wa_Details : string; wa_Source : AlertSource; wa_Severity : AlertSeverity; wa_Zones : list string;
  wa_StartTime : option Time; wa_EndTime : option Time }.

Record WeatherData := mkWeatherData {
  wd_LocationId : string; wd_LocationName : string; WeatherMain : string; WeatherDescription : string; WeatherIcon : string;
  TemperatureCelsius : Z; FeelsLikeCelsius : Z; HumidityPercent : Z; WindSpeedKmh : Z; WindDirectionDegrees : Z; VisibilityKm : Z;
  wd_Alerts : list WeatherAlert }.

End WeatherApi.

(** ** OpenWeatherMap *)

Module OpenWeather.
Import Text Feeds WeatherApi.
Import RelayPoll (wrap).

(** A [float32], its product, and its conversion to an [int32], which drops the
    fraction; out of range the value wraps here, in Go the machine decides. *)
Definition float32 := spec_float.
Definition mul32 : float32 -> float32 -> float32 := SFmul 24 128.
Definition int32 (x : float32) : Z := wrap 32 (F64.trunc x).
(** The constant 3.6. *)
Definition kmh : float32 := S754_finite false 15099494 (-22).

Record OpenWeatherCurrentResponse := mkCurrentResponse {
  ow_Weather : list (string * string * string); Temp : float32; FeelsLike : float32; Humidity : Z; Speed : float32; Deg : Z;
  Visibility : Z; ow_Name : string }.
Record OpenWeatherAlert := mkOpenWeatherAlert {
  oa_SenderName : string; oa_Event : string; oa_Start : Z; oa_End : Z; oa_Description : string; oa_Tags : list string }.
Class OpenWeatherJson := {
  decode_current : string -> string + OpenWeatherCurrentResponse;
  decode_onecall : string -> string + list OpenWeatherAlert }.

Definition processCurrentWeatherResponse (r : OpenWeatherCurrentResponse) : WeatherData :=
  let '(main, description, icon) := default ("", "", "") (head (ow_Weather r)) in
  mkWeatherData "" (ow_Name r) main description icon (int32 (Temp r)) (int32 (FeelsLike r)) (Humidity r)
    (int32 (mul32 (Speed r) kmh)) (Deg r) (Z.quot (Visibility r) 1000) [].

Section Client.
Context {OJ : OpenWeatherJson}.

Definition GetCurrentWeather (reply : Response) : string + WeatherData :=
  match reply with
  | NoReply err => inl ("failed to execute request: " +:+ err)
  | Reply status body =>
      if status =? 429 then inl "rate limit exceeded (60/minute)"
      else if status =? 401 then inl "invalid API key"
      else if 400 <=? status then inl ("API error " +:+ pretty status +:+ ": " +:+ body)
      else match decode_current body with
           | inl e => inl ("failed to decode response: " +:+ e)
           | inr r => inr (processCurrentWeatherResponse r)
           end
  end.

Definition alert_of (a : OpenWeatherAlert) : WeatherAlert :=
  mkWeatherAlert (oa_SenderName a +:+ "_" +:+ oa_Event a +:+ "_" +:+ pretty (oa_Start a)) (oa_SenderName a) (oa_Event a) (oa_Description a)
    (oa_Tags a) "" "" "" ALERT_SOURCE_UNSPECIFIED Severity.ALERT_SEVERITY_UNSPECIFIED []
    (if 0 <? oa_Start a then Some (time_of_unix (oa_Start a)) else None) (if 0 <? oa_End a then Some (time_of_unix (oa_End a)) else None).
Definition processWeatherAlerts (l : list OpenWeatherAlert) : list WeatherAlert := alert_of <$> l.

Definition GetWeatherAlerts (reply : Response) : string + list WeatherAlert :=
  match reply with
  | NoReply err => inl ("failed to execute alerts request: " +:+ err)
  | Reply status body =>
      if status =? 429 then inl "rate limit exceeded (60/minute)"
      else if 400 <=? status then inl ("alerts API error " +:+ pretty status +:+ ": " +:+ body)
      else match decode_onecall body with
           | inl e => inl ("failed to decode alerts response: " +:+ e)
           | inr l => inr (processWeatherAlerts l)
           end
  end.
End Client.
End OpenWeather.

(** ** The service *)

Module WeatherService.
Import Text Feeds WeatherApi.
Import Nws (Alert, NwsJson, Begins, EndsAt, Zones).
Import WeatherAlerts (fetchNWSAlerts, getNWSAlerts, computeRegionFireWeather, NWSAlertID, NWSZones).
Import Cache (CreatedAt).
Import Severity (AlertSeverity, ALERT_SEVERITY_UNSPECIFIED, AS_INFO, AS_WARNING, AS_CRITICAL).

(** [config.WeatherLocation], without its coordinates. *)
Record Location := mkLocation { loc_ID : string; loc_Name : string; loc_Zone : string }.

Record Service := mkService {
  nws : WeatherAlerts.WeatherService; Locations : list Location; APIKey : string; weatherClient : Location -> Response }.

Inductive WeatherError := Failed (e : string) | NotFound (e : string).
Record ListWeatherResponse := mkListWeatherResponse {
  lw_WeatherData : list WeatherData; lw_LastUpdated : option Time; lw_FireWeather : Hazards.ApiFireWeather }.
Record GetLocationWeatherResponse := mkGetLocationWeatherResponse {
  gl_WeatherData : WeatherData; gl_LastUpdated : option Time; gl_FireWeather : Hazards.ApiFireWeather }.
Record ListWeatherAlertsResponse := mkListWeatherAlertsResponse { la_Alerts : list WeatherAlert; la_LastUpdated : option Time }.

Section Service.
Context {UL : UnicodeLower} {UU : UnicodeUpper} {NJ : NwsJson} {JA : Json (list Alert)} {OJ : OpenWeather.OpenWeatherJson}.
Context {JW : Json (list WeatherData)} {JL : Json (list WeatherAlert)}.
Variable s : Service.

Definition interval : Duration := WeatherAlerts.RefreshInterval (nws s).

(** *** Projections of the alerts *)

Definition mapNWSSeverity (sev : string) : AlertSeverity :=
  let sev := ToLower (TrimSpace sev) in
  if String.eqb sev "extreme" || String.eqb sev "severe" then AS_CRITICAL
  else if String.eqb sev "moderate" then AS_WARNING
  else if String.eqb sev "minor" then AS_INFO
  else ALERT_SEVERITY_UNSPECIFIED.

Definition nws_alert (a : Alert) : WeatherAlert :=
  mkWeatherAlert (NWSAlertID a) (Nws.SenderName a) (Nws.Event a) (Nws.Description a) [] (Nws.Headline a) "" "" NWS
    (mapNWSSeverity (Nws.Severity a)) (Zones a) (tsProto (Begins a)) (tsProto (EndsAt a)).
Definition nwsAlertsToProto (alerts : list Alert) : list WeatherAlert := nws_alert <$> alerts.

Definition nwsAlertsForZone (now : Time) (zone : string) (c : Cache.Cache) : Cache.Cache * list WeatherAlert :=
  let zone := TrimSpace zone in
  if String.eqb zone "" then (c, [])
  else
    let '(c, alerts) := getNWSAlerts (nws s) now c in
    (c, filter (fun a => existsb (fun z => EqualFold (TrimSpace z) zone) (wa_Zones a) = true) (nwsAlertsToProto alerts)).

Definition requested_zones (zones : list string) : list string :=
  filter (fun z => z <> "") ((fun part => ToUpper (TrimSpace part)) <$> (zones ≫= fun z => Split z ","%char)).
Definition filterAlertsByZones (alerts : list WeatherAlert) (zones : list string) : list WeatherAlert :=
  match requested_zones zones with
  | [] => alerts
  | zoneSet =>
      filter (fun a => negb (bool_decide (wa_Source a = NWS)) || existsb (fun z => bool_decide (ToUpper (TrimSpace z) ∈ zoneSet)) (wa_Zones a) = true)
        alerts
  end.

(** *** Refreshing *)

Definition weatherKey : string := "weather:all".
Definition alertsKey : string := "weather:alerts".

Definition refreshWeatherAlerts (now : Time) (c : Cache.Cache) : Cache.Cache * (string + list WeatherAlert) :=
  match fetchNWSAlerts (nws s) now c with
  | (c, inl e) => (c, inl e)
  | (c, inr alerts) => (c, inr (nwsAlertsToProto alerts))
  end.

Definition located (loc : Location) (alerts : list WeatherAlert) (d : WeatherData) : WeatherData :=
  mkWeatherData (loc_ID loc) (loc_Name loc) (WeatherMain d) (WeatherDescription d) (WeatherIcon d) (TemperatureCelsius d) (FeelsLikeCelsius d)
    (HumidityPercent d) (WindSpeedKmh d) (WindDirectionDegrees d) (VisibilityKm d) alerts.

Definition processWeatherLocation (now : Time) (loc : Location) (c : Cache.Cache) : Cache.Cache * (string + WeatherData) :=
  if String.eqb (APIKey s) "" then (c, inl "OpenWeatherMap API key not configured")
  else match OpenWeather.GetCurrentWeather (weatherClient s loc) with
       | inl e => (c, inl ("failed to get current weather: " +:+ e))
       | inr d => let '(c, alerts) := nwsAlertsForZone now (loc_Zone loc) c in (c, inr (located loc alerts d))
       end.

(** The cached reading of a location, the last of its id. *)
Definition existing (c : Cache.Cache) (id : string) : option WeatherData :=
  match Cache.GetWithMetadata (A := list WeatherData) weatherKey c with
  | Some (_, inr data) => last (filter (fun d => wd_LocationId d = id) data)
  | _ => None
  end.

Definition refresh_location (now : Time) (old : string -> option WeatherData) (st : Cache.Cache * list WeatherData) (loc : Location)
    : Cache.Cache * list WeatherData :=
  match processWeatherLocation now loc st.1 with
  | (c, inr d) => (c, st.2 ++ [d])
  | (c, inl _) => (c, match old (loc_ID loc) with Some d => st.2 ++ [d] | None => st.2 end)
  end.
Definition refreshWeatherData (now : Time) (c : Cache.Cache) : Cache.Cache * (string + list WeatherData) :=
  match foldl (refresh_location now (existing c)) (c, []) (Locations s) with
  | (c, []) => (c, inl "no weather data could be processed")
  | (c, data) => (c, inr data)
  end.

(** *** Handlers *)

Definition answer_weather (now : Time) (data : list WeatherData) (at_ : option Time) (c : Cache.Cache)
    : Cache.Cache * (WeatherError + ListWeatherResponse) :=
  let '(c, fw) := computeRegionFireWeather (nws s) now c in (c, inr (mkListWeatherResponse data at_ fw)).

Definition ListWeather (now : Time) (c : Cache.Cache) : Cache.Cache * (WeatherError + ListWeatherResponse) :=
  match Cache.Get (A := list WeatherData) now weatherKey c c, Cache.IsStale now weatherKey c with
  | inr (Some cached), false => answer_weather now cached (CreatedAt <$> c !! weatherKey) c
  | _, _ =>
      match refreshWeatherData now c with
      | (c, inr data) => answer_weather now data (Some now) (Cache.Set_ now weatherKey data interval "weather" c).1
      | (c, inl e) =>
          match Cache.GetWithMetadata (A := list WeatherData) weatherKey c with
          | Some (entry, inr (d :: data)) =>
              if Cache.IsVeryStale now weatherKey c then (c, inl (Failed ("failed to refresh weather data: " +:+ e)))
              else answer_weather now (d :: data) (Some (CreatedAt entry)) c
          | _ => (c, inl (Failed ("failed to refresh weather data: " +:+ e)))
          end
      end
  end.

Definition GetLocationWeather (now : Time) (id : string) (c : Cache.Cache) : Cache.Cache * (WeatherError + GetLocationWeatherResponse) :=
  match ListWeather now c with
  | (c, inl (Failed e)) | (c, inl (NotFound e)) => (c, inl (Failed ("failed to get weather data: " +:+ e)))
  | (c, inr r) =>
      (c, match head (filter (fun d => wd_LocationId d = id) (lw_WeatherData r)) with
          | Some d => inr (mkGetLocationWeatherResponse d (lw_LastUpdated r) (lw_FireWeather r))
          | None => inl (NotFound ("location not found: " +:+ id))
          end)
  end.

Definition ListWeatherAlerts (now : Time) (zones : list string) (c : Cache.Cache) : Cache.Cache * (WeatherError + ListWeatherAlertsResponse) :=
  match Cache.Get (A := list WeatherAlert) now alertsKey c c, Cache.IsStale now alertsKey c with
  | inr (Some cached), false => (c, inr (mkListWeatherAlertsResponse (filterAlertsByZones cached zones) (CreatedAt <$> c !! alertsKey)))
  | _, _ =>
      match refreshWeatherAlerts now c with
      | (c, inr alerts) =>
          ((Cache.Set_ now alertsKey alerts interval "weather_alerts" c).1,
           inr (mkListWeatherAlertsResponse (filterAlertsByZones alerts zones) (Some now)))
      | (c, inl e) =>
          (c, match Cache.GetWithMetadata (A := list WeatherAlert) alertsKey c, Cache.IsVeryStale now alertsKey c with
              | Some (entry, r), false =>
                  inr (mkListWeatherAlertsResponse (filterAlertsByZones (match r with inr l => l | inl _ => [] end) zones) (Some (CreatedAt entry)))
              | _, _ => inl (Failed ("failed to refresh weather alerts: " +:+ e))
              end)
      end
  end.

End Service.
End WeatherService.
