(* ===== verification/WeatherServiceSpec.v ===== *)
(** * What the weather service serves

    A refresh lists every location that answered, or that was listed before; and
    two things its comments do not say: a reading that is kept is kept without
    bound, and temperatures are cut, not rounded. *)

From Stdlib Require Import Ascii SpecFloat.
From S2P Require Import Prelude Float64 GridEvent GoText Severity Feeds Cache Hazards WeatherAlerts WeatherService.

Module WeatherServiceSpec.
Import Text Feeds WeatherApi WeatherService.
Import Nws (Alert, NwsJson).

Section Service.
Context {UL : UnicodeLower} {UU : UnicodeUpper} {NJ : NwsJson} {JA : Json (list Alert)} {OJ : OpenWeather.OpenWeatherJson}.
Context {JW : Json (list WeatherData)} {JL : Json (list WeatherAlert)}.
Variable s : Service.

(** A location's answer now, and the reading it is listed with. *)
Definition reading (loc : Location) : string + WeatherData :=
  if String.eqb (APIKey s) "" then inl "OpenWeatherMap API key not configured" else OpenWeather.GetCurrentWeather (weatherClient s loc).
Definition shows (old : string -> option WeatherData) (loc : Location) (d : WeatherData) : Prop :=
  (exists d0 alerts, reading loc = inr d0 /\ d = located loc alerts d0)
  \/ (exists e, reading loc = inl e) /\ old (loc_ID loc) = Some d.
Definition silent (old : string -> option WeatherData) (loc : Location) : Prop :=
  (exists e, reading loc = inl e) /\ old (loc_ID loc) = None.

Lemma refresh_step now old st loc :
  let st' := refresh_location s now old st loc in
  silent old loc /\ st'.2 = st.2 \/ exists d, shows old loc d /\ st'.2 = st.2 ++ [d].
Proof.
  unfold refresh_location, processWeatherLocation, silent, shows, reading. destruct (String.eqb (APIKey s) "").
  { destruct (old (loc_ID loc)) as [d|]; [right; exists d|left]; cbn; eauto. }
  destruct (OpenWeather.GetCurrentWeather (weatherClient s loc)) as [e|d0].
  { destruct (old (loc_ID loc)) as [d|]; [right; exists d|left]; cbn; eauto. }
  destruct (nwsAlertsForZone s now (loc_Zone loc) st.1) as [c alerts]. right. exists (located loc alerts d0). cbn. split; [left; eauto|done].
Qed.

Lemma refresh_fold now old locs st : exists shown,
  (foldl (refresh_location s now old) st locs).2 = st.2 ++ shown
  /\ (forall d, d ∈ shown -> exists loc, loc ∈ locs /\ shows old loc d)
  /\ forall loc, loc ∈ locs -> silent old loc \/ exists d, d ∈ shown /\ shows old loc d.
Proof.
  revert st. induction locs as [|loc locs IH]; intros st.
  - exists []. cbn. rewrite app_nil_r. split_and!; [done|by intros d ?%not_elem_of_nil|by intros l ?%not_elem_of_nil].
  - cbn [foldl]. destruct (IH (refresh_location s now old st loc)) as (shown & Hs & H1 & H2). setoid_rewrite elem_of_cons.
    destruct (refresh_step now old st loc) as [[Hq He]|(d & Hd & He)].
    + exists shown. rewrite Hs, He. split_and!; [done| |].
      * intros d Hd. destruct (H1 d Hd) as (x & ? & ?). eauto.
      * intros x [-> |Hx]; [by left|by apply H2].
    + exists (d :: shown). rewrite Hs, He, <-app_assoc. split_and!; [done| |].
      * intros x [-> |Hx]%elem_of_cons; [eauto|]. destruct (H1 x Hx) as (y & ? & ?). eauto.
      * setoid_rewrite elem_of_cons. intros x [-> |Hx]; [eauto|]. destruct (H2 x Hx) as [?|(y & ? & ?)]; eauto.
Qed.

(** A refresh fails only when no location answered and none was listed before;
    otherwise every location that answered is listed with its answer, every other
    with the reading it had, and nothing else is listed. *)
Theorem locations_listed now c :
  match (refreshWeatherData s now c).2 with
  | inl _ => forall loc, loc ∈ Locations s -> silent (existing c) loc
  | inr data => (forall d, d ∈ data -> exists loc, loc ∈ Locations s /\ shows (existing c) loc d)
      /\ forall loc, loc ∈ Locations s -> silent (existing c) loc \/ exists d, d ∈ data /\ shows (existing c) loc d
  end.
Proof.
  destruct (refresh_fold now (existing c) (Locations s) (c, [])) as (shown & Hs & H1 & H2). unfold refreshWeatherData.
  destruct (foldl _ _ _) as [c' data]. cbn [snd] in Hs. rewrite app_nil_l in Hs. subst data.
  destruct shown as [|d shown]; cbn [snd]; [|done]. intros loc Hl. destruct (H2 loc Hl) as [?|(d & ?%not_elem_of_nil & _)]; done.
Qed.

End Service.

(** ** Two towns *)

Module WeatherDemo.

#[local] Existing Instance ascii_only.
#[local] Instance upper : UnicodeUpper := {| unicode_upper s := s |}.
#[local] Instance no_alerts : NwsJson := {| Nws.decode_alerts _ := inr []; Nws.parse_rfc3339 _ := None |}.
#[local] Instance alerts_json : Json (list Alert) := {| marshal _ := None; unmarshal _ := inl "none" |}.
#[local] Instance api_json : Json (list WeatherAlert) := {| marshal _ := None; unmarshal _ := inl "none" |}.

(** 22.9 and -0.9 degrees. *)
Definition warm : OpenWeather.float32 := S754_finite false 12006195 (-19).
Definition cold : OpenWeather.float32 := S754_finite true 15099494 (-24).
Definition reply (t : OpenWeather.float32) : OpenWeather.OpenWeatherCurrentResponse :=
  OpenWeather.mkCurrentResponse [("Clear", "clear sky", "01d")] t t 40 (S754_zero false) 0 10000 "".
#[local] Instance weather_json : OpenWeather.OpenWeatherJson :=
  {| OpenWeather.decode_current b := if String.eqb b "warm" then inr (reply warm) else inr (reply cold); OpenWeather.decode_onecall _ := inr [] |}.

(** Conversion to [int32] cuts: 22.9 reads 22 and -0.9 reads 0. *)
Example not_rounded :
  TemperatureCelsius (OpenWeather.processCurrentWeatherResponse (reply warm)) = 22
  /\ TemperatureCelsius (OpenWeather.processCurrentWeatherResponse (reply cold)) = 0.
Proof. by vm_compute. Qed.

Definition arnold := mkLocation "arnold" "Arnold" "".
Definition murphys := mkLocation "murphys" "Murphys" "".
Definition server (dead : bool) (loc : Location) : Response :=
  if String.eqb (loc_ID loc) "arnold" then Reply 200 "warm" else if dead then NoReply "timeout" else Reply 200 "cold".
Definition service (dead : bool) : Service := mkService (WeatherAlerts.mkWeatherService [] (10 * minute) None) [arnold; murphys] "key" (server dead).
Definition both : list WeatherData :=
  [located arnold [] (OpenWeather.processCurrentWeatherResponse (reply warm)); located murphys [] (OpenWeather.processCurrentWeatherResponse (reply cold))].
(** The one list that is ever cached here. *)
#[local] Instance data_json : Json (list WeatherData) :=
  {| marshal l := if Nat.eqb (length l) 2 then Some "both" else None; unmarshal s := if String.eqb s "both" then inr both else inl "syntax" |}.

Definition ask (dead : bool) (c : Cache.Cache) (now : Time) : Cache.Cache := (ListWeather (service dead) now c).1.
Definition shown (r : WeatherError + ListWeatherResponse) : option (list string * option Time) :=
  match r with inr r => Some (wd_LocationId <$> lw_WeatherData r, lw_LastUpdated r) | inl _ => None end.

(** Murphys never answers after the first refresh. A day later, over polls each
    eleven minutes, its first reading is still served under the time of the last. *)
Example kept_without_bound :
  let polls := (fun i => Z.of_nat i * (11 * minute)) <$> seq 1 131 in
  let c := foldl (ask true) (ask false ∅ 1) polls in
  let now := 24 * hour + 12 * minute in
  shown (ListWeather (service true) now c).2 = Some (["arnold"; "murphys"], Some now).
Proof. by vm_compute. Qed.

End WeatherDemo.
End WeatherServiceSpec.
