(* ===== verification/Earthquake.v ===== *)
(** * The earthquake feed

    [internal/ingest/earthquake.go] over [internal/clients/usgs/client.go]: the
    week's earthquakes in the box around the configured areas. What the catalog
    answers is a function of the query. [encoding/json] and the text of a magnitude
    are classes; one reading of the clock stands for those of a poll. *)

From Stdlib Require Import Ascii.
From stdpp Require Import pretty.
From S2P Require Import Prelude Float64 Geojson GridEvent GoText Scheduler Severity Feeds.

Module Usgs.
Import F64 Feeds.

Definition maxBody : Z := Z.shiftl 5 20.

Record Quake := mkQuake {
  ID : string; Magnitude : float64; DepthKm : float64; Place : string; Time_ : Time; Updated : Time; Felt : Z; URL : string;
  q_Lat : float64; q_Lng : float64 }.

(** What is asked of the catalog: the box, the smallest magnitude and the start. *)
Record Query := mkQuery { Bounds : GeoBounds; minmagnitude : float64; starttime : Time }.

Record quakeFeature := mkQuakeFeature {
  f_ID : string; Mag : option float64; f_Place : string; f_Time : Z; f_Updated : Z; f_Felt : option Z; f_URL : string;
  Coordinates : list float64 }.
Class UsgsJson := { decode_quakes : string -> string + list quakeFeature; fixed1 : float64 -> string }.

Definition quake_of (f : quakeFeature) : Quake :=
  let '(lng_, lat_, depth) := match Coordinates f with a :: b :: c :: _ => (a, b, c) | _ => (zero, zero, zero) end in
  mkQuake (f_ID f) (default zero (Mag f)) depth (f_Place f) (msToTime (f_Time f)) (msToTime (f_Updated f)) (default 0 (f_Felt f)) (f_URL f)
    lat_ lng_.
Definition toQuakes (l : list quakeFeature) : list Quake := quake_of <$> l.

Definition GetEarthquakes `{UsgsJson} (server : Query -> Response) (b : GeoBounds) (minMag : float64) (within : Duration) (now : Time)
    : string + list Quake :=
  match server (mkQuery b minMag (time_add now (- within))) with
  | NoReply err => inl ("failed to execute USGS request: " +:+ err)
  | Reply status body =>
      if 400 <=? status then inl ("USGS API error " +:+ pretty status +:+ ": " +:+ limit 4096 body)
      else match decode_quakes (limit maxBody body) with
           | inl e => inl ("failed to decode USGS response: " +:+ e)
           | inr l => inr (toQuakes l)
           end
  end.

End Usgs.

Module Earthquake.
Import F64 Grid Text Feeds Usgs.
Import Scheduler (PollResult, Events, PerSource).

Definition quakeMinMagnitude : float64 := div (of_Z 5) two.
Definition quakeWindow : Duration := 7 * 24 * hour.
Definition SourceIDs : list string := ["usgs"].

Section Poll.
Context {GT : GeoText} {UJ : UsgsJson}.

Definition quake_event (now : Time) (q : Quake) : Event :=
  mkEvent ("usgs:" +:+ ID q) EARTHQUAKE "earthquake" (Feeds.SeverityFromLabel (Severity.fromMagnitude (Magnitude q))) ACTIVE
    ("M" +:+ fixed1 (Magnitude q) +:+ " — " +:+ Place q) "" "" (Place q) (safeURL (URL q)) (Some (GeometryFromPoint (q_Lat q) (q_Lng q))) []
    (Some (NewProvenance "usgs" "USGS" "U.S. Geological Survey" (safeURL (URL q)) now)) (tsProto (Time_ q)) None
    (tsProto (if time_is_zero (Updated q) then Time_ q else Updated q)) None 0 None
    (Some (D_Earthquake (mkEarthquakeDetail (Magnitude q) (DepthKm q) (Felt q)))).

Definition Poll (areas : list HazardArea) (server : Query -> Response) (now : Time) : string + PollResult :=
  match unionBounds areas with
  | None => inl (errEmptyScope "hazard areas")
  | Some (minLat, minLng, maxLat, maxLng) =>
      match GetEarthquakes server (mkGeoBounds minLat maxLat minLng maxLng) quakeMinMagnitude quakeWindow now with
      | inl e => inl e
      | inr quakes => inr (poll_result (quake_event now <$> quakes) ∅ [])
      end
  end.

(** ** What a poll gives *)

(** The catalog's answer, when it can be read. *)
Definition readable (r : Response) (l : list quakeFeature) : Prop :=
  exists status body, r = Reply status body /\ status < 400 /\ decode_quakes (limit maxBody body) = inr l.

(** A poll fails exactly when no area is configured or the one query, for the box
    around all areas and the last week, is not answered in full; otherwise there
    is one event for each row, in order, under the id of the row. *)
Theorem quakes_kept areas server now :
  match unionBounds areas with
  | None => areas = [] /\ Poll areas server now = inl (errEmptyScope "hazard areas")
  | Some (minLat, minLng, maxLat, maxLng) =>
      let answer := server (mkQuery (mkGeoBounds minLat maxLat minLng maxLng) quakeMinMagnitude (now - 7 * 24 * hour)) in
      ((exists e, Poll areas server now = inl e) <-> ~ exists l, readable answer l)
      /\ forall res, Poll areas server now = inr res ->
           exists l, readable answer l /\ PerSource res = ∅ /\ Events res = (fun f => quake_event now (quake_of f)) <$> l
             /\ Id <$> Events res = (fun f => "usgs:" +:+ f_ID f) <$> l
  end.
Proof.
  unfold Poll. destruct (unionBounds areas) as [[[[minLat minLng] maxLat] maxLng]|] eqn:Hb.
  - unfold GetEarthquakes. change (time_add now (- quakeWindow)) with (now - 7 * 24 * hour).
    destruct (server _) as [err|status body] eqn:Hs; cbn zeta.
    { split; [|done]. split; [intros _ (l & ? & ? & ? & _)|eauto]. congruence. }
    destruct (Z.leb_spec 400 status) as [Hst|Hst].
    { split; [|done]. split; [intros _ (l & ? & ? & [= <- <-] & ? & _); lia|eauto]. }
    destruct (decode_quakes (limit maxBody body)) as [e|l] eqn:Hd.
    { split; [|done]. split; [intros _ (l & ? & ? & [= <- <-] & _ & ?); congruence|eauto]. }
    split; [split; [by intros [? ?]|intros []; by exists l, status, body]|].
    intros res [= <-]. exists l. split; [by exists status, body|]. split; [done|].
    cbn [Events poll_result]. unfold toQuakes. rewrite <-!list_fmap_compose. split; [done|]. apply list_fmap_ext. intros i f _. cbn.
    unfold quake_of. by destruct (Coordinates f) as [|? [|? [|? ?]]].
  - split; [|done]. destruct areas; [done|discriminate].
Qed.

End Poll.
End Earthquake.
