(* ===== verification/Cameras.v ===== *)
(** * The camera directory

    [internal/clients/cwwp2/cctv.go] and [internal/services/cameras.go]: the
    cameras Caltrans lists for some districts, kept by a service that refreshes
    them in the background. What the portal answers is a function of the address;
    [encoding/json], [url.Parse] and SHA-256 are classes. Each refresh is one step
    and [Cameras] reads the snapshot it left, as the code's lock has it; the timer
    of [Run] is the length it waits, [wait_after]. *)

From Stdlib Require Import Ascii.
From stdpp Require Import pretty.
From S2P Require Import Prelude Float64 GoText Severity Feeds Power Hazards Closures.

(** ** The portal *)

Module Cctv.
Import F64 Text Feeds.
Import Power (PowerText).
Import Hazards (re_space, skip_while).
Import Cwwp2 (Client, Location, HasPosition, Latitude, Longitude, ErrEmptyFeed, FeedURL, PortalText, newLocation, parseBool, Atoi).

Record Camera := mkCamera {
  ID : string; District : Z; Name : string; Location_ : Location; InService : bool; ImageURL : string; ImageRefreshMinutes : Z;
  StreamURL : string; Description : string }.

(** A row as it is decoded. *)
Record cctvRow := mkCctvRow {
  Index : string; l_District : string; LocationName : string; l_NearbyPlace : string; l_Longitude : string; l_Latitude : string;
  Elevation : string; l_Direction : string; l_County : string; l_Route : string; PostmilePrefix : string; l_Postmile : string;
  r_InService : string; ImageDescription : string; StreamingVideoURL : string; CurrentImageUpdateFrequency : string;
  CurrentImageURL : string }.

(** The decoder of a file, and the scheme and host of an address. *)
Class CctvText := { decode_cctv : string -> string + list cctvRow; parse_url : string -> option (string * string) }.

(** [d10SequencePrefix]: digits, spaces, a dash, spaces. *)
Definition spaces_then (l : list ascii) : option (list ascii) :=
  match l with c :: _ => if re_space (code c) then Some (skip_while re_space l) else None | [] => None end.
Definition strip_sequence (s : string) : string :=
  default s (match bytes s with
             | c :: _ => if is_digit (code c) then
                           l ← spaces_then (skip_while is_digit (bytes s));
                           match l with
                           | d :: l => if N.eqb (code d) 45 then of_bytes <$> spaces_then l else None
                           | [] => None
                           end
                         else None
             | [] => None
             end).

Definition positiveInt (s : string) : Z := let '(n, ok) := Atoi (TrimSpace s) in if negb ok || (n <=? 0) then 0 else n.

Section Portal.
Context {UL : UnicodeLower} {PT : PortalText} {CT : CctvText}.

Definition httpsURL (s : string) : string :=
  let s := TrimSpace s in
  match parse_url s with
  | Some (scheme, host) => if negb (String.eqb scheme "https") || String.eqb host "" then "" else s
  | None => ""
  end.

Definition camera_of (district : Z) (c : cctvRow) : Camera :=
  let name := TrimSpace (LocationName c) in
  mkCamera ("d" +:+ pretty district +:+ "-" +:+ TrimSpace (Index c)) district (if district =? 10 then strip_sequence name else name)
    (newLocation (l_District c) (LocationName c) (l_NearbyPlace c) (l_Latitude c) (l_Longitude c) (Elevation c) (l_Direction c) (l_County c)
       (l_Route c) (PostmilePrefix c) (l_Postmile c) "")
    (parseBool (r_InService c)) (httpsURL (CurrentImageURL c)) (positiveInt (CurrentImageUpdateFrequency c))
    (httpsURL (StreamingVideoURL c)) (TrimSpace (ImageDescription c)).

Definition ParseCameras (district : Z) (body : string) : string + list Camera :=
  match decode_cctv body with
  | inl err => inl ("cwwp2: decode cameras: " +:+ err)
  | inr [] => inl ErrEmptyFeed
  | inr rows => inr (camera_of district <$> rows)
  end.

Definition CamerasOf (c : Client) (http : string -> Response) (district : Z) : string + list Camera :=
  match Cwwp2.get http (FeedURL c district "cctv" "cctv") with
  | inl err => inl err
  | inr body =>
      match ParseCameras district body with
      | inl err => inl ("district " +:+ pretty district +:+ ": " +:+ err)
      | inr cams => inr cams
      end
  end.

End Portal.
End Cctv.

(** ** The service *)

Module CameraService.
Import F64 Text Feeds Cctv.
Import Cwwp2 (HasPosition).

Definition DefaultCameraRefresh : Duration := 6 * hour.
Definition cameraRetryDelay : Duration := 5 * minute.

(** One district's last good list and its latest attempt. *)
Record cameraDistrict := mkDistrict { cams : list Camera; fetchedAt : Time; err : option string }.
Record cameraSnapshot := mkSnapshot { s_cams : list Camera; s_status : string; s_lastUpdate : Time; s_version : string }.
Record CameraService := mkService {
  districts : list Z; refresh : Duration; retry : Duration; byDist : gmap Z cameraDistrict; snap : cameraSnapshot }.

Definition no_district : cameraDistrict := mkDistrict [] time_zero None.

(** What a consumer can use. *)
Definition servable (c : Camera) : bool := InService c && HasPosition (Location_ c) && negb (String.eqb (ImageURL c) "").
Definition servableCameras (cs : list Camera) : list Camera := filter (fun c => servable c = true) cs.

(** The JSON of a snapshot; there is none of a number JSON cannot write. *)
Class SnapshotText := { encode_snapshot : list Camera -> string -> Time -> option string }.

Section Service.
Context {SH : Sha256} {ST : SnapshotText}.

(** The lists so far: the cameras, how many districts, whether one is missing or
    failing, and the oldest fetch. *)
Record gathered := mkGathered { g_cams : list Camera; served : nat; degraded : bool; oldest : Time }.

Definition add_camera (l : list Camera) (c : Camera) : list Camera := if existsb (fun x => String.eqb (ID x) (ID c)) l then l else l ++ [c].
Definition gather (byDist : gmap Z cameraDistrict) (g : gathered) (d : Z) : gathered :=
  let st := default no_district (byDist !! d) in
  let never := time_is_zero (fetchedAt st) in
  let bad := degraded g || bool_decide (is_Some (err st)) || never in
  if never then mkGathered (g_cams g) (served g) bad (oldest g)
  else mkGathered (foldl add_camera (g_cams g) (cams st)) (S (served g)) bad
         (if time_is_zero (oldest g) || time_before (fetchedAt st) (oldest g) then fetchedAt st else oldest g).

(** Encoding may fail; nothing is written then. *)
Definition version_of (cs : list Camera) (st : string) (t : Time) : string :=
  String.substring 0 16 (sha256 (default "" (encode_snapshot cs st t))).

Definition buildSnapshot (districts : list Z) (byDist : gmap Z cameraDistrict) : cameraSnapshot :=
  let g := foldl (gather byDist) (mkGathered [] 0 false time_zero) districts in
  let '(st, last) :=
    if Nat.eqb (served g) 0 then ("UNAVAILABLE", time_zero) else if degraded g then ("STALE", oldest g) else ("OK", time_zero) in
  mkSnapshot (g_cams g) st last (version_of (g_cams g) st last).

Definition NewCameraService (districts : list Z) (refresh : Duration) : CameraService :=
  let refresh := if refresh <=? 0 then DefaultCameraRefresh else refresh in
  mkService districts refresh (Z.min cameraRetryDelay refresh) ∅ (buildSnapshot districts ∅).

Definition Cameras (s : CameraService) : list Camera * string * Time * string :=
  (s_cams (snap s), s_status (snap s), s_lastUpdate (snap s), s_version (snap s)).

(** One round of fetches: what the portal answers the n-th request, and the clock
    when a district is recorded. *)
Record Round := mkRound { answer : nat -> Z -> string + list Camera; clock : Z -> Time }.

(** The results by district; of a district listed twice the later one. *)
Definition results (r : Round) (districts : list Z) : gmap Z (string + list Camera) :=
  list_to_map (reverse (imap (fun i d => (d, answer r i d)) districts)).

Definition record (t : Time) (st : cameraDistrict) (r : string + list Camera) : cameraDistrict :=
  match r with inl e => mkDistrict (cams st) (fetchedAt st) (Some e) | inr cs => mkDistrict (servableCameras cs) t None end.

Definition Refresh (r : Round) (s : CameraService) : CameraService * bool :=
  let res := results r (districts s) in
  let dists := map_imap (fun d x => Some (record (clock r d) (default no_district (byDist s !! d)) x)) res ∪ byDist s in
  (mkService (districts s) (refresh s) (retry s) dists (buildSnapshot (districts s) dists),
   forallb (fun x : Z * (string + list Camera) => match x.2 with inl _ => false | inr _ => true end) (map_to_list res)).

(** How long [Run] waits after a refresh. *)
Definition wait_after (s : CameraService) (ok : bool) : Duration := if ok then refresh s else retry s.

End Service.
End CameraService.
