(* ===== verification/CamerasSpec.v ===== *)
(** * What the camera directory serves

    After any history of refreshes, the list, its status and its time are a
    function of what each district last answered; the version names them. *)

From Stdlib Require Import Ascii.
From S2P Require Import Prelude Float64 GoText Feeds Hazards Closures Cameras.

Module CamerasSpec.
Import F64 Text Feeds Cctv CameraService.

(** ** One district *)

(** What a district answered in the rounds so far, with the clock. *)
Definition history (ds : list Z) (rs : list Round) (d : Z) : list (Time * (string + list Camera)) :=
  omap (fun r => x ← results r ds !! d; Some (clock r d, x)) rs.
Definition good (x : Time * (string + list Camera)) : option (Time * list Camera) :=
  match x.2 with inr cs => Some (x.1, cs) | inl _ => None end.
(** The last answer that was a list. *)
Definition last_good (h : list (Time * (string + list Camera))) : option (Time * list Camera) := last (omap good h).
(** The last answer was one. *)
Definition answering (h : list (Time * (string + list Camera))) : bool :=
  match last h with Some (_, inr _) => true | _ => false end.

Definition district_of (h : list (Time * (string + list Camera))) : cameraDistrict :=
  foldl (fun st x => record x.1 st x.2) no_district h.

Lemma district_of_spec h :
  cams (district_of h) = match last_good h with Some x => servableCameras x.2 | None => [] end
  /\ fetchedAt (district_of h) = match last_good h with Some x => x.1 | None => time_zero end
  /\ (err (district_of h) = None <-> h = [] \/ answering h = true).
Proof.
  unfold district_of, last_good, answering. induction h as [|[t r] h IH] using rev_ind; [cbn; tauto|].
  rewrite foldl_snoc, omap_app, !last_snoc. cbn [fst snd record].
  destruct r as [e|cs]; cbn; rewrite ?app_nil_r, ?last_snoc; cbn.
  - destruct IH as (-> & -> & _). split_and!; [done..|]. split; [done|]. intros [Hh|?]; [by destruct h|done].
  - split_and!; [done..|]. tauto.
Qed.

(** ** Gathering *)

Lemma add_camera_spec l cs :
  (forall c, c ∈ foldl add_camera l cs -> c ∈ l \/ c ∈ cs)
  /\ (forall c, c ∈ l \/ c ∈ cs -> ID c ∈ ID <$> foldl add_camera l cs)
  /\ (NoDup (ID <$> l) -> NoDup (ID <$> foldl add_camera l cs)).
Proof.
  revert l. induction cs as [|x cs IH]; intros l; cbn [foldl].
  - split_and!; [tauto| |done]. intros c [Hc|[]%elem_of_nil]. apply list_elem_of_fmap. eauto.
  - destruct (IH (add_camera l x)) as (I1 & I2 & I3).
    assert (Hadd : add_camera l x = if decide (ID x ∈ ID <$> l) then l else l ++ [x]).
    { unfold add_camera. destruct (existsb _ l) eqn:E.
      - apply existsb_exists in E as (y & Hy%list_elem_of_In & E%String.eqb_eq). rewrite decide_True; [done|]. rewrite <-E.
        by apply list_elem_of_fmap_2.
      - rewrite decide_False; [done|]. intros (y & E2 & Hy)%list_elem_of_fmap. apply not_true_iff_false in E. destruct E.
        apply existsb_exists. exists y. split; [by apply list_elem_of_In|by apply String.eqb_eq]. }
    rewrite Hadd in *. case_decide as Hin.
    + split_and!; [intros c [?|?]%I1; [by left|by right; constructor]| |done].
      intros c [Hc|[-> |Hc]%elem_of_cons]; [apply I2; by left| |apply I2; by right].
      apply list_elem_of_fmap in Hin as (y & -> & Hy). apply I2. by left.
    + split_and!.
      * intros c [[?|Hc%list_elem_of_singleton]%elem_of_app|?]%I1; [by left|right; subst; constructor|right; by constructor].
      * intros c [Hc|[-> |Hc]%elem_of_cons]; apply I2; rewrite elem_of_app, list_elem_of_singleton; tauto.
      * intros Hn. apply I3. rewrite fmap_app, NoDup_app. split_and!; [done| |by apply NoDup_singleton].
        by intros y Hy ->%list_elem_of_singleton.
Qed.

Definition fetched (by_ : gmap Z cameraDistrict) (d : Z) : bool := negb (time_is_zero (fetchedAt (default no_district (by_ !! d)))).
Definition failing (by_ : gmap Z cameraDistrict) (d : Z) : bool :=
  bool_decide (is_Some (err (default no_district (by_ !! d)))) || negb (fetched by_ d).
Definition older (o t : Time) : Time := if time_is_zero o || time_before t o then t else o.

Lemma gather_fields by_ ds g :
  let ks := filter (fun d => fetched by_ d = true) ds in
  foldl (gather by_) g ds
  = mkGathered (foldl add_camera (g_cams g) (ks ≫= fun d => cams (default no_district (by_ !! d)))) (served g + length ks)
      (degraded g || existsb (failing by_) ds) (foldl older (oldest g) ((fun d => fetchedAt (default no_district (by_ !! d))) <$> ks)).
Proof.
  cbn zeta. revert g. induction ds as [|d ds IH]; intros [gc gs gd go]; cbn [foldl].
  - cbn. by rewrite Nat.add_0_r, orb_false_r.
  - rewrite IH. unfold gather at 1 2 3 4. unfold failing, fetched. cbn [existsb]. rewrite filter_cons.
    destruct (time_is_zero (fetchedAt (default no_district (by_ !! d)))) eqn:E; cbn [negb g_cams served degraded oldest].
    + rewrite decide_False by done. f_equal. by rewrite !orb_assoc.
    + rewrite decide_True by done. rewrite bind_cons, fmap_cons, foldl_app. cbn [foldl length].
      f_equal; [lia|]. by rewrite !orb_assoc, !orb_false_r.
Qed.

Lemma older_spec ts :
  Forall (fun t => 0 < t) ts -> ts <> [] -> foldl older time_zero ts ∈ ts /\ forall t, t ∈ ts -> foldl older time_zero ts <= t.
Proof.
  assert (Hg : Forall (fun t => 0 < t) ts ->
    forall o, 0 < o -> foldl older o ts ∈ o :: ts /\ forall t, t ∈ o :: ts -> foldl older o ts <= t).
  { intros Hp. induction Hp as [|t ts Ht Hp IH]; intros o Ho; cbn [foldl].
    - split; [constructor|]. intros t ->%list_elem_of_singleton. lia.
    - unfold older at 2 4. unfold time_is_zero, time_before, time_zero. replace (o =? 0) with false by lia. cbn [orb].
      destruct (Z.ltb_spec t o); [destruct (IH t Ht) as [I1 I2]|destruct (IH o Ho) as [I1 I2]].
      + split; [by constructor|]. intros u [-> |Hu]%elem_of_cons; [|by apply I2]. specialize (I2 t ltac:(constructor)). lia.
      + split; [rewrite !elem_of_cons in *; tauto|].
        intros u [-> |[-> |Hu]%elem_of_cons]%elem_of_cons; [apply I2; constructor| |apply I2; by constructor].
        specialize (I2 o ltac:(constructor)). lia. }
  intros Hp Hne. destruct ts as [|t ts]; [done|]. apply Forall_cons in Hp as [Ht Hp].
  destruct (Hg ltac:(by constructor) t Ht) as [I1 I2]. change (foldl older time_zero (t :: ts)) with (foldl older t ts).
  cbn [foldl] in I1, I2. replace (older t t) with t in * by (unfold older, time_is_zero, time_before; by destruct (t =? 0), (t <? t)).
  split; [rewrite !elem_of_cons in *; tauto|]. intros u Hu. apply I2. by constructor.
Qed.

(** ** The list *)

Section List.
Context {SH : Sha256} {ST : SnapshotText}.

Definition after (ds : list Z) (refresh : Duration) (rs : list Round) : CameraService :=
  foldl (fun s r => (Refresh r s).1) (NewCameraService ds refresh) rs.

Lemma after_state ds refresh rs :
  let s := after ds refresh rs in
  districts s = ds /\ snap s = buildSnapshot ds (byDist s)
  /\ forall d, default no_district (byDist s !! d) = district_of (history ds rs d).
Proof.
  cbn zeta. unfold after, history. induction rs as [|r rs IH] using rev_ind; [by split_and!|].
  rewrite foldl_snoc. set (s := foldl _ _ rs) in *. destruct IH as (Hd & _ & IH). cbn. rewrite Hd. split_and!; [done..|].
  intros d. rewrite omap_app. unfold district_of. rewrite foldl_app. fold (district_of (omap (fun r0 => x ← results r0 ds !! d; Some (clock r0 d, x)) rs)).
  rewrite <-IH, lookup_union, map_lookup_imap. cbn. destruct (results r ds !! d) as [x|]; cbn; [by destruct (byDist s !! d)|].
  by destruct (byDist s !! d).
Qed.

Lemma imap_keys {A B} (f : nat -> A -> B) l : (imap (fun i a => (a, f i a)) l).*1 = l.
Proof. revert f. induction l as [|a l IH]; intros f; [done|]. cbn. f_equal. apply (IH (fun i => f (S i))). Qed.

Lemma results_lookup r ds d : is_Some (results r ds !! d) <-> d ∈ ds.
Proof.
  unfold results. rewrite <-elem_of_dom, dom_list_to_map, elem_of_list_to_set, fmap_reverse, elem_of_reverse, imap_keys. done.
Qed.

Lemma last_good_time ds rs d t cs :
  Forall (fun r => forall d, 0 < clock r d) rs -> last_good (history ds rs d) = Some (t, cs) -> 0 < t.
Proof.
  intros Hc Hl. apply last_Some_elem_of, list_elem_of_omap in Hl as ([t' [e|l]] & Hx & E); cbn in E; [done|]. injection E as <- <-.
  apply list_elem_of_omap in Hx as (r & Hr & E). destruct (results r ds !! d); [|done]. injection E as <- _.
  rewrite Forall_forall in Hc. by apply Hc.
Qed.

Lemma answering_good h : answering h = true -> is_Some (last_good h).
Proof.
  unfold answering, last_good. destruct h as [|[t r] h _] using rev_ind; [done|]. rewrite omap_app, !last_snoc.
  destruct r; [done|]. cbn. rewrite last_snoc. eauto.
Qed.

(** A history is empty for every district or for none. *)
Lemma history_nil ds rs d : d ∈ ds -> history ds rs d = [] <-> rs = [].
Proof.
  intros Hd. split; [|by intros ->]. destruct rs as [|r rs]; [done|]. unfold history. cbn.
  by apply (results_lookup r ds d) in Hd as [x ->].
Qed.

Lemma fetched_spec ds refresh rs d :
  Forall (fun r => forall d, 0 < clock r d) rs ->
  fetched (byDist (after ds refresh rs)) d = true <-> is_Some (last_good (history ds rs d)).
Proof.
  intros Hc. destruct (after_state ds refresh rs) as (_ & _ & Hs). unfold fetched. rewrite Hs.
  destruct (district_of_spec (history ds rs d)) as (_ & -> & _). unfold time_is_zero.
  destruct (last_good _) as [[t l]|] eqn:E; cbn; [|split; [done|by intros []]].
  pose proof (last_good_time ds rs d t l Hc E). split; [eauto|]. intros _. by replace (t =? 0) with false by lia.
Qed.

Lemma failing_spec ds refresh rs d :
  Forall (fun r => forall d, 0 < clock r d) rs -> d ∈ ds ->
  failing (byDist (after ds refresh rs)) d = negb (answering (history ds rs d)).
Proof.
  intros Hc Hd. pose proof (fetched_spec ds refresh rs d Hc) as Hf. unfold failing.
  destruct (after_state ds refresh rs) as (_ & _ & Hs). rewrite Hs. destruct (district_of_spec (history ds rs d)) as (_ & _ & He).
  destruct (answering _) eqn:Ea; cbn [negb].
  - rewrite bool_decide_false by (rewrite (proj2 He) by (by right); apply is_Some_None). cbn. apply negb_false_iff, Hf.
    by apply answering_good.
  - apply orb_true_iff. case_bool_decide as Hn; [by left|right]. apply eq_None_not_Some in Hn. apply He in Hn as [Hn|]; [|done].
    apply negb_true_iff, not_true_iff_false. rewrite Hf, Hn. apply is_Some_None.
Qed.

(** The verdict on how many lists there are, a failure, and their times. *)
Definition verdict (n : nat) (bad : bool) (ts : list Time) : string * Time :=
  if Nat.eqb n 0 then ("UNAVAILABLE", time_zero) else if bad then ("STALE", foldl older time_zero ts) else ("OK", time_zero).

Lemma snapshot_fields ds (dists : gmap Z cameraDistrict) :
  let ks := filter (fun d => fetched dists d = true) ds in
  let cs := foldl add_camera [] (ks ≫= fun d => cams (default no_district (dists !! d))) in
  let v := verdict (length ks) (existsb (failing dists) ds) ((fun d => fetchedAt (default no_district (dists !! d))) <$> ks) in
  buildSnapshot ds dists = mkSnapshot cs v.1 v.2 (version_of cs v.1 v.2).
Proof.
  cbn zeta. unfold buildSnapshot. rewrite gather_fields. cbn [g_cams served degraded oldest app orb Nat.add].
  unfold verdict. by destruct (Nat.eqb _ 0), (existsb (failing dists) ds).
Qed.

(** C40: After any history of refreshes the directory serves what the districts
    last answered. A camera that is listed is one that a district's last good
    list has, in service and with a position and an image, and each such camera
    is listed, once; a district that stops answering keeps its list. The status
    is OK exactly when every district answered the last time it was asked, and
    UNAVAILABLE exactly when none ever did; else it is STALE, and the time is
    that of the oldest list served. *)
Theorem camera_list ds refresh rs :
  Forall (fun r => forall d, 0 < clock r d) rs ->
  let '(cs, st, t, _) := Cameras (after ds refresh rs) in
  let lists d := last_good (history ds rs d) in
  (forall c, c ∈ cs -> exists d t' l, d ∈ ds /\ lists d = Some (t', l) /\ c ∈ l /\ servable c = true)
  /\ (forall d t' l c, d ∈ ds -> lists d = Some (t', l) -> c ∈ l -> servable c = true -> ID c ∈ ID <$> cs)
  /\ NoDup (ID <$> cs)
  /\ (st = "OK" <-> ds <> [] /\ forall d, d ∈ ds -> answering (history ds rs d) = true)
  /\ (st = "UNAVAILABLE" <-> forall d, d ∈ ds -> lists d = None)
  /\ (st <> "OK" -> st <> "UNAVAILABLE" -> st = "STALE"
      /\ (exists d l, d ∈ ds /\ lists d = Some (t, l)) /\ forall d t' l, d ∈ ds -> lists d = Some (t', l) -> t <= t')
  /\ (st = "OK" \/ st = "UNAVAILABLE" -> t = time_zero).
Proof.
  intros Hc. destruct (after_state ds refresh rs) as (_ & Hsnap & Hs). set (dists := byDist (after ds refresh rs)) in *.
  pose proof (fun d => fetched_spec ds refresh rs d Hc) as Hf. pose proof (fun d => failing_spec ds refresh rs d Hc) as Hb. fold dists in Hf, Hb.
  unfold Cameras. rewrite Hsnap, snapshot_fields. cbn [s_cams s_status s_lastUpdate].
  set (ks := filter (fun d => fetched dists d = true) ds).
  assert (Hks : forall d, d ∈ ks <-> d ∈ ds /\ is_Some (last_good (history ds rs d))).
  { intros d. unfold ks. rewrite list_elem_of_filter, Hf. tauto. }
  assert (Hcams : forall d t l, last_good (history ds rs d) = Some (t, l) ->
    cams (default no_district (dists !! d)) = servableCameras l /\ fetchedAt (default no_district (dists !! d)) = t).
  { intros d t l Hl. rewrite Hs. destruct (district_of_spec (history ds rs d)) as (-> & -> & _). by rewrite Hl. }
  assert (Hbad : existsb (failing dists) ds = true <-> exists d, d ∈ ds /\ answering (history ds rs d) = false).
  { rewrite existsb_exists. split; intros (d & Hd & Hx).
    - apply list_elem_of_In in Hd. exists d. rewrite Hb in Hx by done. by apply negb_true_iff in Hx.
    - exists d. rewrite <-list_elem_of_In, Hb, Hx by done. done. }
  set (ts := (fun d => fetchedAt (default no_district (dists !! d))) <$> ks).
  assert (Hts : forall t, t ∈ ts <-> exists d l, d ∈ ds /\ last_good (history ds rs d) = Some (t, l)).
  { intros t. unfold ts. rewrite list_elem_of_fmap. split.
    - intros (d & -> & [Hd [[t' l] Hl]]%Hks). destruct (Hcams _ _ _ Hl) as [_ ->]. eauto.
    - intros (d & l & Hd & Hl). exists d. destruct (Hcams _ _ _ Hl) as [_ ->]. rewrite Hks. eauto. }
  destruct (add_camera_spec [] (ks ≫= fun d => cams (default no_district (dists !! d)))) as (A1 & A2 & A3).
  assert (Hlen : length ks = 0%nat <-> forall d, d ∈ ds -> last_good (history ds rs d) = None).
  { rewrite length_zero_iff_nil. split.
    - intros E d Hd. apply eq_None_not_Some. intros Hl. apply (not_elem_of_nil d). rewrite <-E. by apply Hks.
    - intros Hn. destruct ks as [|d l]; [done|]. destruct (Hks d) as [[Hd Hl] _]; [constructor|]. rewrite Hn in Hl by done. by destruct Hl. }
  split; [|split; [|split]].
  - intros c [[]%elem_of_nil|Hc']%A1. apply list_elem_of_bind in Hc' as (d & Hcd & [Hd [[t' l] Hl]]%Hks).
    destruct (Hcams _ _ _ Hl) as [E _]. rewrite E in Hcd. apply list_elem_of_filter in Hcd as [??]. eauto 10.
  - intros d t' l c Hd Hl Hcl Hsv. apply A2. right. apply list_elem_of_bind. exists d. destruct (Hcams _ _ _ Hl) as [-> _].
    split; [by apply list_elem_of_filter|]. apply Hks. eauto.
  - apply A3. constructor.
  - clear A1 A2 A3 Hcams. unfold verdict. destruct (Nat.eqb_spec (length ks) 0) as [H0|H0]; cbn [fst snd].
    + pose proof (proj1 Hlen H0) as Hno. clear H0. rename Hno into H0. split_and!; [|done|by intros _ []|done].
      split; [done|]. intros [Hne Ha]. destruct ds as [|d ds']; [done|]. specialize (H0 d ltac:(constructor)).
      specialize (Ha d ltac:(constructor)). apply answering_good in Ha as [? Ha]. by rewrite Ha in H0.
    + assert (Hne : ts <> []) by (unfold ts; by destruct ks).
      assert (Hsome : ~ forall d, d ∈ ds -> last_good (history ds rs d) = None) by (by rewrite <-Hlen).
      assert (Hpos : Forall (fun t => 0 < t) ts).
      { apply Forall_forall. intros t (d & l & _ & Hl)%Hts. by apply (last_good_time ds rs d t l). }
      destruct (existsb _ ds) eqn:E; cbn [fst snd].
      * destruct (older_spec ts Hpos Hne) as [O1 O2]. apply Hts in O1. destruct (proj1 Hbad eq_refl) as (d & Hd & Ha).
        split_and!; [|by split| |by intros [|]].
        -- split; [done|]. intros [_ Hall]. by rewrite Hall in Ha.
        -- intros _ _. split_and!; [done..|]. intros d' t' l Hd' Hl. apply O2, Hts. eauto.
      * split_and!; [|by split|done|done]. split; [|done]. intros _. split; [by intros ->|]. intros d Hd.
        apply not_false_iff_true. intros Ha. discriminate (proj2 Hbad (ex_intro _ d (conj Hd Ha))).
Qed.

(** The version names the list, its status and its time, as long as JSON can
    write them and the digest does not collide. *)
Lemma version_names ds refresh rs ds' refresh' rs' e e' :
  let '(cs, st, t, v) := Cameras (after ds refresh rs) in
  let '(cs', st', t', v') := Cameras (after ds' refresh' rs') in
  encode_snapshot cs st t = Some e -> encode_snapshot cs' st' t' = Some e' ->
  (encode_snapshot cs st t = encode_snapshot cs' st' t' -> (cs, st, t) = (cs', st', t')) ->
  (String.substring 0 16 (sha256 e) = String.substring 0 16 (sha256 e') -> e = e') ->
  v = v' -> (cs, st, t) = (cs', st', t').
Proof.
  unfold Cameras. destruct (after_state ds refresh rs) as (_ & -> & _), (after_state ds' refresh' rs') as (_ & -> & _).
  rewrite !snapshot_fields. cbn [s_cams s_status s_lastUpdate s_version]. unfold version_of. intros -> -> Hinj Hno Hv. apply Hinj.
  f_equal. by apply Hno.
Qed.

End List.

(** ** A directory of two districts *)

Module CamerasDemo.

#[local] Instance hash : Sha256 := {| sha256 s := s |}.
(** Names and statuses; nothing of a camera whose latitude is no number. *)
#[local] Instance text : SnapshotText :=
  {| encode_snapshot cs st t := if existsb (fun c => is_nan (Cwwp2.Latitude (Location_ c))) cs then None
                                else Some (st +:+ join "," (ID <$> cs)) |}.

Definition at_ (id : string) (lat_ : float64) (up : bool) : Camera :=
  mkCamera id 10 id (Cwwp2.mkLocation "" "" "" "" "" "" "" lat_ (of_Z (-120)) zero true "") up "https://x/a.jpg" 2 "" "".
Definition both : Round := {| answer _ d := if d =? 10 then inr [at_ "d10-1" (of_Z 38) true; at_ "d10-2" (of_Z 38) false] else inr [at_ "d9-1" (of_Z 38) true];
  clock _ := 100 |}.
Definition one : Round := {| answer _ d := if d =? 10 then inr [at_ "d10-3" (of_Z 38) true] else inl "HTTP 500"; clock _ := 200 |}.
Definition none : Round := {| answer _ _ := inl "HTTP 500"; clock _ := 300 |}.
Definition listed (rs : list Round) : list string * string * Time :=
  let '(cs, st, t, _) := Cameras (after [10; 9] 0 rs) in (ID <$> cs, st, t).

Example directory :
  listed [] = ([], "UNAVAILABLE", 0) /\ listed [both] = (["d10-1"; "d9-1"], "OK", 0)
  /\ listed [both; one] = (["d10-3"; "d9-1"], "STALE", 100) /\ listed [both; one; none] = (["d10-3"; "d9-1"], "STALE", 100)
  /\ listed [none] = ([], "UNAVAILABLE", 0) /\ listed [both; one; both] = (["d10-1"; "d9-1"], "OK", 0).
Proof. vm_compute. repeat split. Qed.

Lemma camera_list_witness :
  let '(cs, st, t, _) := Cameras (after [10; 9] 0 [both; one]) in
  NoDup (ID <$> cs) /\ (exists d l, d ∈ [10; 9] /\ last_good (history [10; 9] [both; one] d) = Some (t, l)).
Proof.
  pose proof (camera_list [10; 9] 0 [both; one] ltac:(repeat constructor)) as Hl.
  destruct (Cameras (after [10; 9] 0 [both; one])) as [[[cs st] t] v] eqn:E. destruct Hl as (_ & _ & Hn & _ & _ & Hs & _).
  split; [exact Hn|]. vm_compute in E. injection E as _ <- <- _.
  by destruct (Hs ltac:(discriminate) ltac:(discriminate)) as (_ & Ho & _).
Defined.

#[local] Instance portal : Cwwp2.PortalText :=
  {| Cwwp2.decode_lcs _ := inl ""; Cwwp2.unmarshal_string _ := None; Cwwp2.unmarshal_strings _ := None;
     Cwwp2.float_value s := if String.eqb s "NaN" then S754_nan else of_Z 1; Cwwp2.parse_pacific_local _ := None |}.

(** A latitude of NaN passes as a position. JSON cannot write it, so the version
    no longer changes with the list: a list of three cameras and one of two have
    the same. *)
Definition odd (l : list string) : Round :=
  {| answer _ _ := inr (at_ "d10-9" S754_nan true :: ((fun id => at_ id (of_Z 38) true) <$> l)); clock _ := 100 |}.
Lemma version_of_nan :
  let s l := Cameras (after [10] 0 [odd l]) in
  length (s ["a"; "b"]).1.1.1 = 3%nat /\ length (s ["c"]).1.1.1 = 2%nat /\ (s ["a"; "b"]).2 = (s ["c"]).2
  /\ Cwwp2.HasPosition (Cwwp2.newLocation "" "" "" "NaN" "-120" "" "" "" "" "" "" "") = true.
Proof. vm_compute. repeat split. Qed.

End CamerasDemo.
End CamerasSpec.
