(* ===== verification/MapFeatures.v ===== *)
(** * Events as map features

    [internal/gridapi/project.go] with the GeoJSON types of [internal/hazards]:
    what a map layer shows of a stored event, of a camera and of a relay link.
    [encoding/json] and [time.Format] are classes; raw coordinates stay the text
    they are. *)

From Stdlib Require Import Ascii.
From stdpp Require Import pretty.
From S2P Require Import Prelude Float64 Geojson GridEvent GoText Tx Mesh Severity Feeds Evacuation Power Hazards Summary ReadApi Closures Cameras.

Module MapFeatures.
Import F64 Grid Text Feeds.
Import Hazards (HazardText, RoadProps, ChainControlProps, FireWeatherProps, MessageSignProps, lonLat, int32_of).
Import Summary (Severity_name).
Import ReadApi (EventStatus_name).

(** ** Features *)

Definition LayerCamera : string := "camera".

(** Coordinates are numbers the code made, or raw JSON it passes through. *)
Inductive Coords := Made (c : Hazards.Coords) | Raw (json : string).
Record Geometry := mkGeometry { gType : string; Coordinates : Coords }.

Definition PointGeom (lat_ lng_ : float64) : Geometry := mkGeometry "Point" (Made (Hazards.CPoint (lonLat lat_ lng_))).
Definition RawGeom (geomType coords : string) : option Geometry :=
  if String.eqb geomType "" || String.eqb coords "" then None else Some (mkGeometry geomType (Raw coords)).
(** The geometry of a feature another builder made. *)
Definition made (g : Hazards.Geometry) : Geometry := mkGeometry (Hazards.gType g) (Made (Hazards.Coordinates g)).

Record SummaryEnhanced := mkSummaryEnhanced { EnhancedAt : string }.
Record Source := mkSource { s_ID : string; s_Name : string; s_URL : string; s_Attribution : string }.
Record ClosureProps := mkClosureProps {
  WindowID : string; ClosureType : string; WorkType : string; LanesClosed : string; TotalLanes : Z; EstimatedDelayMinutes : Z;
  PlannedStart : string; PlannedEnd : string; SetUpAt : string }.
Record IncidentProps := mkIncidentProps { LogNumber : string; Closure : option ClosureProps }.
Record WeatherProps := mkWeatherProps {
  w_Event : string; w_Source : string; Zones : list string; NWSSeverity : string; Certainty : string; Urgency : string; Instruction : string }.
Record EarthquakeProps := mkEarthquakeProps { Magnitude : float64; DepthKm : float64; Felt : Z }.
Record WildfireProps := mkWildfireProps { Acres : float64; Containment : Z; wf_County : string; Cause : string; HasPerimeter : bool }.
Record EvacuationProps := mkEvacuationProps { ZoneID : string; Level : string; EventType : string; ev_County : string }.
Record MeshAdminProps := mkMeshAdminProps {
  ReporterID : string; ReportedAt : string; LastSuccessAt : string; BatteryVolts : option float64; BatteryPercent : option float64;
  BatteryPercentSource : string; TemperatureC : option float64; NoiseFloorDBm : option Z; TxQueueLen : option Z; UptimeSeconds : Z;
  AirtimeMs : Z; RxAirtimeMs : Z; PacketsSent : Z; PacketsReceived : Z; RecvErrors : Z }.
Record MeshProps := mkMeshProps {
  PublicKey : string; NodeType : string; m_Name : string; SNR : option float64; RSSI : option Z; HopCount : option Z; Gateways : list string;
  LastHeardAt : string; LastRelayedAt : string; InRegion : option bool; Reachability : string; Admin : option MeshAdminProps }.
Record MeshLinkProps := mkMeshLinkProps {
  A : string; B : string; Observations : Z; DaysActive : Z; FirstSeen : string; LastSeen : string; BestSnr : float64 }.
Record PowerProps := mkPowerProps {
  OutageID : string; p_Cause : string; CustomersAffected : Z; CrewStatus : string; EstimatedRestoration : string; EventName : string;
  Stage : string; MedicalBaselineAffected : Z; DeEnergizationStart : string; DeEnergizationEnd : string; AllClear : string }.
Record CameraProps := mkCameraProps {
  ImageURL : string; ImageRefreshMinutes : Z; StreamURL : string; Route : string; Direction : string; c_County : string;
  ElevationFeet : Z; DistanceMeters : Z }.

(** The kind blocks; at most one is set. *)
Inductive Block :=
  | Incident (p : IncidentProps) | Road (p : RoadProps) | ChainControl (p : ChainControlProps) | Weather (p : WeatherProps)
  | FireWeather (p : FireWeatherProps) | Earthquake (p : EarthquakeProps) | Wildfire (p : WildfireProps) | Evacuation (p : EvacuationProps)
  | Mesh_ (p : MeshProps) | MeshLink_ (p : MeshLinkProps) | Power_ (p : PowerProps) | MessageSign (p : MessageSignProps)
  | Camera_ (p : CameraProps).

Record Properties := mkProperties {
  ID : string; pLayer : string; Kind : string; Category : string; Severity_ : string; SeverityRank : Z; Headline : string;
  Description : string; Summary_ : string; SummaryEnhanced_ : option SummaryEnhanced; Status : string; Effective : string;
  Expires : string; UpdatedAt : string; AreaLabel : string; Source_ : Source; Block_ : option Block }.
Record Feature := mkFeature { fGeometry : option Geometry; fProperties : Properties }.

(** What a builder of the condition layers made, as such a feature. *)
Definition block_of (p : Hazards.Properties) : option Block :=
  match Hazards.Road p, Hazards.ChainControl p, Hazards.FireWeather p, Hazards.MessageSign_ p with
  | Some b, _, _, _ => Some (Road b)
  | _, Some b, _, _ => Some (ChainControl b)
  | _, _, Some b, _ => Some (FireWeather b)
  | _, _, _, Some b => Some (MessageSign b)
  | _, _, _, _ => None
  end.
Definition of_condition (f : Hazards.Feature) : Feature :=
  let p := Hazards.fProperties f in
  let src := Hazards.pSource p in
  mkFeature (made <$> Hazards.fGeometry f)
    (mkProperties (Hazards.pID p) (Hazards.pLayer p) (Hazards.Kind p) (Hazards.Category p) (Hazards.pSeverity p) (Hazards.SeverityRank p)
       (Hazards.Headline p) (Hazards.Description p) "" None (Hazards.Status p) (Hazards.Effective p) (Hazards.Expires p) ""
       (Hazards.AreaLabel p) (mkSource (Hazards.src_ID src) (Hazards.src_Name src) "" (Hazards.src_Attribution src)) (block_of p)).

(** ** Plumbing *)

(** The type and raw coordinates of a GeoJSON text. *)
Class GeometryJson := { decode_geometry : string -> option (string * string) }.

Section Projection.
Context {UL : UnicodeLower} {UU : UnicodeUpper} {HT : HazardText} {GJ : GeometryJson}.

Definition rfc3339 (ts : option Time) : string :=
  match ts with Some t => if time_unix t =? 0 then "" else Hazards.rfc3339 t | None => "" end.

Definition lifecycleStatus (ev : Event) : string := EventStatus_name (status ev).

Definition summaryEnhanced (ev : Event) : option SummaryEnhanced :=
  match enhancement ev with
  | Some e => if String.eqb (summary ev) "" then None else Some (mkSummaryEnhanced (rfc3339 (enhanced_at e)))
  | None => None
  end.

Definition geometryFromEvent (ev : Event) : option Geometry :=
  let raw := match geometry ev with Some g => g_geojson g | None => "" end in
  if String.eqb raw "" then None
  else match decode_geometry raw with Some (ty, coords) => RawGeom ty coords | None => None end.

(** [baseProps] and the members a projection assigns, then [feature]. *)
Record Assigned := mkAssigned {
  a_Kind : string; a_Description : string; a_Status : string; a_Effective : string; a_Expires : string; a_UpdatedAt : string;
  a_Source : Source; a_Block : Block }.
Definition project (ev : Event) (layer : string) (a : Assigned) : Feature :=
  mkFeature (geometryFromEvent ev)
    (mkProperties (Id ev) (ToUpper layer) (a_Kind a) (category ev) (Severity_name (severity ev)) (Severity_number (severity ev)) (headline ev)
       (a_Description a) (summary ev) (summaryEnhanced ev) (a_Status a) (a_Effective a) (a_Expires a) (a_UpdatedAt a) (area_label ev)
       (a_Source a) (Some (a_Block a))).

Definition source_name_of (ev : Event) : string := match provenance ev with Some p => source_name p | None => "" end.
Definition attribution_of (ev : Event) : string := match provenance ev with Some p => attribution p | None => "" end.

(** ** The layers *)

(** Getters on a detail of another kind, or on none, give the zero message. *)
Definition GetWildfire (ev : Event) : WildfireDetail :=
  match detail ev with Some (D_Wildfire d) => d | _ => mkWildfireDetail zero 0 "" "" false end.
Definition GetEvacuation (ev : Event) : EvacuationDetail :=
  match detail ev with Some (D_Evacuation d) => d | _ => mkEvacuationDetail "" "" "" "" end.
Definition GetWeatherAlert (ev : Event) : WeatherAlertDetail :=
  match detail ev with Some (D_WeatherAlert d) => d | _ => mkWeatherAlertDetail "" "" "" "" "" [] end.
Definition GetEarthquake (ev : Event) : EarthquakeDetail :=
  match detail ev with Some (D_Earthquake d) => d | _ => mkEarthquakeDetail zero zero 0 end.
Definition GetRoadIncident (ev : Event) : RoadIncidentDetail :=
  match detail ev with Some (D_RoadIncident d) => d | _ => mkRoadIncidentDetail "" "" "" ∅ None end.
Definition GetPower (ev : Event) : PowerDetail :=
  match detail ev with Some (D_Power d) => d | _ => mkPowerDetail "" "" 0 "" None "" "" "" "" 0 None None None end.
Definition mesh_of (ev : Event) : MeshDetail := default (mkMeshDetail "" "" "" None MESH_REACHABILITY_UNSPECIFIED) (GetMesh ev).

Definition projectWildfire (ev : Event) : Feature :=
  let d := GetWildfire ev in
  project ev Hazards.LayerWildfire
    (mkAssigned "Wildfire" "" (lifecycleStatus ev) (rfc3339 (effective ev)) "" (rfc3339 (observed_at ev))
       (if String.eqb (GetSourceId ev) "firis" then mkSource "firis" "CAL FIRE / FIRIS" "" "CAL FIRE / FIRIS / NIFC"
        else mkSource "calfire" "CAL FIRE" (safeURL (canonical_url ev)) "CAL FIRE / FIRIS")
       (Wildfire (mkWildfireProps (acres d) (containment d) (Grid.wf_county d) (wf_cause d) (has_perimeter d)))).

Definition projectEvacuation (ev : Event) : Feature :=
  let d := GetEvacuation ev in
  project ev Hazards.LayerEvacuation
    (mkAssigned "Evacuation" (description ev) (level d) "" "" (rfc3339 (observed_at ev))
       (mkSource "caloes" "Cal OES" (Caloes.ZoneURL (zone_id d) (Grid.ev_county d)) "Cal OES — reference only")
       (Evacuation (mkEvacuationProps (zone_id d) (level d) (event_type d) (Grid.ev_county d)))).

Definition projectWeatherAlert (ev : Event) : Feature :=
  let d := GetWeatherAlert ev in
  project ev Hazards.LayerWeatherAlert
    (mkAssigned "Weather alert" (description ev) (lifecycleStatus ev) (rfc3339 (effective ev)) (rfc3339 (expires ev)) ""
       (mkSource "nws" (source_name_of ev) "" "")
       (Weather (mkWeatherProps (category ev) "NWS" (wx_zones d) (nws_severity d) (certainty d) (urgency d) (instruction d)))).

Definition projectEarthquake (ev : Event) : Feature :=
  let d := GetEarthquake ev in
  let updated :=
    match observed_at ev, effective ev with
    | Some o, Some e => if o =? e then "" else rfc3339 (Some o)
    | o, _ => rfc3339 o
    end in
  project ev Hazards.LayerEarthquake
    (mkAssigned "Earthquake" "" (lifecycleStatus ev) (rfc3339 (effective ev)) "" updated
       (mkSource "usgs" "USGS" (safeURL (canonical_url ev)) "U.S. Geological Survey")
       (Earthquake (mkEarthquakeProps (magnitude d) (depth_km d) (felt d)))).

Definition nonEmptyString (s fallback : string) : string := if String.eqb s "" then fallback else s.

Definition closure_props (c : LaneClosureDetail) : ClosureProps :=
  mkClosureProps (window_id c) (closure_type c) (work_type c) (lanes_closed c) (total_lanes c) (estimated_delay_minutes c)
    (rfc3339 (planned_start c)) (rfc3339 (planned_end c)) (rfc3339 (set_up_at c)).

Definition projectRoadIncident (ev : Event) : Feature :=
  let d := GetRoadIncident ev in
  project ev Hazards.LayerRoadIncident
    (mkAssigned "Road incident"
       (if String.eqb (summary ev) "" && bool_decide (is_Some (closure d)) then description ev else summary ev)
       (lifecycleStatus ev) (rfc3339 (effective ev)) "" (rfc3339 (observed_at ev))
       (if String.eqb (GetSourceId ev) "caltrans"
        then mkSource "caltrans" "Caltrans" "" (nonEmptyString (attribution_of ev) "quickmap.dot.ca.gov")
        else mkSource "chp" "CHP / Caltrans" "" "quickmap.dot.ca.gov")
       (Incident (mkIncidentProps (log_number d) (closure_props <$> closure d)))).

Definition meshReachability (r : MeshReachability) : string :=
  match r with REACHABLE => "REACHABLE" | UNREACHABLE => "UNREACHABLE" | MESH_REACHABILITY_UNSPECIFIED => "" end.

Definition meshAdminProps (a : MeshAdminTelemetry) : MeshAdminProps :=
  mkMeshAdminProps (reporter_id a) (rfc3339 (reported_at a)) (rfc3339 (last_success_at a)) (battery_volts a) (battery_percent a)
    (battery_percent_source a) (temperature_c a) (noise_floor_dbm a) (tx_queue_len a) (uptime_seconds a) (airtime_ms a) (rx_airtime_ms a)
    (packets_sent a) (packets_received a) (recv_errors a).

Definition projectNetwork (ev : Event) : Feature :=
  let d := mesh_of ev in
  let t := default ReadApi.no_telemetry (telemetry d) in
  project ev Hazards.LayerMesh
    (mkAssigned "Mesh node" "" (lifecycleStatus ev) "" "" (rfc3339 (observed_at ev))
       (mkSource "meshcore" "MeshCore Mesh" (safeURL (canonical_url ev)) "MeshCore community mesh")
       (Mesh_ (mkMeshProps (public_key d) (node_type d) (Grid.m_name d) (snr t) (rssi t) (hop_count t) (gateways t)
          (rfc3339 (last_heard_at t)) (rfc3339 (last_relayed_at t)) None (meshReachability (reachability d)) (meshAdminProps <$> admin t)))).

Definition powerCategoryPSPS : string := "psps".
Definition powerKindOutage : string := "Power outage".
Definition powerKindPSPS : string := "Public Safety Power Shutoff".

Definition projectPower (ev : Event) : Feature :=
  let d := GetPower ev in
  let isPSPS := String.eqb (category ev) powerCategoryPSPS in
  let url := safeURL (canonical_url ev) in
  project ev Hazards.LayerPower
    (mkAssigned (if isPSPS then powerKindPSPS else powerKindOutage) "" (lifecycleStatus ev) (rfc3339 (effective ev)) ""
       (rfc3339 (observed_at ev))
       (if isPSPS then mkSource "psps" "PG&E PSPS" url "Pacific Gas and Electric" else mkSource "pge" "PG&E" url "Pacific Gas and Electric")
       (Power_ (mkPowerProps (outage_id d) (Grid.p_cause d) (customers_affected d) (crew_status d) (rfc3339 (estimated_restoration d))
          (event_name d) (stage d) (medical_baseline_affected d) (rfc3339 (de_energization_start d)) (rfc3339 (de_energization_end d))
          (rfc3339 (all_clear d))))).

(** The projection of a layer; none where events are not what it shows. *)
Definition projection (layer : string) : option (Event -> Feature) :=
  if String.eqb layer Hazards.LayerWildfire then Some projectWildfire
  else if String.eqb layer Hazards.LayerEvacuation then Some projectEvacuation
  else if String.eqb layer Hazards.LayerWeatherAlert then Some projectWeatherAlert
  else if String.eqb layer Hazards.LayerEarthquake then Some projectEarthquake
  else if String.eqb layer Hazards.LayerRoadIncident then Some projectRoadIncident
  else if String.eqb layer Hazards.LayerMesh then Some projectNetwork
  else if String.eqb layer Hazards.LayerPower then Some projectPower
  else None.
Definition ProjectEvents (layer : string) (events : list Event) : list Feature :=
  match projection layer with Some f => f <$> events | None => [] end.

(** ** Cameras *)

Definition cameraAttribution : string := "Caltrans".
Definition cameraFeature (c : Cctv.Camera) (dist : float64) : Feature :=
  let l := Cctv.Location_ c in
  mkFeature (Some (PointGeom (Cwwp2.Latitude l) (Cwwp2.Longitude l)))
    (mkProperties (Cctv.ID c) (ToUpper LayerCamera) "Traffic camera" "" (Severity_name INFO) (Severity_number INFO) (Cctv.Name c)
       (Cctv.Description c) "" None "" "" "" "" (Cwwp2.NearbyPlace l) (mkSource "caltrans" "Caltrans CCTV" (Cctv.ImageURL c) cameraAttribution)
       (Some (Camera_ (mkCameraProps (Cctv.ImageURL c) (Cctv.ImageRefreshMinutes c) (Cctv.StreamURL c) (Cwwp2.Route l) (Cwwp2.Direction l)
          (Cwwp2.County l) (int32_of (Cwwp2.ElevationFt l)) (int32_of dist))))).

(** ** Relay links *)

Definition timeOrEmpty (t : Time) : string := if time_is_zero t then "" else Hazards.rfc3339 t.

Definition meshNodeLabel (ev : Event) : string :=
  let d := mesh_of ev in
  if negb (String.eqb (Grid.m_name d) "") then Grid.m_name d
  else if Nat.ltb 8 (String.length (public_key d)) then String.substring 0 8 (public_key d) else public_key d.
Definition meshLinkHeadline (na nb : Event) : string := meshNodeLabel na +:+ " ↔ " +:+ meshNodeLabel nb.

Definition centroid (ev : Event) : option LatLng := geometry ev ≫= g_centroid.
Definition point_of (ev : Event) : float64 * float64 := match centroid ev with Some c => (lat c, lng c) | None => (zero, zero) end.

Definition meshLinkFeature (l : Mesh.MeshLink) (na nb : Event) : Feature :=
  let '(a, b) := (Mesh.ln_A l, Mesh.ln_B l) in
  mkFeature (made <$> Hazards.LineStringGeom [point_of na; point_of nb])
    (mkProperties ("mesh_link:" +:+ a +:+ ":" +:+ b) (ToUpper Hazards.LayerMeshLink) "Relay link" "" (Severity_name INFO) (Severity_number INFO)
       (meshLinkHeadline na nb) "" "" None "" "" "" (timeOrEmpty (Mesh.ln_LastSeen l)) ""
       (mkSource "meshcore" "MeshCore Mesh" "" "MeshCore community mesh")
       (Some (MeshLink_ (mkMeshLinkProps a b (Mesh.ln_Observations l) (Mesh.ln_DaysActive l) (timeOrEmpty (Mesh.ln_FirstSeen l))
          (timeOrEmpty (Mesh.ln_LastSeen l)) (Mesh.ln_BestSNR l))))).

(** The flag of a node on the topology layer. *)
Definition flag_region (reg : bool) (f : Feature) : Feature :=
  let p := fProperties f in
  match Block_ p with
  | Some (Mesh_ m) =>
      mkFeature (fGeometry f)
        (mkProperties (ID p) (pLayer p) (Kind p) (Category p) (Severity_ p) (SeverityRank p) (Headline p) (Description p) (Summary_ p)
           (SummaryEnhanced_ p) (Status p) (Effective p) (Expires p) (UpdatedAt p) (AreaLabel p) (Source_ p)
           (Some (Mesh_ (mkMeshProps (PublicKey m) (NodeType m) (m_Name m) (SNR m) (RSSI m) (HopCount m) (Gateways m) (LastHeardAt m)
              (LastRelayedAt m) (Some reg) (Reachability m) (Admin m)))))
  | _ => f
  end.

End Projection.
End MapFeatures.
