(* ===== verification/MapLayers.v ===== *)
(** * The map layers

    [internal/gridapi/maplayers.go], [cameras.go], [mesh.go] and [etag.go]: the
    GeoJSON layers of a place, the camera list and the relay topology, with the
    validators of their conditional requests. [encoding/json], SHA-256 and
    [time.ParseDuration] are classes. A request reads the store in the order the
    code does; the condition builders keep a state [W] of their own, the camera
    directory is the snapshot it serves, and the order in which Go ranges over a
    map is an argument. One reading of the clock stands for those of a request. *)

From Stdlib Require Import Ascii.
From stdpp Require Import pretty.
From S2P Require Import Prelude Float64 Geojson GridEvent GoText Tx Store Sources Places Mesh Query Feeds Evacuation Hazards Summary Scheduler ReadApi Closures Cameras MapFeatures.

(** ** Answers over HTTP *)

Module Http.
Import Text Feeds.

Record Reply := mkReply { status : Z; ETag : string; CacheControl : string; ContentType : string; body : string }.

(** The error envelope, as text. *)
Class ErrorText := { error_body : Z -> string -> string }.
(** [httperr.Write]: not cacheable, without a validator. *)
Definition error `{ErrorText} (httpStatus grpcCode : Z) (msg : string) : Reply :=
  mkReply httpStatus "" "no-store" "application/json" (error_body grpcCode msg).
Definition invalidArgument `{ErrorText} (msg : string) : Reply := error 400 3 msg.
Definition notFound `{ErrorText} (msg : string) : Reply := error 404 5 msg.
Definition notImplemented `{ErrorText} (msg : string) : Reply := error 501 12 msg.
Definition internal `{ErrorText} : Reply := error 500 13 "internal error".

Definition inmMatches (header etag : string) : bool :=
  if String.eqb header "" then false
  else
    let etag := TrimPrefix etag "W/" in
    existsb (fun cand => let cand := TrimSpace cand in String.eqb cand "*" || String.eqb (TrimPrefix cand "W/") etag) (Split header ",").

Definition writeJSON (inm body etag contentType : string) (maxAge : Z) : Reply :=
  let cc := "public, max-age=" +:+ pretty maxAge in
  if inmMatches inm etag then mkReply 304 etag cc "" "" else mkReply 200 etag cc contentType body.

(** The bytes of [binary.BigEndian.PutUint64]. *)
Fixpoint big_endian (n : nat) (x : N) : string :=
  match n with
  | O => ""
  | S n => big_endian n (x / 256) +:+ String (ascii_of_N (x mod 256)) ""
  end.
Definition part (b : string) : string := big_endian 8 (N.of_nat (String.length b)) +:+ b.
(** What is hashed: each part with its length before it. *)
Definition stream (parts : list string) : string := String.concat "" (part <$> parts).
Definition dataETag `{Sha256} (contentType : string) (parts : list string) : string :=
  "W/" +:+ quote +:+ String.substring 0 32 (sha256 (stream (contentType :: parts))) +:+ quote.

Definition maxAgeConditions : Z := 60.

End Http.

(** ** The layers *)

Module MapLayers.
Import F64 Grid Text Store Sources Places Feeds ReadApi Http.
Import MapFeatures (Feature, ProjectEvents, projectNetwork, cameraFeature, cameraAttribution, meshLinkFeature, flag_region, of_condition, timeOrEmpty, LayerCamera, GeometryJson, mesh_of, centroid).
Import Query (TokenCodec, eventCursor).
Import Mesh (MeshDB, MeshLink, MeshLinks, ln_A, ln_B, ln_Observations, ln_BestSNR, ln_FirstSeen, ln_LastSeen, ln_DaysActive).
Import Scheduler (SM, SMem, onStore, onMesh).
Import Hazards (HazardText, DegradeStoreStatus).
Import Summary (drain, live_query, LayerSourceStatus, layerSourceIDs, eventLayers, lookup_layer, source_by_id, resolveHazardArea).
Import Cameras.CameraService (SnapshotText).
Open Scope handler_scope.

Definition mapSchemaVersion : Z := 1.
Definition conditionLayers : list string :=
  [Hazards.LayerRoadSegment; Hazards.LayerChainControl; Hazards.LayerFireWeather; Hazards.LayerMessageSign].
Definition conditionSources : list (string * list string) :=
  [(Hazards.LayerChainControl, ["caltrans"]); (Hazards.LayerFireWeather, ["nws"]); (Hazards.LayerRoadSegment, ["caltrans"]);
   (Hazards.LayerMeshLink, ["meshcore"]); (Hazards.LayerMessageSign, ["caltrans"])].
Definition conditionLayerSourceIDs (layer : string) : list string := default [] (lookup_layer conditionSources layer).

(** *** Attribution *)

(** [strings.Split] by a separator of several bytes. *)
Fixpoint split_by (fuel : nat) (sep s : string) : list string :=
  match fuel, String.index 0 sep s with
  | S fuel, Some i =>
      let next := (i + String.length sep)%nat in
      String.substring 0 i s :: split_by fuel sep (String.substring next (String.length s - next) s)
  | _, _ => [s]
  end.
Definition separator : string := " · ".
Definition credits (s : string) : list string := split_by (S (String.length s)) separator s.

Definition add_part (parts : list string) (a : string) : list string :=
  let a := TrimSpace a in if String.eqb a "" || bool_decide (a ∈ parts) then parts else parts ++ [a].
Definition joinAttributions (ids : list string) (sources : list Source) : string :=
  join separator
    (foldl add_part [] (ids ≫= fun id => credits (match source_by_id sources id with Some s => so_attribution s | None => "" end))).
Definition registryAttribution (layer : string) (sources : list Source) : string := joinAttributions (conditionLayerSourceIDs layer) sources.
Definition eventLayerMeta (layer : string) (sources : list Source) : string * string :=
  if String.eqb layer Hazards.LayerEvacuation then ("Cal OES / California County Governments — reference only", Caloes.SourceURL)
  else (joinAttributions (layerSourceIDs layer) sources, "").

(** *** The collection *)

Record Metadata := mkMetadata {
  Layer_ : string; Area : string; GeneratedAt : string; SourceStatus_ : string; LastSourceUpdate : string; Attribution : string;
  SourceURL : string; SchemaVersion : Z }.
(** Without the stamp of the request. *)
Definition stable (md : Metadata) : Metadata :=
  mkMetadata (Layer_ md) (Area md) "" (SourceStatus_ md) (LastSourceUpdate md) (Attribution md) (SourceURL md) (SchemaVersion md).

(** What [json.Marshal] writes, or nothing where it fails. *)
Class MapJson := {
  marshal_features : list Feature -> option string;
  marshal_metadata : Metadata -> option string;
  marshal_collection : string -> Metadata -> option string }.

Definition geojson : string := "application/geo+json".
Definition writeFeatureCollection `{ErrorText} `{Sha256} `{MapJson} (inm : string) (fs : list Feature) (md : Metadata) : Reply :=
  match marshal_features fs, marshal_metadata (stable md) with
  | Some fj, Some mj =>
      match marshal_collection fj md with
      | Some body => writeJSON inm body (dataETag geojson [fj; mj]) geojson maxAgeConditions
      | None => internal
      end
  | _, _ => internal
  end.

(** The builder of the condition layers: features, status, the last update, the
    attribution and the source; nothing for a layer it does not know. *)
Record BuiltLayer := mkBuiltLayer {
  bl_features : list Hazards.Feature; bl_status : string; bl_lastUpdate : Time; bl_attribution : string; bl_sourceURL : string }.
Definition mapBuilder (W : Type) : Type := Feeds.HazardArea -> string -> W -> option BuiltLayer * W.

(** [CameraDirectory]: what [Cameras] returns. *)
Definition CameraDirectory : Type := list Cctv.Camera * string * Time * string.

(** [config.Config], what the layers read of it. *)
Record Config := mkConfig { Areas : list Feeds.HazardArea; NearMeters : float64 }.
Definition DefaultCameraNearMeters : float64 := of_Z 25000.
Definition Near (cfg : Config) : float64 := if ltb zero (NearMeters cfg) then NearMeters cfg else DefaultCameraNearMeters.

(** *** Cameras *)

Record rankedCamera := mkRanked { cam : Cctv.Camera; dist : float64 }.
Definition camera_less (a b : rankedCamera) : bool :=
  if negb (F64.eqb (dist a) (dist b)) then ltb (dist a) (dist b) else str_ltb (Cctv.ID (cam a)) (Cctv.ID (cam b)).

Section Cameras.
Context {MK : MathKernel} {JK : JsonKernel}.

Definition geom_of (p : Place) : option Geojson.Geom := Geojson.Parse (match p_geometry p with Some g => g_geojson g | None => "" end).
(** A nil geometry is nowhere. *)
Definition distance (lat_ lng_ : float64) (g : option Geojson.Geom) : float64 :=
  match g with Some g => Geojson.PointDistanceMeters lat_ lng_ g | None => inf end.

Definition coverageGeoms : H (list Geojson.Geom) :=
  areas <~ lift internalErr (onStore (Places.ListPlaces AREA "")) ;;
  hret (omap geom_of areas).

Definition rank_camera (areas : list Geojson.Geom) (place : option Place) (near : float64) (c : Cctv.Camera) : option rankedCamera :=
  let '(lat_, lng_) := (Cwwp2.Latitude (Cctv.Location_ c), Cwwp2.Longitude (Cctv.Location_ c)) in
  let d := foldl (fun d a => F64.min d (Geojson.PointDistanceMeters lat_ lng_ a)) inf areas in
  if ltb near d then None
  else match place with
       | None => Some (mkRanked c d)
       | Some p => let d := distance lat_ lng_ (geom_of p) in if ltb near d then None else Some (mkRanked c d)
       end.
Definition camerasNear (cfg : Config) (cams : list Cctv.Camera) (place : option Place) : H (list rankedCamera) :=
  areas <~ coverageGeoms ;;
  hret (SliceStable camera_less (omap (rank_camera areas place (Near cfg)) cams)).

(** The RPC's messages. *)
Record Camera := mkCamera {
  c_Id : string; c_Name : string; c_NearbyPlace : string; c_County : string; c_Route : string; c_Direction : string; c_Location : LatLng;
  c_ElevationFeet : Z; c_ImageUrl : string; c_ImageRefreshMinutes : Z; c_StreamUrl : string; c_Description : string; c_DistanceMeters : Z }.
Record CameraList := mkCameraList {
  cl_Cameras : list Camera; cl_SourceStatus : string; cl_LastSourceUpdate : option Time; cl_Attribution : string }.
Definition tsOrNil (t : Time) : option Time := if time_is_zero t then None else Some t.
Definition projectCamera (r : rankedCamera) : Camera :=
  let '(c, l) := (cam r, Cctv.Location_ (cam r)) in
  mkCamera (Cctv.ID c) (Cctv.Name c) (Cwwp2.NearbyPlace l) (Cwwp2.County l) (Cwwp2.Route l) (Cwwp2.Direction l)
    (mkLatLng (Cwwp2.Latitude l) (Cwwp2.Longitude l)) (Hazards.int32_of (Cwwp2.ElevationFt l)) (Cctv.ImageURL c) (Cctv.ImageRefreshMinutes c)
    (Cctv.StreamURL c) (Cctv.Description c) (Hazards.int32_of (dist r)).

Definition place_of (key : string) : H (option Place) :=
  if String.eqb key "" then hret None else p <~ lift notFoundOr (onStore (Places.GetPlace key)) ;; hret (Some p).

Definition camera_body (cfg : Config) (dir : CameraDirectory) (place : option Place) : H CameraList :=
  let '(cams, st, last, _) := dir in
  ranked <~ camerasNear cfg cams place ;;
  hret (mkCameraList (projectCamera <$> ranked) st (tsOrNil last) cameraAttribution).

(** [ListCameras]: without a directory there is no validator. *)
Definition ListCameras `{Etag} (cfg : Config) (placesVersion : string) (dir : option CameraDirectory) (inm key : string) : H (Answer CameraList) :=
  place <~ place_of key ;;
  match dir with
  | None => hret (mkAnswer "" (mkCameraList [] "UNAVAILABLE" None cameraAttribution))
  | Some dir =>
      let tag := weakListTag (placesVersion +:+ "." +:+ dir.2) [key] in
      guard inm tag ;;;
      b <~ camera_body cfg dir place ;;
      hret (mkAnswer tag b)
  end.

End Cameras.

(** *** The window of the topology *)

(** [time.ParseDuration], [Duration.String], and the verb [%q]. *)
Class DurationText := { ParseDuration : string -> option Duration; duration_text : Duration -> string; quoted : string -> string }.

Definition defaultMeshWindow : Duration := 72 * hour.
Definition maxMeshWindow : Duration := 400 * 24 * hour.

Definition windowLabel `{DurationText} (d : Duration) : string :=
  if Z.rem d hour =? 0 then pretty (Z.quot d hour) +:+ "h" else duration_text d.
Definition bad_window `{DurationText} (s : string) : string :=
  "invalid window " +:+ quoted s +:+ ": want a positive Go duration such as 24h, 72h (the default), 168h or 720h; windows over "
  +:+ windowLabel maxMeshWindow +:+ " are clamped to it".
Definition parseMeshWindow `{DurationText} (s : string) : string + Duration :=
  if String.eqb s "" then inr defaultMeshWindow
  else match ParseDuration s with
       | Some d => if d <=? 0 then inl (bad_window s) else if maxMeshWindow <? d then inr maxMeshWindow else inr d
       | None => inl (bad_window s)
       end.

(** *** The handlers *)

Section Handlers.
Context {MK : MathKernel} {JK : JsonKernel} {UL : UnicodeLower} {UU : UnicodeUpper} {HT : HazardText} {GJ : GeometryJson}.
Context {SH : Sha256} {MJ : MapJson} {EX : ErrorText} {DT : DurationText} `{TokenCodec eventCursor}.
(** The pages a query may take, the configuration, and [s.Now()]. *)
Variable fuel : nat.
Variable cfg : Config.
Variable now : Time.

Definition stamp : string := Hazards.rfc3339 now.
Definition live_events (placeID : string) (layers : list Layer) : H (list Event) :=
  evs <~ lift internalErr (onStore (drain fuel (live_query placeID layers))) ;;
  overlayMeshActivity evs.

Definition serveEventLayer (inm : string) (place : Place) (layer : string) (l : Layer) : H Reply :=
  events <~ live_events (p_id place) [l] ;;
  sources <~ ListSources ;;
  let '(st, last) := LayerSourceStatus sources layer in
  let '(st, last) := DegradeStoreStatus st (0 <? length events)%nat last in
  let '(attribution, url) := eventLayerMeta layer sources in
  hret (writeFeatureCollection inm (ProjectEvents layer events)
          (mkMetadata layer (p_slug place) stamp st (timeOrEmpty last) attribution url mapSchemaVersion)).

(** Attribution by the registry; a read that fails leaves it out. *)
Definition registry_line (layer : string) : H string := fun s =>
  match ListSources s with (inl _, s') => (inr "", s') | (inr sources, s') => (inr (registryAttribution layer sources), s') end.

Definition serveConditionLayer {W} (hb : option (mapBuilder W)) (inm : string) (place : Place) (layer : string) (w : W) : H (Reply * W) :=
  match hb with
  | None => hret (notImplemented "condition-backed map layers are not wired", w)
  | Some hb =>
      let '(area, covered) := resolveHazardArea (Areas cfg) place in
      if String.eqb layer Hazards.LayerFireWeather && negb covered then
        hret (writeFeatureCollection inm [] (mkMetadata layer (p_slug place) stamp "OK" "" "" "" mapSchemaVersion), w)
      else match hb area layer w with
           | (None, w) => hret (notFound ("unknown map layer: " +:+ quoted layer), w)
           | (Some b, w) =>
               line <~ (if String.eqb (bl_attribution b) "" then registry_line layer else hret (bl_attribution b)) ;;
               hret (writeFeatureCollection inm (of_condition <$> bl_features b)
                       (mkMetadata layer (p_slug place) stamp (bl_status b) (timeOrEmpty (bl_lastUpdate b)) line (bl_sourceURL b) mapSchemaVersion), w)
           end
  end.

Definition serveCameraLayer (dir : option CameraDirectory) (inm : string) (place : Place) : H Reply :=
  let md st last := mkMetadata LayerCamera (p_slug place) stamp st last cameraAttribution "" mapSchemaVersion in
  match dir with
  | None => hret (writeFeatureCollection inm [] (md "UNAVAILABLE" ""))
  | Some (cams, st, last, _) =>
      ranked <~ camerasNear cfg cams (Some place) ;;
      hret (writeFeatureCollection inm ((fun r => cameraFeature (cam r) (dist r)) <$> ranked) (md st (timeOrEmpty last)))
  end.

(** **** The topology *)

Definition node_key (ev : Event) : string := ToLower (public_key (mesh_of ev)).
(** [byPub]: the located nodes by key. *)
Definition located (nodes : list Event) : gmap string Event :=
  foldl (fun m ev => let pk := node_key ev in
                     if negb (String.eqb pk "") && bool_decide (is_Some (centroid ev)) then <[pk := ev]> m else m) ∅ nodes.
(** [inRegion]. *)
Definition region (nodes : list Event) : gset string := list_to_set (filter (fun pk => pk <> "") (node_key <$> nodes)).

(** A link that touches the region, when both ends can be placed. *)
Definition add_link (byPub : gmap string Event) (inRegion : gset string) (st : gset string * list Feature) (l : MeshLink)
    : gset string * list Feature :=
  let '(nodes, fs) := st in
  let '(a, b) := (ToLower (ln_A l), ToLower (ln_B l)) in
  if negb (bool_decide (a ∈ inRegion)) && negb (bool_decide (b ∈ inRegion)) then st
  else match byPub !! a, byPub !! b with
       | Some na, Some nb => ({[b]} ∪ ({[a]} ∪ nodes), fs ++ [meshLinkFeature l na nb])
       | _, _ => st
       end.
(** [range] over the set of nodes; each is located. *)
Definition node_features (byPub : gmap string Event) (inRegion : gset string) (order : list string) : list Feature :=
  omap (fun pk => (fun ev => flag_region (bool_decide (pk ∈ inRegion)) (projectNetwork ev)) <$> byPub !! pk) order.
Definition topology (range : gset string -> list string) (allNodes regionNodes : list Event) (links : list MeshLink) : list Feature :=
  let byPub := located allNodes in
  let inRegion := region regionNodes in
  let start := filter (fun pk => is_Some (byPub !! pk)) inRegion in
  let '(nodes, fs) := foldl (add_link byPub inRegion) (start, []) links in
  fs ++ node_features byPub inRegion (range nodes).

Definition serveMeshLinkLayer (range : gset string -> list string) (inm window : string) (place : Place) : H Reply :=
  match parseMeshWindow window with
  | inl msg => hret (invalidArgument msg)
  | inr window =>
      allNodes <~ live_events "" [MESH] ;;
      regionNodes <~ live_events (p_id place) [MESH] ;;
      links <~ lift internalErr (onMesh (MeshLinks (now - window))) ;;
      let fs := topology range allNodes regionNodes links in
      sources <~ ListSources ;;
      let '(st, last) := LayerSourceStatus sources Hazards.LayerMeshLink in
      let '(st, last) := DegradeStoreStatus st (0 <? length fs)%nat last in
      line <~ registry_line Hazards.LayerMeshLink ;;
      hret (writeFeatureCollection inm fs
              (mkMetadata Hazards.LayerMeshLink (p_slug place) stamp st (timeOrEmpty last) line "" mapSchemaVersion))
  end.

(** [serveMapLayer]: the place, then the layer. *)
Definition serve_layer {W} (hb : option (mapBuilder W)) (dir : option CameraDirectory) (range : gset string -> list string)
    (inm window layer : string) (place : Place) (w : W) : H (Reply * W) :=
  let keep m := r <~ m ;; hret (r, w) in
  if String.eqb layer Hazards.LayerMeshLink then keep (serveMeshLinkLayer range inm window place)
  else if String.eqb layer LayerCamera then keep (serveCameraLayer dir inm place)
  else match lookup_layer eventLayers layer with
       | Some l => keep (serveEventLayer inm place layer l)
       | None =>
           if bool_decide (layer ∈ conditionLayers) then serveConditionLayer hb inm place layer w
           else hret (notFound ("unknown map layer: " +:+ quoted layer), w)
       end.
Definition serveMapLayer {W} (hb : option (mapBuilder W)) (dir : option CameraDirectory) (range : gset string -> list string)
    (inm window placeKey layer : string) (w : W) (s : St) : Reply * W * St :=
  match (place <~ lift notFoundOr (onStore (Places.GetPlace placeKey)) ;; serve_layer hb dir range inm window layer place w) s with
  | (inr (r, w'), s') => (r, w', s')
  | (inl stop, s') => (match stop with Status Summary.NotFound => notFound ("unknown place: " +:+ quoted placeKey) | _ => internal end, w, s')
  end.

End Handlers.

(** *** The links, by themselves *)

Record meshLinkJSON := mkMeshLinkJSON {
  j_a : string; j_b : string; j_observations : Z; j_daysActive : Z; j_firstSeen : string; j_lastSeen : string; j_bestSnr : float64 }.
Class LinksJson := { marshal_links : list meshLinkJSON -> option string; marshal_response : string -> string -> string -> option string }.

Section Links.
Context {HT : HazardText} {SH : Sha256} {LJ : LinksJson} {EX : ErrorText} {DT : DurationText}.

Definition link_json (l : MeshLink) : meshLinkJSON :=
  mkMeshLinkJSON (ln_A l) (ln_B l) (ln_Observations l) (ln_DaysActive l) (Hazards.rfc3339 (ln_FirstSeen l)) (Hazards.rfc3339 (ln_LastSeen l))
    (ln_BestSNR l).
Definition serveMeshLinks (now : Time) (inm window : string) (s : St) : Reply * St :=
  match parseMeshWindow window with
  | inl msg => (invalidArgument msg, s)
  | inr window =>
      match onMesh (MeshLinks (now - window)) s with
      | (inl _, s') => (internal, s')
      | (inr links, s') =>
          (match marshal_links (link_json <$> links) with
           | Some lj =>
               match marshal_response (windowLabel window) (Hazards.rfc3339 now) lj with
               | Some body => writeJSON inm body (dataETag "application/json" [windowLabel window; lj]) "application/json" maxAgeConditions
               | None => internal
               end
           | None => internal
           end, s')
      end
  end.

End Links.
End MapLayers.
