(* ===== verification/HttpSpec.v ===== *)
(** * Validators of the hand-built routes

    What a map layer's ETag says: it names the data of the answer, without the
    time of the request, and a request that names it is answered 304 exactly when
    the data are the same. *)

From Stdlib Require Import Ascii.
From stdpp Require Import pretty.
From S2P Require Import Prelude GoText Feeds ReadApiSpec MeshRelaySpec MapFeatures MapLayers.

Module HttpSpec.
Import Text Feeds Http MapLayers.
Import MapFeatures (Feature).

(** ** The hashed bytes *)

Lemma length_string_app a b : String.length (a +:+ b) = (String.length a + String.length b)%nat.
Proof. by rewrite <-!length_bytes, bytes_app, length_app. Qed.

Lemma app_inj_length a b c d : String.length a = String.length c -> a +:+ b = c +:+ d -> a = c /\ b = d.
Proof.
  intros Hl He. apply (f_equal bytes) in He. rewrite !bytes_app in He. apply app_inj_1 in He as [H1 H2]; [|by rewrite !length_bytes].
  split; [by rewrite <-(of_bytes_bytes a), H1, of_bytes_bytes|by rewrite <-(of_bytes_bytes b), H2, of_bytes_bytes].
Qed.

Lemma big_endian_length n x : String.length (big_endian n x) = n.
Proof. revert x. induction n as [|n IH]; intros x; [done|]. cbn [big_endian]. rewrite length_string_app, IH. cbn. lia. Qed.

Lemma big_endian_inj n x y : (x < 256 ^ N.of_nat n)%N -> (y < 256 ^ N.of_nat n)%N -> big_endian n x = big_endian n y -> x = y.
Proof.
  revert x y. induction n as [|n IH]; intros x y Hx Hy.
  - cbn in Hx, Hy. lia.
  - cbn [big_endian]. intros [He Hb]%app_inj_length; [|by rewrite !big_endian_length].
    rewrite Nat2N.inj_succ, N.pow_succ_r' in Hx, Hy.
    apply IH in He; [|apply N.Div0.div_lt_upper_bound; lia..].
    injection Hb as Hb. apply (f_equal N_of_ascii) in Hb.
    pose proof (N.mod_lt x 256 ltac:(done)). pose proof (N.mod_lt y 256 ltac:(done)).
    rewrite !N_ascii_embedding in Hb by done. rewrite (N.div_mod x 256), (N.div_mod y 256) by done. congruence.
Qed.

(** A part that a length of eight bytes can describe. *)
Definition sized (b : string) : Prop := (N.of_nat (String.length b) < 2 ^ 64)%N.

(** No two lists of parts are hashed as the same bytes. *)
Lemma stream_inj l k : Forall sized l -> Forall sized k -> stream l = stream k -> l = k.
Proof.
  unfold stream. intros Hl. revert k. induction Hl as [|a l Ha Hl IH]; intros [|b k] Hk; [done| | |].
  - intros E%(f_equal String.length). apply Forall_cons in Hk as [Hb _]. revert E. rewrite fmap_cons. cbn [String.concat].
    destruct (part <$> k); unfold part; rewrite !length_string_app, big_endian_length; done.
  - intros E%(f_equal String.length). revert E. rewrite fmap_cons. cbn [String.concat].
    destruct (part <$> l); unfold part; rewrite !length_string_app, big_endian_length; done.
  - apply Forall_cons in Hk as [Hb Hk].
    assert (Hcons : forall x xs, String.concat "" (part <$> x :: xs) = big_endian 8 (N.of_nat (String.length x)) +:+ (x +:+ String.concat "" (part <$> xs))).
    { intros x xs. rewrite fmap_cons. cbn [String.concat]. destruct (part <$> xs); unfold part; cbn [String.concat].
      - by rewrite !string_app_empty_r.
      - by rewrite <-!ReadApiSpec.string_app_assoc. }
    rewrite !Hcons. intros [E1 E2]%app_inj_length; [|by rewrite !big_endian_length].
    apply big_endian_inj in E1; [|exact Ha|exact Hb]. apply app_inj_length in E2 as [-> E2]; [|lia]. f_equal. by apply IH.
Qed.

(** ** The header *)

Lemma split_once sep l : sep ∉ l -> split_bytes sep l = [l].
Proof.
  induction l as [|c l IH]; [done|]. intros [Hc Hl]%not_elem_of_cons. cbn. rewrite bool_decide_false by done. by rewrite IH.
Qed.

Definition is_hex (n : N) : bool := is_digit n || (97 <=? n)%N && (n <=? 102)%N.
Definition tag (h : string) : string := "W/" +:+ quote +:+ h +:+ quote.

Lemma hex_bytes h c : all_bytes is_hex h = true -> c ∈ bytes h -> is_hex (code c) = true.
Proof. unfold all_bytes. rewrite forallb_forall. intros Hp Hc. by apply Hp, list_elem_of_In. Qed.

Lemma substring_bytes n s : bytes (String.substring 0 n s) = take n (bytes s).
Proof. revert n. induction s as [|c s IH]; intros [|n]; cbn; [done..|]. by rewrite IH. Qed.

Lemma hex_substring n h : all_bytes is_hex h = true -> all_bytes is_hex (String.substring 0 n h) = true.
Proof.
  intros Hh. unfold all_bytes. rewrite substring_bytes. apply forallb_forall. intros c Hc%list_elem_of_In%elem_of_take.
  destruct Hc as (i & Hc & _). apply (hex_bytes h); [done|]. by apply list_elem_of_lookup_2 in Hc.
Qed.

(** Our own tag, sent back, names itself and no other. *)
Lemma inm_tag h h' : all_bytes is_hex h = true -> inmMatches (tag h) (tag h') = true <-> h = h'.
Proof.
  intros Hh.
  assert (Hb : bytes (tag h) = ["W"%char; "/"%char; ascii_of_nat 34] ++ bytes h ++ [ascii_of_nat 34]).
  { unfold tag, quote. by rewrite !bytes_app. }
  assert (Hsplit : Split (tag h) "," = [tag h]).
  { unfold Split. rewrite split_once; [by rewrite list_fmap_singleton, of_bytes_bytes|]. rewrite Hb, !elem_of_app.
    intros [Hx|[Hx|Hx]]; [by set_unfold in Hx; naive_solver|by apply (hex_bytes h) in Hx|by apply list_elem_of_singleton in Hx]. }
  assert (Htrim : TrimSpace (tag h) = tag h).
  { rewrite <-(string_app_empty_r (tag h)) at 1. change (tag h +:+ "") with ("" +:+ (tag h +:+ "")). apply TrimSpace_pad; try done.
    unfold plain, all_bytes. rewrite Hb. apply forallb_forall. intros c Hc%list_elem_of_In. rewrite !elem_of_app in Hc.
    destruct Hc as [Hx|[Hx|Hx]]; [by set_unfold in Hx; naive_solver| |by apply list_elem_of_singleton in Hx as ->].
    apply (hex_bytes h) in Hx; [|done]. unfold is_hex, is_digit in Hx. lia. }
  unfold inmMatches. rewrite Hsplit. cbn [existsb]. rewrite Htrim, orb_false_r. unfold tag at 1 2 3 4. rewrite !TrimPrefix_app.
  change (String.eqb ("W/" +:+ _) "") with false. change (String.eqb ("W/" +:+ _) "*") with false. cbn [orb].
  rewrite String.eqb_eq. split; [|by intros ->]. intros [_ E]%app_inj_length; [|done]. by apply ReadApiSpec.app_cancel_r in E.
Qed.

(** ** A layer *)

Section Layer.
Context {SH : Sha256} {MJ : MapJson} {EX : ErrorText}.
(** The digest is in hex. *)
Hypothesis hex : forall s, all_bytes is_hex (sha256 s) = true.

(** What the tag of an answer is of: the content type, the features and the
    metadata without the stamp. *)
Definition layer_parts (fs : list Feature) (md : Metadata) : option (list string) :=
  match marshal_features fs, marshal_metadata (stable md) with Some fj, Some mj => Some [geojson; fj; mj] | _, _ => None end.
Definition digest_of (parts : list string) : string := String.substring 0 32 (sha256 (stream parts)).

Lemma write_spec inm fs md parts b :
  layer_parts fs md = Some parts -> marshal_collection (default "" (marshal_features fs)) md = Some b ->
  writeFeatureCollection inm fs md = writeJSON inm b (tag (digest_of parts)) geojson maxAgeConditions.
Proof.
  unfold layer_parts, writeFeatureCollection. destruct (marshal_features fs) as [fj|]; [|done].
  destruct (marshal_metadata (stable md)) as [mj|]; [|done]. intros [= <-] Hb. cbn in Hb. by rewrite Hb.
Qed.

Lemma write_ok inm fs md :
  status (writeFeatureCollection inm fs md) = 200 \/ status (writeFeatureCollection inm fs md) = 304 ->
  exists parts b, layer_parts fs md = Some parts /\ marshal_collection (default "" (marshal_features fs)) md = Some b.
Proof.
  unfold writeFeatureCollection, layer_parts. destruct (marshal_features fs) as [fj|]; [|by intros []].
  destruct (marshal_metadata (stable md)) as [mj|]; [|by intros []]. cbn. destruct (marshal_collection fj md) as [b|]; [eauto|by intros []].
Qed.

(** Metadata but for the time of the request. *)
Definition same_data (md md' : Metadata) : Prop :=
  (Layer_ md, Area md, SourceStatus_ md, LastSourceUpdate md, Attribution md, SourceURL md, SchemaVersion md)
  = (Layer_ md', Area md', SourceStatus_ md', LastSourceUpdate md', Attribution md', SourceURL md', SchemaVersion md').

Lemma stable_same md md' : same_data md md' -> stable md = stable md'.
Proof. unfold same_data, stable. by intros [= -> -> -> -> -> -> ->]. Qed.

(** C37: The validator of a map layer is that of its data. A client that holds a
    layer and sends its ETag back is answered 304 exactly when the features and
    the metadata are those it holds, whatever the times of the two requests: as
    long as the digest does not collide on the two, JSON tells them apart, and
    the new answer can be written. *)
Theorem layer_validator inm fs md fs' md' parts parts' b' :
  status (writeFeatureCollection inm fs md) = 200 ->
  layer_parts fs md = Some parts -> layer_parts fs' md' = Some parts' ->
  marshal_collection (default "" (marshal_features fs')) md' = Some b' ->
  Forall sized parts -> Forall sized parts' ->
  (digest_of parts = digest_of parts' -> stream parts = stream parts') ->
  (parts = parts' -> fs = fs' /\ same_data md md') ->
  let again := writeFeatureCollection (ETag (writeFeatureCollection inm fs md)) fs' md' in
  (status again = 304 <-> fs = fs' /\ same_data md md') /\ (status again <> 304 -> status again = 200 /\ body again = b').
Proof using hex.
  intros Hok Hp Hp' Hb' Hz Hz' Hno Htell. destruct (write_ok inm fs md (or_introl Hok)) as (p & b & Hp0 & Hb).
  assert (p = parts) as -> by congruence. cbn zeta. rewrite (write_spec _ _ _ _ _ Hp' Hb'), (write_spec _ _ _ _ _ Hp Hb).
  assert (Htag : ETag (writeJSON inm b (tag (digest_of parts)) geojson maxAgeConditions) = tag (digest_of parts)).
  { unfold writeJSON. by destruct (inmMatches _ _). }
  rewrite Htag. pose proof (inm_tag (digest_of parts) (digest_of parts') (hex_substring 32 _ (hex _))) as Hinm.
  unfold writeJSON. destruct (inmMatches _ _); cbn [status body].
  - split; [|done]. split; [|done]. intros _. apply Htell, stream_inj; [done..|]. apply Hno, Hinm. done.
  - split; [|done]. split; [done|]. intros [<- Hs%stable_same]. unfold layer_parts in Hp, Hp'. rewrite Hs in Hp. assert (parts = parts') as <- by congruence.
    discriminate (proj2 Hinm eq_refl).
Qed.

End Layer.
End HttpSpec.
