(* ===== verification/MapLayersSpec.v ===== *)
(** * What a map layer serves

    Over the store and any faults, an event layer is the projection of the live
    events of the place, with the health of the sources behind it; the relay
    topology is closed. *)

From Stdlib Require Import Ascii.
From stdpp Require Import pretty.
From S2P Require Import Prelude Float64 Geojson GridEvent GoText Tx Store Sources Places Mesh Query Feeds Evacuation Hazards Summary SummarySpec SummaryStore Scheduler ReadApi ReadApiSpec Closures Cameras MapFeatures MapLayers.

Module MapLayersSpec.
Import F64 Grid Text Store Sources Places Feeds ReadApi Http MapLayers.
Import Query (TokenCodec, eventCursor, representable, event_rows, event_key).
Import Mesh (MeshDB, mesh_activity).
Import Scheduler (SM, SMem, onStore, onMesh, m_store).
Import Hazards (HazardText, DegradeStoreStatus).
Import Summary (drain, live_query, LayerSourceStatus, layerSourceIDs, eventLayers, lookup_layer).
Import SummarySpec (healthy, down) SummaryStore.
Import ReadApiSpec (activity_in, activity_for, activity_answers).
Import MapFeatures (Feature, ProjectEvents, GeometryJson, timeOrEmpty).

(** ** Reads that may fail *)

Lemma onStore_inv {A} (m : Store.M A) (s : St) r s' :
  onStore m s = (r, s') -> exists t',
    m (Tx.mkSt (Tx.db s).1 (m_store (Tx.mem s)) (Tx.plan s)) = (r, t') /\ Tx.db s' = (Tx.db t', (Tx.db s).2) /\ Tx.plan s' = Tx.plan t'.
Proof.
  unfold onStore, Tx.zoom. cbn [Tx.lget Tx.fst_lens]. destruct (m _) as [r' t'] eqn:E. intros [= <- <-]. by exists t'.
Qed.

Lemma read_chunks_frame bs out (t : Tx.St MeshDB Z) r t' :
  Mesh.read_chunks bs out t = (r, t') ->
  Tx.db t' = Tx.db t /\ match r with inr act => act = activity_in bs out (mesh_activity (Tx.db t)) | inl _ => True end.
Proof.
  revert out t. induction bs as [|b bs IH]; intros out t; cbn [Mesh.read_chunks activity_in].
  - by intros [= <- <-].
  - unfold Tx.bind. destruct (Tx.query _ t) as [[e|x] t1] eqn:Eq.
    + intros [= <- <-]. by apply Tx.query_frame in Eq as [-> _].
    + apply Tx.query_inr in Eq as (-> & Hd & _). intros Hr. apply IH in Hr. by rewrite Hd in Hr.
Qed.

(** The events with the clocks of the table, or, when it cannot be read, without. *)
Definition overlaid (t : gmap string (Z * Z)) (evs shown : list Event) : Prop :=
  shown = evs \/ exists keys, shown = applyMeshActivity (activity_for keys t) evs.

Lemma overlay_frame evs (s : St) r s' :
  overlayMeshActivity evs s = (r, s') -> Tx.db s' = Tx.db s /\ exists shown, r = inr shown /\ overlaid (mesh_activity (Tx.db s).2) evs shown.
Proof.
  unfold overlayMeshActivity, overlaid. destruct (filter _ _) as [|k ks] eqn:Ek; [intros [= <- <-]; eauto|].
  destruct (onMesh _ s) as [r1 s1] eqn:E. unfold onMesh, Tx.zoom in E. destruct (Mesh.MeshActivityFor _ _) as [r2 t'] eqn:E2.
  injection E as <- <-. unfold Mesh.MeshActivityFor in E2. apply read_chunks_frame in E2 as [Hd Hact]. cbn [Tx.db Tx.mem Tx.plan] in *.
  destruct r2 as [e|act]; intros [= <- <-]; cbn; rewrite Hd; (split; [by destruct (Tx.db s)|]); eexists; (split; [done|]); [by left|].
  right. exists (k :: ks). by rewrite Hact.
Qed.

(** ** Event layers *)

Section Layer.
Context {MK : MathKernel} {JK : JsonKernel} {UL : UnicodeLower} {UU : UnicodeUpper} {HT : HazardText} {GJ : GeometryJson}.
Context {SH : Sha256} {MJ : MapJson} {EX : ErrorText} {DT : DurationText} `{TokenCodec eventCursor}.

(** The active and scheduled events of a layer stored for a place; for all
    places with no place. *)
Definition layer_rows (placeID : string) (l : Layer) (d : DB) : list (string * EventRow) :=
  filter (fun x => Query.at_place d placeID x.1 = true /\ c_status x.2 ∈ [ACTIVE; SCHEDULED] /\ c_layer x.2 = l) (map_to_list (events d)).

Lemma live_layer_rows placeID l d : event_rows (live_query placeID [l]) d = layer_rows placeID l d.
Proof.
  unfold event_rows, layer_rows. apply list_filter_iff. intros x. unfold Query.selected, Query.in_layers. cbn.
  rewrite !andb_true_r, !andb_true_iff, !bool_decide_eq_true, list_elem_of_singleton. tauto.
Qed.

Lemma live_events_inv fuel placeID l (s : St) r s' :
  (forall x, x ∈ layer_rows placeID l (Tx.db s).1 -> representable (event_key x)) ->
  live_events fuel placeID [l] s = (r, s') ->
  match r with
  | inl e => e = Status Summary.Internal
  | inr shown => Tx.db s' = Tx.db s /\ exists evs, evs ≡ₚ (fun x => c_proto x.2) <$> layer_rows placeID l (Tx.db s).1
      /\ overlaid (mesh_activity (Tx.db s).2) evs shown
  end.
Proof.
  intros Hrep. unfold live_events, hbind, lift. destruct (onStore _ s) as [[e|evs] s1] eqn:E; [by intros [= <- _]|].
  apply onStore_inv in E as (t' & Hd & Hdb & _). apply drain_all in Hd as [-> Hd]; [|done|by rewrite live_layer_rows].
  cbn [Tx.db] in *. rewrite Hd in Hdb. replace ((Tx.db s).1, (Tx.db s).2) with (Tx.db s) in Hdb by by destruct (Tx.db s).
  intros Ho. apply overlay_frame in Ho as (Hs' & shown & -> & Hov). rewrite Hdb in Hov, Hs'. split; [done|].
  eexists. split; [|exact Hov]. unfold all_rows. by rewrite (Query.after_perm _ _ None), live_layer_rows.
Qed.

(** A store that answers reads them all. *)
Lemma live_events_answers fuel placeID l (s : St) :
  Tx.plan s = [] -> (forall x, x ∈ layer_rows placeID l (Tx.db s).1 -> representable (event_key x)) ->
  (length (layer_rows placeID l (Tx.db s).1) < fuel)%nat -> exists shown, live_events fuel placeID [l] s = (inr shown, s).
Proof.
  intros Hpl Hrep Hlen. set (t := Tx.mkSt (Tx.db s).1 (m_store (Tx.mem s)) []).
  destruct (drain_total fuel (live_query placeID [l]) t None eq_refl eq_refl) as [evs Hd].
  - intros x. rewrite live_layer_rows. apply Hrep.
  - by rewrite (Query.after_perm _ _ None), live_layer_rows.
  - unfold live_events, hbind, lift, onStore, Tx.zoom. cbn [Tx.lget Tx.fst_lens]. rewrite Hpl. fold (m_store (Tx.mem s)).
    change (Tx.lget Scheduler.store_mem (Tx.mem s)) with (m_store (Tx.mem s)). fold t. rewrite Hd. cbn.
    replace (Tx.mkSt _ _ _) with s by (destruct s as [[] [] ?]; cbn in *; by subst).
    unfold overlayMeshActivity. destruct (filter _ _); [by eexists|]. rewrite activity_answers by done. by eexists.
Qed.

Lemma get_place_inv key (s : St) r s' :
  lift notFoundOr (onStore (Places.GetPlace key)) s = (r, s') ->
  Tx.db s' = Tx.db s /\ match r with
    | inr p => find_place (Tx.db s).1 key = Some p
    | inl e => (e = Status Summary.NotFound /\ find_place (Tx.db s).1 key = None) \/ (e = Status Summary.Internal /\ Tx.plan s <> [])
    end.
Proof.
  unfold lift. destruct (onStore _ s) as [x s1] eqn:E. apply onStore_inv in E as (t' & Hg & Hdb & _).
  unfold Places.GetPlace, Tx.bind in Hg. destruct (Tx.query _ _) as [[e|fp] t1] eqn:Eq.
  - injection Hg as <- <-. pose proof (query_error _ _ _ _ Eq) as Hne. pose proof (Tx.query_frame _ _ _ _ Eq) as [Hd _]. cbn [Tx.db] in Hd.
    intros [= <- <-]. rewrite Hdb, Hd. split; [by destruct (Tx.db s)|]. right. unfold notFoundOr. rewrite bool_decide_false by done.
    split; [done|]. intros Hp. unfold Tx.query, Tx.bind, Tx.stmt in Eq. cbn in Eq. by rewrite Hp in Eq.
  - apply Tx.query_inr in Eq as (-> & Hd & _). cbn [Tx.db] in *. destruct (find_place (Tx.db s).1 key) as [p|] eqn:Hf; injection Hg as <- <-;
      intros [= <- <-]; rewrite Hdb, Hd; (split; [by destruct (Tx.db s)|]); [done|]. left. by unfold notFoundOr; rewrite bool_decide_true.
Qed.

Lemma get_place_answers key (s : St) p :
  Tx.plan s = [] -> find_place (Tx.db s).1 key = Some p -> lift notFoundOr (onStore (Places.GetPlace key)) s = (inr p, s).
Proof.
  intros Hpl Hf. unfold lift, onStore, Tx.zoom, Places.GetPlace, Tx.bind. rewrite Tx.query_noFaults by exact Hpl.
  cbn [Tx.db Tx.lget Tx.fst_lens]. rewrite Hf. cbn. by destruct s as [[] [] ?].
Qed.

(** What is said of the sources of an event layer, with its features. *)
Definition honest_metadata (layer : string) (p : Place) (shown : list Event) (sources : list Sources.Source) (md : Metadata) : Prop :=
  Layer_ md = layer /\ Area md = p_slug p
  /\ (SourceStatus_ md = "OK" <-> forall id, id ∈ layerSourceIDs layer -> healthy sources id)
  /\ (SourceStatus_ md = "UNAVAILABLE" <-> shown = [] /\ forall id, id ∈ layerSourceIDs layer -> down sources id)
  /\ (SourceStatus_ md = "OK" \/ SourceStatus_ md = "UNAVAILABLE" \/ SourceStatus_ md = "STALE").

Lemma event_layer_sources layer l : lookup_layer eventLayers layer = Some l -> layerSourceIDs layer <> [].
Proof.
  unfold lookup_layer. intros Hl. destruct (filter _ eventLayers) as [|[n l'] r] eqn:E; [done|]. cbn in Hl.
  assert (Hin : (n, l') ∈ filter (fun x => x.1 = layer) eventLayers) by (rewrite E; constructor).
  apply list_elem_of_filter in Hin as [<- Hin]. cbn. set_unfold in Hin. by destruct_or? Hin; injection Hin as -> ->.
Qed.

Lemma honest_event_metadata layer l p shown sources stamp_ last_ line url :
  lookup_layer eventLayers layer = Some l ->
  let st := (LayerSourceStatus sources layer).1 in
  let v := DegradeStoreStatus st (0 <? length shown)%nat last_ in
  honest_metadata layer p shown sources (mkMetadata layer (p_slug p) stamp_ v.1 (timeOrEmpty v.2) line url mapSchemaVersion).
Proof.
  intros Hl. cbn zeta. pose proof (event_layer_sources _ _ Hl) as Hne.
  destruct (SummarySpec.LayerSourceStatus_spec sources layer) as (H1 & H2 & H3). unfold honest_metadata. cbn [Layer_ Area SourceStatus_].
  assert (Hok : (LayerSourceStatus sources layer).1 = "OK" <-> forall id, id ∈ layerSourceIDs layer -> healthy sources id) by (rewrite H1; tauto).
  clear H1. destruct shown as [|ev shown]; cbn [length]; set (st := (LayerSourceStatus sources layer).1) in *;
    set_unfold in H3; destruct_or? H3; rewrite H3 in Hok, H2 |- *; unfold DegradeStoreStatus; cbn; split_and!; try done; intuition done.
Qed.


Lemma lookup_not_special layer l : lookup_layer eventLayers layer = Some l ->
  String.eqb layer Hazards.LayerMeshLink = false /\ String.eqb layer MapFeatures.LayerCamera = false.
Proof.
  intros Hl. split; apply not_true_iff_false; intros ->%String.eqb_eq; by vm_compute in Hl.
Qed.

Lemma event_layer_inv fuel now inm p layer l (s : St) r s' :
  lookup_layer eventLayers layer = Some l ->
  (forall x, x ∈ layer_rows (p_id p) l (Tx.db s).1 -> representable (event_key x)) ->
  serveEventLayer fuel now inm p layer l s = (r, s') ->
  match r with
  | inl e => e = Status Summary.Internal
  | inr reply => exists evs shown md, evs ≡ₚ (fun x => c_proto x.2) <$> layer_rows (p_id p) l (Tx.db s).1
      /\ overlaid (mesh_activity (Tx.db s).2) evs shown
      /\ honest_metadata layer p shown (source_of <$> by_id (sources (Tx.db s).1)) md
      /\ reply = writeFeatureCollection inm (ProjectEvents layer shown) md
  end.
Proof.
  intros Hl Hrep. unfold serveEventLayer, hbind at 1. destruct (live_events _ _ _ s) as [r1 s1] eqn:E1.
  apply live_events_inv in E1; [|done]. destruct r1 as [e|shown]; [by intros [= <- _]|]. destruct E1 as (Hd1 & evs & Hevs & Hov).
  unfold hbind, ReadApi.ListSources, lift. destruct (onStore _ s1) as [[e|srcs] s2] eqn:E2; [by intros [= <- _]|].
  apply onStore_inv in E2 as (t' & Hs & _). apply Tx.query_inr in Hs as (-> & _). cbn [Tx.db] in *. rewrite Hd1.
  set (srcs := source_of <$> by_id (sources (Tx.db s).1)).
  pose proof (honest_event_metadata layer l p shown srcs (stamp now) (LayerSourceStatus srcs layer).2
    (eventLayerMeta layer srcs).1 (eventLayerMeta layer srcs).2 Hl) as Hm. cbn zeta in Hm.
  destruct (LayerSourceStatus srcs layer) as [st last]. cbn [fst snd] in Hm. destruct (DegradeStoreStatus st _ last) as [st' last'], (eventLayerMeta layer srcs) as [line url].
  intros [= <- <-]. eexists evs, shown, _. by split_and!.
Qed.

(** C36: An event layer is the projection of what is stored. Whatever fails on the
    way, a layer that is served shows the active and scheduled events of its
    kind stored for the place, each of them once, with the clocks of the mesh
    where they can be read; it says OK exactly when every source behind it is
    healthy, and UNAVAILABLE exactly when all are down and nothing is shown. A
    place that is not stored is not found, a failed read is an internal error
    and never an empty layer, and a store that answers serves every place, in as
    many pages as it takes. *)
Theorem event_layer_served {W} fuel cfg now (hb : option (mapBuilder W)) dir range inm window key layer l w s :
  lookup_layer eventLayers layer = Some l ->
  (forall p x, find_place (Tx.db s).1 key = Some p -> x ∈ layer_rows (p_id p) l (Tx.db s).1 -> representable (event_key x)) ->
  let d := (Tx.db s).1 in
  let reply := (serveMapLayer fuel cfg now hb dir range inm window key layer w s).1.1 in
  match find_place d key with
  | None => reply = notFound ("unknown place: " +:+ quoted key) \/ (reply = internal /\ Tx.plan s <> [])
  | Some p =>
      (reply = internal /\ (Tx.plan s <> [] \/ (fuel <= length (layer_rows (p_id p) l d))%nat))
      \/ exists evs shown md, evs ≡ₚ (fun x => c_proto x.2) <$> layer_rows (p_id p) l d
           /\ overlaid (mesh_activity (Tx.db s).2) evs shown
           /\ honest_metadata layer p shown (source_of <$> by_id (sources d)) md
           /\ reply = writeFeatureCollection inm (ProjectEvents layer shown) md
  end.
Proof.
  intros Hl Hrep. cbn zeta. unfold serveMapLayer, hbind. destruct (lookup_not_special _ _ Hl) as [Hm Hc].
  destruct (lift notFoundOr _ s) as [[e|p] s1] eqn:Eg; pose proof (get_place_inv _ _ _ _ Eg) as [Hd Hg]; cbn [fst snd].
  - destruct Hg as [[-> ->]|[-> Hp]]; cbn; [by left|]. destruct (find_place _ key); [left; split; [done|by left]|by right].
  - rewrite Hg. unfold serve_layer. rewrite Hm, Hc, Hl. unfold hbind, hret.
    destruct (serveEventLayer fuel now inm p layer l s1) as [r s2] eqn:E.
    pose proof E as E'. apply event_layer_inv in E'; [|done|rewrite Hd; intros x; by apply Hrep]. rewrite Hd in E'.
    destruct r as [e|reply]; cbn [fst]; [|by right]. subst e. left. split; [done|].
    destruct (decide (Tx.plan s = [])) as [Hpl|]; [|by left]. right. apply Nat.le_ngt. intros Hlt.
    rewrite (get_place_answers key s p Hpl Hg) in Eg. injection Eg as <-.
    destruct (live_events_answers fuel (p_id p) l s Hpl (fun x => Hrep p x Hg) Hlt) as [shown Hlive].
    unfold serveEventLayer, hbind in E. rewrite Hlive in E. unfold ReadApi.ListSources, lift, Sources.ListSources in E.
    rewrite ReadApiSpec.onStore_query in E by done.
    by destruct (LayerSourceStatus _ _), (DegradeStoreStatus _ _ _), (eventLayerMeta _ _).
Qed.

End Layer.
End MapLayersSpec.
