(* ===== verification/CamerasNear.v ===== *)
(** * The camera list and the relay topology

    A camera list that is answered "not modified" is the one the client holds;
    the topology of a place has both ends of each link, and which nodes are
    inside it; the order of its nodes is that of a Go map, and its validator
    shows it. *)

From Stdlib Require Import Ascii.
From stdpp Require Import pretty.
From S2P Require Import Prelude Float64 Geojson GridEvent GoText Tx Store Sources Places Mesh Query Feeds Evacuation Hazards Summary SummarySpec SummaryStore Scheduler ReadApi ReadApiSpec Closures Cameras CamerasSpec MapFeatures MapLayers MapLayersSpec HttpSpec.

Module CamerasNear.
Import F64 Grid Text Store Sources Places Feeds ReadApi Http MapLayers.
Import Query (TokenCodec, eventCursor).
Import Mesh (MeshLink, ln_A, ln_B).
Import Scheduler (onStore).
Import Hazards (HazardText).
Import MapFeatures (Feature, projectNetwork, meshLinkFeature, flag_region, centroid, GeometryJson).
Import Cameras.CameraService (SnapshotText, encode_snapshot, Cameras).
Import CamerasSpec (after).

(** ** The camera list *)

Section List_.
Context {MK : MathKernel} {JK : JsonKernel} {SH : Sha256} {ST : SnapshotText} {ET : Etag}.
Variable cfg : Config.
Variable nonce : string.

(** The body for a place, read from the places table. *)
Definition list_of (d : DB) (key : string) (dir : CameraDirectory) : option CameraList :=
  match (if String.eqb key "" then Some None else Some <$> find_place d key) with
  | Some place =>
      let areas := omap geom_of (merge_sort place_le (filter (fun p => listed AREA "" p = true) (map_to_list (places d)).*2)) in
      let '(cams, st, last, _) := dir in
      Some (mkCameraList (projectCamera <$> SliceStable camera_less (omap (rank_camera areas place (Near cfg)) cams)) st (tsOrNil last)
              MapFeatures.cameraAttribution)
  | None => None
  end.

Lemma list_answers dir inm key (s : St) :
  Tx.plan s = [] ->
  (ListCameras cfg nonce (Some dir) inm key s).1
  = match list_of (Tx.db s).1 key dir with
    | None => inl (Status Summary.NotFound)
    | Some b => let tag := weakListTag (nonce +:+ "." +:+ dir.2) [key] in if Guard inm tag then inl NotModified else inr (mkAnswer tag b)
    end.
Proof.
  intros Hp.
  assert (Hplace : MapLayers.place_of key s
    = match (if String.eqb key "" then Some None else Some <$> find_place (Tx.db s).1 key) with
      | Some p => (inr p, s) | None => (inl (Status Summary.NotFound), s) end).
  { unfold MapLayers.place_of. destruct (String.eqb key ""); [done|]. unfold hbind.
    destruct (find_place (Tx.db s).1 key) as [p|] eqn:Hf; cbn.
    - by rewrite (MapLayersSpec.get_place_answers key s p Hp Hf).
    - destruct (lift notFoundOr _ s) as [r s1] eqn:Eg. unfold lift, onStore, Tx.zoom, Places.GetPlace, Tx.bind in Eg.
      rewrite Tx.query_noFaults in Eg by exact Hp. cbn [Tx.db Tx.lget Tx.fst_lens] in Eg. rewrite Hf in Eg. cbn in Eg.
      injection Eg as <- <-. by destruct s as [[] [] ?]. }
  unfold ListCameras, hbind at 1. rewrite Hplace. unfold list_of.
  destruct (if String.eqb key "" then Some None else Some <$> find_place _ key) as [place|]; [|done].
  unfold hbind at 1, guard. destruct dir as [[[cams st] last] v]. cbn [snd]. destruct (Guard inm _); [done|]. cbn [hret].
  unfold camera_body, camerasNear, coverageGeoms, hbind, lift, Places.ListPlaces. rewrite ReadApiSpec.onStore_query by done. done.
Qed.

(** A camera list that is answered "not modified" is the one the client
    holds. Whatever refreshes came in between, a request by the same process
    that names the tag of an earlier answer and is answered 304 would be
    answered with that same body: as long as the places did not change, JSON can
    write both lists and tells them apart, and the digest does not collide on
    them. *)
Theorem cameras_not_stale ds refresh rs more key s s' tag body e e' :
  let dir := Cameras (after ds refresh rs) in
  let dir' := Cameras (after ds refresh (rs ++ more)) in
  Tx.plan s = [] -> Tx.plan s' = [] -> places (Tx.db s').1 = places (Tx.db s).1 ->
  encode_snapshot dir.1.1.1 dir.1.1.2 dir.1.2 = Some e -> encode_snapshot dir'.1.1.1 dir'.1.1.2 dir'.1.2 = Some e' ->
  (e = e' -> dir.1 = dir'.1) -> (String.substring 0 16 (sha256 e) = String.substring 0 16 (sha256 e') -> e = e') ->
  (ListCameras cfg nonce (Some dir) "" key s).1 = inr (mkAnswer tag body) ->
  (ListCameras cfg nonce (Some dir') tag key s').1 = inl NotModified ->
  (ListCameras cfg nonce (Some dir') "" key s').1 = inr (mkAnswer tag body).
Proof.
  cbn zeta. set (dir := Cameras _). set (dir' := Cameras (after ds refresh (rs ++ more))). intros Hp Hp' Hpl He He' Hinj Hno Hget Hagain.
  rewrite list_answers in Hget, Hagain |- * by done.
  assert (Hlist : list_of (Tx.db s').1 key dir' = list_of (Tx.db s).1 key dir') by (unfold list_of, find_place; by rewrite Hpl).
  rewrite Hlist in Hagain |- *.
  destruct (list_of (Tx.db s).1 key dir) as [b|] eqn:Eb; [|done]. destruct (list_of (Tx.db s).1 key dir') as [b'|] eqn:Eb'; [|done].
  cbn zeta in *. unfold weakListTag in *. rewrite Guard_none in Hget |- *. injection Hget as <- <-.
  destruct (Guard _ _) eqn:Hg; [|done]. apply Guard_own in Hg.
  assert (Hv : dir.2 = dir'.2).
  { apply ReadApiSpec.app_cancel_r in Hg. apply ReadApiSpec.app_cancel_l in Hg. by apply ReadApiSpec.app_cancel_l in Hg. }
  assert (Hd : dir.1 = dir'.1).
  { pose proof (CamerasSpec.version_names ds refresh rs ds refresh (rs ++ more) e e') as Hn. fold dir dir' in Hn.
    destruct dir as [[[cs st] t] v], dir' as [[[cs' st'] t'] v']. cbn in *. apply Hn; try done.
    intros E. rewrite He, He' in E. injection E as E. by apply Hinj. }
  replace dir' with dir in * by (destruct dir, dir'; cbn in *; congruence).
  congruence.
Qed.

End List_.
(** ** The topology *)

Section Topology.
Context {UL : UnicodeLower} {UU : UnicodeUpper} {HT : HazardText} {GJ : GeometryJson}.

Definition ends (l : MeshLink) : string * string := (ToLower (ln_A l), ToLower (ln_B l)).
(** A link of the place that can be drawn. *)
Definition drawn (byPub : gmap string Event) (inRegion : gset string) (l : MeshLink) : Prop :=
  ((ends l).1 ∈ inRegion \/ (ends l).2 ∈ inRegion) /\ is_Some (byPub !! (ends l).1) /\ is_Some (byPub !! (ends l).2).
#[local] Instance drawn_dec byPub inRegion l : Decision (drawn byPub inRegion l).
Proof. unfold drawn. apply _. Defined.
Definition edge (byPub : gmap string Event) (l : MeshLink) : option Feature :=
  match byPub !! (ends l).1, byPub !! (ends l).2 with Some na, Some nb => Some (meshLinkFeature l na nb) | _, _ => None end.

Lemma add_link_spec byPub inRegion l st :
  add_link byPub inRegion st l
  = if decide (drawn byPub inRegion l)
    then ({[(ends l).2]} ∪ ({[(ends l).1]} ∪ st.1), st.2 ++ match edge byPub l with Some f => [f] | None => [] end) else st.
Proof.
  destruct st as [nodes fs]. unfold add_link, edge. cbn [fst snd].
  case_decide as Hd; unfold drawn in Hd; cbn [ends fst snd] in *; set (a := ToLower (ln_A l)) in *; set (b := ToLower (ln_B l)) in *.
  - destruct Hd as (Hr & [na Ha] & [nb Hb]). rewrite Ha, Hb.
    by destruct (bool_decide_reflect (a ∈ inRegion)), (bool_decide_reflect (b ∈ inRegion)); [..|tauto].
  - destruct (bool_decide_reflect (a ∈ inRegion)), (bool_decide_reflect (b ∈ inRegion)); cbn [negb andb]; try done;
      (destruct (byPub !! a); [destruct (byPub !! b)|]; try done); destruct Hd; eauto.
Qed.

Lemma fold_links byPub inRegion links st :
  let st' := foldl (add_link byPub inRegion) st links in
  let ds := filter (drawn byPub inRegion) links in
  st'.2 = st.2 ++ omap (edge byPub) ds
  /\ forall pk, pk ∈ st'.1 <-> pk ∈ st.1 \/ exists l, l ∈ ds /\ (pk = (ends l).1 \/ pk = (ends l).2).
Proof.
  cbn zeta. revert st. induction links as [|l links IH]; intros st; cbn [foldl].
  - cbn. rewrite app_nil_r. split; [done|]. intros pk. split; [by left|]. intros [|(l & []%not_elem_of_nil & _)]; done.
  - destruct (IH (add_link byPub inRegion st l)) as [-> IHn]. rewrite add_link_spec in IHn |- *. rewrite filter_cons. case_decide as Hd.
    + cbn [fst snd] in *. split.
      * rewrite <-app_assoc. f_equal. cbn. by destruct (edge byPub l).
      * intros pk. rewrite IHn, !elem_of_union, !elem_of_singleton. split.
        -- intros [[->|[->|?]]|(l' & Hl' & E)]; [| |by left|]; right; [exists l|exists l|exists l']; (split; [|tauto]); by constructor.
        -- intros [?|(l' & [-> |Hl']%elem_of_cons & E)]; [tauto|tauto|]. right. eauto.
    + split; [done|]. intros pk. by rewrite IHn.
Qed.

(** The nodes of the layer: what is located in the place or at the end of a link
    drawn. *)
Definition shown (byPub : gmap string Event) (inRegion : gset string) (links : list MeshLink) (pk : string) : Prop :=
  is_Some (byPub !! pk)
  /\ (pk ∈ inRegion \/ exists l, l ∈ links /\ drawn byPub inRegion l /\ (pk = (ends l).1 \/ pk = (ends l).2)).

(** The topology of a place is closed. Its edges are the links that touch the
    place and whose ends are both located, in the order of the store; its nodes
    are, once each and in the order Go ranges over their set, the located nodes
    inside the place and the ends of those edges, and each says whether it is
    inside. *)
Theorem topology_closed (range : gset string -> list string) allNodes regionNodes links :
  (forall s, range s ≡ₚ elements s) ->
  let byPub := located allNodes in
  let inRegion := region regionNodes in
  let ds := filter (drawn byPub inRegion) links in
  exists order, NoDup order /\ (forall pk, pk ∈ order <-> shown byPub inRegion links pk)
    /\ (forall l, l ∈ ds -> (ends l).1 ∈ order /\ (ends l).2 ∈ order)
    /\ length (omap (edge byPub) ds) = length ds
    /\ topology range allNodes regionNodes links
       = omap (edge byPub) ds
         ++ omap (fun pk => (fun ev => flag_region (bool_decide (pk ∈ inRegion)) (projectNetwork ev)) <$> byPub !! pk) order.
Proof.
  intros Hr. cbn zeta. set (byPub := located allNodes). set (inRegion := region regionNodes). unfold topology. fold byPub inRegion.
  set (start := filter _ inRegion). destruct (fold_links byPub inRegion links (start, [])) as [Hf Hn]. cbn [fst snd app] in *.
  destruct (foldl _ _ links) as [nodes fs]. cbn [fst snd] in *. subst fs. exists (range nodes).
  assert (Hin : forall pk, pk ∈ range nodes <-> shown byPub inRegion links pk).
  { intros pk. rewrite Hr, elem_of_elements, Hn. unfold start, shown. rewrite elem_of_filter. split.
    - intros [[Hs Hp]|(l & [Hd Hl]%list_elem_of_filter & E)]; [tauto|]. split; [|right; eauto].
      destruct Hd as (_ & ? & ?). by destruct E as [-> | ->].
    - intros [Hs [Hp|(l & Hl & Hd & E)]]; [by left|right]. exists l. split; [by apply list_elem_of_filter|done]. }
  split_and!; [rewrite Hr; apply NoDup_elements|exact Hin| | |done].
  - intros l [Hd Hl]%list_elem_of_filter. pose proof Hd as (_ & ? & ?). rewrite !Hin. unfold shown. split; (split; [done|]); right; exists l; tauto.
  - clear. induction links as [|l links IH]; [done|]. rewrite filter_cons. case_decide as Hd; [|done]. cbn.
    destruct Hd as (_ & [na Ha] & [nb Hb]). unfold edge at 1. rewrite Ha, Hb. cbn. by rewrite IH.
Qed.

End Topology.
End CamerasNear.
