(* ===== verification/MapDemo.v ===== *)
(** * Map layers of a small store

    Concrete layers, camera lists and topologies: the theorems on them applied, and
    a topology whose validator changes while its data do not. *)

From Stdlib Require Import Ascii.
From stdpp Require Import pretty.
From S2P Require Import Prelude Float64 Geojson GridEvent GoText Tx Store StoreSpec Sources Places Mesh Query Feeds Evacuation Hazards Summary SummaryStore Scheduler ReadApi Closures Cameras CamerasSpec MapFeatures MapLayers HttpSpec MapLayersSpec CamerasNear.

Module MapDemo.
Import F64 Grid Text Store StoreSpec Feeds ReadApi Http MapLayers HttpSpec MapLayersSpec CamerasNear.
Import Mesh (MeshDB, mkMeshDB, MeshLink, mkMeshLink).
Import Scheduler (SMem, mkSMem).
Import MapFeatures (Feature, fProperties, ID, ProjectEvents, GeometryJson).
Import SummaryStore.SummaryDemo.

#[local] Existing Instances Query.event_codec Demo.math Demo.json ascii_only.
#[local] Instance upper : UnicodeUpper := {| unicode_upper s := s |}.
#[local] Instance times : Hazards.HazardText := {| Hazards.rfc3339 t := pretty t |}.
#[local] Instance no_geometry : GeometryJson := {| MapFeatures.decode_geometry _ := None |}.
#[local] Instance errors : ErrorText := {| error_body _ msg := msg |}.
#[local] Instance durations : DurationText := {| ParseDuration _ := Some hour; duration_text _ := ""; quoted s := s |}.

(** The hex of a text read backwards: its end tells two texts apart. *)
Definition hex_of (c : ascii) : list ascii :=
  let digit n := ascii_of_N (if (n <? 10)%N then 48 + n else 87 + n)%N in [digit (code c / 16)%N; digit (code c mod 16)%N].
#[local] Instance hash : Sha256 := {| sha256 s := of_bytes (reverse (bytes s) ≫= hex_of) |}.

Lemma digit_hex n : (n < 16)%N -> is_hex (code (ascii_of_N (if (n <? 10)%N then 48 + n else 87 + n)%N)) = true.
Proof. intros Hn. unfold code. rewrite N_ascii_embedding by (destruct (n <? 10)%N; lia). unfold is_hex, is_digit. destruct (N.ltb_spec n 10); lia. Qed.
Lemma hash_hex s : all_bytes is_hex (sha256 s) = true.
Proof.
  unfold all_bytes. cbn [sha256 hash]. rewrite bytes_of_bytes. apply forallb_forall. intros c Hc%list_elem_of_In%list_elem_of_bind.
  destruct Hc as (x & Hc & _). pose proof (N_ascii_bounded x). fold (code x) in *.
  apply elem_of_cons in Hc as [-> |Hc%list_elem_of_singleton]; [|subst c].
  - apply digit_hex, N.Div0.div_lt_upper_bound. lia.
  - apply digit_hex, N.mod_lt. done.
Qed.

#[local] Instance json_of : MapJson := {|
  marshal_features fs := Some (join "," (ID ∘ fProperties <$> fs));
  marshal_metadata md := Some (String.substring 0 1 (SourceStatus_ md));
  marshal_collection fj md := Some (fj +:+ " " +:+ SourceStatus_ md +:+ " " +:+ GeneratedAt md) |}.

(** ** An event layer *)

Definition store_of (health : SourceStatus) (faults : list bool) : St :=
  let t := with_health health fires in
  Tx.mkSt (Tx.db t, mkMeshDB [] ∅ ∅ ∅ ∅) (mkSMem (Tx.mem t) 0 0 [] 0) faults.
Definition maps : Config := mkConfig [] zero.
Definition serve (inm key layer : string) (s : St) : Reply :=
  (serveMapLayer 4 maps 1000 (@None (mapBuilder unit)) None elements inm "" key layer tt s).1.1.

Example layers :
  (status (serve "" "ebbetts" "wildfire" (store_of OK [])), body (serve "" "ebbetts" "wildfire" (store_of OK []))) = (200, "b,a OK 1000")
  /\ status (serve "" "alpine" "wildfire" (store_of OK [])) = 404
  /\ status (serve "" "ebbetts" "wildfire" (store_of OK [false; true])) = 500
  /\ body (serve "" "ebbetts" "evacuation" (store_of UNAVAILABLE [])) = " UNAVAILABLE 1000"
  /\ body (serve "" "ebbetts" "evacuation" (store_of OK [])) = " OK 1000"
  /\ status (serve (ETag (serve "" "ebbetts" "wildfire" (store_of OK []))) "ebbetts" "wildfire" (store_of OK [])) = 304
  /\ status (serve "" "ebbetts" "nothing" (store_of OK [])) = 404
  /\ status (serve "" "ebbetts" "fire_weather" (store_of OK [])) = 501.
Proof. vm_compute. repeat split. Qed.

Abbreviation quiet := (store_of OK []).
Lemma event_layer_served_witness :
  (exists evs shown md, overlaid (Mesh.mesh_activity (Tx.db quiet).2) evs shown
     /\ honest_metadata "wildfire" ebbetts shown (Sources.source_of <$> by_id (sources (Tx.db quiet).1)) md
     /\ serve "" "ebbetts" "wildfire" quiet = writeFeatureCollection "" (ProjectEvents "wildfire" shown) md)
  /\ serve "" "alpine" "wildfire" quiet = notFound "unknown place: alpine".
Proof.
  pose proof (fun key => event_layer_served 4 maps 1000 (@None (mapBuilder unit)) None elements "" "" key "wildfire" WILDFIRE tt quiet
    eq_refl (fun _ _ _ _ => I : Query.representable (Query.event_key _))) as Hs. cbv zeta in Hs. split.
  - specialize (Hs "ebbetts").
    replace (Places.find_place (Tx.db quiet).1 "ebbetts") with (Some ebbetts) in Hs by (vm_compute; reflexivity).
    destruct Hs as [[_ [Hn|Hn]]|(evs & shown & md & _ & Ho & Hm & Hr)].
    + by destruct Hn.
    + exfalso. vm_compute in Hn. lia.
    + exists evs, shown, md. split; [exact Ho|split; [exact Hm|exact Hr]].
  - specialize (Hs "alpine").
    replace (Places.find_place (Tx.db quiet).1 "alpine") with (@None Place) in Hs by (vm_compute; reflexivity).
    destruct Hs as [Hr|[_ Hn]]; [exact Hr|by destruct Hn].
Defined.

(** ** Validators *)

Definition feature (id : string) : Feature :=
  MapFeatures.mkFeature None (MapFeatures.mkProperties id "" "" "" "" 0 "" "" "" None "" "" "" "" "" (MapFeatures.mkSource "" "" "" "") None).
Definition md (at_ : string) : Metadata := mkMetadata "wildfire" "ebbetts" at_ "OK" "" "" "" 1.

Lemma layer_validator_witness :
  let held := writeFeatureCollection "" [feature "a"] (md "1000") in
  (status (writeFeatureCollection (ETag held) [feature "a"] (md "2000")) = 304)
  /\ status (writeFeatureCollection (ETag held) [feature "b"] (md "2000")) = 200.
Proof.
  cbn zeta.
  pose proof (fun id => layer_validator (MJ := json_of) (EX := errors) hash_hex "" [feature "a"] (md "1000") [feature id] (md "2000") [geojson; "a"; "O"] [geojson; id; "O"]
    (id +:+ " OK 2000") ltac:(vm_compute; reflexivity) eq_refl) as Hv. split.
  - apply (proj1 (Hv "a" eq_refl eq_refl ltac:(repeat constructor) ltac:(repeat constructor) ltac:(done) ltac:(done))). done.
  - apply (proj2 (Hv "b" eq_refl eq_refl ltac:(repeat constructor) ltac:(repeat constructor) ltac:(vm_compute; intros; done) ltac:(done))).
    vm_compute. done.
Defined.

(** ** A topology *)

Definition node (key : string) : Event :=
  mkEvent key MESH "" INFO ACTIVE "" "" "" "" "" (Some (mkGeometry "" None (Some (mkLatLng zero zero)))) [] None None None None None 1 None
    (Some (D_Mesh (mkMeshDetail key "repeater" "" None MESH_REACHABILITY_UNSPECIFIED))).
Definition link : MeshLink := mkMeshLink "aa" "bb" 3 zero 100 200 1.
Definition backwards (s : gset string) : list string := reverse (elements s).

Lemma topology_closed_witness :
  exists order, NoDup order /\ (forall pk, pk ∈ order <-> shown (located [node "aa"; node "bb"]) (region [node "aa"]) [link] pk).
Proof.
  destruct (topology_closed elements [node "aa"; node "bb"] [node "aa"] [link] ltac:(done)) as (order & Hn & Ho & _). by exists order.
Defined.

(** The same nodes and the same links in another order of the map: a client that
    holds the first answer is sent the second in full. *)
Lemma topology_order_shows :
  let fs range := topology range [node "aa"; node "bb"] [node "aa"] [link] in
  fs backwards ≡ₚ fs elements
  /\ status (writeFeatureCollection (ETag (writeFeatureCollection "" (fs elements) (md "1000"))) (fs backwards) (md "1000")) = 200
  /\ status (writeFeatureCollection (ETag (writeFeatureCollection "" (fs elements) (md "1000"))) (fs elements) (md "2000")) = 304.
Proof.
  cbn zeta. split; [|vm_compute; done]. vm_compute. constructor. apply perm_swap.
Qed.

End MapDemo.
